(* ===== verification/_CoqProject ===== *)
-Q . S2P
Prelude.v
BTree.v
Reach.v
Text.v
Errors.v
Types.v
Paths.v
Specs.v
Crates.v
Semver.v
Select.v
Lockfile.v
Filters.v
Peers.v
Resolver.v
World.v
Http.v
Store.v
Pack.v
Roots.v
Config.v
Publish.v
Patches.v
Scripts.v
Linker.v
Sharing.v
Layout.v
InstallState.v
Residency.v
Discovery.v
Compat.v
NpmLock.v
PnpmLock.v
BunLock.v
YarnLock.v
Importers.v
Why.v
Scenario.v
Plan.v
WorkspacePlan.v
LinkFs.v
StoreFs.v
StoreTree.v
StoreSafe.v
StoreBlobs.v
Node.v
NodeInstall.v
MetadataCache.v
Protocols.v
SideEffects.v
Lifecycle.v
LifecycleSafe.v
Run.v
Rebuild.v
AuditRequest.v
AuditReport.v
LinkStore.v
Install.v
Staleness.v
Maintenance.v
WorkspaceInstall.v
