(* ===== verification/Prelude.v ===== *)
(** * snpm: a verification library

    snpm is a package manager for Node.js projects, written in Rust
    ([src/snpm-core], with the version ranges in [src/snpm-semver]).  An install
    reads the manifests of a project or a workspace, works out the root
    dependencies, resolves them against a registry into a graph of packages,
    writes the graph to a lockfile, downloads and verifies every package into a
    store and links it.  Packing and publishing go the other way.  This library
    models the parts that decide something as executable functions and proves
    what makes them correct; installations, the store, Node versions and lifecycle
    scripts are modelled with their effects, over a world of files.  What the
    crates do that only move bytes (HTTP, archives, processes) is a parameter.

    ** How the parts interact

    - [Config] reads rc files and the environment into a [SnpmConfig]; it says
      which registry serves a package and which credentials go with a request.
    - [Roots] turns the manifests of a project or of all workspace members into
      required and optional root specifiers: catalogs, workspace members, merged
      ranges.
    - [Specs] reads one specifier (protocols, aliases, overrides, [workspace:]
      entries, what a user types) into the request for a registry.
    - [Protocols] fetches packuments from the registries of npm and jsr, from git
      and from directories, with [MetadataCache] in front of the registries.
    - [Semver] parses ranges, [Select] chooses a version for a range from a
      packument under the age policy, [Peers] checks platforms and peers.
    - [Resolver] runs the concurrent resolution on top of these and yields a
      [ResolutionGraph]; it hands every package to the install engine.
    - [Lockfile] writes the graph, reads it back (through a binary sidecar), and
      decides whether it still answers the manifest; the previous graph is the
      resolver's seed.
    - [Store] verifies the archives of the packages and bounds the concurrency;
      [Residency] says which packages the store already holds, and where.
      [Http] is the loop of retries; [StoreFs] downloads, verifies, unpacks and
      moves a package to its place, and describes it for the linker.
    - [Scenario] decides how much of an installation has to run.  It asks
      [InstallState], the file an installation leaves behind (the graph, a hash
      of the root specifiers, the layout), [Layout], what [node_modules] is
      expected to look like, the integrity file, [Lockfile] and [Residency].
    - [Discovery] finds the project and the workspace on disk.  [Importers] reads
      the lockfile of another package manager where there is none of snpm:
      [NpmLock], [PnpmLock], [BunLock], [YarnLock], over what they share in
      [Compat].
    - [Linker] says what goes where in [node_modules]: root links, hoisting,
      launchers, peers.  [Sharing] says which packages live in the store all
      projects share, under which directory and hash.  [LinkFs] makes files and
      directories appear by clones, links or copies, [LinkStore] the virtual
      stores and [node_modules].
    - [Plan] and [WorkspacePlan] put together what an installation of a project
      or of a workspace will do; [Install] and [WorkspaceInstall] do it: resolve,
      store, write the lockfile and the manifest, link, patch, run scripts and
      save the state.  Both run in the monad of [World], a state of files that
      keeps what was done before a failure.
    - [Patches] keeps the patches of packages, [Scripts] decides which lifecycle
      scripts run and in which order; [Lifecycle] walks [node_modules] and runs
      them, [SideEffects] keeps what they made in a cache and on a server.
    - [Maintenance] upgrades, removes and reports outdated dependencies on top of
      an installation; [Why] explains why a package is there.
    - [Node] reads the index of Node releases, pins and aliases; [NodeInstall]
      downloads, verifies and removes versions and says which one a project runs
      with, which is the [PATH] of its scripts.
    - [Filters] chooses the workspace members a command applies to.  [Run] runs
      scripts and commands in them, [Staleness] says whether an installation is due
      before, [Rebuild] runs the installation scripts of what is installed again.
    - [AuditRequest] asks the registry about the packages of the lockfile,
      [AuditReport] says which of them are vulnerable.
    - [Pack] collects and audits the files of a package, [Publish] rewrites its
      manifest, decides whether it may be sent and builds what is sent.

    ** Files and sources

    Paths are relative to [src/snpm-core/src] unless they say otherwise.

    - [Prelude]: results as a monad, loops with early return, machine words, the
      hint database and the tactics.  [BTree]: ordered maps and sets of the
      standard library ([BTreeMap] as [gmap] with a sorted traversal).
      [Reach]: depth-first and breadth-first search over an edge relation.
      [Text]: strings as UTF-8 bytes.  [Paths]: [std::path], files and
      directories.  [Crates]: third-party crates as type classes.
    - [Errors]: [error.rs].  [Types]: the structs of [project/manifest.rs],
      [project/io.rs], [workspace/types.rs], [config/types/], [registry/types/],
      [resolve/types.rs], [lockfile/types.rs].
    - [Specs]: [resolve/query/], [resolve/source/],
      [operations/install/manifest/{protocol,parsing}.rs].
    - [Semver]: [src/snpm-semver/src].  [Select]: [version/].
    - [Peers]: [platform/], [resolve/peers/].
    - [MetadataCache]: [cache/].  [Protocols]: [registry/mod.rs], [protocols/].
    - [Resolver]: [resolve/package/], [resolve/engine/].
    - [Lockfile]: [lockfile/graph/], [lockfile/matching.rs], [lockfile/io/].
    - [Store]: [store/integrity.rs], [store/limits.rs].  [Http]: [http.rs].
      [StoreFs]: [store/{ensure,local,remote,fetch,metadata}.rs],
      [store/archive/], [store/filesystem/copy.rs]; [StoreTree], [StoreSafe] and
      [StoreBlobs] have its theorems.
    - [Filters]: [operations/run/filters.rs].  [Run]: the rest of
      [operations/run/].  [Staleness]: [operations/lazy/].  [Rebuild]:
      [operations/rebuild.rs].
    - [AuditRequest], [AuditReport]: [operations/audit/].
    - [Pack]: [operations/pack/].  [Publish]: [operations/publish/],
      [project/package_json.rs].
    - [Roots]: [operations/install/manifest/{apply,root_specs,types,write}.rs],
      [operations/install/workspace/root_specs/].
    - [Config]: [config/rc/], [config/env_vars.rs], [config/runtime/],
      [config/access/].
    - [Patches]: [patch/], [operations/patch/].  [Scripts]: what [lifecycle/]
      decides.  [SideEffects]: [lifecycle/runner/{cache,remote_cache}.rs].
      [Lifecycle]: [lifecycle/runner/{walk,execute,manifest}.rs],
      [script_env.rs]; its theorems are in [LifecycleSafe].
    - [Maintenance]: [operations/install/maintenance/].  [Why]: [operations/why/].
    - [Node], [NodeInstall]: [node/].
    - [Discovery]: [project/], [workspace/], [operations/install/overrides.rs].
      [Compat], [NpmLock], [PnpmLock], [BunLock], [YarnLock], [Importers]:
      [lockfile/compat/].
    - [World]: the monad, and the interfaces [FsWorld] and [InstallWorld].
      [LinkFs]: [linker/fs/], [linker/bins/{writer,manifest}.rs], [copying.rs],
      [patch/apply/target.rs].  [LinkStore]: [linker/mod.rs], and the functions of
      [linker/{virtual_store,root,hoist}.rs] and [linker/bins/bundled.rs] that
      change the file system.
    - [Plan]: [operations/install/project_install/plan/],
      [operations/install/project_install/state.rs] as far as it plans.
      [WorkspacePlan]: [operations/install/workspace/{setup,plan}.rs],
      [operations/install/workspace/resolution/scenario.rs].  [Install]: the rest
      of [operations/install/project_install/],
      [operations/install/utils/store/materialize.rs],
      [operations/install/workspace/linking/local.rs].  [WorkspaceInstall]: the
      rest of [operations/install/workspace/].
    - [Linker]: [linker/hoist.rs], [linker/selection.rs], [linker/root.rs],
      [linker/fs/paths.rs], [linker/bins/], the peers of
      [linker/virtual_store.rs].  [Sharing]: the rest of
      [linker/virtual_store.rs].
    - [Layout]: [operations/install/utils/layout_state.rs].  [InstallState]:
      [operations/install/utils/{install_state,graph_snapshot,snapshot_graph}.rs].
      [Residency]: [store/{cache_index,metadata}.rs], [store/filesystem/paths.rs],
      [operations/install/utils/store/cache.rs].  [Scenario]:
      [operations/install/utils/{scenario,types,age_policy}.rs],
      [operations/install/utils/integrity/].

    A Rust function is a Rocq function of the same name; the body of a loop has
    a name of its own and the loop is [try_fold], [foldl] or a [Fixpoint].  A
    function that returns [Result] returns [Result] here, [?] is the bind of the
    monad.  A function that changes a map, a configuration or a disk takes it
    and returns it.  The [Module]s of [Specs] and [Lockfile] are name spaces for
    names the source uses twice.

    ** What the theorems show

    - Resolution ([Resolver]): for every interleaving of the concurrent calls, a
      resolution that succeeds answers the manifest, announces every package,
      never deadlocks, and leaves no edge dangling when no call failed; a seed
      is reused exactly when all it reaches is known.  [ResolverDemo] has the
      counterexample to a comment about failing optional subtrees.
    - Lockfile ([Lockfile]): writing and reading give the graph back, the
      sidecar never changes what is read, and a lockfile matches a manifest
      exactly when it lists the same requests.
    - Packuments ([MetadataCache], [Protocols]): what is saved is what is loaded,
      for as long as it is fresh; fetching operates only in the cache, whatever
      the servers answer; nothing is asked of a server when offline.
    - Versions ([Semver], [Select]): the syntax that range parsing accepts, what
      each rewriting yields at the bounds of [u64], and that the chosen version
      is the greatest eligible one, with every reason for failing.
    - Specifiers and roots ([Specs], [Roots]): recursion, round trips and the
      request for each kind of specifier; how dependencies are divided between
      the workspace and the registry, and what merging two ranges guarantees.
    - Security ([Config], [Store], [Pack], [Publish]): credentials for a tarball
      only go to the package's own registry; an archive is accepted exactly when
      a supported digest matches; what is packed, what the audit lets through,
      and that nothing unsafe is published without an allowed risk.
    - Deciding what runs ([Scenario], [InstallState], [Layout], [Residency]): no
      work is skipped for a graph that does not answer the manifest, and what an
      installation leaves behind makes the next one find nothing to do; the state
      file comes back as it was written, the fast check accepts what the full
      check accepts, the hashes stand for what they hash.
    - Linking ([Linker], [Sharing]): peers are bound as promised, nothing outside
      the package is launched, nothing but stale links is removed; a shared entry
      only uses shared entries, its hash is a Merkle hash of what it is wired to,
      and no two entries share a directory.
    - Linking as it is done ([LinkFs], [LinkStore]): an entry of the shared store
      is complete or absent; with a closed graph and a filled store linking fails
      only in the file system; the memory of link failures answers what the last
      attempt between two devices did.
    - Whole installations ([Install], [WorkspaceInstall], [Plan],
      [WorkspacePlan]): what is linked has been stored, a failure before the end
      of the resolution changes nothing outside the store, the lockfile is written
      when it should and is that of the installed graph; when a frozen
      installation refuses, and what an installation without development
      dependencies costs.  [InstallDemo] and [WorkspaceInstallDemo] run whole
      installations.
    - Importing ([Importers] and the files below it): what is imported is a
      well-formed lockfile with a closed graph, dependencies are looked up as Node
      does; the members of a workspace ([Discovery]).
    - The store ([StoreTree], [StoreSafe], [StoreBlobs], [Http]): filling it
      operates only at paths of the store and the cache, whatever archives contain,
      which is the law [World] asks of it; what is unpacked has the digest that
      was asked for; the description of a package links to the same tree as
      walking it; retries end.
    - Patches and scripts ([Patches], [Scripts], [SideEffects], [LifecycleSafe]):
      a committed patch is applied; the commands an installation starts are scripts
      of allowed packages, once, after the scripts of what they depend on; the walk
      of [node_modules] ends and looks at a package once; what is put into the
      cache is complete, and a bad archive leaves a package as it is.
    - Maintenance and explanations ([Maintenance], [Why]): an upgrade rewrites only
      the ranges it should, a failed one leaves the project as it was or fails
      while installing; the paths that are reported are chains of the lockfile.
    - Node ([Node], [NodeInstall]): the newest matching release is chosen, an alias
      is followed to what it names, a version is installed only from an archive
      with the published checksum, and a failure leaves nothing but its temporary
      directory.
    - Workspaces ([Filters]): the syntax of selectors and what they select, the
      walks being reachability in the dependency graph.
    - Running ([Run], [Rebuild], [Staleness]): the shell reads an argument as one
      word that it does not expand; a script runs between its pre and post scripts
      in its project; rebuilding runs scripts of allowed packages; no installation
      is due after an installation, and one that is not due has nothing to add.
    - Auditing ([AuditRequest], [AuditReport]): the request names every installed version,
      the report has every version the registry knows to be vulnerable and nothing
      else.

    The files of the components end with the witnesses of their theorems on
    concrete inputs, in a [Demo] module (that of [Peers] is in [Resolver]),
    together with the counterexamples that modelling showed.

    ** Interfaces and assumptions

    Code outside the repository is an argument: [SemverCrate] (versions and
    requests of the [semver] crate, with a total order), [TimeCrate], [UrlCrate],
    [GlobCrate], [GlobWalk], [JsonCrate], [JsonPrinter], [LockCrates] (YAML,
    bincode and SHA-256 with their round trips), [DigestCrates], [Bincode] (the
    binary encoding of one type, with its round trip), [HashIter] (the order in
    which a hash map is traversed, any permutation), [LayoutJson] and
    [MetadataJson] (the JSON files of the layout and of a package in the store,
    read and written by serde), [BinManifestJson], [ConfigFiles],
    [GlobEntries], [GitBranch], [NpmFormat], [PnpmFormat], [BunFormat],
    [YarnFormat] (the other files serde reads, and what is asked of git),
    [FsWorld] (the system calls that change the file system, and what the process
    remembers of them), [StoreWorld], [TarCrate], [NodeWorld], [VersionFields],
    [NodeIndexJson], [NodeArchives], [NodeUnpack], [ScriptWorld], [TarBuilder],
    [LifecycleWorld], [RunWorld], [NodeLog], [BulkJson], [AuditWorld], [CacheWorld], [RegistryWorld], [HttpCrates], [CharTables] and
    [LegacyJson] (requests, archives, temporary files, the environment and
    the shell), [InstallWorld] (running scripts and [patch], the store's
    download of one package, the resolver as an operation, the clock; its laws
    say that the network only fills the store and that a resolution is a run of
    the machine of [Resolver]), [Target] (the
    platform of the build), [GitProgram], and [Registry] (what fetching a
    packument gives, which does not change during a resolution).  The laws that
    are relied on are classes of their own, each with an instance that meets
    them.  Strings are bytes; only white space looks at Unicode.  [usize] has 64
    bits.

    ** Fuel

    [split_protocol_spec] has one unit of fuel per character and one more, since
    its recursive call is on a shorter text; a theorem shows it is the only
    solution of the recursion.  The searches of [Reach] have fuel from the number
    of edges and nodes and are proved to end; [seed_fuel] is that number for a
    seed.  [expand_env_vars] has one unit per byte, and more changes nothing.
    The walk over directories in [Pack] has its depth as fuel; it ends as soon
    as the fuel exceeds the depth to which directories are nested.
    [topological_chunks] has one round per job, [spread_loop] one more round than
    there are packages, [hash_fuel] is one more than the number of packages: each
    is proved to be enough.  The lookups of the importers go up a path and have its
    length; what goes through a directory of the store has the depth of the file
    system ([fs_depth]).  The walk of [node_modules] has the number of directories
    ([directory_count]) and [walk_ends] shows that more changes nothing.  The walk of
    an audit goes to no package twice on one path: its fuel is one more than the
    number of packages, and more changes nothing.  The
    resolver has no fuel: a schedule is a list of steps.

    ** What is not modelled

    Licenses, the login, global packages and the command line are not modelled.  The resolver sees the registries as the interface
    [Registry]; [Protocols] models the requests on their own.  Inside [NpmLock] and its like the
    parsers of serde are parameters.  Where a file is written by packing or
    publishing the model gives its path and its content.  Tasks that run in
    parallel below different directories are run in order.  The metadata
    prefetch of the resolver only saves requests.
    Messages to the console are left out. *)
From Stdlib Require Export Ascii ZArith NArith Lia.
From stdpp Require Export base tactics option list list_numbers strings gmap fin_maps fin_sets sorting.

(** ** The result type of fallible code

    [std::result::Result<A, E>], as a monad in stdpp's [mret]/[mbind] notation:
    [x ← e; k] is the source's [let x = e?; k]. *)
Inductive result (E A : Type) : Type :=
| Ok (a : A)
| Err (e : E).
Arguments Ok {E A} a.
Arguments Err {E A} e.

Global Instance result_ret {E} : MRet (result E) := fun A a => Ok a.
Global Instance result_bind {E} : MBind (result E) := fun A B k m =>
  match m with Ok a => k a | Err e => Err e end.
Global Instance result_fmap {E} : FMap (result E) := fun A B f m =>
  match m with Ok a => Ok (f a) | Err e => Err e end.

Global Instance Ok_inj {E A} : Inj (=) (=) (@Ok E A).
Proof. by intros a b [= ->]. Qed.

Definition is_ok {E A} (r : result E A) : bool :=
  match r with Ok _ => true | Err _ => false end.

(** [Option::ok_or_else], [Result::ok], [Result::map_err] *)
Definition ok_or {E A} (e : E) (o : option A) : result E A :=
  match o with Some a => Ok a | None => Err e end.
Definition result_ok {E A} (r : result E A) : option A :=
  match r with Ok a => Some a | Err _ => None end.
Definition map_err {E F A} (f : E -> F) (r : result E A) : result F A :=
  match r with Ok a => Ok a | Err e => Err (f e) end.

Section result_lemmas.
Context {E : Type}.

Lemma result_bind_Ok {A B} (m : result E A) (k : A -> result E B) b :
  m ≫= k = Ok b <-> exists a, m = Ok a /\ k a = Ok b.
Proof. destruct m; cbn; naive_solver. Qed.

Lemma result_bind_Err {A B} (m : result E A) (k : A -> result E B) e :
  m ≫= k = Err e <-> m = Err e \/ exists a, m = Ok a /\ k a = Err e.
Proof. destruct m; cbn; naive_solver. Qed.

Lemma is_ok_true {A} (r : result E A) : is_ok r = true <-> exists a, r = Ok a.
Proof. destruct r; cbn; naive_solver. Qed.
End result_lemmas.

(** A [for] loop whose body may leave early with [?]: the left fold in the
    result monad. *)
Fixpoint try_fold {E A B} (f : A -> B -> result E A) (a : A) (l : list B) : result E A :=
  match l with
  | [] => Ok a
  | b :: l => a' ← f a b; try_fold f a' l
  end.

(** [for x in l { body(x)?; }] *)
Fixpoint try_each {E B} (f : B -> result E unit) (l : list B) : result E unit :=
  match l with
  | [] => Ok tt
  | b :: l => _ ← f b; try_each f l
  end.

Lemma try_each_ok {E B} (f : B -> result E unit) l :
  try_each f l = Ok tt <-> Forall (fun b => f b = Ok tt) l.
Proof.
  induction l as [|b l IH]; cbn; [naive_solver|].
  rewrite Forall_cons, <-IH. destruct (f b) as [[]|]; cbn; naive_solver.
Qed.

Lemma try_each_err {E B} (f : B -> result E unit) l e :
  try_each f l = Err e <->
  exists l1 b l2, l = l1 ++ b :: l2 /\ Forall (fun c => f c = Ok tt) l1 /\ f b = Err e.
Proof.
  induction l as [|b l IH]; cbn.
  { split; [done|]. intros (l1 & b & l2 & Hl & _). by destruct l1. }
  destruct (f b) as [[]|e'] eqn:Hb; cbn.
  - rewrite IH. split.
    + intros (l1 & c & l2 & -> & ? & ?). exists (b :: l1), c, l2. by rewrite Forall_cons.
    + intros ([|b' l1] & c & l2 & Hl & Hall & ?); simplify_eq/=; [congruence|].
      inversion Hall; subst. eauto 6.
  - split.
    + intros [= ->]. by exists [], b, l.
    + intros ([|b' l1] & c & l2 & Hl & Hall & ?); simplify_eq/=; [congruence|].
      inversion Hall; congruence.
Qed.

Lemma try_fold_app {E A B} (f : A -> B -> result E A) a l1 l2 :
  try_fold f a (l1 ++ l2) = (a' ← try_fold f a l1; try_fold f a' l2).
Proof.
  revert a. induction l1 as [|b l1 IH]; intros a; cbn; [done|].
  destruct (f a b); cbn; auto.
Qed.

(** An invariant of the loop state survives a loop that ends normally. *)
Lemma try_fold_inv {E A B} (f : A -> B -> result E A) (P : A -> Prop) l :
  (forall a b a', b ∈ l -> P a -> f a b = Ok a' -> P a') ->
  forall a a', P a -> try_fold f a l = Ok a' -> P a'.
Proof.
  induction l as [|b l IH]; intros Hstep a a' Ha; cbn; [by intros [= <-]|].
  destruct (f a b) as [a1|] eqn:Hf; cbn; [|done].
  apply IH; [|eapply Hstep; eauto; by left].
  intros; eapply Hstep; eauto; by right.
Qed.

(** The same for plain folds. *)
Lemma foldl_inv {A B} (f : A -> B -> A) (P : A -> Prop) l :
  (forall a b, b ∈ l -> P a -> P (f a b)) -> forall a, P a -> P (foldl f a l).
Proof.
  induction l as [|b l IH]; intros Hstep a Ha; cbn; [done|].
  apply IH; [|apply Hstep; [by left|done]].
  intros; apply Hstep; [by right|done].
Qed.

Lemma foldl_ext {A B} (f g : A -> B -> A) (a : A) (l : list B) :
  (forall a b, f a b = g a b) -> foldl f a l = foldl g a l.
Proof. intros Hfg. revert a. induction l as [|b l IH]; intros a; cbn; [done|]. by rewrite Hfg. Qed.

(** [iter().enumerate()] *)
Definition enumerate {A} (l : list A) : list (nat * A) := imap pair l.

Lemma elem_of_enumerate {A} (l : list A) i x : (i, x) ∈ enumerate l <-> l !! i = Some x.
Proof.
  unfold enumerate. rewrite elem_of_lookup_imap. split.
  - intros (j & y & [= -> ->] & ?). done.
  - intros Hx. by exists i, x.
Qed.

(** [Iterator::skip_while] *)
Fixpoint drop_while {A} (f : A -> bool) (l : list A) : list A :=
  match l with
  | [] => []
  | a :: l' => if f a then drop_while f l' else l
  end.

(** [Iterator::any] and [Iterator::all] on lists. *)
Lemma existsb_true {A} (f : A -> bool) l :
  existsb f l = true <-> exists x, x ∈ l /\ f x = true.
Proof.
  rewrite existsb_exists. by setoid_rewrite list_elem_of_In.
Qed.
Lemma forallb_true {A} (f : A -> bool) l :
  forallb f l = true <-> forall x, x ∈ l -> f x = true.
Proof.
  rewrite forallb_forall. by setoid_rewrite list_elem_of_In.
Qed.
Lemma existsb_false {A} (f : A -> bool) l :
  existsb f l = false <-> forall x, x ∈ l -> f x = false.
Proof.
  rewrite <-not_true_iff_false, existsb_true. split.
  - intros H x Hx. apply not_true_iff_false. eauto.
  - intros H (x & Hx & Hf). rewrite H in Hf; done.
Qed.

Lemma exists_cons {A} (P : A -> Prop) x l :
  (exists y, y ∈ x :: l /\ P y) <-> P x \/ exists y, y ∈ l /\ P y.
Proof. setoid_rewrite elem_of_cons. naive_solver. Qed.

(** ** Machine words *)
Definition u64_max : N := 18446744073709551615.
Definition u64_modulus : N := 18446744073709551616.
Definition u64_wrapping_add (a b : N) : N := (a + b) mod u64_modulus.
Definition u64_checked_add (a b : N) : option N :=
  if decide (a + b <= u64_max)%N then Some (a + b)%N else None.

(** ** Proof automation *)
Create HintDb snpm discriminated.

(** Case analysis on the scrutinee of a match of the goal or a hypothesis, with
    its equation; then simplification of the equations. *)
Ltac case_step :=
  match goal with
  | H : context [match ?x with _ => _ end] |- _ => destruct x eqn:?; simplify_eq/=
  | |- context [match ?x with _ => _ end] => destruct x eqn:?; simplify_eq/=
  end.
Ltac case_all := repeat (simplify_eq/=; try case_step).

(** Boolean guards of the code as propositions. *)
Ltac bool_prop :=
  repeat match goal with
  | H : _ && _ = true |- _ => apply andb_true_iff in H as [? ?]
  | H : _ && _ = false |- _ => apply andb_false_iff in H
  | H : _ || _ = false |- _ => apply orb_false_iff in H as [? ?]
  | H : _ || _ = true |- _ => apply orb_true_iff in H
  | H : negb _ = true |- _ => apply negb_true_iff in H
  | H : negb _ = false |- _ => apply negb_false_iff in H
  | H : String.eqb _ _ = true |- _ => apply String.eqb_eq in H
  | H : String.eqb _ _ = false |- _ => apply String.eqb_neq in H
  | H : bool_decide _ = true |- _ => apply bool_decide_eq_true in H
  | H : bool_decide _ = false |- _ => apply bool_decide_eq_false in H
  end.

(** Closed equations by evaluation in the kernel's virtual machine, without
    reading the normal form back. *)
Ltac vm_refl :=
  lazymatch goal with |- @eq ?T ?a ?b => vm_cast_no_check (@eq_refl T b) end.
