(* ===== verification/BTree.v ===== *)
(** * Ordered maps and sets of the Rust standard library

    [BTreeMap<K, V>] is modelled by stdpp's [gmap K V] and [BTreeSet<K>] by
    [gset K].  What the code adds to a finite map is the order in which it is
    traversed: [btree_iter m] lists the entries of [m] by increasing key, and
    [bset_iter s] the elements of [s].  [collect] is
    [Iterator::collect::<BTreeMap<_, _>>()] (a later pair replaces an earlier
    one with the same key).  The order is an interface, [RustOrd]; it is
    implemented for strings (bytewise, as [str: Ord]), for pairs (the derived
    lexicographic [Ord] of a struct with two fields) and for lists. *)
From S2P Require Import Prelude.

Class RustOrd (K : Type) := {
  ord_le : relation K;
  ord_le_dec :: RelDecision ord_le;
  ord_le_po :: PartialOrder ord_le;
  ord_le_total :: Total ord_le;
}.
Global Hint Mode RustOrd ! : typeclass_instances.

Global Instance string_ord : RustOrd string := {| ord_le := String.le |}.

Global Instance nat_ord : RustOrd nat.
Proof. refine {| ord_le := Nat.le |}; apply _. Defined.

Lemma ord_antisymm `{RustOrd K} (a b : K) : a <> b -> ord_le a b -> ord_le b a -> False.
Proof. intros Hne ??. apply Hne. by apply (anti_symm ord_le). Qed.

Section pair_ord.
Context {A B : Type} `{EqDecision A} `{RustOrd A} `{RustOrd B}.

Definition pair_le : relation (A * B) := fun p q =>
  if decide (p.1 = q.1) then ord_le p.2 q.2 else ord_le p.1 q.1.

Lemma pair_le_po : PartialOrder pair_le.
Proof.
  unfold pair_le. split; [split|].
  - intros p. rewrite decide_True; done.
  - intros [a1 b1] [a2 b2] [a3 b3]; cbn; intros H12 H23.
    repeat case_decide; simplify_eq; try done; try by etrans.
    exfalso. by eapply ord_antisymm.
  - intros [a1 b1] [a2 b2]; cbn; intros H12 H21.
    repeat case_decide; simplify_eq.
    + f_equal. by apply (anti_symm ord_le).
    + exfalso. by eapply ord_antisymm.
Qed.

Lemma pair_le_total : Total pair_le.
Proof.
  unfold pair_le. intros [a1 b1] [a2 b2]; cbn.
  repeat case_decide; simplify_eq; apply (total ord_le).
Qed.

Global Instance pair_ord : RustOrd (A * B).
Proof.
  refine {| ord_le := pair_le |}.
  - intros p q. unfold pair_le. case_decide; apply ord_le_dec.
  - apply pair_le_po.
  - apply pair_le_total.
Defined.
End pair_ord.

(** The lexicographic [Ord] of slices. *)
Section list_ord.
Context {A : Type} `{EqDecision A} `{RustOrd A}.

Fixpoint list_le (l k : list A) : Prop :=
  match l, k with
  | [], _ => True
  | _ :: _, [] => False
  | a :: l, b :: k => if decide (a = b) then list_le l k else ord_le a b
  end.

Lemma list_le_dec : RelDecision list_le.
Proof.
  intros l. induction l as [|a l IH]; intros [|b k]; cbn; try apply _.
  destruct (decide (a = b)); [apply IH|apply ord_le_dec].
Defined.

Lemma list_le_po : PartialOrder list_le.
Proof.
  split; [split|].
  - intros l. induction l; cbn; [done|]. by rewrite decide_True.
  - intros l1 l2 l3. revert l2 l3. induction l1 as [|a l1 IH]; intros [|b l2] [|c l3]; cbn; try done.
    intros H12 H23. repeat case_decide; simplify_eq; try done; try by etrans; eauto.
    1: by eapply IH.
    exfalso. by eapply ord_antisymm.
  - intros l1. induction l1 as [|a l1 IH]; intros [|b l2]; cbn; try done.
    intros H12 H21. repeat case_decide; simplify_eq; [f_equal; auto|].
    exfalso. by eapply ord_antisymm.
Qed.

Lemma list_le_total : Total list_le.
Proof.
  intros l. induction l as [|a l IH]; intros [|b k]; cbn; auto.
  repeat case_decide; simplify_eq; [apply IH|apply (total ord_le)].
Qed.

Global Instance list_ord : RustOrd (list A).
Proof. exact {| ord_le := list_le; ord_le_dec := list_le_dec; ord_le_po := list_le_po; ord_le_total := list_le_total |}. Defined.
End list_ord.

(** ** Traversal of a set *)
Section bset.
Context {K : Type} `{Countable K} `{RustOrd K}.

Definition bset_iter (s : gset K) : list K := merge_sort ord_le (elements s).

Lemma bset_iter_perm s : bset_iter s ≡ₚ elements s.
Proof. apply merge_sort_Permutation. Qed.

Lemma elem_of_bset_iter s x : x ∈ bset_iter s <-> x ∈ s.
Proof. rewrite bset_iter_perm. apply elem_of_elements. Qed.

Lemma NoDup_bset_iter s : NoDup (bset_iter s).
Proof. rewrite bset_iter_perm. apply NoDup_elements. Qed.

Lemma bset_iter_sorted s : StronglySorted ord_le (bset_iter s).
Proof. apply (StronglySorted_merge_sort ord_le). Qed.

(** The traversal determines the set and is determined by it: any
    duplicate-free increasing list of the elements is the traversal. *)
Lemma bset_iter_unique s l :
  NoDup l -> StronglySorted ord_le l -> (forall x, x ∈ l <-> x ∈ s) -> bset_iter s = l.
Proof.
  intros Hnd Hl Hs. apply (StronglySorted_unique ord_le); [apply bset_iter_sorted|done|].
  apply NoDup_Permutation; [apply NoDup_bset_iter|done|].
  intros x. by rewrite elem_of_bset_iter, Hs.
Qed.
End bset.

(** ** Traversal of a map *)
Section btree.
Context {K : Type} `{Countable K} `{RustOrd K} {V : Type}.
Implicit Types (m : gmap K V) (l : list (K * V)).

Definition entry_le : relation (K * V) := fun p q => ord_le p.1 q.1.

Global Instance entry_le_dec : RelDecision entry_le.
Proof. intros p q. apply ord_le_dec. Defined.
Global Instance entry_le_total : Total entry_le.
Proof. intros p q. apply (total ord_le). Qed.
Global Instance entry_le_trans : Transitive entry_le.
Proof. intros p q r. unfold entry_le. by etrans. Qed.

Definition btree_iter m : list (K * V) := merge_sort entry_le (map_to_list m).
Definition btree_keys m : list K := (btree_iter m).*1.
Definition btree_values m : list V := (btree_iter m).*2.

Definition collect l : gmap K V := foldl (fun m e => <[e.1 := e.2]> m) ∅ l.

(** [BTreeMap::extend] *)
Definition extend m l : gmap K V := foldl (fun m e => <[e.1 := e.2]> m) m l.

Lemma btree_iter_perm m : btree_iter m ≡ₚ map_to_list m.
Proof. apply merge_sort_Permutation. Qed.

Lemma elem_of_btree_iter m k v : (k, v) ∈ btree_iter m <-> m !! k = Some v.
Proof. rewrite btree_iter_perm. apply elem_of_map_to_list. Qed.

Lemma elem_of_btree_iter' m e : e ∈ btree_iter m <-> m !! e.1 = Some e.2.
Proof. destruct e. apply elem_of_btree_iter. Qed.

Lemma NoDup_btree_keys m : NoDup (btree_iter m).*1.
Proof. rewrite btree_iter_perm. apply NoDup_fst_map_to_list. Qed.

Lemma NoDup_btree_iter m : NoDup (btree_iter m).
Proof. eapply NoDup_fmap_1, NoDup_btree_keys. Qed.

Lemma btree_iter_sorted m : StronglySorted entry_le (btree_iter m).
Proof. apply (StronglySorted_merge_sort entry_le). Qed.

Lemma elem_of_btree_keys m k : k ∈ btree_keys m <-> is_Some (m !! k).
Proof.
  unfold btree_keys. rewrite list_elem_of_fmap. split.
  - intros ([k' v] & -> & Hin%elem_of_btree_iter). by exists v.
  - intros [v Hv]. exists (k, v). by rewrite elem_of_btree_iter.
Qed.

Lemma elem_of_btree_values m v : v ∈ btree_values m <-> exists k, m !! k = Some v.
Proof.
  unfold btree_values. rewrite list_elem_of_fmap. split.
  - intros ([k v'] & -> & Hin%elem_of_btree_iter). by exists k.
  - intros [k Hv]. exists (k, v). by rewrite elem_of_btree_iter.
Qed.

Lemma btree_iter_empty : btree_iter ∅ = [].
Proof. unfold btree_iter. by rewrite map_to_list_empty. Qed.

Lemma length_btree_iter m : length (btree_iter m) = size m.
Proof. by rewrite btree_iter_perm, length_map_to_list. Qed.

(** The last pair of a key decides. *)
Lemma extend_lookup m l k :
  extend m l !! k =
  match (list_to_map (reverse l) : gmap K V) !! k with
  | Some v => Some v
  | None => m !! k
  end.
Proof.
  induction l as [|[k' v] l IH] using rev_ind.
  { rewrite reverse_nil, list_to_map_nil, lookup_empty. done. }
  unfold extend in *. rewrite foldl_app, reverse_snoc. cbn.
  destruct (decide (k' = k)) as [->|Hne]; [by rewrite !lookup_insert_eq|].
  by rewrite !lookup_insert_ne.
Qed.

Lemma collect_list_to_map l : collect l = list_to_map (reverse l).
Proof.
  apply map_eq. intros k. change (collect l) with (extend ∅ l).
  rewrite extend_lookup, lookup_empty. by destruct (_ !! _).
Qed.

Lemma collect_snoc l k v : collect (l ++ [(k, v)]) = <[k := v]> (collect l).
Proof. unfold collect. by rewrite foldl_app. Qed.

Lemma collect_lookup l k v :
  NoDup l.*1 -> collect l !! k = Some v <-> (k, v) ∈ l.
Proof.
  intros Hnd. rewrite collect_list_to_map, <-elem_of_list_to_map.
  - by rewrite elem_of_reverse.
  - rewrite fmap_reverse. by rewrite reverse_Permutation.
Qed.

Lemma collect_lookup_Some l k v : collect l !! k = Some v -> (k, v) ∈ l.
Proof.
  rewrite collect_list_to_map. intros Hv%elem_of_list_to_map_2.
  by rewrite elem_of_reverse in Hv.
Qed.

Lemma collect_is_Some l k : is_Some (collect l !! k) <-> k ∈ l.*1.
Proof.
  rewrite collect_list_to_map. split.
  - intros [v Hv%elem_of_list_to_map_2]. rewrite elem_of_reverse in Hv.
    apply list_elem_of_fmap. by exists (k, v).
  - intros Hin. rewrite <-not_eq_None_Some. intros Hnone%not_elem_of_list_to_map.
    rewrite fmap_reverse, elem_of_reverse in Hnone. done.
Qed.

Lemma collect_btree_iter m : collect (btree_iter m) = m.
Proof.
  apply map_eq. intros k. apply option_eq. intros v.
  rewrite collect_lookup by apply NoDup_btree_keys. apply elem_of_btree_iter.
Qed.

(** Inserting the entries of one map into another: the entries of the second
    win. *)
Lemma extend_btree_iter m1 m2 : extend m1 (btree_iter m2) = m2 ∪ m1.
Proof.
  apply map_eq. intros k. rewrite extend_lookup, <-collect_list_to_map, collect_btree_iter.
  rewrite lookup_union. by destruct (m2 !! k), (m1 !! k).
Qed.
End btree.

(** A map obtained by transforming the values while traversing. *)
Lemma collect_map_values {K V W} `{Countable K} `{RustOrd K} (f : K -> V -> W) (m : gmap K V) :
  collect ((fun e => (e.1, f e.1 e.2)) <$> btree_iter m) = map_imap (fun k v => Some (f k v)) m.
Proof.
  apply map_eq. intros k. apply option_eq. intros w.
  rewrite collect_lookup, list_elem_of_fmap, map_lookup_imap.
  - split.
    + intros ([k' v] & [= -> ->] & Hv%elem_of_btree_iter). by rewrite Hv.
    + destruct (m !! k) as [v|] eqn:Hv; cbn; [intros [= <-]|done].
      exists (k, v). by rewrite elem_of_btree_iter.
  - rewrite <-list_fmap_compose. apply NoDup_btree_keys.
Qed.

(** [iter().filter_map(f).collect()] for a function that keeps the keys. *)
Lemma collect_filter_map {K V W} `{Countable K} `{RustOrd K} (f : K -> V -> option W) (m : gmap K V) :
  collect (omap (fun e => pair e.1 <$> f e.1 e.2) (btree_iter m)) = map_imap f m.
Proof.
  assert (Hkeys : forall l : list (K * V), NoDup l.*1 ->
    NoDup (omap (fun e => pair e.1 <$> f e.1 e.2) l).*1 /\
    forall k, k ∈ (omap (fun e => pair e.1 <$> f e.1 e.2) l).*1 -> k ∈ l.*1).
  { induction l as [|[k v] l IH]; cbn; [done|]. intros [Hk Hl]%NoDup_cons.
    destruct (IH Hl) as [IH1 IH2]. destruct (f k v); cbn.
    - split; [constructor; auto|]. intros k'. rewrite !elem_of_cons. naive_solver.
    - split; [done|]. intros k' Hk'. right. auto. }
  apply map_eq. intros k. apply option_eq. intros w.
  rewrite collect_lookup by apply Hkeys, NoDup_btree_keys.
  rewrite list_elem_of_omap, map_lookup_imap. split.
  - intros ([k' v] & Hv%elem_of_btree_iter & Heq). cbn in Heq.
    destruct (f k' v) eqn:Hf; simplify_eq/=. by rewrite Hv.
  - destruct (m !! k) as [v|] eqn:Hv; cbn; [|done]. intros Hf.
    exists (k, v). rewrite elem_of_btree_iter. cbn. by rewrite Hf.
Qed.

(** A loop over a map that inserts at most one entry under each key: the entry
    of the traversed map decides where it gives one. *)
Lemma foldl_insert_lookup {K V W} `{Countable K} (f : K -> V -> option W) (l : list (K * V))
    (m0 : gmap K W) k :
  NoDup l.*1 ->
  foldl (fun m e => match f e.1 e.2 with Some w => <[e.1 := w]> m | None => m end) m0 l !! k =
  match (list_to_map l : gmap K V) !! k ≫= f k with Some w => Some w | None => m0 !! k end.
Proof.
  revert m0. induction l as [|[k' v] l IH]; intros m0 Hnd; cbn.
  { by rewrite lookup_empty. }
  apply NoDup_cons in Hnd as [Hk Hnd]. rewrite IH by done.
  destruct (decide (k' = k)) as [->|Hne].
  - rewrite lookup_insert_eq. cbn in Hk. apply not_elem_of_list_to_map in Hk. rewrite Hk. cbn.
    destruct (f k v); by rewrite ?lookup_insert_eq.
  - rewrite lookup_insert_ne by done.
    destruct (_ ≫= f k); [done|]. destruct (f k' v); by rewrite ?lookup_insert_ne.
Qed.

Lemma list_to_map_btree_iter {K V} `{Countable K} `{RustOrd K} (m : gmap K V) :
  (list_to_map (btree_iter m) : gmap K V) = m.
Proof.
  apply map_eq. intros k. apply option_eq. intros v.
  by rewrite <-elem_of_list_to_map, elem_of_btree_iter by apply NoDup_btree_keys.
Qed.

Lemma btree_foldl_insert_lookup {K V W} `{Countable K} `{RustOrd K} (f : K -> V -> option W)
    (m : gmap K V) (m0 : gmap K W) k :
  foldl (fun m e => match f e.1 e.2 with Some w => <[e.1 := w]> m | None => m end) m0 (btree_iter m) !! k =
  match m !! k ≫= f k with Some w => Some w | None => m0 !! k end.
Proof. by rewrite foldl_insert_lookup, list_to_map_btree_iter by apply NoDup_btree_keys. Qed.

Lemma btree_foldl_insert_all_lookup {K V W} `{Countable K} `{RustOrd K} (f : K -> V -> W)
    (m : gmap K V) (m0 : gmap K W) k :
  foldl (fun m e => <[e.1 := f e.1 e.2]> m) m0 (btree_iter m) !! k =
  match m !! k with Some v => Some (f k v) | None => m0 !! k end.
Proof.
  etrans; [apply (btree_foldl_insert_lookup (fun k v => Some (f k v)))|]. by destruct (m !! k).
Qed.

(** The same, keeping what is already there ([entry(..).or_insert_with(..)]). *)
Lemma btree_foldl_or_insert_lookup {K V W} `{Countable K} `{RustOrd K} (f : K -> V -> W)
    (m : gmap K V) (m0 : gmap K W) k :
  foldl (fun m e => match m !! e.1 with Some _ => m | None => <[e.1 := f e.1 e.2]> m end)
    m0 (btree_iter m) !! k =
  match m0 !! k with Some w => Some w | None => f k <$> m !! k end.
Proof.
  replace (m !! k) with ((list_to_map (btree_iter m) : gmap K V) !! k)
    by by rewrite list_to_map_btree_iter.
  pose proof (NoDup_btree_keys m) as Hnd.
  revert m0 Hnd. induction (btree_iter m) as [|[k' v] l IH]; intros m0 Hnd; cbn.
  { rewrite lookup_empty. by destruct (m0 !! k). }
  apply NoDup_cons in Hnd as [Hk Hnd]. rewrite IH by done.
  destruct (decide (k' = k)) as [->|Hne].
  - rewrite lookup_insert_eq. destruct (m0 !! k) eqn:Hm0; cbn; rewrite ?Hm0; [done|].
    by rewrite lookup_insert_eq.
  - rewrite lookup_insert_ne by done. destruct (m0 !! k'); [done|]. by rewrite lookup_insert_ne.
Qed.

(** A loop that inserts every element under a key computed from it. *)
Lemma foldl_insert_collect {A K V} `{Countable K} (key : A -> K) (val : A -> V) (l : list A)
    (m0 : gmap K V) :
  foldl (fun m x => <[key x := val x]> m) m0 l = extend m0 ((fun x => (key x, val x)) <$> l).
Proof. unfold extend. revert m0. induction l as [|x l IH]; intros m0; [done|]. apply IH. Qed.

(** Where the key is a function of the value, the values determine the keys. *)
Lemma NoDup_btree_values {K V I} `{Countable K} `{RustOrd K} (id : V -> I) (key : I -> K) (m : gmap K V) :
  (forall k v, m !! k = Some v -> k = key (id v)) -> NoDup (id <$> btree_values m).
Proof.
  intros Hkey. apply (NoDup_fmap_1 key). unfold btree_values. rewrite <-!list_fmap_compose.
  replace (_ <$> btree_iter m) with ((btree_iter m).*1); [apply NoDup_btree_keys|].
  apply list_fmap_ext. intros i [k v] Hi. cbn. apply Hkey. apply elem_of_btree_iter.
  by eapply list_elem_of_lookup_2.
Qed.

#[export] Hint Rewrite @elem_of_btree_iter @elem_of_btree_keys @elem_of_btree_values
  @elem_of_bset_iter : snpm.

(** Mapping the values there and back. *)
Lemma map_imap_inverse {K V W} `{Countable K} (f : V -> W) (g : W -> V) (m : gmap K V) :
  (forall v, g (f v) = v) ->
  map_imap (fun _ w => Some (g w)) (map_imap (fun _ v => Some (f v)) m) = m.
Proof.
  intros Hgf. apply map_eq. intros k. rewrite !map_lookup_imap.
  destruct (m !! k); cbn; by rewrite ?Hgf.
Qed.

(** Deleting the keys of a list one after the other. *)
Lemma foldl_delete_lookup {V} (m : gmap string V) keys k :
  foldl (fun m key => delete key m) m keys !! k = if decide (k ∈ keys) then None else m !! k.
Proof.
  revert m. induction keys as [|key keys IH]; intros m; cbn; [done|]. rewrite IH.
  destruct (decide (k ∈ keys)) as [Hin|Hin]; [by rewrite decide_True by by right|].
  destruct (decide (k = key)) as [->|Hne].
  - by rewrite lookup_delete_eq, decide_True by by left.
  - rewrite lookup_delete_ne by done. by rewrite decide_False by by intros [?|?]%elem_of_cons.
Qed.
