(* ===== verification/Reach.v ===== *)
(** * Graph traversals

    The two worklist loops of the program.  [bfs] marks a node when it is
    queued and does not count the seeds ([walk_dependencies] of
    [operations/run/filters.rs]); [dfs] marks a node when it is popped from a
    stack and stops at a node the graph does not have
    ([seeded_subgraph_complete] of [resolve/package/mod.rs]).  Both are run
    with fuel; on a finite graph the fuel stated here is enough, and what they
    compute is reachability. *)
From S2P Require Import Prelude.

Section reach.
Context {K : Type} `{Countable K} (adj : K -> option (list K)).

Definition edge (a b : K) : Prop := exists l, adj a = Some l /\ b ∈ l.

(** ** Breadth first *)
Definition visit (acc : gset K * list K) (next : K) : gset K * list K :=
  let '(result, pending) := acc in
  if decide (next ∈ result) then acc else ({[next]} ∪ result, pending ++ [next]).

Fixpoint bfs (fuel : nat) (pending : list K) (result : gset K) : option (gset K) :=
  match pending with
  | [] => Some result
  | current :: pending =>
      match fuel with
      | 0 => None
      | S fuel =>
          next ← adj current;
          let '(result, pending) := foldl visit (result, pending) next in
          bfs fuel pending result
      end
  end.

Lemma visit_spec next result pending :
  exists new,
    foldl visit (result, pending) next = (list_to_set next ∪ result, pending ++ new) /\
    (forall k, k ∈ new <-> k ∈ next /\ k ∉ result) /\
    forall nodes : gset K, (forall k, k ∈ next -> k ∈ nodes) ->
      length new + size (nodes ∖ (list_to_set next ∪ result)) = size (nodes ∖ result).
Proof.
  revert result pending. induction next as [|k next IH]; intros result pending; cbn [foldl].
  { exists []. rewrite app_nil_r. split_and!.
    - f_equal. set_solver.
    - set_solver.
    - intros nodes _. cbn. f_equal. set_solver. }
  unfold visit at 2. case_decide as Hk.
  - destruct (IH result pending) as (new & -> & Hnew & Hsize). exists new. split_and!.
    + f_equal. set_solver.
    + intros k'. rewrite Hnew, elem_of_cons. split; [naive_solver|]. intros [[->|?] ?]; naive_solver.
    + intros nodes Hnodes. rewrite <-(Hsize nodes) by (intros; apply Hnodes; by right).
      do 2 f_equal. set_solver.
  - destruct (IH ({[k]} ∪ result) (pending ++ [k])) as (new & -> & Hnew & Hsize).
    exists (k :: new). split_and!.
    + rewrite <-(assoc_L app). f_equal. set_solver.
    + intros k'. rewrite !elem_of_cons, Hnew. destruct (decide (k' = k)); set_solver.
    + intros nodes Hnodes. cbn [length].
      specialize (Hsize nodes ltac:(intros; apply Hnodes; by right)).
      replace (list_to_set (k :: next) ∪ result) with (list_to_set next ∪ ({[k]} ∪ result)) by set_solver.
      assert (size (nodes ∖ result) = size ({[k]} : gset K) + size (nodes ∖ ({[k]} ∪ result))) as ->;
        [|rewrite size_singleton; lia].
      rewrite <-size_union by set_solver.
      f_equal. apply set_eq. intros x. specialize (Hnodes k ltac:(by left)).
      destruct (decide (x = k)); set_solver.
Qed.

(** The nodes a finite graph is closed on. *)
Definition closed_on (nodes : gset K) : Prop :=
  forall k, k ∈ nodes -> exists l, adj k = Some l /\ forall k', k' ∈ l -> k' ∈ nodes.

Lemma bfs_total nodes fuel pending result :
  closed_on nodes -> (forall k, k ∈ pending -> k ∈ nodes) ->
  length pending + size (nodes ∖ result) <= fuel ->
  is_Some (bfs fuel pending result).
Proof.
  intros Hclosed. revert pending result. induction fuel as [|fuel IH]; intros pending result Hp Hf.
  { destruct pending; [done|]. cbn in Hf. lia. }
  destruct pending as [|current pending]; [done|]. cbn [bfs].
  destruct (Hclosed current) as (next & -> & Hnext); [apply Hp; by left|]. cbn.
  destruct (visit_spec next result pending) as (new & -> & Hnew & Hsize).
  apply IH.
  - intros k [?|[? _]%Hnew]%elem_of_app; [apply Hp; by right|by apply Hnext].
  - rewrite length_app. specialize (Hsize nodes Hnext). cbn in Hf. lia.
Qed.

Lemma bfs_sound (P : K -> Prop) fuel pending result r :
  (forall a b, P a -> edge a b -> P b) ->
  (forall k, k ∈ pending -> P k) -> (forall k, k ∈ result -> exists a, P a /\ edge a k) ->
  bfs fuel pending result = Some r -> forall k, k ∈ r -> exists a, P a /\ edge a k.
Proof.
  intros Hstep. revert pending result. induction fuel as [|fuel IH]; intros pending result Hp Hr; cbn.
  { destruct pending; [|done]. by intros [= <-]. }
  destruct pending as [|current pending]; [by intros [= <-]|].
  destruct (adj current) as [next|] eqn:Hadj; cbn; [|done].
  destruct (visit_spec next result pending) as (new & -> & Hnew & _).
  assert (Hcur : P current) by (apply Hp; by left).
  assert (Hin : forall k, k ∈ next -> edge current k) by (intros; by exists next).
  apply IH.
  - intros k [?|[? _]%Hnew]%elem_of_app; [apply Hp; by right|]. eauto.
  - intros k [Hk%elem_of_list_to_set|?]%elem_of_union; eauto.
Qed.

(** When it ends, everything an expanded node points at is in the result. *)
Lemma bfs_complete fuel (expanded : gset K) pending result r :
  (forall a b, a ∈ expanded -> edge a b -> b ∈ result) ->
  (forall k, k ∈ result -> k ∈ expanded \/ k ∈ pending) ->
  bfs fuel pending result = Some r ->
  result ⊆ r /\
  forall a b, (a ∈ expanded \/ a ∈ pending \/ a ∈ r) -> edge a b -> b ∈ r.
Proof.
  revert expanded pending result. induction fuel as [|fuel IH]; intros expanded pending result He Hr; cbn.
  all: destruct pending as [|current pending];
    [intros [= <-]; split; [done|]; intros a b [Ha|[[]%not_elem_of_nil|Ha]] Hab;
     [by eapply He|]; destruct (Hr _ Ha) as [?|[]%not_elem_of_nil]; by eapply He|].
  { done. }
  destruct (adj current) as [next|] eqn:Hadj; cbn; [|done].
  destruct (visit_spec next result pending) as (new & -> & Hnew & _). intros Hbfs.
  apply (IH ({[current]} ∪ expanded)) in Hbfs as [Hsub Hall].
  - split; [set_solver|]. intros a b Ha Hab. apply (Hall a b); [|done].
    destruct Ha as [Ha|[[->|Ha]%elem_of_cons|Ha]]; set_solver.
  - intros a b [->%elem_of_singleton|Ha]%elem_of_union Hab.
    + destruct Hab as (l & Hl & Hb). rewrite Hadj in Hl. injection Hl as <-.
      apply elem_of_union_l. by apply elem_of_list_to_set.
    + apply elem_of_union_r. by eapply He.
  - intros k Hk. destruct (decide (k ∈ result)) as [Hin|Hin].
    + destruct (Hr _ Hin) as [?|[->|?]%elem_of_cons]; set_solver.
    + right. apply elem_of_app. right. apply Hnew. split; [|done].
      apply elem_of_union in Hk as [?%elem_of_list_to_set|?]; done.
Qed.

(** Breadth first search computes what the seeds reach in one step or more. *)
Theorem bfs_spec nodes pending fuel :
  closed_on nodes -> (forall k, k ∈ pending -> k ∈ nodes) ->
  length pending + size nodes <= fuel ->
  exists r, bfs fuel pending ∅ = Some r /\
    forall k, k ∈ r <-> exists s, s ∈ pending /\ tc edge s k.
Proof.
  intros Hclosed Hp Hfuel.
  destruct (bfs_total nodes fuel pending ∅ Hclosed Hp) as [r Hr].
  { by rewrite difference_empty_L. }
  exists r. split; [done|]. intros k. split.
  - intros Hk. destruct (bfs_sound (fun a => exists s, s ∈ pending /\ rtc edge s a) fuel pending ∅ r)
      with (k := k) as (a & (s & Hs & Hsa) & Hak); try done.
    + intros a b (s & ? & ?) ?. exists s. split; [done|]. by eapply rtc_r.
    + intros a Ha. exists a. by split.
    + exists s. split; [done|]. by eapply tc_rtc_l, tc_once.
  - destruct (bfs_complete fuel ∅ pending ∅ r) as [_ Hall]; [set_solver..|done|].
    intros (s & Hs & Hsk). assert (Hgen : forall a b, tc edge a b -> (a ∈ pending \/ a ∈ r) -> b ∈ r).
    { intros a b Hab. induction Hab as [a b Hab|a b c Hab _ IH]; intros Ha.
      - eapply (Hall a b); [by right|done].
      - apply IH. right. eapply (Hall a b); [by right|done]. }
    eapply Hgen; eauto.
Qed.

(** ** Depth first: does every node reachable from the stack exist? *)
Fixpoint dfs (fuel : nat) (stack : list K) (seen : gset K) : option bool :=
  match stack with
  | [] => Some true
  | current :: stack =>
      match fuel with
      | 0 => None
      | S fuel =>
          if decide (current ∈ seen) then dfs fuel stack seen
          else match adj current with
               | None => Some false
               | Some next => dfs fuel (reverse next ++ stack) ({[current]} ∪ seen)
               end
      end
  end.

Definition out (k : K) : nat := length (default [] (adj k)).

(** The pushes still to come: the edges of the nodes not seen. *)
Definition weight (nodes : list K) (seen : gset K) : nat :=
  sum_list_with (fun k => if decide (k ∈ seen) then 0 else out k) nodes.

Lemma weight_seen nodes seen k : k ∉ nodes -> weight nodes ({[k]} ∪ seen) = weight nodes seen.
Proof.
  unfold weight. induction nodes as [|k' nodes IH]; [done|]. intros [Hne Hk]%not_elem_of_cons. cbn.
  rewrite IH by done. f_equal. repeat case_decide; set_solver.
Qed.

Lemma weight_visit nodes seen k :
  NoDup nodes -> k ∈ nodes -> k ∉ seen -> weight nodes seen = out k + weight nodes ({[k]} ∪ seen).
Proof.
  induction nodes as [|k' nodes IH]; [by intros _ []%not_elem_of_nil|].
  intros [Hk' Hnd]%NoDup_cons Hk Hseen.
  change (weight (k' :: nodes) ?s) with ((if decide (k' ∈ s) then 0 else out k') + weight nodes s).
  apply elem_of_cons in Hk as [<-|Hk].
  - rewrite decide_False, decide_True, weight_seen by set_solver. done.
  - assert (k <> k') by set_solver. rewrite (IH Hnd Hk Hseen).
    repeat case_decide; (lia || set_solver).
Qed.

Lemma dfs_total nodes fuel stack seen :
  NoDup nodes -> (forall k, is_Some (adj k) -> k ∈ nodes) ->
  length stack + weight nodes seen <= fuel -> is_Some (dfs fuel stack seen).
Proof.
  intros Hnd Hnodes. revert stack seen. induction fuel as [|fuel IH]; intros stack seen Hf.
  { destruct stack; [done|]. cbn in Hf. lia. }
  destruct stack as [|k stack]; [done|]. cbn [dfs]. cbn in Hf. case_decide as Hk; [apply IH; lia|].
  destruct (adj k) as [next|] eqn:Hadj; [|done]. apply IH.
  rewrite (weight_visit nodes seen k Hnd (Hnodes k ltac:(by rewrite Hadj)) Hk) in Hf.
  unfold out in Hf. rewrite Hadj in Hf. cbn in Hf. rewrite length_app, length_reverse. lia.
Qed.

Lemma dfs_true fuel stack seen :
  (forall a, a ∈ seen -> is_Some (adj a) /\ forall b, edge a b -> b ∈ seen \/ b ∈ stack) ->
  dfs fuel stack seen = Some true ->
  forall a b, a ∈ seen \/ a ∈ stack -> rtc edge a b -> is_Some (adj b).
Proof.
  revert stack seen. induction fuel as [|fuel IH]; intros stack seen Hseen Hdfs.
  all: destruct stack as [|k stack];
    [assert (Hall : forall a b, a ∈ seen -> rtc edge a b -> b ∈ seen)
       by (intros a b Ha Hab; induction Hab as [|a b c Hab _ IHab]; [done|];
           destruct (Hseen a Ha) as [_ Hs]; destruct (Hs _ Hab) as [?|[]%not_elem_of_nil]; auto);
     intros a b [Ha|[]%not_elem_of_nil] Hab; by apply Hseen, (Hall a b)|].
  { done. }
  cbn [dfs] in Hdfs. case_decide as Hk.
  - intros a b Ha. apply (IH stack seen); [|done|].
    + intros c Hc. destruct (Hseen c Hc) as [? Hs]. split; [done|]. intros d Hd.
      destruct (Hs d Hd) as [?|[->|?]%elem_of_cons]; auto.
    + destruct Ha as [?|[->|?]%elem_of_cons]; auto.
  - destruct (adj k) as [next|] eqn:Hadj; [|done].
    intros a b Ha. apply (IH (reverse next ++ stack) ({[k]} ∪ seen)); [|done|].
    + intros c [->%elem_of_singleton|Hc]%elem_of_union.
      * split; [by rewrite Hadj|]. intros d (l & Hl & Hd). rewrite Hadj in Hl. injection Hl as <-.
        right. apply elem_of_app. left. by apply elem_of_reverse.
      * destruct (Hseen c Hc) as [? Hs]. split; [done|]. intros d Hd.
        destruct (Hs d Hd) as [?|[->|?]%elem_of_cons]; set_solver.
    + destruct Ha as [?|[->|?]%elem_of_cons]; set_solver.
Qed.

Lemma dfs_false (P : K -> Prop) fuel stack seen :
  (forall a b, P a -> edge a b -> P b) -> (forall k, k ∈ stack -> P k) ->
  dfs fuel stack seen = Some false -> exists k, P k /\ adj k = None.
Proof.
  intros Hstep. revert stack seen. induction fuel as [|fuel IH]; intros stack seen Hp; cbn.
  { by destruct stack. }
  destruct stack as [|k stack]; [done|]. assert (P k) by (apply Hp; by left).
  case_decide; [apply IH; intros; apply Hp; by right|].
  destruct (adj k) as [next|] eqn:Hadj; [|eauto]. apply IH.
  intros k' [Hk'|?]%elem_of_app; [|apply Hp; by right]. rewrite elem_of_reverse in Hk'.
  apply (Hstep k); [done|]. exists next. by split.
Qed.

(** The search answers whether all that is reachable exists. *)
Theorem dfs_spec nodes stack fuel :
  NoDup nodes -> (forall k, is_Some (adj k) -> k ∈ nodes) ->
  length stack + sum_list_with out nodes <= fuel ->
  exists answer, dfs fuel stack ∅ = Some answer /\
    (answer = true <-> forall s k, s ∈ stack -> rtc edge s k -> is_Some (adj k)).
Proof.
  intros Hnd Hnodes Hfuel.
  assert (Hw : weight nodes ∅ = sum_list_with out nodes).
  { clear. unfold weight. induction nodes as [|k nodes IH]; cbn; [done|]. by rewrite IH, decide_False by set_solver. }
  destruct (dfs_total nodes fuel stack ∅ Hnd Hnodes) as [answer Hdfs]; [by rewrite Hw|].
  exists answer. split; [done|]. split.
  - intros -> s k Hs. eapply (dfs_true fuel stack ∅); [set_solver|done|by right].
  - intros Hall. destruct answer; [done|].
    destruct (dfs_false (fun k => exists s, s ∈ stack /\ rtc edge s k) fuel stack ∅) as (k & (s & Hs & Hk) & Hno).
    + intros a b (s & ? & ?) ?. exists s. split; [done|]. by eapply rtc_r.
    + intros k Hk. by exists k.
    + done.
    + destruct (Hall s k Hs Hk) as [? ?]. congruence.
Qed.
End reach.
