(* ===== verification/Text.v ===== *)
(** * Strings of the Rust standard library

    A [String] or [&str] is the list of its UTF-8 bytes, Rocq's [string].
    Matching an ASCII character or an ASCII string is the same on bytes and on
    characters, so the searching and splitting functions work on bytes.  The
    functions that depend on Unicode, [trim] and [split_whitespace], know the
    UTF-8 encodings of the White_Space characters. *)
From S2P Require Import Prelude.

Declare Scope snpm_scope.
Delimit Scope snpm_scope with snpm.
Notation "a == b" := (String.eqb a b) (at level 70, no associativity) : snpm_scope.
Global Open Scope snpm_scope.

Global Arguments String.eqb : simpl never.
Global Arguments String.rev : simpl never.
Global Arguments Ascii.eqb : simpl never.

(** The empty string. *)
Notation ε := EmptyString.

Definition chr (c : ascii) : string := String c ε.

(** [matches!(s, "a" | "b" | ..)] *)
Definition one_of (s : string) (l : list string) : bool := existsb (fun x => s == x) l.

Definition is_empty (s : string) : bool := match s with ε => true | _ => false end.

(** ** Prefixes and suffixes *)
Fixpoint strip_prefix (p s : string) : option string :=
  match p, s with
  | ε, _ => Some s
  | String a p, String b s => if Ascii.eqb a b then strip_prefix p s else None
  | String _ _, ε => None
  end.

Definition starts_with (p s : string) : bool :=
  match strip_prefix p s with Some _ => true | None => false end.

Definition strip_suffix (p s : string) : option string :=
  String.rev <$> strip_prefix (String.rev p) (String.rev s).

Definition ends_with (p s : string) : bool :=
  match strip_suffix p s with Some _ => true | None => false end.

(** ** Searching *)
Fixpoint contains (p s : string) : bool :=
  starts_with p s || match s with ε => false | String _ s => contains p s end.

Fixpoint contains_char (c : ascii) (s : string) : bool :=
  match s with ε => false | String a s => Ascii.eqb c a || contains_char c s end.

Fixpoint any_char (f : ascii -> bool) (s : string) : bool :=
  match s with ε => false | String a s => f a || any_char f s end.
Fixpoint all_chars (f : ascii -> bool) (s : string) : bool :=
  match s with ε => true | String a s => f a && all_chars f s end.
Fixpoint count_chars (f : ascii -> bool) (s : string) : nat :=
  match s with ε => 0 | String a s => (if f a then 1 else 0) + count_chars f s end.

(** [str::find] with a character predicate, [str::rfind] with a character. *)
Fixpoint find_by (f : ascii -> bool) (s : string) : option nat :=
  match s with
  | ε => None
  | String a s => if f a then Some 0 else S <$> find_by f s
  end.
Definition find_char (c : ascii) : string -> option nat := find_by (Ascii.eqb c).

(** [s.find(p)]: the first occurrence of a text. *)
Fixpoint find_str (p s : string) : option nat :=
  if starts_with p s then Some 0
  else match s with ε => None | String _ s => S <$> find_str p s end.

Fixpoint rfind_char (c : ascii) (s : string) : option nat :=
  match s with
  | ε => None
  | String a s =>
      match rfind_char c s with
      | Some i => Some (S i)
      | None => if Ascii.eqb c a then Some 0 else None
      end
  end.

(** [&s[..n]] and [&s[n..]] *)
Fixpoint stake (n : nat) (s : string) : string :=
  match n, s with S n, String a s => String a (stake n s) | _, _ => ε end.
Fixpoint sdrop (n : nat) (s : string) : string :=
  match n, s with S n, String _ s => sdrop n s | _, _ => s end.

(** ** Splitting *)
Fixpoint split_once (c : ascii) (s : string) : option (string * string) :=
  match s with
  | ε => None
  | String a s =>
      if Ascii.eqb c a then Some (ε, s)
      else '(l, r) ← split_once c s; Some (String a l, r)
  end.

(** [s.split(f)] for a set of characters; never empty. *)
Fixpoint split_by (f : ascii -> bool) (s : string) : list string :=
  match s with
  | ε => [ε]
  | String a s =>
      if f a then ε :: split_by f s
      else match split_by f s with
           | w :: ws => String a w :: ws
           | [] => [chr a]
           end
  end.
Definition split_char (c : ascii) : string -> list string := split_by (Ascii.eqb c).

(** [s.split(c).next()]: what precedes the first [c]. *)
Fixpoint before_char (f : ascii -> bool) (s : string) : string :=
  match s with
  | ε => ε
  | String a s => if f a then ε else String a (before_char f s)
  end.

(** [s.split(p)] for a non-empty string pattern: leftmost matches that do not
    overlap; [skip] counts the bytes of a match still to be consumed and [cur]
    is the current piece, reversed. *)
Fixpoint split_str_go (p : string) (skip : nat) (cur s : string) : list string :=
  match s with
  | ε => [String.rev cur]
  | String a s' =>
      match skip with
      | S n => split_str_go p n cur s'
      | O =>
          if starts_with p s
          then String.rev cur :: split_str_go p (String.length p - 1) ε s'
          else split_str_go p 0 (String a cur) s'
      end
  end.
Definition split_str (p s : string) : list string := split_str_go p 0 ε s.

(** [slice.join(sep)] *)
Definition join : string -> list string -> string := String.concat.

(** [str::lines]: pieces ended by a newline, less the newline and a carriage
    return before it. *)
Definition strip_cr (l : string) : string :=
  match strip_suffix (chr "013") l with Some l => l | None => l end.
Definition lines (s : string) : list string :=
  let pieces := split_char "010" s in
  let keep := match last pieces with
              | Some ε => take (length pieces - 1) pieces
              | _ => pieces
              end in
  let n := length keep in
  imap (fun i l => if (n =? length pieces)%nat && (i =? n - 1)%nat then l else strip_cr l) keep.

(** ** White space *)
Definition nat_in (n : nat) (lo hi : nat) : bool := (lo <=? n)%nat && (n <=? hi)%nat.

(** U+0009..U+000D and U+0020 *)
Definition ws1 (a : ascii) : bool :=
  let n := nat_of_ascii a in nat_in n 9 13 || (n =? 32)%nat.
(** U+0085 (C2 85) and U+00A0 (C2 A0) *)
Definition ws2 (a b : ascii) : bool :=
  (nat_of_ascii a =? 194)%nat &&
  ((nat_of_ascii b =? 133)%nat || (nat_of_ascii b =? 160)%nat).
(** U+1680, U+2000..U+200A, U+2028, U+2029, U+202F, U+205F, U+3000 *)
Definition ws3 (a b c : ascii) : bool :=
  let '(x, y, z) := (nat_of_ascii a, nat_of_ascii b, nat_of_ascii c) in
  ((x =? 225)%nat && (y =? 154)%nat && (z =? 128)%nat)
  || ((x =? 226)%nat && (y =? 128)%nat &&
      (nat_in z 128 138 || (z =? 168)%nat || (z =? 169)%nat || (z =? 175)%nat))
  || ((x =? 226)%nat && (y =? 129)%nat && (z =? 159)%nat)
  || ((x =? 227)%nat && (y =? 128)%nat && (z =? 128)%nat).

Global Arguments ws1 : simpl never.
Global Arguments ws2 : simpl never.
Global Arguments ws3 : simpl never.

Fixpoint trim_go (w1 : ascii -> bool) (w2 : ascii -> ascii -> bool)
    (w3 : ascii -> ascii -> ascii -> bool) (s : string) : string :=
  match s with
  | String a s1 =>
      if w1 a then trim_go w1 w2 w3 s1 else
      match s1 with
      | String b s2 =>
          if w2 a b then trim_go w1 w2 w3 s2 else
          match s2 with
          | String c s3 => if w3 a b c then trim_go w1 w2 w3 s3 else s
          | ε => s
          end
      | ε => s
      end
  | ε => ε
  end.
Definition trim_start (s : string) : string := trim_go ws1 ws2 ws3 s.
Definition trim_end (s : string) : string :=
  String.rev (trim_go ws1 (fun b a => ws2 a b) (fun c b a => ws3 a b c) (String.rev s)).
Definition trim (s : string) : string := trim_end (trim_start s).

(** [str::split_whitespace]: the maximal pieces without white space; [cur] is
    the current piece, reversed. *)
Definition flush (cur : string) : list string :=
  match cur with ε => [] | _ => [String.rev cur] end.
Fixpoint words_go (cur s : string) : list string :=
  match s with
  | ε => flush cur
  | String a s1 =>
      if ws1 a then flush cur ++ words_go ε s1 else
      match s1 with
      | String b s2 =>
          if ws2 a b then flush cur ++ words_go ε s2 else
          match s2 with
          | String c s3 =>
              if ws3 a b c then flush cur ++ words_go ε s3
              else words_go (String a cur) s1
          | ε => words_go (String a cur) s1
          end
      | ε => words_go (String a cur) s1
      end
  end.
Definition split_whitespace (s : string) : list string := words_go ε s.

Fixpoint trim_start_matches (c : ascii) (s : string) : string :=
  match s with
  | String a s' => if Ascii.eqb c a then trim_start_matches c s' else s
  | ε => ε
  end.
Definition trim_end_matches (c : ascii) (s : string) : string :=
  String.rev (trim_start_matches c (String.rev s)).
Definition trim_matches (c : ascii) (s : string) : string :=
  trim_end_matches c (trim_start_matches c s).

(** The same for a set of characters. *)
Fixpoint trim_start_by (f : ascii -> bool) (s : string) : string :=
  match s with
  | String a s' => if f a then trim_start_by f s' else s
  | ε => ε
  end.
Definition trim_by (f : ascii -> bool) (s : string) : string :=
  String.rev (trim_start_by f (String.rev (trim_start_by f s))).

(** ** ASCII case *)
Definition is_ascii_digit (a : ascii) : bool := nat_in (nat_of_ascii a) 48 57.
Definition is_ascii_alphanumeric (a : ascii) : bool :=
  is_ascii_digit a || nat_in (nat_of_ascii a) 65 90 || nat_in (nat_of_ascii a) 97 122.
Definition lower (a : ascii) : ascii :=
  if nat_in (nat_of_ascii a) 65 90 then ascii_of_nat (nat_of_ascii a + 32) else a.
Fixpoint map_chars (f : ascii -> ascii) (s : string) : string :=
  match s with ε => ε | String a s => String (f a) (map_chars f s) end.
Definition to_ascii_lowercase : string -> string := map_chars lower.
Definition upper (a : ascii) : ascii :=
  if nat_in (nat_of_ascii a) 97 122 then ascii_of_nat (nat_of_ascii a - 32) else a.
Definition to_ascii_uppercase : string -> string := map_chars upper.
Definition eq_ignore_ascii_case (a b : string) : bool :=
  to_ascii_lowercase a == to_ascii_lowercase b.

(** [str::replace] of a character by a character. *)
Definition replace_char (c d : ascii) : string -> string :=
  map_chars (fun a => if Ascii.eqb c a then d else a).

(** ** Decimal numbers *)
Definition digit_value (a : ascii) : option N :=
  if is_ascii_digit a then Some (N.of_nat (nat_of_ascii a - 48)) else None.
Fixpoint digits_go (acc : N) (s : string) : option N :=
  match s with
  | ε => Some acc
  | String a s => d ← digit_value a; digits_go (10 * acc + d) s
  end.
(** [str::parse::<u64>()]: an optional [+], at least one digit, no overflow. *)
Definition parse_u64 (s : string) : option N :=
  let digits := match strip_prefix "+" s with Some r => r | None => s end in
  if is_empty digits then None
  else n ← digits_go 0 digits; if decide (n <= u64_max)%N then Some n else None.

Definition digit_char (n : N) : ascii := ascii_of_nat (48 + N.to_nat n).
Fixpoint show_go (fuel : nat) (n : N) (acc : string) : string :=
  let acc := String (digit_char (n mod 10)) acc in
  match fuel with
  | O => acc
  | S fuel => if (n <? 10)%N then acc else show_go fuel (n / 10) acc
  end.
(** [format!("{n}")]; a number has at most as many decimal digits as bits. *)
Definition show_N (n : N) : string := show_go (N.size_nat n) n ε.
Definition show_nat (n : nat) : string := show_N (N.of_nat n).
Definition show_Z (z : Z) : string :=
  if (z <? 0)%Z then "-" +:+ show_N (Z.abs_N z) else show_N (Z.abs_N z).

(** ** Lemmas: concatenation and reversal *)
Lemma app_cons_s a (s t : string) : String a s +:+ t = String a (s +:+ t).
Proof. done. Qed.
Lemma app_nil_l_s (s : string) : ε +:+ s = s.
Proof. done. Qed.
#[export] Hint Rewrite app_cons_s app_nil_l_s : snpm.

Lemma app_nil_s (s : string) : s +:+ ε = s.
Proof. induction s as [|a s IH]; [done|]. by rewrite app_cons_s, IH. Qed.
Lemma app_assoc_s (s t u : string) : s +:+ (t +:+ u) = (s +:+ t) +:+ u.
Proof. induction s as [|a s IH]; [done|]. by rewrite !app_cons_s, IH. Qed.
Lemma length_app_s (s t : string) :
  String.length (s +:+ t) = String.length s + String.length t.
Proof. induction s as [|a s IH]; [done|]. rewrite app_cons_s. cbn. by f_equal. Qed.

Lemma rev_app_spec (s t : string) : String.rev_app s t = String.rev s +:+ t.
Proof.
  unfold String.rev. revert t. induction s as [|a s IH]; intros t; [done|]. cbn.
  rewrite IH, (IH (String a ε)), <-app_assoc_s. done.
Qed.
Lemma rev_cons_s a s : String.rev (String a s) = String.rev s +:+ chr a.
Proof. unfold String.rev at 1. cbn. apply rev_app_spec. Qed.
Lemma rev_app_s (s t : string) : String.rev (s +:+ t) = String.rev t +:+ String.rev s.
Proof.
  induction s as [|a s IH]; [by rewrite app_nil_s|].
  by rewrite (app_cons_s a s t), !rev_cons_s, IH, app_assoc_s.
Qed.
Lemma rev_rev_s s : String.rev (String.rev s) = s.
Proof. induction s as [|a s IH]; [done|]. by rewrite rev_cons_s, rev_app_s, IH. Qed.
Lemma app_inj_head_s (s t u : string) : s +:+ t = s +:+ u -> t = u.
Proof. induction s as [|a s IH]; [done|]. rewrite !app_cons_s. intros [= Heq]. by apply IH. Qed.

Lemma app_inv_tail_s (s t u : string) : s +:+ u = t +:+ u -> s = t.
Proof.
  intros Heq%(f_equal String.rev). rewrite !rev_app_s in Heq.
  apply (inj (String.app (String.rev u))) in Heq.
  by rewrite <-(rev_rev_s s), Heq, rev_rev_s.
Qed.
#[export] Hint Rewrite app_nil_s rev_rev_s length_app_s : snpm.

(** ** UTF-8

    [std::str::from_utf8] on bytes: the error says how many bytes are valid
    and how long the invalid sequence is, if it is not cut short by the end. *)
Definition byte_in (lo hi : nat) (a : ascii) : bool := nat_in (nat_of_ascii a) lo hi.
Definition is_continuation : ascii -> bool := byte_in 128 191.

Definition utf8_error (valid_up_to : nat) (error_len : option nat) : string :=
  match error_len with
  | Some n => "invalid utf-8 sequence of " +:+ show_nat n +:+ " bytes from index " +:+ show_nat valid_up_to
  | None => "incomplete utf-8 byte sequence from index " +:+ show_nat valid_up_to
  end.

(** The second byte of a sequence of three or four bytes. *)
Definition second_of_3 (a b : ascii) : bool :=
  (byte_in 224 224 a && byte_in 160 191 b) || (byte_in 225 236 a && byte_in 128 191 b)
  || (byte_in 237 237 a && byte_in 128 159 b) || (byte_in 238 239 a && byte_in 128 191 b).
Definition second_of_4 (a b : ascii) : bool :=
  (byte_in 240 240 a && byte_in 144 191 b) || (byte_in 241 243 a && byte_in 128 191 b)
  || (byte_in 244 244 a && byte_in 128 143 b).

Fixpoint utf8_check (i : nat) (s : string) : option string :=
  let cut := Some (utf8_error i None) in
  let bad n := Some (utf8_error i (Some n)) in
  match s with
  | ε => None
  | String a s1 =>
      if byte_in 0 127 a then utf8_check (i + 1) s1
      else if byte_in 194 223 a then
        match s1 with
        | ε => cut
        | String b s2 => if is_continuation b then utf8_check (i + 2) s2 else bad 1
        end
      else if byte_in 224 239 a then
        match s1 with
        | ε => cut
        | String b s2 =>
            if negb (second_of_3 a b) then bad 1 else
            match s2 with
            | ε => cut
            | String c s3 => if is_continuation c then utf8_check (i + 3) s3 else bad 2
            end
        end
      else if byte_in 240 244 a then
        match s1 with
        | ε => cut
        | String b s2 =>
            if negb (second_of_4 a b) then bad 1 else
            match s2 with
            | ε => cut
            | String c s3 =>
                if negb (is_continuation c) then bad 2 else
                match s3 with
                | ε => cut
                | String d s4 => if is_continuation d then utf8_check (i + 4) s4 else bad 3
                end
            end
        end
      else bad 1
  end.

Definition from_utf8 (bytes : string) : result string string :=
  match utf8_check 0 bytes with Some error => Err error | None => Ok bytes end.

(** ** Lemmas: prefixes and suffixes *)
Lemma strip_prefix_Some p s r : strip_prefix p s = Some r <-> s = p +:+ r.
Proof.
  revert s. induction p as [|a p IH]; intros s; cbn.
  { rewrite app_nil_l_s. naive_solver. }
  rewrite app_cons_s. destruct s as [|b s]; [done|]. destruct (Ascii.eqb_spec a b) as [->|]; rewrite ?IH; naive_solver.
Qed.
Lemma strip_prefix_app p r : strip_prefix p (p +:+ r) = Some r.
Proof. by apply strip_prefix_Some. Qed.
Lemma starts_with_spec p s : starts_with p s = true <-> exists r, s = p +:+ r.
Proof.
  unfold starts_with. setoid_rewrite <-strip_prefix_Some.
  destruct (strip_prefix p s); naive_solver.
Qed.
Lemma starts_with_app p r : starts_with p (p +:+ r) = true.
Proof. unfold starts_with. by rewrite strip_prefix_app. Qed.
Lemma strip_suffix_Some p s r : strip_suffix p s = Some r <-> s = r +:+ p.
Proof.
  unfold strip_suffix. rewrite fmap_Some. setoid_rewrite strip_prefix_Some. split.
  - intros (x & Hx%(f_equal String.rev) & ->). rewrite rev_app_s, !rev_rev_s in Hx. done.
  - intros ->. exists (String.rev r). by rewrite rev_app_s, rev_rev_s.
Qed.
Lemma strip_suffix_app p r : strip_suffix p (r +:+ p) = Some r.
Proof. by apply strip_suffix_Some. Qed.
Lemma ends_with_spec p s : ends_with p s = true <-> exists r, s = r +:+ p.
Proof.
  unfold ends_with. setoid_rewrite <-strip_suffix_Some.
  destruct (strip_suffix p s); naive_solver.
Qed.
Lemma starts_with_chr_cons c a s : starts_with (chr c) (String a s) = Ascii.eqb c a.
Proof. unfold starts_with. cbn. by destruct (Ascii.eqb c a). Qed.

(** ** Lemmas: searching and splitting *)
Lemma contains_char_app c s t :
  contains_char c (s +:+ t) = contains_char c s || contains_char c t.
Proof. induction s as [|a s IH]; [done|]. rewrite app_cons_s. cbn. by rewrite IH, orb_assoc. Qed.

Lemma contains_char_rev c s : contains_char c (String.rev s) = contains_char c s.
Proof.
  induction s as [|a s IH]; [done|]. rewrite rev_cons_s, contains_char_app, IH. cbn.
  by rewrite orb_false_r, orb_comm.
Qed.

Lemma contains_chr c s : contains (chr c) s = contains_char c s.
Proof. induction s as [|a s IH]; [done|]. cbn. by rewrite starts_with_chr_cons, IH. Qed.

Lemma split_once_Some c s l r :
  split_once c s = Some (l, r) <-> s = l +:+ String c r /\ contains_char c l = false.
Proof.
  revert l. induction s as [|a s IH]; intros l; cbn.
  - split; [done|]. intros [Heq _]. by destruct l.
  - destruct (Ascii.eqb_spec c a) as [->|Hne].
    + split; [intros [= <- <-]; done|]. destruct l as [|b l].
      { rewrite app_nil_l_s. by intros [[= ->] _]. }
      rewrite app_cons_s. cbn. intros [[= -> ->] Hc]. by rewrite Ascii.eqb_refl in Hc.
    + destruct l as [|b l].
      { rewrite app_nil_l_s. split; [|by intros [[= -> ->] _]].
        by destruct (split_once c s) as [[]|]. }
      rewrite app_cons_s. cbn. transitivity (a = b /\ split_once c s = Some (l, r)).
      { destruct (split_once c s) as [[]|]; cbn; split; [|by intros [-> [= -> ->]]|done|by intros []].
        by intros [= -> -> ->]. }
      rewrite IH. split.
      * intros (-> & -> & Hl). destruct (Ascii.eqb_spec c b); by subst.
      * intros [[= -> ->] Hc]. by destruct (Ascii.eqb c b).
Qed.

Lemma split_once_None c s : split_once c s = None <-> contains_char c s = false.
Proof.
  induction s as [|a s IH]; cbn; [done|].
  destruct (Ascii.eqb c a); cbn; [done|]. rewrite <-IH.
  by destruct (split_once c s) as [[]|].
Qed.

Lemma split_once_app c l r :
  contains_char c l = false -> split_once c (l +:+ String c r) = Some (l, r).
Proof. intros Hl. by apply split_once_Some. Qed.

(** Without the character that ends [q ++ c] in front, the first occurrence of
    [q ++ c] is where it is written. *)
Lemma find_str_app c q s r :
  contains_char c q = false -> contains_char c s = false ->
  find_str (q +:+ chr c) (s +:+ (q +:+ String c r)) = Some (String.length s).
Proof.
  intros Hq. assert (Hqc : forall t, (q +:+ chr c) +:+ t = q +:+ String c t)
    by (intros t; unfold chr; by rewrite <-app_assoc_s, app_cons_s, app_nil_l_s).
  assert (Hhere : forall s', s' <> ε -> contains_char c s' = false ->
    starts_with (q +:+ chr c) (s' +:+ (q +:+ String c r)) = false).
  { intros s' Hne Hs'. apply not_true_iff_false. intros [x Hx]%starts_with_spec.
    rewrite Hqc in Hx. apply (f_equal (split_once c)) in Hx.
    rewrite (split_once_app c q x Hq), app_assoc_s, split_once_app in Hx
      by (by rewrite contains_char_app, Hs', Hq).
    injection Hx as Hx _. apply (f_equal String.length) in Hx.
    rewrite length_app_s in Hx. destruct s'; [done|]. cbn in Hx. lia. }
  induction s as [|a s IH]; intros Hs.
  - rewrite app_nil_l_s. assert (starts_with (q +:+ chr c) (q +:+ String c r) = true) as Hst.
    { rewrite <-Hqc. apply starts_with_app. }
    destruct (q +:+ String c r); cbn; by rewrite Hst.
  - rewrite app_cons_s. cbn [find_str]. rewrite <-app_cons_s, Hhere by done.
    cbn in Hs. apply orb_false_iff in Hs as [_ Hs]. by rewrite IH.
Qed.

Lemma rfind_char_None c s : rfind_char c s = None <-> contains_char c s = false.
Proof.
  induction s as [|a s IH]; cbn; [done|].
  destruct (rfind_char c s); destruct (Ascii.eqb c a); cbn; naive_solver.
Qed.

Lemma sdrop_S n a s : sdrop (S n) (String a s) = sdrop n s.
Proof. done. Qed.

(** The index of the last [c] splits the string around it. *)
Lemma rfind_char_Some c s i :
  rfind_char c s = Some i <->
  s = stake i s +:+ String c (sdrop (S i) s) /\ contains_char c (sdrop (S i) s) = false.
Proof.
  revert i. induction s as [|a s IH]; intros i; cbn [rfind_char].
  { split; [done|]. intros [Heq _]. by destruct i. }
  destruct (rfind_char c s) as [j|] eqn:Hj.
  - destruct i as [|i].
    + split; [done|]. cbn. rewrite <-rfind_char_None. rewrite Hj. naive_solver.
    + rewrite sdrop_S. cbn [stake]. rewrite app_cons_s. specialize (IH i). split.
      * intros [= ->]. destruct (proj1 IH eq_refl) as [Heq ?]. split; [by f_equal|done].
      * intros [[= Heq] Hc]. f_equal. assert (Some j = Some i) as [= ->] by (apply IH; done). done.
  - apply rfind_char_None in Hj. destruct (Ascii.eqb_spec c a) as [->|Hne].
    + split; [intros [= <-]; done|]. destruct i as [|i]; [done|].
      rewrite sdrop_S. cbn [stake]. rewrite app_cons_s. intros [[= Heq] _].
      rewrite Heq, contains_char_app in Hj. cbn in Hj.
      by rewrite Ascii.eqb_refl, orb_true_r in Hj.
    + split; [done|]. destruct i as [|i]; rewrite ?sdrop_S; cbn [stake].
      * rewrite app_nil_l_s. intros [[= ->] _]. done.
      * rewrite app_cons_s. intros [[= Heq] _].
        rewrite Heq, contains_char_app in Hj. cbn in Hj.
        by rewrite Ascii.eqb_refl, orb_true_r in Hj.
Qed.

Lemma stake_app s t : stake (String.length s) (s +:+ t) = s.
Proof. induction s as [|a s IH]; [by destruct t|]. rewrite app_cons_s. cbn. by f_equal. Qed.
Lemma sdrop_app s t : sdrop (String.length s) (s +:+ t) = t.
Proof. induction s as [|a s IH]; [by destruct t|]. rewrite app_cons_s. done. Qed.
Lemma sdrop_app_S s c t : sdrop (S (String.length s)) (s +:+ String c t) = t.
Proof. induction s as [|a s IH]; [done|]. rewrite app_cons_s. done. Qed.
Lemma stake_sdrop n s : stake n s +:+ sdrop n s = s.
Proof. revert s. induction n; intros [|a s]; try done. cbn [stake sdrop]. by rewrite app_cons_s, IHn. Qed.

Lemma rfind_char_app c s t :
  contains_char c t = false -> rfind_char c (s +:+ String c t) = Some (String.length s).
Proof. intros Ht. apply rfind_char_Some. by rewrite stake_app, sdrop_app_S. Qed.

Lemma trim_start_matches_ne c s :
  contains_char c s = false -> trim_start_matches c s = s.
Proof. destruct s as [|a s]; cbn; [done|]. by destruct (Ascii.eqb c a). Qed.

(** Splitting loses nothing but the separators, and no piece has one. *)
Lemma join_cons sep w ws :
  join sep (w :: ws) = match ws with [] => w | _ => w +:+ sep +:+ join sep ws end.
Proof. by destruct ws. Qed.

Lemma join_snoc sep ws w : ws <> [] -> join sep (ws ++ [w]) = join sep ws +:+ sep +:+ w.
Proof.
  induction ws as [|v ws IH]; [done|]. intros _. cbn [app]. rewrite !join_cons.
  destruct ws as [|v' ws]; [done|]. cbn [app] in *. rewrite IH by done. by rewrite !app_assoc_s.
Qed.
Lemma join_last sep ws w :
  join sep (ws ++ [w]) = (match ws with [] => ε | _ => join sep ws +:+ sep end) +:+ w.
Proof. destruct ws; [done|]. rewrite join_snoc by done. by rewrite app_assoc_s. Qed.

Lemma split_by_ne f s : split_by f s <> [].
Proof. destruct s as [|a s]; cbn; [done|]. destruct (f a); [done|]. by destruct (split_by f s). Qed.

Lemma join_split_char c s : join (chr c) (split_char c s) = s.
Proof.
  unfold split_char. induction s as [|a s IH]; [done|]. cbn.
  pose proof (split_by_ne (Ascii.eqb c) s).
  destruct (Ascii.eqb_spec c a) as [->|Hne].
  - destruct (split_by _ s) as [|w ws] eqn:Hs; [done|]. by rewrite join_cons, app_nil_l_s, IH.
  - destruct (split_by _ s) as [|w ws] eqn:Hs; [done|]. rewrite join_cons in *.
    destruct ws; [by rewrite IH|]. by rewrite app_cons_s, IH.
Qed.

Lemma split_char_pieces c s w : w ∈ split_char c s -> contains_char c w = false.
Proof.
  unfold split_char. revert w. induction s as [|a s IH]; intros w; cbn.
  { intros ->%list_elem_of_singleton. done. }
  destruct (Ascii.eqb c a) eqn:Ha.
  - intros [->|Hw]%elem_of_cons; [done|auto].
  - destruct (split_by (Ascii.eqb c) s) as [|w' ws] eqn:Hs; cbn.
    + intros ->%list_elem_of_singleton. cbn. by rewrite Ha.
    + intros [->|Hw]%elem_of_cons; [cbn; rewrite Ha; cbn; apply IH; by left|apply IH; by right].
Qed.

Lemma split_char_join c ws :
  ws <> [] -> Forall (fun w => contains_char c w = false) ws ->
  split_char c (join (chr c) ws) = ws.
Proof.
  intros Hne Hws. unfold split_char. induction Hws as [|w ws Hw Hws IH]; [done|]. clear Hne.
  assert (Hgo : forall t, split_by (Ascii.eqb c) (w +:+ t) =
    match split_by (Ascii.eqb c) t with v :: vs => (w +:+ v) :: vs | [] => [] end).
  { clear IH. induction w as [|a w IHw]; intros t; cbn in Hw.
    - rewrite app_nil_l_s. by destruct (split_by _ t).
    - rewrite app_cons_s. cbn. apply orb_false_iff in Hw as [-> Hw].
      rewrite (IHw Hw). pose proof (split_by_ne (Ascii.eqb c) t). by destruct (split_by _ t). }
  rewrite join_cons. destruct ws as [|w' ws].
  - rewrite <-(app_nil_s w) at 1. rewrite Hgo. cbn. by rewrite app_nil_s.
  - rewrite Hgo. change (chr c +:+ ?t) with (String c t). cbn -[join].
    rewrite Ascii.eqb_refl, app_nil_s. rewrite IH; done.
Qed.

(** ** Lemmas: decimal numbers *)
Lemma digit_value_char n : (n < 10)%N -> digit_value (digit_char n) = Some n.
Proof.
  intros Hn. destruct n as [|p]; [done|].
  repeat (destruct p as [p|p|]; try lia; try done).
Qed.

Lemma digits_go_show fuel n acc :
  (n < 10 * 2 ^ N.of_nat fuel)%N -> digits_go 0 (show_go fuel n acc) = digits_go n acc.
Proof.
  revert n acc. induction fuel as [|fuel IH]; intros n acc Hn; cbn [show_go].
  - cbn [digits_go]. rewrite digit_value_char by (apply N.mod_lt; lia). cbn.
    change (2 ^ N.of_nat 0)%N with 1%N in Hn. rewrite N.mod_small by lia. done.
  - destruct (N.ltb_spec n 10).
    + cbn [digits_go]. rewrite digit_value_char by (apply N.mod_lt; lia). cbn.
      rewrite N.mod_small by lia. done.
    + rewrite IH.
      * cbn [digits_go]. rewrite digit_value_char by (apply N.mod_lt; lia). cbn.
        f_equal. symmetry. pose proof (N.div_mod n 10). lia.
      * rewrite Nat2N.inj_succ, N.pow_succ_r' in Hn.
        apply N.Div0.div_lt_upper_bound. lia.
Qed.

Lemma N_size_bound n : (n < 10 * 2 ^ N.of_nat (N.size_nat n))%N.
Proof.
  destruct n as [|p]; [done|]. cbn [N.size_nat].
  assert (Hp : (N.pos p < 2 ^ N.of_nat (Pos.size_nat p))%N).
  { induction p as [p IH|p IH|]; cbn [Pos.size_nat]; [..|done];
      rewrite Nat2N.inj_succ, N.pow_succ_r'; lia. }
  lia.
Qed.

Lemma show_go_ne fuel n acc : show_go fuel n acc <> ε.
Proof. revert n acc. induction fuel; intros n acc; cbn; [done|]. by destruct (_ <? _)%N. Qed.

(** The first character of a printed number is a digit. *)
Lemma show_go_head fuel n acc :
  exists d r, show_go fuel n acc = String (digit_char d) r /\ (d < 10)%N.
Proof.
  assert (forall m, (m mod 10 < 10)%N) by (intros; apply N.mod_lt; lia).
  revert n acc. induction fuel; intros n acc; cbn; [eauto|].
  destruct (_ <? _)%N; eauto.
Qed.

Lemma digit_char_not_plus d : (d < 10)%N -> Ascii.eqb "+" (digit_char d) = false.
Proof.
  intros Hd%digit_value_char.
  destruct (Ascii.eqb_spec "+" (digit_char d)) as [Heq|]; [|done]. by rewrite <-Heq in Hd.
Qed.

Lemma parse_show_u64 n : (n <= u64_max)%N -> parse_u64 (show_N n) = Some n.
Proof.
  intros Hn. unfold parse_u64, show_N.
  destruct (show_go_head (N.size_nat n) n ε) as (d & r & Hs & Hd).
  assert (strip_prefix "+" (show_go (N.size_nat n) n ε) = None) as ->.
  { rewrite Hs. cbn [strip_prefix]. by rewrite digit_char_not_plus. }
  rewrite Hs at 1. cbn [is_empty]. rewrite digits_go_show by apply N_size_bound.
  cbn. by rewrite decide_True.
Qed.

Lemma parse_u64_bound s n : parse_u64 s = Some n -> (n <= u64_max)%N.
Proof.
  unfold parse_u64. destruct (is_empty _); [done|]. intros (m & _ & Hm)%bind_Some.
  by case_decide; simplify_eq.
Qed.

(** ** Lemmas: strings of plain characters

    A plain character is a digit or a dot: it is not white space and belongs
    to no longer UTF-8 sequence. *)
Definition is_plain (a : ascii) : bool := is_ascii_digit a || Ascii.eqb a ".".

Lemma all_chars_app f s t : all_chars f (s +:+ t) = all_chars f s && all_chars f t.
Proof. induction s as [|a s IH]; [done|]. rewrite app_cons_s. cbn. by rewrite IH, andb_assoc. Qed.
Lemma all_chars_rev f s : all_chars f (String.rev s) = all_chars f s.
Proof.
  induction s as [|a s IH]; [done|]. rewrite rev_cons_s, all_chars_app, IH. cbn.
  by rewrite andb_true_r, andb_comm.
Qed.
Lemma all_chars_impl (f g : ascii -> bool) s :
  (forall a, f a = true -> g a = true) -> all_chars f s = true -> all_chars g s = true.
Proof.
  intros Hfg. induction s as [|a s IH]; [done|]. cbn. intros [Ha Hs]%andb_true_iff.
  by rewrite Hfg, IH.
Qed.
Lemma any_char_false f s : any_char f s = false <-> all_chars (fun a => negb (f a)) s = true.
Proof. induction s as [|a s IH]; cbn; [done|]. destruct (f a); cbn; [done|apply IH]. Qed.
Lemma contains_char_false c s :
  contains_char c s = false <-> all_chars (fun a => negb (Ascii.eqb c a)) s = true.
Proof. induction s as [|a s IH]; cbn; [done|]. destruct (Ascii.eqb c a); cbn; [done|apply IH]. Qed.

(** A property of the plain characters is checked on the eleven of them. *)
Lemma plain_char_case (P : ascii -> Prop) a :
  is_plain a = true ->
  Forall P ["0";"1";"2";"3";"4";"5";"6";"7";"8";"9";"."]%char -> P a.
Proof.
  intros Ha HP. rewrite Forall_forall in HP. apply HP. clear HP.
  apply (bool_decide_unpack _). revert Ha.
  destruct a as [[] [] [] [] [] [] [] []]; by vm_compute.
Qed.

Lemma plain_not_ws1 a : is_plain a = true -> ws1 a = false.
Proof. intros Ha. by apply (plain_char_case (fun a => ws1 a = false)); [|repeat constructor]. Qed.
Lemma plain_not_ws2 a b : is_plain a = true -> ws2 a b = false /\ ws2 b a = false.
Proof.
  intros Ha. split; unfold ws2.
  - apply andb_false_iff. left. by apply (plain_char_case (fun a => (nat_of_ascii a =? 194)%nat = false));
      [|repeat constructor].
  - apply andb_false_iff. right. by apply (plain_char_case (fun a =>
      (nat_of_ascii a =? 133)%nat || (nat_of_ascii a =? 160)%nat = false)); [|repeat constructor].
Qed.
Lemma plain_not_ws3 a b c : is_plain a = true -> ws3 a b c = false /\ ws3 c b a = false.
Proof.
  intros Ha. revert b c. apply (plain_char_case (fun a => forall b c, ws3 a b c = false /\ ws3 c b a = false) a Ha).
  repeat constructor; intros; unfold ws3; cbn; by rewrite ?andb_false_r.
Qed.

(** Trimming removes a prefix and a suffix. *)
Lemma trim_go_suffix w1 w2 w3 s : exists w, s = w +:+ trim_go w1 w2 w3 s.
Proof.
  remember (String.length s) as n eqn:Hn. revert s Hn.
  induction n as [n IH] using lt_wf_ind. intros s Hn.
  destruct s as [|a s]; [by exists ε|]. cbn in Hn. cbn [trim_go].
  destruct (w1 a). { destruct (IH (String.length s) ltac:(lia) s eq_refl) as [w Hw].
    exists (String a w). by rewrite app_cons_s, <-Hw. }
  destruct s as [|b s]; [by exists ε|]. cbn in Hn.
  destruct (w2 a b). { destruct (IH (String.length s) ltac:(lia) s eq_refl) as [w Hw].
    exists (String a (String b w)). by rewrite !app_cons_s, <-Hw. }
  destruct s as [|c s]; [by exists ε|]. cbn in Hn.
  destruct (w3 a b c); [|by exists ε].
  destruct (IH (String.length s) ltac:(lia) s eq_refl) as [w Hw].
  exists (String a (String b (String c w))). by rewrite !app_cons_s, <-Hw.
Qed.
Lemma trim_end_prefix s : exists w, s = trim_end s +:+ w.
Proof.
  unfold trim_end. destruct (trim_go_suffix ws1 (fun b a => ws2 a b) (fun c b a => ws3 a b c)
    (String.rev s)) as [w Hw].
  exists (String.rev w). by rewrite <-rev_app_s, <-Hw, rev_rev_s.
Qed.
Lemma trim_infix s : exists v w, s = v +:+ trim s +:+ w.
Proof.
  unfold trim. destruct (trim_go_suffix ws1 ws2 ws3 s) as [v Hv].
  destruct (trim_end_prefix (trim_start s)) as [w Hw]. exists v, w. rewrite <-Hw. apply Hv.
Qed.
Lemma trim_contains_char c s : contains_char c s = false -> contains_char c (trim s) = false.
Proof.
  destruct (trim_infix s) as (v & w & Hs). rewrite Hs at 1.
  rewrite !contains_char_app. by intros [_ [? _]%orb_false_iff]%orb_false_iff.
Qed.

(** A byte below 128 that is no white space is never trimmed with its
    neighbours. *)
Definition is_ink (a : ascii) : bool := (nat_of_ascii a <? 128)%nat && negb (ws1 a).

Lemma trim_start_ink a s : is_ink a = true -> trim_start (String a s) = String a s.
Proof.
  unfold is_ink. intros [Ha Hw]%andb_true_iff. apply negb_true_iff in Hw. apply Nat.ltb_lt in Ha.
  unfold trim_start. cbn [trim_go]. rewrite Hw. destruct s as [|b s]; [done|].
  assert (forall n, 128 <= n -> (nat_of_ascii a =? n)%nat = false) as Hne
    by (intros n Hn; apply Nat.eqb_neq; lia).
  unfold ws2, ws3. rewrite !Hne by lia. cbn. by destruct s.
Qed.
Lemma trim_ink a s : is_ink a = true -> trim (String a s) = ε \/ exists r, trim (String a s) = String a r.
Proof.
  intros Ha. unfold trim. rewrite trim_start_ink by done.
  destruct (trim_end_prefix (String a s)) as [w Hw].
  destruct (trim_end (String a s)) as [|b r]; [by left|right].
  rewrite app_cons_s in Hw. injection Hw as <- _. by exists r.
Qed.

Lemma trim_plain s : all_chars is_plain s = true -> trim s = s.
Proof.
  intros Hs. unfold trim, trim_end, trim_start.
  assert (trim_go ws1 ws2 ws3 s = s) as ->.
  { destruct s as [|a s]; [done|]. cbn in Hs |- *. apply andb_true_iff in Hs as [Ha _].
    rewrite plain_not_ws1 by done. destruct s as [|b s]; [done|].
    rewrite (proj1 (plain_not_ws2 a b Ha)). destruct s as [|c s]; [done|].
    by rewrite (proj1 (plain_not_ws3 a b c Ha)). }
  rewrite <-all_chars_rev in Hs. rewrite <-(rev_rev_s s) at 2. f_equal.
  destruct (String.rev s) as [|a t]; [done|]. cbn in Hs |- *. apply andb_true_iff in Hs as [Ha _].
  rewrite plain_not_ws1 by done. destruct t as [|b t]; [done|].
  rewrite (proj2 (plain_not_ws2 a b Ha)). destruct t as [|c t]; [done|].
  by rewrite (proj2 (plain_not_ws3 a b c Ha)).
Qed.

Lemma words_go_plain cur s :
  all_chars is_plain s = true -> words_go cur s = flush (String.rev_app s cur).
Proof.
  revert cur. induction s as [|a s IH]; intros cur Hs; [done|].
  cbn in Hs |- *. apply andb_true_iff in Hs as [Ha Hs]. rewrite plain_not_ws1 by done.
  destruct s as [|b s]; [by rewrite IH|]. rewrite (proj1 (plain_not_ws2 a b Ha)).
  destruct s as [|c s]; [by rewrite IH|]. rewrite (proj1 (plain_not_ws3 a b c Ha)).
  by rewrite IH.
Qed.

Lemma split_whitespace_plain s :
  all_chars is_plain s = true -> s <> ε -> split_whitespace s = [s].
Proof.
  intros Hs Hne. unfold split_whitespace. rewrite words_go_plain by done.
  change (String.rev_app s ε) with (String.rev s). unfold flush.
  destruct (String.rev s) as [|a t] eqn:Ht; [|by rewrite <-Ht, rev_rev_s].
  apply (f_equal String.rev) in Ht. by rewrite rev_rev_s in Ht.
Qed.

Lemma flush_words cur w : w ∈ flush cur -> w <> ε.
Proof.
  destruct cur as [|a cur]; cbn; [by intros ?%not_elem_of_nil|].
  intros ->%list_elem_of_singleton Heq%(f_equal String.rev).
  by rewrite rev_rev_s in Heq.
Qed.

(** Words are never empty. *)
Lemma words_ne s w : w ∈ split_whitespace s -> w <> ε.
Proof.
  unfold split_whitespace. generalize ε at 1.
  assert (Hall : forall n s cur, String.length s <= n -> w ∈ words_go cur s -> w <> ε).
  { induction n as [|n IH]; intros [|a s1] cur Hn; cbn in Hn |- *; try lia;
      try (by apply flush_words).
    assert (Happ : forall t, String.length t <= n -> w ∈ flush cur ++ words_go ε t -> w <> ε).
    { intros t Ht [Hw|Hw]%elem_of_app; [by eapply flush_words|by eapply (IH t)]. }
    destruct (ws1 a); [apply Happ; lia|].
    destruct s1 as [|b s2]; [by apply (IH ε); cbn; lia|].
    destruct (ws2 a b); [apply Happ; cbn in Hn; lia|].
    destruct s2 as [|c s3]; [by apply (IH (chr b)); cbn in *; lia|].
    destruct (ws3 a b c); [apply Happ; cbn in Hn; lia|]. apply IH. cbn in *; lia. }
  intros cur. by apply (Hall (String.length s)).
Qed.

Lemma split_str_ne p s : split_str p s <> [].
Proof.
  unfold split_str. generalize 0 ε. revert p. induction s as [|a s IH]; intros p skip cur; [done|].
  cbn [split_str_go]. destruct skip; [|apply IH]. by destruct (starts_with _ _).
Qed.

(** A pattern whose first character does not occur does not split. *)
Lemma split_str_absent c p s :
  contains_char c s = false -> split_str (String c p) s = [s].
Proof.
  unfold split_str. intros Hs.
  assert (Hgo : forall cur, split_str_go (String c p) 0 cur s = [String.rev cur +:+ s]).
  { induction s as [|a s IH]; intros cur; cbn [split_str_go]; [by rewrite app_nil_s|].
    cbn in Hs. apply orb_false_iff in Hs as [Ha Hs].
    unfold starts_with. cbn [strip_prefix]. rewrite Ha, IH by done.
    by rewrite rev_cons_s, <-app_assoc_s. }
  apply Hgo.
Qed.

Lemma plain_ne_char c s :
  is_plain c = false -> all_chars is_plain s = true -> contains_char c s = false.
Proof.
  intros Hc. induction s as [|a s IH]; [done|]. cbn. intros [Ha Hs]%andb_true_iff.
  destruct (Ascii.eqb_spec c a) as [->|]; [congruence|]. auto.
Qed.

Lemma digit_char_is_digit n : (n < 10)%N -> is_ascii_digit (digit_char n) = true.
Proof. intros Hn%digit_value_char. unfold digit_value in Hn. by destruct (is_ascii_digit _). Qed.

Lemma show_go_digits fuel n acc :
  all_chars is_ascii_digit acc = true -> all_chars is_ascii_digit (show_go fuel n acc) = true.
Proof.
  revert n acc. induction fuel as [|fuel IH]; intros n acc Hacc; cbn [show_go].
  - cbn. by rewrite digit_char_is_digit, Hacc by (apply N.mod_lt; lia).
  - assert (all_chars is_ascii_digit (String (digit_char (n mod 10)) acc) = true).
    { cbn. by rewrite digit_char_is_digit, Hacc by (apply N.mod_lt; lia). }
    destruct (_ <? _)%N; auto.
Qed.
Lemma show_N_digits n : all_chars is_ascii_digit (show_N n) = true.
Proof. by apply show_go_digits. Qed.
Lemma show_N_ne n : is_empty (show_N n) = false.
Proof. unfold show_N. pose proof (show_go_ne (N.size_nat n) n ε). by destruct (show_go _ _ _). Qed.
Lemma digits_plain s : all_chars is_ascii_digit s = true -> all_chars is_plain s = true.
Proof. apply all_chars_impl. unfold is_plain. by intros a ->. Qed.
Lemma digits_no_dot s : all_chars is_ascii_digit s = true -> contains_char "." s = false.
Proof.
  induction s as [|a s IH]; [done|]. cbn. intros [Ha Hs]%andb_true_iff.
  destruct (Ascii.eqb_spec "." a) as [<-|]; [done|]. by apply IH.
Qed.
Lemma starts_with_plain c p s :
  is_plain c = false -> all_chars is_plain s = true -> starts_with (String c p) s = false.
Proof.
  intros Hc Hs. destruct s as [|a s]; [done|]. cbn in Hs. apply andb_true_iff in Hs as [Ha _].
  unfold starts_with. cbn. destruct (Ascii.eqb_spec c a) as [->|]; [congruence|done].
Qed.

(** Printing is the inverse of reading a numeral without leading zeros. *)
Lemma show_go_acc fuel n acc : show_go fuel n acc = show_go fuel n ε +:+ acc.
Proof.
  revert n acc. induction fuel as [|fuel IH]; intros n acc; cbn [show_go]; [done|].
  destruct (_ <? _)%N; [done|]. rewrite (IH _ (String _ acc)), (IH _ (String _ ε)).
  by rewrite <-app_assoc_s.
Qed.
Lemma show_go_fuel f1 f2 n acc :
  (n < 10 * 2 ^ N.of_nat f1)%N -> (n < 10 * 2 ^ N.of_nat f2)%N ->
  show_go f1 n acc = show_go f2 n acc.
Proof.
  assert (Hdiv : forall f m, (m < 10 * 2 ^ N.of_nat (S f))%N -> (m / 10 < 10 * 2 ^ N.of_nat f)%N).
  { intros f m Hm. rewrite Nat2N.inj_succ, N.pow_succ_r' in Hm.
    apply N.Div0.div_lt_upper_bound. lia. }
  assert (Hone : forall m, (m < 10 * 2 ^ N.of_nat 0)%N -> (m <? 10)%N = true).
  { intros m Hm. apply N.ltb_lt. change (2 ^ N.of_nat 0)%N with 1%N in Hm. lia. }
  revert f2 n acc. induction f1 as [|f1 IH]; intros [|f2] n acc H1 H2; cbn [show_go].
  - done.
  - by rewrite Hone.
  - by rewrite Hone.
  - destruct (_ <? _)%N; [done|]. apply IH; auto.
Qed.
Lemma show_N_snoc n d :
  (0 < n)%N -> (d < 10)%N -> show_N (10 * n + d) = show_N n +:+ chr (digit_char d).
Proof.
  intros Hn Hd. unfold show_N. set (m := (10 * n + d)%N).
  rewrite (show_go_fuel _ (S (N.size_nat m)) m).
  2: apply N_size_bound.
  2: { pose proof (N_size_bound m). rewrite Nat2N.inj_succ, N.pow_succ_r'. lia. }
  cbn [show_go]. destruct (N.ltb_spec m 10); [lia|].
  assert (m / 10 = n)%N as -> by (symmetry; apply (N.div_unique _ _ _ d); lia).
  assert (m mod 10 = d)%N as -> by (symmetry; apply (N.mod_unique _ _ n); lia).
  rewrite show_go_acc. unfold chr. f_equal. apply show_go_fuel; [|apply N_size_bound].
  pose proof (N_size_bound m). lia.
Qed.

Lemma digits_go_app acc s t :
  digits_go acc (s +:+ t) = (m ← digits_go acc s; digits_go m t).
Proof.
  revert acc. induction s as [|a s IH]; intros acc; [done|]. rewrite app_cons_s. cbn.
  destruct (digit_value a); cbn; [apply IH|done].
Qed.
Lemma digit_char_value a n : digit_value a = Some n -> (n < 10)%N /\ a = digit_char n.
Proof.
  unfold digit_value, digit_char. destruct (is_ascii_digit a) eqn:Ha; [|done]. intros [= <-].
  unfold is_ascii_digit, nat_in in Ha. apply andb_true_iff in Ha as [H1%Nat.leb_le H2%Nat.leb_le].
  split; [lia|]. rewrite Nnat.Nat2N.id.
  replace (48 + (nat_of_ascii a - 48)) with (nat_of_ascii a) by lia.
  by rewrite ascii_nat_embedding.
Qed.
Lemma digits_go_pos a s n m :
  digits_go n (String a s) = Some m -> (0 < n)%N -> (0 < m)%N.
Proof.
  revert n a. induction s as [|b s IH]; intros n a; cbn.
  - destruct (digit_value a); cbn; [|done]. intros [= <-]. lia.
  - destruct (digit_value a); cbn; [|done]. intros Hm Hn. eapply (IH _ b); [done|lia].
Qed.

Lemma show_digits a s n :
  digits_go 0 (String a s) = Some n -> Ascii.eqb "0" a = false -> show_N n = String a s.
Proof.
  intros Hn Ha. revert n Hn.
  assert (Hrev : forall t, s = String.rev t ->
    forall n, digits_go 0 (String a s) = Some n -> show_N n = String a s /\ (0 < n)%N).
  { intros t. revert s. induction t as [|b t IH]; intros s -> n.
    - cbn. destruct (digit_value a) as [d|] eqn:Hd; cbn; [|done]. intros [= <-].
      apply digit_char_value in Hd as [Hd ->].
      assert (d <> 0)%N by (intros ->; by vm_compute in Ha).
      split; [|lia]. replace (d + 0)%N with d by lia. unfold show_N.
      rewrite (show_go_fuel _ 0); [|apply N_size_bound|change (2 ^ N.of_nat 0)%N with 1%N; lia].
      cbn [show_go]. rewrite N.mod_small by lia. done.
    - rewrite rev_cons_s, <-app_cons_s, digits_go_app.
      destruct (digits_go 0 (String a (String.rev t))) as [m|] eqn:Hm; cbn; [|done].
      destruct (IH _ eq_refl m Hm) as [IHs IHp].
      destruct (digit_value b) as [d|] eqn:Hd; cbn; [|done]. intros [= <-].
      apply digit_char_value in Hd as [Hd ->]. split; [|lia].
      change (10 * m)%N with (10 * m)%N. rewrite show_N_snoc by done. by rewrite IHs. }
  intros n Hn. by apply (Hrev (String.rev s)); [by rewrite rev_rev_s|].
Qed.

(** ** Occurrences *)
Lemma app_suffix (a r q l : string) : a +:+ r = q +:+ l -> String.length l <= String.length r -> exists q', r = q' +:+ l.
Proof.
  revert q. induction a as [|c a IH]; intros q; [rewrite app_nil_l_s; by exists q|]. rewrite app_cons_s.
  destruct q as [|d q].
  - rewrite app_nil_l_s. intros <-. cbn [String.length]. rewrite length_app_s. lia.
  - rewrite app_cons_s. intros [= _ Heq] Hlen. by apply (IH q).
Qed.
(** The first occurrence is as good as any. *)
Lemma find_str_spec p s :
  match find_str p s with
  | Some i => exists a r, s = a +:+ (p +:+ r) /\ String.length a = i /\
      forall a' r', s = a' +:+ (p +:+ r') -> exists d, r = d +:+ r'
  | None => forall a r, s <> a +:+ (p +:+ r)
  end.
Proof.
  induction s as [|c s IH]; cbn [find_str]; destruct (starts_with p _) eqn:Hp.
  1,3: apply starts_with_spec in Hp as [r Hr]; exists ε, r; (split; [exact Hr|split; [done|]]); intros a' r' Hr';
    rewrite Hr in Hr'; apply (app_suffix (p +:+ ε) r (a' +:+ p) r');
    [by rewrite app_nil_s, <-app_assoc_s|apply (f_equal String.length) in Hr'; rewrite !length_app_s in Hr'; lia].
  all: assert (Hno : forall r, _ <> p +:+ r) by (intros r Hr; rewrite (proj2 (starts_with_spec _ _) (ex_intro _ r Hr)) in Hp; done).
  - intros [|a l] r Hr; [by apply (Hno r)|]. by rewrite app_cons_s in Hr.
  - destruct (find_str p s) as [i|]; cbn.
    + destruct IH as (a & r & Hs & Ha & Hfirst). exists (String c a), r. rewrite app_cons_s, <-Hs. split; [done|]. split; [by cbn; rewrite Ha|].
      intros [|b a'] r' Hr; [by apply Hno in Hr|]. rewrite app_cons_s in Hr. injection Hr as _ Hr. by apply Hfirst in Hr.
    + intros [|b a] r Hr; [by apply Hno in Hr|]. rewrite app_cons_s in Hr. injection Hr as _ Hr. by apply IH in Hr.
Qed.
Lemma contains_spec p s : contains p s = true <-> exists a r, s = a +:+ (p +:+ r).
Proof.
  induction s as [|c s IH]; cbn [contains]; rewrite orb_true_iff, starts_with_spec.
  - split; [intros [[r Hr]|]; [by exists ε, r|done]|]. intros ([|] & r & Hr); [left; by exists r|by rewrite app_cons_s in Hr].
  - rewrite IH. split.
    + intros [[r Hr]|(a & r & ->)]; [by exists ε, r|by exists (String c a), r].
    + intros ([|b a] & r & Hr); [left; by exists r|right]. rewrite app_cons_s in Hr. injection Hr as _ Hr. by exists a, r.
Qed.
Lemma join_elem sep l w : w ∈ l -> exists a r, join sep l = a +:+ (w +:+ r).
Proof.
  induction l as [|v l IH]; [by intros ?%not_elem_of_nil|]. rewrite join_cons. intros [<-|Hin]%elem_of_cons.
  - exists ε. destruct l as [|u l]; [exists ε; by rewrite app_nil_s|by exists (sep +:+ join sep (u :: l))].
  - destruct l as [|u l]; [by apply not_elem_of_nil in Hin|]. destruct (IH Hin) as (a & r & ->).
    exists (v +:+ (sep +:+ a)), r. by rewrite !app_assoc_s.
Qed.
