(* ===== verification/Errors.v ===== *)
(** * The error type of the program ([error.rs])

    One constructor per variant of [SnpmError].  The errors of the operating
    system and of the crates ([std::io::Error], [serde_json::Error],
    [reqwest::Error], [serde_yaml::Error]) are carried as their text. *)
From S2P Require Import Prelude.

Inductive SnpmError : Type :=
| ReadFile (path source : string)
| WriteFile (path source : string)
| ParseJson (path source : string)
| SerializeJson (path reason : string)
| HttpClient (source : string)
| Http (url source : string)
| RegistryDecode (name source : string)
| ResolutionFailed (name range reason : string)
| ManifestMissing (path : string)
| ManifestInvalid (path reason : string)
| LockfileError (path reason : string)
| WorkspaceConfig (path reason : string)
| NoWorkspaceSelection (filters : string)
| Archive (path source : string)
| Tarball (url reason : string)
| LockfileWrite (path source : string)
| Semver (value reason : string)
| StoreMissing (name version : string)
| GraphMissing (name version : string)
| ScriptMissing (name : string)
| ScriptFailed (name : string) (code : Z)
| ScriptRun (name reason : string)
| TaskJoin (reason : string)
| StoreTask (reason : string)
| Auth (reason : string)
| OtpRequired
| Registry (message : string)
| Io (path source : string)
| PackageNotInstalled (name version : string)
| PatchNotFound (name reason : string)
| PatchCreate (name reason : string)
| PatchApply (name reason : string)
| PatchSessionNotFound (path : string)
| PatchInvalid (path reason : string)
| OfflineRequired (resource : string)
| AuditFailed (reason : string)
| AuditEndpointNotAvailable (registry : string)
| AuditLockfileRequired
| PublishFailed (name version reason : string)
| Internal (reason : string).

(** [crate::Result<T>] *)
Notation Result := (result SnpmError).
