(* ===== verification/Types.v ===== *)
(** * The data the components share

    The structs and enums of [project/manifest.rs], [project/io.rs],
    [workspace/types.rs], [config/types/], [registry/types/], [resolve/types.rs]
    and [lockfile/types.rs].  Field names carry a short prefix for their
    struct; paths are strings (see [Paths]). *)
From S2P Require Import Prelude.
From S2P Require Import BTree.
From S2P Require Import Text.

(** ** [serde_json::Value], with objects as ordered maps *)
Inductive json : Type :=
| JNull
| JBool (b : bool)
| JNumber (text : string)
| JString (s : string)
| JArray (l : list json)
| JObject (m : gmap string json).

Definition as_str (j : json) : option string :=
  match j with JString s => Some s | _ => None end.
Definition as_object (j : json) : option (gmap string json) :=
  match j with JObject m => Some m | _ => None end.
Definition as_array (j : json) : option (list json) :=
  match j with JArray l => Some l | _ => None end.
Definition is_null (j : json) : bool := match j with JNull => true | _ => false end.
Definition json_get (key : string) (j : json) : option json :=
  match j with JObject m => m !! key | _ => None end.

(** ** [project/manifest.rs] *)
Inductive WorkspacesField : Type :=
| Patterns (patterns : list string)
| WorkspacesObject (packages : list string) (catalog : gmap string string)
    (catalogs : gmap string (gmap string string)).

Definition workspaces_patterns (w : WorkspacesField) : list string :=
  match w with Patterns patterns => patterns | WorkspacesObject packages _ _ => packages end.

Definition into_parts (w : WorkspacesField)
  : list string * gmap string string * gmap string (gmap string string) :=
  match w with
  | Patterns patterns => (patterns, ∅, ∅)
  | WorkspacesObject packages catalog catalogs => (packages, catalog, catalogs)
  end.

Inductive BinField : Type :=
| Single (value : string)
| BinMap (map : gmap string string).

Record ManifestPnpm := {
  mp_overrides : gmap string string;
  mp_patched_dependencies : option (gmap string string);
}.

Inductive SourceMapPolicy := Forbid | ExternalOnly | Allow.

Record ManifestSnpmPublish := {
  pub_deny : list string;
  pub_allow_risks : list string;
  pub_max_files : option N;
  pub_max_bytes : option N;
  pub_source_maps : option SourceMapPolicy;
}.

Record ManifestSnpm := {
  ms_overrides : gmap string string;
  ms_patched_dependencies : option (gmap string string);
  ms_publish : option ManifestSnpmPublish;
}.

Record Manifest := {
  m_name : option string;
  m_version : option string;
  m_package_manager : option string;
  m_private : bool;
  m_dependencies : gmap string string;
  m_dev_dependencies : gmap string string;
  m_optional_dependencies : gmap string string;
  m_scripts : gmap string string;
  m_resolutions : gmap string string;
  m_overrides : gmap string json;
  m_files : option (list string);
  m_bin : option BinField;
  m_main : option string;
  m_pnpm : option ManifestPnpm;
  m_snpm : option ManifestSnpm;
  m_workspaces : option WorkspacesField;
  m_extra : gmap string json;
}.

(** [Manifest::default()] *)
Definition manifest_default : Manifest := {|
  m_name := None; m_version := None; m_package_manager := None; m_private := false;
  m_dependencies := ∅; m_dev_dependencies := ∅; m_optional_dependencies := ∅;
  m_scripts := ∅; m_resolutions := ∅; m_overrides := ∅; m_files := None; m_bin := None;
  m_main := None; m_pnpm := None; m_snpm := None; m_workspaces := None; m_extra := ∅
|}.

(** [deserialize_boolish]: the value of [private], once the JSON value is a
    boolean or a string. *)
Inductive BoolishValue := BoolishBool (b : bool) | BoolishString (s : string).
Definition deserialize_boolish (value : option BoolishValue) : result string bool :=
  match value with
  | None => Ok false
  | Some (BoolishBool value) => Ok value
  | Some (BoolishString value) =>
      let other := to_ascii_lowercase (trim value) in
      if other == "true" then Ok true
      else if other == "false" then Ok false
      else Err ("expected a boolean, got " +:+ other)
  end.

(** ** [project/io.rs] *)
Record Project := {
  p_root : string;
  p_manifest_path : string;
  p_manifest : Manifest;
}.

(** ** [workspace/types.rs] *)
Record WorkspaceConfigFile := {
  wc_packages : list string;
  wc_catalog : gmap string string;
  wc_catalogs : gmap string (gmap string string);
  wc_only_built_dependencies : list string;
  wc_ignored_built_dependencies : list string;
  wc_disable_global_virtual_store_for_packages : option (list string);
  wc_hoisting : option string;
}.

Record Workspace := {
  w_root : string;
  w_projects : list Project;
  w_config : WorkspaceConfigFile;
}.

Definition project_by_name (self : Workspace) (name : string) : option Project :=
  list_find (fun p => m_name (p_manifest p) = Some name) (w_projects self) ≫= fun r => Some r.2.

(** ** [config/types/] *)
Inductive OfflineMode := Online | PreferOffline | Offline.
Inductive AuthScheme := Bearer | Basic.
Inductive LinkBackend := LinkAuto | Reflink | Hardlink | Symlink | Copy.
Inductive HoistingMode := HoistNone | SingleVersion | HoistAll.
Global Instance HoistingMode_eq_dec : EqDecision HoistingMode.
Proof. solve_decision. Defined.
Global Instance OfflineMode_eq_dec : EqDecision OfflineMode.
Proof. solve_decision. Defined.

Definition link_backend_parse (value : string) : option LinkBackend :=
  let v := to_ascii_lowercase value in
  if one_of v ["auto"; "default"] then Some LinkAuto
  else if one_of v ["reflink"; "reflinks"; "cow"; "clone"] then Some Reflink
  else if one_of v ["hardlink"; "hardlinks"; "hard"] then Some Hardlink
  else if one_of v ["symlink"; "symlinks"; "symbolic"; "sym"] then Some Symlink
  else if one_of v ["copy"; "copies"] then Some Copy
  else None.

Definition hoisting_mode_parse (value : string) : option HoistingMode :=
  let v := to_ascii_lowercase value in
  if one_of v ["none"; "off"; "false"; "disabled"] then Some HoistNone
  else if one_of v ["single"; "single-version"; "safe"] then Some SingleVersion
  else if one_of v ["root"; "all"; "true"; "on"; "enabled"] then Some HoistAll
  else None.

Record SnpmConfig := {
  c_cache_dir : string;
  c_data_dir : string;
  c_allow_scripts : gset string;
  c_disable_global_virtual_store_for_packages : gset string;
  c_min_package_age_days : option Z;
  c_min_package_cache_age_days : option Z;
  c_default_registry : string;
  c_scoped_registries : gmap string string;
  c_registry_auth : gmap string string;
  c_default_registry_auth_token : option string;
  c_default_registry_auth_scheme : AuthScheme;
  c_registry_auth_schemes : gmap string AuthScheme;
  c_hoisting : HoistingMode;
  c_link_backend : LinkBackend;
  c_strict_peers : bool;
  c_save_exact : bool;
  c_save_prefix : string;
  c_frozen_lockfile_default : bool;
  c_always_auth : bool;
  c_registry_concurrency : N;
  c_verbose : bool;
  c_log_file : option string;
  c_remote_cache_url : option string;
  c_remote_cache_auth_token : option string;
  c_remote_cache_read_only : bool;
}.

Definition effective_save_prefix (self : SnpmConfig) : string :=
  if c_save_exact self then ε else c_save_prefix self.

Definition default_disable_global_virtual_store_for_packages : gset string :=
  list_to_set ["next"; "nuxt"; "vite"; "vitepress"; "parcel"].

(** The configuration the repository's own tests start from. *)
Definition config_for_tests : SnpmConfig := {|
  c_cache_dir := "/tmp/cache"; c_data_dir := "/tmp/data"; c_allow_scripts := ∅;
  c_disable_global_virtual_store_for_packages := ∅; c_min_package_age_days := None;
  c_min_package_cache_age_days := None; c_default_registry := "https://registry.npmjs.org";
  c_scoped_registries := ∅; c_registry_auth := ∅; c_default_registry_auth_token := None;
  c_default_registry_auth_scheme := Bearer; c_registry_auth_schemes := ∅;
  c_hoisting := SingleVersion; c_link_backend := LinkAuto; c_strict_peers := false;
  c_save_exact := false; c_save_prefix := "^"; c_frozen_lockfile_default := false;
  c_always_auth := false; c_registry_concurrency := 64; c_verbose := false;
  c_log_file := None; c_remote_cache_url := None; c_remote_cache_auth_token := None;
  c_remote_cache_read_only := false
|}.

(** ** [registry/types/] *)
Record RegistryProtocol := { protocol_name : string }.
Global Instance RegistryProtocol_eq_dec : EqDecision RegistryProtocol.
Proof. solve_decision. Defined.

Definition npm : RegistryProtocol := {| protocol_name := "npm" |}.
Definition git : RegistryProtocol := {| protocol_name := "git" |}.
Definition jsr : RegistryProtocol := {| protocol_name := "jsr" |}.
Definition file : RegistryProtocol := {| protocol_name := "file" |}.
Definition custom (name : string) : RegistryProtocol := {| protocol_name := name |}.

Inductive BundledDependencies : Type :=
| BundledList (l : list string)
| BundledAll (b : bool).

Definition to_set (self : BundledDependencies) (all_deps : gmap string string) : gset string :=
  match self with
  | BundledList l => list_to_set l
  | BundledAll true => dom all_deps
  | BundledAll false => ∅
  end.

Definition bundled_is_empty (self : BundledDependencies) : bool :=
  match self with
  | BundledList l => match l with [] => true | _ => false end
  | BundledAll value => negb value
  end.

Record RegistryDist := { dist_tarball : string; dist_integrity : option string }.

Record RegistryVersion := {
  v_version : string;
  v_dependencies : gmap string string;
  v_optional_dependencies : gmap string string;
  v_peer_dependencies : gmap string string;
  (** [PeerDependencyMeta::optional] *)
  v_peer_dependencies_meta : gmap string bool;
  v_bundled_dependencies : option BundledDependencies;
  v_bundle_dependencies : option BundledDependencies;
  v_dist : RegistryDist;
  v_os : list string;
  v_cpu : list string;
  v_libc : list string;
  v_bin : option json;
}.

Definition get_bundled_dependencies (self : RegistryVersion) : option BundledDependencies :=
  match v_bundled_dependencies self with
  | Some b => Some b
  | None => v_bundle_dependencies self
  end.

Definition has_bin (self : RegistryVersion) : bool :=
  match v_bin self with Some value => negb (is_null value) | None => false end.

(** [serde_json::from_value::<BinField>(..).ok()] of an untagged enum: a string,
    or an object whose values are strings. *)
Definition bin_field_of_json (value : json) : option BinField :=
  match value with
  | JString s => Some (Single s)
  | JObject m =>
      if bool_decide (map_Forall (fun _ v => is_Some (as_str v)) m)
      then Some (BinMap (omap as_str m)) else None
  | _ => None
  end.

Definition bin_definition (self : RegistryVersion) : option BinField :=
  v_bin self ≫= bin_field_of_json.

Record RegistryPackage := {
  rp_versions : gmap string RegistryVersion;
  rp_time : gmap string string;
  rp_dist_tags : gmap string string;
}.

(** ** [resolve/types.rs] *)
Record PackageId := { id_name : string; id_version : string }.

Global Instance PackageId_eq_dec : EqDecision PackageId.
Proof. solve_decision. Defined.
Global Instance PackageId_countable : Countable PackageId.
Proof.
  refine (inj_countable' (fun i => (id_name i, id_version i))
            (fun p => {| id_name := p.1; id_version := p.2 |}) _).
  by intros [].
Defined.

(** The derived [Ord]: by name, then by version. *)
Definition id_le : relation PackageId := fun a b =>
  ord_le (id_name a, id_version a) (id_name b, id_version b).
Global Instance PackageId_ord : RustOrd PackageId.
Proof.
  refine {| ord_le := id_le |}.
  - intros a b. unfold id_le. apply ord_le_dec.
  - split; [split|]; unfold id_le.
    + intros a. done.
    + intros a b c. apply (transitivity (R := ord_le)).
    + intros [n1 v1] [n2 v2] H12 H21.
      assert ((n1, v1) = (n2, v2)) as [= -> ->] by by apply (anti_symm ord_le). done.
  - intros a b. apply (total ord_le).
Defined.

Record ResolvedPackage := {
  r_id : PackageId;
  r_tarball : string;
  r_integrity : option string;
  r_dependencies : gmap string PackageId;
  r_peer_dependencies : gmap string string;
  r_bundled_dependencies : option BundledDependencies;
  r_has_bin : bool;
  r_bin : option BinField;
}.

Record RootDependency := { rd_requested : string; rd_resolved : PackageId }.

Record ResolutionGraph := {
  g_root : gmap string RootDependency;
  g_packages : gmap PackageId ResolvedPackage;
}.

(** Dependencies, and the root's choices, are packages of the graph. *)
Definition graph_closed (graph : ResolutionGraph) : Prop :=
  (forall id package name dep_id, g_packages graph !! id = Some package ->
     r_dependencies package !! name = Some dep_id -> is_Some (g_packages graph !! dep_id)) /\
  forall name d, g_root graph !! name = Some d -> is_Some (g_packages graph !! rd_resolved d).

(** ** [lockfile/types.rs] *)
Definition LOCKFILE_VERSION : N := 1.

Record LockRootDependency := {
  ld_requested : string;
  ld_package : option string;
  ld_version : option string;
  ld_optional : bool;
}.

Record LockPackage := {
  lp_name : string;
  lp_version : string;
  lp_tarball : string;
  lp_integrity : option string;
  lp_dependencies : gmap string string;
  lp_peer_dependencies : gmap string string;
  lp_bundled_dependencies : option BundledDependencies;
  lp_has_bin : bool;
  lp_bin : option BinField;
}.

Record Lockfile := {
  l_version : N;
  l_root : gmap string LockRootDependency;
  l_packages : gmap string LockPackage;
}.
