(* ===== verification/Paths.v ===== *)
(** * Paths and files of the Rust standard library

    [std::path] on Unix: a path is its text, cut into components at the
    slashes.  [parent], [with_extension] and [push] work on the text as the
    library does, so that displaying a path gives the same characters.  A
    [Disk] is what the operations that read and write whole files see of the
    file system: the contents of the files, and the paths whose access
    fails. *)
From S2P Require Import Prelude.
From S2P Require Import Text.
From S2P Require Import Errors.

(** ** Components *)
Inductive Component := RootDir | CurDir | ParentDir | Normal (name : string).

Global Instance Component_eq_dec : EqDecision Component.
Proof. solve_decision. Defined.

Definition component_of (part : string) : option Component :=
  if is_empty part then None
  else if part == "." then None
  else if part == ".." then Some ParentDir
  else Some (Normal part).

Definition is_absolute (p : string) : bool := starts_with "/" p.

(** A leading [.] of a relative path is a component; every other one is not. *)
Definition components (p : string) : list Component :=
  let parts := split_char "/" p in
  (if is_absolute p then [RootDir]
   else match parts with part :: _ => if part == "." then [CurDir] else [] | [] => [] end)
  ++ omap component_of parts.

Definition file_name (p : string) : option string :=
  match last (components p) with Some (Normal name) => Some name | _ => None end.

(** ** Joining *)
Definition path_push (p q : string) : string :=
  if is_absolute q then q
  else if is_empty p || ends_with "/" p then p +:+ q
  else p +:+ "/" +:+ q.

(** ** Going up *)

(** The parts at the end that are no component. *)
Definition trim_parts (parts : list string) : list string :=
  reverse (drop_while (fun part => one_of part [ε; "."]) (reverse parts)).

Definition parent (p : string) : option string :=
  match split_char "/" p with
  | [] => None
  | first :: rest =>
      match reverse (trim_parts rest) with
      | _ :: front => Some (if is_absolute p && is_empty (join "/" (trim_parts (reverse front))) then "/"
                            else join "/" (first :: trim_parts (reverse front)))
      | [] => if is_empty first then None else Some ε
      end
  end.

(** [PathBuf::pop]: nothing happens without a parent. *)
Definition path_pop (p : string) : string := default p (parent p).

(** [Path::with_extension] *)
Definition file_stem (name : string) : string :=
  match rfind_char "." name with
  | Some (S i) => stake (S i) name
  | _ => name
  end.

Definition with_extension (ext p : string) : string :=
  match file_name p with
  | None => p
  | Some name =>
      let stem := file_stem name +:+ (if is_empty ext then ε else "." +:+ ext) in
      match split_char "/" p with
      | [] => p
      | first :: rest =>
          match reverse (trim_parts rest) with
          | _ :: front => join "/" (first :: reverse (stem :: front))
          | [] => stem
          end
      end
  end.

(** ** Prefixes and order *)

(** Two paths are equal, and are ordered, by their components. *)
Definition path_eq (p q : string) : bool := bool_decide (components p = components q).

(** A path as the key of a [BTreeMap]: the derived [Ord] of [Component], for
    slices. *)
Definition component_key (c : Component) : nat * string :=
  match c with RootDir => (0, ε) | CurDir => (1, ε) | ParentDir => (2, ε) | Normal name => (3, name) end.
Definition path_key (p : string) : list (nat * string) := component_key <$> components p.

Fixpoint drop_parts (n : nat) (parts : list string) : list string :=
  match parts with
  | [] => []
  | part :: rest =>
      match component_of part, n with
      | None, _ => drop_parts n rest
      | Some _, O => parts
      | Some _, S n => drop_parts n rest
      end
  end.

(** A path without the separators at its end. *)
Definition trim_right (p : string) : string :=
  match split_char "/" p with
  | [] => p
  | first :: rest =>
      let r := join "/" (first :: trim_parts rest) in
      if is_absolute p && is_empty r then "/" else r
  end.

(** [Path::strip_prefix] *)
Definition path_strip_prefix (p base : string) : option string :=
  if bool_decide (components base `prefix_of` components p) then
    match components base with
    | [] => Some (trim_right p)
    | base =>
        let body := filter (fun c => c <> RootDir /\ c <> CurDir) base in
        Some (join "/" (trim_parts (drop_parts (length body) (split_char "/" p))))
    end
  else None.

(** [Path::ancestors]: the path, its parent, and so on; each is shorter than
    the one before. *)
Fixpoint ancestors_go (fuel : nat) (p : string) : list string :=
  match fuel with
  | O => []
  | S fuel => p :: match parent p with Some q => ancestors_go fuel q | None => [] end
  end.
Definition ancestors (p : string) : list string := ancestors_go (S (String.length p)) p.

(** ** Files *)
Record Disk := {
  files : gmap string string;
  (** the error of the operating system for a path, if access to it fails *)
  read_fault : string -> option string;
  write_fault : string -> option string;
}.

(** [fs::read], [fs::read_to_string] *)
Definition fs_read (disk : Disk) (path : string) : result string string :=
  match read_fault disk path with
  | Some error => Err error
  | None => ok_or "No such file or directory" (files disk !! path)
  end.

(** [fs::write]: a failing write leaves the file as it was. *)
Definition fs_write (disk : Disk) (path data : string) : result string unit * Disk :=
  match write_fault disk path with
  | Some error => (Err error, disk)
  | None => (Ok tt, {| files := <[path := data]> (files disk);
                       read_fault := read_fault disk; write_fault := write_fault disk |})
  end.

Definition disk_with (files : gmap string string) : Disk :=
  {| files := files; read_fault := fun _ => None; write_fault := fun _ => None |}.

(** ** The file system, as it is observed

    For the operations that look at types of files and at directories. *)
Inductive FileType := TFile | TDir | TSymlink | TOther.
Global Instance FileType_eq_dec : EqDecision FileType.
Proof. solve_decision. Defined.

Record FileTree := {
  (** [fs::symlink_metadata]: the type and the length *)
  symlink_metadata : string -> result string (FileType * N);
  (** [fs::metadata], which follows symbolic links *)
  metadata : string -> result string FileType;
  (** [fs::read] *)
  read : string -> result string string;
  (** [fs::read_dir(_)?.flatten()]: the names, each with [entry.file_type()] *)
  read_dir : string -> result string (list (string * result string FileType));
}.

Definition is_file (tree : FileTree) (path : string) : bool :=
  match metadata tree path with Ok TFile => true | _ => false end.
Definition is_dir (tree : FileTree) (path : string) : bool :=
  match metadata tree path with Ok TDir => true | _ => false end.
Definition read_to_string (tree : FileTree) (path : string) : result string string :=
  bytes ← read tree path; from_utf8 bytes.

(** The file system with what the install state looks at too: lengths, times of
    modification and the targets of links.  A time is the distance from the
    epoch in nanoseconds, negative before it. *)
Record Stat := {
  st_type : FileType;
  st_len : N;
  (** [Metadata::modified] *)
  st_modified : result string Z;
}.

Record FileSystem := {
  (** [fs::symlink_metadata], [fs::metadata] *)
  fs_lstat : string -> result string Stat;
  fs_stat : string -> result string Stat;
  (** [fs::read], [fs::read_link] *)
  fs_bytes : string -> result string string;
  fs_read_link : string -> result string string;
  (** [fs::read_dir]: an entry that cannot be read is an error of its own *)
  fs_entries : string -> result string (list (result string (string * result string FileType)));
}.

Definition tree_of (fs : FileSystem) : FileTree := {|
  symlink_metadata := fun path => s ← fs_lstat fs path; Ok (st_type s, st_len s);
  metadata := fun path => s ← fs_stat fs path; Ok (st_type s);
  read := fs_bytes fs;
  read_dir := fun path => entries ← fs_entries fs path; Ok (omap (M := list) result_ok entries);
|}.
Coercion tree_of : FileSystem >-> FileTree.

(** [Path::exists], [Path::is_symlink] *)
Definition path_exists (tree : FileTree) (path : string) : bool := is_ok (metadata tree path).
Definition is_symlink (tree : FileTree) (path : string) : bool :=
  match symlink_metadata tree path with Ok (TSymlink, _) => true | _ => false end.

(** ** Lemmas *)
Example parent_examples :
  parent "/a/b/c" = Some "/a/b" /\ parent "/a" = Some "/" /\ parent "/" = None /\
  parent "a//b/./" = Some "a" /\ parent "a" = Some ε /\ parent ε = None /\ parent "/a//b" = Some "/a".
Proof. repeat split; vm_refl. Qed.

Example with_extension_examples :
  with_extension "bin" "/p/snpm-lock.yaml" = "/p/snpm-lock.bin" /\
  with_extension "bin" "lock" = "lock.bin" /\ with_extension "bin" "/a/.b" = "/a/.b.bin".
Proof. repeat split; vm_refl. Qed.

Example strip_prefix_examples :
  path_strip_prefix "/a/b//c/./d/" "/a/b" = Some "c/./d" /\ path_strip_prefix "/a" "/" = Some "a" /\
  path_strip_prefix "/a" "/a/" = Some ε /\ path_strip_prefix "/ab" "/a" = None /\
  path_strip_prefix "./a/" ε = Some "./a" /\ path_strip_prefix "./a" "." = Some "a".
Proof. repeat split; vm_refl. Qed.

Example ancestors_examples :
  ancestors "a/b" = ["a/b"; "a"; ε] /\ ancestors "/a" = ["/a"; "/"] /\ ancestors ε = [ε].
Proof. repeat split; vm_refl. Qed.

Lemma fs_read_write disk path data disk' :
  fs_write disk path data = (Ok tt, disk') -> read_fault disk path = None ->
  fs_read disk' path = Ok data.
Proof.
  unfold fs_write, fs_read. intros Hw Hr. case_all. by rewrite lookup_insert_eq.
Qed.

Lemma fs_read_write_ne disk path data disk' r path' :
  fs_write disk path data = (r, disk') -> path' <> path -> fs_read disk' path' = fs_read disk path'.
Proof.
  unfold fs_write, fs_read. intros Hw Hne. case_all. all: by rewrite ?lookup_insert_ne by done.
Qed.

(** ** Absolute paths in normal form *)
Definition name_ok (name : string) : bool :=
  negb (contains_char "/" name) && bool_decide (component_of name = Some (Normal name)).

Definition abs_path (names : list string) : string := "/" +:+ join "/" names.

Lemma name_ok_spec name :
  name_ok name = true ->
  contains_char "/" name = false /\ is_empty name = false /\ (name == ".") = false /\
  component_of name = Some (Normal name).
Proof.
  unfold name_ok. intros Hok. bool_prop. split_and!; try done.
  all: unfold component_of in *; repeat case_match; done.
Qed.

Lemma component_of_ok part name :
  contains_char "/" part = false -> component_of part = Some (Normal name) ->
  part = name /\ name_ok name = true.
Proof.
  intros Hslash Hc. assert (part = name) as -> by (unfold component_of in Hc; by case_all).
  unfold name_ok. by rewrite Hslash, Hc, bool_decide_eq_true_2.
Qed.

Lemma components_ok p name : Normal name ∈ components p -> name_ok name = true.
Proof.
  unfold components. rewrite elem_of_app, list_elem_of_omap. intros [Hhead|(part & Hin & Hc)].
  - case_all; set_solver.
  - apply split_char_pieces in Hin. by eapply component_of_ok.
Qed.

Lemma split_abs_path names :
  Forall (fun n => name_ok n = true) names ->
  split_char "/" (abs_path names) = ε :: match names with [] => [ε] | _ => names end.
Proof.
  intros Hok. assert (abs_path names = join "/" (ε :: match names with [] => [ε] | _ => names end)) as ->
    by by destruct names.
  apply split_char_join; [done|]. constructor; [done|].
  destruct names; [by constructor|]. eapply Forall_impl; [done|]. by intros n []%name_ok_spec.
Qed.

Lemma drop_while_head {A} (f : A -> bool) a l : f a = false -> drop_while f (a :: l) = a :: l.
Proof. intros Ha. cbn. by rewrite Ha. Qed.

Lemma trim_parts_snoc parts part : one_of part [ε; "."] = false -> trim_parts (parts ++ [part]) = parts ++ [part].
Proof.
  intros Hp. unfold trim_parts. rewrite reverse_snoc, drop_while_head by done.
  by rewrite <-reverse_snoc, reverse_involutive.
Qed.

Lemma trim_parts_ok names :
  Forall (fun n => name_ok n = true) names -> trim_parts names = names.
Proof.
  induction names as [|n names _] using rev_ind; [done|].
  intros [_ [Hn _]%Forall_cons]%Forall_app. apply trim_parts_snoc.
  apply name_ok_spec in Hn as (_ & He & Hd & _). unfold one_of; cbn. rewrite Hd.
  by destruct n.
Qed.

Lemma path_pop_abs names :
  Forall (fun n => name_ok n = true) names -> path_pop (abs_path names) = abs_path (removelast names).
Proof.
  intros Hok. unfold path_pop, parent. rewrite split_abs_path by done.
  destruct names as [|n names] using rev_ind; [done|]. clear IHnames.
  apply Forall_app in Hok as [Hok Hn].
  replace (match names ++ [n] with [] => [ε] | _ => names ++ [n] end) with (names ++ [n])
    by by destruct names.
  rewrite trim_parts_ok by by apply Forall_app.
  rewrite reverse_snoc, reverse_involutive, trim_parts_ok, removelast_last by done. cbn.
  destruct names as [|m names]; [done|].
  inversion Hok as [|?? Hm]; subst. apply name_ok_spec in Hm as (_ & He & _).
  rewrite join_cons. destruct m; [done|]. by destruct names.
Qed.

Lemma path_push_abs names n :
  Forall (fun n => name_ok n = true) names -> name_ok n = true ->
  path_push (abs_path names) n = abs_path (names ++ [n]).
Proof.
  intros Hok Hn. unfold path_push.
  apply name_ok_spec in Hn as (Hslash & He & _).
  assert (is_absolute n = false) as ->.
  { destruct n as [|a n]; [done|]. unfold is_absolute.
    change "/" with (chr "/"). rewrite starts_with_chr_cons. cbn in Hslash. by destruct (Ascii.eqb _ _). }
  assert (is_empty (abs_path names) = false) as -> by done.
  destruct names as [|m names] using rev_ind; [done|]. clear IHnames.
  apply Forall_app in Hok as [_ [Hm _]%Forall_cons]. apply name_ok_spec in Hm as (Hms & Hme & _).
  unfold abs_path. rewrite (join_snoc _ (names ++ [m])) by by destruct names.
  assert (ends_with "/" ("/" +:+ join "/" (names ++ [m])) = false) as ->.
  { apply not_true_iff_false. intros [r Hr]%ends_with_spec.
    rewrite join_last, app_assoc_s in Hr.
    apply (f_equal String.rev) in Hr. rewrite !rev_app_s in Hr.
    rewrite <-(contains_char_rev "/" m) in Hms.
    destruct m as [|a m]; [done|]. rewrite rev_cons_s in Hms, Hr.
    destruct (String.rev m) as [|b m'] eqn:Hrev; cbn in Hms, Hr; injection Hr as -> _; done. }
  cbn [orb]. by rewrite !app_assoc_s.
Qed.

(** [Path::starts_with]: by whole components. *)
Definition path_starts_with (p base : string) : bool :=
  bool_decide (components base `prefix_of` components p).

Lemma name_ok_component name : name_ok name = true -> component_of name = Some (Normal name).
Proof. by intros (_ & _ & _ & ?)%name_ok_spec. Qed.

Lemma components_abs names :
  Forall (fun n => name_ok n = true) names -> components (abs_path names) = RootDir :: (Normal <$> names).
Proof.
  intros Hok. unfold components. rewrite split_abs_path by done. cbn [is_absolute abs_path].
  assert (Hc : omap component_of names = Normal <$> names).
  { induction Hok as [|n names Hn _ IH]; [done|]. cbn. by rewrite (name_ok_component n Hn), IH. }
  destruct names as [|n names]; [done|]. rewrite <-Hc. done.
Qed.

Lemma drop_parts_ok names rest :
  Forall (fun n => name_ok n = true) names -> Forall (fun n => name_ok n = true) rest ->
  drop_parts (length names) (names ++ rest) = rest.
Proof.
  intros Hok Hr. induction Hok as [|n names Hn _ IH]; cbn.
  - destruct Hr as [|r rest Hr _]; [done|]. cbn. by rewrite (name_ok_component r Hr).
  - by rewrite (name_ok_component n Hn), IH.
Qed.

Lemma path_strip_prefix_abs base rest :
  Forall (fun n => name_ok n = true) base -> Forall (fun n => name_ok n = true) rest ->
  path_strip_prefix (abs_path (base ++ rest)) (abs_path base) = Some (join "/" rest).
Proof.
  intros Hb Hr. unfold path_strip_prefix.
  rewrite !components_abs by by rewrite ?Forall_app.
  rewrite bool_decide_eq_true_2 by (rewrite fmap_app; by exists (Normal <$> rest)).
  f_equal. rewrite split_abs_path by by apply Forall_app.
  assert (length (filter (fun c => c <> RootDir /\ c <> CurDir) (RootDir :: (Normal <$> base))) = length base) as ->.
  { rewrite filter_cons_False by naive_solver.
    clear. induction base as [|b base IH]; [done|]. rewrite fmap_cons, filter_cons_True by done. cbn. by f_equal. }
  destruct (base ++ rest) as [|n names] eqn:Happ.
  { apply app_eq_nil in Happ as [-> ->]. done. }
  change (drop_parts ?k (ε :: ?l)) with (drop_parts k l).
  rewrite <-Happ, drop_parts_ok by done. by rewrite trim_parts_ok.
Qed.

(** Joining a relative path of several names. *)
Lemma path_push_app p r t :
  is_empty r = false -> is_absolute r = false -> path_push p (r +:+ t) = path_push p r +:+ t.
Proof.
  intros He Ha. unfold path_push.
  assert (is_absolute (r +:+ t) = false) as ->.
  { destruct r as [|a r]; [done|]. unfold is_absolute in *. rewrite app_cons_s.
    change "/" with (chr "/") in *. by rewrite starts_with_chr_cons in *. }
  rewrite Ha. case_match; by rewrite ?app_assoc_s.
Qed.

Lemma name_not_absolute n : name_ok n = true -> is_absolute n = false.
Proof.
  intros (Hslash & He & _)%name_ok_spec. destruct n as [|a n]; [done|]. unfold is_absolute.
  change "/" with (chr "/"). rewrite starts_with_chr_cons. cbn in Hslash. by destruct (Ascii.eqb _ _).
Qed.

Lemma path_push_not_slash p n : name_ok n = true ->
  is_empty (path_push p n) = false /\ ends_with "/" (path_push p n) = false.
Proof.
  intros Hn. pose proof (name_ok_spec n Hn) as (Hslash & He & _ & _).
  assert (exists x, path_push p n = x +:+ n) as [x ->].
  { unfold path_push. case_match; [by exists ε|]. case_match; [by exists p|]. exists (p +:+ "/").
    by rewrite <-app_assoc_s. }
  split; [destruct x; [by destruct n|done]|]. apply not_true_iff_false. intros [r Hr]%ends_with_spec.
  apply (f_equal String.rev) in Hr. rewrite !rev_app_s in Hr.
  rewrite <-contains_char_rev in Hslash. destruct (String.rev n) as [|a m] eqn:Hm.
  - apply (f_equal String.rev) in Hm. rewrite rev_rev_s in Hm. by subst.
  - injection Hr as -> _. done.
Qed.

Lemma path_push_push p f n : name_ok f = true -> is_absolute n = false ->
  path_push (path_push p f) n = path_push p (f +:+ "/" +:+ n).
Proof.
  intros Hf Hn. destruct (path_push_not_slash p f Hf) as [He Hs].
  pose proof (name_ok_spec f Hf) as (_ & Hfe & _). rewrite path_push_app.
  - unfold path_push at 1. by rewrite Hn, He, Hs.
  - by destruct f.
  - by apply name_not_absolute.
Qed.

Lemma join_cons_app r rest : rest <> [] -> join "/" (r :: rest) = r +:+ "/" +:+ join "/" rest.
Proof. by destruct rest. Qed.

Lemma abs_path_app names r rest : abs_path (names ++ r :: rest) =
  abs_path (names ++ [r]) +:+ match rest with [] => ε | _ => "/" +:+ join "/" rest end.
Proof.
  unfold abs_path. rewrite <-app_assoc_s. f_equal. induction names as [|n names IH].
  - destruct rest; cbn [app]; [by rewrite app_nil_s|]. done.
  - cbn [app]. rewrite !join_cons_app by by destruct names. by rewrite IH, !app_assoc_s.
Qed.

Lemma path_push_abs_join names rest :
  Forall (fun n => name_ok n = true) names -> Forall (fun n => name_ok n = true) rest -> rest <> [] ->
  path_push (abs_path names) (join "/" rest) = abs_path (names ++ rest).
Proof.
  intros Hn Hr Hne. destruct rest as [|r rest]; [done|]. apply Forall_cons in Hr as [Hr _].
  rewrite abs_path_app, <-path_push_abs by done.
  replace (join "/" (r :: rest)) with (r +:+ match rest with [] => ε | _ => "/" +:+ join "/" rest end).
  - apply path_push_app; [by apply name_ok_spec in Hr as (_ & ? & _)|by apply name_not_absolute].
  - destruct rest; [by rewrite app_nil_s|done].
Qed.
