(* ===== verification/Specs.v ===== *)
(** * Dependency specifiers

    How a dependency entry of a manifest is read: [resolve/query/parse.rs]
    (protocol prefixes, hosted git URLs, yarn's [patch:] locators),
    [resolve/query/build.rs] (overrides, [workspace:] entries, the request that
    goes to a registry), [resolve/source/] and
    [operations/install/manifest/{protocol,parsing}.rs] (what the user types).
    Percent decoding is the crate [urlencoding], the interface [UrlCrate].

    [split_protocol_spec] calls itself on the target of a [patch:] locator.  It
    is run with one unit of fuel per character and one more; a theorem shows
    that the recursion of the source holds of it and has no other solution. *)
From S2P Require Import Prelude.
From S2P Require Import BTree.
From S2P Require Import Text.
From S2P Require Import Types.
From S2P Require Import Paths.

(** [urlencoding::decode]: [None] when the decoded bytes are not UTF-8. *)
Class UrlCrate := { url_decode : string -> option string }.

(** Percent decoding replaces three characters by one byte. *)
Class UrlLaws `{UrlCrate} := {
  url_decode_length s t : url_decode s = Some t -> String.length t <= String.length s;
}.

(** The protocol, the source and the range of a specifier. *)
Definition protocol_spec : Type := RegistryProtocol * string * string.

(** ** Hosted git repositories *)

(** [let mut parts = repo.split('/')]: an owner, a name and nothing else *)
Definition owner_and_name (repo : string) : bool :=
  match split_char "/" repo with
  | [owner; name] => negb (is_empty owner) && negb (is_empty name)
  | _ => false
  end.

Definition matches_hosted_git_url (spec prefix : string) : bool :=
  match strip_prefix prefix (trim spec) with
  | None => false
  | Some rest =>
      let repo := trim_matches "/" (before_char (Ascii.eqb "#") rest) in
      owner_and_name repo
  end.

Definition looks_like_hosted_git_url (spec : string) : bool :=
  matches_hosted_git_url spec "https://github.com/"
  || matches_hosted_git_url spec "https://gitlab.com/"
  || matches_hosted_git_url spec "https://bitbucket.org/".

Definition looks_like_hosted_git_shorthand (spec : string) : bool :=
  let trimmed := trim spec in
  if is_empty trimmed || starts_with "@" trimmed || starts_with "." trimmed
     || starts_with "/" trimmed || contains "://" trimmed || contains "\" trimmed
     || contains " " trimmed
  then false
  else owner_and_name (before_char (Ascii.eqb "#") trimmed).

Definition is_git_protocol_prefix (prefix : string) : bool :=
  one_of prefix ["git"; "git+http"; "git+https"; "git+rsync"; "git+ftp"; "git+file"; "git+ssh";
    "ssh"; "github"; "gitlab"; "bitbucket"].

Module Parse.
(** ** [resolve/query/parse.rs] *)
Definition looks_like_registry_range (value : string) : bool :=
  negb (is_empty value) && negb (starts_with "@" value) && negb (contains_char "/" value)
  && negb (contains_char "@" value) && negb (contains_char ":" value).

Definition split_patch_locator (target : string) : option (string * string) :=
  at_ ← (if starts_with "@" target then
           slash ← find_char "/" target;
           let remainder := sdrop (S slash) target in
           i ← find_char "@" remainder;
           Some (slash + 1 + i)
         else find_char "@" target);
  if (at_ =? 0)%nat || (String.length target <=? at_ + 1)%nat then None
  else Some (stake at_ target, sdrop (S at_) target).

(** The name and the range of [npm:name@range], with the defaults. *)
Definition split_source_range (rest : string) : string * string :=
  match rfind_char "@" rest with
  | Some at_ =>
      let name := stake at_ rest in
      let version := trim_start_matches "@" (sdrop at_ rest) in
      (if is_empty name then rest else name, if is_empty version then "latest" else version)
  | None => (rest, "latest")
  end.

Definition prefix_protocol (prefix : string) : RegistryProtocol :=
  if prefix == "npm" then npm
  else if prefix == "jsr" then jsr
  else if one_of prefix ["file"; "link"; "portal"] then file
  else custom prefix.

Section open_recursion.
Context `{UrlCrate} (split_protocol_spec : string -> option protocol_spec).

Definition split_patch_registry_target (name rest : string) (protocol : RegistryProtocol)
  : protocol_spec :=
  if is_empty rest then (protocol, name, "latest")
  else if looks_like_registry_range rest then (protocol, name, rest)
  else
    let inner_spec := protocol_name protocol +:+ ":" +:+ rest in
    default (protocol, name, rest) (split_protocol_spec inner_spec).

Definition split_patch_locator_spec (name inner : string) : option protocol_spec :=
  match strip_prefix "npm:" inner with
  | Some rest => Some (split_patch_registry_target name rest npm)
  | None =>
  match strip_prefix "jsr:" inner with
  | Some rest => Some (split_patch_registry_target name rest jsr)
  | None =>
  match split_protocol_spec inner with
  | Some result => Some result
  | None => Some (npm, name, inner)
  end end end.

Definition split_patch_protocol_spec (spec : string) : option protocol_spec :=
  rest ← strip_prefix "patch:" spec;
  let target := before_char (Ascii.eqb "#") rest in
  if is_empty target then None
  else
    let decoded := default target (url_decode target) in
    match split_patch_locator decoded with
    | Some (name, inner) => split_patch_locator_spec name inner
    | None => split_protocol_spec decoded
    end.

Definition split_protocol_spec_body (spec : string) : option protocol_spec :=
  if looks_like_hosted_git_url spec then Some (git, spec, "latest")
  else match split_patch_protocol_spec spec with
  | Some patch => Some patch
  | None =>
      '(prefix, rest) ← split_once ":" spec;
      if is_empty prefix || is_empty rest then None
      else if is_git_protocol_prefix prefix then Some (git, prefix +:+ ":" +:+ rest, "latest")
      else
        let protocol := prefix_protocol prefix in
        if decide (protocol = file) then Some (protocol, rest, "latest")
        else let '(source, range) := split_source_range rest in Some (protocol, source, range)
  end.
End open_recursion.

Fixpoint split_fuel `{UrlCrate} (fuel : nat) (spec : string) : option protocol_spec :=
  match fuel with
  | 0 => None
  | S fuel => split_protocol_spec_body (split_fuel fuel) spec
  end.

Definition split_protocol_spec `{UrlCrate} (spec : string) : option protocol_spec :=
  split_fuel (S (String.length spec)) spec.
Global Arguments split_protocol_spec {_} spec : simpl never.
End Parse.
Import Parse.

Module Build.
(** ** [resolve/query/build.rs] *)
Record DepRequest := { dr_source : string; dr_range : string; dr_protocol : RegistryProtocol }.

(** An override by name, by protocol and range, or by range, in that order. *)
Definition select_override (name range : string) (protocol : RegistryProtocol)
    (overrides : option (gmap string string)) : option string :=
  overrides ← overrides;
  match overrides !! name with
  | Some value => Some value
  | None =>
  match overrides !! (name +:+ "@" +:+ protocol_name protocol +:+ ":" +:+ range) with
  | Some value => Some value
  | None => overrides !! (name +:+ "@" +:+ range)
  end end.

Definition is_range_start (c : ascii) : bool :=
  is_ascii_digit c || existsb (Ascii.eqb c) ["^";"~";"=";">";"<";"*";"x";"X"]%char.

Definition looks_like_registry_range (value : string) : bool :=
  if is_empty value || starts_with "@" value || contains_char "@" value
     || contains_char "/" value || contains_char ":" value
  then false
  else match value with String c _ => is_range_start c | ε => false end.

Definition split_package_less_registry_spec (spec : string) : option (RegistryProtocol * string) :=
  let attempt prefix protocol :=
    match strip_prefix prefix spec with
    | None => None
    | Some rest =>
        if is_empty rest then Some (protocol, "latest")
        else if looks_like_registry_range rest then Some (protocol, rest)
        else None
    end in
  match attempt "npm:" npm with Some r => Some r | None => attempt "jsr:" jsr end.

Definition split_workspace_spec (spec : string) : option string :=
  rest ← trim <$> strip_prefix "workspace:" spec;
  Some (if one_of rest [ε; "*"; "^"; "~"] then "*" else rest).

Definition resolve_local_workspace_source (name spec : string)
    (workspace_sources : option (gmap string string)) : option string :=
  if negb (starts_with "workspace:" spec) then None
  else workspace_sources ← workspace_sources; workspace_sources !! name.

Definition build_dep_request `{UrlCrate} (name range : string) (protocol : RegistryProtocol)
    (overrides workspace_sources : option (gmap string string)) : DepRequest :=
  let overridden := default range (select_override name range protocol overrides) in
  match resolve_local_workspace_source name overridden workspace_sources with
  | Some source => {| dr_source := source; dr_range := "latest"; dr_protocol := file |}
  | None =>
  match split_workspace_spec overridden with
  | Some range => {| dr_source := name; dr_range := range; dr_protocol := npm |}
  | None =>
  match split_package_less_registry_spec overridden with
  | Some (protocol, range) => {| dr_source := name; dr_range := range; dr_protocol := protocol |}
  | None =>
  match split_protocol_spec overridden with
  | Some (protocol, source, range) =>
      {| dr_source := source; dr_range := range; dr_protocol := protocol |}
  | None =>
      if protocol_name protocol == "git"
      then {| dr_source := overridden; dr_range := "latest"; dr_protocol := protocol |}
      else {| dr_source := name; dr_range := overridden; dr_protocol := protocol |}
  end end end end.
End Build.

(** ** [resolve/source/] *)
Definition protocol_from_range `{UrlCrate} (range : string) : RegistryProtocol :=
  match split_protocol_spec range with
  | Some (protocol, _, _) => protocol
  | None => if looks_like_hosted_git_shorthand range then git else npm
  end.

Definition resolve_relative_path (base relative : string) : string :=
  foldl (fun components part =>
    match part with
    | CurDir => components
    | ParentDir => path_pop components
    | Normal component => path_push components component
    | RootDir => "/"
    end) base (components relative).

Definition normalize_dependency_range (tarball dep_range : string) : string :=
  match strip_prefix "file://" tarball, strip_prefix "file:" dep_range with
  | Some package_path, Some relative_path =>
      "file:" +:+ resolve_relative_path package_path relative_path
  | _, _ => dep_range
  end.

Module Manifests.
(** ** [operations/install/manifest/protocol.rs] *)
Definition is_git_spec (spec : string) : bool :=
  starts_with "git:" spec || starts_with "git+" spec || starts_with "github:" spec
  || starts_with "gitlab:" spec || starts_with "bitbucket:" spec
  || looks_like_hosted_git_url spec || looks_like_hosted_git_shorthand spec.

Definition detect_manifest_protocol `{UrlCrate} (spec : string) : option RegistryProtocol :=
  if starts_with "npm:" spec then Some npm
  else if starts_with "file:" spec || starts_with "link:" spec || starts_with "portal:" spec
  then Some file
  else if starts_with "patch:" spec then (fun r => r.1.1) <$> split_protocol_spec spec
  else if starts_with "jsr:" spec then Some jsr
  else if is_git_spec spec then Some git
  else None.

Definition is_special_protocol_spec (spec : string) : bool :=
  starts_with "catalog:" spec || starts_with "workspace:" spec || starts_with "npm:" spec
  || starts_with "link:" spec || starts_with "portal:" spec || starts_with "patch:" spec
  || starts_with "jsr:" spec || is_git_spec spec.

(** ** [operations/install/manifest/parsing.rs] *)
Record ParsedSpec := { ps_name : string; ps_range : string; ps_protocol : option string }.

Definition split_package_spec (spec : string) : string * string :=
  match strip_prefix "@" spec with
  | Some without_at =>
      match rfind_char "@" without_at with
      | Some index =>
          ("@" +:+ stake index without_at, trim_start_matches "@" (sdrop index without_at))
      | None => (spec, "latest")
      end
  | None =>
      match rfind_char "@" spec with
      | Some index => (stake index spec, trim_start_matches "@" (sdrop index spec))
      | None => (spec, "latest")
      end
  end.

Definition parse_spec : string -> string * string := split_package_spec.

Definition split_protocol_prefix (spec : string) : option string * string :=
  match split_once ":" spec with
  | None => (None, spec)
  | Some (prefix, after) => if is_empty prefix then (None, spec) else (Some prefix, after)
  end.

Definition split_alias_spec (spec : string) : option (string * string) :=
  let attempt marker :=
    match find_str marker spec with
    | Some (S index) => Some (stake (S index) spec, sdrop (S (S index)) spec)
    | _ => None
    end in
  match attempt "@npm:" with Some r => Some r | None => attempt "@jsr:" end.

Definition parse_requested_spec (spec : string) : ParsedSpec :=
  match split_alias_spec spec with
  | Some (name, range) => {| ps_name := name; ps_range := range; ps_protocol := None |}
  | None =>
      let '(protocol, rest) := split_protocol_prefix spec in
      let '(name, range) := split_package_spec rest in
      {| ps_name := name; ps_range := range; ps_protocol := protocol |}
  end.

Definition requested_protocol (protocol_str : string) : RegistryProtocol :=
  if protocol_str == "npm" then npm
  else if protocol_str == "git" then git
  else if protocol_str == "jsr" then jsr
  else if starts_with "git+" protocol_str then git
  else custom protocol_str.

Definition parse_requested_with_protocol (specs : list string)
  : gmap string string * gmap string RegistryProtocol :=
  foldl (fun '(ranges, protocols) spec =>
    let parsed := parse_requested_spec spec in
    (<[ps_name parsed := ps_range parsed]> ranges,
     match ps_protocol parsed with
     | Some protocol_str => <[ps_name parsed := requested_protocol protocol_str]> protocols
     | None => protocols
     end)) (∅, ∅) specs.
End Manifests.

Import Build Manifests.

(** ** Lemmas *)
Lemma strip_prefix_length p s r : strip_prefix p s = Some r -> String.length s = String.length p + String.length r.
Proof. intros ->%strip_prefix_Some. apply length_app_s. Qed.

Lemma before_char_length f s : String.length (before_char f s) <= String.length s.
Proof. induction s as [|a s IH]; cbn; [lia|]. destruct (f a); cbn; lia. Qed.

Lemma sdrop_length n s : String.length (sdrop n s) = String.length s - n.
Proof. revert s. induction n as [|n IH]; intros [|a s]; cbn; auto. Qed.

Lemma split_patch_locator_length target name inner :
  split_patch_locator target = Some (name, inner) -> String.length inner < String.length target.
Proof.
  unfold split_patch_locator. intros (at_ & _ & Hif)%bind_Some.
  destruct (_ || _) eqn:Hb; [done|]. bool_prop.
  assert (inner = sdrop (S at_) target) as -> by congruence.
  match goal with H : (String.length _ <=? _)%nat = false |- _ => apply Nat.leb_gt in H end.
  rewrite sdrop_length. lia.
Qed.

Section recursion.
Context `{UrlLaws}.

(** The recursive calls are on shorter texts. *)
Lemma split_patch_locator_spec_ext f g name inner :
  (forall s, String.length s <= String.length inner -> f s = g s) ->
  split_patch_locator_spec f name inner = split_patch_locator_spec g name inner.
Proof.
  intros Hfg. unfold split_patch_locator_spec, split_patch_registry_target.
  destruct (strip_prefix "npm:" inner) as [rest|] eqn:Hn.
  { apply strip_prefix_length in Hn. cbn [protocol_name npm]. rewrite Hfg; [done|].
    rewrite Hn, !length_app_s. cbn. lia. }
  destruct (strip_prefix "jsr:" inner) as [rest|] eqn:Hj.
  { apply strip_prefix_length in Hj. cbn [protocol_name jsr]. rewrite Hfg; [done|].
    rewrite Hj, !length_app_s. cbn. lia. }
  by rewrite Hfg by lia.
Qed.

Lemma split_protocol_spec_body_ext f g spec :
  (forall s, String.length s < String.length spec -> f s = g s) ->
  split_protocol_spec_body f spec = split_protocol_spec_body g spec.
Proof.
  intros Hfg. unfold split_protocol_spec_body.
  assert (split_patch_protocol_spec f spec = split_patch_protocol_spec g spec) as ->; [|done].
  unfold split_patch_protocol_spec.
  destruct (strip_prefix "patch:" spec) as [rest|] eqn:Hp; [|done]. cbn.
  apply strip_prefix_length in Hp. cbn in Hp.
  pose proof (before_char_length (Ascii.eqb "#") rest) as Hb.
  set (target := before_char _ rest) in *. destruct (is_empty target); [done|].
  assert (String.length (default target (url_decode target)) <= String.length target) as Hd.
  { destruct (url_decode target) as [t|] eqn:Ht; cbn; [by eapply url_decode_length|lia]. }
  destruct (split_patch_locator _) as [[name inner]|] eqn:Hl.
  - apply split_patch_locator_length in Hl. apply split_patch_locator_spec_ext.
    intros s Hs. apply Hfg. lia.
  - apply Hfg. lia.
Qed.

Lemma split_fuel_enough n m spec :
  String.length spec < n -> String.length spec < m -> split_fuel n spec = split_fuel m spec.
Proof.
  revert m spec. induction n as [|n IH]; intros [|m] spec Hn Hm; try lia. cbn.
  apply split_protocol_spec_body_ext. intros s Hs. apply IH; lia.
Qed.

Lemma split_protocol_spec_eq spec :
  split_protocol_spec spec = split_protocol_spec_body split_protocol_spec spec.
Proof.
  unfold split_protocol_spec at 1. cbn [split_fuel]. apply split_protocol_spec_body_ext.
  intros s Hs. apply split_fuel_enough; lia.
Qed.

(** [split_protocol_spec] terminates: the recursion of the source, through
    the targets of [patch:] locators, determines one function, and the model
    is that function. *)
Theorem split_protocol_spec_unique (f : string -> option protocol_spec) :
  (forall spec, f spec = split_protocol_spec_body f spec) <->
  (forall spec, f spec = split_protocol_spec spec).
Proof.
  split; intros Hf spec.
  - induction spec as [spec IH] using (induction_ltof1 _ String.length).
    rewrite Hf, split_protocol_spec_eq. by apply split_protocol_spec_body_ext.
  - rewrite Hf, split_protocol_spec_eq. by apply split_protocol_spec_body_ext.
Qed.
End recursion.

Lemma before_char_none c s : contains_char c s = false -> before_char (Ascii.eqb c) s = s.
Proof.
  induction s as [|a s IH]; cbn; [done|]. destruct (Ascii.eqb c a); cbn; [done|].
  intros Hs. by rewrite IH.
Qed.

Lemma starts_with_head a s b t : starts_with (String b t) (String a s) = true -> b = a.
Proof. unfold starts_with. cbn. by destruct (Ascii.eqb_spec b a). Qed.

Lemma contains_strip_prefix c p s r :
  strip_prefix p s = Some r -> contains_char c p = true -> contains_char c s = true.
Proof. intros ->%strip_prefix_Some Hp. by rewrite contains_char_app, Hp. Qed.

(** A hosted repository starts with [https:]. *)
Lemma hosted_no_colon spec : contains_char ":" spec = false -> looks_like_hosted_git_url spec = false.
Proof.
  intros Hs%trim_contains_char. unfold looks_like_hosted_git_url, matches_hosted_git_url.
  repeat match goal with |- context [strip_prefix ?p (trim spec)] =>
    destruct (strip_prefix p (trim spec)) eqn:Hp;
    [apply (contains_strip_prefix ":") in Hp; [congruence|done]|clear Hp] end. done.
Qed.
Lemma hosted_head a s :
  is_ink a = true -> Ascii.eqb "h" a = false -> looks_like_hosted_git_url (String a s) = false.
Proof.
  intros Ha Hh. unfold looks_like_hosted_git_url, matches_hosted_git_url.
  assert (Hstrip : forall p, strip_prefix (String "h" p) (trim (String a s)) = None).
  { intros p. destruct (trim_ink a s Ha) as [->|[r ->]]; [done|]. cbn. by rewrite Hh. }
  by rewrite !Hstrip.
Qed.

Lemma split_plain `{UrlLaws} spec :
  contains_char ":" spec = false -> split_protocol_spec spec = None.
Proof.
  intros Hs. rewrite split_protocol_spec_eq. unfold split_protocol_spec_body, split_patch_protocol_spec.
  rewrite hosted_no_colon by done.
  destruct (strip_prefix "patch:" spec) eqn:Hp;
    [apply (contains_strip_prefix ":") in Hp; [congruence|done]|].
  cbn. apply split_once_None in Hs. by rewrite Hs.
Qed.

(** The version part of a registry target. *)
Lemma split_source_range_app name range :
  is_empty name = false -> is_empty range = false -> contains_char "@" range = false ->
  split_source_range (name +:+ String "@" range) = (name, range).
Proof.
  intros Hn Hr Hat. unfold split_source_range. rewrite rfind_char_app by done.
  rewrite stake_app, sdrop_app, Hn. cbn [trim_start_matches].
  rewrite Ascii.eqb_refl, trim_start_matches_ne by done. by rewrite Hr.
Qed.

Lemma split_registry_alias `{UrlLaws} protocol name range :
  protocol = npm \/ protocol = jsr ->
  is_empty name = false -> is_empty range = false -> contains_char "@" range = false ->
  split_protocol_spec (protocol_name protocol +:+ ":" +:+ name +:+ "@" +:+ range)
  = Some (protocol, name, range).
Proof.
  intros Hp Hn Hr Hat. rewrite split_protocol_spec_eq.
  unfold split_protocol_spec_body, split_patch_protocol_spec.
  destruct Hp as [-> | ->]; cbn [protocol_name npm jsr].
  all: rewrite app_cons_s, hosted_head by done.
  all: match goal with |- context [String ?a (?p +:+ ?t)] =>
    assert (String a (p +:+ t) = (String a p) +:+ String ":" (name +:+ String "@" range)) as -> by done end.
  all: rewrite split_once_app by done; cbn [strip_prefix app_cons_s].
  all: cbn -[split_source_range].
  all: assert (is_empty (name +:+ String "@" range) = false) as -> by by destruct name.
  all: by rewrite split_source_range_app.
Qed.

(** A registry specifier [npm:name@range] or [jsr:name@range] is split at
    the protocol and at its last [@], so a scoped name stays whole. *)
Theorem split_protocol_spec_registry `{UrlLaws} protocol name range :
  protocol = npm \/ protocol = jsr ->
  is_empty name = false -> is_empty range = false -> contains_char "@" range = false ->
  split_protocol_spec (protocol_name protocol +:+ ":" +:+ name +:+ "@" +:+ range)
  = Some (protocol, name, range).
Proof. apply split_registry_alias. Qed.

Lemma no_colon_prefix spec p :
  contains_char ":" spec = false -> contains_char ":" p = true -> strip_prefix p spec = None.
Proof.
  intros Hs Hp. destruct (strip_prefix p spec) eqn:Heq; [|done].
  eapply contains_strip_prefix in Heq; [|done]. congruence.
Qed.

(** A specifier without a protocol, after overrides, asks the dependency's
    own registry for its own name; under the git protocol the specifier itself
    is the source. *)
Theorem build_dep_request_plain `{UrlLaws} name range protocol overrides sources :
  let spec := default range (select_override name range protocol overrides) in
  contains_char ":" spec = false ->
  build_dep_request name range protocol overrides sources =
    if protocol_name protocol == "git"
    then {| dr_source := spec; dr_range := "latest"; dr_protocol := protocol |}
    else {| dr_source := name; dr_range := spec; dr_protocol := protocol |}.
Proof.
  intros spec Hs. unfold build_dep_request. fold spec.
  unfold resolve_local_workspace_source, starts_with, split_workspace_spec,
    split_package_less_registry_spec.
  rewrite !(no_colon_prefix spec) by done. cbn. by rewrite split_plain.
Qed.

(** A [workspace:] entry is served by the workspace member of that name, and
    without one by the npm registry, with the bare sigils [*], [^], [~] read as
    any version. *)
Theorem build_dep_request_workspace `{UrlCrate} name rest protocol sources :
  build_dep_request name ("workspace:" +:+ rest) protocol None sources =
    match sources ≫= (fun sources => sources !! name) with
    | Some source => {| dr_source := source; dr_range := "latest"; dr_protocol := file |}
    | None => {| dr_source := name;
                 dr_range := if one_of (trim rest) [ε; "*"; "^"; "~"] then "*" else trim rest;
                 dr_protocol := npm |}
    end.
Proof.
  unfold build_dep_request. cbv zeta; cbn [select_override default mbind option_bind].
  unfold resolve_local_workspace_source, split_workspace_spec.
  rewrite starts_with_app, strip_prefix_app. cbn. by destruct sources.
Qed.

Lemma parse_requested_alias alias target :
  is_empty alias = false -> contains_char ":" alias = false ->
  parse_requested_spec (alias +:+ "@npm:" +:+ target) =
    {| ps_name := alias; ps_range := "npm:" +:+ target; ps_protocol := None |}.
Proof.
  intros Ha Hc. unfold parse_requested_spec, split_alias_spec.
  assert (find_str "@npm:" (alias +:+ "@npm:" +:+ target) = Some (String.length alias)) as ->
    by exact (find_str_app ":" "@npm" alias target eq_refl Hc).
  destruct (String.length alias) as [|n] eqn:Hlen; [by destruct alias|]. rewrite <-Hlen.
  assert ("@npm:" +:+ target = String "@" ("npm:" +:+ target)) as -> by done.
  by rewrite stake_app, sdrop_app_S.
Qed.

(** An alias typed on the command line, [alias@npm:real@range], keeps the
    alias as the name of the dependency and asks the npm registry for the
    aliased package and range. *)
Theorem requested_alias_request `{UrlLaws} alias name range protocol sources :
  is_empty alias = false -> contains_char ":" alias = false ->
  is_empty name = false -> is_empty range = false -> contains_char "@" range = false ->
  let parsed := parse_requested_spec (alias +:+ "@npm:" +:+ name +:+ "@" +:+ range) in
  ps_name parsed = alias /\
  build_dep_request (ps_name parsed) (ps_range parsed) protocol None sources =
    {| dr_source := name; dr_range := range; dr_protocol := npm |}.
Proof.
  intros Ha Hc Hn Hr Hat. rewrite parse_requested_alias by done. cbn [ps_name ps_range].
  split; [done|]. unfold build_dep_request. cbv zeta; cbn [select_override default mbind option_bind].
  unfold resolve_local_workspace_source, split_workspace_spec, split_package_less_registry_spec.
  rewrite strip_prefix_app. unfold starts_with.
  assert (is_empty (name +:+ "@" +:+ range) = false) as -> by by destruct name.
  assert (Build.looks_like_registry_range (name +:+ "@" +:+ range) = false) as ->.
  { unfold Build.looks_like_registry_range. rewrite !contains_char_app. cbn.
    rewrite Ascii.eqb_refl. by rewrite !orb_true_r. }
  cbn.
  match goal with |- context [split_protocol_spec ?spec] =>
    assert (split_protocol_spec spec = Some (npm, name, range)) as ->
      by exact (split_registry_alias npm name range (or_introl eq_refl) Hn Hr Hat) end.
  done.
Qed.

Lemma strip_at_split_once s : starts_with "@" s = false -> strip_prefix "@" s = None.
Proof. unfold starts_with. by destruct (strip_prefix "@" s). Qed.

(** A package name, scoped or not, with or without a version, is read back
    from the text the user typed; without a version the range is [latest]. *)
Theorem parse_spec_roundtrip scoped name range :
  is_empty name = false -> contains_char "@" name = false -> contains_char "@" range = false ->
  let full := if scoped : bool then "@" +:+ name else name in
  parse_spec (full +:+ "@" +:+ range) = (full, range) /\ parse_spec full = (full, "latest").
Proof.
  intros Hne Hn Hr. unfold parse_spec, split_package_spec.
  assert (Hver : trim_start_matches "@" (String "@" range) = range).
  { cbn. by rewrite Ascii.eqb_refl, trim_start_matches_ne. }
  assert (Hat : forall t, "@" +:+ t = String "@" t) by done.
  destruct scoped; cbv zeta.
  - rewrite <-app_assoc_s, !strip_prefix_app, Hat, rfind_char_app by done.
    apply rfind_char_None in Hn. by rewrite Hn, stake_app, sdrop_app, Hver.
  - destruct name as [|a name]; [done|].
    assert (Hstrip : forall t, strip_prefix "@" (String a name +:+ t) = None).
    { intros t. rewrite app_cons_s. cbn in Hn |- *. by destruct (Ascii.eqb "@" a). }
    rewrite Hstrip, Hat, rfind_char_app by done. rewrite stake_app, sdrop_app, Hver.
    specialize (Hstrip ε). rewrite app_nil_s in Hstrip.
    apply rfind_char_None in Hn. by rewrite Hstrip, Hn.
Qed.

(** ** Relative paths of local packages *)

(** The directories below the root, walked along the components of a path. *)
Definition walk_names (names : list string) (part : Component) : list string :=
  match part with
  | CurDir => names
  | ParentDir => removelast names
  | Normal name => names ++ [name]
  | RootDir => []
  end.

Lemma Forall_removelast {A} (P : A -> Prop) l : Forall P l -> Forall P (removelast l).
Proof.
  destruct l as [|a l] using rev_ind; [done|]. rewrite removelast_last. by intros [? _]%Forall_app.
Qed.

Lemma walk_names_spec names parts :
  Forall (fun n => name_ok n = true) names ->
  (forall n, Normal n ∈ parts -> name_ok n = true) ->
  foldl (fun components part =>
    match part with
    | CurDir => components
    | ParentDir => path_pop components
    | Normal component => path_push components component
    | RootDir => "/"
    end) (abs_path names) parts = abs_path (foldl walk_names names parts).
Proof.
  revert names. induction parts as [|part parts IH]; intros names Hok Hparts; [done|]. cbn [foldl].
  assert (Hrest : forall n, Normal n ∈ parts -> name_ok n = true) by (intros; apply Hparts; by right).
  destruct part as [| | |name]; cbn [walk_names].
  - apply (IH []); [constructor|done].
  - by apply IH.
  - rewrite path_pop_abs by done. apply IH; [by apply Forall_removelast|done].
  - assert (name_ok name = true) by (apply Hparts; by left).
    rewrite path_push_abs by done. apply IH; [|done]. apply Forall_app; by repeat constructor.
Qed.

(** A relative [file:] dependency of a local package is resolved against that
    package's own directory: the text produced is the directory reached by
    walking the components one by one, where [..] at the root stays there. *)
Theorem normalize_dependency_range_walk names relative :
  Forall (fun n => name_ok n = true) names ->
  normalize_dependency_range ("file://" +:+ abs_path names) ("file:" +:+ relative) =
    "file:" +:+ abs_path (foldl walk_names names (components relative)).
Proof.
  intros Hok. unfold normalize_dependency_range. rewrite !strip_prefix_app.
  unfold resolve_relative_path. by rewrite walk_names_spec by eauto using components_ok.
Qed.

(** ** Witnesses *)
Definition hex_value (a : ascii) : option N :=
  let n := nat_of_ascii a in
  if nat_in n 48 57 then Some (N.of_nat (n - 48))
  else if nat_in n 65 70 then Some (N.of_nat (n - 55))
  else if nat_in n 97 102 then Some (N.of_nat (n - 87)) else None.

Fixpoint percent_decode (s : string) : string :=
  match s with
  | String "%" (String h (String l t) as s') =>
      match hex_value h, hex_value l with
      | Some h, Some l => String (ascii_of_N (16 * h + l)) (percent_decode t)
      | _, _ => String "%" (percent_decode s')
      end
  | String a t => String a (percent_decode t)
  | ε => ε
  end.

Global Instance percent_url : UrlCrate := {| url_decode := fun s => Some (percent_decode s) |}.

Lemma percent_decode_length s : String.length (percent_decode s) <= String.length s.
Proof.
  remember (String.length s) as n eqn:Hn. revert s Hn.
  induction n as [n IH] using lt_wf_ind. intros s Hn.
  assert (Htail : forall a t, s = String a t -> S (String.length (percent_decode t)) <= n).
  { intros a t ->. cbn in Hn. specialize (IH (String.length t) ltac:(lia) t eq_refl). lia. }
  destruct s as [|a s]; [cbn in *; lia|]. specialize (Htail a s eq_refl) as Hs.
  destruct a as [[] [] [] [] [] [] [] []]; cbn -[percent_decode] in *; try exact Hs.
  destruct s as [|h [|l t]]; cbn in *; try lia.
  destruct (hex_value h) as [vh|], (hex_value l) as [vl|]; cbn in *; try exact Hs.
  specialize (IH (String.length t) ltac:(lia) t eq_refl). lia.
Qed.

Global Instance percent_laws : UrlLaws.
Proof. split. intros s t [= <-]. apply percent_decode_length. Qed.

Module SpecsDemo.
Example patch_locator :
  split_protocol_spec "patch:@scope/typedoc@npm%3A4.4.0#~/.yarn/patches/typedoc.patch"
  = Some (npm, "@scope/typedoc", "4.4.0").
Proof. vm_refl. Qed.

Lemma split_protocol_spec_unique_witness :
  split_protocol_spec "^1.0.0" = None /\
  forall spec, split_fuel (S (String.length spec)) spec = split_protocol_spec spec.
Proof.
  split; [vm_refl|].
  apply (split_protocol_spec_unique (fun spec => split_fuel (S (String.length spec)) spec)).
  exact split_protocol_spec_eq.
Defined.

Lemma split_protocol_spec_registry_witness :
  split_protocol_spec "npm:@scope/pkg@^1.2.0" = Some (npm, "@scope/pkg", "^1.2.0").
Proof. apply (split_protocol_spec_registry npm "@scope/pkg" "^1.2.0"); [by left|vm_refl..]. Defined.

Lemma build_dep_request_plain_witness :
  build_dep_request "left" "^1.0.0" npm (Some {["left" := "~1.3.0"]}) None =
    {| dr_source := "left"; dr_range := "~1.3.0"; dr_protocol := npm |}.
Proof.
  etrans; [apply (build_dep_request_plain "left" "^1.0.0" npm (Some {["left" := "~1.3.0"]}) None)|];
    vm_refl.
Defined.

Lemma requested_alias_request_witness :
  ps_name (parse_requested_spec "my-alias@npm:@scope/pkg@^1.0.0") = "my-alias" /\
  build_dep_request "my-alias" "npm:@scope/pkg@^1.0.0" npm None None =
    {| dr_source := "@scope/pkg"; dr_range := "^1.0.0"; dr_protocol := npm |}.
Proof. apply (requested_alias_request "my-alias" "@scope/pkg" "^1.0.0" npm None); vm_refl. Defined.

Lemma parse_spec_roundtrip_witness :
  parse_spec "@types/node@^18.0.0" = ("@types/node", "^18.0.0") /\
  parse_spec "@types/node" = ("@types/node", "latest").
Proof. apply (parse_spec_roundtrip true "types/node" "^18.0.0"); vm_refl. Defined.

Lemma normalize_dependency_range_walk_witness :
  normalize_dependency_range "file:///repo/packages/app" "file:../lib/./core" =
    "file:/repo/packages/lib/core".
Proof.
  apply (normalize_dependency_range_walk ["repo"; "packages"; "app"] "../lib/./core").
  repeat constructor; vm_refl.
Defined.
End SpecsDemo.
