(* ===== verification/Crates.v ===== *)
(** * The crates the program calls, as interfaces

    Code that is not part of the repository is an argument of the model: one
    type class per crate, with the laws that are relied on in a class of its
    own.  The theorems hold for every instance.  The concrete instances at the
    end show that the laws can be met, and let the witnesses run the model:
    versions [a.b.c] without pre-release tags, requests that are
    comma-separated comparators, time stamps that are day numbers. *)
From S2P Require Import Prelude.
From S2P Require Import BTree.
From S2P Require Import Text.
From S2P Require Import Types.

(** ** The [semver] crate *)
Class SemverCrate := {
  Version : Type;
  version_parse : string -> result string Version;
  version_le : relation Version;
  version_le_dec :: RelDecision version_le;
  version_display : Version -> string;
  VersionReq : Type;
  req_parse : string -> result string VersionReq;
  req_matches : VersionReq -> Version -> bool;
}.

(** What is relied on: [Ord for Version] is a total order. *)
Class SemverLaws `{SemverCrate} := {
  version_le_trans :: Transitive version_le;
  version_le_total :: Total version_le;
}.

(** The [time] crate: [OffsetDateTime::parse(_, &Rfc3339)] and
    [(now - published).whole_days()]. *)
Class TimeCrate := {
  OffsetDateTime : Type;
  parse_rfc3339 : string -> option OffsetDateTime;
  whole_days_between : OffsetDateTime -> OffsetDateTime -> Z;
}.

(** The [glob] crate: [Pattern::new(_).ok()] and [Pattern::matches]. *)
Class GlobCrate := {
  glob_pattern : Type;
  glob_new : string -> option glob_pattern;
  glob_matches : glob_pattern -> string -> bool;
}.

(** [glob::glob(pattern)]: the paths found, those that could not be read left
    out; [None] for a malformed pattern. *)
Class GlobWalk := { glob_paths : string -> option (list string) }.

(** [bincode::serialize] and [bincode::deserialize] at one type; what is written
    can be read back. *)
Class Bincode (A : Type) := {
  bincode : A -> result string string;
  unbincode : string -> result string A;
}.
Class BincodeLaws (A : Type) `{Bincode A} := {
  unbincode_bincode a data : bincode a = Ok data -> unbincode data = Ok a;
}.

(** [serde_json::from_str::<Value>] *)
Class JsonCrate := { json_from_str : string -> result string json }.

(** ** Concrete instances *)
Definition triple : Type := N * N * N.

Definition triple_le : relation triple := fun a b =>
  let '(a1, a2, a3) := a in let '(b1, b2, b3) := b in
  (a1 < b1)%N \/ a1 = b1 /\ ((a2 < b2)%N \/ a2 = b2 /\ (a3 <= b3)%N).

Global Instance triple_le_dec : RelDecision triple_le.
Proof. intros [[] ?] [[] ?]. unfold triple_le. apply _. Defined.

Definition triple_parse (s : string) : result string triple :=
  match parse_u64 <$> split_char "." s with
  | [Some a; Some b; Some c] => Ok (a, b, c)
  | _ => Err "unexpected character"
  end.

Definition triple_display (v : triple) : string :=
  let '(a, b, c) := v in show_N a +:+ "." +:+ show_N b +:+ "." +:+ show_N c.

Inductive comparator :=
| CExact (v : triple) | CGreaterEq (v : triple) | CLess (v : triple) | CLessEq (v : triple)
| CCaret (v : triple) | CAny.

Definition comparator_parse (s : string) : option comparator :=
  let s := trim s in
  if s == "*" then Some CAny
  else match strip_prefix ">=" s with
  | Some r => CGreaterEq <$> result_ok (triple_parse r)
  | None => match strip_prefix "<=" s with
  | Some r => CLessEq <$> result_ok (triple_parse r)
  | None => match strip_prefix "<" s with
  | Some r => CLess <$> result_ok (triple_parse r)
  | None => match strip_prefix "=" s with
  | Some r => CExact <$> result_ok (triple_parse r)
  | None => match strip_prefix "^" s with
  | Some r => CCaret <$> result_ok (triple_parse r)
  | None => CCaret <$> result_ok (triple_parse s)
  end end end end end.

Definition triple_req_parse (s : string) : result string (list comparator) :=
  ok_or "unexpected character" (mapM comparator_parse (split_char "," s)).

Definition comparator_matches (c : comparator) (v : triple) : bool :=
  match c with
  | CExact w => bool_decide (v = w)
  | CGreaterEq w => bool_decide (triple_le w v)
  | CLess w => negb (bool_decide (triple_le w v))
  | CLessEq w => bool_decide (triple_le v w)
  | CCaret w => bool_decide (triple_le w v) && (v.1.1 =? w.1.1)%N
  | CAny => true
  end.

Global Instance triple_crate : SemverCrate := {|
  Version := triple;
  version_parse := triple_parse;
  version_le := triple_le;
  version_display := triple_display;
  VersionReq := list comparator;
  req_parse := triple_req_parse;
  req_matches := fun cs v => forallb (fun c => comparator_matches c v) cs;
|}.

Global Instance triple_laws : SemverLaws.
Proof.
  split; cbn.
  - intros [[] ?] [[] ?] [[] ?]. unfold triple_le. lia.
  - intros [[] ?] [[] ?]. unfold triple_le. lia.
Qed.

Global Instance day_time : TimeCrate := {|
  OffsetDateTime := Z;
  parse_rfc3339 := fun s => Z.of_N <$> parse_u64 s;
  whole_days_between := Z.sub;
|}.
