(* ===== verification/Semver.v ===== *)
(** * Version ranges: the crate [snpm-semver] and [version/] of [snpm-core]

    [RangeSet.parse] rewrites npm's range syntax into requests of the [semver]
    crate; that crate is the interface [SemverCrate] of [Crates].  [normalize_*],
    [expand_*], [strip_v_prefix] are [range/parse.rs], [parse_version] is
    [versioning.rs] and [select_version] is [version/select.rs]. *)
From S2P Require Import Prelude.
From S2P Require Import BTree.
From S2P Require Import Text.
From S2P Require Import Errors.
From S2P Require Import Crates.

(** ** [versioning.rs] *)
Section versioning.
(** the first of [-] and [+] starts the suffix *)
Definition is_suffix_start (c : ascii) : bool := Ascii.eqb c "-" || Ascii.eqb c "+".

Definition strip_zeros (segment : string) : string :=
  let stripped := trim_start_matches "0" segment in
  if is_empty stripped then "0" else stripped.

Definition normalize_leading_zeros (input : string) : string :=
  let '(version_part, suffix) :=
    match find_by is_suffix_start input with
    | Some index => (stake index input, sdrop index input)
    | None => (input, ε)
    end in
  join "." (strip_zeros <$> split_char "." version_part) +:+ suffix.

Context `{SemverCrate}.

Definition parse_version (input : string) : result string Version :=
  let input := match strip_prefix "v" input with
               | Some r => r
               | None => match strip_prefix "V" input with
                         | Some r => r
                         | None => input
                         end
               end in
  match version_parse input with
  | Ok version => Ok version
  | Err _ => version_parse (normalize_leading_zeros input)
  end.
End versioning.

(** ** [range/parse.rs] *)
Module Range.
Definition is_operator_char (c : ascii) : bool :=
  existsb (Ascii.eqb c) ["<"; ">"; "="; "~"; "^"]%char.

Definition strip_v_prefix (token : string) : string :=
  let operator_len := default (String.length token)
                        (find_by (fun c => negb (is_operator_char c)) token) in
  let operator := stake operator_len token in
  let rest := sdrop operator_len token in
  match rest with
  | String v (String d _) =>
      if (Ascii.eqb v "v" || Ascii.eqb v "V") && is_ascii_digit d
      then operator +:+ sdrop 1 rest
      else token
  | _ => token
  end.

Definition is_plain_exact_version (input : string) : bool :=
  if is_empty input then false
  else if any_char (fun c => existsb (Ascii.eqb c) ["<"; ">"; "="; "^"; "~"; " "; ","]%char) input
  then false
  else if contains_char "*" input then false
  else
    let version_part := before_char is_suffix_start input in
    if existsb (fun segment => eq_ignore_ascii_case segment "x") (split_char "." version_part)
    then false
    else (2 <=? count_chars (Ascii.eqb ".") input)%nat.

Definition extract_version_range (protocol_spec : string) : string :=
  let search_from :=
    if starts_with "@" protocol_spec
    then match find_char "/" protocol_spec with Some index => index + 1 | None => 1 end
    else 0 in
  match rfind_char "@" (sdrop search_from protocol_spec) with
  | Some at_ =>
      let version := trim (sdrop (search_from + at_ + 1) protocol_spec) in
      if is_empty version then "*" else version
  | None => "*"
  end.

(** [major + 1] on [u64]: wrapping, as in a release build (a debug build
    panics at [u64::MAX]). *)
Definition expand_hyphen_range (lower upper : string) : string :=
  let lower_parts := split_char "." lower in
  let upper_parts := split_char "." upper in
  let lower_full :=
    match lower_parts with
    | [a] => a +:+ ".0.0"
    | [a; b] => a +:+ "." +:+ b +:+ ".0"
    | _ => lower
    end in
  match upper_parts with
  | [a] =>
      let major := default 0%N (parse_u64 a) in
      ">=" +:+ lower_full +:+ ", <" +:+ show_N (u64_wrapping_add major 1) +:+ ".0.0"
  | [major; b] =>
      let minor := default 0%N (parse_u64 b) in
      ">=" +:+ lower_full +:+ ", <" +:+ major +:+ "." +:+ show_N (u64_wrapping_add minor 1) +:+ ".0"
  | _ => ">=" +:+ lower_full +:+ ", <=" +:+ upper
  end.

Definition is_operator (token : string) : bool :=
  one_of token ["="; ">"; ">="; "<"; "<="; "~"; "^"].

(** The loop that joins the tokens: [previous] is [tokens[index - 1]]. *)
Fixpoint join_tokens (previous : string) (tokens : list string) : string :=
  match tokens with
  | [] => ε
  | token :: tokens =>
      (if is_operator previous then " " else ", ") +:+ token +:+ join_tokens token tokens
  end.

Definition normalize_and_part (part : string) : string :=
  match strip_v_prefix <$> split_whitespace part with
  | [] => part
  | [token] => token
  | [lower; dash; upper] as tokens =>
      if dash == "-" then expand_hyphen_range lower upper
      else lower +:+ join_tokens lower [dash; upper]
  | token :: tokens => token +:+ join_tokens token tokens
  end.

Definition normalize_part (part : string) : string :=
  let part := trim part in
  let part :=
    if starts_with "@" part && (1 <? String.length part)%nat then
      match part with
      | String _ (String second _) =>
          if is_ascii_digit second || existsb (Ascii.eqb second) ["^"; "~"; ">"; "<"; "="]%char
          then sdrop 1 part else part
      | _ => part
      end
    else part in
  if is_empty part || (part == "latest") then "*" else normalize_and_part part.

Definition expand_bare_major_minor (input : string) : option string :=
  '(major, minor) ← split_once "." input;
  if is_empty major || is_empty minor
     || negb (all_chars is_ascii_digit major) || negb (all_chars is_ascii_digit minor)
  then None
  else
    m ← parse_u64 minor;
    next_minor ← u64_checked_add m 1;
    Some (">=" +:+ major +:+ "." +:+ minor +:+ ".0, <" +:+ major +:+ "." +:+ show_N next_minor +:+ ".0").

Definition adjust_node_default (input : string) : string :=
  if is_plain_exact_version input then "=" +:+ input
  else default input (expand_bare_major_minor input).

(** The source of [parse_internal] once [latest] and the protocol prefixes
    are resolved. *)
Definition range_source (original : string) : string :=
  let source := trim original in
  let source := if is_empty source || (source == "latest") then "*" else source in
  if starts_with "npm:" source || starts_with "jsr:" source then
    match find_char ":" source with
    | Some colon => extract_version_range (sdrop (colon + 1) source)
    | None => source
    end
  else source.

Section with_crate.
Context `{SemverCrate}.

(** [Error] of [error.rs] *)
Record Error := { err_input : string; err_message : string }.
Definition error_display (e : Error) : string :=
  err_message e +:+ " (" +:+ err_input e +:+ ")".

Record RangeSet := { original : string; ranges : list VersionReq }.

Definition parse_request (original request : string) : result Error VersionReq :=
  map_err (fun message => {| err_input := original; err_message := message |}) (req_parse request).

(** One turn of the loop over [source.split("||")]. *)
Definition push_part (original : string) (ranges : list VersionReq) (part : string)
  : result Error (list VersionReq) :=
  let normalized := normalize_part part in
  if is_empty normalized then Ok ranges
  else
    request ← parse_request original (adjust_node_default normalized);
    Ok (ranges ++ [request]).

Definition parse_internal (original : string) : result Error RangeSet :=
  ranges ← try_fold (push_part original) [] (split_str "||" (range_source original));
  ranges ← (match ranges with
            | [] => request ← parse_request original "*"; Ok [request]
            | _ => Ok ranges
            end);
  Ok {| original := original; ranges := ranges |}.

Definition matches (self : RangeSet) (version : Version) : bool :=
  existsb (fun range => req_matches range version) (ranges self).
End with_crate.
End Range.

(** ** [version/ranges.rs] *)
Definition parse_range_set `{SemverCrate} (name original : string) : Result Range.RangeSet :=
  map_err (fun err => Semver (name +:+ "@" +:+ original) (Range.error_display err))
    (Range.parse_internal original).

(** ** Leading zeros *)

Lemma strip_zeros_value segment n :
  is_empty segment = false -> digits_go 0 segment = Some n -> strip_zeros segment = show_N n.
Proof.
  unfold strip_zeros. intros Hne.
  assert (Hval : forall s, digits_go 0 (trim_start_matches "0" s) = digits_go 0 s).
  { induction s as [|a s IH]; [done|]. cbn [trim_start_matches].
    destruct (Ascii.eqb_spec "0" a) as [<-|]; [|done]. by rewrite IH. }
  assert (Hhead : forall s a r, trim_start_matches "0" s = String a r -> Ascii.eqb "0" a = false).
  { induction s as [|b s IH]; intros a r; [done|]. cbn [trim_start_matches].
    destruct (Ascii.eqb "0" b) eqn:Hb; [apply IH|]. by intros [= <- <-]. }
  rewrite <-Hval. destruct (trim_start_matches "0" segment) as [|a r] eqn:Hs; cbn [is_empty].
  - cbn. by intros [= <-].
  - intros Hn. symmetry. by apply show_digits; [|eapply Hhead].
Qed.

Lemma find_by_app f s t :
  all_chars (fun a => negb (f a)) s = true ->
  find_by f (s +:+ t) = (fun i => String.length s + i) <$> find_by f t.
Proof.
  induction s as [|a s IH]; cbn; [rewrite app_nil_l_s; by destruct (find_by f t)|].
  intros [Ha Hs]%andb_true_iff. rewrite app_cons_s. cbn. apply negb_true_iff in Ha as ->.
  rewrite IH by done. by destruct (find_by f t).
Qed.

Lemma all_chars_join f sep ws :
  all_chars f sep = true -> Forall (fun w => all_chars f w = true) ws ->
  all_chars f (join sep ws) = true.
Proof.
  intros Hsep. induction 1 as [|w ws Hw Hws IH]; [done|]. rewrite join_cons.
  destruct ws; [done|]. by rewrite !all_chars_app, Hw, Hsep, IH.
Qed.

(** The suffix of a version: nothing, or [-] or [+] and what follows. *)
Definition is_suffix (suffix : string) : bool :=
  match suffix with ε => true | String a _ => is_suffix_start a end.

Lemma normalize_leading_zeros_split segments suffix :
  segments <> [] ->
  Forall (fun w => all_chars is_ascii_digit w = true) segments -> is_suffix suffix = true ->
  normalize_leading_zeros (join "." segments +:+ suffix) =
  join "." (strip_zeros <$> segments) +:+ suffix.
Proof.
  intros Hne Hsegs Hsuf. unfold normalize_leading_zeros.
  assert (Hplain : all_chars (fun a => negb (is_suffix_start a)) (join "." segments) = true).
  { apply all_chars_join; [done|]. eapply Forall_impl; [done|]. intros w Hw.
    eapply all_chars_impl; [|exact Hw]. intros a Ha.
    apply (plain_char_case (fun a => negb (is_suffix_start a) = true)).
    - unfold is_plain. by rewrite Ha.
    - repeat constructor. }
  assert (Hsplit : split_char "." (join "." segments) = segments).
  { apply split_char_join; [done|]. eapply Forall_impl; [done|]. apply digits_no_dot. }
  rewrite find_by_app by done. destruct suffix as [|a suffix]; cbn [find_by].
  - cbn [fmap option_fmap option_map]. by rewrite !app_nil_s, Hsplit.
  - cbn in Hsuf. rewrite Hsuf. cbn [fmap option_fmap option_map]. rewrite Nat.add_0_r, stake_app, sdrop_app, Hsplit. done.
Qed.

(** Stripping leading zeros puts a version into canonical form: when the
    version part consists of numerals of values [ns], the result spells exactly
    those numbers, without leading zeros, and keeps the pre-release or build
    suffix unchanged. *)
Theorem normalize_leading_zeros_canonical segments ns suffix :
  segments <> [] ->
  Forall2 (fun w n => is_empty w = false /\ digits_go 0 w = Some n) segments ns ->
  is_suffix suffix = true ->
  normalize_leading_zeros (join "." segments +:+ suffix) = join "." (show_N <$> ns) +:+ suffix.
Proof.
  intros Hne Hns Hsuf.
  assert (Hdig : forall s acc n, digits_go acc s = Some n -> all_chars is_ascii_digit s = true).
  { induction s as [|a s IH]; intros acc n; [done|]. cbn. unfold digit_value.
    destruct (is_ascii_digit a); [apply IH|done]. }
  rewrite normalize_leading_zeros_split; [|done| |done].
  - do 2 f_equal. clear Hne. induction Hns as [|w n segs ns [Hw Hn] Hns IH]; [done|].
    rewrite !fmap_cons, IH. f_equal. by apply strip_zeros_value.
  - clear Hne. induction Hns as [|w n segs ns [Hw Hn] Hns IH]; constructor; eauto.
Qed.

Lemma normalize_leading_zeros_canonical_witness :
  normalize_leading_zeros "30.100.00-alpha.01" = "30.100.0-alpha.01".
Proof.
  apply (normalize_leading_zeros_canonical ["30"; "100"; "00"] [30; 100; 0]%N "-alpha.01").
  - discriminate.
  - repeat constructor.
  - reflexivity.
Defined.

(** ** Partial versions *)
Section ranges.
Import Range.

Lemma bare_major_minor_plain major minor :
  all_chars is_plain (show_N major +:+ "." +:+ show_N minor) = true.
Proof.
  rewrite !all_chars_app, (digits_plain (show_N major)), (digits_plain (show_N minor))
    by apply show_N_digits. vm_compute. done.
Qed.

(** C40: A bare [major.minor] means the partial range [>=major.minor.0,
    <major.(minor+1).0] for every minor below [u64::MAX]; at [u64::MAX] the
    checked addition makes the expansion decline instead of wrapping. *)
Theorem expand_bare_major_minor_spec (major minor : N) :
  expand_bare_major_minor (show_N major +:+ "." +:+ show_N minor) =
  if decide (minor < u64_max)%N
  then Some (">=" +:+ show_N major +:+ "." +:+ show_N minor +:+ ".0, <" +:+ show_N major +:+ "."
             +:+ show_N (minor + 1) +:+ ".0")
  else None.
Proof.
  unfold expand_bare_major_minor.
  assert (split_once "." (show_N major +:+ "." +:+ show_N minor) = Some (show_N major, show_N minor))
    as ->.
  { apply split_once_Some. split; [done|]. apply digits_no_dot, show_N_digits. }
  cbn [mbind option_bind]. rewrite !show_N_ne, !show_N_digits. cbn [negb orb].
  destruct (decide (minor <= u64_max)%N) as [Hle|Hgt].
  - rewrite parse_show_u64 by done. cbn [mbind option_bind]. unfold u64_checked_add.
    destruct (decide (minor < u64_max)%N).
    + by rewrite decide_True by lia.
    + by rewrite decide_False by lia.
  - rewrite decide_False by (unfold u64_max in *; lia).
    destruct (parse_u64 (show_N minor)) as [m|] eqn:Hm; [|done]. exfalso.
    unfold parse_u64 in Hm. destruct (is_empty _); [done|].
    apply bind_Some in Hm as (m' & Hm' & Hd). case_decide as Hb; simplify_eq.
    assert (strip_prefix "+" (show_N minor) = None) as Hp.
    { unfold show_N. destruct (show_go_head (N.size_nat minor) minor ε) as (d & r & -> & Hd).
      cbn [strip_prefix]. by rewrite digit_char_not_plus. }
    rewrite Hp in Hm'. unfold show_N in Hm'.
    rewrite digits_go_show in Hm' by apply N_size_bound. cbn in Hm'. by simplify_eq.
Qed.

Context `{SemverCrate}.

(** Through the whole of [RangeSet::parse], a bare [major.minor] is
    handed to the [semver] crate as npm's partial range (and never as the
    caret range the crate would take it for). *)
Theorem parse_internal_bare_major_minor (major minor : N) req :
  (minor < u64_max)%N ->
  req_parse (">=" +:+ show_N major +:+ "." +:+ show_N minor +:+ ".0, <" +:+ show_N major +:+ "."
             +:+ show_N (minor + 1) +:+ ".0") = Ok req ->
  parse_internal (show_N major +:+ "." +:+ show_N minor) =
  Ok {| original := show_N major +:+ "." +:+ show_N minor; ranges := [req] |}.
Proof.
  intros Hminor Hreq.
  pose proof (bare_major_minor_plain major minor) as Hplain.
  pose proof (expand_bare_major_minor_spec major minor) as Hexp.
  rewrite decide_True in Hexp by done.
  assert (Hcount : count_chars (Ascii.eqb ".") (show_N major +:+ "." +:+ show_N minor) = 1).
  { assert (Happ : forall s t, count_chars (Ascii.eqb ".") (s +:+ t) =
      count_chars (Ascii.eqb ".") s + count_chars (Ascii.eqb ".") t).
    { induction s as [|a s IH]; intros t; [done|]. rewrite app_cons_s. cbn. rewrite IH. lia. }
    assert (Hz : forall s, contains_char "." s = false -> count_chars (Ascii.eqb ".") s = 0).
    { induction s as [|a s IH]; cbn; [done|]. intros [-> Hs]%orb_false_iff. by rewrite IH. }
    rewrite !Happ, (Hz (show_N major)), (Hz (show_N minor)); [done|apply digits_no_dot, show_N_digits..]. }
  assert (Hne : show_N major +:+ "." +:+ show_N minor <> ε).
  { pose proof (show_N_ne major). by destruct (show_N major). }
  assert (is_empty (show_N major +:+ "." +:+ show_N minor) = false /\
    ((show_N major +:+ "." +:+ show_N minor) == "latest") = false) as [Hemp Hlat].
  { split; [by destruct (show_N major +:+ "." +:+ show_N minor)|]. apply String.eqb_neq. intros Heq.
    by rewrite Heq in Hplain. }
  revert Hreq Hexp Hplain Hcount Hne Hemp Hlat.
  generalize (show_N major +:+ "." +:+ show_N minor) as s. intros s Hreq Hexp Hplain Hcount Hne Hemp Hlat.
  unfold parse_internal, range_source. rewrite trim_plain, Hemp, Hlat by done. cbn [orb].
  rewrite !(starts_with_plain _ _ s) by done. cbn [orb].
  rewrite split_str_absent by by apply plain_ne_char. cbn [try_fold].
  assert (Hnorm : normalize_part s = s).
  { unfold normalize_part. rewrite trim_plain by done.
    rewrite (starts_with_plain _ _ s) by done. cbn [andb]. rewrite Hemp, Hlat. cbn [orb].
    unfold normalize_and_part. rewrite split_whitespace_plain by done. cbn [fmap list_fmap].
    unfold strip_v_prefix. destruct s as [|a s]; [done|]. cbn [all_chars] in Hplain. cbn [find_by].
    apply andb_true_iff in Hplain as [Ha _].
    assert (negb (is_operator_char a) = true /\ Ascii.eqb a "v" || Ascii.eqb a "V" = false) as [-> Hv].
    { apply (plain_char_case (fun a => negb (is_operator_char a) = true /\
        Ascii.eqb a "v" || Ascii.eqb a "V" = false)); [done|]. repeat constructor. }
    cbn. by destruct s; rewrite ?Hv. }
  unfold push_part. rewrite Hnorm, Hemp.
  assert (adjust_node_default s = ">=" +:+ show_N major +:+ "." +:+ show_N minor +:+ ".0, <"
    +:+ show_N major +:+ "." +:+ show_N (minor + 1) +:+ ".0") as ->.
  { unfold adjust_node_default. rewrite Hexp.
    assert (is_plain_exact_version s = false) as ->; [|done].
    unfold is_plain_exact_version. rewrite Hemp, Hcount. by repeat case_match. }
  unfold parse_request. rewrite Hreq. done.
Qed.
End ranges.

Lemma parse_internal_bare_major_minor_witness :
  exists r, Range.parse_internal "1.2" = Ok {| Range.original := "1.2"; Range.ranges := [r] |}
  /\ req_matches r (1, 2, 7)%N = true /\ req_matches r (1, 3, 0)%N = false.
Proof.
  eexists. split; [|split].
  - apply (parse_internal_bare_major_minor 1 2); [reflexivity|vm_compute; reflexivity].
  - vm_compute. reflexivity.
  - vm_compute. reflexivity.
Defined.

(** ** Alternatives *)
Section alternatives.
Import Range.
Context `{SemverCrate}.

Lemma strip_v_prefix_ne token : token <> ε -> strip_v_prefix token <> ε.
Proof.
  unfold strip_v_prefix. intros Hne. destruct (sdrop _ token) as [|v [|d r]] eqn:Hr; try done.
  destruct (_ && _); [|done]. cbn [sdrop]. intros Heq.
  destruct (stake _ token); [|done]. by rewrite app_nil_l_s in Heq.
Qed.

Lemma join_tokens_ne token tokens : token <> ε -> token +:+ join_tokens token tokens <> ε.
Proof. intros Hne. by destruct token. Qed.

Lemma expand_hyphen_range_ne lower upper : expand_hyphen_range lower upper <> ε.
Proof. unfold expand_hyphen_range. by destruct (split_char "." upper) as [|? [|? [|]]]. Qed.

(** No part of a range normalizes to nothing: the two emptiness checks of
    [parse_internal] never fire. *)
Lemma normalize_part_ne part : normalize_part part <> ε.
Proof.
  unfold normalize_part. set (p := if _ : bool then _ else trim part).
  destruct (is_empty p) eqn:Hp; [done|]. cbn [orb]. destruct (p == "latest"); [done|].
  unfold normalize_and_part.
  assert (Hws : forall w, w ∈ strip_v_prefix <$> split_whitespace p -> w <> ε).
  { intros w (u & -> & Hu)%list_elem_of_fmap. by eapply strip_v_prefix_ne, words_ne. }
  destruct (strip_v_prefix <$> split_whitespace p) as [|t ts]; [by destruct p|].
  assert (t <> ε) by (apply Hws; by left).
  destruct ts as [|d [|u [|]]]; try done; try by apply join_tokens_ne.
  destruct (d == "-"); [apply expand_hyphen_range_ne|by apply join_tokens_ne].
Qed.

Lemma push_part_eq original rs part :
  push_part original rs part =
  (request ← parse_request original (adjust_node_default (normalize_part part));
   Ok (rs ++ [request])).
Proof.
  unfold push_part. pose proof (normalize_part_ne part).
  by destruct (normalize_part part).
Qed.

Lemma push_parts original parts rs rs' :
  try_fold (push_part original) rs parts = Ok rs' <->
  exists new, rs' = rs ++ new /\
    Forall2 (fun part r => req_parse (adjust_node_default (normalize_part part)) = Ok r) parts new.
Proof.
  revert rs. induction parts as [|part parts IH]; intros rs; cbn [try_fold].
  - split; [intros [= <-]; exists []; by rewrite app_nil_r|].
    intros (new & -> & Hnil). apply Forall2_nil_inv_l in Hnil as ->. by rewrite app_nil_r.
  - rewrite push_part_eq. unfold parse_request. destruct (req_parse _) as [r|e] eqn:Hr; cbn.
    + rewrite IH. split.
      * intros (new & -> & Hnew). exists (r :: new). split; [by rewrite <-app_assoc|by constructor].
      * intros (new & -> & Hnew). inversion Hnew as [|? r' ? new' Hr' Hnew']; subst.
        assert (r' = r) as -> by congruence.
        exists new'. split; [by rewrite <-app_assoc|done].
    + split; [done|]. intros (new & _ & Hnew). inversion Hnew; congruence.
Qed.

Lemma parse_internal_iff range rs :
  parse_internal range = Ok rs <->
  original rs = range /\ ranges rs <> [] /\
  Forall2 (fun part r => req_parse (adjust_node_default (normalize_part part)) = Ok r)
    (split_str "||" (range_source range)) (ranges rs).
Proof.
  unfold parse_internal.
  pose proof (split_str_ne "||" (range_source range)) as Hne. split.
  - intros (new & Hnew & Hrs)%result_bind_Ok. apply push_parts in Hnew as (rs' & -> & Hall).
    destruct rs' as [|r rs'].
    { apply Forall2_nil_inv_r in Hall. by rewrite Hall in Hne. }
    cbn in Hrs. by simplify_eq.
  - destruct rs as [o [|r rs]]; cbn; [by intros (? & ? & _)|]. intros (-> & _ & Hall).
    apply result_bind_Ok. exists (r :: rs). split; [|done]. apply push_parts. by exists (r :: rs).
Qed.

(** A range that parses is the union of its [||]-separated alternatives:
    every alternative contributes exactly one request of the [semver] crate,
    in order, there is at least one, and the original text is kept. *)
Theorem parse_internal_alternatives range rs :
  parse_internal range = Ok rs <->
  original rs = range /\ ranges rs <> [] /\
  Forall2 (fun part r => req_parse (adjust_node_default (normalize_part part)) = Ok r)
    (split_str "||" (range_source range)) (ranges rs).
Proof. apply parse_internal_iff. Qed.

(** A version is in a parsed range exactly when one of the alternatives
    admits it. *)
Theorem matches_some_alternative range rs version :
  parse_internal range = Ok rs ->
  matches rs version = true <->
  exists part r, part ∈ split_str "||" (range_source range) /\
    req_parse (adjust_node_default (normalize_part part)) = Ok r /\ req_matches r version = true.
Proof.
  intros (_ & _ & Hall)%parse_internal_iff. unfold matches. rewrite existsb_true. split.
  - intros (r & Hr & Hm). apply list_elem_of_lookup in Hr as [i Hr].
    destruct (Forall2_lookup_r _ _ _ _ _ Hall Hr) as (part & Hp & Hreq).
    exists part, r. split; [by eapply list_elem_of_lookup_2|done].
  - intros (part & r & Hp & Hreq & Hm). apply list_elem_of_lookup in Hp as [i Hp].
    destruct (Forall2_lookup_l _ _ _ _ _ Hall Hp) as (r' & Hr' & Hreq').
    exists r'. split; [by eapply list_elem_of_lookup_2|]. congruence.
Qed.
End alternatives.

Lemma matches_some_alternative_witness :
  let rs := {| Range.original := "^1.0.0 || 3.0.0";
               Range.ranges := [[CCaret (1, 0, 0)%N]; [CExact (3, 0, 0)%N]] |} in
  Range.matches rs (3, 0, 0)%N = true /\ Range.matches rs (2, 0, 0)%N = false.
Proof.
  split; [|vm_refl].
  apply (matches_some_alternative "^1.0.0 || 3.0.0"); [vm_refl|].
  exists " 3.0.0", [CExact (3, 0, 0)%N]. split; [|split; vm_refl].
  right. left.
Defined.

(** ** Protocol prefixes and hyphen ranges *)

Lemma sdrop_app_add (s t : string) n : sdrop (String.length s + n) (s +:+ t) = sdrop n t.
Proof. induction s as [|a s IH]; [done|]. rewrite app_cons_s. cbn. apply IH. Qed.

Lemma extract_from (s name version : string) :
  contains_char "@" version = false -> trim version = version -> version <> ε ->
  match rfind_char "@" (sdrop (String.length s) (s +:+ name +:+ "@" +:+ version)) with
  | Some at_ =>
      let version := trim (sdrop (String.length s + at_ + 1) (s +:+ name +:+ "@" +:+ version)) in
      if is_empty version then "*" else version
  | None => "*"
  end = version.
Proof.
  intros Hv Htrim Hne. rewrite (app_cons_s "@" ε version), app_nil_l_s.
  rewrite sdrop_app, rfind_char_app by done. cbv zeta.
  rewrite <-Nat.add_assoc, sdrop_app_add, Nat.add_1_r, sdrop_app_S, Htrim.
  by destruct version.
Qed.

(** The version part of a package specifier is what follows its last [@];
    the [@] of a scope is never taken for it, and a scoped specifier without a
    version means [*]. *)
Theorem extract_version_range_spec (scope name version : string) :
  contains_char "/" scope = false -> starts_with "@" name = false -> name <> ε ->
  contains_char "@" name = false ->
  contains_char "@" version = false -> trim version = version -> version <> ε ->
  Range.extract_version_range (name +:+ "@" +:+ version) = version /\
  Range.extract_version_range ("@" +:+ scope +:+ "/" +:+ name +:+ "@" +:+ version) = version /\
  Range.extract_version_range ("@" +:+ scope +:+ "/" +:+ name) = "*".
Proof.
  intros Hscope Hname Hn0 Hn Hv Htrim Hne.
  assert (Hsearch : forall t, find_char "/" ("@" +:+ scope +:+ "/" +:+ t) =
    Some (S (String.length scope))).
  { intros t. rewrite app_cons_s, app_nil_l_s. unfold find_char. cbn [find_by].
    change (Ascii.eqb "/" "@") with false. cbn iota.
    rewrite find_by_app by by apply contains_char_false.
    rewrite (app_cons_s "/" ε t). cbn [find_by]. rewrite Ascii.eqb_refl.
    cbn [fmap option_fmap option_map]. by rewrite Nat.add_0_r. }
  assert (Hlen : S (String.length scope) + 1 = String.length ("@" +:+ scope +:+ "/")).
  { rewrite !length_app_s. cbn. lia. }
  unfold Range.extract_version_range. split_and!.
  - assert (starts_with "@" (name +:+ "@" +:+ version) = false) as ->.
    { destruct name as [|a name]; [done|]. rewrite app_cons_s. unfold starts_with in *.
      cbn [strip_prefix] in *. by destruct (Ascii.eqb _ _). }
    by apply (extract_from ε).
  - rewrite starts_with_app, Hsearch, Hlen.
    replace ("@" +:+ scope +:+ "/" +:+ name +:+ "@" +:+ version)
      with (("@" +:+ scope +:+ "/") +:+ name +:+ "@" +:+ version) by by rewrite <-!app_assoc_s.
    by apply extract_from.
  - rewrite starts_with_app, Hsearch, Hlen.
    replace ("@" +:+ scope +:+ "/" +:+ name) with (("@" +:+ scope +:+ "/") +:+ name)
      by by rewrite <-!app_assoc_s.
    rewrite sdrop_app. by apply rfind_char_None in Hn as ->.
Qed.

Lemma extract_version_range_spec_witness :
  Range.extract_version_range "bar@^1.0.0" = "^1.0.0" /\
  Range.extract_version_range "@scope/bar@^1.0.0" = "^1.0.0" /\
  Range.extract_version_range "@scope/bar" = "*".
Proof.
  apply (extract_version_range_spec "scope" "bar" "^1.0.0"); (reflexivity || discriminate).
Defined.

(** A hyphen range between whole majors ends strictly before the next
    major, as long as the major is below [u64::MAX]; at [u64::MAX] the unchecked
    addition wraps to zero and the resulting range admits nothing. *)
Theorem expand_hyphen_range_major (lower_major upper_major : N) :
  (upper_major <= u64_max)%N ->
  Range.expand_hyphen_range (show_N lower_major) (show_N upper_major) =
  ">=" +:+ show_N lower_major +:+ ".0.0, <"
  +:+ show_N (if decide (upper_major < u64_max)%N then upper_major + 1 else 0) +:+ ".0.0".
Proof.
  intros Hle. unfold Range.expand_hyphen_range.
  assert (Hone : forall n, split_char "." (show_N n) = [show_N n]).
  { intros n. apply (split_char_join "." [show_N n]); [done|].
    constructor; [apply digits_no_dot, show_N_digits|done]. }
  rewrite !Hone, parse_show_u64 by done. cbn [from_option id].
  assert (u64_wrapping_add upper_major 1 =
    if decide (upper_major < u64_max) then upper_major + 1 else 0)%N as ->.
  { unfold u64_wrapping_add, u64_modulus, u64_max in *. case_decide.
    - apply N.mod_small. lia.
    - by assert (upper_major = 18446744073709551615)%N as -> by lia. }
  by rewrite <-!app_assoc_s.
Qed.

Lemma expand_hyphen_range_major_witness :
  Range.expand_hyphen_range "1" "18446744073709551615" = ">=1.0.0, <0.0.0".
Proof.
  apply (expand_hyphen_range_major 1 18446744073709551615). discriminate.
Defined.
