(* ===== verification/Select.v ===== *)
(** * Choosing a version ([version/select.rs])

    [select_version] answers a dist-tag, or else walks the published versions
    in key order keeping the greatest that matches the range and is old
    enough.  The clock and RFC 3339 parsing are the interface [TimeCrate]. *)
From S2P Require Import Prelude.
From S2P Require Import BTree.
From S2P Require Import Text.
From S2P Require Import Errors.
From S2P Require Import Types.
From S2P Require Import Crates.
From S2P Require Import Semver.

(** ** Keeping the greatest element of a traversal *)
Section keep_max.
Context {A B : Type} (le : relation A) `{!RelDecision le}.

(** [match &best { Some((b, _)) if v <= *b => {}, _ => best = Some((v, x)) }] *)
Definition keep_max (best : option (A * B)) (v : A) (x : B) : option (A * B) :=
  match best with
  | Some (b, _) => if decide (le v b) then best else Some (v, x)
  | None => Some (v, x)
  end.

Definition keep_max_all {C} (f : C -> option (A * B)) (l : list C) (best : option (A * B))
  : option (A * B) :=
  foldl (fun best c => match f c with Some (v, x) => keep_max best v x | None => best end) best l.

Lemma keep_max_all_snoc {C} (f : C -> option (A * B)) l c best :
  keep_max_all f (l ++ [c]) best =
  match f c with
  | Some (v, x) => keep_max (keep_max_all f l best) v x
  | None => keep_max_all f l best
  end.
Proof. unfold keep_max_all. by rewrite foldl_app. Qed.

Lemma keep_max_all_None {C} (f : C -> option (A * B)) l :
  keep_max_all f l None = None <-> forall c, c ∈ l -> f c = None.
Proof.
  induction l as [|c l IH] using rev_ind; [split; [by intros _ c []%not_elem_of_nil|done]|].
  rewrite keep_max_all_snoc. setoid_rewrite elem_of_app. setoid_rewrite list_elem_of_singleton.
  destruct (f c) as [[v x]|] eqn:Hc.
  - split; [|intros H; rewrite H in Hc; [done|by right]].
    unfold keep_max. destruct (keep_max_all f l None) as [[b y]|]; [|done].
    by case_decide.
  - rewrite IH. naive_solver.
Qed.

Lemma keep_max_all_Some {C} (f : C -> option (A * B)) l v x `{!Transitive le} `{!Total le} :
  keep_max_all f l None = Some (v, x) ->
  (exists c, c ∈ l /\ f c = Some (v, x)) /\
  (forall c w y, c ∈ l -> f c = Some (w, y) -> le w v).
Proof.
  assert (Hrefl : forall a, le a a) by (intros a; destruct (total le a a); done).
  revert v x. induction l as [|c l IH] using rev_ind; intros v x; [done|].
  rewrite keep_max_all_snoc. setoid_rewrite elem_of_app. setoid_rewrite list_elem_of_singleton.
  destruct (f c) as [[w y]|] eqn:Hc; unfold keep_max.
  - destruct (keep_max_all f l None) as [[b z]|] eqn:Hl; [case_decide|];
      intros [= <- <-]; split; eauto.
    + destruct (IH _ _ eq_refl) as [(c' & ? & ?) _]. eauto.
    + intros c' w' y' [Hin| ->] Hf; [by eapply IH|]. by simplify_eq.
    + intros c' w' y' [Hin| ->] Hf; [|by simplify_eq].
      destruct (IH _ _ eq_refl) as [_ Hmax]. etrans; [by eapply Hmax|].
      destruct (total le b w); done.
    + intros c' w' y' [Hin| ->] Hf; [|by simplify_eq].
      apply keep_max_all_None with (c := c') in Hl; congruence.
  - intros Hl. destruct (IH _ _ Hl) as [(c' & ? & ?) Hmax]. split; [eauto|].
    intros c'' w y [Hin| ->] Hf; [by eapply Hmax|congruence].
Qed.
End keep_max.

Section select.
Context `{SemverCrate} `{TimeCrate}.

Definition version_age_days (package : RegistryPackage) (version : string)
    (now : OffsetDateTime) : option Z :=
  time_str ← rp_time package !! version;
  published ← parse_rfc3339 time_str;
  Some (whole_days_between now published).

(** [if let Some(min_days) = min_age_days && !force && let Some(age_days) = ..
    && age_days < min_days]: the two numbers, when the version is too young. *)
Definition too_young (package : RegistryPackage) (min_age_days : option Z) (force : bool)
    (version : string) (now : OffsetDateTime) : option (Z * Z) :=
  match min_age_days with
  | Some min_days =>
      if force then None else
      age_days ← version_age_days package version now;
      if decide (age_days < min_days)%Z then Some (age_days, min_days) else None
  | None => None
  end.

Definition available_versions_hint (package : RegistryPackage) : string :=
  let versions := omap (fun v => result_ok (parse_version v)) (btree_keys (rp_versions package)) in
  match versions with
  | [] => "The package has no published versions."
  | _ =>
      let versions := reverse (merge_sort version_le versions) in
      let shown := version_display <$> take 5 versions in
      let latest_tag := match rp_dist_tags package !! "latest" with
                        | Some latest => " (latest: " +:+ latest +:+ ")"
                        | None => ε
                        end in
      "Available versions include: " +:+ join ", " shown
      +:+ (if (length shown <? length versions)%nat
           then ", … (" +:+ show_nat (length versions) +:+ " total)" else ε)
      +:+ latest_tag +:+ "."
  end.

(** The state of the loop: [selected] and [latest_rejected]. *)
Definition loop_state : Type :=
  option (Version * RegistryVersion) * option (Version * (string * Z)).

Definition consider (ranges : Range.RangeSet) (package : RegistryPackage)
    (min_age_days : option Z) (force : bool) (now : OffsetDateTime)
    (st : loop_state) (entry : string * RegistryVersion) : loop_state :=
  let '(selected, latest_rejected) := st in
  let '(version_str, meta) := entry in
  match parse_version version_str with
  | Ok ver =>
      if negb (Range.matches ranges ver) then st
      else match too_young package min_age_days force version_str now with
           | Some (age_days, _) =>
               (selected, keep_max version_le latest_rejected ver (version_str, age_days))
           | None => (keep_max version_le selected ver meta, latest_rejected)
           end
  | Err _ => st
  end.

Definition select_version (name range : string) (package : RegistryPackage)
    (min_age_days : option Z) (force : bool) (now : OffsetDateTime) : Result RegistryVersion :=
  let trimmed := trim range in
  match tag_version ← rp_dist_tags package !! trimmed; rp_versions package !! tag_version with
  | Some meta =>
      match too_young package min_age_days force (v_version meta) now with
      | Some (age_days, min_days) =>
          Err (ResolutionFailed name range
            ("dist-tag " +:+ range +:+ " points to version " +:+ v_version meta
             +:+ " which is only " +:+ show_Z age_days
             +:+ " days old, less than the configured minimum of " +:+ show_Z min_days +:+ " days"))
      | None => Ok meta
      end
  | None =>
      ranges ← parse_range_set name range;
      let '(selected, latest_rejected) :=
        foldl (consider ranges package min_age_days force now) (None, None)
          (btree_iter (rp_versions package)) in
      match selected with
      | Some (_, meta) => Ok meta
      | None =>
          match min_age_days, force, latest_rejected with
          | Some min_days, false, Some (_, (ver_str, age_days)) =>
              Err (ResolutionFailed name range
                ("latest matching version " +:+ ver_str +:+ " is only " +:+ show_Z age_days
                 +:+ " days old, which is less than the configured minimum of "
                 +:+ show_Z min_days +:+ " days"))
          | _, _, _ =>
              Err (ResolutionFailed name range
                ("no published version matches this range. " +:+ available_versions_hint package))
          end
      end
  end.

(** ** Specification *)

(** [version_str] is published with [meta], parses to [ver], is in the range
    and is not younger than the minimum age. *)
Record eligible (ranges : Range.RangeSet) (package : RegistryPackage) (min_age_days : option Z)
    (force : bool) (now : OffsetDateTime) (version_str : string) (meta : RegistryVersion)
    (ver : Version) : Prop := {
  el_published : rp_versions package !! version_str = Some meta;
  el_parses : parse_version version_str = Ok ver;
  el_matches : Range.matches ranges ver = true;
  el_old_enough : too_young package min_age_days force version_str now = None;
}.

(** What a turn of the loop offers to [selected]. *)
Definition offered ranges package min_age_days force now (entry : string * RegistryVersion)
  : option (Version * RegistryVersion) :=
  match parse_version entry.1 with
  | Ok ver =>
      if Range.matches ranges ver
      then match too_young package min_age_days force entry.1 now with
           | Some _ => None
           | None => Some (ver, entry.2)
           end
      else None
  | Err _ => None
  end.

Lemma foldl_consider_selected ranges package min_age_days force now l st :
  (foldl (consider ranges package min_age_days force now) st l).1 =
  keep_max_all version_le (offered ranges package min_age_days force now) l st.1.
Proof.
  induction l as [|[vs meta] l IH] using rev_ind; [done|].
  rewrite foldl_app, keep_max_all_snoc. cbn [foldl]. unfold consider at 1, offered at 1. cbn.
  destruct (foldl _ st l) as [sel rej]. cbn in IH. subst sel.
  destruct (parse_version vs); [|done]. destruct (Range.matches _ _); [|done]. cbn.
  by destruct (too_young _ _ _ _ _) as [[]|].
Qed.

Lemma offered_Some ranges package min_age_days force now vs meta ver meta' :
  rp_versions package !! vs = Some meta ->
  offered ranges package min_age_days force now (vs, meta) = Some (ver, meta') <->
  meta' = meta /\ eligible ranges package min_age_days force now vs meta ver.
Proof.
  intros Hpub. unfold offered. cbn. split.
  - destruct (parse_version vs) eqn:?; [|done]. destruct (Range.matches _ _) eqn:?; [|done].
    destruct (too_young _ _ _ _ _) eqn:?; [done|]. intros [= <- <-]. by split.
  - intros [-> [_ -> -> ->]]. done.
Qed.

(** The dist-tag that [range] names and its published version, if any. *)
Definition tagged (package : RegistryPackage) (range : string) : option RegistryVersion :=
  tag_version ← rp_dist_tags package !! trim range; rp_versions package !! tag_version.

Lemma select_version_loop name range package min_age_days force now ranges :
  tagged package range = None -> parse_range_set name range = Ok ranges ->
  forall r, select_version name range package min_age_days force now = r ->
  match keep_max_all version_le (offered ranges package min_age_days force now)
          (btree_iter (rp_versions package)) None with
  | Some (_, meta) => r = Ok meta
  | None => exists e, r = Err e
  end.
Proof.
  unfold tagged. intros Htag Hr r <-. unfold select_version. rewrite Htag, Hr.
  cbn -[available_versions_hint].
  pose proof (foldl_consider_selected ranges package min_age_days force now
    (btree_iter (rp_versions package)) (None, None)) as Hsel.
  destruct (foldl _ _ _) as [sel rej]. cbn in Hsel. subst sel.
  destruct (keep_max_all _ _ _ _) as [[]|]; [done|].
  destruct min_age_days, force, rej as [[? []]|]; eauto.
Qed.

(** C39: For a range that is not a dist-tag, the chosen version is published,
    parses, lies in the range, is not younger than the minimum age, and no
    other such version is greater. *)
Theorem select_version_greatest `{!SemverLaws} name range package min_age_days force now ranges meta :
  tagged package range = None -> parse_range_set name range = Ok ranges ->
  select_version name range package min_age_days force now = Ok meta ->
  exists version_str ver,
    eligible ranges package min_age_days force now version_str meta ver /\
    forall version_str' meta' ver',
      eligible ranges package min_age_days force now version_str' meta' ver' ->
      version_le ver' ver.
Proof.
  intros Htag Hr Hsel.
  pose proof (select_version_loop _ _ _ _ _ _ _ Htag Hr _ Hsel) as Hloop.
  destruct (keep_max_all _ _ _ _) as [[ver meta0]|] eqn:Hk; [|by destruct Hloop].
  simplify_eq. apply keep_max_all_Some in Hk as [([vs m] & Hin & Hoff) Hmax]; [|apply _..].
  apply elem_of_btree_iter in Hin. apply offered_Some in Hoff as [<- Hel]; [|done].
  exists vs, ver. split; [done|]. intros vs' m' ver' Hel'.
  eapply (Hmax (vs', m')).
  - apply elem_of_btree_iter. apply Hel'.
  - by apply offered_Some; [apply Hel'|].
Qed.

(** For a range that is not a dist-tag, choosing fails exactly when no
    published version is eligible: an eligible version is never missed. *)
Theorem select_version_fails_iff name range package min_age_days force now ranges :
  tagged package range = None -> parse_range_set name range = Ok ranges ->
  is_ok (select_version name range package min_age_days force now) = false <->
  forall version_str meta ver, ~ eligible ranges package min_age_days force now version_str meta ver.
Proof.
  intros Htag Hr.
  pose proof (select_version_loop name range package min_age_days force now ranges Htag Hr _ eq_refl) as Hloop.
  destruct (keep_max_all _ _ _ _) as [[ver meta0]|] eqn:Hk.
  - rewrite Hloop. split; [done|]. intros Hnone. exfalso.
    assert (exists c, c ∈ btree_iter (rp_versions package) /\
      offered ranges package min_age_days force now c <> None) as ([vs m] & Hin & Hoff).
    { destruct (decide (Forall (fun c => offered ranges package min_age_days force now c = None)
        (btree_iter (rp_versions package)))) as [Hall|Hex].
      - rewrite Forall_forall in Hall. apply (keep_max_all_None version_le) in Hall. congruence.
      - apply not_Forall_Exists in Hex; [|apply _]. apply Exists_exists in Hex as (c & ? & ?).
        by exists c. }
    apply elem_of_btree_iter in Hin.
    destruct (offered _ _ _ _ _ (vs, m)) as [[v m']|] eqn:Ho; [|done].
    apply offered_Some in Ho as [_ Hel]; [|done]. by eapply Hnone.
  - destruct Hloop as [e ->]. split; [|done]. intros _ vs m ver Hel.
    rewrite keep_max_all_None in Hk.
    specialize (Hk (vs, m)). rewrite (proj2 (offered_Some _ _ _ _ _ _ _ _ _ (el_published _ _ _ _ _ _ _ _ Hel))
      (conj eq_refl Hel)) in Hk.
    enough (Some (ver, m) = None) by done. apply Hk, elem_of_btree_iter, Hel.
Qed.

(** A dist-tag decides on its own, whatever the range syntax would make
    of its name: the tagged version is returned, unless it is younger than
    the minimum age and the age is not overridden. *)
Theorem select_version_dist_tag name range package min_age_days force now meta :
  tagged package range = Some meta ->
  match too_young package min_age_days force (v_version meta) now with
  | None => select_version name range package min_age_days force now = Ok meta
  | Some _ => exists reason,
      select_version name range package min_age_days force now =
      Err (ResolutionFailed name range reason)
  end.
Proof.
  unfold tagged, select_version. intros ->. destruct (too_young _ _ _ _ _) as [[]|]; eauto.
Qed.

(** The age policy: without the override, a version whose publication
    time is known and less than the minimum number of days ago is never
    chosen, through a tag or through a range. *)
Theorem select_version_age `{!SemverLaws} name range package min_days now meta :
  select_version name range package (Some min_days) false now = Ok meta ->
  exists version_str,
    (version_str = v_version meta \/ rp_versions package !! version_str = Some meta) /\
    forall age_days, version_age_days package version_str now = Some age_days ->
    (min_days <= age_days)%Z.
Proof.
  assert (Hage : forall vs, too_young package (Some min_days) false vs now = None ->
    forall age_days, version_age_days package vs now = Some age_days -> (min_days <= age_days)%Z).
  { intros vs Hy a Ha. unfold too_young in Hy. rewrite Ha in Hy. cbn in Hy.
    case_decide; [done|lia]. }
  intros Hsel. destruct (tagged package range) as [m|] eqn:Htag.
  - unfold tagged in Htag. unfold select_version in Hsel. rewrite Htag in Hsel.
    destruct (too_young _ _ _ _ _) as [[]|] eqn:Hy; simplify_eq.
    exists (v_version meta). split; [by left|]. by apply Hage.
  - destruct (parse_range_set name range) as [ranges|e] eqn:Hr.
    + pose proof (select_version_loop _ _ _ _ _ _ _ Htag Hr _ Hsel) as Hloop.
      destruct (keep_max_all _ _ _ _) as [[ver meta0]|] eqn:Hk; [|by destruct Hloop].
      simplify_eq. apply keep_max_all_Some in Hk as [([vs m] & Hin & Hoff) _]; [|apply _..].
      apply elem_of_btree_iter in Hin. apply offered_Some in Hoff as [<- Hel]; [|done].
      exists vs. split; [by right|]. apply Hage, Hel.
    + unfold tagged in Htag. unfold select_version in Hsel. by rewrite Htag, Hr in Hsel.
Qed.
End select.

(** ** Witnesses *)
Module SelectDemo.
Definition release (v : string) : RegistryVersion := {|
  v_version := v; v_dependencies := ∅; v_optional_dependencies := ∅;
  v_peer_dependencies := ∅; v_peer_dependencies_meta := ∅; v_bundled_dependencies := None;
  v_bundle_dependencies := None; v_dist := {| dist_tarball := ε; dist_integrity := None |};
  v_os := []; v_cpu := []; v_libc := []; v_bin := None |}.
Definition day (d : Z) : OffsetDateTime := d.
Definition package : RegistryPackage := {|
  rp_versions := list_to_map [("1.0.0", release "1.0.0"); ("1.9.0", release "1.9.0");
                              ("1.10.0", release "1.10.0"); ("2.0.0", release "2.0.0")];
  rp_time := list_to_map [("1.9.0", "10"); ("1.10.0", "98"); ("2.0.0", "99")];
  rp_dist_tags := list_to_map [("next", "2.0.0")] |}.
Definition caret : Range.RangeSet :=
  {| Range.original := "^1.0.0"; Range.ranges := [[CCaret (1, 0, 0)%N]] |}.

(** Day 100, minimum age 7 days: 1.10.0 matches but is too young. *)
Lemma select_version_greatest_witness :
  exists version_str ver,
    eligible caret package (Some 7%Z) false (day 100) version_str (release "1.9.0") ver /\
    forall version_str' meta' ver',
      eligible caret package (Some 7%Z) false (day 100) version_str' meta' ver' -> version_le ver' ver.
Proof. apply (select_version_greatest "p" "^1.0.0"); vm_refl. Defined.

Lemma select_version_fails_iff_witness :
  tagged package "^3.0.0" = None /\
  forall version_str meta ver,
    ~ eligible {| Range.original := "^3.0.0"; Range.ranges := [[CCaret (3, 0, 0)%N]] |}
        package None false (day 100) version_str meta ver.
Proof. split; [vm_refl|apply (select_version_fails_iff "p" "^3.0.0"); vm_refl]. Defined.

Lemma select_version_dist_tag_witness :
  select_version "p" " next " package (Some 7%Z) true (day 100) = Ok (release "2.0.0").
Proof. apply (select_version_dist_tag "p" " next " package (Some 7%Z) true (day 100)). vm_refl. Defined.

Lemma select_version_age_witness :
  exists version_str,
    (version_str = v_version (release "1.9.0") \/
     rp_versions package !! version_str = Some (release "1.9.0")) /\
    forall age_days, version_age_days package version_str (day 100) = Some age_days -> (7 <= age_days)%Z.
Proof. apply (select_version_age "p" "^1.0.0"). vm_refl. Defined.
End SelectDemo.
