(* ===== verification/Lockfile.v ===== *)
(** * The lockfile ([lockfile/])

    Keys ([keys.rs]), the graph rebuilt from a lockfile ([graph/]), the
    lockfile written from a graph ([io/write.rs]), the binary sidecar
    ([io/binary.rs]), reading with the sidecar as a cache ([io/read.rs]) and
    the test that a lockfile still answers the manifest ([matching.rs]).

    [serde_yaml], [bincode] and SHA-256 are interfaces.  The law of the two
    serializers is that what they write they read back. *)
From S2P Require Import Prelude.
From S2P Require Import BTree.
From S2P Require Import Text.
From S2P Require Import Errors.
From S2P Require Import Types.
From S2P Require Import Paths.

(** ** [lockfile/keys.rs] *)
Definition package_key (name version : string) : string := name +:+ "@" +:+ version.

Definition split_dep_key (key : string) : option (string * string) :=
  index ← rfind_char "@" key;
  let name := stake index key in
  let version_part := sdrop index key in
  Some (name, trim_start_matches "@" version_part).

Module Graph.
(** ** [lockfile/graph/] *)
Definition lock_package_id (lock_pkg : LockPackage) : PackageId :=
  {| id_name := lp_name lock_pkg; id_version := lp_version lock_pkg |}.

Definition package_node (lock_pkg : LockPackage) : ResolvedPackage := {|
  r_id := lock_package_id lock_pkg;
  r_tarball := lp_tarball lock_pkg;
  r_integrity := lp_integrity lock_pkg;
  r_dependencies := ∅;
  r_peer_dependencies := lp_peer_dependencies lock_pkg;
  r_bundled_dependencies := lp_bundled_dependencies lock_pkg;
  r_has_bin := lp_has_bin lock_pkg;
  r_bin := lp_bin lock_pkg
|}.

Definition build_package_nodes (lockfile : Lockfile) : gmap PackageId ResolvedPackage :=
  foldl (fun packages lock_pkg =>
    <[lock_package_id lock_pkg := package_node lock_pkg]> packages)
    ∅ (btree_values (l_packages lockfile)).

Definition set_dependencies (dependencies : gmap string PackageId) (package : ResolvedPackage)
  : ResolvedPackage := {|
  r_id := r_id package;
  r_tarball := r_tarball package;
  r_integrity := r_integrity package;
  r_dependencies := dependencies;
  r_peer_dependencies := r_peer_dependencies package;
  r_bundled_dependencies := r_bundled_dependencies package;
  r_has_bin := r_has_bin package;
  r_bin := r_bin package
|}.

Definition dep_id (dep_key : string) : option PackageId :=
  '(name, version) ← split_dep_key dep_key;
  Some {| id_name := name; id_version := version |}.

Definition lock_dependencies (lock_pkg : LockPackage) : gmap string PackageId :=
  collect (omap (fun e => pair e.1 <$> dep_id e.2) (btree_iter (lp_dependencies lock_pkg))).

Definition populate_package_dependencies (lockfile : Lockfile)
    (packages : gmap PackageId ResolvedPackage) : gmap PackageId ResolvedPackage :=
  foldl (fun packages lock_pkg =>
    match packages !! lock_package_id lock_pkg with
    | Some package =>
        <[lock_package_id lock_pkg := set_dependencies (lock_dependencies lock_pkg) package]> packages
    | None => packages
    end) packages (btree_values (l_packages lockfile)).

Definition build_root_dependencies (lockfile : Lockfile) : gmap string RootDependency :=
  foldl (fun root_dependencies '(name, dep) =>
    match ld_version dep with
    | None => root_dependencies
    | Some version =>
        let resolved_name := default name (ld_package dep) in
        <[name := {| rd_requested := ld_requested dep;
                     rd_resolved := {| id_name := resolved_name; id_version := version |} |}]>
          root_dependencies
    end) ∅ (btree_iter (l_root lockfile)).

Definition to_graph (lockfile : Lockfile) : ResolutionGraph :=
  let packages := build_package_nodes lockfile in
  {| g_root := build_root_dependencies lockfile;
     g_packages := populate_package_dependencies lockfile packages |}.
End Graph.

Module Write.
(** ** [lockfile/io/write.rs] *)
Definition resolved_root (optional_root_specs : gmap string string) (name : string)
    (dep : RootDependency) : LockRootDependency := {|
  ld_requested := rd_requested dep;
  ld_package := if id_name (rd_resolved dep) == name then None
                else Some (id_name (rd_resolved dep));
  ld_version := Some (id_version (rd_resolved dep));
  ld_optional := bool_decide (is_Some (optional_root_specs !! name))
|}.

Definition unresolved_root (requested : string) : LockRootDependency :=
  {| ld_requested := requested; ld_package := None; ld_version := None; ld_optional := true |}.

Definition build_root_dependencies (graph : ResolutionGraph)
    (optional_root_specs : gmap string string) : gmap string LockRootDependency :=
  let root_dependencies :=
    foldl (fun root_dependencies e =>
      <[e.1 := resolved_root optional_root_specs e.1 e.2]> root_dependencies)
      ∅ (btree_iter (g_root graph)) in
  foldl (fun root_dependencies e =>
    match root_dependencies !! e.1 with
    | Some _ => root_dependencies
    | None => <[e.1 := unresolved_root e.2]> root_dependencies
    end) root_dependencies (btree_iter optional_root_specs).

Definition lock_package (package : ResolvedPackage) : LockPackage := {|
  lp_name := id_name (r_id package);
  lp_version := id_version (r_id package);
  lp_tarball := r_tarball package;
  lp_integrity := r_integrity package;
  lp_dependencies := collect ((fun e => (e.1, package_key (id_name e.2) (id_version e.2)))
    <$> btree_iter (r_dependencies package));
  lp_peer_dependencies := r_peer_dependencies package;
  lp_bundled_dependencies := r_bundled_dependencies package;
  lp_has_bin := r_has_bin package;
  lp_bin := r_bin package
|}.

Definition build_packages (graph : ResolutionGraph) : gmap string LockPackage :=
  foldl (fun packages package =>
    <[package_key (id_name (r_id package)) (id_version (r_id package)) := lock_package package]>
      packages) ∅ (btree_values (g_packages graph)).

Definition lockfile_of (graph : ResolutionGraph) (optional_root_specs : gmap string string)
  : Lockfile := {|
  l_version := LOCKFILE_VERSION;
  l_root := build_root_dependencies graph optional_root_specs;
  l_packages := build_packages graph
|}.
End Write.
Import Graph Write.

(** ** [lockfile/matching.rs] *)
Definition root_specs_match (lockfile : Lockfile) (required optional : gmap string string) : bool :=
  (size (l_root lockfile) =? size required + size optional)%nat
  && forallb (fun '(name, requested) =>
       match l_root lockfile !! name with
       | None => false
       | Some dep => (ld_requested dep == requested) && bool_decide (is_Some (ld_version dep))
                     && negb (ld_optional dep)
       end) (btree_iter required)
  && forallb (fun '(name, requested) =>
       match l_root lockfile !! name with
       | None => false
       | Some dep => ld_requested dep == requested
       end) (btree_iter optional).

Module Binary.
(** ** [lockfile/io/binary.rs]: the mirror types *)
Inductive BinBundledDependencies := BinList (list : list string) | BinAll (all : bool).
Inductive BinBinField := BinSingle (value : string) | BinFieldMap (map : gmap string string).

Record BinRootDependency := {
  bd_requested : string;
  bd_package : option string;
  bd_version : option string;
  bd_optional : bool;
}.

Record BinPackage := {
  bp_name : string;
  bp_version : string;
  bp_tarball : string;
  bp_integrity : option string;
  bp_dependencies : gmap string string;
  bp_peer_dependencies : gmap string string;
  bp_bundled_dependencies : option BinBundledDependencies;
  bp_has_bin : bool;
  bp_bin : option BinBinField;
}.

Record BinLockfile := {
  bl_version : N;
  bl_root : gmap string BinRootDependency;
  bl_packages : gmap string BinPackage;
}.

Definition bin_bundled (bundled : BundledDependencies) : BinBundledDependencies :=
  match bundled with BundledList list => BinList list | BundledAll all => BinAll all end.
Definition bin_bin (bin : BinField) : BinBinField :=
  match bin with Single value => BinSingle value | BinMap map => BinFieldMap map end.
Definition bin_root_dependency (dep : LockRootDependency) : BinRootDependency := {|
  bd_requested := ld_requested dep; bd_package := ld_package dep;
  bd_version := ld_version dep; bd_optional := ld_optional dep |}.
Definition bin_package (package : LockPackage) : BinPackage := {|
  bp_name := lp_name package; bp_version := lp_version package; bp_tarball := lp_tarball package;
  bp_integrity := lp_integrity package; bp_dependencies := lp_dependencies package;
  bp_peer_dependencies := lp_peer_dependencies package;
  bp_bundled_dependencies := bin_bundled <$> lp_bundled_dependencies package;
  bp_has_bin := lp_has_bin package; bp_bin := bin_bin <$> lp_bin package |}.

Definition bin_of_lockfile (lockfile : Lockfile) : BinLockfile := {|
  bl_version := l_version lockfile;
  bl_root := collect ((fun e => (e.1, bin_root_dependency e.2)) <$> btree_iter (l_root lockfile));
  bl_packages := collect ((fun e => (e.1, bin_package e.2)) <$> btree_iter (l_packages lockfile))
|}.

Definition bundled_of_bin (bundled : BinBundledDependencies) : BundledDependencies :=
  match bundled with BinList list => BundledList list | BinAll all => BundledAll all end.
Definition bin_of_bin (bin : BinBinField) : BinField :=
  match bin with BinSingle value => Single value | BinFieldMap map => BinMap map end.
Definition root_dependency_of_bin (dep : BinRootDependency) : LockRootDependency := {|
  ld_requested := bd_requested dep; ld_package := bd_package dep;
  ld_version := bd_version dep; ld_optional := bd_optional dep |}.
Definition package_of_bin (package : BinPackage) : LockPackage := {|
  lp_name := bp_name package; lp_version := bp_version package; lp_tarball := bp_tarball package;
  lp_integrity := bp_integrity package; lp_dependencies := bp_dependencies package;
  lp_peer_dependencies := bp_peer_dependencies package;
  lp_bundled_dependencies := bundled_of_bin <$> bp_bundled_dependencies package;
  lp_has_bin := bp_has_bin package; lp_bin := bin_of_bin <$> bp_bin package |}.

Definition lockfile_of_bin (binary : BinLockfile) : Lockfile := {|
  l_version := bl_version binary;
  l_root := collect ((fun e => (e.1, root_dependency_of_bin e.2)) <$> btree_iter (bl_root binary));
  l_packages := collect ((fun e => (e.1, package_of_bin e.2)) <$> btree_iter (bl_packages binary))
|}.
End Binary.
Import Binary.

(** ** The serializers and the hash *)
Class LockCrates := {
  yaml_to_string : Lockfile -> result string string;
  yaml_from_str : string -> result string Lockfile;
  bincode_serialize : BinLockfile -> option string;
  bincode_deserialize : string -> option BinLockfile;
  sha256 : string -> string;
}.

Class LockCratesLaws `{LockCrates} := {
  yaml_round_trip lockfile data :
    yaml_to_string lockfile = Ok data -> yaml_from_str data = Ok lockfile;
  yaml_utf8 lockfile data : yaml_to_string lockfile = Ok data -> from_utf8 data = Ok data;
  bincode_round_trip binary body :
    bincode_serialize binary = Some body -> bincode_deserialize body = Some binary;
  sha256_length data : String.length (sha256 data) = 32;
}.

Section io.
Context `{LockCrates}.

(** ** The sidecar's header: magic, format version, hash *)
Definition MAGIC : string := "SNPB".
Definition FORMAT_VERSION : N := 3.
Definition HEADER_LEN : nat := 40.

(** [u32::to_le_bytes], [u32::from_le_bytes] *)
Fixpoint to_le_bytes (width : nat) (n : N) : string :=
  match width with
  | 0 => ε
  | S width => String (ascii_of_N (N.land n 255)) (to_le_bytes width (N.shiftr n 8))
  end.
Fixpoint from_le_bytes (s : string) : N :=
  match s with
  | ε => 0
  | String a s => N_of_ascii a + 256 * from_le_bytes s
  end.

Definition sidecar_path (yaml_path : string) : string := with_extension "bin" yaml_path.
Definition yaml_hash (yaml_bytes : string) : string := sha256 yaml_bytes.

Definition encode_sidecar (lockfile : Lockfile) (hash : string) : option string :=
  body ← bincode_serialize (bin_of_lockfile lockfile);
  Some (MAGIC +:+ to_le_bytes 4 FORMAT_VERSION +:+ hash +:+ body).

Definition decode_sidecar (bytes expected_yaml_hash : string) : option Lockfile :=
  if (String.length bytes <? HEADER_LEN)%nat then None
  else if negb (stake 4 bytes == MAGIC) then None
  else
    let version := from_le_bytes (stake 4 (sdrop 4 bytes)) in
    if negb (version =? FORMAT_VERSION)%N then None
    else
      let stored_hash := stake 32 (sdrop 8 bytes) in
      if negb (stored_hash == expected_yaml_hash) then None
      else lockfile_of_bin <$> bincode_deserialize (sdrop HEADER_LEN bytes).

(** ** [lockfile/io/read.rs], [lockfile/io/write.rs] *)
Definition check_version (lockfile : Lockfile) (path : string) : Result unit :=
  if negb (l_version lockfile =? LOCKFILE_VERSION)%N
  then Err (LockfileError path ("unsupported lockfile version " +:+ show_N (l_version lockfile)
    +:+ " (expected " +:+ show_N LOCKFILE_VERSION +:+ "), delete the lockfile and reinstall"))
  else Ok tt.

Definition read_sidecar_with (read_file : string -> result string string) (path data : string)
  : option Lockfile :=
  bin_bytes ← result_ok (read_file (sidecar_path path));
  decode_sidecar bin_bytes (yaml_hash data).
Definition read_sidecar (disk : Disk) : string -> string -> option Lockfile := read_sidecar_with (fs_read disk).

Definition parse_yaml (path data : string) : Result Lockfile :=
  yaml ← map_err (LockfileError path) (from_utf8 data);
  lockfile ← map_err (LockfileError path) (yaml_from_str yaml);
  _ ← check_version lockfile path;
  Ok lockfile.

(** The reading of files is an argument, for the two views of the file system. *)
Definition read_with (read_file : string -> result string string) (path : string) : Result Lockfile :=
  data ← map_err (ReadFile path) (read_file path);
  match read_sidecar_with read_file path data with
  | Some lockfile => _ ← check_version lockfile path; Ok lockfile
  | None => parse_yaml path data
  end.
Definition read (disk : Disk) : string -> Result Lockfile := read_with (fs_read disk).

Definition write (disk : Disk) (path : string) (graph : ResolutionGraph)
    (optional_root_specs : gmap string string) : Result unit * Disk :=
  let lockfile := lockfile_of graph optional_root_specs in
  match yaml_to_string lockfile with
  | Err source => (Err (LockfileWrite path source), disk)
  | Ok data =>
      match fs_write disk path data with
      | (Err source, disk) => (Err (WriteFile path source), disk)
      | (Ok _, disk) =>
          match encode_sidecar lockfile (yaml_hash data) with
          | Some bytes => (Ok tt, (fs_write disk (sidecar_path path) bytes).2)
          | None => (Ok tt, disk)
          end
      end
  end.
End io.

(** ** Lemmas: keys *)
Lemma split_package_key name version :
  contains_char "@" version = false -> split_dep_key (package_key name version) = Some (name, version).
Proof.
  intros Hv. unfold split_dep_key, package_key.
  assert ("@" +:+ version = String "@" version) as -> by done.
  rewrite rfind_char_app by done. cbn [mbind option_bind].
  rewrite stake_app, sdrop_app. cbn [trim_start_matches].
  by rewrite Ascii.eqb_refl, trim_start_matches_ne.
Qed.

(** A dependency key written into the lockfile is read back as the name and
    the version it was made from, whatever [@] the name has. *)
Theorem split_dep_key_roundtrip name version :
  contains_char "@" version = false -> split_dep_key (package_key name version) = Some (name, version).
Proof. apply split_package_key. Qed.

(** What the lockfile can express: every package is filed under its own id, and
    no version has an [@]. *)
Definition id_ok (id : PackageId) : Prop := contains_char "@" (id_version id) = false.

Record graph_ok (graph : ResolutionGraph) : Prop := {
  graph_filed id package : g_packages graph !! id = Some package -> r_id package = id;
  graph_ids id package : g_packages graph !! id = Some package -> id_ok id;
  graph_deps id package name dep :
    g_packages graph !! id = Some package -> r_dependencies package !! name = Some dep -> id_ok dep;
}.

Definition id_key (id : PackageId) : string := package_key (id_name id) (id_version id).

Lemma dep_id_key id : id_ok id -> dep_id (id_key id) = Some id.
Proof. intros Hid. unfold dep_id, id_key. rewrite split_package_key by done. by destruct id. Qed.

Lemma id_key_inj id1 id2 : id_ok id1 -> id_ok id2 -> id_key id1 = id_key id2 -> id1 = id2.
Proof. intros H1 H2 Heq. apply dep_id_key in H1, H2. congruence. Qed.

(** ** Lemmas: from a graph to a lockfile *)
Section written.
Context (graph : ResolutionGraph) (Hok : graph_ok graph).

Lemma package_keys_NoDup :
  NoDup ((fun package => id_key (r_id package)) <$> btree_values (g_packages graph)).
Proof.
  unfold btree_values. rewrite <-list_fmap_compose.
  apply NoDup_fmap_2_strong; [|apply NoDup_btree_iter].
  intros [id1 p1] [id2 p2] H1%elem_of_btree_iter H2%elem_of_btree_iter. cbn.
  rewrite (graph_filed _ Hok _ _ H1), (graph_filed _ Hok _ _ H2). intros Hkey.
  apply id_key_inj in Hkey as ->; [congruence|by eapply graph_ids..].
Qed.

Lemma build_packages_lookup key lock_pkg :
  build_packages graph !! key = Some lock_pkg <->
  exists id package, g_packages graph !! id = Some package /\ key = id_key id /\
    lock_pkg = lock_package package.
Proof.
  unfold build_packages. fold id_key.
  rewrite (foldl_insert_collect (fun package => id_key (r_id package)) lock_package).
  change (extend ∅ ?l) with (collect l).
  rewrite collect_lookup.
  - rewrite list_elem_of_fmap. setoid_rewrite elem_of_btree_values. split.
    + intros (package & [= -> ->] & id & Hid). exists id, package.
      by rewrite (graph_filed _ Hok _ _ Hid).
    + intros (id & package & Hid & -> & ->). exists package.
      rewrite (graph_filed _ Hok _ _ Hid). eauto.
  - rewrite <-list_fmap_compose. apply package_keys_NoDup.
Qed.

Lemma lock_package_id_of package : lock_package_id (lock_package package) = r_id package.
Proof. by destruct package as [[]]. Qed.

Lemma lock_dependencies_of id package :
  g_packages graph !! id = Some package ->
  lock_dependencies (lock_package package) = r_dependencies package.
Proof.
  intros Hid. unfold lock_dependencies. rewrite (collect_filter_map (fun _ key => dep_id key)).
  assert (lp_dependencies (lock_package package) =
    map_imap (fun _ dep => Some (id_key dep)) (r_dependencies package)) as ->
    by exact (collect_map_values (fun _ dep => id_key dep) _).
  apply map_eq. intros name. rewrite !map_lookup_imap.
  destruct (r_dependencies package !! name) as [dep|] eqn:Hdep; [|done]. cbn.
  by rewrite dep_id_key by by eapply graph_deps.
Qed.

Lemma lock_ids_NoDup : NoDup (lock_package_id <$> btree_values (build_packages graph)).
Proof.
  apply (NoDup_btree_values lock_package_id id_key). intros key lock_pkg.
  intros (id & package & Hid & -> & ->)%build_packages_lookup.
  by rewrite lock_package_id_of, (graph_filed _ Hok _ _ Hid).
Qed.

Lemma elem_of_lock_packages lock_pkg :
  lock_pkg ∈ btree_values (build_packages graph) <->
  exists id package, g_packages graph !! id = Some package /\ lock_pkg = lock_package package.
Proof.
  rewrite elem_of_btree_values. setoid_rewrite build_packages_lookup. naive_solver.
Qed.
End written.

(** ** Lemmas: from a lockfile to a graph *)
Lemma package_nodes_lookup l id :
  NoDup (lock_package_id <$> l) ->
  foldl (fun packages lock_pkg => <[lock_package_id lock_pkg := package_node lock_pkg]> packages)
    (∅ : gmap PackageId ResolvedPackage) l !! id
  = package_node <$> (list_to_map ((fun p => (lock_package_id p, p)) <$> l) : gmap PackageId LockPackage) !! id.
Proof.
  intros Hnd. rewrite (foldl_insert_collect lock_package_id package_node).
  change (extend ∅ ?l) with (collect l). apply option_eq. intros node.
  rewrite collect_lookup by by rewrite <-list_fmap_compose.
  rewrite fmap_Some. setoid_rewrite <-elem_of_list_to_map; [|by rewrite <-list_fmap_compose].
  setoid_rewrite list_elem_of_fmap. naive_solver.
Qed.

Lemma populate_lookup l (packages : gmap PackageId ResolvedPackage) id :
  NoDup (lock_package_id <$> l) ->
  foldl (fun packages lock_pkg =>
    match packages !! lock_package_id lock_pkg with
    | Some package =>
        <[lock_package_id lock_pkg := set_dependencies (lock_dependencies lock_pkg) package]> packages
    | None => packages
    end) packages l !! id =
  match (list_to_map ((fun p => (lock_package_id p, p)) <$> l) : gmap PackageId LockPackage) !! id with
  | Some lock_pkg => set_dependencies (lock_dependencies lock_pkg) <$> packages !! id
  | None => packages !! id
  end.
Proof.
  revert packages. induction l as [|p l IH]; intros packages Hnd; cbn; [by rewrite lookup_empty|].
  cbn in Hnd. apply NoDup_cons in Hnd as [Hp Hnd]. rewrite IH by done.
  destruct (decide (lock_package_id p = id)) as [<-|Hne].
  - rewrite lookup_insert_eq.
    assert ((list_to_map ((fun p => (lock_package_id p, p)) <$> l) : gmap PackageId LockPackage)
      !! lock_package_id p = None) as ->.
    { apply not_elem_of_list_to_map. by rewrite <-list_fmap_compose. }
    destruct (packages !! lock_package_id p) as [node|] eqn:Hnode; cbn; [by rewrite lookup_insert_eq|done].
  - rewrite lookup_insert_ne by done.
    destruct (packages !! lock_package_id p) as [node|]; [by rewrite lookup_insert_ne|done].
Qed.

(** The packages of the rebuilt graph. *)
Lemma to_graph_packages_lookup lockfile id :
  NoDup (lock_package_id <$> btree_values (l_packages lockfile)) ->
  g_packages (to_graph lockfile) !! id =
  (fun lock_pkg => set_dependencies (lock_dependencies lock_pkg) (package_node lock_pkg)) <$>
    (list_to_map ((fun p => (lock_package_id p, p)) <$> btree_values (l_packages lockfile))
      : gmap PackageId LockPackage) !! id.
Proof.
  intros Hnd. cbn [g_packages to_graph]. unfold populate_package_dependencies, build_package_nodes.
  rewrite populate_lookup, package_nodes_lookup by done. by destruct (_ !! id).
Qed.

Lemma to_graph_root_lookup lockfile name :
  g_root (to_graph lockfile) !! name =
  (dep ← l_root lockfile !! name;
   version ← ld_version dep;
   Some {| rd_requested := ld_requested dep;
           rd_resolved := {| id_name := default name (ld_package dep); id_version := version |} |}).
Proof.
  cbn [g_root to_graph]. unfold Graph.build_root_dependencies.
  pose proof (btree_foldl_insert_lookup (fun name dep => version ← ld_version dep;
   Some {| rd_requested := ld_requested dep;
           rd_resolved := {| id_name := default name (ld_package dep); id_version := version |} |})
   (l_root lockfile) ∅ name) as Hf.
  etrans; [etrans; [|exact Hf]|].
  - f_equal. apply foldl_ext. intros m [k dep]. cbn. by destruct (ld_version dep).
  - rewrite lookup_empty. by destruct (_ ≫= _).
Qed.

Lemma written_root_lookup graph optional name :
  Write.build_root_dependencies graph optional !! name =
  match g_root graph !! name with
  | Some dep => Some (resolved_root optional name dep)
  | None => unresolved_root <$> optional !! name
  end.
Proof.
  unfold Write.build_root_dependencies. cbv zeta.
  rewrite (btree_foldl_or_insert_lookup (fun _ requested => unresolved_root requested)).
  rewrite btree_foldl_insert_all_lookup, lookup_empty. by destruct (g_root graph !! name).
Qed.

Lemma written_packages graph optional :
  graph_ok graph -> g_packages (to_graph (lockfile_of graph optional)) = g_packages graph.
Proof.
  intros Hok. apply map_eq. intros id. rewrite to_graph_packages_lookup by by apply lock_ids_NoDup.
  cbn [l_packages lockfile_of]. apply option_eq. intros package.
  rewrite fmap_Some. setoid_rewrite <-elem_of_list_to_map;
    [|rewrite <-list_fmap_compose; by apply lock_ids_NoDup].
  setoid_rewrite list_elem_of_fmap. setoid_rewrite elem_of_lock_packages; [|done].
  assert (Hrebuilt : forall id' p, g_packages graph !! id' = Some p ->
    set_dependencies (lock_dependencies (lock_package p)) (package_node (lock_package p)) = p).
  { intros id' p Hp. rewrite (lock_dependencies_of _ Hok _ _ Hp). by destruct p as [[]]. }
  split.
  - intros (lock_pkg & (? & [= -> <-] & id' & p & Hp & ->) & ->).
    rewrite (Hrebuilt _ _ Hp), lock_package_id_of, (graph_filed _ Hok _ _ Hp). done.
  - intros Hp. exists (lock_package package).
    rewrite (Hrebuilt _ _ Hp). split; [|done].
    exists (lock_package package). rewrite lock_package_id_of, (graph_filed _ Hok _ _ Hp). eauto 6.
Qed.

Lemma written_root graph optional :
  g_root (to_graph (lockfile_of graph optional)) = g_root graph.
Proof.
  apply map_eq. intros name. rewrite to_graph_root_lookup. cbn [l_root lockfile_of].
  rewrite written_root_lookup. destruct (g_root graph !! name) as [[requested [n v]]|]; cbn.
  - destruct (String.eqb_spec n name) as [<-|]; done.
  - by destruct (optional !! name).
Qed.

(** C27: Nothing is lost in the lockfile: rebuilding the graph from the lockfile
    written for it gives the same roots, packages and edges, and the optional
    roots that were not resolved do not appear. *)
Theorem to_graph_written graph optional :
  graph_ok graph -> to_graph (lockfile_of graph optional) = graph.
Proof.
  intros Hok. destruct graph as [root packages].
  pose proof (written_root {| g_root := root; g_packages := packages |} optional) as Hr.
  pose proof (written_packages {| g_root := root; g_packages := packages |} optional Hok) as Hp.
  destruct (to_graph _). cbn in Hr, Hp. by subst.
Qed.

(** ** Lemmas: matching *)
Lemma root_specs_match_spec lockfile required optional :
  required ##ₘ optional ->
  root_specs_match lockfile required optional = true <->
    dom (l_root lockfile) = dom required ∪ dom optional /\
    (forall name requested, required !! name = Some requested -> exists dep,
       l_root lockfile !! name = Some dep /\ ld_requested dep = requested /\
       is_Some (ld_version dep) /\ ld_optional dep = false) /\
    (forall name requested, optional !! name = Some requested -> exists dep,
       l_root lockfile !! name = Some dep /\ ld_requested dep = requested).
Proof.
  intros Hdisj. unfold root_specs_match. rewrite !andb_true_iff, !forallb_true, Nat.eqb_eq.
  assert (Hunion : size (dom required ∪ dom optional) = size required + size optional).
  { rewrite size_union, !size_dom; [done|]. by apply map_disjoint_dom. }
  assert (Hreq : (forall x, x ∈ btree_iter required -> (let '(name, requested) := x in
      match l_root lockfile !! name with
      | Some dep => (ld_requested dep == requested) && bool_decide (is_Some (ld_version dep))
                    && negb (ld_optional dep)
      | None => false end) = true) <->
    (forall name requested, required !! name = Some requested -> exists dep,
       l_root lockfile !! name = Some dep /\ ld_requested dep = requested /\
       is_Some (ld_version dep) /\ ld_optional dep = false)).
  { split.
    - intros Hall name requested Hn%elem_of_btree_iter. specialize (Hall _ Hn). cbn in Hall.
      destruct (l_root lockfile !! name) as [dep|]; [|done]. bool_prop. eauto.
    - intros Hall [name requested] Hn%elem_of_btree_iter.
      destruct (Hall _ _ Hn) as (dep & -> & <- & Hv & ->). rewrite String.eqb_refl.
      by rewrite bool_decide_eq_true_2. }
  assert (Hopt : (forall x, x ∈ btree_iter optional -> (let '(name, requested) := x in
      match l_root lockfile !! name with
      | Some dep => ld_requested dep == requested
      | None => false end) = true) <->
    (forall name requested, optional !! name = Some requested -> exists dep,
       l_root lockfile !! name = Some dep /\ ld_requested dep = requested)).
  { split.
    - intros Hall name requested Hn%elem_of_btree_iter. specialize (Hall _ Hn). cbn in Hall.
      destruct (l_root lockfile !! name) as [dep|]; [|done]. bool_prop. eauto.
    - intros Hall [name requested] Hn%elem_of_btree_iter.
      destruct (Hall _ _ Hn) as (dep & -> & <-). apply String.eqb_refl. }
  rewrite Hreq, Hopt. split.
  - intros [[Hsize HR] HO]. split_and!; [|done..]. symmetry. apply set_subseteq_size_eq.
    + intros name [Hn|Hn]%elem_of_union; apply elem_of_dom in Hn as [v Hv]; apply elem_of_dom.
      * destruct (HR _ _ Hv) as (dep & -> & _). done.
      * destruct (HO _ _ Hv) as (dep & -> & _). done.
    + rewrite Hunion, size_dom. lia.
  - intros (Hdom & HR & HO). split_and!; [|done..]. rewrite <-Hunion, <-Hdom. by rewrite size_dom.
Qed.

(** A lockfile answers a manifest exactly when it lists the manifest's
    dependencies and no others, each with the range that was asked for, and
    has a version for every one that is not optional. *)
Theorem root_specs_match_iff lockfile required optional :
  required ##ₘ optional ->
  root_specs_match lockfile required optional = true <->
    dom (l_root lockfile) = dom required ∪ dom optional /\
    (forall name requested, required !! name = Some requested -> exists dep,
       l_root lockfile !! name = Some dep /\ ld_requested dep = requested /\
       is_Some (ld_version dep) /\ ld_optional dep = false) /\
    (forall name requested, optional !! name = Some requested -> exists dep,
       l_root lockfile !! name = Some dep /\ ld_requested dep = requested).
Proof. apply root_specs_match_spec. Qed.

(** The lockfile written for a resolution of a manifest answers that
    manifest: the next frozen install accepts it, also when optional
    dependencies were left unresolved. *)
Theorem written_root_specs_match graph required optional :
  required ##ₘ optional ->
  (forall name dep, g_root graph !! name = Some dep ->
     required !! name = Some (rd_requested dep) \/ optional !! name = Some (rd_requested dep)) ->
  dom required ⊆ dom (g_root graph) ->
  root_specs_match (lockfile_of graph optional) required optional = true.
Proof.
  intros Hdisj Hroot Hall. apply root_specs_match_spec; [done|]. cbn [l_root lockfile_of].
  assert (Hnot : forall name v, required !! name = Some v -> optional !! name = None).
  { intros name v Hv. by eapply map_disjoint_Some_l. }
  split_and!.
  - apply set_eq. intros name. rewrite elem_of_union, !elem_of_dom, written_root_lookup.
    destruct (g_root graph !! name) as [dep|] eqn:Hdep.
    + destruct (Hroot _ _ Hdep) as [-> | ->]; naive_solver.
    + assert (required !! name = None) as ->.
      { apply not_elem_of_dom. intros Hin%Hall. apply elem_of_dom in Hin as [? ?]. congruence. }
      rewrite fmap_is_Some. split; [by right|]. intros [[? ?]|?]; done.
  - intros name requested Hreq. rewrite written_root_lookup.
    assert (is_Some (g_root graph !! name)) as [dep Hdep].
    { apply elem_of_dom, Hall, elem_of_dom. eauto. }
    rewrite Hdep. eexists. split; [done|]. cbn. pose proof (Hnot _ _ Hreq) as Hno. rewrite Hno.
    destruct (Hroot _ _ Hdep) as [Hr|Hr]; [|congruence].
    rewrite bool_decide_eq_false_2 by by intros []. split; [congruence|eauto].
  - intros name requested Hopt. rewrite written_root_lookup.
    destruct (g_root graph !! name) as [dep|] eqn:Hdep.
    + eexists. split; [done|]. cbn.
      destruct (Hroot _ _ Hdep) as [Hr|Hr]; [apply Hnot in Hr|]; congruence.
    + rewrite Hopt. eexists. done.
Qed.

(** ** Lemmas: the sidecar *)
Lemma lockfile_of_bin_of lockfile : lockfile_of_bin (bin_of_lockfile lockfile) = lockfile.
Proof.
  destruct lockfile as [version root packages]. unfold lockfile_of_bin, bin_of_lockfile.
  cbn [bl_version bl_root bl_packages l_version l_root l_packages].
  rewrite (collect_map_values (fun _ => bin_root_dependency)).
  rewrite (collect_map_values (fun _ => root_dependency_of_bin)).
  rewrite (collect_map_values (fun _ => bin_package)), (collect_map_values (fun _ => package_of_bin)).
  rewrite !map_imap_inverse; [done| |by intros []].
  intros [????? ? bundled ? bin]. unfold package_of_bin, bin_package; cbn.
  by destruct bundled as [[]|], bin as [[]|].
Qed.

Section io_lemmas.
Context `{LockCratesLaws}.

Lemma decode_encode lockfile hash bytes expected :
  String.length hash = 32 -> encode_sidecar lockfile hash = Some bytes ->
  decode_sidecar bytes expected = if hash == expected then Some lockfile else None.
Proof.
  intros Hlen. unfold encode_sidecar. intros (body & Hbody & Hbytes)%bind_Some.
  apply (inj Some) in Hbytes. symmetry in Hbytes.
  assert (Hlong : (String.length bytes <? HEADER_LEN)%nat = false).
  { apply Nat.ltb_ge. rewrite Hbytes. unfold HEADER_LEN. rewrite !length_app_s, Hlen. cbn. lia. }
  assert (H4 : stake 4 bytes = MAGIC) by by subst bytes.
  assert (Hv : from_le_bytes (stake 4 (sdrop 4 bytes)) = FORMAT_VERSION) by by subst bytes.
  assert (H8 : sdrop 8 bytes = hash +:+ body) by by subst bytes.
  assert (H40 : sdrop HEADER_LEN bytes = body).
  { assert (sdrop HEADER_LEN bytes = sdrop 32 (hash +:+ body)) as -> by by subst bytes.
    rewrite <-Hlen. apply sdrop_app. }
  unfold decode_sidecar. rewrite Hlong, H4, Hv, H8, H40. rewrite <-Hlen, stake_app.
  rewrite String.eqb_refl, N.eqb_refl. cbn [negb].
  destruct (hash == expected); [|done]. cbn [negb].
  rewrite (bincode_round_trip _ _ Hbody). cbn. by rewrite lockfile_of_bin_of.
Qed.

(** The binary sidecar holds the lockfile it was made from: decoding gives
    it back for the hash it is tagged with and nothing for any other hash. *)
Theorem sidecar_roundtrip lockfile data bytes data' :
  encode_sidecar lockfile (yaml_hash data) = Some bytes ->
  decode_sidecar bytes (yaml_hash data') =
    if yaml_hash data == yaml_hash data' then Some lockfile else None.
Proof. apply decode_encode, sha256_length. Qed.
End io_lemmas.

(** ** Reading with and without the sidecar *)
Section read.
Context `{LockCratesLaws}.

(** Reading that ignores the sidecar: the specification. *)
Definition read_yaml (disk : Disk) (path : string) : Result Lockfile :=
  data ← map_err (ReadFile path) (fs_read disk path);
  parse_yaml path data.

(** The sidecar, if there is one, was written by some earlier write. *)
Definition sidecar_genuine (disk : Disk) (path : string) : Prop :=
  forall bytes, fs_read disk (sidecar_path path) = Ok bytes ->
  exists lockfile data, yaml_to_string lockfile = Ok data /\
    encode_sidecar lockfile (yaml_hash data) = Some bytes.

(** No other text that the serializer writes has the hash of [data]. *)
Definition no_collision (data : string) : Prop :=
  forall lockfile data', yaml_to_string lockfile = Ok data' ->
  yaml_hash data' = yaml_hash data -> data' = data.

Lemma read_sidecar_genuine disk path data lockfile :
  sidecar_genuine disk path -> no_collision data ->
  read_sidecar disk path data = Some lockfile -> yaml_to_string lockfile = Ok data.
Proof.
  unfold read_sidecar, read_sidecar_with. intros Hgen Hcol (bytes & Hbytes & Hdec)%bind_Some.
  destruct (fs_read disk (sidecar_path path)) as [bytes'|] eqn:Hread; [|done].
  cbn in Hbytes. injection Hbytes as ->.
  destruct (Hgen _ Hread) as (l & data' & Hyaml & Henc).
  rewrite (decode_encode l (yaml_hash data') _ _ (sha256_length _) Henc) in Hdec.
  destruct (String.eqb_spec (yaml_hash data') (yaml_hash data)) as [Heq|]; [|done].
  injection Hdec as ->. by rewrite <-(Hcol _ _ Hyaml Heq).
Qed.

Lemma parse_written path lockfile data :
  yaml_to_string lockfile = Ok data ->
  parse_yaml path data = (_ ← check_version lockfile path; Ok lockfile).
Proof.
  intros Hyaml. unfold parse_yaml. rewrite (yaml_utf8 _ _ Hyaml). cbn.
  by rewrite (yaml_round_trip _ _ Hyaml).
Qed.

Lemma read_is_read_yaml disk path :
  sidecar_genuine disk path ->
  (forall data, fs_read disk path = Ok data -> no_collision data) ->
  read disk path = read_yaml disk path.
Proof.
  intros Hgen Hcol. unfold read, read_with, read_yaml. fold (read_sidecar disk).
  destruct (fs_read disk path) as [data|] eqn:Hdata; [|done]. cbn [map_err mbind result_bind].
  destruct (read_sidecar disk path data) as [lockfile|] eqn:Hside; [|done].
  apply read_sidecar_genuine in Hside; [|by auto..]. by rewrite (parse_written _ _ _ Hside).
Qed.

(** C29: The sidecar is only a cache: whatever the text of the lockfile is now,
    edited by hand or by another tool, reading through the sidecar gives what
    parsing that text gives, errors included. *)
Theorem read_refines_yaml disk path :
  sidecar_genuine disk path ->
  (forall data, fs_read disk path = Ok data -> no_collision data) ->
  read disk path = read_yaml disk path.
Proof. apply read_is_read_yaml. Qed.

Lemma fs_write_faults disk path data r disk' :
  fs_write disk path data = (r, disk') -> read_fault disk' = read_fault disk.
Proof. unfold fs_write. intros. by case_all. Qed.

Lemma write_reads_back disk path graph optional disk' :
  write disk path graph optional = (Ok tt, disk') ->
  sidecar_genuine disk path -> sidecar_path path <> path -> read_fault disk path = None ->
  (forall data, yaml_to_string (lockfile_of graph optional) = Ok data -> no_collision data) ->
  read disk' path = Ok (lockfile_of graph optional) /\ sidecar_genuine disk' path.
Proof.
  unfold write. cbv zeta. set (lockfile := lockfile_of graph optional).
  intros Hw Hgen Hne Hfault Hcol.
  destruct (yaml_to_string lockfile) as [data|] eqn:Hyaml; [|done].
  destruct (fs_write disk path data) as [[[]|] disk1] eqn:Hw1; [|done].
  assert (Hdata1 : fs_read disk1 path = Ok data) by by eapply fs_read_write.
  assert (Hgen1 : sidecar_genuine disk1 path).
  { intros bytes. rewrite (fs_read_write_ne _ _ _ _ _ _ Hw1 Hne). apply Hgen. }
  assert (fs_read disk' path = Ok data /\ sidecar_genuine disk' path) as [Hdata' Hgen'].
  { destruct (encode_sidecar lockfile (yaml_hash data)) as [bytes|] eqn:Henc; [|by simplify_eq].
    injection Hw as <-. destruct (fs_write disk1 (sidecar_path path) bytes) as [r disk2] eqn:Hw2. cbn.
    split; [rewrite (fs_read_write_ne _ _ _ _ _ _ Hw2); done|].
    intros bytes' Hread. unfold fs_write in Hw2.
    destruct (write_fault disk1 (sidecar_path path)) eqn:Hwf; injection Hw2 as <- <-; [by apply Hgen1|].
    unfold fs_read in Hread. cbn in Hread.
    destruct (read_fault disk1 (sidecar_path path)); [done|].
    rewrite lookup_insert_eq in Hread. injection Hread as <-. eauto. }
  split; [|done]. rewrite read_is_read_yaml; [|done|].
  - unfold read_yaml. rewrite Hdata'. cbn. rewrite (parse_written _ _ _ Hyaml). done.
  - intros data'. rewrite Hdata'. intros [= <-]. by apply Hcol.
Qed.

(** What a write puts on the disk is read back, and the sidecar stays
    trustworthy, also when writing the sidecar fails and an old one is left
    behind. *)
Theorem write_read disk path graph optional disk' :
  write disk path graph optional = (Ok tt, disk') ->
  sidecar_genuine disk path -> sidecar_path path <> path -> read_fault disk path = None ->
  (forall data, yaml_to_string (lockfile_of graph optional) = Ok data -> no_collision data) ->
  read disk' path = Ok (lockfile_of graph optional) /\ sidecar_genuine disk' path.
Proof. apply write_reads_back. Qed.
End read.

(** ** Witnesses *)
Global Instance BundledDependencies_eq_dec : EqDecision BundledDependencies.
Proof. solve_decision. Defined.
Global Instance BinField_eq_dec : EqDecision BinField.
Proof. solve_decision. Defined.
Global Instance LockRootDependency_eq_dec : EqDecision LockRootDependency.
Proof. solve_decision. Defined.
Global Instance LockPackage_eq_dec : EqDecision LockPackage.
Proof. solve_decision. Defined.
Global Instance Lockfile_eq_dec : EqDecision Lockfile.
Proof. solve_decision. Defined.

Global Instance BinBundledDependencies_eq_dec : EqDecision BinBundledDependencies.
Proof. solve_decision. Defined.
Global Instance BinBinField_eq_dec : EqDecision BinBinField.
Proof. solve_decision. Defined.
Global Instance BinRootDependency_eq_dec : EqDecision BinRootDependency.
Proof. solve_decision. Defined.
Global Instance BinPackage_eq_dec : EqDecision BinPackage.
Proof. solve_decision. Defined.
Global Instance BinLockfile_eq_dec : EqDecision BinLockfile.
Proof. solve_decision. Defined.

Module LockfileDemo.
Definition pkg (name version : string) (deps : gmap string PackageId) : ResolvedPackage := {|
  r_id := {| id_name := name; id_version := version |};
  r_tarball := "https://example.com/" +:+ name +:+ ".tgz"; r_integrity := None;
  r_dependencies := deps; r_peer_dependencies := ∅; r_bundled_dependencies := None;
  r_has_bin := true; r_bin := Some (Single "cli.js") |}.

Definition leaf : PackageId := {| id_name := "@scope/leaf"; id_version := "2.0.1" |}.
Definition app : PackageId := {| id_name := "app"; id_version := "1.0.0" |}.

Definition graph : ResolutionGraph := {|
  g_root := {["alias" := {| rd_requested := "npm:app@^1.0.0"; rd_resolved := app |}]};
  g_packages := {[app := pkg "app" "1.0.0" {["@scope/leaf" := leaf]};
                  leaf := pkg "@scope/leaf" "2.0.1" ∅]} |}.

Definition optional : gmap string string := {["fsevents" := "^2.0.0"]}.

Definition lockfile : Lockfile := lockfile_of graph optional.

(** A serializer for one lockfile alone, and a hash of the first bytes. *)
Definition serializer_of (lockfile : Lockfile) : LockCrates := {|
  yaml_to_string := fun l => if decide (l = lockfile) then Ok "yaml" else Err "unsupported";
  yaml_from_str := fun s => if s == "yaml" then Ok lockfile else Err "unsupported";
  bincode_serialize := fun b => if decide (b = bin_of_lockfile lockfile) then Some "bin" else None;
  bincode_deserialize := fun s => if s == "bin" then Some (bin_of_lockfile lockfile) else None;
  sha256 := fun s => stake 32 (s +:+ "00000000000000000000000000000000");
|}.

Lemma stake_length n s : String.length (stake n s) = min n (String.length s).
Proof. revert s. induction n as [|n IH]; intros [|a s]; cbn; auto. Qed.

Lemma serializer_laws lockfile : @LockCratesLaws (serializer_of lockfile).
Proof.
  split; cbn -[stake].
  - intros l data. case_decide as Hl; intros [= <-]. by rewrite Hl.
  - intros l data. case_decide; by intros [= <-].
  - intros b body. case_decide as Hb; intros [= <-]. by rewrite Hb.
  - intros data. rewrite stake_length, length_app_s. cbn [String.length]. lia.
Qed.

Lemma serializer_no_collision lockfile l data :
  @yaml_to_string (serializer_of lockfile) l = Ok data -> @no_collision (serializer_of lockfile) data.
Proof.
  intros Hl l' data' Hl' _. cbn in Hl, Hl'. destruct (decide (l = lockfile)); [|done].
  destruct (decide (l' = lockfile)); [congruence|done].
Qed.

Instance one_lockfile : LockCrates := serializer_of lockfile.
Instance one_lockfile_laws : LockCratesLaws := serializer_laws lockfile.

Lemma graph_cases id p :
  g_packages graph !! id = Some p ->
  id = app /\ p = pkg "app" "1.0.0" {["@scope/leaf" := leaf]} \/
  id = leaf /\ p = pkg "@scope/leaf" "2.0.1" ∅.
Proof.
  cbn [g_packages graph]. rewrite lookup_insert_Some, lookup_singleton_Some. naive_solver.
Qed.

Lemma graph_is_ok : graph_ok graph.
Proof.
  split.
  - intros id p [[-> ->]|[-> ->]]%graph_cases; done.
  - intros id p [[-> ->]|[-> ->]]%graph_cases; done.
  - intros id p name dep [[-> ->]|[-> ->]]%graph_cases; cbn [r_dependencies pkg].
    + rewrite lookup_singleton_Some. by intros [_ <-].
    + by rewrite lookup_empty.
Qed.

Lemma split_dep_key_roundtrip_witness :
  split_dep_key "@scope/leaf@2.0.1" = Some ("@scope/leaf", "2.0.1").
Proof. apply (split_dep_key_roundtrip "@scope/leaf" "2.0.1"). vm_refl. Defined.

Lemma to_graph_written_witness : to_graph (lockfile_of graph optional) = graph.
Proof. apply (to_graph_written graph optional), graph_is_ok. Defined.

Definition required : gmap string string := {["alias" := "npm:app@^1.0.0"]}.

Lemma required_optional : required ##ₘ optional.
Proof.
  apply map_disjoint_spec. intros k x y. unfold required, optional.
  rewrite !lookup_singleton_Some. by intros [<- _] [? _].
Qed.

Lemma root_specs_match_iff_witness :
  root_specs_match {| l_version := 1; l_root := ∅; l_packages := ∅ |} required optional = false.
Proof.
  apply not_true_iff_false. rewrite (root_specs_match_iff _ required optional required_optional).
  intros (_ & Hreq & _). destruct (Hreq "alias" "npm:app@^1.0.0") as (dep & Hdep & _); [vm_refl|].
  cbn [l_root] in Hdep. by rewrite lookup_empty in Hdep.
Defined.

Lemma written_root_specs_match_witness :
  root_specs_match (lockfile_of graph optional) required optional = true.
Proof.
  apply (written_root_specs_match graph required optional).
  - apply required_optional.
  - intros name dep. cbn [g_root graph]. rewrite lookup_singleton_Some.
    intros [<- <-]. left. vm_refl.
  - intros name. rewrite !elem_of_dom. unfold required. cbn [g_root graph].
    by rewrite !lookup_singleton_is_Some.
Defined.

Lemma sidecar_roundtrip_witness :
  exists bytes, encode_sidecar lockfile (yaml_hash "yaml") = Some bytes /\
    decode_sidecar bytes (yaml_hash "yaml ") = None.
Proof.
  destruct (encode_sidecar lockfile (yaml_hash "yaml")) as [bytes|] eqn:Henc; [|vm_compute in Henc; done].
  exists bytes. split; [done|].
  rewrite (sidecar_roundtrip lockfile "yaml" bytes "yaml " Henc). vm_refl.
Defined.

(** A disk whose lockfile was edited after the sidecar was written. *)
Definition edited : Disk := disk_with {["/p/snpm-lock.yaml" := "edited";
  "/p/snpm-lock.bin" := default ε (encode_sidecar lockfile (yaml_hash "yaml"))]}.

Lemma edited_genuine : sidecar_genuine edited "/p/snpm-lock.yaml".
Proof.
  intros bytes Hb. exists lockfile, "yaml". split; [vm_refl|].
  assert (fs_read edited (sidecar_path "/p/snpm-lock.yaml") =
    Ok (default ε (encode_sidecar lockfile (yaml_hash "yaml")))) as Hr by vm_refl.
  rewrite Hr in Hb. apply (inj Ok) in Hb. rewrite <-Hb. vm_refl.
Qed.

Lemma only_yaml data : data = "yaml" \/ yaml_hash data <> yaml_hash "yaml" -> no_collision data.
Proof.
  intros Hd l data'. cbn. case_decide; [|done]. intros [= <-] Heq. naive_solver.
Qed.

Lemma read_refines_yaml_witness :
  read edited "/p/snpm-lock.yaml" = Err (LockfileError "/p/snpm-lock.yaml" "unsupported").
Proof.
  rewrite (read_refines_yaml edited "/p/snpm-lock.yaml"); [vm_refl|apply edited_genuine|].
  intros data Hd. apply only_yaml.
  assert (fs_read edited "/p/snpm-lock.yaml" = Ok "edited") as He by vm_refl.
  rewrite He in Hd. apply (inj Ok) in Hd. right. rewrite <-Hd. vm_compute. done.
Defined.

Lemma write_read_witness :
  read (write edited "/p/snpm-lock.yaml" graph optional).2 "/p/snpm-lock.yaml" = Ok lockfile.
Proof.
  apply (write_read edited "/p/snpm-lock.yaml" graph optional).
  - vm_refl.
  - apply edited_genuine.
  - vm_compute. done.
  - vm_refl.
  - intros data. intros Hd. apply only_yaml. left.
    assert (yaml_to_string lockfile = Ok "yaml") as Hy by vm_refl.
    unfold lockfile in Hy. rewrite Hd in Hy. by apply (inj Ok) in Hy.
Defined.
End LockfileDemo.
