(* ===== verification/Filters.v ===== *)
(** * Workspace filters ([operations/run/filters.rs])

    [--filter] and [--filter-prod] selectors: their syntax, the dependency
    graph of the workspace members, and the members a list of selectors
    chooses.  Glob patterns are the crate [glob]; [git diff --name-only] is a
    program the code runs.  Members are numbered by their position. *)
From S2P Require Import Prelude.
From S2P Require Import BTree.
From S2P Require Import Reach.
From S2P Require Import Text.
From S2P Require Import Errors.
From S2P Require Import Types.
From S2P Require Import Paths.
From S2P Require Import Crates.

(** The command run in a directory for a revision: the error of starting it,
    or whether it succeeded, its output and its error output. *)
Class GitProgram := {
  git_diff_name_only : string -> string -> result string (bool * string * string);
}.

(** ** Selectors *)
Inductive BaseSelector :=
| ChangedSince (revision : string)
| PathSelector (path : string)
| NameGlob (pattern : string)
| Name (name : string).

Record Selector := {
  sel_base : BaseSelector;
  include_dependencies : bool;
  include_dependents : bool;
  exclude_self : bool;
  exclude : bool;
  prod_only : bool;
}.

(** [raw.strip_prefix(p).map(|s| (true, s)).unwrap_or((false, raw))] *)
Definition prefix_flag (p raw : string) : bool * string :=
  match strip_prefix p raw with Some selector => (true, selector) | None => (false, raw) end.
Definition suffix_flag (p raw : string) : bool * string :=
  match strip_suffix p raw with Some selector => (true, selector) | None => (false, raw) end.

Definition normalize_selector_path (selector : string) : result string string :=
  let relative := trim_end_matches "\" (trim_end_matches "/" selector) in
  let normalized :=
    match strip_prefix "./" relative with
    | Some normalized => normalized
    | None => default relative (strip_prefix ".\" relative)
    end in
  if is_empty normalized then Err "empty path selector" else Ok normalized.

Definition looks_like_path (raw : string) : bool :=
  starts_with "./" raw || starts_with ".\" raw || starts_with "../" raw || starts_with "..\" raw
  || starts_with "/" raw || is_absolute raw || ends_with "\" raw || ends_with "/" raw
  || contains_char "\" raw.

Definition base_selector (raw : string) : result string BaseSelector :=
  if starts_with "[" raw && ends_with "]" raw && (2 <? String.length raw)%nat
  then Ok (ChangedSince (stake (String.length raw - 2) (sdrop 1 raw)))
  else if looks_like_path raw then PathSelector <$> normalize_selector_path raw
  else if contains_char "*" raw || contains_char "?" raw then Ok (NameGlob raw)
  else Ok (Name raw).

Definition parse_selector (raw : string) (prod_only : bool) : result string Selector :=
  if is_empty raw then Err "empty --filter selector" else
  let '(exclude, raw) := prefix_flag "!" raw in
  if is_empty raw then Err "empty --filter selector" else
  let '(include_dependents, raw) := prefix_flag "..." raw in
  let '(exclude_self_from_dependents, raw) := prefix_flag "^" raw in
  let '(include_dependencies, raw) := suffix_flag "..." raw in
  let '(exclude_self_from_dependencies, raw) := suffix_flag "^" raw in
  if is_empty raw then Err "empty --filter selector" else
  let includes_graph := include_dependencies || include_dependents in
  if (exclude_self_from_dependencies || exclude_self_from_dependents) && negb includes_graph
  then Err "selector '^' can only be used with dependency graph operators"
  else
    base ← base_selector raw;
    Ok {| sel_base := base; include_dependencies := include_dependencies;
          include_dependents := include_dependents;
          exclude_self := exclude_self_from_dependencies || exclude_self_from_dependents;
          exclude := exclude; prod_only := prod_only |}.

Definition parse_effective_filters (filters filter_prods : list string)
  : result string (list Selector) :=
  selectors ← try_fold (fun selectors selector =>
    parsed ← parse_selector selector false; Ok (selectors ++ [parsed])) [] filters;
  try_fold (fun selectors selector =>
    parsed ← parse_selector selector true; Ok (selectors ++ [parsed])) selectors filter_prods.

Definition format_filters (filters filter_prods : list string) : string :=
  match filters, filter_prods with
  | [], [] => "--recursive"
  | _, _ => join ", " (((fun selector => "--filter " +:+ selector) <$> filters)
                    ++ ((fun selector => "--filter-prod " +:+ selector) <$> filter_prods))
  end.

(** ** The dependency graph of the members *)
Record IndexedPackage := {
  ip_project : Project;
  all_dependencies : gset string;
  prod_dependencies : gset string;
}.

Definition index_package (project : Project) : IndexedPackage :=
  let manifest := p_manifest project in {|
  ip_project := project;
  all_dependencies := list_to_set (btree_keys (m_dependencies manifest)
    ++ btree_keys (m_dev_dependencies manifest) ++ btree_keys (m_optional_dependencies manifest));
  prod_dependencies := list_to_set (btree_keys (m_dependencies manifest)
    ++ btree_keys (m_optional_dependencies manifest))
|}.

Definition index_packages (projects : list Project) : list IndexedPackage :=
  index_package <$> projects.

Definition outgoing_dependencies (package : IndexedPackage) (prod_only : bool) : gset string :=
  if prod_only then prod_dependencies package else all_dependencies package.

Definition index_by_name (packages : list IndexedPackage) : gmap string nat :=
  foldl (fun index '(idx, package) =>
    match m_name (p_manifest (ip_project package)) with
    | Some name => <[name := idx]> index
    | None => index
    end) ∅ (enumerate packages).

(** The outgoing and the incoming edges of every member. *)
Definition Edges : Type := list (list nat) * list (list nat).

Record DependencyGraph := {
  dg_packages : list IndexedPackage;
  dg_all : Edges;
  dg_prod : Edges;
}.

Definition push_edge (edges : Edges) (from_idx to_idx : nat) : Edges :=
  (alter (fun l => l ++ [to_idx]) from_idx edges.1, alter (fun l => l ++ [from_idx]) to_idx edges.2).

Definition push_dependencies (index : gmap string nat) (from_idx : nat)
    (dependencies : gset string) (edges : Edges) : Edges :=
  foldl (fun edges dependency =>
    match index !! dependency with
    | None => edges
    | Some to_idx => push_edge edges from_idx to_idx
    end) edges (bset_iter dependencies).

Definition no_edges (n : nat) : Edges := (replicate n [], replicate n []).

Definition build_dependency_graph (packages : list IndexedPackage) : DependencyGraph :=
  let index := index_by_name packages in
  let n := length packages in
  let '(all, prod) := foldl (fun '(all, prod) '(from_idx, package) =>
    (push_dependencies index from_idx (outgoing_dependencies package false) all,
     push_dependencies index from_idx (outgoing_dependencies package true) prod))
    (no_edges n, no_edges n) (enumerate packages) in
  {| dg_packages := packages; dg_all := all; dg_prod := prod |}.

Definition edges_of (graph : DependencyGraph) (prod_only : bool) : Edges :=
  if prod_only then dg_prod graph else dg_all graph.

(** Every member is queued at most once after the seeds. *)
Definition walk (graph : DependencyGraph) (adj : list (list nat)) (seeds : gset nat)
  : option (gset nat) :=
  let pending := bset_iter seeds in
  bfs (fun current => adj !! current) (length pending + length (dg_packages graph)) pending ∅.

Definition walk_dependencies (graph : DependencyGraph) (seeds : gset nat) (prod_only : bool)
  : option (gset nat) := walk graph (edges_of graph prod_only).1 seeds.

Definition walk_dependents (graph : DependencyGraph) (seeds : gset nat) (prod_only : bool)
  : option (gset nat) := walk graph (edges_of graph prod_only).2 seeds.

(** ** Choosing members

    [None] stands for a panic: an index out of bounds.  It never happens
    ([select_workspace_projects_total]). *)
Section select.
Context `{GlobCrate} `{GitProgram}.

Definition pattern_matches (pattern value : string) : bool :=
  match glob_new pattern with
  | Some glob_pattern => glob_matches glob_pattern value
  | None => contains pattern value
  end.

Definition selector_matches (workspace_root : string) (package : IndexedPackage)
    (selector : Selector) : bool :=
  match sel_base selector with
  | Name name => bool_decide (m_name (p_manifest (ip_project package)) = Some name)
  | NameGlob pattern =>
      match m_name (p_manifest (ip_project package)) with
      | Some name => pattern_matches pattern name
      | None => false
      end
  | PathSelector relative =>
      let target := if is_absolute relative then relative else path_push workspace_root relative in
      path_starts_with (p_root (ip_project package)) target
  | ChangedSince _ => false
  end.

(** [for (idx, package) in packages.iter().enumerate() { if f(package) { set.insert(idx) } }] *)
Definition matching_indices (f : IndexedPackage -> bool) (packages : list IndexedPackage) : gset nat :=
  foldl (fun seeds '(idx, package) => if f package then {[idx]} ∪ seeds else seeds)
    ∅ (enumerate packages).

Definition changed_since (workspace_root : string) (packages : list IndexedPackage)
    (revision : string) : Result (gset nat) :=
  match git_diff_name_only workspace_root revision with
  | Err error => Err (WorkspaceConfig workspace_root ("failed to run git diff: " +:+ error))
  | Ok (success, stdout, stderr) =>
      if negb success
      then Err (WorkspaceConfig workspace_root ("git diff failed: " +:+ trim stderr))
      else
        let changed := path_push workspace_root <$>
          filter (fun line => is_empty line = false) (trim <$> lines stdout) in
        Ok (matching_indices (fun package =>
          existsb (fun path => path_starts_with path (p_root (ip_project package))) changed) packages)
  end.

Definition selector_seeds (workspace_root : string) (graph : DependencyGraph)
    (selector : Selector) : Result (gset nat) :=
  match sel_base selector with
  | ChangedSince rev => changed_since workspace_root (dg_packages graph) rev
  | _ => Ok (matching_indices (fun package => selector_matches workspace_root package selector)
               (dg_packages graph))
  end.

Definition expand_selector (workspace_root : string) (graph : DependencyGraph)
    (selector : Selector) : option (Result (gset nat)) :=
  match selector_seeds workspace_root graph selector with
  | Err e => Some (Err e)
  | Ok original =>
      dependencies ← (if include_dependencies selector
                      then walk_dependencies graph original (prod_only selector) else Some ∅);
      dependents ← (if include_dependents selector
                    then walk_dependents graph original (prod_only selector) else Some ∅);
      let included := original ∪ dependencies ∪ dependents in
      Some (Ok (if exclude_self selector then included ∖ original else included))
  end.

Fixpoint apply_loop (workspace_root : string) (graph : DependencyGraph) (selectors : list Selector)
    (included excluded : gset nat) : option (Result (gset nat * gset nat)) :=
  match selectors with
  | [] => Some (Ok (included, excluded))
  | selector :: selectors =>
      matches ← expand_selector workspace_root graph selector;
      match matches with
      | Err e => Some (Err e)
      | Ok matches =>
          if exclude selector
          then apply_loop workspace_root graph selectors included (excluded ∪ matches)
          else apply_loop workspace_root graph selectors (included ∪ matches) excluded
      end
  end.

Definition apply_selectors (workspace_root : string) (graph : DependencyGraph)
    (selectors : list Selector) : option (Result (gset nat)) :=
  let has_positive := existsb (fun selector => negb (exclude selector)) selectors in
  let included := if has_positive then ∅ else list_to_set (seq 0 (length (dg_packages graph))) in
  outcome ← apply_loop workspace_root graph selectors included ∅;
  Some (match outcome with
        | Err e => Err e
        | Ok (included, excluded) => Ok (included ∖ excluded)
        end).

Definition select_workspace_projects (workspace : Workspace) (filters filter_prods : list string)
  : option (Result (list Project)) :=
  if bool_decide (filters = []) && bool_decide (filter_prods = [])
  then Some (Ok (w_projects workspace))
  else
    match parse_effective_filters filters filter_prods with
    | Err reason => Some (Err (WorkspaceConfig (w_root workspace) reason))
    | Ok [] => Some (Ok [])
    | Ok selectors =>
        let packages := index_packages (w_projects workspace) in
        let graph := build_dependency_graph packages in
        selected ← apply_selectors (w_root workspace) graph selectors;
        Some (match selected with
              | Err e => Err e
              | Ok selected =>
                  Ok (omap (fun '(idx, project) => if decide (idx ∈ selected) then Some project else None)
                        (enumerate (w_projects workspace)))
              end)
    end.
End select.

Definition project_label (project : Project) : string :=
  match m_name (p_manifest project) with
  | Some name => name
  | None => default "." (file_name (p_root project))
  end.

(** ** Lemmas: the syntax of selectors *)
Definition dots_in_front (raw : string) : bool := starts_with "..." (raw +:+ "...").

(** A base that the operators cannot be confused with. *)
Definition selector_text (raw : string) : bool :=
  negb (is_empty raw) && negb (starts_with "!" raw) && negb (starts_with "^" raw)
  && negb (ends_with "^" raw) && negb (dots_in_front raw) && negb (dots_in_front (String.rev raw)).

(** A selector written out. *)
Definition render_selector (raw : string) (sel : Selector) : string :=
  (if exclude sel then "!" else ε)
  +:+ (if include_dependents sel then "..." +:+ (if exclude_self sel then "^" else ε) else ε)
  +:+ raw
  +:+ (if include_dependencies sel
       then (if exclude_self sel && negb (include_dependents sel) then "^" else ε) +:+ "..." else ε).

Lemma dots_in_front_app raw t : dots_in_front raw = false -> starts_with "..." (raw +:+ t) = false.
Proof.
  unfold dots_in_front, starts_with. destruct raw as [|a [|b [|c raw]]]; rewrite ?app_cons_s, ?app_nil_l_s.
  all: cbn; repeat match goal with |- context [Ascii.eqb ?x ?y] => destruct (Ascii.eqb x y) eqn:? end; done.
Qed.

Lemma ends_with_rev p s : ends_with p s = starts_with (String.rev p) (String.rev s).
Proof. unfold ends_with, starts_with, strip_suffix. by destruct (strip_prefix _ _). Qed.

Lemma dots_behind_app raw t : dots_in_front (String.rev raw) = false -> ends_with "..." (t +:+ raw) = false.
Proof.
  intros Hraw. rewrite ends_with_rev, rev_app_s. by apply (dots_in_front_app _ (String.rev t)) in Hraw.
Qed.

Lemma starts_with_app_ne p raw t :
  String.length p = 1 -> is_empty raw = false -> starts_with p raw = false ->
  starts_with p (raw +:+ t) = false.
Proof.
  destruct p as [|c [|]]; try done. intros _ Hne. destruct raw as [|a raw]; [done|].
  rewrite app_cons_s. change (String c ε) with (chr c). by rewrite !starts_with_chr_cons.
Qed.

Lemma prefix_flag_no p raw : starts_with p raw = false -> prefix_flag p raw = (false, raw).
Proof. unfold starts_with, prefix_flag. by destruct (strip_prefix p raw). Qed.
Lemma prefix_flag_yes p raw : prefix_flag p (p +:+ raw) = (true, raw).
Proof. unfold prefix_flag. by rewrite strip_prefix_app. Qed.
Lemma suffix_flag_no p raw : ends_with p raw = false -> suffix_flag p raw = (false, raw).
Proof. unfold ends_with, suffix_flag. by destruct (strip_suffix p raw). Qed.
Lemma suffix_flag_yes p raw : suffix_flag p (raw +:+ p) = (true, raw).
Proof. unfold suffix_flag. by rewrite strip_suffix_app. Qed.

Lemma is_empty_app s t : is_empty s = false -> is_empty (s +:+ t) = false.
Proof. by destruct s. Qed.
Lemma is_empty_app_r s t : is_empty t = false -> is_empty (s +:+ t) = false.
Proof. by destruct s. Qed.

Lemma ends_with_app_ne p t raw :
  String.length p = 1 -> is_empty raw = false -> ends_with p raw = false ->
  ends_with p (t +:+ raw) = false.
Proof.
  rewrite !ends_with_rev, rev_app_s. intros Hp Hne. apply starts_with_app_ne.
  - destruct p as [|c [|]]; done.
  - destruct raw as [|a raw]; [done|]. rewrite rev_cons_s. by apply is_empty_app_r.
Qed.

(** The operators in front of the base, and those behind it. *)
Lemma prefix_flags_render raw t (excl dependents self : bool) :
  selector_text raw = true -> (self = true -> dependents = true) ->
  let text := (if excl then "!" else ε)
    +:+ (if dependents then "..." +:+ (if self then "^" else ε) else ε) +:+ (raw +:+ t) in
  is_empty text = false /\
  exists rest, prefix_flag "!" text = (excl, rest) /\ is_empty rest = false /\
  exists rest', prefix_flag "..." rest = (dependents, rest') /\
    prefix_flag "^" rest' = (self, raw +:+ t).
Proof.
  unfold selector_text. intros Hraw Hself. bool_prop.
  assert (Hne : is_empty (raw +:+ t) = false) by by apply is_empty_app.
  assert (Hbang : starts_with "!" (raw +:+ t) = false) by by apply starts_with_app_ne.
  assert (Hcaret : starts_with "^" (raw +:+ t) = false) by by apply starts_with_app_ne.
  assert (Hdots : starts_with "..." (raw +:+ t) = false) by by apply dots_in_front_app.
  cbv zeta. split; [by do 2 apply is_empty_app_r|].
  exists ((if dependents then "..." +:+ (if self then "^" else ε) else ε) +:+ raw +:+ t). split.
  { destruct excl; [apply prefix_flag_yes|]. rewrite app_nil_l_s. apply prefix_flag_no.
    by destruct dependents, self. }
  split; [by apply is_empty_app_r|]. exists ((if self then "^" else ε) +:+ raw +:+ t).
  destruct dependents, self; try (by specialize (Hself eq_refl)).
  all: rewrite ?app_nil_s, ?app_nil_l_s, <-?app_assoc_s; split.
  all: first [apply prefix_flag_yes|by apply prefix_flag_no].
Qed.

Lemma suffix_flags_render raw (dependencies self : bool) :
  selector_text raw = true -> (self = true -> dependencies = true) ->
  let text := raw +:+ (if dependencies then (if self then "^" else ε) +:+ "..." else ε) in
  exists rest, suffix_flag "..." text = (dependencies, rest) /\ suffix_flag "^" rest = (self, raw).
Proof.
  unfold selector_text. intros Hraw Hself. bool_prop.
  assert (Hdots : ends_with "..." raw = false).
  { pose proof (dots_behind_app raw ε) as Hd. rewrite app_nil_l_s in Hd. auto. }
  cbv zeta. exists (raw +:+ (if self then "^" else ε)).
  destruct dependencies, self; try (by specialize (Hself eq_refl)).
  all: rewrite ?app_nil_l_s, ?app_nil_s, ?app_assoc_s; split.
  all: first [apply suffix_flag_yes|by apply suffix_flag_no].
Qed.

(** A selector is read back from the text it is written as, for every
    combination of the operators, when its base cannot be confused with
    them. *)
Theorem parse_selector_roundtrip raw sel :
  selector_text raw = true -> base_selector raw = Ok (sel_base sel) ->
  (exclude_self sel = true -> include_dependencies sel || include_dependents sel = true) ->
  parse_selector (render_selector raw sel) (prod_only sel) = Ok sel.
Proof.
  intros Hraw Hbase Hself. destruct sel as [base deps dependents self excl prod]; cbn in *.
  pose proof (prefix_flags_render raw
    (if deps then (if self && negb dependents then "^" else ε) +:+ "..." else ε)
    excl dependents (self && dependents) Hraw) as Hpre.
  destruct Hpre as (Hne & rest & Hbang & Hne' & rest' & Hdots & Hcaret);
    [by intros [_ ?]%andb_true_iff|].
  pose proof (suffix_flags_render raw deps (self && negb dependents) Hraw) as Hsuf.
  destruct Hsuf as (rest'' & Hdots' & Hcaret').
  { intros [-> Hd]%andb_true_iff. specialize (Hself eq_refl). by destruct deps, dependents. }
  unfold parse_selector, render_selector; cbn [exclude include_dependents exclude_self include_dependencies].
  assert ((if dependents then "..." +:+ (if self then "^" else ε) else ε) =
    (if dependents then "..." +:+ (if self && dependents then "^" else ε) else ε)) as ->
    by (destruct dependents, self; done).
  rewrite Hne, Hbang, Hne', Hdots, Hcaret, Hdots', Hcaret'.
  assert (is_empty raw = false) as -> by (unfold selector_text in Hraw; bool_prop; done).
  assert ((self && negb dependents) || (self && dependents) = self) as -> by (by destruct self, dependents).
  assert (self && negb (deps || dependents) = false) as ->
    by (destruct self; [rewrite Hself|]; done).
  rewrite Hbase. done.
Qed.

(** ** Lemmas: the dependency graph *)
Lemma index_by_name_bound packages name j :
  index_by_name packages !! name = Some j ->
  exists package, packages !! j = Some package /\ m_name (p_manifest (ip_project package)) = Some name.
Proof.
  revert name j. unfold index_by_name.
  apply (foldl_inv _ (fun index : gmap string nat => forall name j, index !! name = Some j ->
    exists package, packages !! j = Some package /\ m_name (p_manifest (ip_project package)) = Some name)).
  - intros index [idx package] Hin%elem_of_enumerate IH name j.
    destruct (m_name _) as [n|] eqn:Hn; [|apply IH].
    rewrite lookup_insert_Some. intros [[<- <-]|[_ ?]]; eauto.
  - intros name j. by rewrite lookup_empty.
Qed.

(** One member depends on another: a name it depends on is the name of the
    other, the last one where several share the name. *)
Definition depends_on (packages : list IndexedPackage) (prod_only : bool) (i j : nat) : Prop :=
  exists package dependency, packages !! i = Some package /\
    dependency ∈ outgoing_dependencies package prod_only /\
    index_by_name packages !! dependency = Some j.

Lemma depends_on_bound packages prod_only i j :
  depends_on packages prod_only i j -> i < length packages /\ j < length packages.
Proof.
  intros (package & dependency & Hi & _ & Hj). apply index_by_name_bound in Hj as (? & Hj & _).
  split; by eapply lookup_lt_Some.
Qed.

(** The two adjacency lists hold a relation and its converse. *)
Record edges_are (n : nat) (edges : Edges) (R : nat -> nat -> Prop) : Prop := {
  ea_out_length : length edges.1 = n;
  ea_in_length : length edges.2 = n;
  ea_out i l : edges.1 !! i = Some l -> forall j, j ∈ l <-> R i j;
  ea_in j l : edges.2 !! j = Some l -> forall i, i ∈ l <-> R i j;
}.

Lemma edges_are_iff n edges R R' :
  (forall i j, R i j <-> R' i j) -> edges_are n edges R -> edges_are n edges R'.
Proof. intros HR [??? ?]. split; naive_solver. Qed.

Lemma no_edges_are n : edges_are n (no_edges n) (fun _ _ => False).
Proof.
  unfold no_edges. split; cbn; rewrite ?length_replicate; [done..| |].
  all: intros i l [-> _]%lookup_replicate_1 j; set_solver.
Qed.

Lemma push_edge_are n edges R a b :
  edges_are n edges R -> edges_are n (push_edge edges a b) (fun i j => R i j \/ (i = a /\ j = b)).
Proof.
  intros [Hol Hil Ho Hi]. unfold push_edge. split; cbn; rewrite ?length_alter; [done..| |].
  - intros i l Hl j. destruct (decide (i = a)) as [->|Hne].
    + rewrite list_lookup_alter, decide_True in Hl by done. apply fmap_Some in Hl as (l' & Hl' & ->).
      rewrite elem_of_app, (Ho _ _ Hl'). set_solver.
    + rewrite list_lookup_alter, decide_False in Hl by done. rewrite (Ho _ _ Hl). naive_solver.
  - intros j l Hl i. destruct (decide (j = b)) as [->|Hne].
    + rewrite list_lookup_alter, decide_True in Hl by done. apply fmap_Some in Hl as (l' & Hl' & ->).
      rewrite elem_of_app, (Hi _ _ Hl'). set_solver.
    + rewrite list_lookup_alter, decide_False in Hl by done. rewrite (Hi _ _ Hl). naive_solver.
Qed.

Lemma push_dependencies_are n (index : gmap string nat) a dependencies edges R :
  edges_are n edges R ->
  edges_are n (push_dependencies index a dependencies edges)
    (fun i j => R i j \/ (i = a /\ exists d, d ∈ dependencies /\ index !! d = Some j)).
Proof.
  intros Hedges. unfold push_dependencies.
  eapply (edges_are_iff _ _ (fun i j => R i j \/
    (i = a /\ exists d, d ∈ bset_iter dependencies /\ index !! d = Some j))).
  { intros i j. by setoid_rewrite elem_of_bset_iter. }
  generalize (bset_iter dependencies). intros l. revert edges R Hedges.
  induction l as [|d l IH]; intros edges R Hedges; cbn [foldl].
  { eapply edges_are_iff; [|done]. set_solver. }
  destruct (index !! d) as [b|] eqn:Hd.
  - eapply edges_are_iff; [|apply IH, push_edge_are, Hedges]. intros i j. cbn.
    setoid_rewrite elem_of_cons. naive_solver.
  - eapply edges_are_iff; [|apply IH, Hedges]. intros i j. cbn.
    setoid_rewrite elem_of_cons. naive_solver.
Qed.

Lemma graph_loop n index l edges_all edges_prod Rall Rprod :
  edges_are n edges_all Rall -> edges_are n edges_prod Rprod ->
  let step := fun '(all, prod) '(from_idx, package) =>
    (push_dependencies index from_idx (outgoing_dependencies package false) all,
     push_dependencies index from_idx (outgoing_dependencies package true) prod) in
  let R := fun prod_only (R0 : nat -> nat -> Prop) i j => R0 i j \/
    exists package d, (i, package) ∈ l /\ d ∈ outgoing_dependencies package prod_only /\
      index !! d = Some j in
  let '(all, prod) := foldl step (edges_all, edges_prod) l in
  edges_are n all (R false Rall) /\ edges_are n prod (R true Rprod).
Proof.
  revert edges_all edges_prod Rall Rprod. cbv zeta.
  induction l as [|[a package] l IH]; intros edges_all edges_prod Rall Rprod Hall Hprod; cbn [foldl].
  { split; (eapply edges_are_iff; [|done]); set_solver. }
  specialize (IH _ _ _ _ (push_dependencies_are n index a (outgoing_dependencies package false) _ _ Hall)
    (push_dependencies_are n index a (outgoing_dependencies package true) _ _ Hprod)).
  destruct (foldl _ _ l) as [all prod]. destruct IH as [IHall IHprod].
  split; (eapply edges_are_iff; [|eassumption]); intros i j; cbn; setoid_rewrite elem_of_cons;
    naive_solver.
Qed.

Lemma build_dependency_graph_edges packages prod_only :
  edges_are (length packages) (edges_of (build_dependency_graph packages) prod_only)
    (depends_on packages prod_only).
Proof.
  unfold build_dependency_graph.
  pose proof (graph_loop (length packages) (index_by_name packages) (enumerate packages)
    _ _ _ _ (no_edges_are _) (no_edges_are _)) as Hloop. cbv zeta in Hloop |- *.
  destruct (foldl _ _ _) as [all prod]. destruct Hloop as [Hall Hprod].
  destruct prod_only; cbn; (eapply edges_are_iff; [|eassumption]); intros i j; cbn;
    setoid_rewrite elem_of_enumerate; unfold depends_on; naive_solver.
Qed.

Lemma build_dependency_graph_packages packages : dg_packages (build_dependency_graph packages) = packages.
Proof. unfold build_dependency_graph. by destruct (foldl _ _ _). Qed.

(** ** Lemmas: walking *)
Definition indices (n : nat) : gset nat := list_to_set (seq 0 n).

Lemma elem_of_indices n i : i ∈ indices n <-> i < n.
Proof. unfold indices. rewrite elem_of_list_to_set, elem_of_seq. lia. Qed.

Lemma tc_iff {A} (R R' : relation A) : (forall a b, R a b <-> R' a b) -> forall a b, tc R a b <-> tc R' a b.
Proof.
  intros HR a b. split; induction 1 as [a b Hab|a b c Hab _ IH];
    (by apply tc_once, HR) || (eapply tc_l; [by apply HR|done]).
Qed.

Lemma tc_flip {A} (R : relation A) a b : tc (flip R) a b <-> tc R b a.
Proof.
  split; induction 1 as [a b Hab|a b c Hab _ IH];
    (by apply tc_once) || (eapply tc_r; [exact IH|exact Hab]).
Qed.

(** Walking along adjacency lists that hold a relation on the indices. *)
Lemma walk_spec packages adj (R : nat -> nat -> Prop) seeds :
  length adj = length packages ->
  (forall i l, adj !! i = Some l -> forall j, j ∈ l <-> R i j) ->
  (forall i j, R i j -> i < length packages /\ j < length packages) ->
  (forall i, i ∈ seeds -> i < length packages) ->
  exists reached, walk (build_dependency_graph packages) adj seeds = Some reached /\
    forall k, k ∈ reached <-> exists s, s ∈ seeds /\ tc R s k.
Proof.
  intros Hlen Hadj Hbound Hseeds. unfold walk. rewrite build_dependency_graph_packages.
  assert (Hedge : forall a b, edge (fun current => adj !! current) a b <-> R a b).
  { intros a b. split.
    - intros (l & Hl & Hb). by apply (Hadj _ _ Hl).
    - intros HR. destruct (Hbound _ _ HR) as [Ha _]. rewrite <-Hlen in Ha.
      apply lookup_lt_is_Some in Ha as [l Hl]. exists l. split; [done|]. by apply (Hadj _ _ Hl). }
  destruct (bfs_spec (fun current => adj !! current) (indices (length packages)) (bset_iter seeds)
    (length (bset_iter seeds) + length packages)) as (reached & Hbfs & Hreached).
  - intros k Hk%elem_of_indices. rewrite <-Hlen in Hk. apply lookup_lt_is_Some in Hk as [l Hl].
    exists l. split; [done|]. intros k' Hk'%(Hadj _ _ Hl). apply elem_of_indices. by eapply Hbound.
  - intros k. rewrite elem_of_bset_iter, elem_of_indices. apply Hseeds.
  - unfold indices. rewrite size_list_to_set, length_seq by apply NoDup_seq. done.
  - exists reached. split; [done|]. intros k. rewrite Hreached.
    setoid_rewrite elem_of_bset_iter. by setoid_rewrite (tc_iff _ _ Hedge).
Qed.

Lemma walk_dependencies_spec packages seeds prod_only :
  (forall i, i ∈ seeds -> i < length packages) ->
  exists reached, walk_dependencies (build_dependency_graph packages) seeds prod_only = Some reached /\
    forall k, k ∈ reached <-> exists s, s ∈ seeds /\ tc (depends_on packages prod_only) s k.
Proof.
  intros Hseeds. pose proof (build_dependency_graph_edges packages prod_only) as [Hol _ Ho _].
  apply walk_spec; [done..|apply depends_on_bound|done].
Qed.

Lemma walk_dependents_spec packages seeds prod_only :
  (forall i, i ∈ seeds -> i < length packages) ->
  exists reached, walk_dependents (build_dependency_graph packages) seeds prod_only = Some reached /\
    forall k, k ∈ reached <-> exists s, s ∈ seeds /\ tc (depends_on packages prod_only) k s.
Proof.
  intros Hseeds. pose proof (build_dependency_graph_edges packages prod_only) as [_ Hil _ Hi].
  destruct (walk_spec packages (edges_of (build_dependency_graph packages) prod_only).2
    (flip (depends_on packages prod_only)) seeds) as (reached & Hw & Hr); [done|..].
  - intros i l Hl j. apply (Hi _ _ Hl).
  - intros i j [? ?]%depends_on_bound. done.
  - done.
  - exists reached. split; [done|]. intros k. rewrite Hr. split; intros (s & Hs & Htc);
      exists s; (split; [done|]); by apply tc_flip.
Qed.

(** The dependencies of a set of members are exactly the members reachable
    from it over one or more dependency edges, and the dependents exactly the
    members it is reachable from: both walks end, and an edge is where a
    manifest names another member. *)
Theorem walks_are_reachability packages seeds prod_only :
  (forall i, i ∈ seeds -> i < length packages) ->
  let graph := build_dependency_graph packages in
  exists dependencies dependents,
    walk_dependencies graph seeds prod_only = Some dependencies /\
    walk_dependents graph seeds prod_only = Some dependents /\
    (forall k, k ∈ dependencies <-> exists s, s ∈ seeds /\ tc (depends_on packages prod_only) s k) /\
    (forall k, k ∈ dependents <-> exists s, s ∈ seeds /\ tc (depends_on packages prod_only) k s).
Proof.
  intros Hseeds. destruct (walk_dependencies_spec packages seeds prod_only Hseeds) as (d1 & ? & ?).
  destruct (walk_dependents_spec packages seeds prod_only Hseeds) as (d2 & ? & ?). eauto 8.
Qed.

(** ** Lemmas: choosing *)
Lemma matching_indices_spec f packages i :
  i ∈ matching_indices f packages <-> exists package, packages !! i = Some package /\ f package = true.
Proof.
  unfold matching_indices. setoid_rewrite <-elem_of_enumerate.
  induction (enumerate packages) as [|[j package] l IH] using rev_ind; [set_solver|].
  rewrite foldl_app. cbn. setoid_rewrite elem_of_app. setoid_rewrite list_elem_of_singleton.
  destruct (f package) eqn:Hf; [rewrite elem_of_union, elem_of_singleton|]; rewrite IH; split.
  - intros [->|(p & ? & ?)]; eauto.
  - intros (p & [?|[= -> ->]] & ?); eauto.
  - intros (p & ? & ?); eauto.
  - intros (p & [?|[= -> ->]] & ?); [eauto|congruence].
Qed.

Section choose.
Context `{GlobCrate} `{GitProgram} (workspace_root : string) (packages : list IndexedPackage).
Let graph := build_dependency_graph packages.

Lemma selector_seeds_bound selector seeds i :
  selector_seeds workspace_root graph selector = Ok seeds -> i ∈ seeds -> i < length packages.
Proof.
  assert (Hm : forall f, i ∈ matching_indices f (dg_packages graph) -> i < length packages).
  { intros f (package & Hi & _)%matching_indices_spec. unfold graph in Hi.
    rewrite build_dependency_graph_packages in Hi. by eapply lookup_lt_Some. }
  unfold selector_seeds, changed_since. intros Hs Hi.
  destruct (sel_base selector); [|injection Hs as <-; by eapply Hm..].
  destruct (git_diff_name_only _ _) as [[[[] ?] ?]|]; cbn in Hs; try done.
  injection Hs as <-. by eapply Hm.
Qed.

(** What a selector stands for: its seeds, with what they reach and what
    reaches them, less the seeds where it says so. *)
Definition selector_set (selector : Selector) (seeds : gset nat) (i : nat) : Prop :=
  let R := depends_on packages (prod_only selector) in
  (i ∈ seeds
   \/ (include_dependencies selector = true /\ exists s, s ∈ seeds /\ tc R s i)
   \/ (include_dependents selector = true /\ exists s, s ∈ seeds /\ tc R i s))
  /\ (exclude_self selector = true -> i ∉ seeds).

Lemma expand_selector_spec selector :
  match selector_seeds workspace_root graph selector with
  | Err e => expand_selector workspace_root graph selector = Some (Err e)
  | Ok seeds => exists set, expand_selector workspace_root graph selector = Some (Ok set) /\
      forall i, i ∈ set <-> selector_set selector seeds i
  end.
Proof.
  destruct (selector_seeds workspace_root graph selector) as [seeds|e] eqn:Hseeds;
    unfold expand_selector; rewrite Hseeds; [|done].
  assert (Hb : forall i, i ∈ seeds -> i < length packages) by (intros; by eapply selector_seeds_bound).
  destruct (walk_dependencies_spec packages seeds (prod_only selector) Hb) as (d1 & Hd1 & Hs1).
  destruct (walk_dependents_spec packages seeds (prod_only selector) Hb) as (d2 & Hd2 & Hs2).
  fold graph in Hd1, Hd2. unfold selector_set.
  assert (exists deps, (if include_dependencies selector
      then walk_dependencies graph seeds (prod_only selector) else Some ∅) = Some deps /\
    forall i, i ∈ deps <-> include_dependencies selector = true /\
      exists s, s ∈ seeds /\ tc (depends_on packages (prod_only selector)) s i) as (deps & -> & Hdeps).
  { destruct (include_dependencies selector); [exists d1|exists ∅]; (split; [done|]); [naive_solver|].
    intros i. split; [by intros []%not_elem_of_empty|by intros [? _]]. }
  assert (exists deps, (if include_dependents selector
      then walk_dependents graph seeds (prod_only selector) else Some ∅) = Some deps /\
    forall i, i ∈ deps <-> include_dependents selector = true /\
      exists s, s ∈ seeds /\ tc (depends_on packages (prod_only selector)) i s) as (dependents & -> & Hdents).
  { destruct (include_dependents selector); [exists d2|exists ∅]; (split; [done|]); [naive_solver|].
    intros i. split; [by intros []%not_elem_of_empty|by intros [? _]]. }
  cbn. eexists. split; [done|]. intros i.
  destruct (exclude_self selector); rewrite ?elem_of_difference, !elem_of_union, Hdeps, Hdents; naive_solver.
Qed.

Definition selects (selector : Selector) (i : nat) : Prop :=
  exists seeds, selector_seeds workspace_root graph selector = Ok seeds /\ selector_set selector seeds i.

Lemma apply_loop_spec selectors included excluded :
  exists outcome, apply_loop workspace_root graph selectors included excluded = Some outcome /\
  match outcome with
  | Err e => exists selector, selector ∈ selectors /\ selector_seeds workspace_root graph selector = Err e
  | Ok (included', excluded') =>
      (forall i, i ∈ included' <-> i ∈ included \/
         exists selector, selector ∈ selectors /\ exclude selector = false /\ selects selector i) /\
      (forall i, i ∈ excluded' <-> i ∈ excluded \/
         exists selector, selector ∈ selectors /\ exclude selector = true /\ selects selector i)
  end.
Proof.
  revert included excluded. induction selectors as [|selector selectors IH]; intros included excluded.
  { exists (Ok (included, excluded)). split; [done|].
    split; intros i; (split; [by left|]); by intros [?|(? & []%not_elem_of_nil & _)]. }
  cbn [apply_loop]. pose proof (expand_selector_spec selector) as Hexp.
  destruct (selector_seeds workspace_root graph selector) as [seeds|e] eqn:Hseeds.
  - destruct Hexp as (set & -> & Hset). cbn.
    assert (Hsel : forall i, selects selector i <-> i ∈ set).
    { intros i. rewrite Hset. unfold selects. rewrite Hseeds. naive_solver. }
    destruct (exclude selector) eqn:Hex.
    + destruct (IH included (excluded ∪ set)) as (outcome & -> & Hout). exists outcome. split; [done|].
      destruct outcome as [[inc exc]|e]; [|by apply exists_cons; right].
      destruct Hout as [Hi He]. split; intros i; rewrite ?Hi, ?He, ?elem_of_union, exists_cons, <-?Hsel, Hex;
        intuition congruence.
    + destruct (IH (included ∪ set) excluded) as (outcome & -> & Hout). exists outcome. split; [done|].
      destruct outcome as [[inc exc]|e]; [|by apply exists_cons; right].
      destruct Hout as [Hi He]. split; intros i; rewrite ?Hi, ?He, ?elem_of_union, exists_cons, <-?Hsel, Hex;
        intuition congruence.
  - rewrite Hexp. exists (Err e). split; [done|]. exists selector. split; [by left|done].
Qed.

Lemma apply_selectors_outcome selectors :
  exists outcome, apply_selectors workspace_root graph selectors = Some outcome /\
  match outcome with
  | Err e => exists selector, selector ∈ selectors /\ selector_seeds workspace_root graph selector = Err e
  | Ok selected => forall i, i ∈ selected <->
      ((forall selector, selector ∈ selectors -> exclude selector = true) /\ i < length packages
       \/ exists selector, selector ∈ selectors /\ exclude selector = false /\ selects selector i)
      /\ ~ exists selector, selector ∈ selectors /\ exclude selector = true /\ selects selector i
  end.
Proof.
  unfold apply_selectors. cbv zeta.
  assert (Hstart : forall i, i ∈ (if existsb (fun selector => negb (exclude selector)) selectors
      then ∅ else list_to_set (seq 0 (length (dg_packages graph))) : gset nat) <->
    (forall selector, selector ∈ selectors -> exclude selector = true) /\ i < length packages).
  { intros i. unfold graph at 1. rewrite build_dependency_graph_packages.
    destruct (existsb _ _) eqn:Hpos.
    - apply existsb_true in Hpos as (sel & Hin & Hsel). bool_prop.
      split; [by intros []%not_elem_of_empty|]. intros [Hall _]. specialize (Hall _ Hin). congruence.
    - rewrite existsb_false in Hpos. fold (indices (length packages)). rewrite elem_of_indices.
      split; [|naive_solver]. intros Hi. split; [|done]. intros sel Hsel.
      specialize (Hpos _ Hsel). by bool_prop. }
  destruct (apply_loop_spec selectors
    (if existsb (fun selector => negb (exclude selector)) selectors
      then ∅ else list_to_set (seq 0 (length (dg_packages graph)))) ∅) as (outcome & -> & Hout).
  cbn. eexists. split; [done|]. destruct outcome as [[inc exc]|e]; [|done].
  destruct Hout as [Hi He]. intros i. rewrite elem_of_difference, Hi, He, Hstart. set_solver.
Qed.
End choose.

(** A list of selectors chooses a member when some positive selector stands
    for it, or there is no positive selector, and no negated selector stands
    for it, wherever they are in the list; choosing fails only with the error
    of a selector. *)
Theorem apply_selectors_spec `{GlobCrate} `{GitProgram} workspace_root packages selectors :
  let graph := build_dependency_graph packages in
  exists outcome, apply_selectors workspace_root graph selectors = Some outcome /\
  match outcome with
  | Err e => exists selector, selector ∈ selectors /\ selector_seeds workspace_root graph selector = Err e
  | Ok selected => forall i, i ∈ selected <->
      ((forall selector, selector ∈ selectors -> exclude selector = true) /\ i < length packages
       \/ exists selector, selector ∈ selectors /\ exclude selector = false /\
            selects workspace_root packages selector i)
      /\ ~ exists selector, selector ∈ selectors /\ exclude selector = true /\
            selects workspace_root packages selector i
  end.
Proof. apply apply_selectors_outcome. Qed.

(** Selecting projects never runs out of bounds, and keeps the order of the
    workspace: the answer is a sublist of its projects. *)
Theorem select_workspace_projects_sublist `{GlobCrate} `{GitProgram} workspace filters filter_prods :
  exists outcome, select_workspace_projects workspace filters filter_prods = Some outcome /\
  forall chosen, outcome = Ok chosen -> chosen `sublist_of` w_projects workspace.
Proof.
  unfold select_workspace_projects. case_match; [eexists; split; [done|]; by intros ? [= ->]|].
  destruct (parse_effective_filters _ _) as [selectors|reason]; [|by eexists].
  destruct selectors as [|selector selectors].
  { eexists. split; [done|]. intros ? [= <-]. apply sublist_nil_l. }
  destruct (apply_selectors_outcome (w_root workspace) (index_packages (w_projects workspace))
    (selector :: selectors)) as (outcome & Happ & _).
  rewrite Happ. cbn. eexists. split; [done|]. intros chosen.
  destruct outcome as [selected|]; [|done]. intros [= <-].
  assert (Hsnd : (enumerate (w_projects workspace)).*2 = w_projects workspace).
  { unfold enumerate. rewrite fmap_imap. apply list_eq. intros i.
    rewrite list_lookup_imap. by destruct (w_projects workspace !! i). }
  rewrite <-Hsnd at 2. clear. induction (enumerate _) as [|[idx project] l IH]; cbn; [done|].
  case_decide; cbn; by constructor.
Qed.

(** ** Witnesses *)
Module FiltersDemo.
Definition member (name : string) (deps dev : list string) : Project := {|
  p_root := "/ws/" +:+ name; p_manifest_path := "/ws/" +:+ name +:+ "/package.json";
  p_manifest := {|
    m_name := Some name; m_version := None; m_package_manager := None; m_private := false;
    m_dependencies := list_to_map ((fun d => (d, "workspace:*")) <$> deps);
    m_dev_dependencies := list_to_map ((fun d => (d, "workspace:*")) <$> dev);
    m_optional_dependencies := ∅;
    m_scripts := ∅; m_resolutions := ∅; m_overrides := ∅; m_files := None; m_bin := None;
    m_main := None; m_pnpm := None; m_snpm := None; m_workspaces := None; m_extra := ∅ |} |}.

Definition packages : list IndexedPackage :=
  index_packages [member "app" ["ui"] ["tools"]; member "ui" ["core"] []; member "core" [] [];
                  member "tools" [] []].

Definition ui_and_below : Selector := {|
  sel_base := Name "@scope/ui"; include_dependencies := true; include_dependents := false;
  exclude_self := true; exclude := true; prod_only := false |}.

Example walk_prod : walk_dependencies (build_dependency_graph packages) {[0]} true = Some {[1; 2]}.
Proof. vm_refl. Qed.

Lemma parse_selector_roundtrip_witness :
  parse_selector "!@scope/ui^..." false = Ok ui_and_below.
Proof. apply (parse_selector_roundtrip "@scope/ui" ui_and_below); vm_refl || done. Defined.

Lemma walks_are_reachability_witness :
  let graph := build_dependency_graph packages in
  exists dependencies dependents,
    walk_dependencies graph {[1]} false = Some dependencies /\
    walk_dependents graph {[1]} false = Some dependents /\
    (forall k, k ∈ dependencies <-> exists s, s ∈ ({[1]} : gset nat) /\ tc (depends_on packages false) s k) /\
    (forall k, k ∈ dependents <-> exists s, s ∈ ({[1]} : gset nat) /\ tc (depends_on packages false) k s).
Proof.
  apply (walks_are_reachability packages {[1]} false).
  intros i ->%elem_of_singleton. vm_compute. lia.
Defined.
End FiltersDemo.
