(* ===== verification/Peers.v ===== *)
(** * Platforms and peer dependencies

    [platform/]: the [os], [cpu] and [libc] lists of a package against the
    machine the program was compiled for.  [resolve/peers/]: every peer range
    of every package against the versions in the graph.  The target of the
    compilation is the interface [Target]. *)
From S2P Require Import Prelude.
From S2P Require Import BTree.
From S2P Require Import Text.
From S2P Require Import Errors.
From S2P Require Import Types.
From S2P Require Import Crates.
From S2P Require Import Semver.

(** [env::consts::OS], [env::consts::ARCH] and [cfg(target_env)] *)
Class Target := { target_os : string; target_arch : string; target_env : string }.

(** ** [platform/] *)
Section platform.
Context `{Target}.

Definition current_os : string :=
  if target_os == "macos" then "darwin"
  else if target_os == "windows" then "win32"
  else target_os.

Definition current_cpu : string :=
  if target_arch == "x86_64" then "x64"
  else if target_arch == "aarch64" then "arm64"
  else target_arch.

Definition current_libc : string :=
  if negb (target_os == "linux") then "unknown"
  else if target_env == "musl" then "musl"
  else if target_env == "gnu" then "glibc"
  else "unknown".

Definition check_platform_list (list : list string) (current : string) : bool :=
  if bool_decide (list = ["any"]) then true
  else match list with
  | [] => true
  | _ =>
      let has_positive := existsb (fun entry => negb (starts_with "!" entry)) list in
      if existsb (fun entry => match strip_prefix "!" entry with
                               | Some negated => negated == current
                               | None => false
                               end) list then false
      else if negb has_positive then true
      else existsb (fun entry => negb (starts_with "!" entry) && (entry == current)) list
  end.

Definition is_compatible_with_libc (os cpu libc : list string) : bool :=
  check_platform_list os current_os && check_platform_list cpu current_cpu
  && ((current_libc == "unknown") || check_platform_list libc current_libc).

Definition is_compatible (os cpu : list string) : bool := is_compatible_with_libc os cpu [].
Definition matches_os (list : list string) : bool := is_compatible list [].
Definition matches_cpu (list : list string) : bool := is_compatible [] list.
End platform.

(** ** [resolve/peers/] *)
Section peers.
Context `{SemverCrate}.

Definition push_version (versions_by_name : gmap string (list Version)) (package : ResolvedPackage)
  : gmap string (list Version) :=
  match parse_version (id_version (r_id package)) with
  | Ok version =>
      let name := id_name (r_id package) in
      <[name := default [] (versions_by_name !! name) ++ [version]]> versions_by_name
  | Err _ => versions_by_name
  end.

Definition collect_versions_by_name (graph : ResolutionGraph) : gmap string (list Version) :=
  foldl push_version ∅ (btree_values (g_packages graph)).

Definition missing_peer (package : ResolvedPackage) (peer_name peer_range : string) : SnpmError :=
  ResolutionFailed (id_name (r_id package)) peer_range ("missing peer dependency " +:+ peer_name).

Definition unsatisfied_peer (package : ResolvedPackage) (peer_name peer_range : string)
    (candidates : list Version) : SnpmError :=
  let installed := join ", " (version_display <$> candidates) in
  ResolutionFailed (id_name (r_id package)) peer_range
    ("peer dependency " +:+ peer_name +:+ "@" +:+ peer_range
     +:+ " is not satisfied; installed versions: " +:+ installed).

Definition validate_peer (package : ResolvedPackage)
    (versions_by_name : gmap string (list Version)) (peer : string * string) : Result unit :=
  let '(peer_name, peer_range) := peer in
  range_set ← parse_range_set peer_name peer_range;
  candidates ← ok_or (missing_peer package peer_name peer_range) (versions_by_name !! peer_name);
  if existsb (Range.matches range_set) candidates then Ok tt
  else Err (unsatisfied_peer package peer_name peer_range candidates).

Definition validate_package_peers (package : ResolvedPackage)
    (versions_by_name : gmap string (list Version)) : Result unit :=
  try_each (validate_peer package versions_by_name) (btree_iter (r_peer_dependencies package)).

Definition validate_peers (graph : ResolutionGraph) : Result unit :=
  let versions_by_name := collect_versions_by_name graph in
  try_each (fun package => validate_package_peers package versions_by_name)
    (btree_values (g_packages graph)).

(** ** Lemmas *)
Lemma collect_versions_spec graph name version :
  version ∈ default [] (collect_versions_by_name graph !! name) <->
  exists id package, g_packages graph !! id = Some package /\
    id_name (r_id package) = name /\ parse_version (id_version (r_id package)) = Ok version.
Proof.
  assert (Hl : forall l, version ∈ default [] (foldl push_version ∅ l !! name) <->
    exists package, package ∈ l /\ id_name (r_id package) = name /\
      parse_version (id_version (r_id package)) = Ok version).
  { induction l as [|package l IH] using rev_ind.
    { cbn [foldl]. rewrite lookup_empty. cbn. split; [by intros []%not_elem_of_nil|].
      by intros (? & []%not_elem_of_nil & _). }
    rewrite foldl_app. cbn. unfold push_version.
    setoid_rewrite elem_of_app. setoid_rewrite list_elem_of_singleton.
    destruct (parse_version (id_version (r_id package))) as [v|] eqn:Hv;
      [|rewrite IH; split; [naive_solver|]; intros (p & [?| ->] & ? & ?); [eauto|congruence]].
    destruct (decide (id_name (r_id package) = name)) as [Hn|Hn].
    - rewrite Hn, lookup_insert_eq. cbn. rewrite elem_of_app, list_elem_of_singleton, IH. split.
      + intros [(p & ? & ? & ?)| ->]; [eauto|]. exists package. auto.
      + intros (p & [?| ->] & ? & ?); [eauto|]. right. congruence.
    - rewrite lookup_insert_ne, IH by done. split; [naive_solver|].
      intros (p & [?| ->] & ? & ?); [eauto|congruence]. }
  unfold collect_versions_by_name. rewrite Hl. setoid_rewrite elem_of_btree_values. naive_solver.
Qed.

(** A peer range that parses and that some version of the graph satisfies. *)
Definition peer_satisfied (graph : ResolutionGraph) (peer_name peer_range : string) : Prop :=
  exists range_set id package version,
    parse_range_set peer_name peer_range = Ok range_set /\
    g_packages graph !! id = Some package /\ id_name (r_id package) = peer_name /\
    parse_version (id_version (r_id package)) = Ok version /\ Range.matches range_set version = true.

Lemma validate_peer_ok graph package peer :
  validate_peer package (collect_versions_by_name graph) peer = Ok tt <->
  peer_satisfied graph peer.1 peer.2.
Proof.
  destruct peer as [peer_name peer_range]. unfold validate_peer, peer_satisfied. cbn [fst snd].
  destruct (parse_range_set peer_name peer_range) as [range_set|]; cbn; [|naive_solver].
  pose proof (collect_versions_spec graph peer_name) as Hspec.
  destruct (collect_versions_by_name graph !! peer_name) as [candidates|]; cbn in Hspec |- *.
  - destruct (existsb _ candidates) eqn:Hex.
    + apply existsb_true in Hex as (version & Hin & Hm). apply Hspec in Hin. naive_solver.
    + split; [done|]. rewrite existsb_false in Hex.
      intros (? & id & p & version & [= <-] & Hp & Hn & Hv & Hm).
      rewrite Hex in Hm; [done|]. apply Hspec. eauto.
  - split; [done|]. intros (? & id & p & version & [= <-] & Hp & Hn & Hv & Hm).
    exfalso. apply (not_elem_of_nil version). apply Hspec. eauto.
Qed.

(** Peer validation accepts a graph exactly when every peer range of every
    package is satisfied by the version of some package of that name in the
    graph. *)
Theorem validate_peers_ok graph :
  validate_peers graph = Ok tt <->
  forall id package peer_name peer_range,
    g_packages graph !! id = Some package ->
    r_peer_dependencies package !! peer_name = Some peer_range ->
    peer_satisfied graph peer_name peer_range.
Proof.
  unfold validate_peers, validate_package_peers. cbv zeta.
  rewrite try_each_ok, Forall_forall. setoid_rewrite try_each_ok. setoid_rewrite Forall_forall.
  setoid_rewrite validate_peer_ok. split.
  - intros Hall id package peer_name peer_range Hp Hpeer.
    refine (Hall package _ (peer_name, peer_range) _); [by apply elem_of_btree_values; eauto|].
    by apply elem_of_btree_iter.
  - intros Hall package Hp [peer_name peer_range] Hpeer.
    apply elem_of_btree_values in Hp as [id Hp]. apply elem_of_btree_iter in Hpeer. eauto.
Qed.
End peers.

Lemma check_platform_negated list current :
  existsb (fun entry => match strip_prefix "!" entry with
                        | Some negated => negated == current
                        | None => false end) list = true <-> ("!" +:+ current) ∈ list.
Proof.
  rewrite existsb_true. split.
  - intros (entry & Hin & He). destruct (strip_prefix "!" entry) as [negated|] eqn:Hs; [|done].
    bool_prop. subst. apply strip_prefix_Some in Hs. by subst.
  - intros Hin. eexists. split; [done|]. rewrite strip_prefix_app. apply String.eqb_refl.
Qed.

(** A platform list admits the current platform exactly when it is [any], or
    does not negate the platform and, if it names any platform positively,
    names this one. *)
Theorem check_platform_list_spec list current :
  starts_with "!" current = false ->
  check_platform_list list current = true <->
    list = ["any"] \/
    (("!" +:+ current) ∉ list /\
     ((exists entry, entry ∈ list /\ starts_with "!" entry = false) -> current ∈ list)).
Proof.
  intros Hcur. unfold check_platform_list. case_bool_decide as Hany; [naive_solver|].
  destruct list as [|e l]; [split; [|done]; intros _; right; set_solver|].
  set (list := e :: l) in *. cbv zeta.
  destruct (existsb (fun entry => match strip_prefix "!" entry with
    | Some negated => negated == current | None => false end) list) eqn:Hneg.
  { apply check_platform_negated in Hneg. naive_solver. }
  assert (("!" +:+ current) ∉ list) as Hno by by rewrite <-check_platform_negated, Hneg.
  destruct (existsb (fun entry => negb (starts_with "!" entry)) list) eqn:Hpos; cbn [negb].
  - apply existsb_true in Hpos as (entry & Hin & He). bool_prop. rewrite existsb_true. split.
    + intros (entry' & Hin' & He'). bool_prop. subst. right. split; [done|]. by intros _.
    + intros [?|[_ Hall]]; [done|]. exists current. split; [apply Hall; eauto|].
      by rewrite Hcur, String.eqb_refl.
  - rewrite existsb_false in Hpos. split; [|done]. intros _. right. split; [done|].
    intros (entry & Hin & He). specialize (Hpos _ Hin). by rewrite He in Hpos.
Qed.
