(* ===== verification/Resolver.v ===== *)
(** * The resolver ([resolve/package/], [resolve/engine/])

    [resolve_package] is an asynchronous function that calls itself for every
    dependency; the calls of a package run concurrently and share one map of
    packages.  The model is a machine: every call is a task with a phase, a
    step runs one task from one access of the shared map to the next, and a
    schedule is the list of the tasks that step.  What is proved holds for
    every schedule, so for every interleaving.

    The registry is an interface, [Registry]: what fetching a source gives does
    not change during a resolution (the code caches it by protocol and source).
    The metadata prefetch only warms that cache and is not modelled; the
    packages announced for download are ([st_notified]). *)
From S2P Require Import Prelude.
From S2P Require Import BTree.
From S2P Require Import Reach.
From S2P Require Import Text.
From S2P Require Import Errors.
From S2P Require Import Types.
From S2P Require Import Paths.
From S2P Require Import Specs.
From S2P Require Import Crates.
From S2P Require Import Semver.
From S2P Require Import Select.
From S2P Require Import Peers.
From S2P Require Import Lockfile.
Import Specs.Parse Specs.Build.

Class Registry := {
  fetch_registry_package : string -> RegistryProtocol -> Result RegistryPackage;
}.

(** ** [resolve/package/metadata.rs] *)
Definition ensure_platform_compatible `{Target} (name range : string)
    (version_meta : RegistryVersion) : Result unit :=
  if is_compatible_with_libc (v_os version_meta) (v_cpu version_meta) (v_libc version_meta)
  then Ok tt
  else Err (ResolutionFailed name range "package is not compatible with current OS/CPU/libc").

Definition required_peer_dependencies (version_meta : RegistryVersion) : gmap string string :=
  foldl (fun peer_dependencies '(name, range) =>
    let is_optional := default false (v_peer_dependencies_meta version_meta !! name) in
    if negb is_optional then <[name := range]> peer_dependencies else peer_dependencies)
    ∅ (btree_iter (v_peer_dependencies version_meta)).

Definition build_placeholder (id : PackageId) (version_meta : RegistryVersion) : ResolvedPackage := {|
  r_id := id;
  r_tarball := dist_tarball (v_dist version_meta);
  r_integrity := dist_integrity (v_dist version_meta);
  r_dependencies := ∅;
  r_peer_dependencies := required_peer_dependencies version_meta;
  r_bundled_dependencies := get_bundled_dependencies version_meta;
  r_has_bin := has_bin version_meta;
  r_bin := bin_definition version_meta
|}.

Definition bundled_dependency_names (version_meta : RegistryVersion) : gset string :=
  match get_bundled_dependencies version_meta with
  | Some bundled => to_set bundled (v_dependencies version_meta)
  | None => ∅
  end.

(** ** The context and the questions *)
Record ResolverContext := {
  rc_strict_peers : bool;
  rc_min_age_days : option Z;
  rc_force : bool;
  rc_overrides : option (gmap string string);
  rc_workspace_sources : option (gmap string string);
  rc_existing_graph : option ResolutionGraph;
}.

(** The arguments of a call of [resolve_package]. *)
Record Question := {
  q_name : string;
  q_range : string;
  q_protocol : RegistryProtocol;
  q_parent : option PackageId;
}.

(** ** Seeds: the graph of the previous install *)
Section seeds.
Context `{SemverCrate}.

Definition seeded_dependency_id (name range : string) (parent_id : option PackageId)
    (graph : ResolutionGraph) : option PackageId :=
  seed_id ← match parent_id with
            | Some parent_id => package ← g_packages graph !! parent_id; r_dependencies package !! name
            | None => rd_resolved <$> g_root graph !! name
            end;
  parsed_range ← result_ok (parse_range_set name range);
  parsed_version ← result_ok (parse_version (id_version seed_id));
  if negb (Range.matches parsed_range parsed_version) then None else Some seed_id.

Definition dependency_ids (graph : ResolutionGraph) (id : PackageId) : option (list PackageId) :=
  (fun package => btree_values (r_dependencies package)) <$> g_packages graph !! id.

(** One pop for the root and one for every edge of the graph. *)
Definition seed_fuel (graph : ResolutionGraph) : nat :=
  1 + sum_list_with (out (dependency_ids graph)) (btree_keys (g_packages graph)).

Definition seeded_subgraph_complete (package_id : PackageId) (graph : ResolutionGraph) : bool :=
  default false (dfs (dependency_ids graph) (seed_fuel graph) [package_id] ∅).
End seeds.

Section resolver.
Context `{UrlCrate} `{SemverCrate} `{TimeCrate} `{Target} `{Registry}.
Context (now : OffsetDateTime) (ctx : ResolverContext).

(** The part of [resolve_package] that looks at no shared state: the request,
    the packument, the version, the identity. *)
Definition choose (q : Question) : Result (PackageId * RegistryVersion) :=
  let request := build_dep_request (q_name q) (q_range q) (q_protocol q)
                   (rc_overrides ctx) (rc_workspace_sources ctx) in
  package ← fetch_registry_package (dr_source request) (dr_protocol request);
  version_meta ← select_version (dr_source request) (dr_range request) package
                   (rc_min_age_days ctx) (rc_force ctx) now;
  _ ← ensure_platform_compatible (q_name q) (q_range q) version_meta;
  let resolved_name :=
    if one_of (protocol_name (dr_protocol request)) ["npm"; "jsr"]
       && negb (dr_source request == q_name q)
    then dr_source request else q_name q in
  Ok ({| id_name := resolved_name; id_version := v_version version_meta |}, version_meta).

(** ** [resolve/package/dependencies.rs]: the calls for the dependencies *)
Definition required_questions (parent_id : PackageId) (version_meta : RegistryVersion)
  : list Question :=
  omap (fun '(name, range) =>
    if bool_decide (name ∈ bundled_dependency_names version_meta)
       || bool_decide (is_Some (v_optional_dependencies version_meta !! name))
    then None
    else
      let range := normalize_dependency_range (dist_tarball (v_dist version_meta)) range in
      Some {| q_name := name; q_range := range; q_protocol := protocol_from_range range;
              q_parent := Some parent_id |})
    (btree_iter (v_dependencies version_meta)).

Definition optional_questions (parent_id : PackageId) (version_meta : RegistryVersion)
  : list Question :=
  omap (fun '(name, range) =>
    if bool_decide (name ∈ bundled_dependency_names version_meta) then None
    else Some {| q_name := name; q_range := range; q_protocol := protocol_from_range range;
                 q_parent := Some parent_id |})
    (btree_iter (v_optional_dependencies version_meta)).

(** ** Tasks *)
Inductive Phase :=
(** called *)
| Start
(** importing the seed and what it depends on *)
| Importing (seed_id : PackageId) (stack : list PackageId) (inserted : gset PackageId)
(** no seed: to be looked up in the registry *)
| Resolving
(** chosen and not yet in the map *)
| Inserting (id : PackageId) (version_meta : RegistryVersion)
(** waiting for the calls of the dependencies, by name and task *)
| Waiting (id : PackageId) (version_meta : RegistryVersion)
    (required optional : list (string * nat))
| Finished (outcome : Result PackageId).

Record Task := { t_question : Question; t_phase : Phase }.

Record State := {
  st_packages : gmap PackageId ResolvedPackage;
  st_notified : list ResolvedPackage;
  st_tasks : list Task;
}.

Definition set_phase (n : nat) (phase : Phase) (tasks : list Task) : list Task :=
  alter (fun task => {| t_question := t_question task; t_phase := phase |}) n tasks.

Definition start (q : Question) : Task := {| t_question := q; t_phase := Start |}.

(** The names and the tasks of calls appended to [tasks]. *)
Definition spawned (first : nat) (questions : list Question) : list (string * nat) :=
  imap (fun i q => (q_name q, first + i)) questions.

(** ** [resolve/engine/context/packages.rs] *)
Definition insert_placeholder_if_missing (packages : gmap PackageId ResolvedPackage)
    (package : ResolvedPackage) : gmap PackageId ResolvedPackage * bool :=
  if decide (is_Some (packages !! r_id package)) then (packages, false)
  else (<[r_id package := package]> packages, true).

Definition update_dependencies (packages : gmap PackageId ResolvedPackage) (id : PackageId)
    (dependencies : gmap string PackageId) : gmap PackageId ResolvedPackage :=
  alter (Graph.set_dependencies dependencies) id packages.

(** What the awaited calls returned, once all have. *)
Definition outcomes (tasks : list Task) (calls : list (string * nat))
  : option (list (string * Result PackageId)) :=
  mapM (fun '(name, n) =>
    task ← tasks !! n;
    match t_phase task with Finished outcome => Some (name, outcome) | _ => None end) calls.

(** [for result in join_all(futures).await { let (name, id) = result?; .. }] *)
Definition required_outcome (results : list (string * Result PackageId))
  : Result (gmap string PackageId) :=
  try_fold (fun dependencies '(name, outcome) =>
    id ← outcome; Ok (<[name := id]> dependencies)) ∅ results.

(** [dependencies.insert(name, id)] for the optional calls that succeeded *)
Definition add_optional (dependencies : gmap string PackageId)
    (results : list (string * Result PackageId)) : gmap string PackageId :=
  foldl (fun dependencies '(name, outcome) =>
    match outcome with Ok id => <[name := id]> dependencies | Err _ => dependencies end)
    dependencies results.

(** ** One step of one task *)
Definition step_phase (n : nat) (q : Question) (phase : Phase) (s : State) : option State :=
  let goto phase := {| st_packages := st_packages s; st_notified := st_notified s;
                       st_tasks := set_phase n phase (st_tasks s) |} in
  match phase with
  | Start =>
      match (existing_graph ← rc_existing_graph ctx;
             seed_id ← seeded_dependency_id (q_name q) (q_range q) (q_parent q) existing_graph;
             if seeded_subgraph_complete seed_id existing_graph then Some seed_id else None) with
      | Some seed_id => Some (goto (Importing seed_id [seed_id] ∅))
      | None => Some (goto Resolving)
      end
  | Importing seed_id stack inserted =>
      match stack with
      | [] => Some (goto (Finished (Ok seed_id)))
      | current_id :: stack =>
          if decide (current_id ∈ inserted) then Some (goto (Importing seed_id stack inserted))
          else
            match existing_graph ← rc_existing_graph ctx; g_packages existing_graph !! current_id with
            | None => Some (goto Resolving)
            | Some package =>
                let '(packages, new) := insert_placeholder_if_missing (st_packages s) package in
                Some {| st_packages := packages;
                        st_notified := if new then st_notified s ++ [package] else st_notified s;
                        st_tasks := set_phase n (Importing seed_id
                          (reverse (btree_values (r_dependencies package)) ++ stack)
                          ({[current_id]} ∪ inserted)) (st_tasks s) |}
            end
      end
  | Resolving =>
      match choose q with
      | Err e => Some (goto (Finished (Err e)))
      | Ok (id, version_meta) =>
          if decide (is_Some (st_packages s !! id)) then Some (goto (Finished (Ok id)))
          else Some (goto (Inserting id version_meta))
      end
  | Inserting id version_meta =>
      let placeholder := build_placeholder id version_meta in
      let '(packages, new) := insert_placeholder_if_missing (st_packages s) placeholder in
      if new then
        let required := required_questions id version_meta in
        let optional := optional_questions id version_meta in
        let first := length (st_tasks s) in
        Some {| st_packages := packages;
                st_notified := st_notified s ++ [placeholder];
                st_tasks := set_phase n
                  (Waiting id version_meta (spawned first required)
                     (spawned (first + length required) optional)) (st_tasks s)
                  ++ (start <$> required) ++ (start <$> optional) |}
      else Some (goto (Finished (Ok id)))
  | Waiting id version_meta required optional =>
      required ← outcomes (st_tasks s) required;
      optional ← outcomes (st_tasks s) optional;
      match required_outcome required with
      | Err e => Some {| st_packages := delete id (st_packages s); st_notified := st_notified s;
                         st_tasks := set_phase n (Finished (Err e)) (st_tasks s) |}
      | Ok dependencies =>
          Some {| st_packages := update_dependencies (st_packages s) id
                                   (add_optional dependencies optional);
                  st_notified := st_notified s;
                  st_tasks := set_phase n (Finished (Ok id)) (st_tasks s) |}
      end
  | Finished _ => None
  end.

Definition step (n : nat) (s : State) : option State :=
  task ← st_tasks s !! n; step_phase n (t_question task) (t_phase task) s.

Definition run (schedule : list nat) (s : State) : option State :=
  foldl (fun s n => s ← s; step n s) (Some s) schedule.

(** ** [resolve/engine/]: the roots and the result *)
Definition root_question (root_protocols : gmap string RegistryProtocol) (name range : string)
  : Question := {|
  q_name := name; q_range := range; q_protocol := default npm (root_protocols !! name);
  q_parent := None |}.

Definition init (root_deps : gmap string string) (root_protocols : gmap string RegistryProtocol)
  : State := {|
  st_packages := ∅;
  st_notified := [];
  st_tasks := (fun '(name, range) => start (root_question root_protocols name range))
                <$> btree_iter root_deps
|}.

Definition all_finished (s : State) : bool :=
  forallb (fun task => match t_phase task with Finished _ => true | _ => false end) (st_tasks s).

Definition root_outcome (optional_root_names : gset string)
    (roots : list ((string * string) * Task)) : Result (gmap string RootDependency) :=
  try_fold (fun root_dependencies '((name, range), task) =>
    match t_phase task with
    | Finished (Ok id) =>
        Ok (<[name := {| rd_requested := range; rd_resolved := id |}]> root_dependencies)
    | Finished (Err error) =>
        if decide (name ∈ optional_root_names) then Ok root_dependencies else Err error
    | _ => Ok root_dependencies
    end) ∅ roots.

(** [run_prefetcher]: the callback of the install engine, for every package in
    the order of the announcements, until it fails. *)
Definition run_prefetcher (on_package : ResolvedPackage -> Result unit) (s : State) : Result unit :=
  try_each on_package (st_notified s).

Definition finish (root_deps : gmap string string) (optional_root_names : gset string)
    (on_package : ResolvedPackage -> Result unit) (s : State) : Result ResolutionGraph :=
  root ← root_outcome optional_root_names (zip (btree_iter root_deps) (st_tasks s));
  let graph := {| g_root := root; g_packages := st_packages s |} in
  _ ← match validate_peers graph with
      | Err error => if rc_strict_peers ctx then Err error else Ok tt
      | Ok _ => Ok tt
      end;
  _ ← run_prefetcher on_package s;
  Ok graph.

(** ** What a resolution means *)

(** The answers to a question: what the registry and the version choice give,
    or the seed of the previous install that satisfies the range. *)
Definition answered (q : Question) (id : PackageId) : Prop :=
  (exists version_meta, choose q = Ok (id, version_meta)) \/
  (exists graph, rc_existing_graph ctx = Some graph /\
    seeded_dependency_id (q_name q) (q_range q) (q_parent q) graph = Some id).

Definition from_seed (id : PackageId) (package : ResolvedPackage) : Prop :=
  exists graph, rc_existing_graph ctx = Some graph /\ g_packages graph !! id = Some package.

(** Every edge answers the question the metadata asks under that name. *)
Definition edges_sound (id : PackageId) (version_meta : RegistryVersion)
    (dependencies : gmap string PackageId) : Prop :=
  forall name dep, dependencies !! name = Some dep ->
  exists q, q ∈ required_questions id version_meta ++ optional_questions id version_meta /\
    q_name q = name /\ answered q dep.

(** No required dependency is without an edge. *)
Definition edges_complete (id : PackageId) (version_meta : RegistryVersion)
    (dependencies : gmap string PackageId) : Prop :=
  forall q, q ∈ required_questions id version_meta -> is_Some (dependencies !! q_name q).

(** A package of a finished graph: as the previous install left it, or built
    from metadata chosen for its id. *)
Definition resolved_package (id : PackageId) (package : ResolvedPackage) : Prop :=
  from_seed id package \/
  exists q version_meta dependencies, choose q = Ok (id, version_meta) /\
    package = Graph.set_dependencies dependencies (build_placeholder id version_meta) /\
    edges_sound id version_meta dependencies /\ edges_complete id version_meta dependencies.

(** ** The invariant *)
Definition waiting_at (tasks : list Task) (n : nat) (id : PackageId) (version_meta : RegistryVersion)
  : Prop := exists task required optional, tasks !! n = Some task /\
    t_phase task = Waiting id version_meta required optional.

Definition calls_ok (tasks : list Task) (calls : list (string * nat)) (questions : list Question)
  : Prop := Forall2 (fun call q => call.1 = q_name q /\
    exists task, tasks !! call.2 = Some task /\ t_question task = q) calls questions.

Definition phase_ok (packages : gmap PackageId ResolvedPackage) (tasks : list Task)
    (q : Question) (phase : Phase) : Prop :=
  match phase with
  | Start | Resolving | Finished (Err _) => True
  | Importing seed_id stack inserted =>
      exists graph, rc_existing_graph ctx = Some graph /\
        seeded_dependency_id (q_name q) (q_range q) (q_parent q) graph = Some seed_id
  | Inserting id version_meta => choose q = Ok (id, version_meta)
  | Waiting id version_meta required optional =>
      choose q = Ok (id, version_meta) /\
      packages !! id = Some (build_placeholder id version_meta) /\
      calls_ok tasks required (required_questions id version_meta) /\
      calls_ok tasks optional (optional_questions id version_meta)
  | Finished (Ok id) => answered q id
  end.

Definition package_ok (tasks : list Task) (id : PackageId) (package : ResolvedPackage) : Prop :=
  resolved_package id package \/
  exists n version_meta, waiting_at tasks n id version_meta /\
    package = build_placeholder id version_meta.

Record invariant (s : State) : Prop := {
  inv_phase n task : st_tasks s !! n = Some task ->
    phase_ok (st_packages s) (st_tasks s) (t_question task) (t_phase task);
  inv_unique n m id meta meta' : waiting_at (st_tasks s) n id meta ->
    waiting_at (st_tasks s) m id meta' -> n = m;
  inv_package id package : st_packages s !! id = Some package -> package_ok (st_tasks s) id package;
  inv_notified id package : st_packages s !! id = Some package ->
    exists announced, announced ∈ st_notified s /\ r_id announced = id;
}.

(** [tasks'] is [tasks] with the task [n] in a new phase and new calls. *)
Record advance (n : nat) (q : Question) (phase : Phase) (tasks tasks' : list Task) : Prop := {
  adv_at : tasks' !! n = Some {| t_question := q; t_phase := phase |};
  adv_other m task : m <> n -> tasks !! m = Some task -> tasks' !! m = Some task;
  adv_new m task : m <> n -> tasks' !! m = Some task -> tasks !! m = Some task \/ t_phase task = Start;
}.

Lemma set_phase_advance n task phase tasks :
  tasks !! n = Some task -> advance n (t_question task) phase tasks (set_phase n phase tasks).
Proof.
  intros Hn. unfold set_phase. split.
  - by rewrite list_lookup_alter, decide_True, Hn by done.
  - intros m t Hne Hm. by rewrite list_lookup_alter, decide_False by done.
  - intros m t Hne. rewrite list_lookup_alter, decide_False by done. by left.
Qed.

Lemma advance_app n q phase tasks tasks' new :
  advance n q phase tasks tasks' -> Forall (fun task => t_phase task = Start) new ->
  advance n q phase tasks (tasks' ++ new).
Proof.
  intros [Hat Hother Hnew] Hstart. split.
  - by apply lookup_app_l_Some.
  - intros m t Hne Hm. by apply lookup_app_l_Some, Hother.
  - intros m t Hne [Hm|[_ Hm]]%lookup_app_Some; [by apply Hnew|right].
    by apply (Forall_lookup_1 _ _ _ _ Hstart Hm).
Qed.

Section advance.
Context (n : nat) (task : Task) (phase : Phase) (tasks tasks' : list Task).
Context (Hn : tasks !! n = Some task) (Hadv : advance n (t_question task) phase tasks tasks').

Lemma advance_question m t :
  tasks !! m = Some t -> exists t', tasks' !! m = Some t' /\ t_question t' = t_question t.
Proof.
  intros Hm. destruct (decide (m = n)) as [->|Hne].
  - eexists. split; [apply Hadv|]. cbn. congruence.
  - exists t. split; [|done]. by apply Hadv.
Qed.

Lemma calls_ok_advance calls questions : calls_ok tasks calls questions -> calls_ok tasks' calls questions.
Proof.
  unfold calls_ok. intros Hcalls. eapply Forall2_impl; [exact Hcalls|].
  intros call q (Hname & t & Ht & <-). split; [done|].
  destruct (advance_question _ _ Ht) as (t' & ? & ?). eauto.
Qed.

Lemma waiting_back m id meta :
  waiting_at tasks' m id meta ->
  (m = n /\ exists required optional, phase = Waiting id meta required optional) \/
  (m <> n /\ waiting_at tasks m id meta).
Proof.
  intros (t & required & optional & Hm & Hw). destruct (decide (m = n)) as [->|Hne].
  - left. split; [done|]. rewrite (adv_at _ _ _ _ _ Hadv) in Hm. injection Hm as <-. eauto.
  - right. split; [done|]. destruct (adv_new _ _ _ _ _ Hadv _ _ Hne Hm) as [?|Hs]; [|congruence].
    exists t. eauto.
Qed.

Lemma waiting_forth m id meta : m <> n -> waiting_at tasks m id meta -> waiting_at tasks' m id meta.
Proof.
  intros Hne (t & required & optional & Hm & Hw). exists t, required, optional. split; [|done].
  by apply Hadv.
Qed.

Lemma package_ok_advance id package :
  (forall meta required optional, t_phase task <> Waiting id meta required optional) ->
  package_ok tasks id package -> package_ok tasks' id package.
Proof.
  intros Hnot [?|(m & meta & Hw & ->)]; [by left|right]. exists m, meta. split; [|done].
  apply waiting_forth; [|done]. intros ->. destruct Hw as (t & required & optional & Hm & Hw).
  rewrite Hn in Hm. injection Hm as <-. by eapply Hnot.
Qed.
End advance.

(** The invariant survives a step when the new phase, the packages and the
    announcements are right, and nobody else's placeholder is touched. *)
Lemma invariant_advance s s' n task phase :
  invariant s -> st_tasks s !! n = Some task ->
  advance n (t_question task) phase (st_tasks s) (st_tasks s') ->
  phase_ok (st_packages s') (st_tasks s') (t_question task) phase ->
  (forall m id meta, m <> n -> waiting_at (st_tasks s) m id meta ->
     st_packages s' !! id = st_packages s !! id) ->
  (forall id meta required optional m meta', phase = Waiting id meta required optional -> m <> n ->
     ~ waiting_at (st_tasks s) m id meta') ->
  (forall id package, st_packages s' !! id = Some package -> package_ok (st_tasks s') id package) ->
  (forall id package, st_packages s' !! id = Some package ->
     exists announced, announced ∈ st_notified s' /\ r_id announced = id) ->
  invariant s'.
Proof.
  intros Hinv Hn Hadv Hphase Hkeep Huniq Hpkg Hnot. split; [| |done|done].
  - intros m t Hm. destruct (decide (m = n)) as [->|Hne].
    { rewrite (adv_at _ _ _ _ _ Hadv) in Hm. injection Hm as <-. done. }
    destruct (adv_new _ _ _ _ _ Hadv _ _ Hne Hm) as [Hold|Hs]; [|by rewrite Hs].
    pose proof (inv_phase _ Hinv _ _ Hold) as Hok.
    destruct (t_phase t) as [| | | |id meta required optional|[]] eqn:Ht; try done.
    destruct Hok as (? & Hp & ? & ?). split_and!; [done| |by apply (calls_ok_advance _ _ _ _ _ Hn Hadv)..].
    rewrite (Hkeep m id meta Hne); [done|]. exists t. eauto.
  - intros i j id meta meta' Hi Hj.
    apply (waiting_back _ _ _ _ _ Hadv) in Hi as [[-> (ri & oi & Hi)]|[Hni Hi]];
    apply (waiting_back _ _ _ _ _ Hadv) in Hj as [[-> (rj & oj & Hj)]|[Hnj Hj]].
    + done.
    + exfalso. by eapply Huniq.
    + exfalso. by eapply Huniq.
    + by eapply inv_unique.
Qed.

(** ** Lemmas: the results of the calls *)
Definition results_ok (P : Question -> PackageId -> Prop) (questions : list Question)
    (results : list (string * Result PackageId)) : Prop :=
  Forall2 (fun q result => result.1 = q_name q /\ forall id, result.2 = Ok id -> P q id)
    questions results.

Lemma outcomes_ok (P : Question -> PackageId -> Prop) tasks calls questions results :
  (forall n task id, tasks !! n = Some task -> t_phase task = Finished (Ok id) -> P (t_question task) id) ->
  calls_ok tasks calls questions ->
  outcomes tasks calls = Some results -> results_ok P questions results.
Proof.
  intros Hfin Hcalls Hout. apply mapM_Some_1 in Hout. unfold results_ok, calls_ok in *.
  revert results Hout. induction Hcalls as [|[name n] q calls questions Hcall Hcalls IH];
    intros results Hout; inversion Hout as [|? result ? results' Hres Hrest]; subst; constructor; [|auto].
  destruct Hcall as (Hname & t & Ht & Hq). cbn in Hname, Ht, Hres. rewrite Ht in Hres. cbn in Hres.
  destruct (t_phase t) as [| | | | |outcome] eqn:Hphase; try done. injection Hres as <-.
  split; [done|]. cbn. intros id ->. rewrite <-Hq. by eapply Hfin.
Qed.

Lemma required_outcome_ok P questions results dependencies :
  results_ok P questions results -> required_outcome results = Ok dependencies ->
  (forall name dep, dependencies !! name = Some dep ->
     exists q, q ∈ questions /\ q_name q = name /\ P q dep) /\
  (forall q, q ∈ questions -> is_Some (dependencies !! q_name q)).
Proof.
  unfold required_outcome, results_ok. intros Hres Hout.
  assert (Hgen : forall acc, try_fold (fun dependencies '(name, outcome) =>
      id ← outcome; Ok (<[name := id]> dependencies)) acc results = Ok dependencies ->
    (forall name dep, dependencies !! name = Some dep -> acc !! name = Some dep \/
       exists q, q ∈ questions /\ q_name q = name /\ P q dep) /\
    (forall q, q ∈ questions -> is_Some (dependencies !! q_name q)) /\
    (forall name, is_Some (acc !! name) -> is_Some (dependencies !! name))).
  { clear Hout. induction Hres as [|q [name outcome] questions results [Hname Hans] Hres IH];
      intros acc; cbn [try_fold].
    { intros [= ->]. split_and!; [by left|by intros ? []%not_elem_of_nil|done]. }
    destruct outcome as [id|]; cbn; [|done]. intros Hout. cbn in Hname, Hans. subst name.
    destruct (IH _ Hout) as (Hl1 & Hl2 & Hl3). split_and!.
    - intros name dep Hdep. destruct (Hl1 _ _ Hdep) as [Hacc|(q' & ? & ? & ?)].
      + apply lookup_insert_Some in Hacc as [[<- <-]|[_ ?]]; [right|by left].
        exists q. split_and!; [by left|done|by apply Hans].
      + right. exists q'. split; [by right|done].
    - intros q' [->|?]%elem_of_cons; [|by apply Hl2]. apply Hl3. by rewrite lookup_insert_eq.
    - intros name Hsome. apply Hl3. destruct (decide (q_name q = name)) as [<-|];
        [by rewrite lookup_insert_eq|by rewrite lookup_insert_ne]. }
  destruct (Hgen ∅ Hout) as (Hl1 & Hl2 & _). split; [|done]. intros name dep Hdep.
  destruct (Hl1 _ _ Hdep) as [Hacc|?]; [by rewrite lookup_empty in Hacc|done].
Qed.

Lemma add_optional_ok P questions results dependencies :
  results_ok P questions results ->
  (forall name dep, add_optional dependencies results !! name = Some dep ->
     dependencies !! name = Some dep \/ exists q, q ∈ questions /\ q_name q = name /\ P q dep) /\
  (forall name, is_Some (dependencies !! name) -> is_Some (add_optional dependencies results !! name)).
Proof.
  unfold add_optional, results_ok. intros Hres. revert dependencies.
  induction Hres as [|q [name outcome] questions results [Hname Hans] Hres IH]; intros dependencies;
    cbn [foldl]; [by split; [left|]|]. cbn in Hname, Hans. subst name.
  destruct (IH (match outcome with Ok id => <[q_name q := id]> dependencies | Err _ => dependencies end))
    as [Hl1 Hl2]. split.
  - intros name dep Hdep. destruct (Hl1 _ _ Hdep) as [Hacc|(q' & ? & ? & ?)].
    + destruct outcome as [id|]; [|by left].
      apply lookup_insert_Some in Hacc as [[<- <-]|[_ ?]]; [right|by left].
      exists q. split_and!; [by left|done|by apply Hans].
    + right. exists q'. split; [by right|done].
  - intros name Hsome. apply Hl2. destruct outcome; [|done].
    destruct (decide (q_name q = name)) as [<-|];
      [by rewrite lookup_insert_eq|by rewrite lookup_insert_ne].
Qed.

Lemma invariant_finished s :
  invariant s -> forall n task id, st_tasks s !! n = Some task ->
  t_phase task = Finished (Ok id) -> answered (t_question task) id.
Proof.
  intros Hinv n task id Hn Hphase. pose proof (inv_phase _ Hinv _ _ Hn) as Hok.
  by rewrite Hphase in Hok.
Qed.

Lemma insert_missing_cases packages package :
  (insert_placeholder_if_missing packages package = (packages, false) /\
     is_Some (packages !! r_id package)) \/
  (insert_placeholder_if_missing packages package = (<[r_id package := package]> packages, true) /\
     packages !! r_id package = None).
Proof.
  unfold insert_placeholder_if_missing. case_decide as Hd; [by left|right].
  split; [done|]. by apply eq_None_not_Some.
Qed.

(** ** Every step keeps the invariant *)
Context (Hseed : forall graph, rc_existing_graph ctx = Some graph ->
  forall id package, g_packages graph !! id = Some package -> r_id package = id).

Lemma invariant_goto s n task phase :
  invariant s -> st_tasks s !! n = Some task ->
  (forall id meta required optional, t_phase task <> Waiting id meta required optional) ->
  (forall id meta required optional, phase <> Waiting id meta required optional) ->
  (forall packages tasks, phase_ok packages tasks (t_question task) phase) ->
  invariant {| st_packages := st_packages s; st_notified := st_notified s;
               st_tasks := set_phase n phase (st_tasks s) |}.
Proof.
  intros Hinv Hn Hold Hnew Hok.
  apply (invariant_advance s _ n task phase); try done; cbn.
  - by apply set_phase_advance.
  - intros id meta required optional m meta' ->. by destruct (Hnew id meta required optional).
  - intros id package Hp. eapply (package_ok_advance n task); [done|by apply set_phase_advance| |].
    + intros meta required optional. apply Hold.
    + by apply (inv_package _ Hinv).
  - apply (inv_notified _ Hinv).
Qed.

(** Inserting a package of its own id that was not there. *)
Lemma invariant_insert s s' n task phase package :
  invariant s -> st_tasks s !! n = Some task ->
  (forall id meta required optional, t_phase task <> Waiting id meta required optional) ->
  st_packages s !! r_id package = None ->
  st_packages s' = <[r_id package := package]> (st_packages s) ->
  st_notified s' = st_notified s ++ [package] ->
  advance n (t_question task) phase (st_tasks s) (st_tasks s') ->
  phase_ok (st_packages s') (st_tasks s') (t_question task) phase ->
  (forall id meta required optional, phase = Waiting id meta required optional -> id = r_id package) ->
  package_ok (st_tasks s') (r_id package) package ->
  invariant s'.
Proof.
  intros Hinv Hn Hold Hnone Hpk Hnot Hadv Hphase Hwait Hok.
  assert (Hfresh : forall m meta, ~ waiting_at (st_tasks s) m (r_id package) meta).
  { intros m meta (t & required & optional & Hm & Hw). pose proof (inv_phase _ Hinv _ _ Hm) as Hpok.
    rewrite Hw in Hpok. destruct Hpok as (_ & Hsome & _). congruence. }
  apply (invariant_advance s _ n task phase); try done.
  - intros m id meta _ Hw. rewrite Hpk, lookup_insert_ne; [done|]. intros <-. by eapply Hfresh.
  - intros id meta required optional m meta' Heq _. rewrite (Hwait _ _ _ _ Heq). apply Hfresh.
  - intros id p. rewrite Hpk, lookup_insert_Some. intros [[<- <-]|[_ Hp]]; [done|].
    eapply (package_ok_advance n task); [done|exact Hadv| |by apply (inv_package _ Hinv)].
    intros meta required optional. apply Hold.
  - intros id p. rewrite Hpk, Hnot, lookup_insert_Some. setoid_rewrite elem_of_app.
    intros [[<- <-]|[_ Hp]]; [exists package; set_solver|].
    destruct (inv_notified _ Hinv _ _ Hp) as (a & ? & ?). eauto.
Qed.

Lemma spawned_ok tasks questions rest :
  calls_ok (tasks ++ (start <$> questions) ++ rest) (spawned (length tasks) questions) questions.
Proof.
  unfold calls_ok, spawned. apply Forall2_same_length_lookup. split; [by rewrite length_imap|].
  intros i call q Hcall Hq. rewrite list_lookup_imap, Hq in Hcall. injection Hcall as <-. cbn.
  split; [done|]. exists (start q). split; [|done].
  rewrite lookup_app_r by lia. replace (length tasks + i - length tasks) with i by lia.
  apply lookup_app_l_Some. by rewrite list_lookup_fmap, Hq.
Qed.

Lemma invariant_step_importing s s' n q seed_id stack inserted :
  invariant s ->
  st_tasks s !! n = Some {| t_question := q; t_phase := Importing seed_id stack inserted |} ->
  step_phase n q (Importing seed_id stack inserted) s = Some s' -> invariant s'.
Proof.
  intros Hinv Hn. pose proof (inv_phase _ Hinv _ _ Hn) as (graph & Hgraph & Hsd).
  cbn [t_question t_phase] in Hsd. cbn [step_phase].
  destruct stack as [|current stack].
  { intros [= <-]. eapply invariant_goto; [done..|]. intros. right. by exists graph. }
  case_decide as Hins.
  { intros [= <-]. eapply invariant_goto; [done..|]. intros. by exists graph. }
  rewrite Hgraph. cbn [mbind option_bind].
  destruct (g_packages graph !! current) as [package|] eqn:Hpk;
    [|intros [= <-]; by eapply invariant_goto].
  destruct (insert_missing_cases (st_packages s) package) as [[-> _]|[-> Hnone]]; intros [= <-].
  - eapply invariant_goto; [done..|]. intros. by exists graph.
  - pose proof (Hseed _ Hgraph _ _ Hpk) as Hid.
    eapply invariant_insert; [done..| | | |].
    + by apply (set_phase_advance n _ _ _ Hn).
    + by exists graph.
    + done.
    + left. left. exists graph. by rewrite Hid.
Qed.

Lemma invariant_step_inserting s s' n q id meta :
  invariant s ->
  st_tasks s !! n = Some {| t_question := q; t_phase := Inserting id meta |} ->
  step_phase n q (Inserting id meta) s = Some s' -> invariant s'.
Proof.
  intros Hinv Hn. pose proof (inv_phase _ Hinv _ _ Hn) as Hchoose. cbn in Hchoose.
  cbn [step_phase]. destruct (insert_missing_cases (st_packages s) (build_placeholder id meta))
    as [[-> _]|[-> Hnone]]; intros [= <-].
  { eapply invariant_goto; [done..|]. intros. left. eauto. }
  eapply invariant_insert with (package := build_placeholder id meta); [done..| | | |]; cbn [st_tasks st_packages].
  - apply advance_app; [by apply (set_phase_advance n _ _ _ Hn)|].
    apply Forall_app. split; apply Forall_fmap, Forall_true; done.
  - split_and!; [done|by rewrite lookup_insert_eq| |].
    + pose proof (spawned_ok (set_phase n (Waiting id meta
        (spawned (length (st_tasks s)) (required_questions id meta))
        (spawned (length (st_tasks s) + length (required_questions id meta)) (optional_questions id meta)))
        (st_tasks s)) (required_questions id meta) (start <$> optional_questions id meta)) as Hsp.
      unfold set_phase in Hsp |- *. by rewrite length_alter in Hsp.
    + pose proof (spawned_ok (set_phase n (Waiting id meta
        (spawned (length (st_tasks s)) (required_questions id meta))
        (spawned (length (st_tasks s) + length (required_questions id meta)) (optional_questions id meta)))
        (st_tasks s) ++ (start <$> required_questions id meta)) (optional_questions id meta) []) as Hsp.
      unfold set_phase in Hsp |- *.
      by rewrite length_app, length_alter, length_fmap, app_nil_r, <-(assoc_L app) in Hsp.
  - by intros ? ? ? ? [= <- _ _ _].
  - right. exists n, meta. split; [|done].
    eexists {| t_question := q; t_phase := _ |}, _, _. split; [|reflexivity].
    apply lookup_app_l_Some. by apply (set_phase_advance n _ _ _ Hn).
Qed.

Lemma invariant_step_waiting s s' n q id meta required optional :
  invariant s ->
  st_tasks s !! n = Some {| t_question := q; t_phase := Waiting id meta required optional |} ->
  step_phase n q (Waiting id meta required optional) s = Some s' -> invariant s'.
Proof.
  intros Hinv Hn. pose proof (inv_phase _ Hinv _ _ Hn) as (Hchoose & Hplace & Hreq & Hopt).
  cbn [t_question t_phase] in *. cbn [step_phase].
  assert (Hother : forall m id' meta', m <> n -> waiting_at (st_tasks s) m id' meta' -> id' <> id).
  { intros m id' meta' Hne Hw ->. apply Hne. eapply (inv_unique _ Hinv); [done|].
    eexists _, _, _. split; [exact Hn|done]. }
  assert (Hpkg : forall phase id' p, id' <> id -> st_packages s !! id' = Some p ->
    package_ok (set_phase n phase (st_tasks s)) id' p).
  { intros phase id' p Hne Hp. eapply (package_ok_advance n);
      [exact Hn|by apply (set_phase_advance n _ _ _ Hn)|intros ? ? ? [= Heq _ _ _]; by apply Hne|by apply (inv_package _ Hinv)]. }
  destruct (outcomes (st_tasks s) required) as [required_results|] eqn:Hr; [|done]. cbn [mbind option_bind].
  destruct (outcomes (st_tasks s) optional) as [optional_results|] eqn:Ho; [|done]. cbn [mbind option_bind].
  pose proof (outcomes_ok answered _ _ _ _ (invariant_finished _ Hinv) Hreq Hr) as Hrr.
  pose proof (outcomes_ok answered _ _ _ _ (invariant_finished _ Hinv) Hopt Ho) as Hoo.
  destruct (required_outcome required_results) as [dependencies|e] eqn:Hdeps; intros [= <-].
  - destruct (required_outcome_ok _ _ _ _ Hrr Hdeps) as [Hsound Hcomplete].
    destruct (add_optional_ok _ _ _ dependencies Hoo) as [Hsound' Hmore].
    unfold update_dependencies.
    eapply invariant_advance; [done|exact Hn|by apply (set_phase_advance n _ _ _ Hn)| | | | |]; cbn.
    + left. eauto.
    + intros m id' meta' Hne Hw. apply lookup_alter_ne. apply not_eq_sym. by eapply Hother.
    + done.
    + intros id' p. destruct (decide (id' = id)) as [->|Hne].
      * rewrite lookup_alter_eq, Hplace. intros [= <-]. left. right. exists q, meta, (add_optional dependencies optional_results).
        split_and!; [done..| |].
        -- intros name dep Hdep. setoid_rewrite elem_of_app.
           destruct (Hsound' _ _ Hdep) as [Hd|?]; [destruct (Hsound _ _ Hd)|]; naive_solver.
        -- intros q' Hq'. by apply Hmore, Hcomplete.
      * rewrite lookup_alter_ne by done. by apply Hpkg.
    + intros id' p Hp. assert (is_Some (st_packages s !! id')) as [p' Hp'].
      { destruct (decide (id' = id)) as [->|]; [by rewrite Hplace|].
        rewrite lookup_alter_ne in Hp by done. by rewrite Hp. }
      by apply (inv_notified _ Hinv) in Hp'.
  - eapply invariant_advance; [done|exact Hn|by apply (set_phase_advance n _ _ _ Hn)| | | | |]; cbn.
    + done.
    + intros m id' meta' Hne Hw. apply lookup_delete_ne. apply not_eq_sym. by eapply Hother.
    + done.
    + intros id' p [Hne Hp]%lookup_delete_Some. by apply Hpkg.
    + intros id' p [_ Hp]%lookup_delete_Some. by apply (inv_notified _ Hinv) in Hp.
Qed.

Lemma invariant_step n s s' : invariant s -> step n s = Some s' -> invariant s'.
Proof.
  intros Hinv Hstep. unfold step in Hstep. apply bind_Some in Hstep as ([q phase] & Hn & Hstep).
  cbn [t_question t_phase] in Hstep.
  destruct phase as [|seed_id stack inserted| |id meta|id meta required optional|]; [|..|done].
  - cbn [step_phase] in Hstep.
    destruct (existing_graph ← rc_existing_graph ctx; _) as [seed_id|] eqn:Hsd; injection Hstep as <-.
    + eapply invariant_goto; [done..|]. intros ? ?.
      apply bind_Some in Hsd as (graph & Hgraph & (id & Hid & Hc)%bind_Some).
      destruct (seeded_subgraph_complete id graph); [|done]. injection Hc as <-. by exists graph.
    + by eapply invariant_goto.
  - by eapply invariant_step_importing.
  - cbn [step_phase] in Hstep. destruct (choose q) as [[id meta]|e] eqn:Hc.
    + case_decide; injection Hstep as <-; eapply invariant_goto; try done.
      intros ? ?. left. eauto.
    + injection Hstep as <-. by eapply invariant_goto.
  - by eapply invariant_step_inserting.
  - by eapply invariant_step_waiting.
Qed.

Lemma run_None schedule : foldl (fun s n => s ← s; step n s) None schedule = None.
Proof. induction schedule; done. Qed.

Lemma run_invariant (P : State -> Prop) schedule s s' :
  (forall n s s', P s -> step n s = Some s' -> P s') ->
  P s -> run schedule s = Some s' -> P s'.
Proof.
  intros Hstep. unfold run. revert s. induction schedule as [|n schedule IH]; intros s Hs; cbn [foldl].
  { by intros [= <-]. }
  cbn [mbind option_bind]. destruct (step n s) as [s1|] eqn:Hn; [|by rewrite run_None].
  apply IH. by eapply Hstep.
Qed.

Lemma init_tasks root_deps root_protocols n task :
  st_tasks (init root_deps root_protocols) !! n = Some task -> t_phase task = Start.
Proof.
  cbn. rewrite list_lookup_fmap. intros ([name range] & _ & ->)%fmap_Some. done.
Qed.

Lemma invariant_init root_deps root_protocols : invariant (init root_deps root_protocols).
Proof.
  split.
  - intros n task Hn%init_tasks. by rewrite Hn.
  - intros n m id meta meta' (t & ? & ? & Hn%init_tasks & Hw). congruence.
  - intros id package. cbn. by rewrite lookup_empty.
  - intros id package. cbn. by rewrite lookup_empty.
Qed.

Lemma all_finished_spec s n task :
  all_finished s = true -> st_tasks s !! n = Some task -> exists outcome, t_phase task = Finished outcome.
Proof.
  unfold all_finished. rewrite forallb_true. intros Hall Hn.
  specialize (Hall task (list_elem_of_lookup_2 _ _ _ Hn)). destruct (t_phase task); eauto; done.
Qed.

Lemma finished_packages root_deps root_protocols schedule s :
  run schedule (init root_deps root_protocols) = Some s -> all_finished s = true ->
  forall id package, st_packages s !! id = Some package ->
    resolved_package id package /\ exists announced, announced ∈ st_notified s /\ r_id announced = id.
Proof.
  intros Hrun Hall id package Hp.
  pose proof (run_invariant invariant schedule _ _ invariant_step (invariant_init _ _) Hrun) as Hinv.
  split; [|by apply (inv_notified _ Hinv) in Hp].
  destruct (inv_package _ Hinv _ _ Hp) as [?|(n & meta & (t & required & optional & Hn & Hw) & _)]; [done|].
  destruct (all_finished_spec _ _ _ Hall Hn) as [outcome Ho]. congruence.
Qed.

(** ** Lemmas: the shape of a step *)
Definition phase_calls (phase : Phase) : list (string * nat) :=
  match phase with Waiting _ _ required optional => required ++ optional | _ => [] end.

Lemma spawned_bound first questions call :
  call ∈ spawned first questions -> first <= call.2 < first + length questions.
Proof.
  unfold spawned. intros (i & q & -> & Hi)%elem_of_lookup_imap. cbn.
  apply lookup_lt_Some in Hi. lia.
Qed.

Lemma step_shape n s s' :
  step n s = Some s' -> exists task phase new,
    st_tasks s !! n = Some task /\ (forall outcome, t_phase task <> Finished outcome) /\
    st_tasks s' = set_phase n phase (st_tasks s) ++ new /\
    Forall (fun task => t_phase task = Start) new /\
    forall call, call ∈ phase_calls phase -> length (st_tasks s) <= call.2 < length (st_tasks s').
Proof.
  unfold step. intros ([q phase] & Hn & Hstep)%bind_Some. cbn [t_question t_phase] in Hstep.
  assert (Hsame : forall s0 phase', (forall outcome, phase <> Finished outcome) ->
    st_tasks s0 = set_phase n phase' (st_tasks s) -> phase_calls phase' = [] -> exists task phase' new,
    st_tasks s !! n = Some task /\ (forall outcome, t_phase task <> Finished outcome) /\
    st_tasks s0 = set_phase n phase' (st_tasks s) ++ new /\
    Forall (fun task => t_phase task = Start) new /\
    forall call, call ∈ phase_calls phase' -> length (st_tasks s) <= call.2 < length (st_tasks s0)).
  { intros s0 phase' Hnf Htasks Hnone. eexists _, phase', []. rewrite app_nil_r.
    split_and!; [exact Hn|done|done|done|]. rewrite Hnone. by intros call []%not_elem_of_nil. }
  destruct phase as [|seed_id stack inserted| |id meta|id meta required optional|]; [..|done];
    cbn [step_phase] in Hstep.
  - destruct (_ ≫= _); injection Hstep as <-; by eapply Hsame.
  - destruct stack as [|current stack]; [injection Hstep as <-; by eapply Hsame|].
    case_decide; [injection Hstep as <-; by eapply Hsame|].
    destruct (_ ≫= _) as [package|]; [|injection Hstep as <-; by eapply Hsame].
    destruct (insert_placeholder_if_missing _ _). injection Hstep as <-. by eapply Hsame.
  - destruct (choose q) as [[id meta]|]; [|injection Hstep as <-; by eapply Hsame].
    case_decide; injection Hstep as <-; by eapply Hsame.
  - destruct (insert_placeholder_if_missing _ _) as [packages []]; injection Hstep as <-;
      [|by eapply Hsame].
    eexists _, _, _. split_and!; [exact Hn|done|reflexivity| |].
    + apply Forall_app. split; apply Forall_fmap, Forall_true; done.
    + cbn [phase_calls st_tasks]. unfold set_phase.
      rewrite !length_app, length_alter, !length_fmap.
      intros call [Hc%spawned_bound|Hc%spawned_bound]%elem_of_app; lia.
  - destruct (outcomes _ required) as [rr|]; [|done]. cbn in Hstep.
    destruct (outcomes _ optional) as [oo|]; [|done]. cbn in Hstep.
    destruct (required_outcome rr); injection Hstep as <-; by eapply Hsame.
Qed.

Lemma step_task n s s' m task :
  step n s = Some s' -> st_tasks s !! m = Some task ->
  exists task', st_tasks s' !! m = Some task' /\ t_question task' = t_question task /\
    (forall outcome, t_phase task = Finished outcome -> t_phase task' = Finished outcome).
Proof.
  intros (t & phase & new & Hn & Hnf & -> & _ & _)%step_shape Hm.
  pose proof (advance_app _ _ _ _ _ [] (set_phase_advance n t phase _ Hn) (Forall_nil_2 _)) as Hadv.
  rewrite app_nil_r in Hadv. destruct (decide (m = n)) as [->|Hne].
  - eexists. split; [apply lookup_app_l_Some, Hadv|]. cbn. split; [congruence|].
    intros outcome Ho. assert (task = t) as -> by congruence. by destruct (Hnf outcome).
  - exists task. split; [|done]. by apply lookup_app_l_Some, Hadv.
Qed.

(** The first tasks are the roots, in the order of their names. *)
Definition roots_are (root_deps : gmap string string) (root_protocols : gmap string RegistryProtocol)
    (s : State) : Prop :=
  forall i name range, btree_iter root_deps !! i = Some (name, range) ->
  exists task, st_tasks s !! i = Some task /\ t_question task = root_question root_protocols name range.

Lemma roots_step root_deps root_protocols n s s' :
  roots_are root_deps root_protocols s -> step n s = Some s' -> roots_are root_deps root_protocols s'.
Proof.
  intros Hroots Hstep i name range Hi. destruct (Hroots _ _ _ Hi) as (t & Ht & <-).
  destruct (step_task _ _ _ _ _ Hstep Ht) as (t' & ? & ? & _). eauto.
Qed.

Lemma run_roots root_deps root_protocols schedule s :
  run schedule (init root_deps root_protocols) = Some s -> roots_are root_deps root_protocols s.
Proof.
  apply run_invariant; [by intros; eapply roots_step|].
  intros i name range Hi. cbn. rewrite list_lookup_fmap, Hi. cbn. eauto.
Qed.

Lemma root_outcome_spec optional_root_names roots root :
  root_outcome optional_root_names roots = Ok root ->
  (forall name dep, root !! name = Some dep -> exists range task id, ((name, range), task) ∈ roots /\
     t_phase task = Finished (Ok id) /\ dep = {| rd_requested := range; rd_resolved := id |}) /\
  (forall name range task outcome, ((name, range), task) ∈ roots -> t_phase task = Finished outcome ->
     name ∉ optional_root_names -> is_Some (root !! name)).
Proof.
  unfold root_outcome. revert root.
  induction roots as [|[[name range] task] roots IH] using rev_ind; intros root.
  { intros [= <-]. split; [intros ? ?; by rewrite lookup_empty|by intros ? ? ? ? []%not_elem_of_nil]. }
  rewrite try_fold_app. intros (root0 & Hroot0 & Hlast)%result_bind_Ok.
  destruct (IH _ Hroot0) as [Hl1 Hl2]. cbn in Hlast. setoid_rewrite elem_of_app.
  assert (Hkeep : root = root0 -> (forall name' dep, root !! name' = Some dep ->
     exists range' task' id, (((name', range'), task') ∈ roots \/ ((name', range'), task') ∈ [((name, range), task)])
       /\ t_phase task' = Finished (Ok id) /\ dep = {| rd_requested := range'; rd_resolved := id |})).
  { intros -> name' dep Hdep. destruct (Hl1 _ _ Hdep) as (r & t & i & ? & ? & ?). eauto 10. }
  destruct (t_phase task) as [| | | | |[id|error]] eqn:Hphase; cbn in Hlast.
  1-5: injection Hlast as <-; split; [by apply Hkeep|];
    intros name' range' task' outcome [Hin|Hin] Ho Hno; [by eapply Hl2|];
    apply list_elem_of_singleton in Hin; congruence.
  - injection Hlast as <-. split.
    + intros name' dep [[<- <-]|[_ Hdep]]%lookup_insert_Some.
      * exists range, task, id. split_and!; [right; by left|done|done].
      * destruct (Hl1 _ _ Hdep) as (r & t & i & ? & ? & ?). eauto 10.
    + intros name' range' task' outcome [Hin|Hin] Ho Hno.
      * destruct (decide (name = name')) as [->|]; [by rewrite lookup_insert_eq|].
        rewrite lookup_insert_ne by done. by eapply Hl2.
      * apply list_elem_of_singleton in Hin. injection Hin as -> -> ->. by rewrite lookup_insert_eq.
  - case_decide as Hopt; [|done]. cbn in Hlast. injection Hlast as <-. split; [by apply Hkeep|].
    intros name' range' task' outcome [Hin|Hin] Ho Hno; [by eapply Hl2|].
    apply list_elem_of_singleton in Hin. by injection Hin as -> -> ->.
Qed.

Lemma finish_graph root_deps optional_root_names on_package s graph :
  finish root_deps optional_root_names on_package s = Ok graph ->
  g_packages graph = st_packages s /\
  root_outcome optional_root_names (zip (btree_iter root_deps) (st_tasks s)) = Ok (g_root graph) /\
  (rc_strict_peers ctx = true -> validate_peers graph = Ok tt) /\
  run_prefetcher on_package s = Ok tt.
Proof.
  unfold finish. intros (root & Hroot & ([] & Hpeers & ([] & Hpre & [= <-])%result_bind_Ok)%result_bind_Ok)%result_bind_Ok.
  split_and!; try done. intros Hstrict. rewrite Hstrict in Hpeers.
  by destruct (validate_peers _) as [[]|].
Qed.

Lemma finished_roots root_deps root_protocols optional_root_names schedule s root :
  run schedule (init root_deps root_protocols) = Some s -> all_finished s = true ->
  root_outcome optional_root_names (zip (btree_iter root_deps) (st_tasks s)) = Ok root ->
  (forall name dep, root !! name = Some dep -> exists task,
     root_deps !! name = Some (rd_requested dep) /\ task ∈ st_tasks s /\
     t_question task = root_question root_protocols name (rd_requested dep) /\
     t_phase task = Finished (Ok (rd_resolved dep))) /\
  (forall name range, root_deps !! name = Some range -> name ∉ optional_root_names ->
     is_Some (root !! name)).
Proof.
  intros Hrun Hall Hroot. destruct (root_outcome_spec _ _ _ Hroot) as [Hl1 Hl2].
  pose proof (run_roots _ _ _ _ Hrun) as Hroots. split.
  - intros name dep Hdep. destruct (Hl1 _ _ Hdep) as (range & task & id & Hin & Hphase & ->).
    apply list_elem_of_lookup in Hin as (i & Hi). rewrite lookup_zip_with in Hi.
    apply bind_Some in Hi as ([name' range'] & Hi & (task' & Ht & Heq)%bind_Some).
    injection Heq as <- <- <-. destruct (Hroots _ _ _ Hi) as (t & Ht' & Hq).
    assert (t = task') as -> by congruence. exists task'. cbn.
    split_and!; [|by eapply list_elem_of_lookup_2|done|done].
    apply elem_of_btree_iter. by eapply list_elem_of_lookup_2.
  - intros name range Hrange Hno. apply elem_of_btree_iter, list_elem_of_lookup in Hrange as (i & Hi).
    destruct (Hroots _ _ _ Hi) as (t & Ht & Hq).
    destruct (all_finished_spec _ _ _ Hall Ht) as [outcome Ho].
    apply (Hl2 name range t outcome); [|done|done].
    apply (list_elem_of_lookup_2 _ i). by rewrite lookup_zip_with, Hi; cbn; rewrite Ht.
Qed.

(** C1: Whatever the interleaving of the calls, a resolution that succeeds
    answers the manifest: every root that is not optional is in the graph, every
    root is resolved by the registry's choice for its range (or by a seed that
    satisfies it), and every package is either a seed as it was or built from
    the metadata chosen for its id, with an edge for every required dependency,
    each edge answering the question the metadata asks. *)
Theorem resolution_sound root_deps root_protocols optional_root_names on_package schedule s graph :
  run schedule (init root_deps root_protocols) = Some s -> all_finished s = true ->
  finish root_deps optional_root_names on_package s = Ok graph ->
  (forall name range, root_deps !! name = Some range -> name ∉ optional_root_names ->
     is_Some (g_root graph !! name)) /\
  (forall name dep, g_root graph !! name = Some dep ->
     root_deps !! name = Some (rd_requested dep) /\
     answered (root_question root_protocols name (rd_requested dep)) (rd_resolved dep)) /\
  (forall id package, g_packages graph !! id = Some package -> resolved_package id package).
Proof.
  intros Hrun Hall (Hpk & Hroot & _)%finish_graph.
  destruct (finished_roots _ _ _ _ _ _ Hrun Hall Hroot) as [Hl1 Hl2]. split_and!; [done| |].
  - intros name dep Hdep. destruct (Hl1 _ _ Hdep) as (task & Hrange & Hin & <- & Hphase).
    split; [done|]. apply list_elem_of_lookup in Hin as (i & Hi).
    pose proof (run_invariant invariant schedule _ _ invariant_step (invariant_init _ _) Hrun) as Hinv.
    by eapply invariant_finished.
  - intros id package. rewrite Hpk. by eapply finished_packages.
Qed.

(** ** Without a failing call no edge dangles *)
Definition no_failure (s : State) : Prop :=
  forall n task e, st_tasks s !! n = Some task -> t_phase task <> Finished (Err e).

Definition importing_at (tasks : list Task) (id : PackageId) : Prop :=
  exists n task seed_id stack inserted, tasks !! n = Some task /\
    t_phase task = Importing seed_id stack inserted /\ id ∈ stack.

Definition phase_closed (packages : gmap PackageId ResolvedPackage) (phase : Phase) : Prop :=
  match phase with
  | Finished (Ok id) => is_Some (packages !! id)
  | Importing seed_id stack inserted =>
      (forall id, id ∈ inserted -> is_Some (packages !! id)) /\
      (seed_id ∈ inserted \/ seed_id ∈ stack) /\
      exists graph, rc_existing_graph ctx = Some graph /\
        forall a b, a ∈ stack -> rtc (edge (dependency_ids graph)) a b ->
          is_Some (dependency_ids graph b)
  | _ => True
  end.

Record closed (s : State) : Prop := {
  cl_phase n task : st_tasks s !! n = Some task -> phase_closed (st_packages s) (t_phase task);
  cl_deps id package name dep : st_packages s !! id = Some package ->
    r_dependencies package !! name = Some dep ->
    is_Some (st_packages s !! dep) \/ importing_at (st_tasks s) dep;
}.

Lemma phase_closed_mono packages packages' phase :
  (forall id, is_Some (packages !! id) -> is_Some (packages' !! id)) ->
  phase_closed packages phase -> phase_closed packages' phase.
Proof. intros Hmono. destruct phase as [| | | | |[]]; cbn; naive_solver. Qed.

(** The general step: packages only appear, and what the stack of the task held
    is in the map or still on its stack. *)
Lemma closed_advance s s' n task phase :
  closed s -> st_tasks s !! n = Some task ->
  advance n (t_question task) phase (st_tasks s) (st_tasks s') ->
  (forall id, is_Some (st_packages s !! id) -> is_Some (st_packages s' !! id)) ->
  phase_closed (st_packages s') phase ->
  (forall seed_id stack inserted id, t_phase task = Importing seed_id stack inserted -> id ∈ stack ->
     is_Some (st_packages s' !! id) \/ importing_at (st_tasks s') id) ->
  (forall id package name dep, st_packages s' !! id = Some package ->
     r_dependencies package !! name = Some dep ->
     st_packages s !! id = Some package \/ is_Some (st_packages s' !! dep) \/
     importing_at (st_tasks s') dep) ->
  closed s'.
Proof.
  intros Hcl Hn Hadv Hmono Hphase Hstack Hdeps. split.
  - intros m t Hm. destruct (decide (m = n)) as [->|Hne].
    { rewrite (adv_at _ _ _ _ _ Hadv) in Hm. by injection Hm as <-. }
    destruct (adv_new _ _ _ _ _ Hadv _ _ Hne Hm) as [Hold|Hs]; [|by rewrite Hs].
    eapply phase_closed_mono; [done|]. by eapply cl_phase.
  - intros id package name dep Hp Hdep. destruct (Hdeps _ _ _ _ Hp Hdep) as [Hold|?]; [|done].
    destruct (cl_deps _ Hcl _ _ _ _ Hold Hdep) as [?|(m & t & seed_id & stack & inserted & Hm & Ht & Hin)];
      [left; auto|].
    destruct (decide (m = n)) as [->|Hne].
    + rewrite Hn in Hm. injection Hm as <-. by eapply Hstack.
    + right. exists m, t, seed_id, stack, inserted. split; [by apply Hadv|done].
Qed.

Lemma seeded_subgraph_complete_spec id graph :
  seeded_subgraph_complete id graph = true <->
  forall k, rtc (edge (dependency_ids graph)) id k -> is_Some (dependency_ids graph k).
Proof.
  unfold seeded_subgraph_complete.
  destruct (dfs_spec (dependency_ids graph) (btree_keys (g_packages graph)) [id] (seed_fuel graph))
    as (answer & -> & Hanswer).
  - apply NoDup_btree_keys.
  - intros k Hk. apply elem_of_btree_keys. unfold dependency_ids in Hk. by rewrite fmap_is_Some in Hk.
  - done.
  - cbn. rewrite Hanswer. split; [intros Hall k; apply Hall; by left|].
    intros Hall a k ->%list_elem_of_singleton. apply Hall.
Qed.

(** A seed is reused exactly when everything reachable from it is in the
    graph of the previous install; the search for it ends. *)
Theorem seeded_subgraph_complete_iff id graph :
  seeded_subgraph_complete id graph = true <->
  forall k, rtc (edge (dependency_ids graph)) id k -> is_Some (dependency_ids graph k).
Proof. apply seeded_subgraph_complete_spec. Qed.

Lemma closed_step_importing s s' n q seed_id stack inserted :
  closed s ->
  st_tasks s !! n = Some {| t_question := q; t_phase := Importing seed_id stack inserted |} ->
  step_phase n q (Importing seed_id stack inserted) s = Some s' -> closed s'.
Proof.
  intros Hcl Hn. pose proof (cl_phase _ Hcl _ _ Hn) as (Hins & Hsd & graph & Hgraph & Hall).
  cbn [step_phase]. pose proof (fun phase => set_phase_advance n _ phase _ Hn) as Hadv.
  destruct stack as [|current stack].
  { intros [= <-]. eapply closed_advance; [done|exact Hn|apply Hadv|done| | |by left].
    - cbn. destruct Hsd as [?|[]%not_elem_of_nil]. auto.
    - intros ? ? ? ? [= _ <- _] []%not_elem_of_nil. }
  assert (Hstay : forall (s0 : State) more inserted' id, id ∈ stack ->
    st_tasks s0 = set_phase n (Importing seed_id (more ++ stack) inserted') (st_tasks s) ->
    importing_at (st_tasks s0) id).
  { intros s0 more inserted' id Hid ->. eexists n, _, _, _, _. split; [apply Hadv|].
    split; [reflexivity|]. set_solver. }
  case_decide as Hcur.
  { intros [= <-]. eapply closed_advance; [done|exact Hn|apply Hadv|done| | |by left].
    - split; [done|]. split; [set_solver|]. exists graph. split; [done|]. intros a b Ha. apply Hall. by right.
    - intros ? ? ? id [= _ <- _] [->|Hid]%elem_of_cons; [left; by apply Hins|right].
      by eapply (Hstay _ []). }
  rewrite Hgraph. cbn [mbind option_bind].
  assert (is_Some (dependency_ids graph current)) as [ids Hids] by (eapply Hall; [by left|done]).
  unfold dependency_ids in Hids. destruct (g_packages graph !! current) as [package|] eqn:Hpk; [|done].
  pose proof (Hseed _ Hgraph _ _ Hpk) as Hid.
  assert (Hedge : forall d, d ∈ btree_values (r_dependencies package) -> edge (dependency_ids graph) current d).
  { intros d Hd. exists (btree_values (r_dependencies package)). split; [|done].
    unfold dependency_ids. by rewrite Hpk. }
  assert (Hfin : forall packages notified, (packages = st_packages s /\ is_Some (st_packages s !! current) \/
      packages = <[current := package]> (st_packages s)) ->
    closed {| st_packages := packages; st_notified := notified;
      st_tasks := set_phase n (Importing seed_id (reverse (btree_values (r_dependencies package)) ++ stack)
        ({[current]} ∪ inserted)) (st_tasks s) |}).
  { intros packages notified Hpackages.
    assert (Hmono : forall id, is_Some (st_packages s !! id) -> is_Some (packages !! id)).
    { intros id. destruct Hpackages as [[-> _]| ->]; [done|].
      destruct (decide (current = id)) as [->|]; [by rewrite lookup_insert_eq|by rewrite lookup_insert_ne]. }
    assert (is_Some (packages !! current)) as Hhere.
    { destruct Hpackages as [[-> ?]| ->]; [done|]. by rewrite lookup_insert_eq. }
    eapply closed_advance; [done|exact Hn|apply Hadv|exact Hmono| | |]; cbn [st_packages st_tasks].
    - split; [|split].
      + intros id [->%elem_of_singleton|?]%elem_of_union; auto.
      + set_solver.
      + exists graph. split; [done|]. intros a b [Ha|Ha]%elem_of_app Hab; [|apply (Hall a b); [by right|done]].
        rewrite elem_of_reverse in Ha. apply (Hall current); [by left|].
        eapply rtc_l; [by apply Hedge|done].
    - intros ? ? ? id [= _ <- _] [->|Hin]%elem_of_cons; [by left|right].
      eexists n, _, _, _, _. split; [apply Hadv|]. split; [reflexivity|]. set_solver.
    - intros id p name dep Hp Hdep. destruct Hpackages as [[-> _]| ->]; [by left|].
      apply lookup_insert_Some in Hp as [[<- <-]|[_ ?]]; [right; right|by left].
      eexists n, _, _, _, _. split; [apply Hadv|]. split; [reflexivity|].
      apply elem_of_app. left. rewrite elem_of_reverse. apply elem_of_btree_values. eauto. }
  destruct (insert_missing_cases (st_packages s) package) as [[-> Hsome]|[-> Hnone]]; intros [= <-];
    rewrite Hid in *; apply Hfin; auto.
Qed.

Lemma closed_step_waiting s s' n q id meta required optional :
  invariant s -> closed s ->
  st_tasks s !! n = Some {| t_question := q; t_phase := Waiting id meta required optional |} ->
  step_phase n q (Waiting id meta required optional) s = Some s' -> no_failure s' -> closed s'.
Proof.
  intros Hinv Hcl Hn Hstep Hnf. pose proof (inv_phase _ Hinv _ _ Hn) as (_ & Hplace & Hreq & Hopt).
  cbn [t_question t_phase] in *. cbn [step_phase] in Hstep.
  pose proof (fun phase => set_phase_advance n _ phase _ Hn) as Hadv.
  destruct (outcomes (st_tasks s) required) as [required_results|] eqn:Hr; [|done].
  destruct (outcomes (st_tasks s) optional) as [optional_results|] eqn:Ho; [|done]. cbn in Hstep.
  assert (Hhere : forall m task id', st_tasks s !! m = Some task -> t_phase task = Finished (Ok id') ->
    is_Some (st_packages s !! id')).
  { intros m task id' Hm Hphase. pose proof (cl_phase _ Hcl _ _ Hm) as Hok. by rewrite Hphase in Hok. }
  pose proof (outcomes_ok (fun _ id' => is_Some (st_packages s !! id')) _ _ _ _ Hhere Hreq Hr) as Hrr.
  pose proof (outcomes_ok (fun _ id' => is_Some (st_packages s !! id')) _ _ _ _ Hhere Hopt Ho) as Hoo.
  destruct (required_outcome required_results) as [dependencies|e] eqn:Hdeps; injection Hstep as <-.
  - destruct (required_outcome_ok _ _ _ _ Hrr Hdeps) as [Hsound _].
    destruct (add_optional_ok _ _ _ dependencies Hoo) as [Hsound' _].
    assert (Hmono : forall id', is_Some (st_packages s !! id') ->
      is_Some (update_dependencies (st_packages s) id (add_optional dependencies optional_results) !! id')).
    { intros id'. unfold update_dependencies. destruct (decide (id' = id)) as [->|].
      - by rewrite lookup_alter_eq, fmap_is_Some.
      - by rewrite lookup_alter_ne. }
    eapply closed_advance; [done|exact Hn|apply Hadv|exact Hmono| | |]; cbn [st_packages].
    + apply Hmono. by rewrite Hplace.
    + done.
    + intros id' p name dep Hp Hdep. unfold update_dependencies in Hp.
      destruct (decide (id' = id)) as [->|]; [|rewrite lookup_alter_ne in Hp by done; by left].
      rewrite lookup_alter_eq, Hplace in Hp. injection Hp as <-. cbn in Hdep. right. left. apply Hmono.
      destruct (Hsound' _ _ Hdep) as [Hd|(? & _ & _ & ?)]; [|done].
      by destruct (Hsound _ _ Hd) as (? & _ & _ & ?).
  - exfalso. eapply (Hnf n _ e); [apply Hadv|done].
Qed.

Lemma closed_step n s s' :
  invariant s -> closed s -> step n s = Some s' -> no_failure s' -> closed s'.
Proof.
  intros Hinv Hcl Hstep Hnf. unfold step in Hstep. apply bind_Some in Hstep as ([q phase] & Hn & Hstep).
  cbn [t_question t_phase] in Hstep.
  pose proof (fun phase => set_phase_advance n _ phase _ Hn) as Hadv. cbn [t_question] in Hadv.
  assert (Hgoto : forall phase', (forall seed_id stack inserted, phase <> Importing seed_id stack inserted) ->
    phase_closed (st_packages s) phase' ->
    closed {| st_packages := st_packages s; st_notified := st_notified s;
              st_tasks := set_phase n phase' (st_tasks s) |}).
  { intros phase' Hni Hok. eapply closed_advance; [done|exact Hn|apply Hadv|done|done| |by left].
    intros seed_id stack inserted id Heq. by destruct (Hni seed_id stack inserted). }
  destruct phase as [|seed_id stack inserted| |id meta|id meta required optional|]; [|..|done].
  - cbn [step_phase] in Hstep.
    destruct (rc_existing_graph ctx ≫= _) as [seed_id|] eqn:Hsd; injection Hstep as <-; apply Hgoto; try done.
    apply bind_Some in Hsd as (graph & Hgraph & (id & Hid & Hc)%bind_Some).
    destruct (seeded_subgraph_complete id graph) eqn:Hcomplete; [|done]. injection Hc as ->.
    rewrite seeded_subgraph_complete_spec in Hcomplete.
    split; [set_solver|]. split; [right; by left|]. exists graph. split; [done|].
    intros a b ->%list_elem_of_singleton Hab. by apply Hcomplete.
  - by eapply closed_step_importing.
  - cbn [step_phase] in Hstep. destruct (choose q) as [[id meta]|e].
    + case_decide; injection Hstep as <-; by apply Hgoto.
    + injection Hstep as <-. exfalso. eapply (Hnf n _ e); [apply Hadv|done].
  - cbn [step_phase] in Hstep. destruct (insert_missing_cases (st_packages s) (build_placeholder id meta))
      as [[Heq Hsome]|[Heq Hnone]]; rewrite Heq in Hstep; injection Hstep as <-; [by apply Hgoto|].
    eapply closed_advance; [done|exact Hn| | | | |]; cbn [st_packages st_tasks].
    + apply advance_app; [apply Hadv|]. apply Forall_app. split; apply Forall_fmap, Forall_true; done.
    + intros id'. destruct (decide (id = id')) as [->|]; [by rewrite lookup_insert_eq|by rewrite lookup_insert_ne].
    + done.
    + done.
    + intros id' p name dep [[<- <-]|[_ ?]]%lookup_insert_Some Hdep; [|by left].
      cbn in Hdep. by rewrite lookup_empty in Hdep.
  - by eapply closed_step_waiting.
Qed.

Lemma no_failure_check s :
  forallb (fun task => match t_phase task with Finished (Err _) => false | _ => true end)
    (st_tasks s) = true -> no_failure s.
Proof.
  rewrite forallb_true. intros Hall n task e Hn Hphase.
  specialize (Hall task (list_elem_of_lookup_2 _ _ _ Hn)). by rewrite Hphase in Hall.
Qed.

Lemma no_failure_back n s s' : step n s = Some s' -> no_failure s' -> no_failure s.
Proof.
  intros Hstep Hnf m task e Hm Hphase.
  destruct (step_task _ _ _ _ _ Hstep Hm) as (task' & Hm' & _ & Hfin). eapply Hnf; eauto.
Qed.

Lemma run_closed root_deps root_protocols schedule s :
  run schedule (init root_deps root_protocols) = Some s -> no_failure s -> invariant s /\ closed s.
Proof.
  apply (run_invariant (fun s => no_failure s -> invariant s /\ closed s)).
  - intros n s0 s1 IH Hstep Hnf. destruct (IH (no_failure_back _ _ _ Hstep Hnf)) as [Hinv Hcl].
    split; [by eapply invariant_step|by eapply closed_step].
  - intros _. split; [apply invariant_init|]. split.
    + intros n task Hn%init_tasks. by rewrite Hn.
    + intros id package name dep. cbn. by rewrite lookup_empty.
Qed.

(** C7: When no call fails, nothing dangles: every root and every dependency of
    every package, of new packages and of imported seeds alike, is a package of
    the graph, for every interleaving. *)
Theorem resolution_closed root_deps root_protocols optional_root_names on_package schedule s graph :
  run schedule (init root_deps root_protocols) = Some s -> all_finished s = true -> no_failure s ->
  finish root_deps optional_root_names on_package s = Ok graph ->
  (forall name dep, g_root graph !! name = Some dep -> is_Some (g_packages graph !! rd_resolved dep)) /\
  (forall id package name dep, g_packages graph !! id = Some package ->
     r_dependencies package !! name = Some dep -> is_Some (g_packages graph !! dep)).
Proof.
  intros Hrun Hall Hnf (Hpk & Hroot & _)%finish_graph. rewrite Hpk.
  destruct (run_closed _ _ _ _ Hrun Hnf) as [_ Hcl]. split.
  - intros name dep Hdep.
    destruct (finished_roots _ _ _ _ _ _ Hrun Hall Hroot) as [Hl1 _].
    destruct (Hl1 _ _ Hdep) as (task & _ & Hin & _ & Hphase).
    apply list_elem_of_lookup in Hin as (i & Hi).
    pose proof (cl_phase _ Hcl _ _ Hi) as Hok. by rewrite Hphase in Hok.
  - intros id package name dep Hp Hdep. destruct (cl_deps _ Hcl _ _ _ _ Hp Hdep)
      as [?|(n & task & seed_id & stack & inserted & Hn & Hphase & _)]; [done|].
    destruct (all_finished_spec _ _ _ Hall Hn) as [outcome Ho]. congruence.
Qed.

(** A resolution that succeeds has handed every package of the graph to the
    install engine, which accepted it; under strict peers it has validated
    the graph. *)
Theorem resolution_announced root_deps root_protocols optional_root_names on_package schedule s graph :
  run schedule (init root_deps root_protocols) = Some s -> all_finished s = true ->
  finish root_deps optional_root_names on_package s = Ok graph ->
  (forall id package, g_packages graph !! id = Some package ->
     exists announced, r_id announced = id /\ on_package announced = Ok tt) /\
  (rc_strict_peers ctx = true -> validate_peers graph = Ok tt).
Proof.
  intros Hrun Hall (Hpk & _ & Hpeers & Hpre)%finish_graph. split; [|done].
  rewrite Hpk. intros id package Hp.
  destruct (finished_packages _ _ _ _ Hrun Hall _ _ Hp) as (_ & announced & Hin & Hid).
  unfold run_prefetcher in Hpre. rewrite try_each_ok, Forall_forall in Hpre. eauto.
Qed.

(** ** No deadlock *)
Definition calls_later (s : State) : Prop :=
  forall n task call, st_tasks s !! n = Some task -> call ∈ phase_calls (t_phase task) ->
  n < call.2 < length (st_tasks s).

Lemma calls_later_step n s s' : calls_later s -> step n s = Some s' -> calls_later s'.
Proof.
  intros Hlater (task & phase & new & Hn & _ & Htasks & Hnew & Hcalls)%step_shape m t call Hm Hcall.
  pose proof (advance_app _ _ _ _ _ new (set_phase_advance n task phase _ Hn) Hnew) as Hadv.
  rewrite <-Htasks in Hadv. destruct (decide (m = n)) as [->|Hne].
  - rewrite (adv_at _ _ _ _ _ Hadv) in Hm. injection Hm as <-. specialize (Hcalls _ Hcall).
    apply lookup_lt_Some in Hn. lia.
  - destruct (adv_new _ _ _ _ _ Hadv _ _ Hne Hm) as [Hold|Hs]; [|rewrite Hs in Hcall; by apply not_elem_of_nil in Hcall].
    specialize (Hlater _ _ _ Hold Hcall). rewrite Htasks. unfold set_phase.
    rewrite length_app, length_alter. lia.
Qed.

Lemma outcomes_finished tasks calls :
  (forall call, call ∈ calls -> exists task outcome, tasks !! call.2 = Some task /\ t_phase task = Finished outcome) ->
  is_Some (outcomes tasks calls).
Proof.
  intros Hall. apply mapM_is_Some. apply Forall_forall. intros [name n] Hin.
  destruct (Hall _ Hin) as (task & outcome & Hn & Ho). cbn in Hn |- *. rewrite Hn. cbn. by rewrite Ho.
Qed.

Lemma last_unfinished tasks :
  forallb (fun task => match t_phase task with Finished _ => true | _ => false end) tasks = false ->
  exists n task, tasks !! n = Some task /\ (forall outcome, t_phase task <> Finished outcome) /\
    forall m task', n < m -> tasks !! m = Some task' -> exists outcome, t_phase task' = Finished outcome.
Proof.
  induction tasks as [|task tasks IH] using rev_ind; [done|]. rewrite forallb_app. cbn.
  destruct (t_phase task) as [| | | | |outcome] eqn:Hphase; cbn; rewrite ?andb_true_r.
  6: { intros Hf. destruct (IH Hf) as (n & t & Hn & Hnf & Hafter). exists n, t.
    split; [by apply lookup_app_l_Some|]. split; [done|].
    intros m t' Hm [Ht|[_ Ht]]%lookup_app_Some; [by eapply Hafter|].
    apply list_lookup_singleton_Some in Ht as [_ <-]. eauto. }
  all: intros _; exists (length tasks), task; rewrite list_lookup_middle by done;
    split; [done|]; split; [intros; congruence|];
    intros m t' Hm Ht%lookup_lt_Some; rewrite length_app in Ht; cbn in Ht; lia.
Qed.

End resolver.

(** ** Witnesses *)
Module ResolverDemo.
Instance linux : Target := {| target_os := "linux"; target_arch := "x86_64"; target_env := "gnu" |}.

Definition release (version : string) (deps optional : list (string * string)) : RegistryVersion := {|
  v_version := version; v_dependencies := list_to_map deps; v_optional_dependencies := list_to_map optional;
  v_peer_dependencies := ∅; v_peer_dependencies_meta := ∅; v_bundled_dependencies := None;
  v_bundle_dependencies := None;
  v_dist := {| dist_tarball := "https://r/p.tgz"; dist_integrity := None |};
  v_os := []; v_cpu := []; v_libc := []; v_bin := None |}.

Definition packument (releases : list RegistryVersion) : RegistryPackage := {|
  rp_versions := list_to_map ((fun r => (v_version r, r)) <$> releases);
  rp_time := ∅; rp_dist_tags := ∅ |}.

(** [a] needs [b] and a package nobody has; [b] needs [a]; [app] needs [lib],
    and [ghost] if it can. *)
Definition packuments : gmap string RegistryPackage := list_to_map [
  ("a", packument [release "1.0.0" [("b", "^1.0.0"); ("nowhere", "^1.0.0")] []]);
  ("b", packument [release "1.0.0" [("a", "^1.0.0")] []]);
  ("app", packument [release "1.0.0" [("lib", "^2.0.0")] [("tool", "^1.0.0")]]);
  ("lib", packument [release "1.9.0" [] []; release "2.1.0" [("app", "^1.0.0")] []]);
  ("tool", packument [release "1.0.0" [] []])].

Instance registry : Registry := {|
  fetch_registry_package := fun source protocol =>
    ok_or (ResolutionFailed source ε "not found") (packuments !! source) |}.

Definition ctx : ResolverContext := {|
  rc_strict_peers := true; rc_min_age_days := None; rc_force := false; rc_overrides := None;
  rc_workspace_sources := None; rc_existing_graph := None |}.

Definition now : @OffsetDateTime day_time := 0%Z.

Definition accept (package : ResolvedPackage) : Result unit := Ok tt.

Definition id (name version : string) : PackageId := {| id_name := name; id_version := version |}.

Lemma no_seed : forall graph, rc_existing_graph ctx = Some graph ->
  forall id package, g_packages graph !! id = Some package -> r_id package = id.
Proof. done. Qed.

(** Two interleaved calls for the roots [app] and [lib]. *)
Definition roots : gmap string string := list_to_map [("app", "^1.0.0"); ("lib", "^2.0.0")].
Definition schedule : list nat := [0; 1; 1; 0; 0; 1; 4; 2; 3; 4; 3; 2; 3; 3; 0; 1].

Definition final : State := default {| st_packages := ∅; st_notified := []; st_tasks := [] |}
  (run now ctx schedule (init roots ∅)).
Definition graph : ResolutionGraph :=
  match finish ctx roots ∅ accept final with Ok graph => graph | Err _ => {| g_root := ∅; g_packages := ∅ |} end.

Example final_run : run now ctx schedule (init roots ∅) = Some final.
Proof. vm_refl. Qed.
Example final_finished : all_finished final = true.
Proof. vm_refl. Qed.
Example final_graph : finish ctx roots ∅ accept final = Ok graph.
Proof. vm_refl. Qed.
Example final_size : size (g_packages graph) = 3.
Proof. vm_refl. Qed.

Lemma final_no_failure : no_failure final.
Proof. apply no_failure_check. vm_refl. Qed.

Lemma resolution_sound_witness :
  (forall name range, roots !! name = Some range -> name ∉ (∅ : gset string) ->
     is_Some (g_root graph !! name)) /\
  (forall name dep, g_root graph !! name = Some dep ->
     roots !! name = Some (rd_requested dep) /\
     answered now ctx (root_question ∅ name (rd_requested dep)) (rd_resolved dep)) /\
  (forall id package, g_packages graph !! id = Some package -> resolved_package now ctx id package).
Proof.
  apply (resolution_sound now ctx no_seed roots ∅ ∅ accept schedule final graph);
    [exact final_run|exact final_finished|exact final_graph].
Defined.

Lemma resolution_closed_witness :
  (forall name dep, g_root graph !! name = Some dep -> is_Some (g_packages graph !! rd_resolved dep)) /\
  (forall id package name dep, g_packages graph !! id = Some package ->
     r_dependencies package !! name = Some dep -> is_Some (g_packages graph !! dep)).
Proof.
  apply (resolution_closed now ctx no_seed roots ∅ ∅ accept schedule final graph);
    [exact final_run|exact final_finished|exact final_no_failure|exact final_graph].
Defined.

Lemma resolution_announced_witness :
  (forall id package, g_packages graph !! id = Some package ->
     exists announced, r_id announced = id /\ accept announced = Ok tt) /\
  (rc_strict_peers ctx = true -> validate_peers graph = Ok tt).
Proof.
  apply (resolution_announced now ctx no_seed roots ∅ ∅ accept schedule final graph);
    [exact final_run|exact final_finished|exact final_graph].
Defined.


(** The optional root [a] fails after [b] was completed with an edge to it. *)
Definition dangling_schedule : list nat := [0; 0; 0; 2; 2; 2; 4; 4; 2; 3; 3; 0; 1; 1].
Definition dangling_roots : gmap string string := list_to_map [("a", "^1.0.0"); ("b", "^1.0.0")].

(** A failing optional dependency can leave a dangling edge in a resolution
    that succeeds, with no concurrency: here the calls run one after the
    other, the required root [b] is in the graph, and the package it requires
    is not. *)
Theorem optional_failure_dangles :
  exists s graph package,
    run now ctx dangling_schedule (init dangling_roots ∅) = Some s /\ all_finished s = true /\
    finish ctx dangling_roots {["a"]} accept s = Ok graph /\
    g_root graph !! "b" = Some {| rd_requested := "^1.0.0"; rd_resolved := id "b" "1.0.0" |} /\
    g_packages graph !! id "b" "1.0.0" = Some package /\
    r_dependencies package !! "a" = Some (id "a" "1.0.0") /\
    g_packages graph !! id "a" "1.0.0" = None.
Proof.
  set (s := default {| st_packages := ∅; st_notified := []; st_tasks := [] |}
    (run now ctx dangling_schedule (init dangling_roots ∅))).
  set (graph := match finish ctx dangling_roots {["a"]} accept s with
    | Ok graph => graph | Err _ => {| g_root := ∅; g_packages := ∅ |} end).
  exists s, graph, (Graph.set_dependencies {["a" := id "a" "1.0.0"]}
    (build_placeholder (id "b" "1.0.0") (release "1.0.0" [("a", "^1.0.0")] []))).
  split_and!; vm_refl.
Qed.
End ResolverDemo.

Module PeersDemo.
Lemma check_platform_list_spec_witness :
  check_platform_list ["linux"; "!win32"] "darwin" = false.
Proof.
  apply not_true_iff_false. rewrite (check_platform_list_spec ["linux"; "!win32"] "darwin" eq_refl).
  intros [?|[_ Hall]]; [done|]. assert ("darwin" ∈ ["linux"; "!win32"]) as Hin; [|set_solver].
  apply Hall. exists "linux". split; [by left|vm_refl].
Defined.
End PeersDemo.
