(* ===== verification/World.v ===== *)
(** * The effects of an installation

    Orchestration ([operations/install/]) reads the file system, asks the
    registry, fills the store and changes the project.  [Eff W A] is a computation
    over a world of type [W] that returns or fails, and leaves a world in either
    case: what was written before a failure stays written.  [InstallWorld] names
    the operations of the other components that orchestration calls, and
    [InstallWorldLaws] what it relies on. *)
From S2P Require Import Prelude.
From S2P Require Import BTree.
From S2P Require Import Text.
From S2P Require Import Errors.
From S2P Require Import Types.
From S2P Require Import Paths.
From S2P Require Import Crates.
From S2P Require Import Peers.
From S2P Require Import Specs.
From S2P Require Import Lockfile.
From S2P Require Import Resolver.

(** ** The monad *)
Definition EffE (Er W A : Type) : Type := W -> result Er A * W.
Notation Eff := (EffE SnpmError).

Global Instance eff_ret Er W : MRet (EffE Er W) := fun A a w => (Ok a, w).
Global Instance eff_bind Er W : MBind (EffE Er W) := fun A B k m w =>
  match m w with
  | (Ok a, w) => k a w
  | (Err e, w) => (Err e, w)
  end.

(** A result, and the world as it is. *)
Definition lift {Er W A} (r : result Er A) : EffE Er W A := fun w => (r, w).
Definition world {Er W} : EffE Er W W := fun w => (Ok w, w).
(** The result of a computation as a value: [match f() { Ok(..) => .., Err(..) => .. }]. *)
Definition attempt {W A} (m : Eff W A) : Eff W (Result A) := fun w => let '(r, w) := m w in (Ok r, w).

(** An operation whose outcome is only looked at later. *)
Definition eff_of {W A} (f : W -> A * W) : Eff W A := fun w => let '(a, w) := f w in (Ok a, w).

(** A loop whose body may leave the function. *)
Fixpoint eff_fold {Er W A B} (f : B -> A -> EffE Er W B) (acc : B) (l : list A) : EffE Er W B :=
  match l with
  | [] => mret acc
  | a :: l => acc ← f acc a; eff_fold f acc l
  end.

(** A relation between the worlds before and after, whatever the outcome. *)
Definition keeps {Er W A} (R : relation W) (m : EffE Er W A) : Prop := forall w r w', m w = (r, w') -> R w w'.
Create HintDb effects discriminated.

Lemma keeps_elim {Er W A} (R : relation W) (m : EffE Er W A) w r w' : m w = (r, w') -> keeps R m -> R w w'.
Proof. intros Hm Hk. by eapply Hk. Qed.

Section keeps.
Context {Er W : Type} (R : relation W) `{!PreOrder R}.

Lemma keeps_ret {A} (a : A) : keeps R (mret a : EffE Er W A).
Proof. intros w r w' [= <- <-]. reflexivity. Qed.
Lemma keeps_lift {A} (r : result Er A) : keeps R (lift r).
Proof. intros w r' w' [= <- <-]. reflexivity. Qed.
Lemma keeps_world : keeps R (world : EffE Er W W).
Proof. intros w r w' [= <- <-]. reflexivity. Qed.
Lemma keeps_attempt {A} (m : Eff W A) : keeps R m -> keeps R (attempt m).
Proof. unfold attempt. intros Hm w r w'. destruct (m w) as [r0 w0] eqn:E. intros [= <- <-]. by eapply Hm. Qed.
Lemma keeps_bind {A B} (m : EffE Er W A) (k : A -> EffE Er W B) :
  keeps R m -> (forall a, keeps R (k a)) -> keeps R (m ≫= k).
Proof.
  intros Hm Hk w r w'. unfold mbind, eff_bind. destruct (m w) as [[a|e] w0] eqn:E.
  - intros Hr. transitivity w0; [by eapply Hm|by eapply Hk].
  - intros [= <- <-]. by eapply Hm.
Qed.
Lemma keeps_fold {A B} (f : B -> A -> EffE Er W B) l : (forall acc a, keeps R (f acc a)) -> forall acc, keeps R (eff_fold f acc l).
Proof. intros Hf. induction l as [|a l IH]; intros acc; cbn; [apply keeps_ret|by apply keeps_bind]. Qed.
End keeps.

(** The frame rule, by the structure of the computation; what is known of the
    operations is in the database. *)
Ltac keep :=
  lazymatch goal with
  | |- keeps _ (mret _) => apply keeps_ret; apply _
  | |- keeps _ (lift _) => apply keeps_lift; apply _
  | |- keeps _ world => apply keeps_world; apply _
  | |- keeps _ (attempt _) => apply keeps_attempt; keep
  | |- keeps _ (_ ≫= _) => apply keeps_bind; [apply _|keep|intros ?; keep]
  | |- keeps _ (eff_fold _ _ _) => apply keeps_fold; [apply _|intros ? ?; keep]
  | |- keeps _ (if ?b then _ else _) => destruct b; keep
  | |- keeps _ (match ?x with _ => _ end) => destruct x; keep
  | |- keeps _ _ => auto with effects
  end.

(** A bind that succeeds: both parts did. *)
Lemma eff_bind_Ok {Er W A B} (m : EffE Er W A) (k : A -> EffE Er W B) w b w' :
  (m ≫= k) w = (Ok b, w') -> exists a w0, m w = (Ok a, w0) /\ k a w0 = (Ok b, w').
Proof. unfold mbind, eff_bind. destruct (m w) as [[a|e] w0]; [by eauto|done]. Qed.

Lemma lift_bind {Er W A B} (a : A) (k : A -> EffE Er W B) : (lift (Ok a) ≫= k) = k a.
Proof. reflexivity. Qed.

(** A bind in general: the first part failed, or it is the second part. *)
Lemma eff_bind_inv {Er W A B} (m : EffE Er W A) (k : A -> EffE Er W B) w r w' :
  (m ≫= k) w = (r, w') ->
  (exists e, m w = (Err e, w') /\ r = Err e) \/ exists a w0, m w = (Ok a, w0) /\ k a w0 = (r, w').
Proof. unfold mbind, eff_bind. destruct (m w) as [[a|e] w0]; [by eauto 10|intros [= <- <-]; eauto]. Qed.

(** Taking a successful computation apart. *)
Ltac eff_inv H :=
  let a := fresh "a" in let w := fresh "w" in let H1 := fresh "Hm" in
  apply eff_bind_Ok in H as (a & w & H1 & H).

(** ** What a computation can fail with *)
Definition errors {A} (P : SnpmError -> Prop) (r : Result A) : Prop := forall e, r = Err e -> P e.
Definition fails_with {W A} (P : SnpmError -> Prop) (m : Eff W A) : Prop := forall w e w', m w = (Err e, w') -> P e.

Section fails.
Context {W : Type} (P : SnpmError -> Prop).

Lemma errors_Ok {A} (a : A) : errors P (Ok a).
Proof. done. Qed.
Lemma errors_map_err {E A} (f : E -> SnpmError) (r : result E A) : (forall e, P (f e)) -> errors P (map_err f r).
Proof. destruct r as [|x]; [done|]. by intros Hf e' [= <-]. Qed.
Lemma errors_ok_or {A} e (o : option A) : P e -> errors P (ok_or e o).
Proof. destruct o; [done|]. by intros He e' [= <-]. Qed.
Lemma errors_bind {A B} (r : Result A) (k : A -> Result B) : errors P r -> (forall a, errors P (k a)) -> errors P (r ≫= k).
Proof. destruct r as [a|e]; cbn; [by auto|]. intros Hr _ e' [= <-]. by apply Hr. Qed.
Lemma errors_fold {A B} (f : B -> A -> Result B) l : (forall acc a, errors P (f acc a)) -> forall acc, errors P (try_fold f acc l).
Proof. intros Hf. induction l as [|a l IH]; intros acc; [done|]. by apply errors_bind. Qed.

Lemma fails_ret {A} (a : A) : fails_with P (mret a : Eff W A).
Proof. by intros w e w' [=]. Qed.
Lemma fails_lift {A} (r : Result A) : errors P r -> fails_with P (lift r : Eff W A).
Proof. intros Hr w e w' [= ? _]. by apply Hr. Qed.
Lemma fails_world : fails_with P (world : Eff W W).
Proof. by intros w e w' [=]. Qed.
Lemma fails_attempt {A} (m : Eff W A) : fails_with P (attempt m).
Proof. intros w e w'. unfold attempt. by destruct (m w). Qed.
Lemma fails_eff_of {A} (f : W -> A * W) : fails_with P (eff_of f).
Proof. intros w e w'. unfold eff_of. by destruct (f w). Qed.
Lemma fails_bind {A B} (m : Eff W A) (k : A -> Eff W B) :
  fails_with P m -> (forall a, fails_with P (k a)) -> fails_with P (m ≫= k).
Proof.
  intros Hm Hk w e w'. unfold mbind, eff_bind. destruct (m w) as [[a|e0] w0] eqn:E; [apply Hk|].
  intros [= <- _]. by eapply Hm.
Qed.
(** When the result is known. *)
Lemma fails_bind_returns {A B} (m : Eff W A) (k : A -> Eff W B) (a : A) :
  fails_with P m -> (forall w a' w', m w = (Ok a', w') -> a' = a) -> fails_with P (k a) -> fails_with P (m ≫= k).
Proof.
  intros Hm Ha Hk w e w'. unfold mbind, eff_bind. destruct (m w) as [[a'|e0] w0] eqn:E.
  - rewrite (Ha _ _ _ E). apply Hk.
  - intros [= <- _]. by eapply Hm.
Qed.
Lemma fails_attempt_bind {A B} (m : Eff W A) (k : Result A -> Eff W B) :
  fails_with P m -> (forall r, errors P r -> fails_with P (k r)) -> fails_with P (attempt m ≫= k).
Proof.
  intros Hm Hk w e w'. unfold attempt, mbind, eff_bind. destruct (m w) as [r w0] eqn:E. apply Hk.
  intros e0 ->. by eapply Hm.
Qed.
Lemma fails_fold_in {A B} (f : B -> A -> Eff W B) l :
  (forall acc a, a ∈ l -> fails_with P (f acc a)) -> forall acc, fails_with P (eff_fold f acc l).
Proof.
  induction l as [|a l IH]; intros Hf acc; [apply fails_ret|].
  apply fails_bind; [apply Hf; by left|intros acc'; apply IH; intros; apply Hf; by right].
Qed.
Lemma fails_fold {A B} (f : B -> A -> Eff W B) l : (forall acc a, fails_with P (f acc a)) -> forall acc, fails_with P (eff_fold f acc l).
Proof. intros Hf. by apply fails_fold_in. Qed.
End fails.

(** The failures of a computation, by its structure. *)
Ltac allowed := solve [exact I | hnf; discriminate].
Ltac blame :=
  lazymatch goal with
  | |- fails_with _ (mret _) => apply fails_ret
  | |- fails_with _ world => apply fails_world
  | |- fails_with _ (attempt _) => apply fails_attempt
  | |- fails_with _ (eff_of _) => apply fails_eff_of
  | |- fails_with _ (lift _) => apply fails_lift; blame
  | |- fails_with _ (_ ≫= _) => apply fails_bind; [blame|intros ?; blame]
  | |- fails_with _ (eff_fold _ _ _) => apply fails_fold; intros ? ?; blame
  | |- errors _ (Ok _) => apply errors_Ok
  | |- errors _ (Err _) => intros ? [= <-]; try allowed
  | |- errors _ (map_err _ _) => apply errors_map_err; intros ?; try allowed
  | |- errors _ (ok_or _ _) => apply errors_ok_or; try allowed
  | |- errors _ (_ ≫= _) => apply errors_bind; [blame|intros ?; blame]
  | |- errors _ (try_fold _ _ _) => apply errors_fold; intros ? ?; blame
  | |- _ _ (if ?b then _ else _) => destruct b; blame
  | |- _ _ (match ?x with _ => _ end) => destruct x; blame
  | |- _ => auto with blame
  end.
Create HintDb blame discriminated.

(** ** The file system that changes

    The operations of [std::fs], of the [reflink_copy] crate and the metadata
    [Stat] does not have.  Their failures are errors of the operating system. *)
Definition IoOp (W : Type) : Type := W -> result string unit * W.

(** What the process remembers about links ([linker/fs/capabilities.rs], [link.rs]). *)
Inductive Probe := Untested | Capable | Incapable.
Global Instance Probe_eq_dec : EqDecision Probe.
Proof. solve_decision. Defined.
Record Capabilities := { cap_reflink : Probe; cap_hardlink : Probe }.
Record LinkMemory := {
  lm_any_reflink_failure : bool;
  lm_any_hardlink_failure : bool;
  lm_cache : gmap (N * N) Capabilities;
  lm_auto_backend : option LinkBackend;
}.

Class FsWorld (W : Type) := {
  (** the file system as it is observed, and the files in it *)
  view : W -> FileSystem;
  world_disk : W -> Disk;
  put_disk : Disk -> W -> W;
  fs_create_dir_all : string -> IoOp W;
  fs_remove_file : string -> IoOp W;
  fs_remove_dir : string -> IoOp W;
  fs_remove_dir_all : string -> IoOp W;
  fs_rename : string -> string -> IoOp W;
  fs_symlink : string -> string -> IoOp W;
  fs_hard_link : string -> string -> IoOp W;
  fs_reflink : string -> string -> IoOp W;
  fs_copy : string -> string -> IoOp W;
  (** the mode of a file, which follows links, and [fs::set_permissions] *)
  fs_mode : W -> string -> result string N;
  fs_set_mode : string -> N -> IoOp W;
  (** [fs::metadata(path)?.dev()] *)
  fs_device : W -> string -> result string N;
  (** the kinds of errors that are told apart *)
  error_not_found : string -> bool;
  error_already_exists : string -> bool;
  (** how deep the directories below a path are nested: the trees are finite *)
  fs_depth : W -> string -> nat;
  (** [std::process::id] *)
  process_id : W -> N;
  link_memory : W -> LinkMemory;
  put_link_memory : LinkMemory -> W -> W;
}.

(** ** The operations of the other components *)
Class InstallWorld `{TimeCrate} (W : Type) := {
  fs_world :: FsWorld W;
  (** [http.rs::create_client] *)
  create_client : Eff W unit;
  (** the clock at the answer for a package, and the order in which requests and
      downloads complete *)
  clock : W -> string * string -> OffsetDateTime;
  answered_order : W -> list ((string * string) * gset string) -> list ((string * string) * gset string);
  completed : W -> list ResolvedPackage -> list ResolvedPackage;
  (** [resolve::resolve_with_optional_roots(_with_seed)]: the result and the
      packages that were handed to the callback *)
  resolve_packages : ResolverContext -> gmap string string -> gmap string RegistryProtocol -> gset string ->
    W -> (Result ResolutionGraph * list ResolvedPackage) * W;
  (** [store/mod.rs::ensure_package] *)
  ensure_package : SnpmConfig -> ResolvedPackage -> Eff W string;
  (** [patch/apply/command.rs]: running [patch] *)
  apply_patch : string -> string -> Eff W unit;
  (** [lifecycle/]: the packages whose scripts were blocked *)
  run_install_scripts : SnpmConfig -> option Workspace -> string -> Eff W (list string);
  run_install_scripts_for_projects : SnpmConfig -> option Workspace -> list string -> Eff W (list string);
  run_project_scripts : SnpmConfig -> option Workspace -> string -> Eff W unit;
  (** [project/io.rs::format_manifest] *)
  format_manifest : Manifest -> string -> Result string;
}.

(** Whether a path belongs to the store or the caches of the user, or leads to
    them: making a directory of the store makes those above it. *)
Definition of_store (config : SnpmConfig) (p : string) : bool :=
  path_starts_with p (c_data_dir config) || path_starts_with p (c_cache_dir config)
  || path_starts_with (c_data_dir config) p || path_starts_with (c_cache_dir config) p.

(** Nothing outside the store has changed. *)
Record store_only `{FsWorld W} (config : SnpmConfig) (w w' : W) : Prop := {
  same_bytes p : of_store config p = false -> fs_read (world_disk w') p = fs_read (world_disk w) p;
  same_stat p : of_store config p = false -> fs_stat (view w') p = fs_stat (view w) p;
  same_faults : write_fault (world_disk w') = write_fault (world_disk w) /\
                read_fault (world_disk w') = read_fault (world_disk w);
}.

Global Instance store_only_preorder `{FsWorld W} config : PreOrder (store_only config).
Proof.
  split; [by split|]. intros w1 w2 w3 [B1 S1 [F1 G1]] [B2 S2 [F2 G2]].
  split; [|intros p Hp; by rewrite S2, S1|split; congruence]. intros p Hp. by rewrite B2, B1.
Qed.

Lemma store_only_is_file `{FsWorld W} config w w' p :
  store_only config w w' -> of_store config p = false -> is_file (view w') p = is_file (view w) p.
Proof. intros Hs Hp. unfold is_file. cbn. by rewrite (same_stat _ _ _ Hs p Hp). Qed.

(** ** Using the operations *)
Section io.
Context `{FsWorld W}.

(** A failure names the path; a failure is ignored ([.ok()]). *)
Definition io_error (error : string -> SnpmError) (op : IoOp W) : Eff W unit := fun w =>
  let '(r, w) := op w in (map_err error r, w).
Definition io_write (path : string) (op : IoOp W) : Eff W unit := io_error (WriteFile path) op.
Definition io_ignore (op : IoOp W) : Eff W unit := fun w => let '(_, w) := op w in (Ok tt, w).
(** Tasks that all run to their end; the first failure is returned. *)
Definition join_all {A} (task : A -> Eff W unit) (l : list A) : Eff W unit :=
  outcome ← eff_fold (fun (outcome : Result unit) a => r ← attempt (task a); mret (_ ← outcome; r)) (Ok tt) l;
  lift outcome.

(** Whether it succeeded ([.is_ok()]). *)
Definition io_try (op : IoOp W) : Eff W bool := fun w =>
  let '(r, w) := op w in (Ok (match r with Ok _ => true | Err _ => false end), w).

Definition create_dir_all (path : string) : Eff W unit := io_write path (fs_create_dir_all path).

(** [fs::write(path, content)] *)
Definition write_output (output : string * string) : Eff W unit := fun w =>
  let '(r, d) := fs_write (world_disk w) output.1 output.2 in (map_err (WriteFile output.1) r, put_disk d w).

Definition write_outputs (outputs : option (string * string)) : Eff W unit :=
  match outputs with Some output => write_output output | None => mret tt end.

(** [lockfile::write] *)
Definition write_lockfile `{LockCrates} (path : string) (graph : ResolutionGraph) (optional_root_specs : gmap string string)
  : Eff W unit := fun w =>
  let '(r, d) := write (world_disk w) path graph optional_root_specs in (r, put_disk d w).
End io.

Section io_fails.
Context `{FsWorld W} (P : SnpmError -> Prop).

Lemma fails_io_error error (op : IoOp W) : (forall e, P (error e)) -> fails_with P (io_error error op).
Proof. intros He w e w'. unfold io_error. destruct (op w) as [[]]; cbn; [done|]. by intros [= <- _]. Qed.
Lemma fails_io_ignore (op : IoOp W) : fails_with P (io_ignore op).
Proof. intros w e w'. unfold io_ignore. by destruct (op w). Qed.
Lemma fails_io_try (op : IoOp W) : fails_with P (io_try op).
Proof. intros w e w'. unfold io_try. by destruct (op w). Qed.
Lemma fails_write_output output : (forall e, P (WriteFile output.1 e)) -> fails_with P (write_output output).
Proof.
  intros He w e w'. unfold write_output. destruct (fs_write _ _ _) as [[]]; cbn; [done|]. by intros [= <- _].
Qed.
Lemma fails_join_all {A} (task : A -> Eff W unit) l :
  (forall a, a ∈ l -> fails_with P (task a)) -> fails_with P (join_all task l).
Proof.
  intros Htask. unfold join_all.
  assert (Hgen : forall (outcome : Result unit) w r w', errors P outcome ->
    eff_fold (fun (outcome : Result unit) a => r ← attempt (task a); mret (_ ← outcome; r)) outcome l w = (r, w') ->
    exists outcome', r = Ok outcome' /\ errors P outcome').
  { induction l as [|a l IH]; intros outcome w r w' Hout.
    { intros [= <- _]. eauto. }
    cbn [eff_fold]. intros [(e & Hm & _)|(outcome1 & w1 & Hm & Hr)]%eff_bind_inv.
    { exfalso. revert Hm. unfold attempt, mbind at 1, eff_bind. by destruct (task a w). }
    apply IH in Hr; [done|intros a' Ha; apply Htask; by right|].
    revert Hm. unfold attempt, mbind at 1, eff_bind. destruct (task a w) as [r1 w2] eqn:Ht. intros [= <- _].
    apply errors_bind; [done|]. intros _ e ->. eapply Htask; [by left|exact Ht]. }
  intros w e w' [(e' & Hm & _)|(outcome & w1 & Hm & [= -> _])]%eff_bind_inv; apply Hgen in Hm; try done.
  - by destruct Hm as (? & ? & _).
  - destruct Hm as (outcome' & [= <-] & Hout). by apply Hout.
Qed.
End io_fails.
#[export] Hint Extern 1 (fails_with _ (io_error _ _)) => apply fails_io_error; intros ?; exact I : blame.
#[export] Hint Extern 1 (fails_with _ (io_write _ _)) => apply fails_io_error; intros ?; exact I : blame.
#[export] Hint Extern 1 (fails_with _ (create_dir_all _)) => apply fails_io_error; intros ?; exact I : blame.
#[export] Hint Extern 1 (fails_with _ (write_output _)) => apply fails_write_output; intros ?; exact I : blame.
#[export] Hint Resolve fails_io_ignore fails_io_try : blame.

(** ** What is relied on *)
Section laws.
Context `{SemverCrate} `{TimeCrate} `{UrlCrate} `{Registry} `{Target}.

Class InstallWorldLaws (W : Type) `{InstallWorld W} := {
  disk_put d w : world_disk (put_disk d w) = d;
  put_same w : put_disk (world_disk w) w = w;
  view_bytes w p : fs_bytes (view w) p = fs_read (world_disk w) p;
  view_stat d w p : (forall q, q <> p -> fs_read d q = fs_read (world_disk w) q) ->
    forall q, q <> p -> fs_stat (view (put_disk d w)) q = fs_stat (view w) q;
  completed_perm w l : completed w l ≡ₚ l;
  (** The network and the store leave the project alone; for the store, [StoreSafe]
      proves it of packages whose names and versions are single names. *)
  create_client_store config : keeps (store_only config) create_client;
  ensure_package_store config package : keeps (store_only config) (ensure_package config package);
  resolve_store config ctx root_deps root_protocols optional_root_names w r w' :
    resolve_packages ctx root_deps root_protocols optional_root_names w = (r, w') -> store_only config w w';
  (** A resolution is a run of the machine of [Resolver], under some schedule,
      whose callback never fails; the packages are those it announced. *)
  resolve_runs ctx root_deps root_protocols optional_root_names w graph announced w' :
    resolve_packages ctx root_deps root_protocols optional_root_names w = ((Ok graph, announced), w') ->
    exists now schedule s, run now ctx schedule (init root_deps root_protocols) = Some s /\ all_finished s = true /\
      finish ctx root_deps optional_root_names (fun _ => Ok tt) s = Ok graph /\ st_notified s = announced;
}.
End laws.

(** The instance of the laws is found by the search for instances. *)
#[export] Hint Extern 1 (keeps _ create_client) => apply create_client_store : effects.
#[export] Hint Extern 1 (keeps _ (ensure_package _ _)) => apply ensure_package_store : effects.

Lemma resolve_packages_store `{InstallWorldLaws W} config ctx root_deps root_protocols optional_root_names :
  keeps (store_only config) (eff_of (resolve_packages ctx root_deps root_protocols optional_root_names)).
Proof.
  intros w r w'. unfold eff_of. destruct (resolve_packages _ _ _ _ w) as [a w1] eqn:Hr.
  intros [= _ <-]. by eapply resolve_store.
Qed.
#[export] Hint Extern 1 (keeps _ (eff_of (resolve_packages _ _ _ _))) => apply resolve_packages_store : effects.

(** ** Writing files *)
(** A write that fails leaves everything as it was. *)
Lemma fs_write_failed disk path data e disk' : fs_write disk path data = (Err e, disk') -> disk' = disk.
Proof. unfold fs_write. intros. by case_all. Qed.
Lemma write_failed `{LockCrates} disk path graph optional e disk' : write disk path graph optional = (Err e, disk') -> disk' = disk.
Proof.
  unfold write. destruct (yaml_to_string _) as [data|]; [|by intros [= _ <-]].
  destruct (fs_write disk path data) as [[[]|] disk1] eqn:Hw; [by destruct (encode_sidecar _ _)|].
  intros [= _ <-]. by apply fs_write_failed in Hw.
Qed.

Section write_lemmas.
Context `{InstallWorld W} `{LockCrates} `{SemverCrate} `{UrlCrate} `{Registry} `{Target} `{!InstallWorldLaws W}.

Lemma write_lockfile_failed path graph optional w e w' :
  write_lockfile path graph optional w = (Err e, w') -> w' = w.
Proof.
  unfold write_lockfile. destruct (write _ _ _ _) as [[[]|] d] eqn:Hw; [done|].
  intros [= _ <-]. apply write_failed in Hw as ->. apply put_same.
Qed.

Lemma write_lockfile_Ok path graph optional w u w' :
  write_lockfile path graph optional w = (Ok u, w') ->
  write (world_disk w) path graph optional = (Ok tt, world_disk w').
Proof.
  unfold write_lockfile. destruct (write _ _ _ _) as [[[]|] d] eqn:Hw; [|done].
  intros [= _ <-]. by rewrite disk_put.
Qed.
End write_lemmas.

(** ** A concrete world: files, and a log of what was done

    Packages are stored while the file [/offline] does not exist; the resolver
    runs the machine of [Resolver] under a fixed schedule. *)
Module WorldDemo.
Definition DemoWorld : Type := Disk * list string.

Definition stat (type : FileType) : Stat := {| st_type := type; st_len := 10; st_modified := Ok 5000000007%Z |}.

Section demo.
Context `{TimeCrate} `{SemverCrate} `{UrlCrate} `{Registry} `{Target} (now : OffsetDateTime) (schedule : list nat)
  (directories links : list string).

Definition demo_view (w : DemoWorld) : FileSystem :=
  let stat_of p := match fs_read w.1 p with
                   | Ok _ => Ok (stat TFile)
                   | Err e => if one_of p directories then Ok (stat TDir) else Err e
                   end in
  {| fs_lstat p := if one_of p links then Ok (stat TSymlink) else stat_of p; fs_stat := stat_of; fs_bytes := fs_read w.1;
     fs_read_link p := if one_of p links then Ok "/store/entry" else Err "not a link";
     fs_entries p := if one_of p directories then Ok [] else Err "no such directory" |}.

Definition log {A} (message : string) (a : A) : Eff DemoWorld A := fun w => (Ok a, (w.1, w.2 ++ [message])).

Definition demo_resolve (ctx : ResolverContext) (root_deps : gmap string string)
    (root_protocols : gmap string RegistryProtocol) (optional_root_names : gset string) (w : DemoWorld)
  : (Result ResolutionGraph * list ResolvedPackage) * DemoWorld :=
  match run now ctx schedule (init root_deps root_protocols) with
  | Some s => if all_finished s
              then ((finish ctx root_deps optional_root_names (fun _ => Ok tt) s, st_notified s), (w.1, w.2 ++ ["resolve"]))
              else ((Err (Internal "the schedule is too short"), []), w)
  | None => ((Err (Internal "no such task"), []), w)
  end.

Definition demo_ensure (config : SnpmConfig) (package : ResolvedPackage) : Eff DemoWorld string := fun w =>
  match fs_read w.1 "/offline" with
  | Ok _ => (Err (Internal ("cannot download " +:+ id_name (r_id package))), w)
  | Err _ => log ("store " +:+ id_name (r_id package)) (path_push (c_data_dir config) (id_name (r_id package))) w
  end.

Definition logged (message : string) : IoOp DemoWorld := fun w => (Ok tt, (w.1, w.2 ++ [message])).

#[global] Instance demo_fs : FsWorld DemoWorld := {|
  view := demo_view;
  world_disk := fst;
  put_disk d w := (d, w.2);
  fs_create_dir_all p := logged ("create " +:+ p);
  fs_remove_file p := logged ("remove " +:+ p);
  fs_remove_dir p := logged ("remove " +:+ p);
  fs_remove_dir_all p := logged ("remove all " +:+ p);
  fs_rename p q := logged ("rename " +:+ p +:+ " " +:+ q);
  fs_symlink p q := logged ("symlink " +:+ q);
  fs_hard_link p q := logged ("hard link " +:+ q);
  fs_reflink p q := logged ("clone " +:+ q);
  fs_copy p q := logged ("copy " +:+ q);
  fs_mode _ _ := Ok 420%N;
  fs_set_mode p _ := logged ("mode " +:+ p);
  fs_device _ _ := Ok 0%N;
  error_not_found e := e == "No such file or directory";
  error_already_exists _ := false;
  fs_depth _ _ := 8;
  process_id _ := 7%N;
  link_memory _ := {| lm_any_reflink_failure := false; lm_any_hardlink_failure := false; lm_cache := ∅;
                      lm_auto_backend := Some Copy |};
  put_link_memory _ w := w |}.

#[global] Instance demo_world : InstallWorld DemoWorld := {|
  fs_world := demo_fs;
  create_client := log "client" tt;
  clock _ _ := now;
  answered_order _ l := l;
  completed _ l := reverse l;
  resolve_packages := demo_resolve;
  ensure_package := demo_ensure;
  apply_patch dir _ := log ("patch " +:+ dir) tt;
  run_install_scripts _ _ root := log ("scripts " +:+ root) [];
  run_install_scripts_for_projects _ _ roots := log "scripts" [];
  run_project_scripts _ _ root := log ("project scripts " +:+ root) tt;
  format_manifest _ _ := Ok "{}" |}.

Lemma logged_store {A} config message (a : A) : keeps (store_only config) (log message a).
Proof. intros w r w' [= <- <-]. by split. Qed.

#[global] Instance demo_laws : InstallWorldLaws DemoWorld.
Proof.
  split; try done.
  - by intros [].
  - intros d w p Hd q Hq. cbn. by rewrite Hd.
  - intros w l. cbn. apply reverse_Permutation.
  - intros config. apply logged_store.
  - intros config package w r w'. cbn. unfold demo_ensure.
    destruct (fs_read w.1 "/offline"); [by intros [= <- <-]|]. apply logged_store.
  - intros config ctx root_deps protocols optional w r w'. cbn. unfold demo_resolve.
    repeat case_match; intros [= <- <-]; by split.
  - intros ctx root_deps protocols optional w graph announced w'. cbn. unfold demo_resolve.
    destruct (run _ _ _ _) as [s|] eqn:Hrun; [|done]. destruct (all_finished s) eqn:Hall; [|done].
    intros [= Hfin Hann _]. by exists now, schedule, s.
Qed.
End demo.
End WorldDemo.
