(* ===== verification/Http.v ===== *)
(** * Requests that are tried again ([http.rs])

    Which failures of a request are worth another attempt, how long is waited in
    between, and the loop around an operation over a world [W].  Durations are
    nanoseconds. *)
From S2P Require Import Prelude.

(** What [reqwest::Error] tells: the predicates that are asked, and the status. *)
Record HttpError := {
  he_timeout : bool;
  he_connect : bool;
  he_body : bool;
  he_decode : bool;
  he_status : option N;
  he_message : string;
}.

Definition U32_MAX : N := 4294967295.
Definition SECOND : N := 1000000000.
Definition MILLISECOND : N := 1000000.

Record RetryPolicy := {
  retries : N;
  factor : N;
  min_timeout : N;
  max_timeout : N;
}.
Definition policy_default : RetryPolicy :=
  {| retries := 2; factor := 10; min_timeout := 10000 * MILLISECOND; max_timeout := 60000 * MILLISECOND |}.
Definition policy_metadata : RetryPolicy :=
  {| retries := 3; factor := 4; min_timeout := 500 * MILLISECOND; max_timeout := 8000 * MILLISECOND |}.

(** [u32::saturating_pow], [Duration::checked_mul] *)
Definition saturating_pow (base exponent : N) : N := N.min (base ^ exponent) U32_MAX.
Definition duration_checked_mul (duration factor : N) : option N :=
  if (duration * factor / SECOND <=? u64_max)%N then Some (duration * factor)%N else None.

(** The nearest multiple of a power of two with 53 significant bits, ties to even:
    the rounding of [f64]. *)
Definition round_f64 (m : N) : N :=
  let drop := (N.size m - 53)%N in
  let unit := (2 ^ drop)%N in
  let low := (m mod unit)%N in
  let base := (m / unit)%N in
  let up := (unit <? 2 * low)%N || (unit =? 2 * low)%N && N.odd base in
  ((if up then base + 1 else base) * unit)%N.

(** The factor [0.5 + scale] is exact: a numerator over [2^31]. *)
Definition jitter_scale (nanos : N) : N :=
  N.shiftr ((nanos * 6364136223846793005) mod 2 ^ 64) 33.
Definition jitter (nanos base : N) : N :=
  N.min (N.shiftr (round_f64 (round_f64 base * (2 ^ 30 + jitter_scale nanos))) 31) u64_max.

Definition bounded_delay (self : RetryPolicy) (attempt : N) : N :=
  N.min (default (max_timeout self) (duration_checked_mul (min_timeout self) (saturating_pow (factor self) attempt)))
    (max_timeout self).
(** [nanos]: the fraction of the second the clock shows. *)
Definition delay_for_attempt (nanos : N) (self : RetryPolicy) (attempt : N) : N :=
  jitter nanos (bounded_delay self attempt).

Definition is_retryable_error (error : HttpError) : bool :=
  if he_timeout error || he_connect error || he_body error || he_decode error then true else
  match he_status error with
  | Some status => ((500 <=? status) && (status <? 600) || (status =? 408) || (status =? 429))%N
  | None => true
  end.

(** The loop: its fuel is the number of retries that are left. *)
Section retry.
Context {W A : Type} (clock_nanos : W -> N) (sleep : N -> W -> W) (operation : W -> result HttpError A * W).

Fixpoint retry_loop (fuel : nat) (policy : RetryPolicy) (attempt : N) (w : W) : result HttpError A * W :=
  let '(outcome, w) := operation w in
  match outcome with
  | Ok value => (Ok value, w)
  | Err error =>
      if (retries policy <=? attempt)%N || negb (is_retryable_error error) then (Err error, w) else
      match fuel with
      | O => (Err error, w)
      | S fuel => retry_loop fuel policy (attempt + 1) (sleep (delay_for_attempt (clock_nanos w) policy attempt) w)
      end
  end.
Definition with_retry (policy : RetryPolicy) : W -> result HttpError A * W :=
  retry_loop (N.to_nat (retries policy)) policy 0.

(** What the loop goes through: failures worth another attempt, each with the wait
    after it, and the attempt that ends it. *)
Inductive attempts (policy : RetryPolicy) : N -> W -> result HttpError A -> W -> Prop :=
| attempts_done attempt w value w' : operation w = (Ok value, w') -> attempts policy attempt w (Ok value) w'
| attempts_failed attempt w error w' : operation w = (Err error, w') ->
    (retries policy <= attempt)%N \/ is_retryable_error error = false -> attempts policy attempt w (Err error) w'
| attempts_again attempt w error w1 result w' : operation w = (Err error, w1) ->
    (attempt < retries policy)%N -> is_retryable_error error = true ->
    attempts policy (attempt + 1) (sleep (delay_for_attempt (clock_nanos w1) policy attempt) w1) result w' ->
    attempts policy attempt w result w'.

Lemma attempts_value policy attempt w value w1 result w' : operation w = (Ok value, w1) ->
  (Ok value, w1) = (result, w') <-> attempts policy attempt w result w'.
Proof. intros Hop. split; [intros [= <- <-]; by apply attempts_done|inversion 1; congruence]. Qed.
Lemma attempts_end policy attempt w error w1 result w' : operation w = (Err error, w1) ->
  (retries policy <=? attempt)%N || negb (is_retryable_error error) = true ->
  (Err error, w1) = (result, w') <-> attempts policy attempt w result w'.
Proof.
  intros Hop Hend%orb_prop. rewrite N.leb_le, negb_true_iff in Hend. split.
  - intros [= <- <-]. by apply attempts_failed.
  - inversion 1 as [|? ? ? ? Hop' ?|? ? ? ? ? ? Hop' Hlt Hre]; [congruence..|].
    assert (error0 = error) as -> by congruence. destruct Hend; [lia|congruence].
Qed.

Lemma retry_loop_attempts policy fuel : forall attempt w result w',
  (retries policy <= attempt + N.of_nat fuel)%N ->
  retry_loop fuel policy attempt w = (result, w') <-> attempts policy attempt w result w'.
Proof.
  induction fuel as [|fuel IH]; intros attempt w result w' Hfuel; cbn [retry_loop].
  - destruct (operation w) as [[value|error] w1] eqn:Hop; [by apply attempts_value|].
    destruct ((retries policy <=? attempt)%N || negb (is_retryable_error error)) eqn:Hend; [by apply attempts_end|].
    apply orb_false_iff in Hend as [Hleft%N.leb_gt _]. lia.
  - destruct (operation w) as [[value|error] w1] eqn:Hop; [by apply attempts_value|].
    destruct ((retries policy <=? attempt)%N || negb (is_retryable_error error)) eqn:Hend; [by apply attempts_end|].
    apply orb_false_iff in Hend as [Hleft%N.leb_gt Hre%negb_false_iff].
    rewrite IH by lia. split; [by intros; eapply attempts_again|].
    inversion 1 as [|? ? ? ? Hop' [?|?]|? ? ? ? ? ? Hop' Hlt Hre' Hatt]; [congruence|lia|congruence|].
    replace w1 with w2 by congruence. done.
Qed.

(** [n] failures worth another attempt, each with the wait after it. *)
Inductive failing (policy : RetryPolicy) : N -> W -> N -> W -> Prop :=
| failing_none attempt w : failing policy attempt w attempt w
| failing_one attempt w error w1 last w' : operation w = (Err error, w1) -> is_retryable_error error = true ->
    failing policy (attempt + 1) (sleep (delay_for_attempt (clock_nanos w1) policy attempt) w1) last w' ->
    failing policy attempt w last w'.

Lemma attempts_failing policy attempt w result w' :
  attempts policy attempt w result w' -> (attempt <= retries policy)%N ->
  exists n w1, (n <= retries policy)%N /\ failing policy attempt w n w1 /\ operation w1 = (result, w') /\
    forall error, result = Err error -> n = retries policy \/ is_retryable_error error = false.
Proof.
  induction 1 as [attempt w value w' Hop|attempt w error w' Hop Hend|attempt w error w1 result w' Hop Hlt Hre Hatt IH];
    intros Hle.
  - exists attempt, w. split_and!; [done|apply failing_none|done|done].
  - exists attempt, w. split_and!; [done|apply failing_none|done|]. intros error' [= <-].
    destruct Hend; [left; lia|by right].
  - destruct IH as (n & w2 & Hn & Hf & Hop2 & Hend); [lia|]. exists n, w2. split_and!; [done| |done..].
    by eapply failing_one.
Qed.

End retry.

(** ** The delays *)
Lemma round_f64_error m :
  (m * (2 ^ 53 - 1) <= round_f64 m * 2 ^ 53 /\ round_f64 m * 2 ^ 53 <= m * (2 ^ 53 + 1))%N.
Proof.
  unfold round_f64. cbn zeta. set (unit := (2 ^ (N.size m - 53))%N).
  assert (Hunit : (unit <> 0)%N) by (by apply N.pow_nonzero).
  pose proof (N.div_mod m unit Hunit) as Hm. pose proof (N.mod_lt m unit Hunit) as Hlow.
  set (low := (m mod unit)%N) in *. set (base := (m / unit)%N) in *.
  assert (Hcase : unit = 1%N \/ (unit * 2 ^ 52 <= m)%N).
  { subst unit. destruct (N.le_gt_cases (N.size m) 53) as [Hle|Hgt].
    - left. by rewrite (proj2 (N.sub_0_le _ _)) by done.
    - right. rewrite <-N.pow_add_r. replace (N.size m - 53 + 52)%N with (N.pred (N.size m)) by lia.
      destruct m as [|q]; [by cbn in Hgt|]. rewrite N.size_log2, N.pred_succ by done. by apply N.log2_spec. }
  change (2 ^ 53)%N with 9007199254740992%N. change (2 ^ 52)%N with 4503599627370496%N in Hcase.
  destruct Hcase as [-> |Hbig].
  - clearbody low base. assert (low = 0%N) as -> by lia. change (1 <? 2 * 0)%N with false.
    change (1 =? 2 * 0)%N with false. cbn [orb andb]. lia.
  - clearbody low base unit. destruct (_ || _) eqn:Hup; [apply orb_prop in Hup as [Hup|Hup]|apply orb_false_iff in Hup as [Hup _]].
    + apply N.ltb_lt in Hup. nia.
    + apply andb_prop in Hup as [Hup%N.eqb_eq _]. nia.
    + apply N.ltb_ge in Hup. nia.
Qed.

Lemma round_f64_exact n : (n < 2 ^ 53)%N -> round_f64 n = n.
Proof.
  intros Hn. unfold round_f64. cbn zeta. rewrite (proj2 (N.sub_0_le _ _)).
  - rewrite N.pow_0_r, N.mod_1_r, N.div_1_r. cbn. by rewrite N.mul_1_r.
  - destruct (decide (n = 0)%N) as [->|Hz]; [done|]. rewrite N.size_log2 by done.
    apply N.le_succ_l. apply N.log2_lt_pow2; [lia|done].
Qed.

Lemma jitter_scale_bound nanos : (jitter_scale nanos < 2 ^ 31)%N.
Proof.
  unfold jitter_scale. rewrite N.shiftr_div_pow2. apply N.Div0.div_lt_upper_bound.
  rewrite <-N.pow_add_r. by apply N.mod_lt.
Qed.

(** The delay between two attempts.  For any clock and any number of the attempt,
    and as long as the longest delay is below 52 days, the wait is between half
    and one and a half times the bounded exponential delay, to the nanosecond:
    neither the power (which saturates), nor the product (which may overflow a
    [Duration]), nor the rounding of the floating-point factor takes it further. *)
Theorem delay_bounds nanos policy attempt :
  (max_timeout policy < 2 ^ 52)%N ->
  let bounded := bounded_delay policy attempt in
  (bounded <= max_timeout policy /\
   bounded <= 2 * delay_for_attempt nanos policy attempt + 2 /\
   2 * delay_for_attempt nanos policy attempt <= 3 * bounded + 2)%N.
Proof.
  intros Hmax. cbn zeta. assert (Hle : (bounded_delay policy attempt <= max_timeout policy)%N) by apply N.le_min_r.
  split; [done|]. unfold delay_for_attempt. revert Hle. generalize (bounded_delay policy attempt). intros b Hle.
  unfold jitter. rewrite (round_f64_exact b) by (apply (N.le_lt_trans _ (2 ^ 52)); [lia|done]). pose proof (jitter_scale_bound nanos) as Hs. set (m := (b * (2 ^ 30 + jitter_scale nanos))%N).
  destruct (round_f64_error m) as [Hlo Hhi]. rewrite N.shiftr_div_pow2.
  pose proof (N.div_mod (round_f64 m) (2 ^ 31) ltac:(done)) as Hd. pose proof (N.mod_lt (round_f64 m) (2 ^ 31) ltac:(done)) as Hr.
  set (q := (round_f64 m / 2 ^ 31)%N) in *. set (r := (round_f64 m mod 2 ^ 31)%N) in *.
  assert (Hmb : (b * 2 ^ 30 <= m /\ m <= b * (3 * 2 ^ 30))%N) by (subst m; nia). clearbody m q r.
  assert (Hq : (q <= u64_max)%N).
  { unfold u64_max. change (2 ^ 52)%N with 4503599627370496%N in Hmax. change (2 ^ 53)%N with 9007199254740992%N in *.
    change (2 ^ 30)%N with 1073741824%N in *. change (2 ^ 31)%N with 2147483648%N in *. lia. }
  rewrite (N.min_l q) by done. change (2 ^ 52)%N with 4503599627370496%N in Hmax.
  change (2 ^ 53)%N with 9007199254740992%N in *. change (2 ^ 30)%N with 1073741824%N in *.
  change (2 ^ 31)%N with 2147483648%N in *. lia.
Qed.

Example delays :
  bounded_delay policy_default 0 = (10 * SECOND)%N /\ bounded_delay policy_default 1 = (60 * SECOND)%N /\
  bounded_delay policy_metadata 2 = (8 * SECOND)%N /\
  delay_for_attempt 0 policy_default 1 = (30 * SECOND)%N /\ delay_for_attempt 123456789 policy_default 1 = 84480849467%N.
Proof. split_and!; vm_refl. Qed.

(** A server that is unreachable twice and answers then; the world counts the
    requests and records the waits. *)
Module HttpDemo.
Definition unreachable : HttpError :=
  {| he_timeout := false; he_connect := true; he_body := false; he_decode := false; he_status := None;
     he_message := "connection refused" |}.
Definition operation (w : N * list N) : result HttpError string * (N * list N) :=
  let '(requests, waits) := w in
  (if (requests <? 2)%N then Err unreachable else Ok "packument", (requests + 1, waits)%N).
Definition sleep (d : N) (w : N * list N) : N * list N := (w.1, w.2 ++ [d]).
Definition request (policy : RetryPolicy) := with_retry (fun _ => 0%N) sleep operation policy (0%N, []).
Definition once : RetryPolicy := {| retries := 1; factor := 4; min_timeout := SECOND; max_timeout := SECOND |}.

Example answered : request policy_metadata = (Ok "packument", (3%N, [250 * MILLISECOND; 1000 * MILLISECOND]%N)).
Proof. vm_refl. Qed.
Example given_up : request once = (Err unreachable, (2%N, [500 * MILLISECOND]%N)).
Proof. vm_refl. Qed.

Lemma delay_bounds_witness :
  (bounded_delay policy_default 1 <= 60 * SECOND /\
   bounded_delay policy_default 1 <= 2 * delay_for_attempt 123456789 policy_default 1 + 2 /\
   2 * delay_for_attempt 123456789 policy_default 1 <= 3 * bounded_delay policy_default 1 + 2)%N.
Proof. exact (delay_bounds 123456789 policy_default 1 ltac:(done)). Defined.
End HttpDemo.
