(* ===== verification/Store.v ===== *)
(** * The package store: integrity checks and concurrency limits

    [store/integrity.rs]: the Subresource-Integrity text of a package, the
    incremental verifier that the download streams through and the keys of the
    verified cache.  [store/limits.rs]: how many tasks of each kind may run,
    from the configuration and the limit on open file descriptors.  Base64, hex
    and the hash functions are crates. *)
From S2P Require Import Prelude.
From S2P Require Import Text.
From S2P Require Import Errors.
From S2P Require Import Types.

(** ** Concurrency limits ([store/limits.rs])

    [usize] has 64 bits; no operation below can overflow. *)
Definition DEFAULT_DOWNLOAD_CONCURRENCY : N := 32.
Definition MAX_REGISTRY_CONCURRENCY : N := 64.
Definition MAX_STORE_TASK_CONCURRENCY : N := 48.
Definition MIN_EXTRACTION_CONCURRENCY : N := 4.
Definition MAX_EXTRACTION_CONCURRENCY : N := 32.
Definition OPEN_FILE_DESCRIPTOR_RESERVE : N := 96.
Definition REGISTRY_DESCRIPTORS_PER_TASK : N := 4.
Definition DOWNLOAD_DESCRIPTORS_PER_TASK : N := 8.
Definition STORE_DESCRIPTORS_PER_TASK : N := 4.
Definition EXTRACTION_DESCRIPTORS_PER_TASK : N := 4.

(** [a.saturating_sub(b)] is [N.sub]. *)
Definition descriptor_limited_concurrency (requested minimum maximum : N)
    (open_file_limit : option N) (descriptors_per_task : N) : N :=
  let requested := N.min (N.max requested minimum) maximum in
  match open_file_limit with
  | None => requested
  | Some open_file_limit =>
      let descriptor_budget := (open_file_limit - OPEN_FILE_DESCRIPTOR_RESERVE)%N in
      let descriptor_limit := N.max (descriptor_budget / N.max descriptors_per_task 1) minimum in
      N.min requested descriptor_limit
  end.

(** [getrlimit(RLIMIT_NOFILE)]: [None] when the call fails, else the soft
    limit, a [u64] whose greatest value is [RLIM_INFINITY]. *)
Definition read_open_file_descriptor_limit (getrlimit : option N) : option N :=
  match getrlimit with
  | None => None
  | Some soft_limit => if decide (soft_limit = u64_max) then None else Some soft_limit
  end.

Section limits.
(** [open_file_descriptor_limit()], read once. *)
Variable open_file_descriptor_limit : option N.

Definition registry_task_concurrency (config : SnpmConfig) : N :=
  descriptor_limited_concurrency (c_registry_concurrency config) 1 MAX_REGISTRY_CONCURRENCY
    open_file_descriptor_limit REGISTRY_DESCRIPTORS_PER_TASK.

Definition store_task_concurrency (config : SnpmConfig) : N :=
  descriptor_limited_concurrency (c_registry_concurrency config) 1 MAX_STORE_TASK_CONCURRENCY
    open_file_descriptor_limit STORE_DESCRIPTORS_PER_TASK.

Definition download_concurrency : N :=
  descriptor_limited_concurrency DEFAULT_DOWNLOAD_CONCURRENCY 1 DEFAULT_DOWNLOAD_CONCURRENCY
    open_file_descriptor_limit DOWNLOAD_DESCRIPTORS_PER_TASK.

Definition extraction_concurrency_limit (cpu_count : N) : N :=
  let cpu_limited := N.min (N.max cpu_count MIN_EXTRACTION_CONCURRENCY) MAX_EXTRACTION_CONCURRENCY in
  descriptor_limited_concurrency cpu_limited MIN_EXTRACTION_CONCURRENCY MAX_EXTRACTION_CONCURRENCY
    open_file_descriptor_limit EXTRACTION_DESCRIPTORS_PER_TASK.
End limits.

(** ** Integrity ([store/integrity.rs]) *)
Inductive IntegrityAlgorithm := Sha512 | Sha256 | Sha1.
Global Instance IntegrityAlgorithm_eq_dec : EqDecision IntegrityAlgorithm.
Proof. solve_decision. Defined.

Definition algorithm_parse (value : string) : option IntegrityAlgorithm :=
  if value == "sha512" then Some Sha512
  else if value == "sha256" then Some Sha256
  else if value == "sha1" then Some Sha1
  else None.

Definition algorithm_name (self : IntegrityAlgorithm) : string :=
  match self with Sha512 => "sha512" | Sha256 => "sha256" | Sha1 => "sha1" end.

(** The crates [base64], [hex], [sha2] and [sha1]. *)
Class DigestCrates := {
  base64_encode : string -> string;
  base64_decode : string -> result string string;
  hex_encode : string -> string;
  hasher : Type;
  hasher_new : IntegrityAlgorithm -> hasher;
  hasher_update : hasher -> string -> hasher;
  hasher_finalize : hasher -> string;
}.

(** [Digest::update] may be called with the input in pieces. *)
Class DigestLaws `{DigestCrates} := {
  hasher_update_app h a b : hasher_update (hasher_update h a) b = hasher_update h (a +:+ b);
  hasher_update_nil h : hasher_update h ε = h;
}.

Record IntegrityToken := { algorithm : IntegrityAlgorithm; expected_digest : string }.

Record IntegritySpec := {
  tokens : list IntegrityToken;
  saw_supported : bool;
  cacheable : bool;
}.

Record IntegrityCacheKey := { key_algorithm : string; digest_hex : string }.
Global Instance IntegrityCacheKey_eq_dec : EqDecision IntegrityCacheKey.
Proof. solve_decision. Defined.

Section integrity.
Context `{DigestCrates}.

Record IntegrityVerifier := {
  spec : IntegritySpec;
  sha512 : option hasher;
  sha256 : option hasher;
  sha1 : option hasher;
}.

(** The body of the loop of [IntegritySpec::parse]. *)
Definition parse_token (spec : IntegritySpec) (token : string) : IntegritySpec :=
  let token := before_char (Ascii.eqb "?") token in
  match split_once "-" token with
  | None => spec
  | Some (algorithm, expected_digest) =>
      match algorithm_parse algorithm with
      | None => spec
      | Some algorithm =>
          {| tokens := tokens spec ++ [{| algorithm := algorithm; expected_digest := expected_digest |}];
             saw_supported := true;
             cacheable := cacheable spec && is_ok (base64_decode expected_digest) |}
      end
  end.

Definition spec_parse (integrity : option string) : option IntegritySpec :=
  integrity ← trim <$> integrity;
  if is_empty integrity then None
  else Some (foldl parse_token {| tokens := []; saw_supported := false; cacheable := true |}
               (split_whitespace integrity)).

Definition verifier (self : IntegritySpec) : IntegrityVerifier :=
  let then_new a :=
    if existsb (fun token => bool_decide (algorithm token = a)) (tokens self)
    then Some (hasher_new a) else None in
  {| spec := self; sha512 := then_new Sha512; sha256 := then_new Sha256; sha1 := then_new Sha1 |}.

Definition update (self : IntegrityVerifier) (bytes : string) : IntegrityVerifier :=
  let hash h := hasher_update h bytes in
  {| spec := spec self; sha512 := hash <$> sha512 self; sha256 := hash <$> sha256 self;
     sha1 := hash <$> sha1 self |}.

Definition decode_expected_digest (self : IntegrityToken) (url : string) : Result string :=
  map_err (fun error => Tarball url ("invalid integrity value: " +:+ error))
    (base64_decode (expected_digest self)).

Definition cache_key_new (algorithm digest : string) : IntegrityCacheKey :=
  {| key_algorithm := algorithm; digest_hex := hex_encode digest |}.

(** The digest of the bytes seen so far under an algorithm, if it is computed. *)
Definition actual_digest (self : IntegrityVerifier) (a : IntegrityAlgorithm) : option string :=
  hasher_finalize <$> match a with
                      | Sha512 => sha512 self
                      | Sha256 => sha256 self
                      | Sha1 => sha1 self
                      end.

Fixpoint finish_loop (self : IntegrityVerifier) (url : string) (l : list IntegrityToken)
  : Result (option IntegrityCacheKey) :=
  match l with
  | [] => Err (Tarball url "integrity verification failed")
  | token :: l =>
      actual ← ok_or (Internal ("missing hasher for supported integrity algorithm "
                                  +:+ algorithm_name (algorithm token)))
                 (actual_digest self (algorithm token));
      expected ← decode_expected_digest token url;
      if actual == expected
      then Ok (if cacheable (spec self)
               then Some (cache_key_new (algorithm_name (algorithm token)) expected) else None)
      else finish_loop self url l
  end.

Definition finish (self : IntegrityVerifier) (url : string) : Result (option IntegrityCacheKey) :=
  if negb (saw_supported (spec self))
  then Err (Tarball url "integrity value uses no supported algorithm (sha512/sha256/sha1)")
  else finish_loop self url (tokens (spec self)).

(** The keys under which a verified archive may be found again, strongest
    algorithm first. *)
Definition push_key (url : string) (keys : list IntegrityCacheKey) (token : IntegrityToken)
  : Result (list IntegrityCacheKey) :=
  digest ← decode_expected_digest token url;
  let key := cache_key_new (algorithm_name (algorithm token)) digest in
  Ok (if decide (key ∈ keys) then keys else keys ++ [key]).

Definition cache_keys (self : IntegritySpec) (url : string) : Result (list IntegrityCacheKey) :=
  if negb (cacheable self) then Ok []
  else try_fold (fun keys a =>
         try_fold (push_key url) keys (filter (fun token => algorithm token = a) (tokens self)))
         [] [Sha512; Sha256; Sha1].

(** The [loop] that reads the file: the list is the outcome of the successive
    calls of [read]; an empty piece, or no further outcome, is the end. *)
Fixpoint read_loop (tarball_path : string) (self : IntegrityVerifier)
    (reads : list (result string string)) : Result IntegrityVerifier :=
  match reads with
  | [] => Ok self
  | read :: reads =>
      bytes ← map_err (ReadFile tarball_path) read;
      if is_empty bytes then Ok self else read_loop tarball_path (update self bytes) reads
  end.

Definition verify_integrity_file (url : string) (integrity : option string) (tarball_path : string)
    (file : result string (list (result string string))) : Result unit :=
  match spec_parse integrity with
  | None => Ok tt
  | Some spec =>
      reads ← map_err (ReadFile tarball_path) file;
      verifier ← read_loop tarball_path (verifier spec) reads;
      _ ← finish verifier url;
      Ok tt
  end.
End integrity.

(** ** Limits stay within their bounds and the descriptor budget *)
Lemma descriptor_limited_bounds requested minimum maximum limit per_task :
  (minimum <= maximum)%N ->
  let n := descriptor_limited_concurrency requested minimum maximum limit per_task in
  (minimum <= n <= maximum)%N /\
  match limit with
  | None => True
  | Some limit => (OPEN_FILE_DESCRIPTOR_RESERVE + minimum * per_task <= limit)%N ->
                  (OPEN_FILE_DESCRIPTOR_RESERVE + n * per_task <= limit)%N
  end.
Proof.
  intros Hmm. unfold descriptor_limited_concurrency. destruct limit as [limit|]; [|split; [lia|done]].
  set (budget := (limit - _)%N). cbn zeta. split; [lia|]. intros Hfits.
  destruct (decide (per_task = 0%N)) as [->|Hpos]; [lia|].
  rewrite (N.max_l per_task 1) by lia.
  assert (minimum <= budget / per_task)%N as Hmin by (apply N.div_le_lower_bound; unfold budget; lia).
  rewrite (N.max_l (budget / per_task)) by done.
  pose proof (N.Div0.mul_div_le budget per_task) as Hdiv.
  assert (N.min (N.min (N.max requested minimum) maximum) (budget / per_task) * per_task
          <= per_task * (budget / per_task))%N by (rewrite (N.mul_comm per_task); apply N.mul_le_mono_r; lia).
  unfold budget in *. lia.
Qed.

(** [n] tasks that hold [per_task] descriptors each are between the bounds, and
    with descriptors for the minimum they fit in the limit, less the reserve. *)
Definition sized (limit : option N) (minimum maximum per_task n : N) : Prop :=
  (minimum <= n <= maximum)%N /\
  forall l, limit = Some l -> (OPEN_FILE_DESCRIPTOR_RESERVE + minimum * per_task <= l)%N ->
            (OPEN_FILE_DESCRIPTOR_RESERVE + n * per_task <= l)%N.

Lemma descriptor_limited_sized requested minimum maximum limit per_task :
  (minimum <= maximum)%N ->
  sized limit minimum maximum per_task
    (descriptor_limited_concurrency requested minimum maximum limit per_task).
Proof.
  intros Hmm. destruct (descriptor_limited_bounds requested minimum maximum limit per_task Hmm) as [Hb Hbud].
  split; [done|]. intros l Hl. by rewrite Hl in Hbud |- *.
Qed.

(** However the limit on open file descriptors and the configuration are
    set, every kind of task runs with a concurrency between its minimum and its
    maximum (so no semaphore is created empty), and with enough descriptors for
    the minimum, the tasks of one kind fit in the limit less the reserve. *)
Theorem concurrency_within_limits (getrlimit : option N) config cpu_count :
  let limit := read_open_file_descriptor_limit getrlimit in
  sized limit 1 64 4 (registry_task_concurrency limit config) /\
  sized limit 1 48 4 (store_task_concurrency limit config) /\
  sized limit 1 32 8 (download_concurrency limit) /\
  sized limit 4 32 4 (extraction_concurrency_limit limit cpu_count).
Proof. intros limit. split_and!; by apply descriptor_limited_sized. Qed.

(** ** What the verifier accepts *)

(** The tokens of an integrity text whose algorithm is supported. *)
Definition token_of (token : string) : option IntegrityToken :=
  '(a, expected_digest) ← split_once "-" (before_char (Ascii.eqb "?") token);
  a ← algorithm_parse a;
  Some {| algorithm := a; expected_digest := expected_digest |}.

Definition supported_tokens (integrity : string) : list IntegrityToken :=
  omap token_of (split_whitespace (trim integrity)).

Section integrity_lemmas.
Context `{DigestLaws}.

Definition digest (a : IntegrityAlgorithm) (bytes : string) : string :=
  hasher_finalize (hasher_update (hasher_new a) bytes).

Definition token_admits (bytes : string) (token : IntegrityToken) : Prop :=
  base64_decode (expected_digest token) = Ok (digest (algorithm token) bytes).

Definition token_refuses (bytes : string) (token : IntegrityToken) : Prop :=
  exists d, base64_decode (expected_digest token) = Ok d /\ d <> digest (algorithm token) bytes.

Lemma parse_token_fold l s :
  foldl parse_token s l =
  {| tokens := tokens s ++ omap token_of l;
     saw_supported := saw_supported s || negb (bool_decide (omap token_of l = []));
     cacheable := cacheable s && forallb (fun t => is_ok (base64_decode (expected_digest t))) (omap token_of l) |}.
Proof.
  revert s. induction l as [|w l IH]; intros s; cbn.
  { rewrite app_nil_r, orb_false_r, andb_true_r. by destruct s. }
  rewrite IH. unfold parse_token, token_of.
  destruct (split_once _ _) as [[a d]|]; cbn; [|done]. destruct (algorithm_parse a) as [a'|]; cbn; [|done].
  f_equal; [by rewrite <-app_assoc| |by rewrite andb_assoc]. by rewrite orb_true_r.
Qed.

Lemma spec_parse_spec integrity :
  spec_parse integrity =
  match integrity with
  | Some text => if is_empty (trim text) then None
                 else Some {| tokens := supported_tokens text;
                              saw_supported := negb (bool_decide (supported_tokens text = []));
                              cacheable := forallb (fun t => is_ok (base64_decode (expected_digest t)))
                                             (supported_tokens text) |}
  | None => None
  end.
Proof.
  unfold spec_parse. destruct integrity as [text|]; cbn; [|done].
  destruct (is_empty _); [done|]. by rewrite parse_token_fold.
Qed.

(** The verifier of a specification that has seen [bytes]. *)
Definition has_seen (self : IntegritySpec) (bytes : string) (v : IntegrityVerifier) : Prop :=
  spec v = self /\
  forall t, t ∈ tokens self -> actual_digest v (algorithm t) = Some (digest (algorithm t) bytes).

Lemma verifier_has_seen self bytes : has_seen self bytes (update (verifier self) bytes).
Proof.
  split; [done|]. intros t Ht. unfold verifier, update, actual_digest; cbn.
  assert (existsb (fun token => bool_decide (algorithm token = algorithm t)) (tokens self) = true) as Hex.
  { apply existsb_true. exists t. by rewrite bool_decide_eq_true_2. }
  destruct (algorithm t); by rewrite Hex.
Qed.

Lemma update_nil v : update v ε = v.
Proof. destruct v as [s [] [] []]; unfold update; cbn; by rewrite ?hasher_update_nil. Qed.

Lemma update_app v a b : update (update v a) b = update v (a +:+ b).
Proof. destruct v as [s [] [] []]; unfold update; cbn; by rewrite ?hasher_update_app. Qed.

Lemma read_loop_chunks path v chunks :
  Forall (fun c => is_empty c = false) chunks ->
  read_loop path v (Ok <$> chunks) = Ok (update v (join ε chunks)).
Proof.
  intros Hne. revert v. induction Hne as [|c chunks Hc _ IH]; intros v; cbn.
  { by rewrite update_nil. }
  rewrite Hc, IH, update_app. do 2 f_equal. by destruct chunks; cbn; rewrite ?app_nil_s.
Qed.

Lemma finish_loop_ok v url bytes l :
  (forall t, t ∈ l -> actual_digest v (algorithm t) = Some (digest (algorithm t) bytes)) ->
  forall r, finish_loop v url l = Ok r <->
    exists pre t post, l = pre ++ t :: post /\ Forall (token_refuses bytes) pre /\ token_admits bytes t /\
      r = if cacheable (spec v)
          then Some (cache_key_new (algorithm_name (algorithm t)) (digest (algorithm t) bytes)) else None.
Proof.
  intros Hl r. induction l as [|t l IH]; cbn.
  { split; [done|]. intros (pre & t & post & Hnil & _). by destruct pre. }
  rewrite (Hl t) by left; cbn. unfold decode_expected_digest.
  destruct (base64_decode (expected_digest t)) as [d|] eqn:Hd; cbn.
  2:{ split; [done|]. intros ([|t' pre] & t1 & post & [= <- ->] & Hpre & Hadm & _); unfold token_admits in *; [congruence|].
      apply Forall_cons in Hpre as [(? & ? & _) _]. congruence. }
  destruct (digest (algorithm t) bytes == d) eqn:Heq; bool_prop.
  - subst d. split.
    + intros [= <-]. by exists [], t, l.
    + intros ([|t' pre] & t1 & post & [= <- ->] & Hpre & _ & ->); [done|].
      apply Forall_cons in Hpre as [(d & ? & Hne) _]. congruence.
  - rewrite IH by (intros; apply Hl; by right). split.
    + intros (pre & t1 & post & -> & Hpre & ? & ->). exists (t :: pre), t1, post. split_and!; try done.
      constructor; [|done]. by exists d.
    + intros ([|t' pre] & t1 & post & [= <- ->] & Hpre & Hadm & ->).
      { unfold token_admits in Hadm. congruence. }
      apply Forall_cons in Hpre as [_ Hpre]. eauto 7.
Qed.

Lemma finish_outcome self url bytes v :
  has_seen self bytes v -> saw_supported self = negb (bool_decide (tokens self = [])) ->
  forall r, finish v url = Ok r <->
    exists pre t post, tokens self = pre ++ t :: post /\ Forall (token_refuses bytes) pre /\
      token_admits bytes t /\
      r = if cacheable self
          then Some (cache_key_new (algorithm_name (algorithm t)) (digest (algorithm t) bytes)) else None.
Proof.
  intros [Hspec Hseen] Hsaw r. unfold finish. rewrite Hspec, Hsaw, negb_involutive.
  case_bool_decide as Hnil.
  - rewrite Hnil. split; [done|]. intros (pre & t & post & Hl & _). by destruct pre.
  - by rewrite (finish_loop_ok v url bytes), Hspec.
Qed.

Lemma push_keys_mem url key l : forall keys,
  (forall t, t ∈ l -> exists d, base64_decode (expected_digest t) = Ok d) ->
  exists keys', try_fold (push_key url) keys l = Ok keys' /\
    (key ∈ keys' <-> key ∈ keys \/ exists t d, t ∈ l /\ base64_decode (expected_digest t) = Ok d /\
       key = cache_key_new (algorithm_name (algorithm t)) d).
Proof.
  induction l as [|t l IH]; intros keys Hdec; cbn.
  { exists keys. split; [done|]. set_solver. }
  destruct (Hdec t) as [d Hd]; [by left|].
  set (next := if decide (cache_key_new (algorithm_name (algorithm t)) d ∈ keys) then keys
               else keys ++ [cache_key_new (algorithm_name (algorithm t)) d]).
  assert (push_key url keys t = Ok next) as ->.
  { unfold push_key, decode_expected_digest. by rewrite Hd. }
  assert (key ∈ next <-> key ∈ keys \/ key = cache_key_new (algorithm_name (algorithm t)) d) as Hnext.
  { subst next. case_decide; [split; [by left|]; by intros [?| ->]|].
    rewrite elem_of_app. by rewrite list_elem_of_singleton. }
  destruct (IH next) as (keys' & Hk & Hiff); [intros; apply Hdec; by right|].
  exists keys'. split; [done|]. rewrite Hiff, Hnext. split.
  - intros [[?| ->]|(t' & d' & ? & ? & ?)]; [by left| |].
    + right. exists t, d. split_and!; try done. by left.
    + right. exists t', d'. split_and!; try done. by right.
  - intros [?|(t' & d' & Ht' & ? & ->)]; [by left; left|].
    apply elem_of_cons in Ht' as [->|?]; [|right; eauto]. left; right. congruence.
Qed.

Lemma cache_keys_mem self url key :
  cacheable self = true ->
  (forall t, t ∈ tokens self -> exists d, base64_decode (expected_digest t) = Ok d) ->
  exists keys, cache_keys self url = Ok keys /\
    (key ∈ keys <-> exists t d, t ∈ tokens self /\ base64_decode (expected_digest t) = Ok d /\
                                key = cache_key_new (algorithm_name (algorithm t)) d).
Proof.
  intros Hc Hdec. unfold cache_keys. rewrite Hc; cbn [negb try_fold].
  assert (forall a t, t ∈ filter (fun t => algorithm t = a) (tokens self) <->
                      algorithm t = a /\ t ∈ tokens self) as Hl.
  { intros a t. by rewrite list_elem_of_filter. }
  destruct (push_keys_mem url key (filter (fun t => algorithm t = Sha512) (tokens self)) [])
    as (k1 & H1 & E1); [intros t [_ Ht]%Hl; auto|].
  destruct (push_keys_mem url key (filter (fun t => algorithm t = Sha256) (tokens self)) k1)
    as (k2 & H2 & E2); [intros t [_ Ht]%Hl; auto|].
  destruct (push_keys_mem url key (filter (fun t => algorithm t = Sha1) (tokens self)) k2)
    as (k3 & H3 & E3); [intros t [_ Ht]%Hl; auto|].
  rewrite H1; cbn [mbind result_bind]. rewrite H2; cbn [mbind result_bind]. rewrite H3.
  exists k3. split; [done|].
  rewrite E3, E2, E1. setoid_rewrite Hl. split.
  - intros [[[Hno|(t & d & [_ ?] & ?)]|(t & d & [_ ?] & ?)]|(t & d & [_ ?] & ?)]; [by apply elem_of_nil in Hno|eauto..].
  - intros (t & d & ? & ? & ?). destruct (algorithm t) eqn:Ha; [left; left; right|left; right|right];
      exists t, d; by rewrite Ha.
Qed.
End integrity_lemmas.

(** verifying a downloaded archive in pieces accepts it exactly when no
    integrity was given, or some token of a supported algorithm has the digest
    of the whole content as its expected digest and every supported token
    before it is well-formed Base64 of another digest.  In particular an
    integrity text that names only unknown algorithms accepts nothing. *)
Theorem verify_integrity_file_ok_iff `{DigestLaws} url integrity path chunks :
  Forall (fun c => is_empty c = false) chunks ->
  verify_integrity_file url integrity path (Ok (Ok <$> chunks)) = Ok tt <->
  match integrity with
  | None => True
  | Some text =>
      is_empty (trim text) = true \/
      exists pre t post, supported_tokens text = pre ++ t :: post /\
        Forall (token_refuses (join ε chunks)) pre /\ token_admits (join ε chunks) t
  end.
Proof.
  intros Hchunks. unfold verify_integrity_file. rewrite spec_parse_spec.
  destruct integrity as [text|]; [|done]. destruct (is_empty (trim text)); [split; [by left|done]|].
  cbn [map_err mbind result_bind]. rewrite read_loop_chunks by done; cbn [mbind result_bind].
  match goal with |- context [finish (update (verifier ?s) ?b) _] =>
    pose proof (finish_outcome s url b _ (verifier_has_seen s b) eq_refl) as Hf;
    destruct (finish (update (verifier s) b) url) as [r|e] eqn:Hfin end; cbn.
  - split; [intros _|done]. right. destruct (proj1 (Hf r) eq_refl) as (pre & t & post & ? & ? & ? & _).
    by exists pre, t, post.
  - split; [done|]. intros [?|(pre & t & post & H1 & H2 & H3)]; [done|].
    discriminate (proj2 (Hf _) (ex_intro _ pre (ex_intro _ t (ex_intro _ post
      (conj H1 (conj H2 (conj H3 eq_refl))))))).
Qed.

(** The key under which a verified archive is stored is one of the keys a
    later install looks up for the same integrity text. *)
Theorem verified_key_is_looked_up `{DigestLaws} url url' integrity self bytes key :
  spec_parse integrity = Some self ->
  finish (update (verifier self) bytes) url = Ok (Some key) ->
  exists keys, cache_keys self url' = Ok keys /\ key ∈ keys.
Proof.
  intros Hparse Hfin. rewrite spec_parse_spec in Hparse. destruct integrity as [text|]; [|done].
  destruct (is_empty _); [done|]. injection Hparse as <-.
  match type of Hfin with finish (update (verifier ?s) _) _ = _ =>
    apply (finish_outcome s url bytes _ (verifier_has_seen s bytes) eq_refl) in Hfin end.
  destruct Hfin as (pre & t & post & Htok & _ & Hadm & Hkey).
  destruct (cacheable _) eqn:Hc in Hkey; [|done]. injection Hkey as ->.
  edestruct cache_keys_mem as (keys & Hkeys & Hmem); [done| |].
  { cbn [tokens] in *. intros t' Ht'. cbn [cacheable] in Hc. apply is_ok_true.
    by eapply forallb_true in Hc. }
  exists keys. split; [exact Hkeys|]. apply Hmem. exists t, (digest (algorithm t) bytes).
  split_and!; [|done..]. rewrite Htok. apply elem_of_app. right. by left.
Qed.

(** ** Witnesses: a hash function that remembers its input *)
Module StoreDemo.
Definition transparent : DigestCrates := {|
  base64_encode s := s;
  base64_decode s := if contains_char "!" s then Err "invalid byte" else Ok s;
  hex_encode s := s;
  hasher := string;
  hasher_new a := algorithm_name a;
  hasher_update := String.append;
  hasher_finalize h := h;
|}.
#[local] Existing Instance transparent.

#[local] Instance transparent_laws : DigestLaws.
Proof.
  split; cbn; intros h; [|apply app_nil_s].
  intros a b. by rewrite app_assoc_s.
Qed.

Lemma verify_integrity_file_ok_iff_witness :
  verify_integrity_file "u" (Some "md5-x  sha1-sha1no sha512-sha512abcd?opt") "f" (Ok (Ok <$> ["ab"; "cd"])) = Ok tt /\
  ~ verify_integrity_file "u" (Some "md5-abcd") "f" (Ok (Ok <$> ["ab"; "cd"])) = Ok tt.
Proof.
  assert (Forall (fun c => is_empty c = false) ["ab"; "cd"]) as Hc by (repeat constructor).
  split.
  - apply (verify_integrity_file_ok_iff "u" (Some "md5-x  sha1-sha1no sha512-sha512abcd?opt") "f" _ Hc).
    right. exists [{| algorithm := Sha1; expected_digest := "sha1no" |}],
      {| algorithm := Sha512; expected_digest := "sha512abcd" |}, [].
    split; [vm_refl|]. split; [|red; vm_refl]. constructor; [|constructor].
    exists "sha1no". split; [vm_refl|]. apply (bool_decide_unpack _). vm_compute. exact I.
  - intros Hok. apply (verify_integrity_file_ok_iff "u" (Some "md5-abcd") "f" _ Hc) in Hok
      as [Hok|(pre & t & post & Hok & _)]; [done|]. by destruct pre.
Defined.

Lemma verified_key_is_looked_up_witness :
  exists keys, cache_keys {| tokens := [{| algorithm := Sha1; expected_digest := "sha1ab" |}];
                             saw_supported := true; cacheable := true |} "v" = Ok keys /\
               {| key_algorithm := "sha1"; digest_hex := "sha1ab" |} ∈ keys.
Proof. apply (verified_key_is_looked_up "u" "v" (Some "sha1-sha1ab") _ "ab"); vm_refl. Defined.
End StoreDemo.
