(* ===== verification/Roots.v ===== *)
(** * Root dependencies of a project and of a workspace

    [operations/install/manifest/{apply,root_specs,types,write}.rs]: catalog
    entries, the split of a manifest's dependencies into those served by the
    workspace and those to resolve, the required and optional roots, and what
    [add] writes back.  [operations/install/workspace/root_specs/]: which
    specifiers a workspace member answers, and the roots of a whole workspace,
    where the ranges that several members ask for are merged into one. *)
From S2P Require Import Prelude.
From S2P Require Import BTree.
From S2P Require Import Text.
From S2P Require Import Errors.
From S2P Require Import Types.
From S2P Require Import Paths.
From S2P Require Import Specs.
From S2P Require Import Crates.
From S2P Require Import Semver.

(** ** Catalogs ([manifest/apply.rs], [workspace/types.rs]) *)
Record CatalogConfig := {
  cc_catalog : gmap string string;
  cc_catalogs : gmap string (gmap string string);
}.

Record CatalogSource := {
  default_catalog : gmap string string;
  named_catalogs : gmap string (gmap string string);
  root_path : string;
}.

Definition catalog_source (workspace : option Workspace) (catalog : option CatalogConfig) : Result CatalogSource :=
  match workspace, catalog with
  | Some workspace, _ =>
      Ok {| default_catalog := wc_catalog (w_config workspace);
            named_catalogs := wc_catalogs (w_config workspace); root_path := w_root workspace |}
  | None, Some catalog =>
      Ok {| default_catalog := cc_catalog catalog; named_catalogs := cc_catalogs catalog; root_path := "." |}
  | None, None =>
      Err (WorkspaceConfig "." "catalog protocol used but no workspace or catalog configuration found")
  end.

Definition resolve_catalog_spec (name value : string) (workspace : option Workspace)
    (catalog : option CatalogConfig) : Result string :=
  let selector := sdrop (String.length "catalog:") value in
  source ← catalog_source workspace catalog;
  let range :=
    if is_empty selector || (selector == "default") then default_catalog source !! name
    else named_catalogs source !! selector ≫= lookup name in
  match range with
  | Some range => Ok range
  | None =>
      Err (WorkspaceConfig (root_path source)
             ("no catalog entry found for dependency " +:+ name +:+ " and selector " +:+ value))
  end.

(** ** Workspace members as dependencies ([workspace/root_specs/validate.rs]) *)
Definition normalize_workspace_spec (name spec version : string) : Result string :=
  match strip_prefix "workspace:" spec with
  | None =>
      Err (WorkspaceConfig ε ("workspace dependency " +:+ name +:+ " must use workspace: spec, got " +:+ spec))
  | Some suffix =>
      let trimmed := trim suffix in
      if is_empty trimmed || (trimmed == "*") then Ok ε
      else if trimmed == "^" then Ok ("^" +:+ version)
      else if trimmed == "~" then Ok ("~" +:+ version)
      else Ok trimmed
  end.

Section validate.
Context `{SemverCrate}.

(** The version of a member, with the error of [snpm_semver::parse_version]. *)
Definition member_version (name version : string) : Result Version :=
  map_err (Semver (name +:+ "@" +:+ version)) (parse_version version).

Definition validate_workspace_spec (workspace : Workspace) (name spec : string) : Result unit :=
  project ← ok_or (WorkspaceConfig (w_root workspace)
                     ("workspace dependency " +:+ name +:+ " not found in workspace projects"))
              (project_by_name workspace name);
  match m_version (p_manifest project) with
  | None => Ok tt
  | Some version =>
      range_str ← normalize_workspace_spec name spec version;
      if is_empty range_str then Ok tt
      else
        ranges ← map_err (fun error => Semver (name +:+ "@" +:+ range_str) (Range.error_display error))
                   (Range.parse_internal range_str);
        version_parsed ← member_version name version;
        if Range.matches ranges version_parsed then Ok tt
        else Err (WorkspaceConfig (w_root workspace)
               ("workspace dependency " +:+ name +:+ " with spec " +:+ spec +:+
                " is not satisfied by local version " +:+ version))
  end.

Definition is_local_workspace_dependency (workspace : Workspace) (name spec : string) : Result bool :=
  match project_by_name workspace name with
  | None => Ok false
  | Some project =>
      if starts_with "workspace:" spec then
        _ ← validate_workspace_spec workspace name spec;
        Ok true
      else
        match m_version (p_manifest project) with
        | None => Ok false
        | Some version =>
            match Range.parse_internal spec with
            | Err _ => Ok false
            | Ok ranges =>
                version_parsed ← member_version name version;
                Ok (Range.matches ranges version_parsed)
            end
        end
  end.

(** ** Applying the specifiers of a manifest ([manifest/apply.rs])

    The accumulators of the loop: the result, the names served by the
    workspace, and the protocol of each special specifier, when the caller
    wants them. *)
Record Applied := {
  ap_result : gmap string string;
  ap_local_set : gset string;
  ap_protocols : option (gmap string RegistryProtocol);
}.

Context `{UrlCrate}.

Definition apply_spec (workspace : option Workspace) (catalog : option CatalogConfig)
    (acc : Applied) (entry : string * string) : Result Applied :=
  let '(name, value) := entry in
  resolved ← (if starts_with "catalog:" value then resolve_catalog_spec name value workspace catalog
              else Ok value);
  is_local ← match workspace with
             | Some workspace => is_local_workspace_dependency workspace name resolved
             | None => Ok false
             end;
  if (is_local : bool) then
    Ok {| ap_result := ap_result acc; ap_local_set := {[name]} ∪ ap_local_set acc;
          ap_protocols := ap_protocols acc |}
  else
    Ok {| ap_result := <[name := resolved]> (ap_result acc); ap_local_set := ap_local_set acc;
          ap_protocols :=
            match ap_protocols acc, Manifests.detect_manifest_protocol resolved with
            | Some map, Some protocol => Some (<[name := protocol]> map)
            | map, _ => map
            end |}.

Definition apply_specs (specs : gmap string string) (workspace : option Workspace)
    (catalog : option CatalogConfig) (local_set : gset string)
    (protocol_map : option (gmap string RegistryProtocol)) : Result Applied :=
  try_fold (apply_spec workspace catalog)
    {| ap_result := ∅; ap_local_set := local_set; ap_protocols := protocol_map |} (btree_iter specs).
End validate.

(** ** Required and optional roots ([manifest/root_specs.rs]) *)
Record RootSpecSet := { required : gmap string string; optional : gmap string string }.

Definition build_project_root_specs (dependencies development_dependencies optional_dependencies : gmap string string)
    (include_dev : bool) : RootSpecSet :=
  let required :=
    if include_dev then
      foldl (fun required '(name, range) =>
        match required !! name with Some _ => required | None => <[name := range]> required end)
        dependencies (btree_iter development_dependencies)
    else dependencies in
  {| required := foldl (fun required name => delete name required) required (btree_keys optional_dependencies);
     optional := optional_dependencies |}.

Definition build_project_manifest_root (dependencies development_dependencies optional_dependencies : gmap string string)
    (include_dev : bool) : gmap string string :=
  required (build_project_root_specs dependencies development_dependencies optional_dependencies include_dev).

(** ** What [add] writes ([manifest/write.rs]) *)
Definition find_catalog_selector (name : string) (default_catalog : gmap string string)
    (named_catalogs : gmap string (gmap string string)) : option string :=
  if bool_decide (is_Some (default_catalog !! name)) then Some "catalog:"
  else match list_find (fun '(_, entries) => is_Some (entries !! name)) (btree_iter named_catalogs) with
       | Some (_, (catalog_name, _)) => Some ("catalog:" +:+ catalog_name)
       | None => None
       end.

Definition catalog_selector (name : string) (workspace : option Workspace) (catalog : option CatalogConfig)
  : option string :=
  match workspace with
  | Some workspace =>
      find_catalog_selector name (wc_catalog (w_config workspace)) (wc_catalogs (w_config workspace))
  | None => catalog ≫= fun catalog => find_catalog_selector name (cc_catalog catalog) (cc_catalogs catalog)
  end.

Definition manifest_spec_for_dependency (name requested version : string) (workspace : option Workspace)
    (catalog : option CatalogConfig) (save_prefix : string) : string :=
  match catalog_selector name workspace catalog with
  | Some selector => selector
  | None =>
      let requested := trim requested in
      if is_empty requested || (requested == "latest") || (requested == "*")
      then save_prefix +:+ version else requested
  end.

(** The dependency sections of [write_manifest]: production, development,
    optional. *)
Definition Sections : Type := gmap string string * gmap string string * gmap string string.

Definition update_sections (graph : ResolutionGraph) (additions : gmap string string) (dev : bool)
    (workspace : option Workspace) (catalog : option CatalogConfig) (save_prefix : string)
    (sections : Sections) (entry : string * RootDependency) : Sections :=
  let '(name, dep) := entry in
  let '(prod, dev_deps, opt) := sections in
  match additions !! name with
  | None => sections
  | Some requested =>
      let spec := manifest_spec_for_dependency name requested (id_version (rd_resolved dep))
                    workspace catalog save_prefix in
      let prod := delete name prod in
      let dev_deps := delete name dev_deps in
      let opt := delete name opt in
      if dev then (prod, <[name := spec]> dev_deps, opt) else (<[name := spec]> prod, dev_deps, opt)
  end.

Definition written_sections (manifest : Manifest) (graph : ResolutionGraph) (additions : gmap string string)
    (dev : bool) (workspace : option Workspace) (catalog : option CatalogConfig) (save_prefix : string) : Sections :=
  foldl (update_sections graph additions dev workspace catalog save_prefix)
    (m_dependencies manifest, m_dev_dependencies manifest, m_optional_dependencies manifest)
    (btree_iter (g_root graph)).

(** ** Merging the ranges of several members ([collect/ranges.rs]) *)
(** The ranges overlap, or they exclude each other and one was picked. *)
Inductive RangeMerge :=
| Compatible (merged : string)
| Exclusive (winner : string).

Section merge.
Context `{SemverCrate}.

Definition is_exact_version (range : string) : bool :=
  is_ok (parse_version (trim_start_matches "=" range)).

Definition specificity_rank (range : string) : nat :=
  let trimmed := trim range in
  if is_exact_version trimmed then 3
  else if starts_with "~" trimmed then 2
  else if starts_with "^" trimmed then 1
  else 0.

(** [a > b] for versions *)
Definition version_gt (a b : Version) : bool := negb (bool_decide (version_le a b)).

Definition choose_more_specific (existing incoming existing_floor incoming_floor : string) : string :=
  let by_rank := if (specificity_rank existing <? specificity_rank incoming)%nat then incoming else existing in
  match parse_version existing_floor, parse_version incoming_floor with
  | Ok existing_floor, Ok incoming_floor =>
      if version_gt incoming_floor existing_floor then incoming
      else if version_gt existing_floor incoming_floor then existing
      else by_rank
  | _, _ => by_rank
  end.

Definition normalize_floor_version (token : string) : option string :=
  let token := trim token in
  if is_empty token then None
  else if is_ok (parse_version token) then Some token
  else
    normalized ← match split_char "." token with
                 | [major] => if parse_u64 major then Some (major +:+ ".0.0") else None
                 | [major; minor] =>
                     if parse_u64 major then
                       if parse_u64 minor then Some (major +:+ "." +:+ minor +:+ ".0") else None
                     else None
                 | _ => None
                 end;
    _ ← result_ok (parse_version normalized);
    Some normalized.

(** The pieces between white space, commas and bars; the empty ones, which the
    loop skips, are left out. *)
Definition range_tokens (range : string) : list string :=
  split_by (fun ch => Ascii.eqb "," ch || Ascii.eqb "|" ch) range ≫= split_whitespace.

Definition floor_of_token (token : string) : option string :=
  let token := trim_start_by (fun ch => existsb (Ascii.eqb ch) ["^"; "~"; "="; ">"; "<"]%char) (trim token) in
  if is_empty token then None else normalize_floor_version token.

Definition range_floor (range : string) : option string := head (omap floor_of_token (range_tokens range)).

Definition merge_workspace_ranges (existing incoming : string) : option RangeMerge :=
  if existing == incoming then Some (Compatible existing)
  else if starts_with "file:" existing || starts_with "file:" incoming then None
  else
    existing_ranges ← result_ok (Range.parse_internal existing);
    incoming_ranges ← result_ok (Range.parse_internal incoming);
    existing_floor_raw ← range_floor existing;
    incoming_floor_raw ← range_floor incoming;
    existing_floor ← result_ok (parse_version existing_floor_raw);
    incoming_floor ← result_ok (parse_version incoming_floor_raw);
    let specific := choose_more_specific existing incoming existing_floor_raw incoming_floor_raw in
    match Range.matches existing_ranges incoming_floor, Range.matches incoming_ranges existing_floor with
    | true, true => Some (Compatible specific)
    | true, false => Some (Compatible incoming)
    | false, true => Some (Compatible existing)
    | false, false => Some (Exclusive specific)
    end.

(** [Path::canonicalize], a function of the state of the file system. *)
Variable canonicalize : string -> result string string.

Definition resolve_workspace_range (name range declaring_package_root : string) : Result string :=
  match strip_prefix "file:" range with
  | None => Ok range
  | Some file_path =>
      if is_absolute file_path then Ok range
      else
        let absolute := path_push declaring_package_root file_path in
        canonical ← map_err (fun error => ResolutionFailed name range
                               ("Failed to resolve file path " +:+ absolute +:+ ": " +:+ error))
                      (canonicalize absolute);
        Ok ("file:" +:+ canonical)
  end.

(** The warning about exclusive ranges goes to the console only. *)
Definition insert_workspace_root_dep (combined : gmap string string)
    (workspace_root declaring_package_root name range : string) : Result (gmap string string) :=
  resolved_range ← resolve_workspace_range name range declaring_package_root;
  match combined !! name with
  | None => Ok (<[name := resolved_range]> combined)
  | Some existing =>
      match merge_workspace_ranges existing resolved_range with
      | Some (Compatible merged) => Ok (<[name := merged]> combined)
      | Some (Exclusive winner) => Ok (<[name := winner]> combined)
      | None =>
          Err (WorkspaceConfig workspace_root
            ("dependency " +:+ name +:+ " has conflicting ranges " +:+ existing +:+ " and "
             +:+ resolved_range +:+ " across workspace projects"))
      end
  end.

(** ** The roots of a workspace ([collect/members.rs]) *)
Definition select_override (name range : string) (overrides : gmap string string) : option string :=
  match overrides !! name with
  | Some value => Some value
  | None =>
      match overrides !! (name +:+ "@npm:" +:+ range) with
      | Some value => Some value
      | None => overrides !! (name +:+ "@" +:+ range)
      end
  end.

Context `{UrlCrate}.

(** The body of the loop over the applied specifiers. *)
Definition member_range (workspace : Workspace) (overrides : gmap string string) (name range : string)
  : Result string :=
  let range := default range (select_override name range overrides) in
  if starts_with "workspace:" range then
    match project_by_name workspace name ≫= (fun project => m_version (p_manifest project)) with
    | Some version =>
        normalized ← normalize_workspace_spec name range version;
        Ok (if is_empty normalized then version else normalized)
    | None => Ok range
    end
  else Ok range.

Definition apply_member_specs (manifest_deps : gmap string string) (workspace : Workspace)
    (overrides : gmap string string) : Result (gmap string string) :=
  applied ← apply_specs manifest_deps (Some workspace) None ∅ None;
  try_fold (fun applied '(name, range) =>
    range ← member_range workspace overrides name range;
    Ok (<[name := range]> applied)) (ap_result applied) (btree_iter (ap_result applied)).

Definition build_member_root_specs (workspace : Workspace) (member : Project) (include_dev : bool)
    (overrides : gmap string string) : Result RootSpecSet :=
  dependencies ← apply_member_specs (m_dependencies (p_manifest member)) workspace overrides;
  optional_dependencies ← apply_member_specs (m_optional_dependencies (p_manifest member)) workspace overrides;
  development_dependencies ←
    (if include_dev then apply_member_specs (m_dev_dependencies (p_manifest member)) workspace overrides
     else Ok ∅);
  Ok (build_project_root_specs dependencies development_dependencies optional_dependencies include_dev).

(** The bodies of the two inner loops and of the loop over the members. *)
Definition collect_required (workspace : Workspace) (member : Project) (required : gmap string string)
    (entry : string * string) : Result (gmap string string) :=
  insert_workspace_root_dep required (w_root workspace) (p_root member) entry.1 entry.2.

Definition collect_optional (workspace : Workspace) (member : Project) (specs : RootSpecSet)
    (entry : string * string) : Result RootSpecSet :=
  let '(name, range) := entry in
  match required specs !! name with
  | Some _ =>
      merged ← insert_workspace_root_dep (required specs) (w_root workspace) (p_root member) name range;
      Ok {| required := merged; optional := optional specs |}
  | None =>
      merged ← insert_workspace_root_dep (optional specs) (w_root workspace) (p_root member) name range;
      Ok {| required := required specs; optional := merged |}
  end.

Definition collect_member (workspace : Workspace) (include_dev : bool) (overrides : gmap string string)
    (specs : RootSpecSet) (member : Project) : Result RootSpecSet :=
  member_specs ← build_member_root_specs workspace member include_dev overrides;
  merged ← try_fold (collect_required workspace member) (required specs) (btree_iter (required member_specs));
  try_fold (collect_optional workspace member) {| required := merged; optional := optional specs |}
    (btree_iter (optional member_specs)).

Definition collect_workspace_root_specs_with_overrides (workspace : Workspace) (include_dev : bool)
    (overrides : gmap string string) : Result RootSpecSet :=
  try_fold (collect_member workspace include_dev overrides) {| required := ∅; optional := ∅ |}
    (w_projects workspace).

Definition collect_workspace_root_specs (workspace : Workspace) (include_dev : bool) : Result RootSpecSet :=
  collect_workspace_root_specs_with_overrides workspace include_dev ∅.

Definition collect_workspace_root_deps (workspace : Workspace) (include_dev : bool)
  : Result (gmap string string) :=
  root_specs ← collect_workspace_root_specs workspace include_dev;
  Ok (foldl (fun combined '(name, range) =>
        match combined !! name with Some _ => combined | None => <[name := range]> combined end)
        (required root_specs) (btree_iter (optional root_specs))).
End merge.

(** ** Merged ranges *)
Section merge_lemmas.
Context `{SemverCrate}.

(** The floor of a range, and that another range admits it. *)
Definition floor_is (range : string) (v : Version) : Prop :=
  exists text, range_floor range = Some text /\ parse_version text = Ok v.
Definition admits (range : string) (v : Version) : Prop :=
  exists ranges, Range.parse_internal range = Ok ranges /\ Range.matches ranges v = true.

Lemma choose_more_specific_either existing incoming f g :
  choose_more_specific existing incoming f g = existing \/ choose_more_specific existing incoming f g = incoming.
Proof. unfold choose_more_specific. repeat case_match; auto. Qed.

(** two ranges that workspace members ask for are merged into one of the
    two; when they differ and count as compatible, the other range admits the
    floor of the merged one, and when they count as exclusive, neither admits
    the floor of the other.  No merge succeeds across different [file:]
    paths. *)
Theorem merge_workspace_ranges_spec existing incoming r :
  merge_workspace_ranges existing incoming = Some r -> existing <> incoming ->
  starts_with "file:" existing = false /\ starts_with "file:" incoming = false /\
  exists v w, floor_is existing v /\ floor_is incoming w /\
    match r with
    | Compatible merged => merged = incoming /\ admits existing w \/ merged = existing /\ admits incoming v
    | Exclusive winner => (winner = existing \/ winner = incoming) /\ ~ admits existing w /\ ~ admits incoming v
    end.
Proof.
  unfold merge_workspace_ranges. intros Hm Hne. apply String.eqb_neq in Hne. rewrite Hne in Hm.
  destruct (_ || _) eqn:Hfile; [done|]. bool_prop. split_and!; [done..|].
  destruct (Range.parse_internal existing) as [er|] eqn:Her; [|done]. cbn in Hm.
  destruct (Range.parse_internal incoming) as [ir|] eqn:Hir; [|done]. cbn in Hm.
  destruct (range_floor existing) as [ef|] eqn:Hef; [|done]. cbn in Hm.
  destruct (range_floor incoming) as [jf|] eqn:Hjf; [|done]. cbn in Hm.
  destruct (parse_version ef) as [v|] eqn:Hv; [|done]. cbn in Hm.
  destruct (parse_version jf) as [w|] eqn:Hw; [|done]. cbn in Hm.
  exists v, w. split; [by exists ef|]. split; [by exists jf|].
  assert (admits existing w <-> Range.matches er w = true) as He.
  { unfold admits. rewrite Her. naive_solver. }
  assert (admits incoming v <-> Range.matches ir v = true) as Hi.
  { unfold admits. rewrite Hir. naive_solver. }
  pose proof (choose_more_specific_either existing incoming ef jf) as Hc.
  destruct (Range.matches er w), (Range.matches ir v); injection Hm as <-; rewrite He, Hi; naive_solver.
Qed.

(** ** The names of a workspace's roots *)
Variable canonicalize : string -> result string string.
Notation insert := (insert_workspace_root_dep canonicalize).

Lemma insert_workspace_root_dep_dom combined root decl name range combined' :
  insert combined root decl name range = Ok combined' -> dom combined' = {[name]} ∪ dom combined.
Proof.
  unfold insert_workspace_root_dep. intros (resolved & _ & Hins)%result_bind_Ok.
  repeat case_match; simplify_eq; set_solver.
Qed.

Context `{UrlCrate}.
Variables (workspace : Workspace) (include_dev : bool) (overrides : gmap string string).

Lemma collect_required_dom member l : forall req req',
  try_fold (collect_required canonicalize workspace member) req l = Ok req' ->
  dom req' = dom req ∪ list_to_set l.*1.
Proof.
  induction l as [|[name range] l IH]; cbn; intros req req'; [intros [= <-]; set_solver|].
  intros (req1 & H1%insert_workspace_root_dep_dom & H2%IH)%result_bind_Ok. set_solver.
Qed.

Lemma collect_optional_dom member l : forall specs specs',
  try_fold (collect_optional canonicalize workspace member) specs l = Ok specs' ->
  dom (required specs') = dom (required specs) /\
  dom (required specs') ∪ dom (optional specs') =
    dom (required specs) ∪ dom (optional specs) ∪ list_to_set l.*1.
Proof.
  induction l as [|[name range] l IH]; cbn; intros specs specs'; [intros [= <-]; set_solver|].
  intros (specs1 & H1 & [IH1 IH2]%IH)%result_bind_Ok. rewrite IH2, IH1.
  destruct (required specs !! name) eqn:Hreq; apply result_bind_Ok in H1 as (m & Hm & H1); injection H1 as <-;
    apply insert_workspace_root_dep_dom in Hm; cbn in *; rewrite Hm; [|set_solver].
  apply elem_of_dom_2 in Hreq. set_solver.
Qed.

(** What a member contributes. *)
Definition member_roots (member : Project) (specs : RootSpecSet) : Prop :=
  member ∈ w_projects workspace /\
  build_member_root_specs workspace member include_dev overrides = Ok specs.

Lemma collect_members members : forall specs specs',
  try_fold (collect_member canonicalize workspace include_dev overrides) specs members = Ok specs' ->
  forall name,
  (name ∈ dom (required specs') <-> name ∈ dom (required specs) \/
     exists member ms, member ∈ members /\ build_member_root_specs workspace member include_dev overrides = Ok ms /\
                       name ∈ dom (required ms)) /\
  (name ∈ dom (required specs') ∪ dom (optional specs') <->
     name ∈ dom (required specs) ∪ dom (optional specs) \/
     exists member ms, member ∈ members /\ build_member_root_specs workspace member include_dev overrides = Ok ms /\
                       name ∈ dom (required ms) ∪ dom (optional ms)).
Proof.
  assert (forall (m : gmap string string), list_to_set (btree_iter m).*1 = dom m) as Hkeys.
  { intros m. apply set_eq. intros k. rewrite elem_of_list_to_set, elem_of_dom. apply elem_of_btree_keys. }
  induction members as [|member members IH]; cbn; intros specs specs'.
  { intros [= <-] name. set_solver. }
  intros (specs1 & H1 & Hrest)%result_bind_Ok name. destruct (IH _ _ Hrest name) as [-> ->].
  apply result_bind_Ok in H1 as (ms & Hms & (req & Hreq & Hopt)%result_bind_Ok).
  apply collect_required_dom in Hreq. apply collect_optional_dom in Hopt as [Hd Hu]. cbn in Hd, Hu.
  assert (forall Q : RootSpecSet -> Prop,
    (exists m ms', m ∈ member :: members /\ build_member_root_specs workspace m include_dev overrides = Ok ms' /\ Q ms')
    <-> Q ms \/
        exists m ms', m ∈ members /\ build_member_root_specs workspace m include_dev overrides = Ok ms' /\ Q ms') as Hcons.
  { intros Q. setoid_rewrite elem_of_cons. split; [|naive_solver].
    intros (m & ms' & [->|Hin] & Hb & HQ); [left; congruence|eauto 6]. }
  rewrite !Hcons, Hu, Hd, Hreq, !Hkeys, !elem_of_union. split; tauto.
Qed.

(** the roots of a workspace name what its members ask for: a name is a
    required root exactly when some member requires it (as a dependency, or a
    development dependency when those count, and not as an optional one), and a
    root at all exactly when some member lists it. *)
Theorem collect_workspace_root_specs_names specs name :
  collect_workspace_root_specs_with_overrides canonicalize workspace include_dev overrides = Ok specs ->
  (name ∈ dom (required specs) <-> exists member ms, member_roots member ms /\ name ∈ dom (required ms)) /\
  (name ∈ dom (required specs) ∪ dom (optional specs) <->
     exists member ms, member_roots member ms /\ name ∈ dom (required ms) ∪ dom (optional ms)).
Proof.
  intros Hc. destruct (collect_members _ _ _ Hc name) as [-> ->]. cbn.
  unfold member_roots. split; set_unfold; naive_solver.
Qed.
End merge_lemmas.

(** ** What [apply_specs] leaves to resolve *)
Section apply_lemmas.
Context `{SemverCrate} `{UrlCrate}.
Variables (workspace : option Workspace) (catalog : option CatalogConfig).

(** What an entry of the manifest stands for: its specifier, read from the
    catalog if it names one, and whether a workspace member serves it. *)
Definition entry_stands_for (name value resolved : string) (local : bool) : Prop :=
  (if starts_with "catalog:" value then resolve_catalog_spec name value workspace catalog = Ok resolved
   else resolved = value) /\
  match workspace with
  | Some workspace => is_local_workspace_dependency workspace name resolved = Ok local
  | None => local = false
  end.

Lemma apply_spec_ok acc name value acc' :
  apply_spec workspace catalog acc (name, value) = Ok acc' ->
  exists resolved local, entry_stands_for name value resolved local /\
    ap_result acc' = (if local then ap_result acc else <[name := resolved]> (ap_result acc)) /\
    ap_local_set acc' = (if local then {[name]} ∪ ap_local_set acc else ap_local_set acc).
Proof.
  unfold apply_spec, entry_stands_for. intros (resolved & Hr & (local & Hl & Hacc)%result_bind_Ok)%result_bind_Ok.
  exists resolved, local. split.
  - split; [destruct (starts_with _ _); [done|congruence]|]. destruct workspace; [done|congruence].
  - destruct local; injection Hacc as <-; done.
Qed.

Lemma apply_specs_loop l : forall acc acc',
  NoDup l.*1 -> try_fold (apply_spec workspace catalog) acc l = Ok acc' ->
  forall name,
  match (list_to_map l : gmap string string) !! name with
  | None => ap_result acc' !! name = ap_result acc !! name /\
            (name ∈ ap_local_set acc' <-> name ∈ ap_local_set acc)
  | Some value =>
      exists resolved local, entry_stands_for name value resolved local /\
        if local then ap_result acc' !! name = ap_result acc !! name /\ name ∈ ap_local_set acc'
        else ap_result acc' !! name = Some resolved /\
             (name ∈ ap_local_set acc' <-> name ∈ ap_local_set acc)
  end.
Proof.
  induction l as [|[n v] l IH]; intros acc acc' Hnd; cbn.
  { intros [= <-] name. by rewrite lookup_empty. }
  intros (acc1 & Hstep & Hrest)%result_bind_Ok name. inversion Hnd as [|?? Hn Hnd']; subst.
  apply apply_spec_ok in Hstep as (resolved & local & Hstands & Hres & Hloc).
  specialize (IH acc1 acc' Hnd' Hrest name). rewrite Hres, Hloc in IH.
  destruct (decide (n = name)) as [->|Hne].
  - rewrite lookup_insert_eq. rewrite not_elem_of_list_to_map_1 in IH by done. destruct IH as [Hr Hl].
    exists resolved, local. split; [done|]. destruct local; rewrite Hr, Hl; [set_solver|by rewrite lookup_insert_eq].
  - rewrite lookup_insert_ne by done.
    assert (forall b : bool, (if b then ap_result acc else <[n:=resolved]> (ap_result acc)) !! name
                             = ap_result acc !! name) as Hsame.
    { intros []; [done|]. by rewrite lookup_insert_ne. }
    rewrite Hsame in IH.
    assert (name ∈ (if local then {[n]} ∪ ap_local_set acc else ap_local_set acc) <-> name ∈ ap_local_set acc) as Hin.
    { destruct local; set_solver. }
    destruct (list_to_map l !! name) as [value|]; [|by rewrite <-Hin].
    destruct IH as (resolved' & local' & Hs & IH). exists resolved', local'. split; [done|].
    destruct local'; [done|]. by rewrite <-Hin.
Qed.

Lemma apply_specs_outcome specs local_set protocols acc name :
  apply_specs specs workspace catalog local_set protocols = Ok acc ->
  match specs !! name with
  | None => ap_result acc !! name = None /\ (name ∈ ap_local_set acc <-> name ∈ local_set)
  | Some value =>
      exists resolved local, entry_stands_for name value resolved local /\
        if local then ap_result acc !! name = None /\ name ∈ ap_local_set acc
        else ap_result acc !! name = Some resolved /\ (name ∈ ap_local_set acc <-> name ∈ local_set)
  end.
Proof.
  unfold apply_specs. intros Hf. eapply apply_specs_loop with (name := name) in Hf; [|apply NoDup_btree_keys].
  rewrite list_to_map_btree_iter in Hf. cbn in Hf. by rewrite lookup_empty in Hf.
Qed.

(** applying the specifiers of a manifest splits them in two: a name whose
    specifier (read from the catalog if it says so) is answered by a workspace
    member goes to the local set and nowhere else, every other name is left to
    resolve with that specifier, and no name is added. *)
Theorem apply_specs_splits specs local_set protocols acc name :
  apply_specs specs workspace catalog local_set protocols = Ok acc ->
  match specs !! name with
  | None => ap_result acc !! name = None /\ (name ∈ ap_local_set acc <-> name ∈ local_set)
  | Some value =>
      exists resolved local, entry_stands_for name value resolved local /\
        if local then ap_result acc !! name = None /\ name ∈ ap_local_set acc
        else ap_result acc !! name = Some resolved /\ (name ∈ ap_local_set acc <-> name ∈ local_set)
  end.
Proof. apply apply_specs_outcome. Qed.
End apply_lemmas.

(** ** Required and optional roots *)
(** Dependencies come before development dependencies, optional ones before
    both; a name is never required and optional. *)
Lemma build_project_root_specs_lookup prod dev_deps opt include_dev name :
  let specs := build_project_root_specs prod dev_deps opt include_dev in
  optional specs = opt /\
  required specs !! name =
    match opt !! name with
    | Some _ => None
    | None => match prod !! name with
              | Some range => Some range
              | None => if include_dev then dev_deps !! name else None
              end
    end.
Proof.
  split; [done|]. unfold build_project_root_specs; cbn. rewrite foldl_delete_lookup.
  destruct (opt !! name) eqn:Ho.
  { rewrite decide_True; [done|]. apply elem_of_btree_keys. eauto. }
  rewrite decide_False; [|rewrite elem_of_btree_keys, Ho; by intros []].
  destruct include_dev; [|by destruct (prod !! name)].
  rewrite (foldl_ext _ (fun m e => match m !! e.1 with Some _ => m | None => <[e.1 := id e.2]> m end))
    by by intros ? [].
  rewrite (btree_foldl_or_insert_lookup (fun _ => id)). destruct (prod !! name); [done|].
  by destruct (dev_deps !! name).
Qed.

(** ** What [add] writes *)
Section written.
Variables (manifest : Manifest) (graph : ResolutionGraph) (additions : gmap string string) (dev : bool).
Variables (workspace : option Workspace) (catalog : option CatalogConfig) (save_prefix : string).

Definition section_of (sections : Sections) (name : string) : option string * option string * option string :=
  (sections.1.1 !! name, sections.1.2 !! name, sections.2 !! name).

Lemma update_sections_lookup sections n dep name :
  section_of (update_sections graph additions dev workspace catalog save_prefix sections (n, dep)) name =
  match additions !! n with
  | Some requested =>
      if decide (n = name) then
        let spec := Some (manifest_spec_for_dependency n requested (id_version (rd_resolved dep))
                            workspace catalog save_prefix) in
        if dev then (None, spec, None) else (spec, None, None)
      else section_of sections name
  | None => section_of sections name
  end.
Proof.
  destruct sections as [[prod dd] opt]. unfold update_sections, section_of.
  destruct (additions !! n); [|done]. destruct (decide (n = name)) as [->|Hne]; destruct dev; cbn.
  all: by rewrite ?lookup_insert_eq, ?lookup_insert_ne, ?lookup_delete_eq, ?lookup_delete_ne by done.
Qed.

Lemma written_sections_loop l : forall sections name, NoDup l.*1 ->
  section_of (foldl (update_sections graph additions dev workspace catalog save_prefix) sections l) name =
  match (list_to_map l : gmap string RootDependency) !! name, additions !! name with
  | Some dep, Some requested =>
      let spec := Some (manifest_spec_for_dependency name requested (id_version (rd_resolved dep))
                          workspace catalog save_prefix) in
      if dev then (None, spec, None) else (spec, None, None)
  | _, _ => section_of sections name
  end.
Proof.
  induction l as [|[n dep] l IH]; intros sections name Hnd; cbn -[update_sections]; [by rewrite lookup_empty|].
  inversion Hnd as [|?? Hn Hnd']; subst. rewrite IH, update_sections_lookup by done.
  destruct (decide (n = name)) as [->|Hne].
  - rewrite lookup_insert_eq, not_elem_of_list_to_map_1 by done. by destruct (additions !! name).
  - rewrite lookup_insert_ne by done. destruct (list_to_map l !! name), (additions !! name), (additions !! n); done.
Qed.

(** After [add], a package that was asked for and resolved is in exactly
    one section of the manifest, the production or the development one, under
    its catalog selector, or as it was asked for, or with the save prefix and
    the resolved version for a bare request; every other entry is as before. *)
Theorem written_sections_spec name :
  section_of (written_sections manifest graph additions dev workspace catalog save_prefix) name =
  match g_root graph !! name, additions !! name with
  | Some dep, Some requested =>
      let spec := Some (manifest_spec_for_dependency name requested (id_version (rd_resolved dep))
                          workspace catalog save_prefix) in
      if dev then (None, spec, None) else (spec, None, None)
  | _, _ => (m_dependencies manifest !! name, m_dev_dependencies manifest !! name,
             m_optional_dependencies manifest !! name)
  end.
Proof.
  unfold written_sections. rewrite written_sections_loop by apply NoDup_btree_keys.
  by rewrite list_to_map_btree_iter.
Qed.
End written.

(** ** Witnesses and counterexamples *)
Module RootsDemo.
Definition ver (a b c : N) : Version := (a, b, c) : triple.

Definition member (name version : string) (deps opt : list (string * string)) : Project := {|
  p_root := "/ws/" +:+ name; p_manifest_path := "/ws/" +:+ name +:+ "/package.json";
  p_manifest := {|
    m_name := Some name; m_version := Some version; m_package_manager := None; m_private := false;
    m_dependencies := list_to_map deps; m_dev_dependencies := ∅;
    m_optional_dependencies := list_to_map opt;
    m_scripts := ∅; m_resolutions := ∅; m_overrides := ∅; m_files := None; m_bin := None;
    m_main := None; m_pnpm := None; m_snpm := None; m_workspaces := None; m_extra := ∅ |} |}.

Definition workspace (projects : list Project) : Workspace := {|
  w_root := "/ws"; w_projects := projects;
  w_config := {| wc_packages := []; wc_catalog := {["react" := "^18.0.0"]}; wc_catalogs := ∅;
                 wc_only_built_dependencies := []; wc_ignored_built_dependencies := [];
                 wc_disable_global_virtual_store_for_packages := None; wc_hoisting := None |} |}.

Definition app : Project :=
  member "app" "1.0.0" [("ui", "workspace:^"); ("react", "catalog:"); ("lodash", "^4.17.0")] [].
Definition ui : Project := member "ui" "2.1.0" [("lodash", "^4.18.0")] [("fsevents", "^2.0.0")].

Definition no_links (path : string) : result string string := Ok path.

Definition roots (projects : list Project) : Result RootSpecSet :=
  collect_workspace_root_specs_with_overrides no_links (workspace projects) true ∅.

Example collected :
  (fun specs => (map_to_list (required specs), map_to_list (optional specs))) <$> roots [app; ui] =
  Ok (map_to_list (list_to_map [("react", "^18.0.0"); ("lodash", "^4.18.0")] : gmap string string),
      [("fsevents", "^2.0.0")]).
Proof. vm_refl. Qed.

Lemma merge_workspace_ranges_spec_witness :
  starts_with "file:" "^4.17.0" = false /\ starts_with "file:" "^4.18.0" = false /\
  exists v w, floor_is "^4.17.0" v /\ floor_is "^4.18.0" w /\
    ("^4.18.0" = "^4.18.0" /\ admits "^4.17.0" w \/ "^4.18.0" = "^4.17.0" /\ admits "^4.18.0" v).
Proof. apply (merge_workspace_ranges_spec "^4.17.0" "^4.18.0" (Compatible "^4.18.0")); [vm_refl|done]. Defined.

Lemma collect_workspace_root_specs_names_witness :
  exists specs, roots [app; ui] = Ok specs /\
    ("lodash" ∈ dom (required specs) <->
     exists member ms, member_roots (workspace [app; ui]) true ∅ member ms /\ "lodash" ∈ dom (required ms)).
Proof.
  assert (exists specs, roots [app; ui] = Ok specs) as [specs Hs] by (apply is_ok_true; vm_refl).
  exists specs. split; [exact Hs|].
  apply (collect_workspace_root_specs_names no_links (workspace [app; ui]) true ∅ specs "lodash" Hs).
Defined.

Lemma apply_specs_splits_witness :
  exists acc, apply_specs (m_dependencies (p_manifest app)) (Some (workspace [app; ui])) None ∅ None = Ok acc /\
    exists resolved local, entry_stands_for (Some (workspace [app; ui])) None "ui" "workspace:^" resolved local /\
      if local then ap_result acc !! "ui" = None /\ "ui" ∈ ap_local_set acc
      else ap_result acc !! "ui" = Some resolved /\ ("ui" ∈ ap_local_set acc <-> "ui" ∈ (∅ : gset string)).
Proof.
  assert (exists acc, apply_specs (m_dependencies (p_manifest app)) (Some (workspace [app; ui])) None ∅ None = Ok acc)
    as [acc Hacc] by (apply is_ok_true; vm_refl).
  exists acc. split; [exact Hacc|].
  apply (apply_specs_splits (Some (workspace [app; ui])) None (m_dependencies (p_manifest app)) ∅ None acc "ui" Hacc).
Defined.

(** The comment of [RangeMerge::Compatible] says that the merged range
    satisfies both members.  Only its floor does: a member that asks for
    [^1.2.0] and one that asks for [>=1.5.0] are merged into [>=1.5.0], which
    admits 2.0.0. *)
Theorem compatible_merge_can_exceed_a_member :
  merge_workspace_ranges "^1.2.0" ">=1.5.0" = Some (Compatible ">=1.5.0") /\
  admits ">=1.5.0" (ver 2 0 0) /\ ~ admits "^1.2.0" (ver 2 0 0).
Proof.
  split; [vm_refl|]. split.
  - exists (match Range.parse_internal ">=1.5.0" with Ok r => r | Err _ => {| Range.original := ε; Range.ranges := [] |} end).
    split; vm_refl.
  - intros (r & Hr & Hm).
    assert (Range.parse_internal "^1.2.0" =
            Ok {| Range.original := "^1.2.0"; Range.ranges := [[CCaret (1, 2, 0)%N]] |}) as Hp by vm_refl.
    rewrite Hp in Hr. injection Hr as <-. discriminate Hm.
Qed.

(** The roots depend on the order of the members: a dependency that one member
    lists as optional and a later one requires is in both sets, with two ranges
    that were never merged; in the other order it is required only. *)
Theorem optional_before_required_is_not_merged :
  (fun specs => (required specs !! "x", optional specs !! "x")) <$>
    roots [member "a" "1.0.0" [] [("x", "^1.0.0")]; member "b" "1.0.0" [("x", "^1.5.0")] []] =
  Ok (Some "^1.5.0", Some "^1.0.0") /\
  (fun specs => (required specs !! "x", optional specs !! "x")) <$>
    roots [member "b" "1.0.0" [("x", "^1.5.0")] []; member "a" "1.0.0" [] [("x", "^1.0.0")]] =
  Ok (Some "^1.5.0", None).
Proof. split; vm_refl. Qed.
End RootsDemo.
