(* ===== verification/Config.v ===== *)
(** * Configuration and credentials ([config/])

    The registry configuration files ([config/rc/]), the environment variables
    ([config/env_vars.rs], [config/runtime/]) and how both become a
    [SnpmConfig]; which registry serves a package and which credentials go with
    a request ([config/access/]).  The process environment, the file system and
    the directories of the user are read through a [Process]. *)
From S2P Require Import Prelude.
From S2P Require Import BTree.
From S2P Require Import Text.
From S2P Require Import Errors.
From S2P Require Import Types.
From S2P Require Import Paths.

(** ** URLs ([rc/url/]) *)
Definition strip_default_port (hostport scheme : string) : string :=
  match split_once ":" hostport with
  | None => hostport
  | Some (host, port) =>
      let default_https := (scheme == "https") && (port == "443") in
      let default_http := (scheme == "http") && (port == "80") in
      if default_https || default_http then host else hostport
  end.

Definition host_from_url (url : string) : option string :=
  let trimmed := trim url in
  if is_empty trimmed then None
  else
    let is_https := starts_with "https://" trimmed in
    let is_http := starts_with "http://" trimmed in
    let rest :=
      match strip_prefix "https://" trimmed with
      | Some rest => rest
      | None => default trimmed (strip_prefix "http://" trimmed)
      end in
    let hostport := trim (before_char (Ascii.eqb "/") rest) in
    if is_empty hostport then None
    else
      let host :=
        if is_https then strip_default_port (to_ascii_lowercase hostport) "https"
        else if is_http then strip_default_port (to_ascii_lowercase hostport) "http"
        else to_ascii_lowercase hostport in
      if is_empty host then None else Some host.

Definition normalize_registry_url (value : string) : string :=
  let url := if starts_with "//" value then "https:" +:+ value else value in
  let url := default url (strip_suffix "/" url) in
  let schemed :=
    match strip_prefix "https://" url with
    | Some rest => Some ("https", rest)
    | None =>
    match strip_prefix "http://" url with
    | Some rest => Some ("http", rest)
    | None => (fun rest => ("https", rest)) <$> strip_prefix "//" url
    end end in
  match schemed with
  | None => url
  | Some (scheme, rest) =>
      let '(hostport, suffix) := default (rest, ε) (split_once "/" rest) in
      let host := strip_default_port (to_ascii_lowercase hostport) scheme in
      if is_empty suffix then scheme +:+ "://" +:+ host
      else scheme +:+ "://" +:+ host +:+ "/" +:+ suffix
  end.

(** ** Variables in the files ([rc/env.rs]) *)

(** [String::push(byte as char)]: a byte above 127 is taken for a Latin-1
    character, which UTF-8 writes with two bytes. *)
Definition push_byte (a : ascii) : string :=
  let n := nat_of_ascii a in
  if (n <? 128)%nat then chr a
  else String (ascii_of_nat (192 + n / 64)) (chr (ascii_of_nat (128 + n mod 64))).

Definition is_name_char (a : ascii) : bool :=
  Ascii.eqb a "_" || is_ascii_digit a || nat_in (nat_of_ascii a) 65 90 || nat_in (nat_of_ascii a) 97 122.

(** What follows the dollar sign: the name of the variable, its fallback, and
    the text after the closing brace. *)
Definition braced_env_reference (after_dollar : string) : option (string * option string * string) :=
  rest ← strip_prefix "{" after_dollar;
  '(body, after) ← split_once "}" rest;
  if is_empty body then None
  else match find_str ":-" body with
       | Some separator => Some (stake separator body, Some (sdrop (separator + 2) body), after)
       | None => Some (body, None, after)
       end.

Fixpoint name_end (s : string) : nat :=
  match s with String a s => if is_name_char a then S (name_end s) else 0 | ε => 0 end.

Section expand.
Variable env_var : string -> option string.

Definition non_empty (value : option string) : option string :=
  value ← value; if is_empty value then None else Some value.

(** The loop of [expand_env_vars]; each turn consumes at least a byte. *)
Fixpoint expand_go (fuel : nat) (text : string) : string :=
  match fuel, text with
  | S fuel, String a rest =>
      if negb (Ascii.eqb a "$") then push_byte a +:+ expand_go fuel rest
      else
        match braced_env_reference rest with
        | Some (name, fallback, after) =>
            default (default ε fallback) (non_empty (env_var name)) +:+ expand_go fuel after
        | None =>
            let len := name_end rest in
            let name := stake len rest in
            if is_empty name then "$" +:+ expand_go fuel rest
            else default ε (env_var name) +:+ expand_go fuel (sdrop len rest)
        end
  | _, _ => ε
  end.

Definition expand_env_vars (text : string) : string := expand_go (String.length text) text.
End expand.

Definition parse_package_name_list (value : string) : gset string :=
  let trimmed := trim value in
  let trimmed :=
    if starts_with "[" trimmed && ends_with "]" trimmed
    then stake (String.length trimmed - 2) (sdrop 1 trimmed) else trimmed in
  list_to_set (filter (fun part => is_empty part = false)
    ((fun part => trim_by (fun a => Ascii.eqb a "034" || Ascii.eqb a "'") (trim part)) <$> split_char "," trimmed)).

(** ** The entries of a file ([rc/types.rs], [rc/file/apply/]) *)
Record RegistryConfig := {
  rc_default_registry : string;
  rc_scoped : gmap string string;
  rc_registry_auth : gmap string string;
  rc_registry_auth_schemes : gmap string AuthScheme;
  rc_default_auth_token : option string;
  rc_hoisting : option HoistingMode;
  rc_disable_global_virtual_store_for_packages : option (gset string);
  rc_default_auth_basic : bool;
  rc_always_auth : bool;
  rc_save_exact : option bool;
  rc_save_prefix : option string;
}.

Definition is_enabled (value : string) : bool :=
  one_of (to_ascii_lowercase (trim value)) ["1"; "true"; "yes"; "y"; "on"].

Definition normalize_auth_host (host_and_path : string) : string :=
  let raw_host := trim_end_matches "/" (trim (before_char (Ascii.eqb "/") host_and_path)) in
  let host := to_ascii_lowercase raw_host in
  match split_once ":" host with
  | None => host
  | Some (name, port) => if (port == "80") || (port == "443") then name else host
  end.

Definition parse_scoped_auth_key (rest : string) : option (string * AuthScheme) :=
  match strip_suffix "/:_authToken" rest with
  | Some prefix => Some (prefix, Bearer)
  | None =>
  match strip_suffix ":_authToken" rest with
  | Some prefix => Some (prefix, Bearer)
  | None =>
  match strip_suffix "/:_auth" rest with
  | Some prefix => Some (prefix, Basic)
  | None => (fun prefix => (prefix, Basic)) <$> strip_suffix ":_auth" rest
  end end end.

Definition apply_scoped_auth (config : RegistryConfig) (rest value : string) : RegistryConfig :=
  match parse_scoped_auth_key rest with
  | None => config
  | Some (host_and_path, auth_scheme) =>
      if is_empty value then config
      else
        let host := normalize_auth_host host_and_path in
        if is_empty host then config
        else {| rc_default_registry := rc_default_registry config; rc_scoped := rc_scoped config;
                rc_registry_auth := <[host := value]> (rc_registry_auth config);
                rc_registry_auth_schemes := <[host := auth_scheme]> (rc_registry_auth_schemes config);
                rc_default_auth_token := rc_default_auth_token config; rc_hoisting := rc_hoisting config;
                rc_disable_global_virtual_store_for_packages :=
                  rc_disable_global_virtual_store_for_packages config;
                rc_default_auth_basic := rc_default_auth_basic config;
                rc_always_auth := rc_always_auth config; rc_save_exact := rc_save_exact config;
                rc_save_prefix := rc_save_prefix config |}
  end.

(** The assignments to single fields. *)
Definition set_registry (config : RegistryConfig) (registry : string) (scoped : gmap string string) : RegistryConfig :=
  {| rc_default_registry := registry; rc_scoped := scoped;
     rc_registry_auth := rc_registry_auth config;
     rc_registry_auth_schemes := rc_registry_auth_schemes config;
     rc_default_auth_token := rc_default_auth_token config; rc_hoisting := rc_hoisting config;
     rc_disable_global_virtual_store_for_packages := rc_disable_global_virtual_store_for_packages config;
     rc_default_auth_basic := rc_default_auth_basic config; rc_always_auth := rc_always_auth config;
     rc_save_exact := rc_save_exact config; rc_save_prefix := rc_save_prefix config |}.
Definition set_default_auth (config : RegistryConfig) (token : string) (basic : bool) : RegistryConfig :=
  {| rc_default_registry := rc_default_registry config; rc_scoped := rc_scoped config;
     rc_registry_auth := rc_registry_auth config;
     rc_registry_auth_schemes := rc_registry_auth_schemes config;
     rc_default_auth_token := Some token; rc_hoisting := rc_hoisting config;
     rc_disable_global_virtual_store_for_packages := rc_disable_global_virtual_store_for_packages config;
     rc_default_auth_basic := basic; rc_always_auth := rc_always_auth config;
     rc_save_exact := rc_save_exact config; rc_save_prefix := rc_save_prefix config |}.
Definition set_options (config : RegistryConfig) (hoisting : option HoistingMode)
    (packages : option (gset string)) (always_auth : bool) (save_exact : option bool)
    (save_prefix : option string) : RegistryConfig :=
  {| rc_default_registry := rc_default_registry config; rc_scoped := rc_scoped config;
     rc_registry_auth := rc_registry_auth config;
     rc_registry_auth_schemes := rc_registry_auth_schemes config;
     rc_default_auth_token := rc_default_auth_token config; rc_hoisting := hoisting;
     rc_disable_global_virtual_store_for_packages := packages;
     rc_default_auth_basic := rc_default_auth_basic config; rc_always_auth := always_auth;
     rc_save_exact := save_exact; rc_save_prefix := save_prefix |}.

Definition apply_rc_entry (config : RegistryConfig) (key value : string) : RegistryConfig :=
  let options h p a e s := set_options config h p a e s in
  let hoisting := rc_hoisting config in
  let packages := rc_disable_global_virtual_store_for_packages config in
  let always_auth := rc_always_auth config in
  let save_exact := rc_save_exact config in
  let save_prefix := rc_save_prefix config in
  if key == "registry" then
    if is_empty value then config
    else set_registry config (normalize_registry_url value) (rc_scoped config)
  else if one_of key ["snpm-hoist"; "snpm.hoist"; "snpm_hoist"] then
    match hoisting_mode_parse value with
    | Some mode => options (Some mode) packages always_auth save_exact save_prefix
    | None => config
    end
  else if one_of key ["disableGlobalVirtualStoreForPackages"; "disable-global-virtual-store-for-packages";
                      "disable_global_virtual_store_for_packages"] then
    options hoisting (Some (parse_package_name_list value)) always_auth save_exact save_prefix
  else
    match strip_suffix ":registry" key with
    | Some scope =>
        let scope := trim scope in
        if negb (is_empty scope) && negb (is_empty value)
        then set_registry config (rc_default_registry config)
               (<[scope := normalize_registry_url value]> (rc_scoped config))
        else config
    | None =>
    match strip_prefix "//" key with
    | Some rest => apply_scoped_auth config rest value
    | None =>
        if (key == "_authToken") && negb (is_empty value)
        then set_default_auth config value (rc_default_auth_basic config)
        else if (key == "_auth") && negb (is_empty value) then set_default_auth config value true
        else if one_of key ["always-auth"; "always_auth"; "always.auth"]
        then options hoisting packages (is_enabled value) save_exact save_prefix
        else if one_of key ["save-exact"; "save_exact"]
        then options hoisting packages always_auth (Some (is_enabled value)) save_prefix
        else if one_of key ["save-prefix"; "save_prefix"]
        then options hoisting packages always_auth save_exact (Some (trim value))
        else config
    end end.

(** ** The process the program runs in *)
Record Process := {
  (** [env::var(_).ok()] *)
  env_var : string -> option string;
  tree : FileTree;
  (** [env::current_dir().ok()] *)
  current_dir : option string;
  (** the crate [directories]: the home directory of [BaseDirs], the cache and
      data directories of [ProjectDirs] *)
  home_dir : option string;
  project_dirs : option (string * string);
}.

Section process.
Variable process : Process.
Notation var := (env_var process).

(** ** Files ([rc/file/]) *)
Definition parse_rc_entry (line : string) : option (string * string) :=
  match split_once "=" line with
  | None =>
      let key := trim line in
      if is_empty key || starts_with "//" key then None else Some (key, "true")
  | Some (key, value) =>
      let key := trim key in
      let value := expand_env_vars var (trim value) in
      Some (key, if ends_with "/" value && negb (starts_with "//" key)
                 then default value (strip_suffix "/" value) else value)
  end.

Definition apply_rc_line (config : RegistryConfig) (line : string) : RegistryConfig :=
  let trimmed := trim line in
  if is_empty trimmed || starts_with "#" trimmed || starts_with ";" trimmed then config
  else match parse_rc_entry trimmed with
       | None => config
       | Some (key, value) => apply_rc_entry config key value
       end.

Definition apply_rc_file (config : RegistryConfig) (path : string) : RegistryConfig :=
  if negb (is_file (tree process) path) then config
  else match read_to_string (tree process) path with
       | Err _ => config
       | Ok data => foldl apply_rc_line config (lines data)
       end.

Inductive ConfigEnvPrefix := Snpm | Pnpm | Npm.
Definition prefix_lower (self : ConfigEnvPrefix) : string :=
  match self with Snpm => "snpm_config_" | Pnpm => "pnpm_config_" | Npm => "npm_config_" end.
Definition prefix_upper (self : ConfigEnvPrefix) : string :=
  match self with Snpm => "SNPM_CONFIG_" | Pnpm => "PNPM_CONFIG_" | Npm => "NPM_CONFIG_" end.

Definition or_else {A} (o p : option A) : option A := match o with Some a => Some a | None => p end.

Definition read_non_empty_env (name : string) : option string := non_empty (trim <$> var name).

Definition read_config_env (key : string) (prefixes : list ConfigEnvPrefix) : option string :=
  let upper_key := to_ascii_uppercase key in
  head (omap (fun prefix =>
    or_else (read_non_empty_env (prefix_lower prefix +:+ key))
            (read_non_empty_env (prefix_upper prefix +:+ upper_key))) prefixes).

Definition cwd : string := default "." (current_dir process).

Definition normalize_user_config_path (path : string) : string :=
  let trimmed := trim path in
  match or_else (strip_prefix "~/" trimmed) (strip_prefix "~\" trimmed), home_dir process with
  | Some path, Some home => path_push home path
  | _, _ => if is_absolute trimmed then trimmed else path_push cwd trimmed
  end.

Definition configured_user_rc_path : option string :=
  normalize_user_config_path <$>
    or_else (read_config_env "npmrc_auth_file" [Snpm; Pnpm])
      (or_else (read_config_env "userconfig" [Snpm; Pnpm]) (read_config_env "userconfig" [Npm])).

Definition RC_FILES : list string := [".snpmrc"; ".npmrc"; ".pnpmrc"].

Definition build_rc_paths (directories : list string) : list string :=
  directories ≫= fun directory => path_push directory <$> RC_FILES.

Definition home_rc_paths : list string :=
  match home_dir process with None => [] | Some home => build_rc_paths [home] end.

Definition user_rc_paths : list string :=
  match configured_user_rc_path with Some path => [path] | None => home_rc_paths end.

Definition ancestor_rc_paths : list string := build_rc_paths (reverse (ancestors cwd)).

Definition initial_registry_config : RegistryConfig := {|
  rc_default_registry := "https://registry.npmjs.org/"; rc_scoped := ∅; rc_registry_auth := ∅;
  rc_registry_auth_schemes := ∅; rc_default_auth_token := None; rc_hoisting := None;
  rc_disable_global_virtual_store_for_packages := None; rc_default_auth_basic := false;
  rc_always_auth := false; rc_save_exact := None; rc_save_prefix := None |}.

Definition read_registry_config : RegistryConfig :=
  let config := foldl apply_rc_file initial_registry_config user_rc_paths in
  foldl apply_rc_file config ancestor_rc_paths.

(** ** Environment variables ([rc/env.rs], [runtime/env.rs]) *)
Definition env_flag_is_enabled : string -> bool := is_enabled.

Definition read_allow_scripts_from_env : gset string :=
  match var "SNPM_ALLOW_SCRIPTS" with Some value => parse_package_name_list value | None => ∅ end.

Definition read_disable_global_virtual_store_for_packages_from_env : option (gset string) :=
  parse_package_name_list <$>
    or_else (var "SNPM_DISABLE_GLOBAL_VIRTUAL_STORE_FOR_PACKAGES")
      (read_config_env "disable_global_virtual_store_for_packages" [Snpm; Pnpm; Npm]).

Definition parse_u32 (s : string) : option N :=
  n ← parse_u64 s; if (n <=? 4294967295)%N then Some n else None.

Definition parse_positive_u32_env (key : string) : option Z :=
  value ← var key;
  let trimmed := trim value in
  if is_empty trimmed then None
  else parsed ← parse_u32 trimmed; if (0 <? parsed)%N then Some (Z.of_N parsed) else None.

Definition read_min_package_age_from_env : option Z := parse_positive_u32_env "SNPM_MIN_PACKAGE_AGE_DAYS".

Definition read_min_package_cache_age_from_env : option Z :=
  match var "SNPM_MIN_PACKAGE_CACHE_AGE_DAYS" with
  | Some value =>
      if is_empty (trim value) then Some 7%Z
      else or_else (parse_positive_u32_env "SNPM_MIN_PACKAGE_CACHE_AGE_DAYS") (Some 7%Z)
  | None => Some 7%Z
  end.

Definition apply_default_registry_env (default_registry : string) (token : option string)
  : string * option string :=
  match read_config_env "registry" [Snpm; Pnpm; Npm] with
  | None => (default_registry, token)
  | Some new_default =>
      (normalize_registry_url new_default,
       if bool_decide (host_from_url default_registry = host_from_url new_default) then token else None)
  end.

Definition apply_auth_env (token : option string) (scheme : AuthScheme) : option string * AuthScheme :=
  match or_else (read_non_empty_env "SNPM_AUTH_TOKEN")
          (or_else (read_non_empty_env "NODE_AUTH_TOKEN") (read_non_empty_env "NPM_TOKEN")) with
  | Some token => (Some token, Bearer)
  | None =>
      match read_config_env "_auth" [Snpm; Pnpm; Npm] with
      | Some token => (Some token, Basic)
      | None => (token, scheme)
      end
  end.

(** The six settings of [apply_install_env], each from its own variable. *)
Definition install_hoisting (hoisting : HoistingMode) : HoistingMode :=
  match or_else (read_non_empty_env "SNPM_HOIST") (read_config_env "hoist" [Snpm; Pnpm]) with
  | Some value => default hoisting (hoisting_mode_parse (trim value))
  | None => hoisting
  end.
Definition install_link_backend (link_backend : LinkBackend) : LinkBackend :=
  match or_else (read_non_empty_env "SNPM_LINK_BACKEND") (read_config_env "link_backend" [Snpm]) with
  | Some value => default link_backend (link_backend_parse (trim value))
  | None => link_backend
  end.
Definition flag_or (value : option string) (flag : bool) : bool :=
  match value with Some value => env_flag_is_enabled value | None => flag end.
Definition install_strict_peers (strict_peers : bool) : bool :=
  flag_or (or_else (read_non_empty_env "SNPM_STRICT_PEERS")
             (read_config_env "strict_peer_dependencies" [Snpm; Pnpm])) strict_peers.
Definition install_frozen_lockfile (frozen : bool) : bool :=
  flag_or (or_else (read_non_empty_env "SNPM_FROZEN_LOCKFILE")
             (read_config_env "frozen_lockfile" [Snpm; Pnpm])) frozen.
Definition install_registry_concurrency (registry_concurrency : N) : N :=
  match or_else (read_non_empty_env "SNPM_REGISTRY_CONCURRENCY") (read_config_env "registry_concurrency" [Snpm])
        ≫= (fun value => parse_u64 (trim value)) with
  | Some parsed => if (0 <? parsed)%N then parsed else registry_concurrency
  | None => registry_concurrency
  end.
Definition install_always_auth (always_auth : bool) : bool :=
  always_auth ||
  flag_or (or_else (read_non_empty_env "SNPM_ALWAYS_AUTH") (read_config_env "always_auth" [Snpm; Pnpm; Npm])) false.

Definition apply_save_env (save_exact : bool) (save_prefix : string) : bool * string :=
  (flag_or (read_config_env "save_exact" [Snpm; Pnpm; Npm]) save_exact,
   match read_config_env "save_prefix" [Snpm; Pnpm; Npm] with Some value => trim value | None => save_prefix end).

Definition read_logging_env : bool * option string :=
  (flag_or (read_non_empty_env "SNPM_VERBOSE") false, read_non_empty_env "SNPM_LOG_FILE").

Definition read_remote_cache_env : option string * option string * bool :=
  ((fun value => trim_end_matches "/" (trim value)) <$> read_non_empty_env "SNPM_REMOTE_CACHE_URL",
   read_non_empty_env "SNPM_REMOTE_CACHE_TOKEN",
   flag_or (read_non_empty_env "SNPM_REMOTE_CACHE_READ_ONLY") false).

Definition resolve_home_dirs : string * string :=
  match var "SNPM_HOME" with
  | Some base => (path_push base "cache", path_push base "data")
  | None => default (path_push ".snpm" "cache", path_push ".snpm" "data") (project_dirs process)
  end.

(** ** [SnpmConfig::from_env] ([runtime/mod.rs]) *)
Definition from_env : SnpmConfig :=
  let '(cache_dir, data_dir) := resolve_home_dirs in
  let runtime_config := read_registry_config in
  let '(default_registry, token) :=
    apply_default_registry_env (rc_default_registry runtime_config) (rc_default_auth_token runtime_config) in
  let '(token, scheme) := apply_auth_env token Bearer in
  let '(save_exact, save_prefix) :=
    apply_save_env (default false (rc_save_exact runtime_config)) (default "^" (rc_save_prefix runtime_config)) in
  let '(verbose, log_file) := read_logging_env in
  let '(remote_cache_url, remote_cache_auth_token, remote_cache_read_only) := read_remote_cache_env in
  {| c_cache_dir := cache_dir; c_data_dir := data_dir;
     c_allow_scripts := read_allow_scripts_from_env;
     c_disable_global_virtual_store_for_packages :=
       default (default default_disable_global_virtual_store_for_packages
                  (rc_disable_global_virtual_store_for_packages runtime_config))
         read_disable_global_virtual_store_for_packages_from_env;
     c_min_package_age_days := read_min_package_age_from_env;
     c_min_package_cache_age_days := read_min_package_cache_age_from_env;
     c_default_registry := default_registry;
     c_scoped_registries := rc_scoped runtime_config;
     c_registry_auth := rc_registry_auth runtime_config;
     c_default_registry_auth_token := token;
     c_default_registry_auth_scheme := if rc_default_auth_basic runtime_config then Basic else scheme;
     c_registry_auth_schemes := rc_registry_auth_schemes runtime_config;
     c_hoisting := install_hoisting (default SingleVersion (rc_hoisting runtime_config));
     c_link_backend := install_link_backend LinkAuto;
     c_strict_peers := install_strict_peers false;
     c_save_exact := save_exact; c_save_prefix := save_prefix;
     c_frozen_lockfile_default := install_frozen_lockfile false;
     c_always_auth := install_always_auth (rc_always_auth runtime_config);
     c_registry_concurrency := install_registry_concurrency 128;
     c_verbose := verbose; c_log_file := log_file;
     c_remote_cache_url := remote_cache_url; c_remote_cache_auth_token := remote_cache_auth_token;
     c_remote_cache_read_only := remote_cache_read_only |}.
End process.

(** ** Registries and credentials ([access/auth.rs]) *)
Definition scheme_of (url : string) : option string :=
  let trimmed := trim url in
  match strip_prefix "https://" trimmed with
  | Some rest => if is_empty rest then None else Some "https"
  | None =>
      match strip_prefix "http://" trimmed with
      | Some rest => if is_empty rest then None else Some "http"
      | None => None
      end
  end.

Definition registry_url_for_package_name (self : SnpmConfig) (name : string) : string :=
  match split_once "/" name with
  | Some (scope, _) =>
      if starts_with "@" scope then default (c_default_registry self) (c_scoped_registries self !! scope)
      else c_default_registry self
  | None => c_default_registry self
  end.

Definition auth_token_for_url (self : SnpmConfig) (url : string) : option string :=
  host ← host_from_url url;
  match c_registry_auth self !! host with
  | Some token => Some token
  | None =>
      default_host ← host_from_url (c_default_registry self);
      if host == default_host then c_default_registry_auth_token self else None
  end.

Definition auth_scheme_for_url (self : SnpmConfig) (url : string) : AuthScheme :=
  default (c_default_registry_auth_scheme self)
    (host_from_url url ≫= fun host => c_registry_auth_schemes self !! host).

Definition authorization_header_for_url (self : SnpmConfig) (url : string) : option string :=
  token ← auth_token_for_url self url;
  Some (match auth_scheme_for_url self url with
        | Bearer => "Bearer " +:+ token
        | Basic => "Basic " +:+ token
        end).

Definition authorization_header_for_tarball (self : SnpmConfig) (package_name tarball_url : string) : option string :=
  let registry_url := registry_url_for_package_name self package_name in
  registry_host ← host_from_url registry_url;
  tarball_host ← host_from_url tarball_url;
  if negb (registry_host == tarball_host) then None
  else if negb (bool_decide (scheme_of registry_url = scheme_of tarball_url)) then None
  else authorization_header_for_url self tarball_url.

(** ** Directories ([access/directories.rs]) *)
Definition tarball_blob_cache_dir (self : SnpmConfig) : string := path_push (c_cache_dir self) "tarballs-v1".
Definition packages_dir (self : SnpmConfig) : string := path_push (c_data_dir self) "packages".
Definition virtual_store_dir (self : SnpmConfig) : string := path_push (c_data_dir self) "virtual-store".
Definition side_effects_cache_dir (self : SnpmConfig) : string := path_push (c_data_dir self) "side-effects-v1".
Definition metadata_dir (self : SnpmConfig) : string := path_push (c_data_dir self) "metadata".
Definition store_residency_index_path (self : SnpmConfig) : string :=
  path_push (metadata_dir self) "store-residency-v1.bin".
Definition global_dir (self : SnpmConfig) : string := path_push (c_data_dir self) "global".
Definition global_bin_dir (self : SnpmConfig) : string := path_push (c_data_dir self) "bin".

(** ** Where credentials go *)
Lemma before_char_split f s :
  exists after, s = before_char f s +:+ after /\ all_chars (fun a => negb (f a)) (before_char f s) = true /\
    (after = ε \/ exists a rest, after = String a rest /\ f a = true).
Proof.
  induction s as [|a s (after & IH & Hall & Hafter)]; cbn; [exists ε; auto|].
  destruct (f a) eqn:Ha.
  - exists (String a s). split_and!; [done..|]. eauto.
  - exists after. rewrite app_cons_s, <-IH. cbn. by rewrite Ha.
Qed.

Definition default_port (scheme : string) : string := if scheme == "https" then "443" else "80".

Lemma strip_default_port_cases hostport scheme host :
  (scheme = "https" \/ scheme = "http") -> strip_default_port hostport scheme = host ->
  hostport = host \/ hostport = host +:+ ":" +:+ default_port scheme.
Proof.
  unfold strip_default_port. intros Hs <-. destruct (split_once ":" hostport) as [[h p]|] eqn:Hsplit; [|by left].
  apply split_once_Some in Hsplit as [-> _]. destruct (_ || _) eqn:Hd; [|by left]. right. bool_prop.
  destruct Hd, Hs as [-> | ->]; bool_prop; subst; done.
Qed.

(** A URL of a scheme, in the text of the request, whose authority names the
    host: up to case, surrounding white space and the default port. *)
Definition url_of_host (url scheme host : string) : Prop :=
  exists authority rest,
    trim url = scheme +:+ "://" +:+ authority +:+ rest /\
    contains_char "/" authority = false /\ (rest = ε \/ exists path, rest = String "/" path) /\
    (to_ascii_lowercase (trim authority) = host \/
     to_ascii_lowercase (trim authority) = host +:+ ":" +:+ default_port scheme).

Lemma scheme_host_url url scheme host :
  scheme_of url = Some scheme -> host_from_url url = Some host -> url_of_host url scheme host.
Proof.
  unfold scheme_of, host_from_url. set (t := trim url). intros Hscheme Hhost.
  destruct (is_empty t); [done|].
  assert (exists rest, (scheme = "https" \/ scheme = "http") /\ t = scheme +:+ "://" +:+ rest /\
    strip_default_port (to_ascii_lowercase (trim (before_char (Ascii.eqb "/") rest))) scheme = host)
    as (rest & Hs & Ht & Hstrip).
  { unfold starts_with in Hhost. destruct (strip_prefix "https://" t) as [rest|] eqn:Hp.
    - destruct (is_empty rest); [done|]. injection Hscheme as <-. exists rest.
      apply strip_prefix_Some in Hp. split_and!; [by left|done|]. repeat case_match; congruence.
    - destruct (strip_prefix "http://" t) as [rest|] eqn:Hp'; [|done].
      destruct (is_empty rest); [done|]. injection Hscheme as <-. exists rest.
      apply strip_prefix_Some in Hp'. split_and!; [by right|done|]. cbn in Hhost. repeat case_match; congruence. }
  destruct (before_char_split (Ascii.eqb "/") rest) as (after & Hrest & Hall & Hafter).
  exists (before_char (Ascii.eqb "/") rest), after. split_and!.
  - fold t. by rewrite <-Hrest.
  - by apply contains_char_false.
  - destruct Hafter as [?|(a & path & -> & Ha)]; [by left|]. right. exists path. apply Ascii.eqb_eq in Ha. by subst.
  - by apply strip_default_port_cases.
Qed.

(** C30: credentials for a tarball stay with the package's own registry: when a
    request for a tarball carries an authorization header, the URL has the host
    of the registry that serves the package, and the scheme too (so the text of
    the URL, whatever a packument made it, is [scheme://host], the default port
    allowed, and then a path), and the token is one configured for that host. *)
Theorem tarball_credentials_stay_home config name url header :
  authorization_header_for_tarball config name url = Some header ->
  let registry := registry_url_for_package_name config name in
  exists host token,
    host_from_url registry = Some host /\ host_from_url url = Some host /\
    (forall scheme, scheme_of registry = Some scheme -> url_of_host url scheme host) /\
    (header = "Bearer " +:+ token \/ header = "Basic " +:+ token) /\
    (c_registry_auth config !! host = Some token \/
     host_from_url (c_default_registry config) = Some host /\ c_default_registry_auth_token config = Some token).
Proof.
  unfold authorization_header_for_tarball. cbn zeta.
  destruct (host_from_url (registry_url_for_package_name config name)) as [host|] eqn:Hreg; [|done]; cbn.
  destruct (host_from_url url) as [h|] eqn:Hurl; [|done]; cbn.
  destruct (host == h) eqn:Hh; [|done]. cbn. bool_prop. subst h. case_bool_decide as Hscheme; [|done]. cbn.
  unfold authorization_header_for_url, auth_token_for_url. rewrite Hurl. cbn.
  intros (token & Htoken & Hheader)%bind_Some. exists host, token. split_and!; [done..| | |].
  - intros scheme Hs. apply scheme_host_url; [congruence|done].
  - injection Hheader as <-. destruct (auth_scheme_for_url config url); auto.
  - destruct (c_registry_auth config !! host); [left; congruence|]. right.
    apply bind_Some in Htoken as (dh & Hdh & Htoken). destruct (host == dh) eqn:Hd; [|done]. bool_prop. by subst.
Qed.

(** ** Expansion of variables *)
Section expand_lemmas.
#[local] Arguments braced_env_reference : simpl never.
Variable env : string -> option string.

Lemma sdrop_length_le n s : String.length (sdrop n s) <= String.length s.
Proof. revert s. induction n as [|n IH]; intros [|a s]; cbn; auto. Qed.

Lemma braced_length rest name fallback after :
  braced_env_reference rest = Some (name, fallback, after) -> String.length after <= String.length rest.
Proof.
  unfold braced_env_reference. intros (r & Hr%strip_prefix_Some & ([body a] & Hs%split_once_Some & Hb)%bind_Some)%bind_Some.
  destruct Hs as [-> _]. subst rest. rewrite !length_app_s. cbn.
  destruct (is_empty body); [done|]. destruct (find_str _ _); injection Hb as _ _ ->; lia.
Qed.

(** Enough fuel: the loop ends, and more fuel changes nothing. *)
Lemma expand_go_fuel fuel : forall fuel' text,
  String.length text <= fuel -> String.length text <= fuel' -> expand_go env fuel text = expand_go env fuel' text.
Proof.
  induction fuel as [|fuel IH]; intros [|fuel'] [|a rest]; cbn; try lia; try done. intros H1 H2.
  destruct (negb _); [f_equal; apply IH; lia|].
  destruct (braced_env_reference rest) as [[[name fallback] after]|] eqn:Hb.
  - apply braced_length in Hb. f_equal. apply IH; lia.
  - pose proof (sdrop_length_le (name_end rest) rest). destruct (is_empty _); f_equal; apply IH; lia.
Qed.

(** What the loop does, without fuel. *)
Lemma expand_env_vars_plain a rest :
  Ascii.eqb a "$" = false -> expand_env_vars env (String a rest) = push_byte a +:+ expand_env_vars env rest.
Proof. intros Ha. unfold expand_env_vars. cbn. by rewrite Ha. Qed.

Lemma expand_env_vars_braced rest name fallback after :
  braced_env_reference rest = Some (name, fallback, after) ->
  expand_env_vars env (String "$" rest) =
  default (default ε fallback) (non_empty (env name)) +:+ expand_env_vars env after.
Proof.
  intros Hb. unfold expand_env_vars. cbn. rewrite Hb. f_equal.
  apply braced_length in Hb. apply expand_go_fuel; lia.
Qed.

(** Text without a dollar sign, in ASCII, stands for itself. *)
Lemma expand_env_vars_id text :
  all_chars (fun a => (nat_of_ascii a <? 128)%nat && negb (Ascii.eqb a "$")) text = true ->
  expand_env_vars env text = text.
Proof.
  induction text as [|a text IH]; [done|]. cbn [all_chars]. intros Hall. bool_prop.
  rewrite expand_env_vars_plain by done. rewrite IH by done. unfold push_byte.
  match goal with H : (_ <? _)%nat = true |- _ => by rewrite H end.
Qed.

(** Other text does not: its bytes are pushed one by one as characters, so a
    letter that UTF-8 writes with two bytes becomes two letters. *)
Definition e_acute : string := String (ascii_of_nat 195) (chr (ascii_of_nat 169)).

Theorem expand_env_vars_mangles_utf8 : expand_env_vars env e_acute <> e_acute.
Proof. discriminate. Qed.
End expand_lemmas.

(** ** Witnesses and counterexamples *)
Module ConfigDemo.
(** A process in [/work] whose user has an [.npmrc], as the project does. *)
Definition process (vars : list (string * string)) (user_rc project_rc : string) : Process :=
  let files : gmap string string := {["/home/u/.npmrc" := user_rc; "/work/.npmrc" := project_rc]} in {|
  env_var name := (list_to_map vars : gmap string string) !! name;
  tree := {| symlink_metadata path := match files !! path with Some _ => Ok (TFile, 0%N) | None => Err "not found" end;
             metadata path := match files !! path with Some _ => Ok TFile | None => Err "not found" end;
             read path := ok_or "not found" (files !! path);
             read_dir _ := Err "not a directory" |};
  current_dir := Some "/work"; home_dir := Some "/home/u"; project_dirs := None |}.

Example scoped_token :
  authorization_header_for_tarball
    (from_env (process [("T", "s3cret")] "//npm.acme.com/:_authToken=${T}" "@acme:registry=https://npm.acme.com/"))
    "@acme/widget" "https://NPM.acme.com:443/w.tgz" = Some "Bearer s3cret".
Proof. vm_refl. Qed.

Lemma tarball_credentials_stay_home_witness :
  let config := from_env (process [("T", "s3cret")] "//npm.acme.com/:_authToken=${T}"
                            "@acme:registry=https://npm.acme.com/") in
  let registry := registry_url_for_package_name config "@acme/widget" in
  exists host token,
    host_from_url registry = Some host /\ host_from_url "https://NPM.acme.com:443/w.tgz" = Some host /\
    (forall scheme, scheme_of registry = Some scheme -> url_of_host "https://NPM.acme.com:443/w.tgz" scheme host) /\
    ("Bearer s3cret" = "Bearer " +:+ token \/ "Bearer s3cret" = "Basic " +:+ token) /\
    (c_registry_auth config !! host = Some token \/
     host_from_url (c_default_registry config) = Some host /\ c_default_registry_auth_token config = Some token).
Proof. apply tarball_credentials_stay_home. vm_refl. Defined.

(** The environment variable for another registry drops the token of the file,
    but a configuration file does not: a project that only names another
    default registry receives the user's default token. *)
Theorem project_file_redirects_default_token :
  authorization_header_for_url
    (from_env (process [] "_authToken=s3cret" "registry=https://other.example")) "https://other.example/pkg" =
    Some "Bearer s3cret" /\
  authorization_header_for_url
    (from_env (process [("npm_config_registry", "https://other.example")] "_authToken=s3cret" ε))
    "https://other.example/pkg" = None.
Proof. split; vm_refl. Qed.

(** Once a file has set [_auth], the default token is sent as [Basic], also when
    the environment or a later file replaced it by a bearer token. *)
Theorem basic_scheme_outlives_its_token :
  authorization_header_for_url
    (from_env (process [("NODE_AUTH_TOKEN", "tok")] "_auth=dXNlcjpwYXNz" ε)) "https://registry.npmjs.org/pkg" =
    Some "Basic tok" /\
  authorization_header_for_url
    (from_env (process [] "_auth=dXNlcjpwYXNz" "_authToken=tok")) "https://registry.npmjs.org/pkg" =
    Some "Basic tok".
Proof. split; vm_refl. Qed.

(** A token for port 443 is also used on port 80, in clear, and one for port 80
    on port 443; [https] on port 80 finds no token at all. *)
Theorem auth_host_ignores_the_scheme_of_its_port :
  authorization_header_for_url (from_env (process [] "//h.example:443/:_authToken=t" ε)) "http://h.example/pkg" =
    Some "Bearer t" /\
  authorization_header_for_url (from_env (process [] "//h.example:80/:_authToken=t" ε)) "https://h.example:80/pkg" =
    None.
Proof. split; vm_refl. Qed.
End ConfigDemo.
