(* ===== verification/Publish.v ===== *)
(** * Publishing ([operations/publish/], [project/package_json.rs])

    What leaves the repository: the manifest with the specifiers that only mean
    something inside a monorepo replaced ([rewrite.rs]), written in npm's field
    order; the checks before an upload ([mod.rs]); the payload that is sent
    ([payload.rs]).  Reading the workspace and the catalog from disk is an
    outcome given to the functions that ask for it. *)
From S2P Require Import Prelude.
From S2P Require Import BTree.
From S2P Require Import Text.
From S2P Require Import Errors.
From S2P Require Import Types.
From S2P Require Import Paths.
From S2P Require Import Crates.
From S2P Require Import Roots.
From S2P Require Import Store.
From S2P Require Import Pack.
From S2P Require Import Config.

(** ** Field order ([project/package_json.rs]) *)
Definition PACKAGE_JSON_FIELD_ORDER : list string :=
  ["$schema"; "name"; "displayName"; "version"; "stableVersion"; "private"; "description";
   "categories"; "keywords"; "homepage"; "bugs"; "repository"; "funding"; "license"; "qna";
   "author"; "maintainers"; "contributors"; "publisher"; "sideEffects"; "type"; "imports";
   "exports"; "main"; "svelte"; "umd:main"; "jsdelivr"; "unpkg"; "module"; "source"; "jsnext:main";
   "browser"; "react-native"; "types"; "typesVersions"; "typings"; "style"; "example";
   "examplestyle"; "assets"; "bin"; "man"; "directories"; "files"; "workspaces"; "binary";
   "scripts"; "betterScripts"; "l10n"; "contributes"; "activationEvents"; "husky";
   "simple-git-hooks"; "pre-commit"; "commitlint"; "lint-staged"; "nano-staged"; "config";
   "nodemonConfig"; "browserify"; "babel"; "browserslist"; "xo"; "prettier"; "eslintConfig";
   "eslintIgnore"; "npmpkgjsonlint"; "npmPackageJsonLintConfig"; "npmpackagejsonlint"; "release";
   "remarkConfig"; "stylelint"; "ava"; "jest"; "jest-junit"; "jest-stare"; "mocha"; "nyc"; "c8";
   "tap"; "oclif"; "resolutions"; "overrides"; "dependencies"; "devDependencies";
   "dependenciesMeta"; "peerDependencies"; "peerDependenciesMeta"; "optionalDependencies";
   "bundledDependencies"; "bundleDependencies"; "extensionPack"; "extensionDependencies"; "flat";
   "packageManager"; "engines"; "engineStrict"; "devEngines"; "volta"; "languageName"; "os"; "cpu";
   "preferGlobal"; "publishConfig"; "icon"; "badges"; "galleryBanner"; "preview"; "markdown";
   "pnpm"; "snpm"].

(** [OrderedPackageJson::from_object]: the known fields in npm's order, then the
    others by name.  The object is consumed field by field. *)
Definition take_field (acc : list (string * json) * gmap string json) (key : string)
  : list (string * json) * gmap string json :=
  let '(entries, object) := acc in
  match object !! key with
  | Some value => (entries ++ [(key, value)], delete key object)
  | None => (entries, object)
  end.

Definition from_object (object : gmap string json) : list (string * json) :=
  let '(entries, object) := foldl take_field ([], object) PACKAGE_JSON_FIELD_ORDER in
  entries ++ btree_iter object.

(** [serde_json::to_string_pretty] of an object given by its fields. *)
Class JsonPrinter := { to_string_pretty : list (string * json) -> result string string }.

Definition format_manifest_object `{JsonPrinter} (object : gmap string json) (path : string) : Result string :=
  data ← map_err (SerializeJson path) (to_string_pretty (from_object object));
  Ok (data +:+ chr "010").

(** ** Rewriting specifiers ([rewrite.rs]) *)
Definition DEP_SECTIONS : list string :=
  ["dependencies"; "devDependencies"; "optionalDependencies"; "peerDependencies"].

Definition is_monorepo_spec (spec : string) : bool :=
  starts_with "workspace:" spec || starts_with "catalog:" spec.

Definition manifest_has_monorepo_specs (manifest : json) : bool :=
  existsb (fun section =>
    match json_get section manifest ≫= as_object with
    | None => false
    | Some map => existsb (fun spec => match as_str spec with
                                       | Some spec => is_monorepo_spec spec
                                       | None => false
                                       end) (btree_values map)
    end) DEP_SECTIONS.

Definition concrete_range (range : string) (version : Result string) : Result string :=
  if is_empty range || (range == "*") then version
  else if range == "~" then version ← version; Ok ("~" +:+ version)
  else if range == "^" then version ← version; Ok ("^" +:+ version)
  else Ok range.

Definition split_workspace_alias (rest : string) : option (string * string) :=
  match rfind_char "@" rest with
  | None | Some O => None
  | Some at_ =>
      let target := stake at_ rest in
      if is_empty target then None else Some (target, sdrop (S at_) rest)
  end.

Definition sibling_version (name : string) (workspace : option Workspace) : Result string :=
  workspace ← ok_or (ManifestInvalid "package.json"
    ("dependency " +:+ name +:+ " uses the workspace: protocol but the project is not in a workspace")) workspace;
  project ← ok_or (WorkspaceConfig (w_root workspace)
    ("workspace dependency " +:+ name +:+ " was not found among workspace packages"))
    (project_by_name workspace name);
  ok_or (ManifestInvalid (p_manifest_path project)
    ("workspace package " +:+ name +:+ " has no version to publish against")) (m_version (p_manifest project)).

Section rewrite.
Variables (workspace : option Workspace) (catalog : option CatalogConfig).

Definition rewrite_spec (name spec : string) : Result (option string) :=
  match strip_prefix "workspace:" spec with
  | Some rest =>
      match split_workspace_alias rest with
      | Some (target, range) =>
          rewritten ← concrete_range range (sibling_version target workspace);
          Ok (Some ("npm:" +:+ target +:+ "@" +:+ rewritten))
      | None =>
          rewritten ← concrete_range rest (sibling_version name workspace);
          Ok (Some rewritten)
      end
  | None =>
      if starts_with "catalog:" spec then
        rewritten ← resolve_catalog_spec name spec workspace catalog;
        Ok (Some rewritten)
      else Ok None
  end.

(** The bodies of the two loops of [rewrite_published_manifest]; the state is
    the section, or the manifest, and whether anything changed. *)
Definition rewrite_entry (acc : gmap string json * bool) (entry : string * json)
  : Result (gmap string json * bool) :=
  let '(map, changed) := acc in
  match entry with
  | (name, JString spec) =>
      rewritten ← rewrite_spec name spec;
      Ok (match rewritten with
          | Some rewritten => (<[name := JString rewritten]> map, true)
          | None => (map, changed)
          end)
  | _ => Ok acc
  end.

Definition rewrite_section (acc : json * bool) (section : string) : Result (json * bool) :=
  let '(manifest, changed) := acc in
  match manifest with
  | JObject object =>
      match object !! section with
      | Some (JObject map) =>
          '(map, changed) ← try_fold rewrite_entry (map, changed) (btree_iter map);
          Ok (JObject (<[section := JObject map]> object), changed)
      | _ => Ok acc
      end
  | _ => Ok acc
  end.

Definition rewrite_published_manifest (manifest : json) : Result (json * bool) :=
  try_fold rewrite_section (manifest, false) DEP_SECTIONS.
End rewrite.

(** The outcomes of [Workspace::discover] and [CatalogConfig::load] for the
    project; they are looked at only when the manifest needs them. *)
Section manifest.
Context `{JsonCrate} `{JsonPrinter}.
Variables (tree : FileTree) (discovered : Result (option Workspace)) (loaded : Result (option CatalogConfig)).

Definition rewrite_manifest_in_place (manifest : json) : Result (json * bool) :=
  if negb (manifest_has_monorepo_specs manifest) then Ok (manifest, false)
  else
    workspace ← discovered;
    catalog ← loaded;
    rewrite_published_manifest workspace catalog manifest.

(** [manifest.rs] *)
Definition read_manifest_value (project : Project) : Result json :=
  manifest_json ← map_err (ReadFile (p_manifest_path project)) (read_to_string tree (p_manifest_path project));
  map_err (ParseJson (p_manifest_path project)) (json_from_str manifest_json).

Definition prepare_manifest_for_publish (project : Project) : Result json :=
  manifest ← read_manifest_value project;
  '(manifest, _) ← rewrite_manifest_in_place manifest;
  Ok manifest.

Definition rewritten_manifest_bytes (project : Project) : Result (option string) :=
  manifest ← read_manifest_value project;
  '(manifest, changed) ← rewrite_manifest_in_place manifest;
  if negb changed then Ok None
  else match manifest with
       | JObject object =>
           formatted ← format_manifest_object object (p_manifest_path project);
           Ok (Some formatted)
       | _ => Ok None
       end.
End manifest.

(** ** Identity and checks ([manifest.rs], [mod.rs]) *)
Record PackageIdentity := { pkg_name : string; pkg_version : string }.

Definition publish_identity (project : Project) : Result PackageIdentity :=
  name ← ok_or (ManifestInvalid (p_manifest_path project)
    ("package.json must have a " +:+ chr "034" +:+ "name" +:+ chr "034" +:+ " field to publish"))
    (m_name (p_manifest project));
  version ← ok_or (ManifestInvalid (p_manifest_path project)
    ("package.json must have a " +:+ chr "034" +:+ "version" +:+ chr "034" +:+ " field to publish"))
    (m_version (p_manifest project));
  Ok {| pkg_name := name; pkg_version := version |}.

Record PublishOptions := {
  tag : string;
  access : option string;
  otp : option string;
  dry_run : bool;
  allow_risks : list string;
}.

Definition publish_options_default : PublishOptions :=
  {| tag := "latest"; access := None; otp := None; dry_run := false; allow_risks := [] |}.

Definition allowed_risks (project : Project) (options : PublishOptions) : gset string :=
  let configured := match publish_policy project with
                    | Some config => to_ascii_uppercase <$> pub_allow_risks config
                    | None => []
                    end in
  list_to_set (configured ++ (to_ascii_uppercase <$> allow_risks options)).

Definition validate_publish (project : Project) (package : PackageIdentity) (inspection : PackInspection)
    (tarball_path : string) (options : PublishOptions) : Result unit :=
  if m_private (p_manifest project) then
    Err (PublishFailed (pkg_name package) (pkg_version package)
      ("package.json has " +:+ chr "034" +:+ "private" +:+ chr "034" +:+ ": true"))
  else
    let allowed := allowed_risks project options in
    let blocked := filter (fun f => is_blocking f && negb (bool_decide (code f ∈ allowed)) = true)
                     (findings inspection) in
    match blocked with
    | [] => Ok tt
    | _ =>
        let reason := join ", " ((fun f => match pf_path f with
                                           | Some path => code f +:+ " (" +:+ path +:+ ")"
                                           | None => code f
                                           end) <$> blocked) in
        Err (PublishFailed (pkg_name package) (pkg_version package)
          ("publish safety check failed for " +:+ tarball_path +:+ ": " +:+ reason
           +:+ ". Re-run with --allow-risk <CODE> only if this is intentional"))
    end.

Definition publish_registry (config : SnpmConfig) (manifest_value : json) (name : string) : string :=
  let configured : option string :=
    (json_get "publishConfig" manifest_value ≫= json_get "registry") ≫= as_str in
  match non_empty (trim <$> configured) with
  | Some registry => registry
  | None => registry_url_for_package_name config name
  end.

(** ** The payload ([payload.rs]) *)
Definition tarball_basename (name : string) : string :=
  match rfind_char "/" name with Some i => sdrop (S i) name | None => name end.

Section payload.
Context `{DigestCrates}.

Definition obj (fields : list (string * json)) : json := JObject (list_to_map fields).

Definition build_dist (registry : string) (package : PackageIdentity) (tarball_bytes : string) : json :=
  let digest := hasher_finalize (hasher_update (hasher_new Sha1) tarball_bytes) in
  obj [("integrity", JString ("sha1-" +:+ base64_encode digest));
       ("shasum", JString (hex_encode digest));
       ("tarball", JString (trim_end_matches "/" registry +:+ "/" +:+ pkg_name package +:+ "/-/"
                            +:+ tarball_basename (pkg_name package) +:+ "-" +:+ pkg_version package +:+ ".tgz"))].

Definition build_version_meta (package : PackageIdentity) (manifest_value dist : json) : gmap string json :=
  <["dist" := dist]>
    (<["_id" := JString (pkg_name package +:+ "@" +:+ pkg_version package)]>
      (default ∅ (as_object manifest_value))).

Definition build_publish_payload (tree : FileTree) (registry : string) (package : PackageIdentity)
    (manifest_value : json) (tarball_path : string) (options : PublishOptions) : Result json :=
  tarball_bytes ← map_err (ReadFile tarball_path) (read tree tarball_path);
  let dist := build_dist registry package tarball_bytes in
  let attachment_name := tarball_basename (pkg_name package) +:+ "-" +:+ pkg_version package +:+ ".tgz" in
  let payload : gmap string json := list_to_map
    [("_id", JString (pkg_name package)); ("name", JString (pkg_name package));
     ("description", default JNull (json_get "description" manifest_value));
     ("dist-tags", obj [(tag options, JString (pkg_version package))]);
     ("versions", obj [(pkg_version package, JObject (build_version_meta package manifest_value dist))]);
     ("_attachments", obj [(attachment_name,
        obj [("content_type", JString "application/octet-stream");
             ("data", JString (base64_encode tarball_bytes));
             ("length", JNumber (show_nat (String.length tarball_bytes)))])])] in
  Ok (JObject (match access options with
               | Some access => <["access" := JString access]> payload
               | None => payload
               end)).

(** ** [publish], up to the request that is sent: [None] is a dry run. *)
Definition publish `{JsonCrate} (tree : FileTree) (discovered : Result (option Workspace))
    (loaded : Result (option CatalogConfig)) (config : SnpmConfig) (project : Project)
    (inspection : PackInspection) (tarball_path : string) (options : PublishOptions)
  : Result (option (string * json)) :=
  package ← publish_identity project;
  _ ← validate_publish project package inspection tarball_path options;
  if dry_run options then Ok None
  else
    manifest_value ← prepare_manifest_for_publish tree discovered loaded project;
    let registry := publish_registry config manifest_value (pkg_name package) in
    payload ← build_publish_payload tree registry package manifest_value tarball_path options;
    Ok (Some (registry, payload)).
End payload.

(** ** The checks before an upload *)
Lemma validate_publish_outcome project package inspection tarball_path options :
  validate_publish project package inspection tarball_path options = Ok tt <->
  m_private (p_manifest project) = false /\
  forall f, f ∈ findings inspection -> is_blocking f = true -> code f ∈ allowed_risks project options.
Proof.
  unfold validate_publish. destruct (m_private _); [split; [done|by intros []]|].
  set (blocked := filter _ _).
  assert (forall f, f ∈ blocked <-> f ∈ findings inspection /\ is_blocking f = true /\
            ~ code f ∈ allowed_risks project options) as Hb.
  { intros f. unfold blocked. rewrite list_elem_of_filter, andb_true_iff, negb_true_iff, bool_decide_eq_false. tauto. }
  destruct blocked as [|f blocked].
  - split; [intros _|done]. split; [done|]. intros f Hf Hblock.
    destruct (decide (code f ∈ allowed_risks project options)); [done|].
    exfalso. apply (not_elem_of_nil f), Hb. done.
  - split; [done|]. intros [_ Hall]. destruct (proj1 (Hb f) ltac:(by left)) as (Hf & Hblock & Hnot).
    destruct Hnot. by apply Hall.
Qed.

Lemma publish_sends `{DigestCrates} `{JsonCrate} tree discovered loaded config project inspection
    tarball_path options request :
  publish tree discovered loaded config project inspection tarball_path options = Ok request ->
  (exists package, publish_identity project = Ok package /\
     validate_publish project package inspection tarball_path options = Ok tt) /\
  (is_Some request <-> dry_run options = false).
Proof.
  unfold publish. intros (package & Hid & ([] & Hval & Hrest)%result_bind_Ok)%result_bind_Ok.
  split; [by exists package|]. destruct (dry_run options); [injection Hrest as <-; split; [by intros []|done]|].
  apply result_bind_Ok in Hrest as (m & _ & (p & _ & Hp)%result_bind_Ok). injection Hp as <-. by split.
Qed.


(** ** What is rewritten *)
Section rewrite_lemmas.
Variables (workspace : option Workspace) (catalog : option CatalogConfig).
Notation rewrite := (rewrite_spec workspace catalog).

(** The value of an entry of a dependency section after the rewriting. *)
Definition rewritten_value (name : string) (value value' : json) : Prop :=
  match value with
  | JString spec =>
      if is_monorepo_spec spec then exists range, rewrite name spec = Ok (Some range) /\ value' = JString range
      else value' = value
  | _ => value' = value
  end.

Lemma rewrite_spec_some name spec r :
  rewrite name spec = Ok r -> is_Some r <-> is_monorepo_spec spec = true.
Proof.
  unfold rewrite_spec, is_monorepo_spec, starts_with at 2.
  destruct (strip_prefix "workspace:" spec) as [rest|]; cbn [orb].
  - intros Hr. split; [done|]. intros _. destruct (split_workspace_alias rest) as [[target range]|];
      apply result_bind_Ok in Hr as (x & _ & Hx); injection Hx as <-; eauto.
  - destruct (starts_with "catalog:" spec); [|intros [= <-]; split; [by intros []|done]].
    intros (x & _ & Hx)%result_bind_Ok. injection Hx as <-. by split.
Qed.

Lemma rewrite_entry_ok map changed name value map' changed' :
  rewrite_entry workspace catalog (map, changed) (name, value) = Ok (map', changed') ->
  map !! name = Some value ->
  exists value', rewritten_value name value value' /\ map' = <[name := value']> map.
Proof.
  intros Hr Hmap. assert (forall m, Ok (m, changed) = Ok (map', changed') :> Result _ -> m = map') as Hm by congruence.
  destruct value as [| | |spec| |]; cbn in Hr;
    try (apply Hm in Hr as <-; eexists; split; [reflexivity|by rewrite insert_id]).
  apply result_bind_Ok in Hr as (r & Hrw & Hr). pose proof (rewrite_spec_some name spec r Hrw) as Hmono.
  unfold rewritten_value. destruct r as [range|].
  - rewrite (proj1 Hmono) by eauto. injection Hr as <- <-. exists (JString range). split; [by exists range|done].
  - destruct (is_monorepo_spec spec); [destruct (proj2 Hmono eq_refl); congruence|].
    injection Hr as <- <-. eexists. split; [done|]. by rewrite insert_id.
Qed.

Lemma rewrite_entries_ok l : forall map changed map' changed',
  NoDup l.*1 -> (forall name value, (name, value) ∈ l -> map !! name = Some value) ->
  try_fold (rewrite_entry workspace catalog) (map, changed) l = Ok (map', changed') ->
  forall name,
  match (list_to_map l : gmap string json) !! name with
  | Some value => exists value', rewritten_value name value value' /\ map' !! name = Some value'
  | None => map' !! name = map !! name
  end.
Proof.
  induction l as [|[n v] l IH]; intros map changed map' changed' Hnd Hin; cbn.
  { intros [= <- <-] name. by rewrite lookup_empty. }
  intros ([map1 changed1] & Hstep & Hrest)%result_bind_Ok name. inversion Hnd as [|?? Hn Hnd']; subst.
  apply rewrite_entry_ok in Hstep as (v' & Hv' & ->); [|apply Hin; by left].
  assert (forall name value, (name, value) ∈ l -> <[n := v']> map !! name = Some value) as Hin'.
  { intros k value Hk. rewrite lookup_insert_ne; [apply Hin; by right|].
    intros ->. apply Hn. change k with (k, value).1. by apply list_elem_of_fmap_2. }
  specialize (IH _ _ _ _ Hnd' Hin' Hrest name). destruct (decide (n = name)) as [->|Hne].
  - rewrite lookup_insert_eq. rewrite not_elem_of_list_to_map_1 in IH by done.
    rewrite lookup_insert_eq in IH. eauto.
  - rewrite lookup_insert_ne in IH |- * by done. done.
Qed.

(** A dependency section before and after. *)
Definition rewritten_section (map map' : gmap string json) : Prop :=
  forall name, match map !! name with
               | Some value => exists value', rewritten_value name value value' /\ map' !! name = Some value'
               | None => map' !! name = None
               end.

Lemma rewrite_section_ok object changed section manifest' changed' :
  rewrite_section workspace catalog (JObject object, changed) section = Ok (manifest', changed') ->
  exists object', manifest' = JObject object' /\
    (forall key, key <> section -> object' !! key = object !! key) /\
    match object !! section with
    | Some (JObject map) => exists map', object' !! section = Some (JObject map') /\ rewritten_section map map'
    | value => object' !! section = value
    end.
Proof.
  cbn. destruct (object !! section) as [value|] eqn:Hs; [|intros [= <- <-]; by exists object].
  destruct value as [| | | | |map]; try (intros [= <- <-]; by exists object).
  intros ([map' changed1] & Hfold & Hr)%result_bind_Ok. injection Hr as <- <-.
  exists (<[section := JObject map']> object). split; [done|]. split.
  - intros key Hne. by rewrite lookup_insert_ne.
  - exists map'. rewrite lookup_insert_eq. split; [done|]. intros name.
    eapply rewrite_entries_ok with (name := name) in Hfold; [|apply NoDup_btree_keys|].
    + rewrite list_to_map_btree_iter in Hfold. destruct (map !! name) eqn:Hm; [done|]. by rewrite Hfold.
    + intros n v. by rewrite elem_of_btree_iter.
Qed.

Lemma rewrite_sections_ok sections : forall object changed manifest' changed',
  NoDup sections ->
  try_fold (rewrite_section workspace catalog) (JObject object, changed) sections = Ok (manifest', changed') ->
  exists object', manifest' = JObject object' /\
    forall key, match object !! key with
                | Some (JObject map) =>
                    if decide (key ∈ sections)
                    then exists map', object' !! key = Some (JObject map') /\ rewritten_section map map'
                    else object' !! key = Some (JObject map)
                | value => object' !! key = value
                end.
Proof.
  induction sections as [|section sections IH]; intros object changed manifest' changed' Hnd.
  { intros [= <- <-]. exists object. split; [done|]. intros key. destruct (object !! key) as [[]|]; done. }
  cbn [try_fold]. intros ([m1 c1] & Hstep & Hrest)%result_bind_Ok. apply NoDup_cons in Hnd as [Hn Hnd].
  apply rewrite_section_ok in Hstep as (o1 & -> & Hother & Hsec).
  apply IH in Hrest as (o2 & -> & Ho2); [|done]. exists o2. split; [done|]. intros key.
  specialize (Ho2 key). destruct (decide (key = section)) as [->|Hne].
  - destruct (object !! section) as [[]|]; try by rewrite Hsec in Ho2.
    destruct Hsec as (map' & Hm' & Hre). rewrite Hm', decide_False in Ho2 by done.
    rewrite decide_True by (by left). by exists map'.
  - rewrite Hother in Ho2 by done. destruct (object !! key) as [[]|]; try done.
    destruct (decide (key ∈ sections)); [rewrite decide_True by (by right)|rewrite decide_False by (rewrite elem_of_cons; tauto)]; done.
Qed.

(** the published manifest is the manifest of the repository in which, in
    the four dependency sections, every [workspace:] and [catalog:] specifier is
    replaced by the range it stands for; all other entries and fields are
    untouched, and no name is added or lost. *)
Theorem rewrite_published_manifest_spec object manifest' changed :
  rewrite_published_manifest workspace catalog (JObject object) = Ok (manifest', changed) ->
  exists object', manifest' = JObject object' /\
    forall key, match object !! key with
                | Some (JObject map) =>
                    if decide (key ∈ DEP_SECTIONS)
                    then exists map', object' !! key = Some (JObject map') /\ rewritten_section map map'
                    else object' !! key = Some (JObject map)
                | value => object' !! key = value
                end.
Proof. apply rewrite_sections_ok. by apply (bool_decide_unpack _). Qed.
End rewrite_lemmas.

(** ** The field order loses nothing *)
Lemma take_fields_perm keys : forall entries object,
  let '(entries', object') := foldl take_field (entries, object) keys in
  entries' ++ map_to_list object' ≡ₚ entries ++ map_to_list object.
Proof.
  induction keys as [|key keys IH]; intros entries object; cbn; [done|].
  destruct (object !! key) as [value|] eqn:Hk; [|apply IH].
  specialize (IH (entries ++ [(key, value)]) (delete key object)).
  destruct (foldl _ _ _) as [entries' object']. rewrite IH, <-app_assoc. cbn. by rewrite map_to_list_delete.
Qed.

(** The manifest that is written has the fields of the object, each once. *)
Theorem from_object_perm object : from_object object ≡ₚ map_to_list object.
Proof.
  unfold from_object. pose proof (take_fields_perm PACKAGE_JSON_FIELD_ORDER [] object) as Hp.
  destruct (foldl _ _ _) as [entries rest]. cbn in Hp. rewrite <-Hp. f_equiv. apply merge_sort_Permutation.
Qed.

(** ** Witnesses and counterexamples *)
Module PublishDemo.
Definition manifest (section : list (string * string)) : gmap string json :=
  {[ "name" := JString "app"; "dependencies" := JObject (list_to_map ((fun e => (e.1, JString e.2)) <$> section)) ]}.

Definition rewritten (catalog : option CatalogConfig) (section : list (string * string)) : Result json :=
  fst <$> rewrite_published_manifest (Some (RootsDemo.workspace [RootsDemo.app; RootsDemo.ui])) catalog
            (JObject (manifest section)).

Example rewritten_specs :
  rewritten None [("ui", "workspace:^"); ("u", "workspace:ui@~"); ("react", "catalog:"); ("x", "^1.0.0")] =
  Ok (JObject (manifest [("ui", "^2.1.0"); ("u", "npm:ui@~2.1.0"); ("react", "^18.0.0"); ("x", "^1.0.0")])).
Proof. vm_refl. Qed.

Lemma rewrite_published_manifest_spec_witness :
  exists object', rewritten None [("ui", "workspace:^")] = Ok (JObject object') /\
    exists map', object' !! "dependencies" = Some (JObject map') /\
      rewritten_section (Some (RootsDemo.workspace [RootsDemo.app; RootsDemo.ui])) None
        {["ui" := JString "workspace:^"]} map'.
Proof.
  destruct (rewrite_published_manifest_spec (Some (RootsDemo.workspace [RootsDemo.app; RootsDemo.ui])) None
    (manifest [("ui", "workspace:^")]) (JObject (manifest [("ui", "^2.1.0")])) true) as (object' & Hm & Hkeys); [vm_refl|].
  injection Hm as <-. exists (manifest [("ui", "^2.1.0")]). split; [vm_refl|]. exact (Hkeys "dependencies").
Defined.

(** A catalog entry may itself say [workspace:] (installing accepts it); what is
    published then still does. *)
Theorem catalog_entry_leaks_workspace_spec :
  fst <$> rewrite_published_manifest None (Some {| cc_catalog := {["ui" := "workspace:^"]}; cc_catalogs := ∅ |})
            (JObject (manifest [("ui", "catalog:")])) =
  Ok (JObject (manifest [("ui", "workspace:^")])).
Proof. vm_refl. Qed.

#[local] Existing Instances PackDemo.suffix_glob PackDemo.literal_walk PackDemo.no_json StoreDemo.transparent.

(** A package with a manifest and a script, dry run. *)
Definition tree : FileTree := {|
  symlink_metadata path := if path == "/q/package.json" then Ok (TFile, 2%N) else
                           if path == "/q/main.js" then Ok (TFile, 1%N) else Err "not found";
  metadata path := if one_of path ["/q/package.json"; "/q/main.js"] then Ok TFile else Err "not found";
  read path := if path == "/q/package.json" then Ok "{}" else if path == "/q/main.js" then Ok "x" else Err "not found";
  read_dir path := Ok (if path == "/q" then [("main.js", Ok TFile); ("package.json", Ok TFile)] else []) |}.

Definition project : Project :=
  {| p_root := "/q"; p_manifest_path := "/q/package.json";
     p_manifest := p_manifest (RootsDemo.member "q" "1.0.0" [] []) |}.

Definition options : PublishOptions :=
  {| tag := "latest"; access := None; otp := None; dry_run := true; allow_risks := [] |}.

Definition inspection : PackInspection :=
  match inspect_pack tree 1 project with
  | Some (Ok inspection) => inspection
  | _ => {| pi_name := ε; pi_version := ε; pi_files := []; unpacked_size := 0; findings := []; archive_paths := [] |}
  end.

End PublishDemo.
