(* ===== verification/Patches.v ===== *)
(** * Patches of dependencies ([patch/], [operations/patch/])

    Which patches a project has, from the manifest and from the [patches]
    directory; the names of patch files; how the output of [diff] becomes a
    patch; the entries of the manifest a commit adds and a removal drops.
    Running [diff] and [patch], copying directories and writing the manifest
    are not modelled. *)
From S2P Require Import Prelude.
From S2P Require Import BTree.
From S2P Require Import Text.
From S2P Require Import Errors.
From S2P Require Import Types.
From S2P Require Import Paths.

Definition PATCHES_DIR : string := "patches".
Definition SESSION_MARKER : string := ".snpm_patch_session".

(** ** [patch/types.rs] *)
Record PatchSession := {
  sess_package_name : string;
  sess_package_version : string;
  sess_original_path : string;
}.

Record PatchInfo := {
  pi_package_name : string;
  pi_package_version : string;
  pi_patch_path : string;
}.

Definition patches_dir (project : Project) : string := path_push (p_root project) PATCHES_DIR.

Definition parse_patch_key (key : string) : option (string * string) :=
  match rfind_char "@" key with
  | None => None
  | Some 0 => None
  | Some at_pos => Some (stake at_pos key, sdrop (S at_pos) key)
  end.

(** The later [extend] wins: [snpm] over [pnpm]. *)
Definition get_patched_dependencies (project : Project) : gmap string string :=
  let patched := match m_pnpm (p_manifest project) with
                 | Some pnpm => default ∅ (mp_patched_dependencies pnpm)
                 | None => ∅
                 end in
  match m_snpm (p_manifest project) with
  | Some snpm => default ∅ (ms_patched_dependencies snpm) ∪ patched
  | None => patched
  end.

(** ** [patch/apply/listing.rs], [patch/diff/create.rs] *)
Definition patch_prefix (package_name : string) : string := replace_char "/" "+" package_name +:+ "@".

(** The file a session is committed to. *)
Definition patch_filename (session : PatchSession) : string :=
  patch_prefix (sess_package_name session) +:+ sess_package_version session +:+ ".patch".

Definition matches_patch_file (package_name filename : string) : bool :=
  starts_with (patch_prefix package_name) filename && ends_with ".patch" filename.

(** [remove_patch]: the file it removes. *)
Definition remove_patch_target (tree : FileTree) (project : Project) (package_name : string)
  : Result (option string) :=
  let patches := patches_dir project in
  if negb (path_exists tree patches) then Ok None else
  entries ← map_err (ReadFile patches) (read_dir tree patches);
  match list_find (fun e => matches_patch_file package_name e.1 = true) entries with
  | Some (_, (filename, _)) => Ok (Some (path_push patches filename))
  | None => Ok None
  end.

Definition patch_info (patches filename : string) : option PatchInfo :=
  name_version ← strip_suffix ".patch" filename;
  '(name, version) ← parse_patch_key name_version;
  Some {| pi_package_name := replace_char "+" "/" name; pi_package_version := version;
          pi_patch_path := path_push patches filename |}.

Definition list_patches (tree : FileTree) (project : Project) : Result (list PatchInfo) :=
  let patches := patches_dir project in
  if negb (path_exists tree patches) then Ok [] else
  entries ← map_err (ReadFile patches) (read_dir tree patches);
  Ok (omap (M := list) (fun e => patch_info patches e.1) entries).

(** ** [operations/patch/inventory.rs] *)

(** The entries of the manifest whose patch exists, with the keys seen. *)
Definition declared_step (tree : FileTree) (project : Project)
    (acc : gset string * list (string * string * string)) (e : string * string)
  : gset string * list (string * string * string) :=
  match parse_patch_key e.1 with
  | Some (name, version) =>
      let patch_path := path_push (p_root project) e.2 in
      if path_exists tree patch_path
      then ({[name +:+ "@" +:+ version]} ∪ acc.1, acc.2 ++ [(name, version, patch_path)])
      else acc
  | None => acc
  end.

Definition declared_patches (tree : FileTree) (project : Project)
  : gset string * list (string * string * string) :=
  foldl (declared_step tree project) (∅, []) (btree_iter (get_patched_dependencies project)).

(** A file of the directory that is not declared. *)
Definition undeclared_patch (seen : gset string) (patches filename : string)
  : option (string * string * string) :=
  name_version ← strip_suffix ".patch" filename;
  '(name, version) ← parse_patch_key name_version;
  let package_name := replace_char "+" "/" name in
  if decide (package_name +:+ "@" +:+ version ∈ seen) then None
  else Some (package_name, version, path_push patches filename).

Definition collect_patches_to_apply (tree : FileTree) (project : Project)
  : Result (list (string * string * string)) :=
  let '(seen, result) := declared_patches tree project in
  let patches := patches_dir project in
  if negb (path_exists tree patches) then Ok result else
  entries ← map_err (ReadFile patches) (read_dir tree patches);
  Ok (result ++ omap (M := list) (fun e => undeclared_patch seen patches e.1) entries).

(** ** [patch/diff/filter.rs], [patch/diff/rewrite.rs] *)
Definition filter_line (acc : string * bool) (line : string) : string * bool :=
  let skip := if starts_with "diff " line then contains SESSION_MARKER line else acc.2 in
  (if skip then acc.1 else acc.1 +:+ line +:+ chr "010", skip).

Definition filter_session_marker (content : string) : string :=
  (foldl filter_line (ε, false) (lines content)).1.

Definition normalize_patch_path (path : string) : string :=
  join "/" (omap (M := list) (fun c => match c with Normal part => Some part | _ => None end) (components path)).

Definition rewrite_patch_header (line marker root prefix : string) : option string :=
  rest ← strip_prefix marker line;
  if (rest == "/dev/null") || starts_with ("/dev/null" +:+ chr "009") rest then Some line else
  let '(path_text, suffix) := match split_once "009" rest with
                              | Some (path_text, suffix) => (path_text, Some suffix)
                              | None => (rest, None)
                              end in
  relative ← path_strip_prefix path_text root;
  let rewritten := marker +:+ prefix +:+ "/" +:+ normalize_patch_path relative in
  Some (match suffix with Some suffix => rewritten +:+ chr "009" +:+ suffix | None => rewritten end).

Definition rewrite_line (original_root modified_root line : string) : string :=
  match rewrite_patch_header line "--- " original_root "a" with
  | Some line => line
  | None => default line (rewrite_patch_header line "+++ " modified_root "b")
  end.

Definition rewrite_diff_paths (content original_root modified_root : string) : string :=
  foldl (fun rewritten line => rewritten +:+ rewrite_line original_root modified_root line +:+ chr "010")
    ε (lines content).

(** ** [operations/patch/mod.rs], [operations/patch/manifest.rs] *)
Definition parse_package_spec (spec : string) : string * option string :=
  match rfind_char "@" spec with
  | Some (S pos) => (stake (S pos) spec, Some (sdrop (S (S pos)) spec))
  | _ => (spec, None)
  end.

Definition with_snpm (snpm : option ManifestSnpm) (m : Manifest) : Manifest := {|
  m_name := m_name m; m_version := m_version m; m_package_manager := m_package_manager m;
  m_private := m_private m; m_dependencies := m_dependencies m;
  m_dev_dependencies := m_dev_dependencies m;
  m_optional_dependencies := m_optional_dependencies m; m_scripts := m_scripts m;
  m_resolutions := m_resolutions m; m_overrides := m_overrides m; m_files := m_files m;
  m_bin := m_bin m; m_main := m_main m; m_pnpm := m_pnpm m; m_snpm := snpm;
  m_workspaces := m_workspaces m; m_extra := m_extra m |}.

Definition with_pnpm (pnpm : option ManifestPnpm) (m : Manifest) : Manifest := {|
  m_name := m_name m; m_version := m_version m; m_package_manager := m_package_manager m;
  m_private := m_private m; m_dependencies := m_dependencies m;
  m_dev_dependencies := m_dev_dependencies m;
  m_optional_dependencies := m_optional_dependencies m; m_scripts := m_scripts m;
  m_resolutions := m_resolutions m; m_overrides := m_overrides m; m_files := m_files m;
  m_bin := m_bin m; m_main := m_main m; m_pnpm := pnpm; m_snpm := m_snpm m;
  m_workspaces := m_workspaces m; m_extra := m_extra m |}.

(** [update_manifest_with_patch]: the manifest that is written. *)
Definition update_manifest_with_patch (project : Project)
    (package_name package_version patch_path : string) : Manifest :=
  let manifest := p_manifest project in
  let key := package_name +:+ "@" +:+ package_version in
  let rel_path := default patch_path (path_strip_prefix patch_path (p_root project)) in
  let snpm := default {| ms_overrides := ∅; ms_patched_dependencies := None; ms_publish := None |}
                (m_snpm manifest) in
  with_snpm (Some {| ms_overrides := ms_overrides snpm;
                     ms_patched_dependencies :=
                       Some (<[key := rel_path]> (default ∅ (ms_patched_dependencies snpm)));
                     ms_publish := ms_publish snpm |}) manifest.

Definition matches_package_name (key package_name : string) : bool :=
  match parse_patch_key key with
  | Some (name, _) => (name == package_name) || (replace_char "+" "/" name == package_name)
  | None => false
  end.

(** [HasPatchedDependencies], the trait of the two sections. *)
Class HasPatchedDependencies (T : Type) := {
  patched_dependencies : T -> option (gmap string string);
  set_patched_dependencies : option (gmap string string) -> T -> T;
}.
Global Instance snpm_has_patched : HasPatchedDependencies ManifestSnpm := {|
  patched_dependencies := ms_patched_dependencies;
  set_patched_dependencies := fun patched s =>
    {| ms_overrides := ms_overrides s; ms_patched_dependencies := patched; ms_publish := ms_publish s |}
|}.
Global Instance pnpm_has_patched : HasPatchedDependencies ManifestPnpm := {|
  patched_dependencies := mp_patched_dependencies;
  set_patched_dependencies := fun patched p =>
    {| mp_overrides := mp_overrides p; mp_patched_dependencies := patched |}
|}.

Definition remove_from_patched_deps {T} `{HasPatchedDependencies T} (config : option T)
    (package_name : string) : option T * bool :=
  match config with
  | None => (None, false)
  | Some config =>
      match patched_dependencies config with
      | None => (Some config, false)
      | Some patched =>
          let keys_to_remove := filter (fun key => matches_package_name key package_name = true)
                                  (btree_keys patched) in
          let patched := foldl (fun m key => delete key m) patched keys_to_remove in
          (Some (set_patched_dependencies (if decide (patched = ∅) then None else Some patched) config),
           negb (bool_decide (keys_to_remove = [])))
      end
  end.

(** [remove_patch_from_manifest]: the manifest that is written, if one is. *)
Definition remove_patch_from_manifest (project : Project) (package_name : string) : option Manifest :=
  let manifest := p_manifest project in
  let '(snpm, removed_snpm) := remove_from_patched_deps (m_snpm manifest) package_name in
  let '(pnpm, removed_pnpm) := remove_from_patched_deps (m_pnpm manifest) package_name in
  if removed_snpm || removed_pnpm then Some (with_pnpm pnpm (with_snpm snpm manifest)) else None.

(** ** Keys and file names *)
Lemma parse_patch_key_app name version :
  is_empty name = false -> contains_char "@" version = false ->
  parse_patch_key (name +:+ "@" +:+ version) = Some (name, version).
Proof.
  intros Hname Hv. unfold parse_patch_key.
  change ("@" +:+ version) with (String "@" version). rewrite rfind_char_app by done.
  destruct name as [|a name]; [done|]. cbn [String.length].
  change (S (String.length name)) with (String.length (String a name)).
  by rewrite stake_app, sdrop_app_S.
Qed.

Lemma parse_patch_key_Some key name version :
  parse_patch_key key = Some (name, version) ->
  key = name +:+ "@" +:+ version /\ is_empty name = false /\ contains_char "@" version = false.
Proof.
  unfold parse_patch_key. destruct (rfind_char "@" key) as [[|i]|] eqn:Hi; [done| |done].
  apply rfind_char_Some in Hi as [Heq Hv]. intros [= <- <-]. split_and!; [done| |done].
  destruct key; [|done]. by cbn in Heq.
Qed.

Lemma replace_char_id c d s : contains_char c s = false -> replace_char c d s = s.
Proof.
  unfold replace_char. induction s as [|a s IH]; [done|]. cbn. intros [Ha Hs]%orb_false_iff.
  by rewrite Ha, IH.
Qed.

Lemma replace_char_back c d s :
  contains_char d s = false -> replace_char d c (replace_char c d s) = s.
Proof.
  unfold replace_char. induction s as [|a s IH]; [done|]. cbn. intros [Ha Hs]%orb_false_iff.
  rewrite IH by done. f_equal. destruct (Ascii.eqb_spec c a) as [->|Hne].
  - by rewrite Ascii.eqb_refl.
  - by rewrite Ha.
Qed.

Lemma replace_char_empty c d s : is_empty (replace_char c d s) = is_empty s.
Proof. by destruct s. Qed.

(** What [create_patch] names, [list_patches] reads. *)
Lemma patch_file_info patches session :
  is_empty (sess_package_name session) = false ->
  contains_char "+" (sess_package_name session) = false ->
  contains_char "@" (sess_package_version session) = false ->
  patch_info patches (patch_filename session) =
    Some {| pi_package_name := sess_package_name session;
            pi_package_version := sess_package_version session;
            pi_patch_path := path_push patches (patch_filename session) |}.
Proof.
  intros Hn Hplus Hv. unfold patch_info at 1, patch_filename, patch_prefix.
  rewrite !app_assoc_s, strip_suffix_app, <-!app_assoc_s. cbn [mbind option_bind].
  rewrite parse_patch_key_app by by rewrite ?replace_char_empty. cbn.
  by rewrite replace_char_back.
Qed.

(** ** The entries of the manifest *)
Lemma removed_lookup (patched : gmap string string) package_name key :
  foldl (fun m key => delete key m) patched
    (filter (fun key => matches_package_name key package_name = true) (btree_keys patched)) !! key =
  if matches_package_name key package_name then None else patched !! key.
Proof.
  rewrite foldl_delete_lookup. case_decide as Hin; rewrite list_elem_of_filter, elem_of_btree_keys in Hin.
  - destruct Hin as [Hm _]. by rewrite Hm.
  - destruct (matches_package_name key package_name) eqn:Hm; [|done].
    apply eq_None_not_Some. intros Hk. by apply Hin.
Qed.

(** The map [clear_patched_dependencies] drops is empty. *)
Lemma remove_from_patched_deps_lookup {T} `{HasPatchedDependencies T} (config : T) package_name :
  (forall p c, patched_dependencies (set_patched_dependencies p c) = p) ->
  exists config', (remove_from_patched_deps (Some config) package_name).1 = Some config' /\
  forall key,
    default ∅ (patched_dependencies config') !! key =
    if matches_package_name key package_name then None
    else default ∅ (patched_dependencies config) !! key.
Proof.
  intros Hset. unfold remove_from_patched_deps.
  destruct (patched_dependencies config) as [patched|] eqn:Hp; cbn.
  - eexists. split; [done|]. intros key. rewrite Hset, <-removed_lookup.
    case_decide as He; [|done]. by rewrite He.
  - exists config. split; [done|]. intros key. rewrite Hp. cbn. rewrite lookup_empty. by case_match.
Qed.

Definition with_manifest (project : Project) (manifest : Manifest) : Project :=
  {| p_root := p_root project; p_manifest_path := p_manifest_path project; p_manifest := manifest |}.

Lemma remove_nothing {T} `{HasPatchedDependencies T} (config : option T) package_name key :
  (remove_from_patched_deps config package_name).2 = false ->
  is_Some (default ∅ (config ≫= patched_dependencies) !! key) ->
  matches_package_name key package_name = false.
Proof.
  unfold remove_from_patched_deps. destruct config as [config|]; cbn; [|by intros _ [? ?%lookup_empty_Some]].
  destruct (patched_dependencies config) as [patched|]; cbn; [|by intros _ [? ?%lookup_empty_Some]].
  intros Hnone Hk. bool_prop. apply not_true_iff_false. intros Hm.
  assert (Hin : key ∈ filter (fun key => matches_package_name key package_name = true) (btree_keys patched))
    by by rewrite list_elem_of_filter, elem_of_btree_keys.
  rewrite Hnone in Hin. by apply not_elem_of_nil in Hin.
Qed.

Lemma patched_of_sections project :
  get_patched_dependencies project =
  default ∅ (m_snpm (p_manifest project) ≫= patched_dependencies)
  ∪ default ∅ (m_pnpm (p_manifest project) ≫= patched_dependencies).
Proof.
  unfold get_patched_dependencies. cbn. destruct (m_snpm _), (m_pnpm _); cbn; by rewrite ?(left_id_L ∅ _).
Qed.

Lemma section_removed {T} `{HasPatchedDependencies T} (config : option T) package_name key :
  (forall p c, patched_dependencies (set_patched_dependencies p c) = p) ->
  default ∅ ((remove_from_patched_deps config package_name).1 ≫= patched_dependencies) !! key =
  if matches_package_name key package_name then None
  else default ∅ (config ≫= patched_dependencies) !! key.
Proof.
  intros Hset. destruct config as [config|].
  - destruct (remove_from_patched_deps_lookup config package_name Hset) as (config' & -> & Hk). apply Hk.
  - cbn. rewrite lookup_empty. by case_match.
Qed.

(** After [remove_patch_from_manifest] the project patches exactly the
    packages it patched before, less every entry of the named package (in
    either section, with the name written either way); when the manifest is not
    rewritten, no entry named the package. *)
Theorem remove_patch_from_manifest_spec project package_name key :
  match remove_patch_from_manifest project package_name with
  | Some manifest =>
      get_patched_dependencies (with_manifest project manifest) !! key =
      if matches_package_name key package_name then None else get_patched_dependencies project !! key
  | None =>
      is_Some (get_patched_dependencies project !! key) -> matches_package_name key package_name = false
  end.
Proof.
  rewrite !patched_of_sections. unfold remove_patch_from_manifest.
  destruct (remove_from_patched_deps (m_snpm _) _) as [snpm b1] eqn:Hs.
  destruct (remove_from_patched_deps (m_pnpm _) _) as [pnpm b2] eqn:Hp.
  destruct (b1 || b2) eqn:Hb.
  - rewrite patched_of_sections. cbn [with_manifest with_pnpm with_snpm p_manifest m_snpm m_pnpm].
    replace snpm with (remove_from_patched_deps (m_snpm (p_manifest project)) package_name).1 by by rewrite Hs.
    replace pnpm with (remove_from_patched_deps (m_pnpm (p_manifest project)) package_name).1 by by rewrite Hp.
    rewrite !lookup_union, !section_removed by done. by destruct (matches_package_name key package_name).
  - bool_prop. subst. rewrite lookup_union_is_Some. intros [Hk|Hk].
    + eapply (remove_nothing (m_snpm (p_manifest project))); [by rewrite Hs|done].
    + eapply (remove_nothing (m_pnpm (p_manifest project))); [by rewrite Hp|done].
Qed.

(** ** What is applied *)
Definition declared_patch (tree : FileTree) (project : Project) (e : string * string)
  : option (string * string * string) :=
  id ← parse_patch_key e.1;
  let patch_path := path_push (p_root project) e.2 in
  if path_exists tree patch_path then Some (id, patch_path) else None.

Definition triple_key (t : string * string * string) : string := t.1.1 +:+ "@" +:+ t.1.2.

Lemma declared_fold tree project l seen result :
  foldl (declared_step tree project) (seen, result) l =
  (list_to_set (triple_key <$> omap (declared_patch tree project) l) ∪ seen,
   result ++ omap (declared_patch tree project) l).
Proof.
  revert seen result. induction l as [|e l IH]; intros seen result; cbn [foldl].
  { cbn. rewrite app_nil_r. f_equal. set_solver. }
  cbn [omap list_omap]. assert (Hstep : declared_step tree project (seen, result) e =
    match declared_patch tree project e with
    | Some t => ({[triple_key t]} ∪ seen, result ++ [t])
    | None => (seen, result)
    end).
  { unfold declared_step, declared_patch. destruct (parse_patch_key e.1) as [[name version]|]; cbn; [|done].
    by destruct (path_exists tree _). }
  rewrite Hstep. destruct (declared_patch tree project e) as [t|]; [|apply IH].
  rewrite IH. f_equal; [set_solver|]. by rewrite <-(assoc_L app).
Qed.

Lemma elem_of_declared tree project name version path :
  (name, version, path) ∈ (declared_patches tree project).2 <->
  exists key rel_path, get_patched_dependencies project !! key = Some rel_path /\
    parse_patch_key key = Some (name, version) /\ path = path_push (p_root project) rel_path /\
    path_exists tree path = true.
Proof.
  unfold declared_patches. rewrite declared_fold, app_nil_l. cbn. rewrite list_elem_of_omap. split.
  - intros ([key rel_path] & Hin%elem_of_btree_iter & Hd). exists key, rel_path.
    unfold declared_patch in Hd. cbn in Hd. destruct (parse_patch_key key) as [id|]; [|done].
    cbn in Hd. case_all. done.
  - intros (key & rel_path & Hin%elem_of_btree_iter & Hk & -> & He). exists (key, rel_path).
    split; [done|]. unfold declared_patch. cbn. rewrite Hk. cbn. by rewrite He.
Qed.

Lemma collect_patches_Ok tree project result name version path :
  collect_patches_to_apply tree project = Ok result ->
  (name, version, path) ∈ result <->
  (exists key rel_path, get_patched_dependencies project !! key = Some rel_path /\
    parse_patch_key key = Some (name, version) /\ path = path_push (p_root project) rel_path /\
    path_exists tree path = true) \/
  (exists entries filename ty, path_exists tree (patches_dir project) = true /\
    read_dir tree (patches_dir project) = Ok entries /\ (filename, ty) ∈ entries /\
    undeclared_patch (declared_patches tree project).1 (patches_dir project) filename
    = Some (name, version, path)).
Proof.
  rewrite <-elem_of_declared. unfold collect_patches_to_apply.
  destruct (declared_patches tree project) as [seen decl]. cbn [fst snd].
  destruct (path_exists tree (patches_dir project)); cbn [negb].
  - destruct (read_dir tree (patches_dir project)) as [entries|]; cbn; [|done]. intros [= <-].
    rewrite elem_of_app, list_elem_of_omap. split; (intros [?|Hu]; [by left|right]).
    + destruct Hu as ([filename ty] & Hin & Hu). by exists entries, filename, ty.
    + destruct Hu as (entries' & filename & ty & _ & [= <-] & Hin & Hu). by exists (filename, ty).
  - intros [= ->]. split; [by left|]. intros [?|(? & ? & ? & ? & _)]; done.
Qed.

(** A committed session is among the declared entries. *)
Lemma update_manifest_lookup project package_name package_version patch_path :
  get_patched_dependencies
    (with_manifest project (update_manifest_with_patch project package_name package_version patch_path))
  = <[package_name +:+ "@" +:+ package_version :=
        default patch_path (path_strip_prefix patch_path (p_root project))]>
      (get_patched_dependencies project).
Proof.
  unfold get_patched_dependencies, update_manifest_with_patch. cbn.
  rewrite <-insert_union_l. f_equal. destruct (m_snpm (p_manifest project)); cbn; [done|].
  by rewrite (left_id_L ∅ _).
Qed.

Lemma contains_char_replace c d a s :
  contains_char a s = false -> Ascii.eqb a d = false -> contains_char a (replace_char c d s) = false.
Proof.
  unfold replace_char. induction s as [|b s IH]; [done|]. cbn. intros [Hb Hs]%orb_false_iff Hd.
  rewrite IH by done. by destruct (Ascii.eqb c b); rewrite ?Hb, ?Hd.
Qed.

Lemma no_replaced_char c d s : Ascii.eqb c d = false -> contains_char c (replace_char c d s) = false.
Proof.
  intros Hd. unfold replace_char. induction s as [|b s IH]; [done|]. cbn. rewrite IH.
  by destruct (Ascii.eqb c b) eqn:Hb; rewrite ?Hb, ?Hd.
Qed.

Lemma patch_filename_ok session :
  contains_char "/" (sess_package_version session) = false -> name_ok (patch_filename session) = true.
Proof.
  intros Hv. unfold name_ok, patch_filename, patch_prefix.
  rewrite !contains_char_app, Hv, no_replaced_char by done. cbn [negb orb].
  apply bool_decide_eq_true. set (s := (replace_char "/" "+" (sess_package_name session) +:+ "@") +:+ _).
  unfold component_of.
  assert (Hlen : String.length s > 6).
  { unfold s. rewrite !length_app_s. cbn. lia. }
  assert (Hne : forall t, String.length t <= 6 -> (s == t) = false).
  { intros t Ht. apply String.eqb_neq. intros ->. lia. }
  rewrite (Hne "."), (Hne "..") by (cbn; lia). destruct s; [cbn in Hlen; lia|done].
Qed.

(** What [commit_patch] leaves is applied by the next install: the entry it
    adds to the manifest makes [collect_patches_to_apply] list the package, in
    its version, with the file [create_patch] wrote. *)
Theorem committed_patch_is_applied tree names project session result :
  p_root project = abs_path names -> Forall (fun n => name_ok n = true) names ->
  is_empty (sess_package_name session) = false ->
  contains_char "@" (sess_package_version session) = false ->
  contains_char "/" (sess_package_version session) = false ->
  let patch_path := path_push (patches_dir project) (patch_filename session) in
  path_exists tree patch_path = true ->
  collect_patches_to_apply tree
    (with_manifest project (update_manifest_with_patch project (sess_package_name session)
       (sess_package_version session) patch_path)) = Ok result ->
  (sess_package_name session, sess_package_version session, patch_path) ∈ result.
Proof.
  intros Hroot Hnames Hn Hat Hslash patch_path Hex Hcollect.
  rewrite (collect_patches_Ok _ _ _ _ _ _ Hcollect). left.
  eexists _, _. rewrite update_manifest_lookup, lookup_insert_eq. split; [done|].
  split; [by apply parse_patch_key_app|]. split; [|done]. cbn [with_manifest p_root].
  assert (Hf := patch_filename_ok session Hslash).
  assert (Hp : patch_path = abs_path (names ++ [PATCHES_DIR; patch_filename session])).
  { unfold patch_path, patches_dir. rewrite Hroot, !path_push_abs by (try done; apply Forall_app; by repeat constructor).
    by rewrite <-(assoc_L app). }
  rewrite Hp, Hroot, path_strip_prefix_abs by (try done; by repeat constructor).
  cbn [from_option id].
  by rewrite path_push_abs_join by (try done; by repeat constructor).
Qed.

(** ** Witnesses and counterexamples *)
Module PatchesDemo.
(** A tree with the given directories and files, [read_dir] in their order. *)
Definition tree (entries : list (string * list string)) : FileTree :=
  let kind path :=
    if existsb (fun e => e.1 == path) entries then Ok TDir
    else if existsb (fun e => existsb (fun f => path_push e.1 f == path) e.2) entries then Ok TFile
    else Err "No such file or directory" in
  {| symlink_metadata := fun path => match kind path with Ok ty => Ok (ty, 0%N) | Err e => Err e end;
     metadata := kind;
     read := fun path => Err "unused";
     read_dir := fun path =>
       match list_find (fun e => e.1 = path) entries with
       | Some (_, (_, names)) => Ok ((fun n => (n, Ok TFile)) <$> names)
       | None => Err "No such file or directory"
       end |}.

Definition project : Project :=
  {| p_root := "/app"; p_manifest_path := "/app/package.json"; p_manifest := manifest_default |}.

Definition session : PatchSession :=
  {| sess_package_name := "@scope/ui"; sess_package_version := "1.2.0";
     sess_original_path := "/app/node_modules/@scope/ui" |}.

Definition disk : FileTree := tree [("/app/patches", ["@scope+ui@1.2.0.patch"; "left-pad@1.3.0.patch"; "notes.txt"])].

Definition committed : Project :=
  with_manifest project (update_manifest_with_patch project "@scope/ui" "1.2.0"
    "/app/patches/@scope+ui@1.2.0.patch").

Example inventory :
  collect_patches_to_apply disk committed =
  Ok [("@scope/ui", "1.2.0", "/app/patches/@scope+ui@1.2.0.patch");
      ("left-pad", "1.3.0", "/app/patches/left-pad@1.3.0.patch")].
Proof. vm_refl. Qed.

Lemma committed_patch_is_applied_witness :
  Forall (fun n => name_ok n = true) ["app"] /\
  ("@scope/ui", "1.2.0", "/app/patches/@scope+ui@1.2.0.patch") ∈
    [("@scope/ui", "1.2.0", "/app/patches/@scope+ui@1.2.0.patch");
     ("left-pad", "1.3.0", "/app/patches/left-pad@1.3.0.patch")].
Proof.
  split; [by repeat constructor|].
  apply (committed_patch_is_applied disk ["app"] project session); try (vm_refl || by repeat constructor).
Defined.

(** [patch remove ui@2.0.0] with patches for two versions: the file of the
    other version goes, the manifest loses both entries, and the next install
    still applies the patch that was to be removed. *)
Definition two_versions : FileTree := tree [("/app/patches", ["ui@1.0.0.patch"; "ui@2.0.0.patch"])].
Definition patched_twice : Project :=
  with_manifest project
    (with_snpm (Some {| ms_overrides := ∅; ms_publish := None; ms_patched_dependencies :=
       Some {["ui@1.0.0" := "patches/ui@1.0.0.patch"; "ui@2.0.0" := "patches/ui@2.0.0.patch"]} |})
       manifest_default).

Definition after_removal : Project :=
  with_manifest patched_twice
    (default manifest_default (remove_patch_from_manifest patched_twice (parse_package_spec "ui@2.0.0").1)).

Example remove_ignores_the_version :
  remove_patch_target two_versions patched_twice (parse_package_spec "ui@2.0.0").1
    = Ok (Some "/app/patches/ui@1.0.0.patch") /\
  btree_iter (get_patched_dependencies after_removal) = [] /\
  collect_patches_to_apply (tree [("/app/patches", ["ui@2.0.0.patch"])]) after_removal
    = Ok [("ui", "2.0.0", "/app/patches/ui@2.0.0.patch")].
Proof. split_and!; vm_refl. Qed.

(** The lines of a patch for a file with CRLF line ends lose their CR. *)
Example rewrite_drops_carriage_returns :
  rewrite_diff_paths ("--- /o/a.txt" +:+ chr "010" +:+ "+++ /m/a.txt" +:+ chr "010"
                      +:+ "@@ -1 +1 @@" +:+ chr "010" +:+ "-x" +:+ chr "013" +:+ chr "010") "/o" "/m"
  = "--- a/a.txt" +:+ chr "010" +:+ "+++ b/a.txt" +:+ chr "010" +:+ "@@ -1 +1 @@" +:+ chr "010"
    +:+ "-x" +:+ chr "010".
Proof. vm_refl. Qed.
End PatchesDemo.
