(* ===== verification/Scripts.v ===== *)
(** * Lifecycle scripts ([lifecycle/], [operations/install/utils/script_policy.rs])

    Which dependencies may run scripts, which of their manifests ask for it,
    the order in which the jobs run, and the keys of the side-effects cache.
    [Lifecycle] walks [node_modules] and runs the jobs, [SideEffects] is the
    cache.  A [HashMap] is a [gmap] whose order of iteration is an interface. *)
From S2P Require Import Prelude.
From S2P Require Import BTree.
From S2P Require Import Text.
From S2P Require Import Errors.
From S2P Require Import Types.
From S2P Require Import Paths.
From S2P Require Import Config.

(** ** [lifecycle/policy.rs] *)
Definition is_dep_script_allowed (config : SnpmConfig) (workspace : option Workspace)
    (name : string) : bool :=
  let global :=
    if negb (bool_decide (c_allow_scripts config = ∅)) then bool_decide (name ∈ c_allow_scripts config)
    else false in
  match workspace with
  | Some ws =>
      if negb (bool_decide (wc_only_built_dependencies (w_config ws) = []))
      then one_of name (wc_only_built_dependencies (w_config ws))
      else if negb (bool_decide (wc_ignored_built_dependencies (w_config ws) = []))
      then negb (one_of name (wc_ignored_built_dependencies (w_config ws)))
      else global
  | None => global
  end.

Definition can_any_scripts_run (config : SnpmConfig) (workspace : option Workspace) : bool :=
  negb (bool_decide (c_allow_scripts config = ∅))
  || match workspace with
     | Some workspace =>
         negb (bool_decide (wc_only_built_dependencies (w_config workspace) = []))
         || negb (bool_decide (wc_ignored_built_dependencies (w_config workspace) = []))
     | None => false
     end.

(** ** [lifecycle/runner/manifest.rs] *)
Definition non_empty (s : string) : option string := if is_empty s then None else Some s.

Definition package_name (value : json) : option string := json_get "name" value ≫= as_str.
Definition package_version (value : json) : option string := json_get "version" value ≫= as_str.
Definition package_scripts (value : json) : option (gmap string json) :=
  json_get "scripts" value ≫= as_object.

Definition package_runtime_dep_names (value : json) : list string :=
  key ← ["dependencies"; "optionalDependencies"; "peerDependencies"];
  match json_get key value ≫= as_object with Some block => btree_keys block | None => [] end.

Definition package_bin (value : json) : option BinField :=
  match json_get "bin" value with
  | Some (JString script) => if is_empty script then None else Some (Single script)
  | Some (JObject map) =>
      let entries := omap as_str map in
      if decide (entries = ∅) then None else Some (BinMap entries)
  | _ => None
  end.

(** ** [lifecycle/runner/execute.rs] *)
Definition PROJECT_LIFECYCLE_SCRIPT_NAMES : list string :=
  ["preinstall"; "install"; "postinstall"; "prepare"].
Definition DEPENDENCY_LIFECYCLE_SCRIPT_NAMES : list string :=
  ["preinstall"; "install"; "postinstall"].

(** The scripts [run_present_scripts] runs, in order, as long as they succeed. *)
Definition present_scripts (scripts : gmap string json) (script_names : list string)
  : list (string * string) :=
  omap (fun key => match scripts !! key with
                   | Some (JString cmd) => if is_empty cmd then None else Some (key, cmd)
                   | _ => None
                   end) script_names.

(** The directories [build_path] puts in front of the inherited [PATH]. *)
Definition script_path (root : string) (self_bin_dir node_dir : option string) : list string :=
  let own := path_push (path_push root "node_modules") ".bin" in
  option_list self_bin_dir ++ option_list node_dir ++ [own]
  ++ match parent root with
     | Some parent =>
         let sibling_bin := path_push parent ".bin" in
         if path_eq sibling_bin own then [] else [sibling_bin]
     | None => []
     end.

(** ** [lifecycle/runner/cache.rs], [lifecycle/runner/remote_cache.rs] *)
Record RemoteCache := {
  rc_base_url : string;
  rc_auth_token : option string;
  rc_read_only : bool;
}.

Definition remote_from_config (config : SnpmConfig) : option RemoteCache :=
  base_url ← c_remote_cache_url config;
  if is_empty base_url then None
  else Some {| rc_base_url := base_url; rc_auth_token := c_remote_cache_auth_token config;
               rc_read_only := c_remote_cache_read_only config |}.

Definition object_url (self : RemoteCache) (key : string) : string :=
  trim_end_matches "/" (rc_base_url self) +:+ "/" +:+ key.

Record SideEffectsCacheEntry := {
  se_input_hash : string;
  se_path : string;
  se_remote_key : string;
  se_remote : option RemoteCache;
}.

(** [name.replace('/', [two underscores])] *)
Fixpoint cache_safe_name (name : string) : string :=
  match name with
  | ε => ε
  | String a name => if Ascii.eqb "/" a then "__" +:+ cache_safe_name name else String a (cache_safe_name name)
  end.

(** [SideEffectsCacheEntry::new], given the operating system, the architecture,
    the tag of the engine and the hash of the input. *)
Definition side_effects_entry (config : SnpmConfig) (os arch engine name version input_hash : string)
  : SideEffectsCacheEntry :=
  let safe_name := cache_safe_name name in
  let platform := os +:+ "-" +:+ arch +:+ "-" +:+ engine in
  let remote := remote_from_config config in
  {| se_input_hash := input_hash;
     se_path := path_push (path_push (path_push (side_effects_cache_dir config) platform)
                  (safe_name +:+ "@" +:+ version)) input_hash;
     se_remote_key := match remote with
                      | Some _ => platform +:+ "/" +:+ safe_name +:+ "@" +:+ version +:+ "/"
                                  +:+ input_hash +:+ ".tar.gz"
                      | None => ε
                      end;
     se_remote := remote |}.

Definition u32_max : N := 4294967295.
Definition parse_u32 (s : string) : option N :=
  n ← parse_u64 s; if (n <=? u32_max)%N then Some n else None.

Definition parse_node_major (version : string) : option N :=
  let trimmed := trim_start_matches "v" (trim version) in
  parse_u32 (before_char (Ascii.eqb ".") trimmed).

(** [node_engine_tag], given the pinned, the active and the process' version. *)
Definition node_engine_tag (pinned active process : option string) : string :=
  match pinned ≫= parse_node_major, active ≫= parse_node_major, process ≫= parse_node_major with
  | Some major, _, _ | None, Some major, _ | None, None, Some major => "node" +:+ show_N major
  | None, None, None => "node-unknown"
  end.

Definition is_ascii_hexdigit (a : ascii) : bool :=
  is_ascii_digit a || nat_in (nat_of_ascii a) 65 70 || nat_in (nat_of_ascii a) 97 102.

(** [read_marker], given the text of the marker file. *)
Definition marker_hash (marker : string) : option string :=
  let marker := trim marker in
  if (String.length marker =? 128)%nat && all_chars is_ascii_hexdigit marker
  then Some (to_ascii_lowercase marker) else None.

Inductive SideEffectsCacheRestore := Miss | Restored | AlreadyApplied.

(** [restore_if_available], when copying succeeds: what it looks at. *)
Definition restore_decision (self : SideEffectsCacheEntry) (marker : option string)
    (slot_is_dir remote_restored : bool) : SideEffectsCacheRestore :=
  if (match marker ≫= marker_hash with Some value => value == se_input_hash self | None => false end)
     && slot_is_dir then AlreadyApplied
  else if slot_is_dir then Restored
  else match se_remote self with
       | Some _ => if remote_restored then Restored else Miss
       | None => Miss
       end.

(** ** [lifecycle/runner/walk.rs] *)
Record DepScriptJob := {
  job_name : string;
  job_version : option string;
  job_pkg_root : string;
  job_scripts : gmap string json;
  job_bin : option BinField;
  job_cache_entry : option SideEffectsCacheEntry;
  job_dep_names : list string;
}.

Definition has_lifecycle_scripts (scripts : gmap string json) : bool :=
  existsb (fun script_name => bool_decide (is_Some (scripts !! script_name)))
    DEPENDENCY_LIFECYCLE_SCRIPT_NAMES.

(** What [inspect_package] does with a manifest.  [entry] makes the handle of
    the side-effects cache; [restore] is [None] when restoring fails. *)
Inductive Inspection := Ignored | BlockedPackage (name : string) | Cached | Job (job : DepScriptJob).

Definition inspect_package (config : SnpmConfig) (workspace : option Workspace)
    (pkg_root : string) (entry : string -> string -> Result SideEffectsCacheEntry)
    (restore : SideEffectsCacheEntry -> option SideEffectsCacheRestore) (value : json)
  : Result Inspection :=
  match package_name value ≫= non_empty, package_scripts value with
  | Some name, Some scripts =>
      if negb (has_lifecycle_scripts scripts) then Ok Ignored
      else if negb (is_dep_script_allowed config workspace name) then Ok (BlockedPackage name)
      else
        let version := package_version value ≫= non_empty in
        cache_entry ← match version with
                      | Some version => entry ← entry name version; Ok (Some entry)
                      | None => Ok None
                      end;
        match cache_entry ≫= restore with
        | Some Restored | Some AlreadyApplied => Ok Cached
        | _ => Ok (Job {| job_name := name; job_version := version; job_pkg_root := pkg_root;
                          job_scripts := scripts; job_bin := package_bin value;
                          job_cache_entry := cache_entry;
                          job_dep_names := package_runtime_dep_names value |})
        end
  | _, _ => Ok Ignored
  end.

Definition lifecycle_script_concurrency (available_parallelism : option N) : N :=
  N.min 4 (N.max 1 (default 2%N available_parallelism)).

(** ** The order of the jobs *)

(** The order in which a [HashMap] is iterated is not specified. *)
Class HashIter := {
  hash_iter : forall {V : Type}, gmap string V -> list (string * V);
  hash_iter_perm : forall {V : Type} (m : gmap string V), hash_iter m ≡ₚ map_to_list m;
}.

Section chunks.
Context `{HashIter}.

(** The state of the two nested loops. *)
Record KahnState := {
  k_by_name : gmap string DepScriptJob;
  k_in_degree : gmap string nat;
  k_dependents : gmap string (list string);
}.

(** The dependencies of a job that are jobs, with repetitions. *)
Definition job_deps (job_names : gset string) (name : string) (job : DepScriptJob) : list string :=
  filter (fun dep => dep <> name /\ dep ∈ job_names) (job_dep_names job).

Definition push_dependent (name : string) (dependents : gmap string (list string)) (dep : string)
  : gmap string (list string) :=
  <[dep := default [] (dependents !! dep) ++ [name]]> dependents.

Definition count_job (job_names : gset string)
    (acc : gmap string nat * gmap string (list string)) (e : string * DepScriptJob)
  : gmap string nat * gmap string (list string) :=
  let deps := job_deps job_names e.1 e.2 in
  (<[e.1 := length deps]> acc.1, foldl (push_dependent e.1) acc.2 deps).

(** A consumer of a job that is done. *)
Definition release (acc : gmap string nat * list string) (consumer : string)
  : gmap string nat * list string :=
  match acc.1 !! consumer with
  | Some degree =>
      let degree := degree - 1 in
      (<[consumer := degree]> acc.1, if decide (degree = 0) then acc.2 ++ [consumer] else acc.2)
  | None => acc
  end.

Definition pop_ready (acc : KahnState * list DepScriptJob * list string) (name : string)
  : KahnState * list DepScriptJob * list string :=
  let '(st, chunk, next_ready) := acc in
  let chunk := match k_by_name st !! name with Some job => chunk ++ [job] | None => chunk end in
  let '(in_degree, next_ready) :=
    match k_dependents st !! name with
    | Some consumers => foldl release (k_in_degree st, next_ready) consumers
    | None => (k_in_degree st, next_ready)
    end in
  ({| k_by_name := delete name (k_by_name st); k_in_degree := in_degree;
      k_dependents := delete name (k_dependents st) |}, chunk, next_ready).

Fixpoint chunk_loop (fuel : nat) (st : KahnState) (ready : list string) (chunks : list (list DepScriptJob))
  : option (KahnState * list (list DepScriptJob)) :=
  match ready with
  | [] => Some (st, chunks)
  | _ =>
      match fuel with
      | 0 => None
      | S fuel =>
          let '(st, chunk, next_ready) := foldl pop_ready (st, [], []) ready in
          chunk_loop fuel st next_ready (if decide (chunk = []) then chunks else chunks ++ [chunk])
      end
  end.

Definition initial_state (jobs : list DepScriptJob) : KahnState :=
  let by_name := collect ((fun job => (job_name job, job)) <$> jobs) in
  let '(in_degree, dependents) := foldl (count_job (dom by_name)) (∅, ∅) (hash_iter by_name) in
  {| k_by_name := by_name; k_in_degree := in_degree; k_dependents := dependents |}.

Definition initially_ready (st : KahnState) : list string :=
  (filter (fun e => e.2 = 0) (hash_iter (k_in_degree st))).*1.

(** Every round empties at least one name, so one round per job is enough. *)
Definition topological_chunks (jobs : list DepScriptJob) : list (list DepScriptJob) :=
  let st := initial_state jobs in
  match chunk_loop (S (size (k_by_name st))) st (initially_ready st) [] with
  | Some (st, chunks) =>
      if decide (k_by_name st = ∅) then chunks else chunks ++ [(hash_iter (k_by_name st)).*2]
  | None => []
  end.
End chunks.

(** ** The policy *)

(** A list of the workspace decides alone; else the configuration's set. *)
Lemma is_dep_script_allowed_iff config workspace name :
  is_dep_script_allowed config workspace name = true <->
  match workspace with
  | Some ws =>
      let only := wc_only_built_dependencies (w_config ws) in
      let ignored := wc_ignored_built_dependencies (w_config ws) in
      (only <> [] /\ name ∈ only) \/
      (only = [] /\ ignored <> [] /\ name ∉ ignored) \/
      (only = [] /\ ignored = [] /\ name ∈ c_allow_scripts config)
  | None => name ∈ c_allow_scripts config
  end.
Proof.
  assert (Hg : (if negb (bool_decide (c_allow_scripts config = ∅))
                then bool_decide (name ∈ c_allow_scripts config) else false) = true
               <-> name ∈ c_allow_scripts config).
  { case_bool_decide as He; cbn; [set_solver|]. by rewrite bool_decide_eq_true. }
  assert (Hone : forall l, one_of name l = true <-> name ∈ l).
  { intros l. unfold one_of. rewrite existsb_true. setoid_rewrite String.eqb_eq. naive_solver. }
  unfold is_dep_script_allowed. destruct workspace as [ws|]; [|exact Hg]. cbn zeta.
  repeat case_bool_decide; cbn [negb]; rewrite ?negb_true_iff, <-?not_true_iff_false, ?Hone, ?Hg; tauto.
Qed.

#[local] Arguments has_lifecycle_scripts : simpl never.
#[local] Arguments is_dep_script_allowed : simpl never.

(** A job for the scripts of a dependency exists only for a package the
    policy allows: listed by the workspace's [onlyBuiltDependencies], else not
    listed by its [ignoredBuiltDependencies], else in the configured set; when
    [can_any_scripts_run] says that none can run, there is no job at all. *)
Theorem scripts_run_only_if_allowed config workspace pkg_root entry restore value job :
  inspect_package config workspace pkg_root entry restore value = Ok (Job job) ->
  package_name value = Some (job_name job) /\ can_any_scripts_run config workspace = true /\
  match workspace with
  | Some ws =>
      let only := wc_only_built_dependencies (w_config ws) in
      let ignored := wc_ignored_built_dependencies (w_config ws) in
      (only <> [] /\ job_name job ∈ only) \/
      (only = [] /\ ignored <> [] /\ job_name job ∉ ignored) \/
      (only = [] /\ ignored = [] /\ job_name job ∈ c_allow_scripts config)
  | None => job_name job ∈ c_allow_scripts config
  end.
Proof.
  intros Hi. rewrite <-is_dep_script_allowed_iff. unfold inspect_package in Hi.
  destruct (package_name value) as [name|] eqn:Hn; cbn in Hi; [|by case_all].
  unfold non_empty in Hi. destruct (is_empty name); [by case_all|].
  destruct (package_scripts value) as [scripts|]; [|done].
  destruct (has_lifecycle_scripts scripts); [|done]. cbn in Hi.
  destruct (is_dep_script_allowed config workspace name) eqn:Ha; [|done]. cbn in Hi.
  apply result_bind_Ok in Hi as (cache_entry & _ & Hi).
  assert (job_name job = name) as -> by (by repeat case_match; simplify_eq/=).
  split; [done|]. split; [|done]. apply is_dep_script_allowed_iff in Ha.
  unfold can_any_scripts_run. rewrite orb_true_iff. destruct workspace as [ws|].
  - rewrite orb_true_iff, !negb_true_iff, !bool_decide_eq_false. cbn in Ha. set_solver.
  - left. rewrite negb_true_iff, bool_decide_eq_false. set_solver.
Qed.

(** ** The chunks are a topological order *)

(** How often a name occurs in a list. *)
Definition occ (n : string) (l : list string) : nat := length (filter (n =.) l).

#[local] Arguments occ : simpl never.

Lemma occ_cons n m l : occ n (m :: l) = (if decide (n = m) then 1 else 0) + occ n l.
Proof. unfold occ. rewrite filter_cons. by case_decide. Qed.
Lemma occ_app n l k : occ n (l ++ k) = occ n l + occ n k.
Proof. unfold occ. by rewrite filter_app, length_app. Qed.
Lemma occ_zero n l : occ n l = 0 <-> n ∉ l.
Proof.
  induction l as [|m l IH]; [set_solver|]. rewrite occ_cons, not_elem_of_cons, <-IH.
  case_decide; naive_solver lia.
Qed.

Section kahn.
Context `{HashIter}.

(** Releasing the consumers of a job: each degree falls by the number of times
    the consumer is listed, and those that fall to zero are queued once. *)
Lemma release_spec cs deg next :
  (forall n k, deg !! n = Some k -> occ n cs <= k) ->
  exists extra,
    foldl release (deg, next) cs = (map_imap (fun n k => Some (k - occ n cs)) deg, next ++ extra) /\
    NoDup extra /\ forall n, n ∈ extra <-> n ∈ cs /\ deg !! n = Some (occ n cs).
Proof.
  revert deg next. induction cs as [|c cs IH]; intros deg next Hle; cbn [foldl].
  { exists []. rewrite app_nil_r. split_and!; [|constructor|set_solver].
    f_equal. apply map_eq. intros n. rewrite map_lookup_imap. destruct (deg !! n); cbn; [|done].
    by rewrite Nat.sub_0_r. }
  unfold release at 2. cbn [fst snd]. destruct (deg !! c) as [k|] eqn:Hc.
  - assert (Hk : 0 < k) by (specialize (Hle c k Hc); rewrite occ_cons, decide_True in Hle; lia || done).
    destruct (IH (<[c := k - 1]> deg) (if decide (k - 1 = 0) then next ++ [c] else next)) as (extra & -> & Hnd & Hin).
    { intros n k'. destruct (decide (n = c)) as [->|Hne].
      - rewrite lookup_insert_eq. intros [= <-]. specialize (Hle c k Hc). rewrite occ_cons, decide_True in Hle; lia || done.
      - rewrite lookup_insert_ne by done. intros Hn. specialize (Hle n k' Hn). rewrite occ_cons in Hle. lia. }
    assert (Hmap : map_imap (fun n k => Some (k - occ n cs)) (<[c := k - 1]> deg) =
                   map_imap (fun n k => Some (k - occ n (c :: cs))) deg).
    { apply map_eq. intros n. rewrite !map_lookup_imap. destruct (decide (n = c)) as [->|Hne].
      - rewrite lookup_insert_eq, Hc. cbn. rewrite occ_cons, decide_True by done. f_equal. lia.
      - rewrite lookup_insert_ne by done. destruct (deg !! n); cbn; [|done].
        by rewrite occ_cons, decide_False by done. }
    rewrite Hmap. clear Hmap. case_decide as Hz.
    + exists (c :: extra). rewrite <-(assoc_L app). split; [done|]. split.
      * constructor; [|done]. rewrite Hin, lookup_insert_eq. intros [Hcs [= Heq]].
        rewrite Hz in Heq. symmetry in Heq. by apply occ_zero in Heq.
      * intros n. rewrite !elem_of_cons, Hin, occ_cons. destruct (decide (n = c)) as [->|Hne].
        -- rewrite Hc. split; [|auto]. intros _. split; [by left|]. f_equal.
           specialize (Hle c k Hc). rewrite occ_cons, decide_True in Hle by done. lia.
        -- rewrite lookup_insert_ne by done. cbn. naive_solver.
    + exists extra. split; [done|]. split; [done|]. intros n. rewrite Hin, elem_of_cons, occ_cons.
      destruct (decide (n = c)) as [->|Hne].
      * rewrite lookup_insert_eq, Hc. split.
        -- intros [? [= Heq]]. split; [by left|]. f_equal. lia.
        -- intros [_ [= Heq]]. split; [|f_equal; lia]. destruct (decide (c ∈ cs)) as [|Hn]; [done|].
           apply occ_zero in Hn. lia.
      * rewrite lookup_insert_ne by done. cbn. naive_solver.
  - destruct (IH deg next) as (extra & -> & Hnd & Hin).
    { intros n k Hn. specialize (Hle n k Hn). rewrite occ_cons in Hle. lia. }
    exists extra. split_and!; [|done|].
    + f_equal. apply map_eq. intros n. rewrite !map_lookup_imap. destruct (decide (n = c)) as [->|Hne].
      * by rewrite Hc.
      * by rewrite occ_cons, decide_False by done.
    + intros n. rewrite Hin, elem_of_cons, occ_cons. destruct (decide (n = c)) as [->|Hne]; [rewrite Hc; naive_solver|].
      cbn. naive_solver.
Qed.

Context (J : gmap string DepScriptJob).

Definition deps_of (n : string) : list string :=
  match J !! n with Some job => job_deps (dom J) n job | None => [] end.

(** What is left of the dependencies of a job. *)
Definition pending (done : gset string) (n : string) : list string :=
  filter (fun d => d ∉ done) (deps_of n).

Record kahn_inv (st : KahnState) (done : gset string) : Prop := {
  inv_by_name : forall n, k_by_name st !! n = if decide (n ∈ done) then None else J !! n;
  inv_in_degree : forall n, k_in_degree st !! n = (fun _ => length (pending done n)) <$> J !! n;
  inv_dependents : forall d n, d ∉ done -> occ n (default [] (k_dependents st !! d)) = occ d (deps_of n);
  inv_done : forall n, n ∈ done -> pending done n = [];
}.

Definition is_ready (done : gset string) (l : list string) : Prop :=
  NoDup l /\ forall n, n ∈ l <-> is_Some (J !! n) /\ n ∉ done /\ pending done n = [].

Lemma deps_of_jobs n d : d ∈ deps_of n -> is_Some (J !! d).
Proof.
  unfold deps_of. destruct (J !! n) as [job|]; [|by intros []%not_elem_of_nil].
  unfold job_deps. rewrite list_elem_of_filter, elem_of_dom. naive_solver.
Qed.

Lemma pending_done done d n :
  d ∉ done -> length (pending ({[d]} ∪ done) n) + occ d (deps_of n) = length (pending done n).
Proof.
  intros Hd. unfold pending, occ. induction (deps_of n) as [|e l IH]; [done|].
  rewrite !filter_cons. destruct (decide (e = d)) as [->|Hne].
  - rewrite (decide_False (P := d ∉ {[d]} ∪ done)), (decide_True (P := d ∉ done)),
      (decide_True (P := d = d)) by set_solver. cbn. lia.
  - rewrite (decide_False (P := d = e)) by done.
    destruct (decide (e ∈ done)) as [He|He].
    + rewrite (decide_False (P := e ∉ {[d]} ∪ done)), (decide_False (P := e ∉ done)) by set_solver. lia.
    + rewrite (decide_True (P := e ∉ {[d]} ∪ done)), (decide_True (P := e ∉ done)) by set_solver. cbn. lia.
Qed.

Lemma nil_length {A} (l : list A) : l = [] <-> length l = 0.
Proof. by destruct l. Qed.

Lemma pop_ready_inv st done chunk next name todo :
  kahn_inv st done -> is_ready done (name :: todo ++ next) ->
  exists st' next' job,
    pop_ready (st, chunk, next) name = (st', chunk ++ [job], next') /\ J !! name = Some job /\
    kahn_inv st' ({[name]} ∪ done) /\ is_ready ({[name]} ∪ done) (todo ++ next').
Proof.
  intros [Hby Hdeg Hdep Hdone] [Hnd Hready].
  destruct (proj1 (Hready name) ltac:(by left)) as ([job Hjob] & Hnot & Hpend).
  unfold pop_ready. rewrite Hby, decide_False, Hjob by done.
  set (cs := default [] (k_dependents st !! name)).
  assert (Hcs : forall n, occ n cs = occ name (deps_of n)) by (intros n; by apply Hdep).
  destruct (release_spec cs (k_in_degree st) next) as (extra & Hrel & Hex & Hin).
  { intros n k Hk. rewrite Hdeg in Hk. destruct (J !! n); [|done]. injection Hk as <-.
    rewrite Hcs, <-(pending_done done name n) by done. lia. }
  assert (Hpop : (match k_dependents st !! name with
                  | Some consumers => foldl release (k_in_degree st, next) consumers
                  | None => (k_in_degree st, next)
                  end) = foldl release (k_in_degree st, next) cs).
  { unfold cs. by destruct (k_dependents st !! name). }
  rewrite Hpop, Hrel. eexists _, (next ++ extra), job. split; [done|]. split; [done|]. split; [split; cbn|].
  - intros n. destruct (decide (n = name)) as [->|Hne].
    + rewrite lookup_delete_eq, decide_True by set_solver. done.
    + rewrite lookup_delete_ne, Hby by done. repeat case_decide; set_solver.
  - intros n. rewrite map_lookup_imap, Hdeg. destruct (J !! n); cbn; [|done].
    rewrite Hcs, <-(pending_done done name n) by done. f_equal. lia.
  - intros d n Hd. rewrite lookup_delete_ne by set_solver. apply Hdep. set_solver.
  - intros n Hn. apply nil_length. assert (Hp : pending done n = []) by set_solver.
    rewrite nil_length, <-(pending_done done name n) in Hp by done. lia.
  - assert (Hextra : forall n, n ∈ extra <->
      is_Some (J !! n) /\ pending ({[name]} ∪ done) n = [] /\ pending done n <> []).
    { intros n. rewrite Hin, Hdeg, !nil_length, <-(pending_done done name n), <-Hcs by done.
      pose proof (occ_zero n cs) as Hz. destruct (J !! n) as [jn|] eqn:Hn; cbn.
      - split.
        + intros [Hc [= He]]. split; [done|]. assert (occ n cs <> 0) by (rewrite Hz; tauto). lia.
        + intros (_ & He & Hl). split; [|f_equal; lia].
          destruct (decide (n ∈ cs)) as [|Hc]; [done|]. apply Hz in Hc. lia.
      - split; [by intros [_ ?]|by intros ([? ?] & _)]. }
    apply NoDup_cons in Hnd as [Hname Hnd]. split.
    + rewrite (assoc_L app), NoDup_app. split_and!; [done| |done].
      intros n Hn Hn'. apply Hextra in Hn' as (_ & _ & Hp).
      destruct (proj1 (Hready n) ltac:(by right)) as (_ & _ & ?). done.
    + intros n. rewrite (assoc_L app), elem_of_app, Hextra, not_elem_of_union, not_elem_of_singleton.
      specialize (Hready n). rewrite elem_of_cons in Hready.
      assert (Hmono : pending done n = [] -> pending ({[name]} ∪ done) n = []).
      { rewrite !nil_length, <-(pending_done done name n) by done. lia. }
      destruct (decide (n = name)) as [->|Hne]; [naive_solver|].
      destruct (decide (n ∈ done)) as [Hd|Hd].
      * split; [|tauto]. intros [Ht|(_ & Hp & Hp')]; [exfalso; by destruct (proj1 Hready (or_intror Ht)) as (_ & ? & _)|].
        by rewrite (Hdone n Hd) in Hp'.
      * destruct (decide (pending done n = [])); tauto.
Qed.

Lemma round_inv todo st done chunk next :
  kahn_inv st done -> is_ready done (todo ++ next) ->
  exists st' js next',
    foldl pop_ready (st, chunk, next) todo = (st', chunk ++ js, next') /\
    kahn_inv st' (list_to_set todo ∪ done) /\ is_ready (list_to_set todo ∪ done) next' /\
    Forall2 (fun n job => J !! n = Some job) todo js.
Proof.
  revert st done chunk next. induction todo as [|name todo IH]; intros st done chunk next Hinv Hready; cbn [foldl].
  { exists st, [], next. rewrite app_nil_r. replace (list_to_set [] ∪ done) with done by set_solver. auto. }
  destruct (pop_ready_inv st done chunk next name todo Hinv Hready) as (st1 & next1 & job & -> & Hj & Hinv1 & Hr1).
  destruct (IH st1 _ (chunk ++ [job]) next1 Hinv1 Hr1) as (st' & js & next' & -> & Hinv' & Hr' & Hall).
  exists st', (job :: js), next'. rewrite <-(assoc_L app). split; [done|].
  replace (list_to_set (name :: todo) ∪ done) with (list_to_set todo ∪ ({[name]} ∪ done)) by set_solver.
  auto.
Qed.

Hypothesis J_names : forall n job, J !! n = Some job -> job_name job = n.

Definition names_of (chunks : list (list DepScriptJob)) : list string := job_name <$> concat chunks.

(** Every dependency of a job of a chunk is in an earlier chunk. *)
Definition topo_ordered (chunks : list (list DepScriptJob)) : Prop :=
  forall l1 chunk l2, chunks = l1 ++ chunk :: l2 ->
  forall job d, job ∈ chunk -> d ∈ deps_of (job_name job) -> d ∈ names_of l1.

Record good_chunks (done : gset string) (chunks : list (list DepScriptJob)) : Prop := {
  good_names : forall n, n ∈ names_of chunks <-> n ∈ done;
  good_NoDup : NoDup (names_of chunks);
  good_jobs : forall job, job ∈ concat chunks -> J !! job_name job = Some job;
  good_order : topo_ordered chunks;
}.

Lemma names_of_snoc chunks chunk : names_of (chunks ++ [chunk]) = names_of chunks ++ (job_name <$> chunk).
Proof. unfold names_of. rewrite concat_app. cbn. by rewrite app_nil_r, fmap_app. Qed.

Lemma topo_ordered_snoc chunks chunk :
  topo_ordered chunks ->
  (forall job d, job ∈ chunk -> d ∈ deps_of (job_name job) -> d ∈ names_of chunks) ->
  topo_ordered (chunks ++ [chunk]).
Proof.
  intros Hord Hc l1 c l2 Heq job d Hj Hd.
  destruct l2 as [|c2 l2 _] using rev_ind.
  - apply app_inj_tail in Heq as [-> ->]. by apply (Hc job).
  - change (c :: l2 ++ [c2]) with ((c :: l2) ++ [c2]) in Heq. rewrite (assoc_L app) in Heq.
    apply app_inj_tail in Heq as [-> _]. by eapply Hord.
Qed.

Lemma Forall2_names todo js :
  Forall2 (fun n job => J !! n = Some job) todo js -> job_name <$> js = todo.
Proof. induction 1 as [|n job todo js Hj _ IH]; [done|]. cbn. by rewrite IH, (J_names n job Hj). Qed.

Lemma good_round done chunks todo js :
  good_chunks done chunks -> is_ready done todo -> Forall2 (fun n job => J !! n = Some job) todo js ->
  good_chunks (list_to_set todo ∪ done) (if decide (js = []) then chunks else chunks ++ [js]).
Proof.
  intros [Hn Hnd Hj Ho] [Hr1 Hr2] Hall. pose proof (Forall2_names _ _ Hall) as Hnames.
  assert (Hsnoc : good_chunks (list_to_set todo ∪ done) (chunks ++ [js])).
  { split.
    - intros n. rewrite names_of_snoc, Hnames. rewrite elem_of_app, Hn. set_solver.
    - rewrite names_of_snoc, Hnames. apply NoDup_app. split_and!; [done| |done].
      intros n Hin%Hn Hin'%Hr2. naive_solver.
    - intros job. rewrite concat_app. cbn. rewrite app_nil_r, elem_of_app. intros [?|Hin]; [by apply Hj|].
      apply list_elem_of_lookup in Hin as [i Hi]. destruct (Forall2_lookup_r _ _ _ _ _ Hall Hi) as (n & _ & Hjob).
      by rewrite (J_names n job Hjob).
    - apply topo_ordered_snoc; [done|]. intros job d Hin Hd.
      assert (Hjn : job_name job ∈ todo) by (rewrite <-Hnames; by apply list_elem_of_fmap_2).
      apply Hr2 in Hjn as (_ & _ & Hp). apply Hn.
      destruct (decide (d ∈ done)) as [|Hnot]; [done|].
      assert (Hin' : d ∈ pending done (job_name job)) by by apply list_elem_of_filter.
      rewrite Hp in Hin'. by apply not_elem_of_nil in Hin'. }
  case_decide as Hjs; [|done]. subst js. inversion Hall; subst.
  by replace (list_to_set [] ∪ done) with done by set_solver.
Qed.

Lemma chunk_loop_spec fuel st ready done chunks :
  kahn_inv st done -> is_ready done ready -> good_chunks done chunks ->
  size (k_by_name st) <= fuel ->
  exists st' done' chunks', chunk_loop fuel st ready chunks = Some (st', chunks') /\
    kahn_inv st' done' /\ is_ready done' [] /\ good_chunks done' chunks'.
Proof.
  revert st ready done chunks. induction fuel as [|fuel IH]; intros st ready done chunks Hinv Hready Hgood Hfuel.
  all: destruct ready as [|name ready]; [by exists st, done, chunks|].
  all: destruct (proj1 (proj2 Hready name) ltac:(by left)) as ([job Hjob] & Hnot & _).
  all: assert (Hsome : k_by_name st !! name = Some job) by (rewrite (inv_by_name _ _ Hinv), decide_False; done).
  { assert (k_by_name st = ∅) as He by (apply map_size_empty_inv; lia). by rewrite He, lookup_empty in Hsome. }
  cbn [chunk_loop].
  destruct (round_inv (name :: ready) st done [] []) as (st' & js & next' & -> & Hinv' & Hr' & Hall);
    [done|by rewrite app_nil_r|]. cbn [app].
  eapply IH; [done|done|by apply good_round|].
  enough (size (k_by_name st') < size (k_by_name st)) by lia. apply dom_subset_size.
  assert (Hname : k_by_name st' !! name = None)
    by (rewrite (inv_by_name _ _ Hinv'), decide_True by set_solver; done).
  split.
  - intros n. rewrite !elem_of_dom, (inv_by_name _ _ Hinv), (inv_by_name _ _ Hinv').
    repeat case_decide; set_solver.
  - intros Hsub. specialize (Hsub name). rewrite !elem_of_dom, Hsome, Hname in Hsub.
    destruct Hsub as [? ?]; [done|]. done.
Qed.
End kahn.

Section build.
Context `{HashIter}.

Lemma push_dependents_occ name deps (m : gmap string (list string)) d n :
  occ n (default [] (foldl (push_dependent name) m deps !! d)) =
  occ n (default [] (m !! d)) + if decide (n = name) then occ d deps else 0.
Proof.
  revert m. induction deps as [|e deps IH]; intros m; cbn [foldl].
  { case_decide; unfold occ; cbn; lia. }
  rewrite IH. unfold push_dependent at 1. destruct (decide (d = e)) as [->|Hne].
  - rewrite lookup_insert_eq. cbn [default from_option id]. rewrite occ_app, !occ_cons.
    case_decide as Hn; [rewrite decide_True by done|]; unfold occ at 2; cbn; lia.
  - rewrite lookup_insert_ne by done. rewrite occ_cons, (decide_False (P := d = e)) by done.
    case_decide; lia.
Qed.

Lemma count_jobs_spec names l :
  NoDup l.*1 ->
  let '(deg, deps) := foldl (count_job names) (∅, ∅) l in
  (forall n, deg !! n = (fun job => length (job_deps names n job)) <$> (list_to_map l : gmap string _) !! n) /\
  (forall d n, occ n (default [] (deps !! d)) =
     match (list_to_map l : gmap string _) !! n with Some job => occ d (job_deps names n job) | None => 0 end).
Proof.
  induction l as [|[name job] l IH] using rev_ind; intros Hnd; [done|].
  rewrite fmap_app in Hnd. cbn in Hnd. apply NoDup_app in Hnd as (Hnd & Hnot & _).
  rewrite foldl_app. cbn [foldl]. specialize (IH Hnd).
  destruct (foldl (count_job names) (∅, ∅) l) as [deg deps]. destruct IH as [IH1 IH2].
  assert (Hname : (list_to_map l : gmap string DepScriptJob) !! name = None).
  { apply not_elem_of_list_to_map_1. intros Hin. apply (Hnot name Hin). by left. }
  assert (Hmap : forall n, (list_to_map (l ++ [(name, job)]) : gmap string _) !! n =
                 if decide (n = name) then Some job else (list_to_map l : gmap string DepScriptJob) !! n).
  { intros n. rewrite list_to_map_app, lookup_union. cbn. destruct (decide (n = name)) as [->|Hne].
    - by rewrite Hname, lookup_insert_eq.
    - rewrite lookup_insert_ne, lookup_empty by done.
      by destruct ((list_to_map l : gmap string DepScriptJob) !! n). }
  unfold count_job. cbn [fst snd]. split.
  - intros n. rewrite Hmap. destruct (decide (n = name)) as [->|Hne].
    + by rewrite lookup_insert_eq.
    + by rewrite lookup_insert_ne, IH1 by done.
  - intros d n. rewrite push_dependents_occ, IH2, Hmap. destruct (decide (n = name)) as [->|Hne]; [by rewrite Hname|by rewrite Nat.add_0_r].
Qed.

Lemma initial_inv jobs :
  let J := collect ((fun job => (job_name job, job)) <$> jobs) in
  kahn_inv J (initial_state jobs) ∅ /\ is_ready J ∅ (initially_ready (initial_state jobs)).
Proof.
  intros J. unfold initial_state. fold J.
  pose proof (count_jobs_spec (dom J) (hash_iter J)) as Hc.
  assert (Hnd : NoDup (hash_iter J).*1) by (rewrite hash_iter_perm; apply NoDup_fst_map_to_list).
  assert (Hl : (list_to_map (hash_iter J) : gmap string _) = J).
  { rewrite <-(list_to_map_to_list J) at 2. by apply list_to_map_proper, hash_iter_perm. }
  specialize (Hc Hnd). rewrite Hl in Hc. destruct (foldl _ _ (hash_iter J)) as [deg deps].
  destruct Hc as [Hdeg Hdep].
  assert (Hpend : forall n, pending J ∅ n = deps_of J n).
  { intros n. unfold pending. induction (deps_of J n) as [|d l IH]; [done|].
    rewrite filter_cons_True by set_solver. by rewrite IH. }
  split; [split; cbn|].
  - intros n. by rewrite decide_False by set_solver.
  - intros n. rewrite Hdeg, Hpend. unfold deps_of. by destruct (J !! n).
  - intros d n _. rewrite Hdep. unfold deps_of. by destruct (J !! n).
  - set_solver.
  - unfold initially_ready, is_ready. cbn. split.
    + assert (NoDup (hash_iter deg).*1) as Hn by (rewrite hash_iter_perm; apply NoDup_fst_map_to_list).
      revert Hn. generalize (hash_iter deg). intros l. induction l as [|e l IH]; [constructor|].
      rewrite fmap_cons. intros [Hn1 Hn2]%NoDup_cons. rewrite filter_cons. case_decide; [|by apply IH].
      rewrite fmap_cons. constructor; [|by apply IH]. intros (e' & He & [_ Hin]%list_elem_of_filter)%list_elem_of_fmap.
      apply Hn1. rewrite He. by apply list_elem_of_fmap_2.
    + intros n. rewrite list_elem_of_fmap, Hpend, nil_length. unfold deps_of. split.
      * intros ([n' k] & -> & [Hk Hin]%list_elem_of_filter). cbn in *. subst k.
        rewrite hash_iter_perm, elem_of_map_to_list, Hdeg in Hin.
        destruct (J !! n') as [job|]; [|done]. injection Hin as Hin. split; [done|]. split; [set_solver|done].
      * intros ([job Hj] & _ & Hz). rewrite Hj in Hz. exists (n, 0). split; [done|].
        apply list_elem_of_filter. split; [done|]. rewrite hash_iter_perm, elem_of_map_to_list, Hdeg, Hj.
        cbn. by rewrite Hz.
Qed.
End build.

Lemma collect_by_name jobs :
  NoDup (job_name <$> jobs) ->
  forall n job, collect ((fun job => (job_name job, job)) <$> jobs) !! n = Some job <->
                job ∈ jobs /\ job_name job = n.
Proof.
  intros Hnd n job.
  assert (Hfst : ((fun job => (job_name job, job)) <$> jobs).*1 = job_name <$> jobs)
    by by rewrite <-list_fmap_compose.
  split.
  - intros (j & [= -> ->] & Hj)%collect_lookup_Some%list_elem_of_fmap. done.
  - intros [Hj <-]. apply collect_lookup; [by rewrite Hfst|].
    apply list_elem_of_fmap. by exists job.
Qed.

Section chunks_correct.
Context `{HashIter} (jobs : list DepScriptJob) (jobs_NoDup : NoDup (job_name <$> jobs)).

Let J := collect ((fun job => (job_name job, job)) <$> jobs).

Lemma J_lookup n job : J !! n = Some job <-> job ∈ jobs /\ job_name job = n.
Proof. by apply collect_by_name. Qed.

Lemma J_name n job : J !! n = Some job -> job_name job = n.
Proof. rewrite J_lookup. tauto. Qed.

Definition depends (job job' : DepScriptJob) : Prop :=
  job_name job' ∈ job_dep_names job /\ job_name job' <> job_name job.

Lemma elem_of_deps job d :
  job ∈ jobs ->
  d ∈ deps_of J (job_name job) <-> exists job', job' ∈ jobs /\ depends job job' /\ d = job_name job'.
Proof.
  intros Hj. unfold deps_of, job_deps. rewrite (proj2 (J_lookup _ job)) by done.
  rewrite list_elem_of_filter, elem_of_dom. unfold depends. split.
  - intros [[Hne [job' Hj']] Hin]. pose proof (J_name _ _ Hj') as <-. apply J_lookup in Hj' as [? _]. eauto.
  - intros (job' & Hj' & [? ?] & ->). split; [|done]. split; [done|]. exists job'. by apply J_lookup.
Qed.

(** How the loop ends. *)
Lemma topological_run :
  exists st done chunks,
    chunk_loop (S (size (k_by_name (initial_state jobs)))) (initial_state jobs)
      (initially_ready (initial_state jobs)) [] = Some (st, chunks) /\
    kahn_inv J st done /\ is_ready J done [] /\ good_chunks J done chunks.
Proof.
  destruct (initial_inv jobs) as [Hinv Hready].
  destruct (chunk_loop_spec J J_name (S (size (k_by_name (initial_state jobs)))) (initial_state jobs)
    (initially_ready (initial_state jobs)) ∅ []) as (st & dn & chunks & ? & ? & ? & ?); [done|done| |lia|by eauto 10].
  split; [set_solver|by apply NoDup_nil|by intros job []%not_elem_of_nil|by intros [|? ?]].
Qed.

Section ended.
Context (st : KahnState) (dn : gset string) (chunks : list (list DepScriptJob))
  (Hinv : kahn_inv J st dn) (Hgood : good_chunks J dn chunks).

Lemma left_lookup n job : k_by_name st !! n = Some job <-> n ∉ dn /\ job ∈ jobs /\ job_name job = n.
Proof. rewrite (inv_by_name _ _ _ Hinv), <-J_lookup. case_decide; naive_solver. Qed.

Lemma elem_of_left job : job ∈ (hash_iter (k_by_name st)).*2 <-> job_name job ∉ dn /\ job ∈ jobs.
Proof.
  rewrite list_elem_of_fmap. setoid_rewrite hash_iter_perm. split.
  - intros ([n j] & -> & Hin%elem_of_map_to_list%left_lookup). cbn. naive_solver.
  - intros [Hd Hin]. exists (job_name job, job). by rewrite elem_of_map_to_list, left_lookup.
Qed.

Lemma elem_of_chunks job : job ∈ concat chunks <-> job_name job ∈ dn /\ job ∈ jobs.
Proof.
  destruct Hgood as [Hn _ Hj _]. split.
  - intros Hin. split; [by apply Hn, list_elem_of_fmap_2|]. by apply (J_lookup (job_name job)), Hj.
  - intros [Hd Hin]. apply Hn, list_elem_of_fmap in Hd as (job2 & Heq & Hin2).
    pose proof (Hj _ Hin2) as Hj2. rewrite <-Heq, (proj2 (J_lookup _ job)) in Hj2 by done. by injection Hj2 as ->.
Qed.

Lemma left_names : job_name <$> (hash_iter (k_by_name st)).*2 = (hash_iter (k_by_name st)).*1.
Proof.
  rewrite <-list_fmap_compose. apply list_fmap_ext. intros i [n j] Hi%list_elem_of_lookup_2. cbn.
  rewrite hash_iter_perm, elem_of_map_to_list in Hi. by apply left_lookup in Hi as (_ & _ & ?).
Qed.

Lemma all_jobs_once : concat chunks ++ (hash_iter (k_by_name st)).*2 ≡ₚ jobs.
Proof.
  destruct Hgood as [Hn Hnd _ _].
  apply NoDup_Permutation; [|by apply (NoDup_fmap_1 job_name)|].
  - apply (NoDup_fmap_1 job_name). rewrite fmap_app, left_names. apply NoDup_app. split_and!; [done| |].
    + intros n Hin1%Hn ([n' j] & -> & Hin2)%list_elem_of_fmap.
      rewrite hash_iter_perm, elem_of_map_to_list in Hin2. by apply left_lookup in Hin2 as (? & _ & _).
    + rewrite hash_iter_perm. apply NoDup_fst_map_to_list.
  - intros job. rewrite elem_of_app, elem_of_chunks, elem_of_left. destruct (decide (job_name job ∈ dn)); tauto.
Qed.

Lemma chunk_after_dependencies l1 chunk l2 job job' :
  chunks = l1 ++ chunk :: l2 -> job ∈ chunk -> job' ∈ jobs -> depends job job' -> job' ∈ concat l1.
Proof.
  intros Heq Hin Hin' Hdep. destruct Hgood as [_ _ Hj Ho].
  assert (Hjobs : job ∈ jobs).
  { apply (J_lookup (job_name job)), Hj. rewrite Heq, concat_app. cbn. set_solver. }
  assert (Hd : job_name job' ∈ deps_of J (job_name job)) by (apply elem_of_deps; eauto).
  apply (Ho l1 chunk l2 Heq job _ Hin), list_elem_of_fmap in Hd as (job2 & Heq2 & Hin2).
  assert (J !! job_name job2 = Some job2) as Hj2 by (apply Hj; rewrite Heq, concat_app; set_solver).
  rewrite <-Heq2, (proj2 (J_lookup _ job')) in Hj2 by done. by injection Hj2 as ->.
Qed.

Lemma left_is_cyclic job :
  is_ready J dn [] -> job ∈ (hash_iter (k_by_name st)).*2 ->
  exists job', job' ∈ (hash_iter (k_by_name st)).*2 /\ depends job job'.
Proof.
  intros [_ Hr] [Hnot Hin]%elem_of_left. destruct (pending J dn (job_name job)) as [|d l] eqn:Hp.
  { exfalso. apply (not_elem_of_nil (job_name job)), Hr. split_and!; [exists job; by apply J_lookup|done|done]. }
  assert (Hd : d ∈ pending J dn (job_name job)) by (rewrite Hp; by left).
  apply list_elem_of_filter in Hd as [Hd (job' & Hj' & Hdep & ->)%elem_of_deps]; [|done].
  exists job'. by rewrite elem_of_left.
Qed.
End ended.

End chunks_correct.

(** ** Witnesses and a counterexample *)
Module ScriptsDemo.
#[local] Instance sorted_iter : HashIter.
Proof. refine {| hash_iter := fun V m => btree_iter m |}. intros V m. apply btree_iter_perm. Defined.

Definition job (name version : string) (deps : list string) : DepScriptJob :=
  {| job_name := name; job_version := Some version; job_pkg_root := "/p/" +:+ name +:+ "@" +:+ version;
     job_scripts := {["postinstall" := JString "node build.js"]}; job_bin := None;
     job_cache_entry := None; job_dep_names := deps |}.

Definition jobs : list DepScriptJob :=
  [job "app" "1.0.0" ["lib"; "core"]; job "lib" "1.0.0" ["core"; "core"]; job "core" "2.0.0" ["react"];
   job "a" "1.0.0" ["b"; "core"]; job "b" "1.0.0" ["a"]; job "c" "1.0.0" ["b"]].

Example chunk_names :
  map (map job_name) (topological_chunks jobs) = [["core"]; ["lib"]; ["app"]; ["a"; "b"; "c"]].
Proof. vm_refl. Qed.


(** Two versions of a package whose scripts are allowed: only one runs. *)
Example same_name_runs_once :
  map job_version (concat (topological_chunks [job "esbuild" "0.17.0" []; job "esbuild" "0.19.0" []]))
  = [Some "0.19.0"].
Proof. vm_refl. Qed.

Definition manifest : json :=
  JObject {["name" := JString "esbuild"; "version" := JString "0.19.0";
            "scripts" := JObject {["postinstall" := JString "node install.js"]}]}.
Definition entry : string -> string -> Result SideEffectsCacheEntry :=
  fun name version => Ok (side_effects_entry config_for_tests "linux" "x86_64" "node20" name version "00").
Definition workspace : Workspace :=
  {| w_root := "/ws"; w_projects := [];
     w_config := {| wc_packages := []; wc_catalog := ∅; wc_catalogs := ∅;
                    wc_only_built_dependencies := ["esbuild"]; wc_ignored_built_dependencies := [];
                    wc_disable_global_virtual_store_for_packages := None; wc_hoisting := None |} |}.

Definition esbuild_job : DepScriptJob :=
  {| job_name := "esbuild"; job_version := Some "0.19.0"; job_pkg_root := "/p/esbuild";
     job_scripts := {["postinstall" := JString "node install.js"]}; job_bin := None;
     job_cache_entry := Some (side_effects_entry config_for_tests "linux" "x86_64" "node20" "esbuild" "0.19.0" "00");
     job_dep_names := [] |}.

Lemma scripts_run_only_if_allowed_witness :
  inspect_package config_for_tests (Some workspace) "/p/esbuild" entry (fun _ => Some Miss) manifest
    = Ok (Job esbuild_job) /\
  can_any_scripts_run config_for_tests (Some workspace) = true.
Proof.
  assert (Hi : inspect_package config_for_tests (Some workspace) "/p/esbuild" entry (fun _ => Some Miss) manifest
               = Ok (Job esbuild_job)) by vm_refl.
  split; [exact Hi|].
  exact (proj1 (proj2 (scripts_run_only_if_allowed config_for_tests (Some workspace) "/p/esbuild" entry
    (fun _ => Some Miss) manifest esbuild_job Hi))).
Defined.
End ScriptsDemo.
