(* ===== verification/Linker.v ===== *)
(** * What is linked where ([linker/])

    The choices of the linker: which root dependencies and which hoisted
    packages [node_modules] shows, the names and the targets of the launchers,
    and which packages provide the peers of a package.  [LinkStore] makes them. *)
From S2P Require Import Prelude.
From S2P Require Import BTree.
From S2P Require Import Text.
From S2P Require Import Errors.
From S2P Require Import Types.
From S2P Require Import Paths.
From S2P Require Import Crates.
From S2P Require Import Semver.

(** ** [linker/hoist.rs], [linker/selection.rs] *)
Definition effective_hoisting (config : SnpmConfig) (workspace : option Workspace) : HoistingMode :=
  default (c_hoisting config)
    (ws ← workspace; value ← wc_hoisting (w_config ws); hoisting_mode_parse value).

(** [ids_by_name.entry(&id.name).or_default().push(id)], for all ids *)
Definition push_id (ids_by_name : gmap string (list PackageId)) (id : PackageId)
  : gmap string (list PackageId) :=
  <[id_name id := default [] (ids_by_name !! id_name id) ++ [id]]> ids_by_name.
Definition ids_by_name (graph : ResolutionGraph) : gmap string (list PackageId) :=
  foldl push_id ∅ (btree_keys (g_packages graph)).

Definition should_hoist (mode : HoistingMode) (ids : list PackageId) : bool :=
  match mode with
  | HoistNone => false
  | SingleVersion => (length ids =? 1)%nat
  | HoistAll => negb (bool_decide (ids = []))
  end.

(** The packages [hoist_packages] links at the root, by name. *)
Definition hoisted (graph : ResolutionGraph) (mode : HoistingMode) : list (string * PackageId) :=
  match mode with
  | HoistNone => []
  | _ => omap (fun e => match e.2 with
                        | id :: _ => if should_hoist mode e.2 then Some (e.1, id) else None
                        | [] => None
                        end) (btree_iter (ids_by_name graph))
  end.

Definition is_root_dependency (project : Project) (include_dev : bool) (name : string) : bool :=
  let manifest := p_manifest project in
  let dep := bool_decide (is_Some (m_dependencies manifest !! name)) in
  let dev := bool_decide (is_Some (m_dev_dependencies manifest !! name)) in
  let opt := bool_decide (is_Some (m_optional_dependencies manifest !! name)) in
  if negb dep && negb dev && negb opt then false
  else if negb include_dev && (dev && negb dep) then false
  else true.

Definition filter_root_dependencies (project : Project) (graph : ResolutionGraph) (include_dev : bool)
  : list (string * RootDependency) :=
  filter (fun e => is_root_dependency project include_dev e.1 = true) (btree_iter (g_root graph)).

(** What the names of the root's [node_modules] are links to after
    [link_root_dependencies] and then [hoist_packages]: a link that does not have
    the target it should have is replaced. *)
Definition root_links (project : Project) (graph : ResolutionGraph) (include_dev : bool)
    (mode : HoistingMode) : gmap string PackageId :=
  extend (collect ((fun e => (e.1, rd_resolved e.2)) <$> filter_root_dependencies project graph include_dev))
    (hoisted graph mode).

(** ** [linker/root.rs]: links that are no longer wanted *)
(** [prune_entry_if_stale]: whether the link is removed. *)
Definition entry_is_stale (fs : FileSystem) (keep : gset string) (virtual_store_roots : list string)
    (path name : string) : bool :=
  if bool_decide (name ∈ keep) || negb (is_symlink fs path) then false else
  match fs_read_link fs path with
  | Ok target => existsb (path_starts_with target) virtual_store_roots
  | Err _ => false
  end.

Definition stale_in (fs : FileSystem) (keep : gset string) (virtual_store_roots : list string)
    (root_node_modules file_name : string) : list string :=
  let path := path_push root_node_modules file_name in
  if starts_with "@" file_name && is_dir fs path && negb (is_symlink fs path) then
    match read_dir fs path with
    | Ok scoped =>
        omap (M := list) (fun e =>
          let scoped_path := path_push path e.1 in
          if entry_is_stale fs keep virtual_store_roots scoped_path (file_name +:+ "/" +:+ e.1)
          then Some scoped_path else None) scoped
    | Err _ => []
    end
  else if entry_is_stale fs keep virtual_store_roots path file_name then [path] else [].

(** The links [prune_stale_root_entries] removes. *)
Definition stale_root_entries (fs : FileSystem) (keep : gset string) (virtual_store_roots : list string)
    (root_node_modules : string) : list string :=
  match read_dir fs root_node_modules with
  | Ok entries => mjoin ((fun e => stale_in fs keep virtual_store_roots root_node_modules e.1) <$> entries)
  | Err _ => []
  end.

(** ** [linker/fs/paths.rs] *)
Definition symlink_is_correct (fs : FileSystem) (link expected_target : string) : bool :=
  match fs_read_link fs link with
  | Ok current_target => path_eq current_target expected_target && path_exists fs expected_target
  | Err _ => false
  end.

Definition package_node_modules (location name : string) : option string :=
  if contains_char "/" name then parent location ≫= parent else parent location.

(** ** [linker/bins/names.rs] *)
Definition bad_bin_name (name : string) : bool :=
  one_of name [ε; "."; ".."] || contains_char "/" name || contains_char "\" name
  || contains_char ":" name || contains_char "000" name.

Definition sanitize_bin_name (name : string) : option string :=
  let candidate := default name (last (split_char "/" name)) in
  if bad_bin_name candidate then None else Some candidate.

Definition sanitize_explicit_bin_name (name : string) : option string :=
  if bad_bin_name name then None else Some name.

Fixpoint push_components (target : string) (cs : list Component) : option string :=
  match cs with
  | [] => Some target
  | Normal part :: cs => push_components (path_push target part) cs
  | CurDir :: cs => push_components target cs
  | ParentDir :: _ | RootDir :: _ => None
  end.

Definition resolve_bin_target (root script : string) : option string :=
  if is_absolute script then None else push_components root (components script).

(** The launchers [link_bin_entries] asks for: their names and targets. *)
Definition bin_entries (pkg_path pkg_name : string) (bin : BinField) : list (string * string) :=
  match bin with
  | Single script =>
      match resolve_bin_target pkg_path script, sanitize_bin_name pkg_name with
      | Some target, Some bin_name => [(bin_name, target)]
      | _, _ => []
      end
  | BinMap map =>
      omap (fun e => match resolve_bin_target pkg_path e.2, sanitize_explicit_bin_name e.1 with
                     | Some target, Some bin_name => Some (bin_name, target)
                     | _, _ => None
                     end) (btree_iter map)
  end.

(** ** [linker/virtual_store.rs]: peers *)
Section peers.
Context `{SemverCrate}.

Definition peer_satisfies (range : Range.RangeSet) (id : PackageId) : bool :=
  match parse_version (id_version id) with
  | Ok version => Range.matches range version
  | Err _ => false
  end.

(** [left.cmp(right) != Greater] of the closure of [max_by] *)
Definition peer_le (left right : PackageId) : Prop :=
  match parse_version (id_version left), parse_version (id_version right) with
  | Ok left_version, Ok right_version => version_le left_version right_version
  | _, _ => ord_le (id_version left) (id_version right)
  end.
Global Instance peer_le_dec left right : Decision (peer_le left right).
Proof. unfold peer_le. repeat case_match; apply _. Defined.

(** [Iterator::max_by]: of equal elements the last. *)
Definition max_step (best : option PackageId) (id : PackageId) : option PackageId :=
  match best with
  | Some b => if decide (peer_le b id) then Some id else Some b
  | None => Some id
  end.
Definition max_by (ids : list PackageId) : option PackageId := foldl max_step None ids.

Definition select_dominant_peer (peer_name : string) (range : Range.RangeSet)
    (ids_by_name : gmap string (list PackageId)) (graph : ResolutionGraph) : option PackageId :=
  let installed := max_by (filter (fun id => peer_satisfies range id = true)
                             (default [] (ids_by_name !! peer_name))) in
  match g_root graph !! peer_name with
  | Some root_dep =>
      if (id_name (rd_resolved root_dep) == peer_name) && peer_satisfies range (rd_resolved root_dep)
      then Some (rd_resolved root_dep) else installed
  | None => installed
  end.

(** One required peer; [None] is [all_satisfied = false; break]. *)
Definition resolve_peer (graph : ResolutionGraph) (ids : gmap string (list PackageId))
    (package : ResolvedPackage) (peer_map : gmap string PackageId) (peer : string * string)
  : result unit (gmap string PackageId) :=
  let '(peer_name, peer_range) := peer in
  if bool_decide (is_Some (r_dependencies package !! peer_name)) then Ok peer_map else
  match parse_range_set peer_name peer_range with
  | Ok range =>
      match select_dominant_peer peer_name range ids graph with
      | Some peer_id => Ok (<[peer_name := peer_id]> peer_map)
      | None => Err tt
      end
  | Err _ => Err tt
  end.

Definition package_peers (graph : ResolutionGraph) (ids : gmap string (list PackageId))
    (package : ResolvedPackage) : option (gmap string PackageId) :=
  result_ok (try_fold (resolve_peer graph ids package) ∅ (btree_iter (r_peer_dependencies package))).

Definition add_peers (graph : ResolutionGraph) (ids : gmap string (list PackageId))
    (resolved : gmap PackageId (gmap string PackageId)) (e : PackageId * ResolvedPackage)
  : gmap PackageId (gmap string PackageId) :=
  let '(id, package) := e in
  if decide (r_peer_dependencies package = ∅) then resolved else
  match package_peers graph ids package with
  | Some peer_map => <[id := peer_map]> resolved
  | None => resolved
  end.

Definition resolve_unique_peers (graph : ResolutionGraph) : gmap PackageId (gmap string PackageId) :=
  foldl (add_peers graph (ids_by_name graph)) ∅ (btree_iter (g_packages graph)).
End peers.

(** ** Launchers stay inside the package and the launcher directory *)
Lemma split_char_snoc c s w :
  contains_char c w = false -> split_char c (s +:+ String c w) = split_char c s ++ [w].
Proof.
  intros Hw.
  assert (Hj : s +:+ String c w = join (chr c) (split_char c s ++ [w])).
  { rewrite join_snoc by apply split_by_ne. by rewrite join_split_char. }
  rewrite Hj. apply split_char_join; [by intros [_ ?]%app_eq_nil|]. apply Forall_app. split; [|by repeat constructor].
  apply Forall_forall. intros x. apply split_char_pieces.
Qed.

(** The components of a non-empty path with one more piece. *)
Lemma components_snoc q w :
  is_empty q = false -> contains_char "/" w = false ->
  components (q +:+ String "/" w) = components q ++ option_list (component_of w).
Proof.
  intros Hq Hw. unfold components. rewrite split_char_snoc, omap_app by done.
  assert (is_absolute (q +:+ String "/" w) = is_absolute q) as ->.
  { destruct q as [|a q]; [done|]. unfold is_absolute. rewrite app_cons_s.
    change "/" with (chr "/"). by rewrite !starts_with_chr_cons. }
  rewrite (assoc_L app).
  assert (omap component_of [w] = option_list (component_of w)) as -> by (cbn; by destruct (component_of w)).
  f_equal. f_equal. f_equal.
  by destruct (split_char "/" q) as [|part parts] eqn:Hs; [apply split_by_ne in Hs|].
Qed.

Lemma components_push p n : name_ok n = true -> components (path_push p n) = components p ++ [Normal n].
Proof.
  intros Hn. pose proof (name_ok_spec n Hn) as (Hslash & He & Hdot & Hc).
  unfold path_push. rewrite (name_not_absolute n Hn).
  destruct (is_empty p) eqn:Hp; cbn [orb].
  { destruct p; [|done]. rewrite app_nil_l_s. unfold components. rewrite (name_not_absolute n Hn).
    assert (split_char "/" n = [n]) as ->.
    { change n with (join (chr "/") [n]) at 1. apply split_char_join; [done|by repeat constructor]. }
    rewrite Hdot. cbn. by rewrite Hc. }
  destruct (ends_with "/" p) eqn:Hend.
  - apply ends_with_spec in Hend as [q ->]. rewrite <-app_assoc_s.
    change ("/" +:+ n) with (String "/" n). change (q +:+ "/") with (q +:+ String "/" ε).
    destruct (is_empty q) eqn:Hq.
    + destruct q; [|done]. rewrite !app_nil_l_s. unfold components. cbn [is_absolute].
      change (String "/" n) with (ε +:+ String "/" n). change (String "/" ε) with (ε +:+ String "/" ε).
      rewrite !split_char_snoc by done. cbn. by rewrite Hc.
    + rewrite !components_snoc, Hc by done. cbn. by rewrite app_nil_r.
  - change (p +:+ "/" +:+ n) with (p +:+ String "/" n). by rewrite components_snoc, Hc by done.
Qed.

Lemma push_components_spec target cs r :
  (forall n, Normal n ∈ cs -> name_ok n = true) ->
  push_components target cs = Some r ->
  exists names, components r = components target ++ (Normal <$> names).
Proof.
  revert target. induction cs as [|c cs IH]; intros target Hok; cbn.
  { intros [= <-]. exists []. by rewrite app_nil_r. }
  destruct c as [| | |n]; try done.
  - apply IH. intros n Hn. apply Hok. by right.
  - intros Hp. destruct (IH (path_push target n)) as [names Hr]; [intros m Hm; apply Hok; by right|done|].
    exists (n :: names). rewrite Hr, components_push by (apply Hok; by left). by rewrite <-(assoc_L app).
Qed.

Lemma good_bin_name name : bad_bin_name name = false -> name_ok name = true.
Proof.
  unfold bad_bin_name. intros Hb. bool_prop. unfold name_ok. apply andb_true_iff. split; [by apply negb_true_iff|].
  apply bool_decide_eq_true. unfold one_of in *. cbn in *. bool_prop.
  unfold component_of. destruct name; [done|]. rewrite (proj2 (String.eqb_neq _ _)) by done.
  by rewrite (proj2 (String.eqb_neq _ _)) by done.
Qed.

(** C38: Every launcher the linker asks for has a name that is a single plain
    component, and a target that stays under the directory of its package,
    whatever the [bin] field says. *)
Theorem bin_entries_confined pkg_path pkg_name bin bin_name target :
  (bin_name, target) ∈ bin_entries pkg_path pkg_name bin ->
  name_ok bin_name = true /\ contains_char "\" bin_name = false /\ contains_char ":" bin_name = false /\
  exists names, components target = components pkg_path ++ (Normal <$> names).
Proof.
  assert (Hres : forall script t, resolve_bin_target pkg_path script = Some t ->
    exists names, components t = components pkg_path ++ (Normal <$> names)).
  { intros script t. unfold resolve_bin_target. destruct (is_absolute script); [done|].
    apply push_components_spec. intros n. apply components_ok. }
  assert (Hgood : forall n, bad_bin_name n = false -> name_ok n = true /\
    contains_char "\" n = false /\ contains_char ":" n = false).
  { intros n Hn. split; [by apply good_bin_name|]. unfold bad_bin_name in Hn. by bool_prop. }
  unfold bin_entries, sanitize_bin_name, sanitize_explicit_bin_name. destruct bin as [script|map].
  - destruct (resolve_bin_target pkg_path script) as [t|] eqn:Ht; [|by intros []%not_elem_of_nil].
    destruct (bad_bin_name _) eqn:Hb; [by intros []%not_elem_of_nil|].
    intros [= -> ->]%list_elem_of_singleton. apply Hgood in Hb. naive_solver.
  - intros ([entry value] & _ & He)%list_elem_of_omap. cbn in He.
    destruct (resolve_bin_target pkg_path value) as [t|] eqn:Ht; [|done].
    destruct (bad_bin_name entry) eqn:Hb; [done|]. injection He as -> ->. apply Hgood in Hb. naive_solver.
Qed.

(** ** Grouping by name *)
Lemma push_ids_lookup l m name :
  default [] (foldl push_id m l !! name) =
  default [] (m !! name) ++ filter (fun id => id_name id = name) l.
Proof.
  revert m. induction l as [|id l IH]; intros m; cbn [foldl]; [by rewrite app_nil_r|].
  rewrite IH, filter_cons. unfold push_id. destruct (decide (id_name id = name)) as [<-|Hne].
  - rewrite lookup_insert_eq. cbn. by rewrite <-(assoc_L app).
  - by rewrite lookup_insert_ne by done.
Qed.

Lemma ids_by_name_lookup graph name :
  default [] (ids_by_name graph !! name) = filter (fun id => id_name id = name) (btree_keys (g_packages graph)).
Proof. unfold ids_by_name. by rewrite push_ids_lookup, lookup_empty. Qed.

Lemma push_ids_nonempty l m name ids :
  (forall ids, m !! name = Some ids -> ids <> []) -> foldl push_id m l !! name = Some ids -> ids <> [].
Proof.
  revert m. induction l as [|id l IH]; intros m Hm; cbn [foldl]; [apply Hm|].
  apply IH. intros ids'. unfold push_id. destruct (decide (id_name id = name)) as [<-|Hne].
  - rewrite lookup_insert_eq. intros [= <-]. by intros [_ ?]%app_eq_nil.
  - rewrite lookup_insert_ne by done. apply Hm.
Qed.

Lemma ids_by_name_Some graph name ids :
  ids_by_name graph !! name = Some ids <->
  ids = filter (fun id => id_name id = name) (btree_keys (g_packages graph)) /\ ids <> [].
Proof.
  rewrite <-ids_by_name_lookup. split.
  - intros Hids. split; [by rewrite Hids|].
    eapply (push_ids_nonempty _ ∅); [|exact Hids]. intros ids'. by rewrite lookup_empty.
  - intros [-> Hne]. destruct (ids_by_name graph !! name); done.
Qed.

Lemma NoDup_omap_keys {A B C} (f : A * B -> option (A * C)) (l : list (A * B)) :
  (forall e r, f e = Some r -> r.1 = e.1) -> NoDup l.*1 -> NoDup (omap f l).*1.
Proof.
  intros Hf. induction l as [|e l IH]; [constructor|]. intros [He Hl]%NoDup_cons.
  cbn [omap list_omap]. destruct (f e) as [r|] eqn:Hr; [|by apply IH].
  constructor; [|by apply IH]. rewrite (Hf _ _ Hr).
  intros (r' & Heq & (e' & Hin & Hr')%list_elem_of_omap)%list_elem_of_fmap. apply He.
  rewrite Heq, (Hf _ _ Hr'). by apply list_elem_of_fmap_2.
Qed.

Lemma elem_of_hoisted graph mode name id :
  (name, id) ∈ hoisted graph mode <->
  exists rest, ids_by_name graph !! name = Some (id :: rest) /\ should_hoist mode (id :: rest) = true.
Proof.
  assert (Homap : forall m, (name, id) ∈ omap (fun e => match e.2 with
                        | id :: _ => if should_hoist m e.2 then Some (e.1, id) else None
                        | [] => None
                        end) (btree_iter (ids_by_name graph)) <->
    exists rest, ids_by_name graph !! name = Some (id :: rest) /\ should_hoist m (id :: rest) = true).
  { intros m. rewrite list_elem_of_omap. split.
    - intros ([n [|i rest]] & Hin%elem_of_btree_iter & He); cbn in He; [done|].
      case_match; [|done]. injection He as -> ->. by exists rest.
    - intros (rest & Hin & Hs). exists (name, id :: rest). rewrite elem_of_btree_iter. cbn [fst snd]. by rewrite Hs. }
  destruct mode; cbn [hoisted]; [|apply Homap..].
  split; [by intros []%not_elem_of_nil|by intros (? & _ & ?)].
Qed.

Lemma hoisted_keys graph mode : NoDup (hoisted graph mode).*1.
Proof.
  assert (Hall : forall m, NoDup (omap (fun e => match e.2 with
                        | id :: _ => if should_hoist m e.2 then Some (e.1, id) else None
                        | [] => None
                        end) (btree_iter (ids_by_name graph))).*1).
  { intros m. apply NoDup_omap_keys; [|apply NoDup_btree_keys].
    intros [n [|i rest]] r; cbn; [done|]. case_match; [|done]. by intros [= <-]. }
  destruct mode; cbn [hoisted]; [constructor|apply Hall..].
Qed.

Lemma elem_of_group graph name id :
  id ∈ filter (fun id => id_name id = name) (btree_keys (g_packages graph)) <->
  is_Some (g_packages graph !! id) /\ id_name id = name.
Proof. rewrite list_elem_of_filter, elem_of_btree_keys. tauto. Qed.

Lemma hoisted_facts graph mode :
  NoDup (hoisted graph mode).*1 /\
  (forall name id, (name, id) ∈ hoisted graph mode -> id_name id = name /\ is_Some (g_packages graph !! id)) /\
  (forall id, (id_name id, id) ∈ hoisted graph SingleVersion <->
     is_Some (g_packages graph !! id) /\
     forall id', is_Some (g_packages graph !! id') -> id_name id' = id_name id -> id' = id) /\
  (forall name, name ∈ (hoisted graph HoistAll).*1 <->
     exists id, is_Some (g_packages graph !! id) /\ id_name id = name).
Proof.
  split; [apply hoisted_keys|]. split_and!.
  - intros name id (rest & [Hids _]%ids_by_name_Some & _)%elem_of_hoisted.
    apply and_comm, elem_of_group. rewrite <-Hids. by left.
  - intros id. rewrite elem_of_hoisted. split.
    + intros ([|id2 rest] & [Hids _]%ids_by_name_Some & Hs); [|done].
      assert (Hin : forall id', is_Some (g_packages graph !! id') /\ id_name id' = id_name id <-> id' = id).
      { intros id'. rewrite <-elem_of_group, <-Hids. apply list_elem_of_singleton. }
      split; [by apply Hin|]. intros id' ? ?. by apply Hin.
    + intros [Hid Huniq]. exists []. split; [|done]. apply ids_by_name_Some. split; [|done].
      pose proof (NoDup_filter (fun i => id_name i = id_name id) _ (NoDup_btree_keys (g_packages graph))) as Hnd.
      assert (Hin : forall id', id' ∈ filter (fun i => id_name i = id_name id) (btree_keys (g_packages graph)) <-> id' = id).
      { intros id'. rewrite elem_of_group. naive_solver. }
      change (btree_iter (g_packages graph)).*1 with (btree_keys (g_packages graph)) in Hnd.
      destruct (filter _ _) as [|i [|i2 rest]] eqn:Hf.
      * exfalso. by apply (not_elem_of_nil id), Hin.
      * f_equal. symmetry. apply Hin. by left.
      * exfalso. apply NoDup_cons in Hnd as [Hnot _]. apply Hnot.
        assert (i = id) as -> by (apply Hin; by left). assert (i2 = id) as -> by (apply Hin; right; by left).
        by left.
  - intros name. rewrite list_elem_of_fmap. split.
    + intros ([n id] & -> & (rest & [Hids _]%ids_by_name_Some & _)%elem_of_hoisted).
      exists id. cbn. apply elem_of_group. rewrite <-Hids. by left.
    + intros (id & Hid%elem_of_group).
      destruct (filter (fun i => id_name i = name) (btree_keys (g_packages graph))) as [|i rest] eqn:Hf;
        [by apply not_elem_of_nil in Hid|].
      exists (name, i). split; [done|]. apply elem_of_hoisted. exists rest.
      split; [|by unfold should_hoist; rewrite bool_decide_eq_false_2]. by apply ids_by_name_Some.
Qed.

(** Hoisting at the root: never two packages of a name; in the safe mode
    exactly the packages that are the only version of their name, in the full
    mode one version of every name. *)
Theorem hoisted_spec graph mode :
  NoDup (hoisted graph mode).*1 /\
  (forall name id, (name, id) ∈ hoisted graph mode -> id_name id = name /\ is_Some (g_packages graph !! id)) /\
  (forall id, (id_name id, id) ∈ hoisted graph SingleVersion <->
     is_Some (g_packages graph !! id) /\
     forall id', is_Some (g_packages graph !! id') -> id_name id' = id_name id -> id' = id) /\
  (forall name, name ∈ (hoisted graph HoistAll).*1 <->
     exists id, is_Some (g_packages graph !! id) /\ id_name id = name).
Proof. apply hoisted_facts. Qed.

(** As long as hoisting does not mix versions of a name, the root's
    [node_modules] shows every root dependency that is to be linked at the
    version the resolver chose for it. *)
Theorem root_links_spec project graph include_dev mode name d :
  mode <> HoistAll ->
  (forall name d, g_root graph !! name = Some d ->
     id_name (rd_resolved d) = name /\ is_Some (g_packages graph !! rd_resolved d)) ->
  g_root graph !! name = Some d -> is_root_dependency project include_dev name = true ->
  root_links project graph include_dev mode !! name = Some (rd_resolved d).
Proof.
  intros Hmode Hroot Hd Hlink. unfold root_links. rewrite extend_lookup, <-collect_list_to_map.
  destruct (Hroot _ _ Hd) as [Hn Hp]. destruct (collect (hoisted graph mode) !! name) as [id|] eqn:Hc.
  - apply collect_lookup_Some in Hc. destruct mode; [by apply not_elem_of_nil in Hc| |done].
    destruct (proj1 (proj2 (hoisted_facts graph SingleVersion)) _ _ Hc) as [Hid _].
    assert (Hs : (id_name id, id) ∈ hoisted graph SingleVersion) by congruence.
    apply (proj1 (proj2 (proj2 (hoisted_facts graph SingleVersion)))) in Hs as [_ Huniq].
    f_equal. symmetry. apply Huniq; [done|congruence].
  - set (l := _ <$> _). assert (Hl : NoDup l.*1).
    { unfold l. rewrite <-list_fmap_compose. apply NoDup_fmap_fst.
      - intros n x y Hx Hy. unfold filter_root_dependencies in *.
        apply list_elem_of_filter in Hx as [_ Hx%elem_of_btree_iter].
        apply list_elem_of_filter in Hy as [_ Hy%elem_of_btree_iter]. congruence.
      - apply NoDup_filter, NoDup_btree_iter. }
    apply collect_lookup; [done|]. apply list_elem_of_fmap. exists (name, d). split; [done|].
    apply list_elem_of_filter. split; [done|]. by apply elem_of_btree_iter.
Qed.

Lemma entry_is_stale_spec (fs : FileSystem) keep roots path name :
  entry_is_stale fs keep roots path name = true <->
  name ∉ keep /\ is_symlink fs path = true /\
  exists target root, fs_read_link fs path = Ok target /\ root ∈ roots /\
    components root `prefix_of` components target.
Proof.
  unfold entry_is_stale. case_bool_decide as Hk; cbn [orb]; [split; [done|]; by intros []|].
  destruct (is_symlink fs path); cbn [negb]; [|split; [done|]; by intros (_ & [=] & _)].
  destruct (fs_read_link fs path) as [target|]; [|split; [done|]; by intros (_ & _ & ? & ? & [=] & _)].
  rewrite existsb_true. unfold path_starts_with. setoid_rewrite bool_decide_eq_true. naive_solver.
Qed.

(** Only links are removed from the root's [node_modules], only those that
    point into a virtual store, and never one of a root dependency that is to be
    linked; a name is one entry, or two for a package in a scope. *)
Theorem stale_root_entries_spec (fs : FileSystem) keep roots root_node_modules path :
  (forall dir entries e, read_dir fs dir = Ok entries -> e ∈ entries ->
     name_ok e.1 = true) ->
  path ∈ stale_root_entries fs keep roots root_node_modules ->
  is_symlink fs path = true /\
  (exists target root, fs_read_link fs path = Ok target /\ root ∈ roots /\
    components root `prefix_of` components target) /\
  exists name, path = path_push root_node_modules name /\ name ∉ keep.
Proof.
  intros Hnames. unfold stale_root_entries. destruct (read_dir fs root_node_modules) as [entries|] eqn:Hr;
    [|by intros []%not_elem_of_nil].
  intros (l & Hpath & (e & -> & He)%list_elem_of_fmap)%list_elem_of_join.
  specialize (Hnames _ _ _ Hr He) as Hn. unfold stale_in in Hpath.
  destruct (starts_with "@" e.1 && is_dir fs _ && negb _) eqn:Hscope.
  - destruct (read_dir fs (path_push root_node_modules e.1)) as [scoped|] eqn:Hs; [|by apply not_elem_of_nil in Hpath].
    apply list_elem_of_omap in Hpath as (e2 & He2 & Hstale). case_match eqn:Hst; [|done]. injection Hstale as <-.
    apply entry_is_stale_spec in Hst as (Hk & Hl & Ht). split_and!; [done|done|].
    exists (e.1 +:+ "/" +:+ e2.1). split; [|done]. apply path_push_push; [done|].
    by apply name_not_absolute, (Hnames _ _ _ Hs).
  - case_match eqn:Hst; [|by apply not_elem_of_nil in Hpath].
    apply list_elem_of_singleton in Hpath as ->. apply entry_is_stale_spec in Hst as (Hk & Hl & Ht).
    split_and!; [done|done|]. by exists e.1.
Qed.

(** ** Peers *)
Section peers_correct.
Context `{SemverLaws}.

Lemma satisfies_parses range id : peer_satisfies range id = true -> exists v, parse_version (id_version id) = Ok v.
Proof. unfold peer_satisfies. destruct (parse_version _); [eauto|done]. Qed.

Lemma peer_le_parsed a b va vb :
  parse_version (id_version a) = Ok va -> parse_version (id_version b) = Ok vb ->
  peer_le a b <-> version_le va vb.
Proof. unfold peer_le. by intros -> ->. Qed.

Lemma max_by_spec ids :
  (forall id, id ∈ ids -> exists v, parse_version (id_version id) = Ok v) ->
  match max_by ids with
  | Some m => m ∈ ids /\ forall id, id ∈ ids -> peer_le id m
  | None => ids = []
  end.
Proof.
  unfold max_by. induction ids as [|id ids IH] using rev_ind; [done|]. intros Hp.
  rewrite foldl_app. cbn [foldl].
  assert (Hrefl : forall v, version_le v v) by (intros v; by destruct (total version_le v v)).
  destruct (Hp id) as [v Hv]; [set_solver|].
  specialize (IH ltac:(set_solver)). destruct (foldl max_step None ids) as [b|]; cbn [max_step].
  - destruct IH as [Hb Hmax]. destruct (Hp b) as [vb Hvb]; [set_solver|]. case_decide as Hle.
    + split; [set_solver|]. intros i [Hi| ->%list_elem_of_singleton]%elem_of_app; [|by rewrite peer_le_parsed].
      destruct (Hp i) as [vi Hvi]; [set_solver|]. specialize (Hmax i Hi).
      rewrite peer_le_parsed in * by done. by etrans.
    + split; [set_solver|]. intros i [Hi| ->%list_elem_of_singleton]%elem_of_app; [by apply Hmax|].
      rewrite peer_le_parsed in * by done. by destruct (total version_le vb v).
  - subst. split; [set_solver|]. intros i ->%list_elem_of_singleton. by rewrite peer_le_parsed.
Qed.

(** The root's own choice, when it satisfies the range. *)
Definition root_choice (graph : ResolutionGraph) (peer_name : string) (range : Range.RangeSet)
    (id : PackageId) : Prop :=
  id_name id = peer_name /\ peer_satisfies range id = true /\
  rd_resolved <$> g_root graph !! peer_name = Some id.

Definition best_installed (graph : ResolutionGraph) (peer_name : string) (range : Range.RangeSet)
    (id : PackageId) : Prop :=
  id_name id = peer_name /\ peer_satisfies range id = true /\ is_Some (g_packages graph !! id) /\
  forall id', is_Some (g_packages graph !! id') -> id_name id' = peer_name ->
              peer_satisfies range id' = true -> peer_le id' id.

Definition no_provider (graph : ResolutionGraph) (peer_name : string) (range : Range.RangeSet) : Prop :=
  (forall id, ~ root_choice graph peer_name range id) /\
  forall id, is_Some (g_packages graph !! id) -> id_name id = peer_name -> peer_satisfies range id = false.

Lemma select_dominant_peer_spec graph peer_name range :
  match select_dominant_peer peer_name range (ids_by_name graph) graph with
  | Some id => root_choice graph peer_name range id \/
               (forall id', ~ root_choice graph peer_name range id') /\ best_installed graph peer_name range id
  | None => no_provider graph peer_name range
  end.
Proof.
  unfold select_dominant_peer. rewrite ids_by_name_lookup.
  set (ids := filter _ (filter _ _)).
  assert (Hids : forall id, id ∈ ids <->
    is_Some (g_packages graph !! id) /\ id_name id = peer_name /\ peer_satisfies range id = true).
  { intros id. unfold ids. rewrite list_elem_of_filter, elem_of_group. tauto. }
  pose proof (max_by_spec ids) as Hmax.
  specialize (Hmax ltac:(intros id (_ & _ & ?)%Hids; by eapply satisfies_parses)).
  assert (Hinst : (forall id', ~ root_choice graph peer_name range id') ->
    match max_by ids with
    | Some id => root_choice graph peer_name range id \/
        (forall id', ~ root_choice graph peer_name range id') /\ best_installed graph peer_name range id
    | None => no_provider graph peer_name range
    end).
  { intros Hno. destruct (max_by ids) as [m|].
    - right. split; [done|]. destruct Hmax as [(? & ? & ?)%Hids Hmax]. split_and!; [done..|].
      intros id' ? ? ?. apply Hmax. by apply Hids.
    - split; [done|]. intros id ? ?. apply not_true_iff_false. intros ?.
      assert (id ∈ ids) as Hin by by apply Hids. rewrite Hmax in Hin. by apply not_elem_of_nil in Hin. }
  destruct (g_root graph !! peer_name) as [d|] eqn:Hd.
  - destruct ((id_name (rd_resolved d) == peer_name) && peer_satisfies range (rd_resolved d)) eqn:Hr.
    + bool_prop. left. unfold root_choice. by rewrite Hd.
    + apply Hinst. intros id' (Hn & Hs & Hroot). rewrite Hd in Hroot. cbn in Hroot. injection Hroot as <-.
      by rewrite Hn, String.eqb_refl, Hs in Hr.
  - apply Hinst. intros id' (_ & _ & Hroot). by rewrite Hd in Hroot.
Qed.

(** A peer the package does not depend on anyway is bound to this package. *)
Definition bound_peer (graph : ResolutionGraph) (peer_name peer_range : string) (id : PackageId) : Prop :=
  exists range, parse_range_set peer_name peer_range = Ok range /\
    (root_choice graph peer_name range id \/
     (forall id', ~ root_choice graph peer_name range id') /\ best_installed graph peer_name range id).

Definition unbound_peer (graph : ResolutionGraph) (peer_name peer_range : string) : Prop :=
  forall range, parse_range_set peer_name peer_range = Ok range -> no_provider graph peer_name range.

Lemma resolve_peer_spec graph package m peer_name peer_range :
  match resolve_peer graph (ids_by_name graph) package m (peer_name, peer_range) with
  | Ok m' => (is_Some (r_dependencies package !! peer_name) /\ m' = m) \/
             (r_dependencies package !! peer_name = None /\
              exists id, bound_peer graph peer_name peer_range id /\ m' = <[peer_name := id]> m)
  | Err _ => r_dependencies package !! peer_name = None /\ unbound_peer graph peer_name peer_range
  end.
Proof.
  unfold resolve_peer. case_bool_decide as Hdep; [by left|]. apply eq_None_not_Some in Hdep.
  destruct (parse_range_set peer_name peer_range) as [range|] eqn:Hr; [|split; [done|intros range Hr2; congruence]].
  pose proof (select_dominant_peer_spec graph peer_name range) as Hsel.
  destruct (select_dominant_peer _ _ _ _) as [id|].
  - right. split; [done|]. exists id. split; [|done]. by exists range.
  - split; [done|]. intros range' Hr'. rewrite Hr in Hr'. by injection Hr' as <-.
Qed.

(** What the loop over the required peers yields. *)
Definition peers_of (graph : ResolutionGraph) (package : ResolvedPackage) (m : gmap string PackageId) : Prop :=
  forall peer_name, match r_peer_dependencies package !! peer_name, r_dependencies package !! peer_name with
  | Some peer_range, None => exists id, m !! peer_name = Some id /\ bound_peer graph peer_name peer_range id
  | _, _ => m !! peer_name = None
  end.

Lemma package_peers_spec graph package :
  match package_peers graph (ids_by_name graph) package with
  | Some m => peers_of graph package m
  | None => exists peer_name peer_range, r_peer_dependencies package !! peer_name = Some peer_range /\
      r_dependencies package !! peer_name = None /\ unbound_peer graph peer_name peer_range
  end.
Proof.
  unfold package_peers.
  assert (Hnd := NoDup_btree_keys (r_peer_dependencies package)).
  assert (Hgen : forall l m, NoDup l.*1 -> (forall e, e ∈ l -> m !! e.1 = None) ->
    match try_fold (resolve_peer graph (ids_by_name graph) package) m l with
    | Ok m' => forall n, (n ∉ l.*1 -> m' !! n = m !! n) /\ forall r, (n, r) ∈ l ->
        match r_dependencies package !! n with
        | None => exists id, m' !! n = Some id /\ bound_peer graph n r id
        | Some _ => m' !! n = None
        end
    | Err _ => exists n r, (n, r) ∈ l /\ r_dependencies package !! n = None /\ unbound_peer graph n r
    end).
  { induction l as [|[n r] l IH]; intros m Hl Hm; cbn [try_fold].
    { intros n. split; [done|]. by intros r []%not_elem_of_nil. }
    rewrite fmap_cons in Hl. apply NoDup_cons in Hl as [Hn Hl]. pose proof (resolve_peer_spec graph package m n r) as Hstep.
    destruct (resolve_peer _ _ _ _ _) as [m1|[]]; [|exists n, r; split; [by left|done]]. cbn [mbind result_bind].
    assert (Hm1 : forall e, e ∈ l -> m1 !! e.1 = None).
    { intros e He. assert (e.1 <> n) by (intros Heq; apply Hn; cbn; rewrite <-Heq; by apply (list_elem_of_fmap_2 fst)).
      destruct Hstep as [[_ ->]|(_ & id & _ & ->)]; [|rewrite lookup_insert_ne by done]; apply Hm; by right. }
    specialize (IH m1 Hl Hm1). destruct (try_fold _ m1 l) as [m'|]; [|destruct IH as (n' & r' & ? & ?); exists n', r';
      split; [by right|done]].
    intros n'. destruct (IH n') as [IH1 IH2]. split.
    - intros [Hne Hnot]%not_elem_of_cons. rewrite IH1 by done.
      destruct Hstep as [[_ ->]|(_ & id & _ & ->)]; [done|]. by rewrite lookup_insert_ne by done.
    - intros r' [[= -> ->]|Hin]%elem_of_cons; [|by apply IH2]. rewrite IH1 by done.
      destruct Hstep as [[[? Hs] ->]|(-> & id & Hb & ->)].
      + rewrite Hs. apply (Hm (n, r)). by left.
      + exists id. by rewrite lookup_insert_eq. }
  specialize (Hgen (btree_iter (r_peer_dependencies package)) ∅ Hnd (fun e _ => lookup_empty e.1)).
  destruct (try_fold _ _ _) as [m|]; cbn [result_ok];
    [|destruct Hgen as (n & r & Hin%elem_of_btree_iter & ?); by exists n, r].
  intros n. destruct (Hgen n) as [H1 H2]. destruct (r_peer_dependencies package !! n) as [r|] eqn:Hr.
  - specialize (H2 r ltac:(by apply elem_of_btree_iter)). by case_match.
  - rewrite H1, lookup_empty; [done|]. intros (e & -> & He)%list_elem_of_fmap.
    destruct e as [n r]. apply elem_of_btree_iter in He. cbn in Hr. congruence.
Qed.

Lemma resolve_unique_peers_lookup graph id :
  resolve_unique_peers graph !! id =
  (package ← g_packages graph !! id;
   if decide (r_peer_dependencies package = ∅) then None
   else package_peers graph (ids_by_name graph) package).
Proof.
  unfold resolve_unique_peers.
  pose proof (btree_foldl_insert_lookup (W := gmap string PackageId) (fun _ package =>
    if decide (r_peer_dependencies package = ∅) then None
    else package_peers graph (ids_by_name graph) package) (g_packages graph) ∅ id) as Hl.
  rewrite lookup_empty in Hl. etrans; [|etrans; [exact Hl|]]; [|by case_match].
  f_equal. apply foldl_ext; [|done..]. intros m [i p]. unfold add_peers. cbn. by case_decide.
Qed.

(** C35: [resolve_unique_peers] binds a package exactly when it has required
    peers and each of them is a direct dependency of the package or has a
    provider; a peer is bound to the version the root depends on when that one
    satisfies the range, else to the greatest installed version that does, and
    direct dependencies are never among the bound peers. *)
Theorem resolve_unique_peers_spec graph id :
  match resolve_unique_peers graph !! id with
  | Some peers => exists package, g_packages graph !! id = Some package /\
      r_peer_dependencies package <> ∅ /\ peers_of graph package peers
  | None => forall package, g_packages graph !! id = Some package ->
      r_peer_dependencies package = ∅ \/
      exists peer_name peer_range, r_peer_dependencies package !! peer_name = Some peer_range /\
        r_dependencies package !! peer_name = None /\ unbound_peer graph peer_name peer_range
  end.
Proof.
  rewrite resolve_unique_peers_lookup. destruct (g_packages graph !! id) as [package|]; [|done]. cbn.
  case_decide as He.
  - intros p [= <-]. by left.
  - pose proof (package_peers_spec graph package) as Hp. destruct (package_peers _ _ _).
    + by exists package.
    + intros p [= <-]. by right.
Qed.
End peers_correct.

(** ** Witnesses *)
Module LinkerDemo.
Definition id (name version : string) : PackageId := {| id_name := name; id_version := version |}.

Definition pkg (name version : string) (deps : gmap string PackageId) (peers : gmap string string)
  : PackageId * ResolvedPackage :=
  (id name version,
   {| r_id := id name version; r_tarball := "https://r.test/" +:+ name; r_integrity := Some "sha512-x";
      r_dependencies := deps; r_peer_dependencies := peers; r_bundled_dependencies := None;
      r_has_bin := false; r_bin := None |}).

Definition manifest (deps dev opt : list string) : Manifest :=
  let specs names : gmap string string := list_to_map ((fun n => (n, "*")) <$> names) in
  {| m_name := Some "app"; m_version := None; m_package_manager := None; m_private := true;
     m_dependencies := specs deps; m_dev_dependencies := specs dev; m_optional_dependencies := specs opt;
     m_scripts := ∅; m_resolutions := ∅; m_overrides := ∅; m_files := None; m_bin := None; m_main := None;
     m_pnpm := None; m_snpm := None; m_workspaces := None; m_extra := ∅ |}.

Definition project (deps dev opt : list string) : Project :=
  {| p_root := "/p"; p_manifest_path := "/p/package.json"; p_manifest := manifest deps dev opt |}.

Definition root (deps : list (string * PackageId)) : gmap string RootDependency :=
  list_to_map ((fun e => (e.1, {| rd_requested := "*"; rd_resolved := e.2 |})) <$> deps).

(** Two versions of [react]; [widget] wants [react] as a peer. *)
Definition graph : ResolutionGraph := {|
  g_root := root [("react", id "react" "18.2.0"); ("widget", id "widget" "1.0.0")];
  g_packages := list_to_map [pkg "react" "17.0.2" ∅ ∅; pkg "react" "18.2.0" ∅ ∅;
                             pkg "old" "1.0.0" {["react" := id "react" "17.0.2"]} ∅;
                             pkg "widget" "1.0.0" {["old" := id "old" "1.0.0"]} {["react" := ">=17.0.0"]}] |}.

Definition app : Project := project ["react"; "widget"] [] [].

Example peers_bound :
  btree_iter <$> resolve_unique_peers graph !! id "widget" "1.0.0" = Some [("react", id "react" "18.2.0")].
Proof. vm_refl. Qed.

Lemma resolve_unique_peers_spec_witness :
  exists peers package, resolve_unique_peers graph !! id "widget" "1.0.0" = Some peers /\
    g_packages graph !! id "widget" "1.0.0" = Some package /\
    r_peer_dependencies package <> ∅ /\ peers_of graph package peers.
Proof.
  pose proof (resolve_unique_peers_spec graph (id "widget" "1.0.0")) as Hspec.
  destruct (resolve_unique_peers graph !! id "widget" "1.0.0") as [peers|] eqn:Hp.
  - destruct Hspec as [package Hspec]. exact (ex_intro _ peers (ex_intro _ package (conj eq_refl Hspec))).
  - apply (f_equal (fmap btree_iter)) in Hp. rewrite peers_bound in Hp. discriminate Hp.
Defined.

Lemma root_links_spec_witness :
  root_links app graph true SingleVersion !! "react" = Some (id "react" "18.2.0").
Proof.
  apply (root_links_spec app graph true SingleVersion "react"
           {| rd_requested := "*"; rd_resolved := id "react" "18.2.0" |}); [done| |vm_refl|vm_refl].
  intros name d Hd. apply (map_Forall_lookup_1 (fun name d => id_name (rd_resolved d) = name /\
    is_Some (g_packages graph !! rd_resolved d)) (g_root graph) name d); [|exact Hd].
  apply (bool_decide_unpack _). vm_compute. exact I.
Defined.

(** Hoisting every name replaces the root's own [react] by the smallest version. *)
Example full_hoisting_replaces_the_root :
  root_links app graph true HoistAll !! "react" = Some (id "react" "17.0.2").
Proof. vm_refl. Qed.

(** So does hoisting in the safe mode with an alias at the root: [react] was to
    be [preact]. *)
Definition alias_graph : ResolutionGraph := {|
  g_root := root [("react", id "preact" "10.0.0"); ("widget", id "widget" "1.0.0")];
  g_packages := list_to_map [pkg "preact" "10.0.0" ∅ ∅; pkg "react" "18.2.0" ∅ ∅;
                             pkg "widget" "1.0.0" {["react" := id "react" "18.2.0"]} ∅] |}.
Example safe_hoisting_replaces_an_alias :
  root_links app alias_graph true HoistNone !! "react" = Some (id "preact" "10.0.0") /\
  root_links app alias_graph true SingleVersion !! "react" = Some (id "react" "18.2.0").
Proof. split; vm_refl. Qed.

Lemma bin_entries_confined_witness :
  name_ok "tool" = true /\ contains_char "\" "tool" = false /\ contains_char ":" "tool" = false /\
  exists names, components "/s/@x/tool/bin/cli.js" = components "/s/@x/tool" ++ (Normal <$> names).
Proof.
  apply (bin_entries_confined "/s/@x/tool" "@x/tool" (Single "./bin/cli.js") "tool"
           "/s/@x/tool/bin/cli.js").
  vm_compute. left.
Defined.

(** A [node_modules] with a link into the virtual store, one that is kept and a
    link of the user. *)
Definition fs : FileSystem := {|
  fs_lstat p := if one_of p ["/p/node_modules/@s"] then Ok {| st_type := TDir; st_len := 0; st_modified := Ok 0%Z |}
                else Ok {| st_type := TSymlink; st_len := 0; st_modified := Ok 0%Z |};
  fs_stat p := Ok {| st_type := TDir; st_len := 0; st_modified := Ok 0%Z |};
  fs_bytes p := Err "is a directory";
  fs_read_link p := if p == "/p/node_modules/mine" then Ok "/home/me/mine" else Ok "/p/.snpm/x@1/node_modules/x";
  fs_entries p :=
    if p == "/p/node_modules" then Ok [Ok ("a", Ok TSymlink); Ok ("@s", Ok TDir); Ok ("mine", Ok TSymlink)]
    else if p == "/p/node_modules/@s" then Ok [Ok ("b", Ok TSymlink); Ok ("c", Ok TSymlink)]
    else Err "no such directory" |}.

Example stale_found :
  stale_root_entries fs {["a"; "@s/b"]} ["/p/.snpm"] "/p/node_modules" = ["/p/node_modules/@s/c"].
Proof. vm_refl. Qed.

Lemma stale_root_entries_spec_witness :
  is_symlink fs "/p/node_modules/@s/c" = true /\
  (exists target root, fs_read_link fs "/p/node_modules/@s/c" = Ok target /\ root ∈ ["/p/.snpm"] /\
    components root `prefix_of` components target) /\
  exists name, "/p/node_modules/@s/c" = path_push "/p/node_modules" name /\
    name ∉ ({["a"; "@s/b"]} : gset string).
Proof.
  apply (stale_root_entries_spec fs {["a"; "@s/b"]} ["/p/.snpm"] "/p/node_modules").
  - intros dir entries e. cbn. repeat case_match; intros [= <-]; cbn; intros He;
      repeat (apply elem_of_cons in He as [->|He]; [vm_refl|]); by apply not_elem_of_nil in He.
  - rewrite stale_found. by left.
Defined.
End LinkerDemo.
