(* ===== verification/Sharing.v ===== *)
(** * Sharing packages between projects ([linker/virtual_store.rs])

    Which packages of a graph live in the virtual store that all projects share
    and which are materialized in the project; the directories of both stores;
    the hash that names a shared entry, which stands for everything the entry is
    wired to; and the file that remembers what an entry is wired to.  Creating
    the links and copying the files is not modelled. *)
From S2P Require Import Prelude.
From S2P Require Import BTree.
From S2P Require Import Text.
From S2P Require Import Errors.
From S2P Require Import Types.
From S2P Require Import Paths.
From S2P Require Import Crates.
From S2P Require Import Semver.
From S2P Require Import Store.
From S2P Require Import Patches.
From S2P Require Import Scripts.
From S2P Require Import Linker.

(** The table of the hashes computed so far, and the ids that are being visited. *)
Notation HashState := (gmap PackageId string * gset PackageId)%type.

Section sharing.
Context `{SemverCrate}.

(** ** Which packages are materialized in the project *)
Definition package_disables_global_virtual_store (config : SnpmConfig) (workspace : option Workspace)
    (package_name : string) : bool :=
  match ws ← workspace; wc_disable_global_virtual_store_for_packages (w_config ws) with
  | Some packages => one_of package_name packages
  | None => bool_decide (package_name ∈ c_disable_global_virtual_store_for_packages config)
  end.

Definition package_has_project_local_source (tree : FileTree) (package : ResolvedPackage) : bool :=
  match strip_prefix "file://" (r_tarball package) with
  | Some path => is_dir tree path
  | None => false
  end.

Definition patched_package_ids (projects : list Project) : gset PackageId :=
  list_to_set (omap (M := list) (fun key => '(name, version) ← parse_patch_key key;
                                            Some {| id_name := name; id_version := version |})
                 (mjoin ((fun project => btree_keys (get_patched_dependencies project)) <$> projects))).

Definition package_is_project_local (tree : FileTree) (config : SnpmConfig)
    (workspace : option Workspace) (patched : gset PackageId)
    (resolved_peers : gmap PackageId (gmap string PackageId)) (id : PackageId)
    (package : ResolvedPackage) : bool :=
  package_disables_global_virtual_store config workspace (id_name id)
  || bool_decide (id ∈ patched)
  || is_dep_script_allowed config workspace (id_name id)
  || package_has_project_local_source tree package
  || (negb (bool_decide (r_peer_dependencies package = ∅))
      && negb (bool_decide (is_Some (resolved_peers !! id)))).

(** One package of a round: it is marked when a dependency or a resolved peer is. *)
Definition depends_on_local (resolved_peers : gmap PackageId (gmap string PackageId))
    (local : gset PackageId) (id : PackageId) (package : ResolvedPackage) : bool :=
  existsb (fun dep_id => bool_decide (dep_id ∈ local)) (btree_values (r_dependencies package))
  || match resolved_peers !! id with
     | Some peers => existsb (fun peer_id => bool_decide (peer_id ∈ local)) (btree_values peers)
     | None => false
     end.

Definition spread_step (resolved_peers : gmap PackageId (gmap string PackageId))
    (acc : gset PackageId * bool) (e : PackageId * ResolvedPackage) : gset PackageId * bool :=
  let '(local, changed) := acc in
  let '(id, package) := e in
  if decide (id ∈ local) then acc
  else if depends_on_local resolved_peers local id package then ({[id]} ∪ local, true)
  else acc.

Fixpoint spread_loop (fuel : nat) (resolved_peers : gmap PackageId (gmap string PackageId))
    (packages : list (PackageId * ResolvedPackage)) (local : gset PackageId) : option (gset PackageId) :=
  match fuel with
  | O => None
  | S fuel =>
      let '(local, changed) := foldl (spread_step resolved_peers) (local, false) packages in
      if changed then spread_loop fuel resolved_peers packages local else Some local
  end.

Definition initially_local (tree : FileTree) (config : SnpmConfig) (workspace : option Workspace)
    (projects : list Project) (graph : ResolutionGraph) : gset PackageId :=
  list_to_set (filter (fun e => package_is_project_local tree config workspace
                                  (patched_package_ids projects) (resolve_unique_peers graph) e.1 e.2 = true)
                 (btree_iter (g_packages graph))).*1.

(** Every round but the last marks a package, so one more round than packages is
    enough. *)
Definition local_global_virtual_store_package_ids (tree : FileTree) (config : SnpmConfig)
    (workspace : option Workspace) (projects : list Project) (graph : ResolutionGraph)
  : gset PackageId :=
  default ∅ (spread_loop (S (size (g_packages graph))) (resolve_unique_peers graph)
               (btree_iter (g_packages graph))
               (initially_local tree config workspace projects graph)).

Definition shared_package_ids (graph : ResolutionGraph) (locally_materialized_ids : gset PackageId)
  : gset PackageId :=
  list_to_set (filter (fun id => id ∉ locally_materialized_ids) (btree_keys (g_packages graph))).
(** ** Directories *)
Definition virtual_id_dir (virtual_store_dir : string) (id : PackageId) : string :=
  let safe_name := replace_char "/" "+" (id_name id) in
  path_push virtual_store_dir (safe_name +:+ "@" +:+ id_version id).

Definition hashed_virtual_id_dir (virtual_store_dir : string) (id : PackageId)
    (entry_hashes : option (gmap PackageId string)) : string :=
  let safe_name := replace_char "/" "+" (id_name id) in
  match hashes ← entry_hashes; hashes !! id with
  | Some hash => path_push virtual_store_dir (safe_name +:+ "@" +:+ id_version id +:+ "-" +:+ hash)
  | None => virtual_id_dir virtual_store_dir id
  end.

Definition virtual_package_location (virtual_store_dir : string) (id : PackageId) : string :=
  path_push (path_push (virtual_id_dir virtual_store_dir id) "node_modules") (id_name id).

Definition hashed_virtual_package_location (virtual_store_dir : string) (id : PackageId)
    (entry_hashes : option (gmap PackageId string)) : string :=
  path_push (path_push (hashed_virtual_id_dir virtual_store_dir id entry_hashes) "node_modules") (id_name id).

Definition with_file_name (path name : string) : string :=
  path_push (match Paths.file_name path with Some _ => path_pop path | None => path end) name.

(** The process id is an argument. *)
Definition staging_location_for (process_id : N) (package_location : string) : string :=
  let file_name := default "package" (Paths.file_name package_location) in
  with_file_name package_location ("." +:+ file_name +:+ ".linking." +:+ show_N process_id).

(** [store/metadata.rs] *)
Definition PACKAGE_METADATA_FILE : string := ".snpm-package-metadata.json".

Definition virtual_package_ready (fs : FileSystem) (package_location : string) : bool :=
  if is_file fs (path_push package_location PACKAGE_METADATA_FILE) then true else
  match fs_lstat fs package_location with
  | Ok metadata =>
      bool_decide (st_type metadata = TDir) &&
      match fs_entries fs package_location with Ok (_ :: _) => true | _ => false end
  | Err _ => false
  end.

(** ** The hash of an entry *)
Section hash.
Context `{DigestCrates}.

(** [hasher.update([0])] after the piece. *)
Definition update_nul (h : hasher) (piece : string) : hasher :=
  hasher_update (hasher_update h piece) (chr "000").

Definition hash_package_id (h : hasher) (id : PackageId) : hasher :=
  update_nul (update_nul h (id_name id)) (id_version id).

Definition short_hash (bytes : string) : string := stake 16 (hex_encode bytes).

(** One dependency, or one peer, of the entry that is being hashed; [recurse]
    is the call on its id. *)
Definition hash_edge (recurse : HashState -> PackageId -> option (string * HashState)) (peer : bool)
    (acc : hasher * HashState) (e : string * PackageId) : option (hasher * HashState) :=
  let '(h, st) := acc in
  let h := if peer then hasher_update h ("peer" +:+ chr "000") else h in
  let h := hash_package_id (update_nul h e.1) e.2 in
  '(dep_hash, st) ← recurse st e.2;
  Some (update_nul h dep_hash, st).

Fixpoint option_fold {A B} (f : A -> B -> option A) (a : A) (l : list B) : option A :=
  match l with
  | [] => Some a
  | b :: l => a' ← f a b; option_fold f a' l
  end.

Definition hash_package (recurse : HashState -> PackageId -> option (string * HashState))
    (resolved_peers : gmap PackageId (gmap string PackageId)) (id : PackageId) (package : ResolvedPackage)
    (h : hasher) (st : HashState) : option (hasher * HashState) :=
  let h := update_nul h (r_tarball package) in
  let h := match r_integrity package with Some integrity => hasher_update h integrity | None => h end in
  let h := hasher_update h (chr "000") in
  acc ← option_fold (hash_edge recurse false) (h, st) (btree_iter (r_dependencies package));
  match resolved_peers !! id with
  | Some peers => option_fold (hash_edge recurse true) acc (btree_iter peers)
  | None => Some acc
  end.

Definition hash_start (id : PackageId) : hasher :=
  hash_package_id (hasher_update (hasher_new Sha256) "snpm-global-virtual-store-v2") id.

Fixpoint compute_global_virtual_store_entry_hash (fuel : nat) (graph : ResolutionGraph)
    (resolved_peers : gmap PackageId (gmap string PackageId)) (st : HashState) (id : PackageId)
  : option (string * HashState) :=
  match fuel with
  | O => None
  | S fuel =>
      match st.1 !! id with
      | Some hash => Some (hash, st)
      | None =>
          if decide (id ∈ st.2)
          then Some (short_hash (hasher_finalize (hasher_update (hash_start id) "cycle")), st)
          else
            '(h, (hashes, visiting)) ←
              match g_packages graph !! id with
              | Some package =>
                  hash_package (compute_global_virtual_store_entry_hash fuel graph resolved_peers)
                    resolved_peers id package (hash_start id) (st.1, {[id]} ∪ st.2)
              | None => Some (hash_start id, (st.1, {[id]} ∪ st.2))
              end;
            let hash := short_hash (hasher_finalize h) in
            Some (hash, (<[id := hash]> hashes, visiting ∖ {[id]}))
      end
  end.

(** Every call but the innermost marks a package of the graph as being visited,
    so the depth is bounded by their number. *)
Definition hash_fuel (graph : ResolutionGraph) : nat := S (size (g_packages graph)).

Definition entry_hash_state `{SemverCrate} (graph : ResolutionGraph) : option HashState :=
  option_fold (fun st id =>
    '(_, st) ← compute_global_virtual_store_entry_hash (hash_fuel graph) graph (resolve_unique_peers graph) st id;
    Some st) (∅, ∅) (btree_keys (g_packages graph)).

Definition global_virtual_store_entry_hashes `{SemverCrate} (graph : ResolutionGraph)
  : gmap PackageId string := from_option fst ∅ (entry_hash_state graph).

Definition shared_paths `{SemverCrate} (shared_virtual_store_dir : string) (graph : ResolutionGraph)
    (shared : gset PackageId) : gmap PackageId string :=
  let entry_hashes := global_virtual_store_entry_hashes graph in
  collect ((fun id => (id, hashed_virtual_package_location shared_virtual_store_dir id (Some entry_hashes)))
           <$> bset_iter shared).

(** ** What an entry is wired to, and the file that remembers it *)
Definition wired_map (package : ResolvedPackage) (peers : option (gmap string PackageId))
  : gmap string PackageId :=
  collect (btree_iter (r_dependencies package) ++
           match peers with Some peers => btree_iter peers | None => [] end).

Definition dependency_state_hash (wired : gmap string PackageId)
    (virtual_store_paths : gmap PackageId string) : Result string :=
  h ← try_fold (fun h e =>
        dep_target ← ok_or (GraphMissing (id_name e.2) (id_version e.2)) (virtual_store_paths !! e.2);
        Ok (update_nul (update_nul (update_nul (update_nul h e.1) (id_name e.2)) (id_version e.2)) dep_target))
      (hasher_new Sha256) (btree_iter wired);
  Ok (hex_encode (hasher_finalize h)).
End hash.

Definition VIRTUAL_DEPENDENCY_STATE_FILE : string := ".snpm-dependencies.bin".
Definition VIRTUAL_DEPENDENCY_STATE_VERSION : N := 1.

Record VirtualDependencyState := {
  vd_version : N;
  vd_dependency_hash : string;
  vd_directory_seconds : Z;
  vd_directory_nanoseconds : Z;
}.
Global Instance VirtualDependencyState_eq_dec : EqDecision VirtualDependencyState.
Proof. solve_decision. Defined.

Definition dependency_state_path (package_location package_name : string) : option string :=
  node_modules ← package_node_modules package_location package_name;
  dir ← parent node_modules;
  Some (path_push dir VIRTUAL_DEPENDENCY_STATE_FILE).

(** [duration_since(UNIX_EPOCH)]: an error for a time before the epoch. *)
Definition since_epoch (time : Z) : result string Z :=
  if (time <? 0)%Z then Err "second time provided was later than self" else Ok time.

Definition NANOS : Z := 1000000000.

Section dependency_state.
Context `{Bincode VirtualDependencyState}.

Definition read_dependency_state_lossy (fs : FileSystem) (path : string) : option VirtualDependencyState :=
  bytes ← result_ok (fs_bytes fs path); result_ok (unbincode bytes).

Definition dependency_state_matches (fs : FileSystem) (package_location package_name expected_hash : string)
  : bool :=
  default false
    (dependency_dir ← package_node_modules package_location package_name;
     state_path ← dependency_state_path package_location package_name;
     state ← read_dependency_state_lossy fs state_path;
     if negb (vd_version state =? VIRTUAL_DEPENDENCY_STATE_VERSION)%N
        || negb (vd_dependency_hash state == expected_hash) then Some false
     else
       metadata ← result_ok (fs_stat fs dependency_dir);
       modified ← result_ok (st_modified metadata);
       duration ← result_ok (since_epoch modified);
       Some ((duration / NANOS =? vd_directory_seconds state)%Z &&
             (duration mod NANOS =? vd_directory_nanoseconds state)%Z)).

(** What [write_dependency_state] writes, and where. *)
Definition write_dependency_state (fs : FileSystem) (package_location package_name dependency_hash : string)
  : Result (string * string) :=
  dependency_dir ← ok_or (Internal ("virtual package path missing dependency container: " +:+ package_location))
                     (package_node_modules package_location package_name);
  state_path ← ok_or (Internal ("virtual package path missing state directory: " +:+ package_location))
                 (dependency_state_path package_location package_name);
  metadata ← map_err (ReadFile dependency_dir) (fs_stat fs dependency_dir);
  modified ← map_err (ReadFile dependency_dir) (st_modified metadata);
  duration ← map_err (Io dependency_dir) (since_epoch modified);
  let state := {| vd_version := VIRTUAL_DEPENDENCY_STATE_VERSION; vd_dependency_hash := dependency_hash;
                  vd_directory_seconds := duration / NANOS; vd_directory_nanoseconds := duration mod NANOS |} in
  data ← map_err (SerializeJson state_path) (bincode state);
  Ok (state_path, data).
End dependency_state.

End sharing.

(** ** What is local spreads to everything wired to it *)

(** The ids a package is wired to: its dependencies and its resolved peers. *)
Definition wired_ids (resolved_peers : gmap PackageId (gmap string PackageId)) (id : PackageId)
    (package : ResolvedPackage) : list PackageId :=
  btree_values (r_dependencies package) ++
  match resolved_peers !! id with Some peers => btree_values peers | None => [] end.

Section spread.
Context (resolved_peers : gmap PackageId (gmap string PackageId)).
Implicit Types (packages : list (PackageId * ResolvedPackage)) (local : gset PackageId).

Lemma depends_on_local_spec local id package :
  depends_on_local resolved_peers local id package = true <->
  exists dep_id, dep_id ∈ wired_ids resolved_peers id package /\ dep_id ∈ local.
Proof.
  unfold depends_on_local, wired_ids. rewrite orb_true_iff, existsb_true.
  setoid_rewrite bool_decide_eq_true. setoid_rewrite elem_of_app.
  destruct (resolved_peers !! id) as [peers|]; [rewrite existsb_true; setoid_rewrite bool_decide_eq_true|];
    set_solver.
Qed.

(** A property that goes from a package to everything wired to it. *)
Definition spreads packages (P : PackageId -> Prop) : Prop :=
  forall id package dep_id, (id, package) ∈ packages ->
    dep_id ∈ wired_ids resolved_peers id package -> P dep_id -> P id.

Lemma spreads_cons e packages P : spreads (e :: packages) P <-> spreads [e] P /\ spreads packages P.
Proof.
  unfold spreads. split.
  - intros Hs. split; intros id p d Hin; apply Hs; [apply list_elem_of_singleton in Hin; subst; by left|by right].
  - intros [H1 H2] id p d [Heq|Hin]%elem_of_cons; [apply H1; subst; by left|by apply H2].
Qed.

Lemma spread_step_eq local changed e :
  spread_step resolved_peers (local, changed) e = (local, changed) /\
    spreads [e] (.∈ local) \/
  spread_step resolved_peers (local, changed) e = ({[e.1]} ∪ local, true) /\ e.1 ∉ local /\
    exists dep_id, dep_id ∈ wired_ids resolved_peers e.1 e.2 /\ dep_id ∈ local.
Proof.
  destruct e as [id package]. unfold spread_step. cbn [fst snd]. case_decide as Hid.
  { left. split; [done|]. by intros ? ? ? [= -> ->]%list_elem_of_singleton. }
  pose proof (depends_on_local_spec local id package) as Hd.
  destruct (depends_on_local _ _ _ _); [right|left]; (split; [done|]).
  - split; [done|]. by apply Hd.
  - intros ? ? d [= -> ->]%list_elem_of_singleton Hw Hl. by assert (false = true) by (apply Hd; by exists d).
Qed.

(** One round: it only adds, and only what has to be there; when it adds nothing,
    nothing is missing. *)
Lemma spread_round packages local changed local' changed' :
  foldl (spread_step resolved_peers) (local, changed) packages = (local', changed') ->
  local ⊆ local' /\ (changed = true -> changed' = true) /\
  (forall P, spreads packages P -> (forall id, id ∈ local -> P id) -> forall id, id ∈ local' -> P id) /\
  (changed' = false -> local' = local /\ spreads packages (.∈ local)) /\
  (changed = false -> changed' = true -> exists id, id ∈ packages.*1 /\ id ∈ local' /\ id ∉ local).
Proof.
  revert local changed. induction packages as [|e packages IH]; intros local changed; cbn [foldl].
  { intros [= -> ->]. split_and!; [done|done|auto| |congruence]. intros _. split; [done|].
    by intros ? ? ? []%not_elem_of_nil. }
  destruct (spread_step_eq local changed e) as [[-> He]|(-> & Hne & d & Hw & Hd)];
    intros (Hsub & Hch & Hmin & Hend & Hone)%IH; rewrite fmap_cons.
  - split_and!; [done|done| | |].
    + intros P [_ HP]%spreads_cons. by apply Hmin.
    + intros Hc. destruct (Hend Hc) as [-> ?]. split; [done|]. by apply spreads_cons.
    + intros H1 H2. destruct (Hone H1 H2) as (i & ? & ?). exists i. split; [by right|done].
  - specialize (Hch eq_refl). subst changed'. split_and!; [set_solver|done| |done|].
    + intros P [HPe HP]%spreads_cons Hl. apply Hmin; [done|].
      intros i [->%elem_of_singleton|?]%elem_of_union; [|by apply Hl].
      apply (HPe e.1 e.2 d); [destruct e; by left|done|by apply Hl].
    + intros _ _. exists e.1. set_solver.
Qed.

(** The loop ends within one round more than there are packages, with the least
    set that holds the given one and everything wired to a member. *)
Lemma spread_loop_spec packages fuel local :
  size ((list_to_set packages.*1 : gset PackageId) ∖ local) < fuel ->
  exists local', spread_loop fuel resolved_peers packages local = Some local' /\
    local ⊆ local' /\ spreads packages (.∈ local') /\
    forall P, spreads packages P -> (forall id, id ∈ local -> P id) -> forall id, id ∈ local' -> P id.
Proof.
  revert local. induction fuel as [|fuel IH]; intros local Hf; [lia|]. cbn [spread_loop].
  destruct (foldl _ _ _) as [local1 changed] eqn:Hr.
  apply spread_round in Hr as (Hsub & _ & Hmin & Hend & Hone). destruct changed.
  - destruct (Hone eq_refl eq_refl) as (id & Hin & Hid & Hnot).
    destruct (IH local1) as (local' & -> & Hsub' & Hs & Hmin').
    { apply (Nat.lt_le_trans _ (size ((list_to_set packages.*1 : gset PackageId) ∖ local))); [|lia].
      apply subset_size. set_solver. }
    exists local'. split_and!; [done|set_solver|done|]. intros P HP Hl. apply Hmin'; [done|]. by apply Hmin.
  - destruct (Hend eq_refl) as [-> Hs]. exists local. split_and!; [done|done|done|]. auto.
Qed.
End spread.

Section locality.
Context `{SemverCrate} (tree : FileTree) (config : SnpmConfig) (workspace : option Workspace)
  (projects : list Project) (graph : ResolutionGraph).

(** [a] is wired to [b], directly: [b] is a dependency of [a] or provides a peer. *)
Definition wired (a b : PackageId) : Prop :=
  exists package, g_packages graph !! a = Some package /\
    b ∈ wired_ids (resolve_unique_peers graph) a package.

Lemma elem_of_initially_local id :
  id ∈ initially_local tree config workspace projects graph <->
  exists package, g_packages graph !! id = Some package /\
    package_is_project_local tree config workspace (patched_package_ids projects)
      (resolve_unique_peers graph) id package = true.
Proof.
  unfold initially_local. rewrite elem_of_list_to_set, list_elem_of_fmap. split.
  - intros ([i p] & -> & [Hl Hin%elem_of_btree_iter]%list_elem_of_filter). by exists p.
  - intros (p & Hp & Hl). exists (id, p). split; [done|]. apply list_elem_of_filter.
    split; [done|]. by apply elem_of_btree_iter.
Qed.

Lemma local_ids_spec :
  forall id, id ∈ local_global_virtual_store_package_ids tree config workspace projects graph <->
    exists source, source ∈ initially_local tree config workspace projects graph /\ rtc wired id source.
Proof.
  unfold local_global_virtual_store_package_ids.
  destruct (spread_loop_spec (resolve_unique_peers graph) (btree_iter (g_packages graph))
    (S (size (g_packages graph))) (initially_local tree config workspace projects graph)) as (local & -> & Hsub & Hs & Hmin).
  { apply Nat.lt_succ_r. rewrite <-length_btree_iter, <-(length_fmap fst).
    rewrite <-(size_list_to_set (C := gset PackageId)) by apply NoDup_btree_keys.
    apply subseteq_size. set_solver. }
  intros id. cbn. split.
  - apply (Hmin (fun id => exists source, source ∈ initially_local tree config workspace projects graph /\
      rtc wired id source)); [|intros i Hi; by exists i].
    intros i p d Hin%elem_of_btree_iter Hw (s & ? & ?). exists s. split; [done|].
    eapply rtc_l; [|done]. by exists p.
  - intros (s & Hin%Hsub & Hr). induction Hr as [|i d s (p & Hp & Hw) _ IH]; [done|].
    eapply (Hs i p d); [by apply elem_of_btree_iter|done|by apply IH].
Qed.
End locality.

(** ** The hash of an entry stands for what the entry is wired to *)
Section entry_hash.
Context `{SemverCrate} `{DigestCrates} (graph : ResolutionGraph).

Notation resolved := (resolve_unique_peers graph).
Notation edge := (wired graph).

(** The same hash with the hashes of the others given: what [hash_edge] feeds to
    the hasher for one dependency or peer, and for all of them. *)
Definition edge_bytes (f : PackageId -> string) (peer : bool) (h : hasher) (e : string * PackageId) : hasher :=
  let h := if peer then hasher_update h ("peer" +:+ chr "000") else h in
  update_nul (hash_package_id (update_nul h e.1) e.2) (f e.2).

Definition entry_bytes (f : PackageId -> string) (id : PackageId) : hasher :=
  match g_packages graph !! id with
  | None => hash_start id
  | Some package =>
      let h := update_nul (hash_start id) (r_tarball package) in
      let h := match r_integrity package with Some integrity => hasher_update h integrity | None => h end in
      foldl (edge_bytes f true)
        (foldl (edge_bytes f false) (hasher_update h (chr "000")) (btree_iter (r_dependencies package)))
        (from_option btree_iter [] (resolved !! id))
  end.

Definition entry_hash (f : PackageId -> string) (id : PackageId) : string :=
  short_hash (hasher_finalize (entry_bytes f id)).

Definition hash_of (hashes : gmap PackageId string) (id : PackageId) : string := default ε (hashes !! id).

Lemma entry_hash_ext f g id : (forall d, edge id d -> f d = g d) -> entry_hash f id = entry_hash g id.
Proof.
  intros Hfg. unfold entry_hash, entry_bytes. destruct (g_packages graph !! id) as [package|] eqn:Hp; [|done].
  assert (Hext : forall peer l h, (forall e, e ∈ l -> f e.2 = g e.2) ->
    foldl (edge_bytes f peer) h l = foldl (edge_bytes g peer) h l).
  { induction l as [|e l IH]; intros h Hl; [done|]. cbn [foldl]. rewrite IH by (intros; apply Hl; by right).
    unfold edge_bytes at 2 4. by rewrite (Hl e) by by left. }
  assert (Hw : forall d, d ∈ wired_ids resolved id package -> f d = g d).
  { intros d Hd. apply Hfg. by exists package. }
  unfold wired_ids in Hw. rewrite Hext, Hext; [done| |].
  - intros e He. apply Hw, elem_of_app. left. by apply list_elem_of_fmap_2.
  - intros e He. apply Hw, elem_of_app. right. destruct (resolved !! id); [|by apply not_elem_of_nil in He].
    by apply list_elem_of_fmap_2.
Qed.

(** A table of hashes that is closed and in which every hash is the right one. *)
Definition good (hashes : gmap PackageId string) : Prop :=
  forall id hash, hashes !! id = Some hash ->
    (forall d, edge id d -> is_Some (hashes !! d)) /\ hash = entry_hash (hash_of hashes) id.

Lemma good_insert hashes id :
  good hashes -> (forall d, edge id d -> is_Some (hashes !! d)) ->
  good (<[id := entry_hash (hash_of hashes) id]> hashes).
Proof.
  intros Hg Hid. destruct (hashes !! id) as [hash|] eqn:Hh.
  { destruct (Hg _ _ Hh) as [_ <-]. by rewrite insert_id. }
  intros id' hash' Hl.
  assert (Hch : forall d, edge id' d -> is_Some (hashes !! d)).
  { apply lookup_insert_Some in Hl as [[<- _]|[_ Hl]]; [done|]. apply (Hg _ _ Hl). }
  split.
  - intros d Hd. apply lookup_insert_is_Some'. right. by apply Hch.
  - assert (hash' = entry_hash (hash_of hashes) id') as ->.
    { apply lookup_insert_Some in Hl as [[<- <-]|[_ Hl]]; [done|]. apply (Hg _ _ Hl). }
    apply entry_hash_ext. intros d Hd. unfold hash_of. rewrite lookup_insert_ne; [done|].
    intros ->. apply Hch in Hd. rewrite Hh in Hd. by destruct Hd.
Qed.

Definition extends (st st' : HashState) : Prop := st.1 ⊆ st'.1 /\ st.2 = st'.2.

Lemma extends_trans st1 st2 st3 : extends st1 st2 -> extends st2 st3 -> extends st1 st3.
Proof. intros [? ?] [? ?]. split; [by etrans|congruence]. Qed.

Lemma hash_edge_step recurse peer h st e hash st' :
  recurse st e.2 = Some (hash, st') ->
  hash_edge recurse peer (h, st) e = Some (edge_bytes (fun _ => hash) peer h e, st').
Proof. intros Hcall. unfold hash_edge. by rewrite Hcall. Qed.

(** The loop over the dependencies, or the peers; [A] is what the calls assume. *)
Lemma hash_edges (A : Prop) recurse peer l h st :
  (forall e st0, e ∈ l -> st0.2 = st.2 -> (A -> good st0.1) ->
     exists hash st', recurse st0 e.2 = Some (hash, st') /\
     extends st0 st' /\ (A -> good st'.1 /\ st'.1 !! e.2 = Some hash)) ->
  (A -> good st.1) ->
  exists h' st', option_fold (hash_edge recurse peer) (h, st) l = Some (h', st') /\ extends st st' /\
    (A -> good st'.1 /\ (forall e, e ∈ l -> is_Some (st'.1 !! e.2)) /\
          h' = foldl (edge_bytes (hash_of st'.1) peer) h l).
Proof.
  revert h st. induction l as [|e l IH]; intros h st Hrec Hg.
  { exists h, st. split_and!; [done..|]. intros HA. split_and!; [by apply Hg| |done].
    by intros e []%not_elem_of_nil. }
  destruct (Hrec e st) as (hash & st1 & Hcall & Hext & Hst1); [by left|done|done|].
  cbn [option_fold foldl]. rewrite (hash_edge_step _ _ _ _ _ _ _ Hcall). cbn [mbind option_bind].
  set (h1 := edge_bytes (fun _ => hash) peer h e). destruct (IH h1 st1) as (h' & st' & Heq & Hext' & Hst').
  - intros e' st0 He' Hv. apply Hrec; [by right|]. rewrite Hv. symmetry. apply Hext.
  - intros HA. by apply Hst1.
  - exists h', st'. split_and!; [exact Heq|by eapply extends_trans|]. intros HA.
    destruct (Hst1 HA) as [_ Hl1], (Hst' HA) as (Hg' & Hl' & ->).
    assert (Hl : st'.1 !! e.2 = Some hash) by (eapply lookup_weaken; [exact Hl1|apply Hext']).
    split_and!; [done| |].
    + intros e' [->|He']%elem_of_cons; [by eexists|by apply Hl'].
    + f_equal. unfold h1, edge_bytes, hash_of. by rewrite Hl.
Qed.

Lemma hash_package_spec (A : Prop) recurse id package h st :
  g_packages graph !! id = Some package ->
  (forall d st0, edge id d -> st0.2 = st.2 -> (A -> good st0.1) ->
     exists hash st', recurse st0 d = Some (hash, st') /\
     extends st0 st' /\ (A -> good st'.1 /\ st'.1 !! d = Some hash)) ->
  (A -> good st.1) -> h = hash_start id ->
  exists h' st', hash_package recurse resolved id package h st = Some (h', st') /\ extends st st' /\
    (A -> good st'.1 /\ (forall d, edge id d -> is_Some (st'.1 !! d)) /\ h' = entry_bytes (hash_of st'.1) id).
Proof.
  intros Hp Hrec Hg ->. unfold hash_package, entry_bytes. rewrite Hp.
  set (h0 := hasher_update _ (chr "000")).
  assert (Hedge : forall d, edge id d <-> d ∈ wired_ids resolved id package).
  { intros d. unfold wired. rewrite Hp. naive_solver. }
  unfold wired_ids in Hedge.
  destruct (hash_edges A recurse false (btree_iter (r_dependencies package)) h0 st) as (h1 & st1 & -> & Hext1 & H1).
  { intros e st0 He. apply Hrec, Hedge, elem_of_app. left. by apply list_elem_of_fmap_2. }
  { done. }
  cbn [mbind option_bind].
  destruct (hash_edges A recurse true (from_option btree_iter [] (resolved !! id)) h1 st1)
    as (h2 & st2 & H2eq & Hext2 & H2).
  { intros e st0 He Hv. apply Hrec; [|rewrite Hv; symmetry; apply Hext1]. apply Hedge, elem_of_app. right.
    destruct (resolved !! id); [|by apply not_elem_of_nil in He]. by apply list_elem_of_fmap_2. }
  { intros HA. by apply H1. }
  exists h2, st2. split_and!; [by destruct (resolved !! id)|by eapply extends_trans|].
  intros HA. destruct (H1 HA) as (_ & Hl1 & ->), (H2 HA) as (Hg2 & Hl2 & ->).
  assert (Hsub : forall d, is_Some (st1.1 !! d) -> hash_of st1.1 d = hash_of st2.1 d).
  { intros d [v Hv]. unfold hash_of. rewrite Hv. by rewrite (lookup_weaken _ _ _ _ Hv (proj1 Hext2)). }
  split_and!; [done| |].
  - intros d [Hd|Hd]%Hedge%elem_of_app.
    + apply list_elem_of_fmap in Hd as (e & -> & He). destruct (Hl1 e He) as [v Hv].
      exists v. by eapply lookup_weaken; [exact Hv|apply Hext2].
    + destruct (resolved !! id); [|by apply not_elem_of_nil in Hd].
      apply list_elem_of_fmap in Hd as (e & -> & He). by apply Hl2.
  - f_equal. unfold h0. generalize (hasher_update
      match r_integrity package with Some integrity => hasher_update (update_nul (hash_start id) (r_tarball package)) integrity
      | None => update_nul (hash_start id) (r_tarball package) end (chr "000")).
    revert Hl1. generalize (btree_iter (r_dependencies package)).
    induction l as [|e l IH]; intros Hl1 h; [done|]. cbn [foldl].
    rewrite IH by (intros; apply Hl1; by right). unfold edge_bytes at 2 4.
    by rewrite (Hsub e.2) by (apply Hl1; by left).
Qed.

Definition acyclic : Prop := forall id, ~ tc edge id id.

(** A call returns, marks nothing, and keeps what is in the table; in an acyclic
    graph it adds the right hashes only. *)
Lemma compute_spec fuel st id :
  size (dom (g_packages graph) ∖ st.2) < fuel ->
  (acyclic -> good st.1 /\ forall v, v ∈ st.2 -> tc edge v id) ->
  exists hash st', compute_global_virtual_store_entry_hash fuel graph resolved st id = Some (hash, st') /\
    extends st st' /\ (id ∉ st.2 -> st'.1 !! id = Some hash) /\ (acyclic -> good st'.1).
Proof.
  revert st id. induction fuel as [|fuel IH]; intros st id Hf Hst; [lia|].
  cbn [compute_global_virtual_store_entry_hash].
  destruct (st.1 !! id) as [hash|] eqn:Hmemo.
  { exists hash, st. split_and!; [done|done|by intros _|]. intros HA. by apply Hst. }
  case_decide as Hv.
  { eexists _, st. split_and!; [done|done|done|]. intros HA. by apply Hst. }
  set (st1 := (st.1, {[id]} ∪ st.2)).
  assert (Hend : forall h' (st' : HashState), extends st1 st' ->
    (acyclic -> good st'.1 /\ (forall d, edge id d -> is_Some (st'.1 !! d)) /\ h' = entry_bytes (hash_of st'.1) id) ->
    let hash := short_hash (hasher_finalize h') in
    extends st (<[id := hash]> st'.1, st'.2 ∖ {[id]}) /\ (acyclic -> good (<[id := hash]> st'.1))).
  { intros h' st' [Hsub Heq] HA. cbn [fst snd st1] in *. split.
    - split; cbn; [|rewrite <-Heq; set_solver]. etrans; [|exact (insert_mono _ _ _ _ Hsub)].
      by apply insert_subseteq.
    - intros (Hg & Hd & ->)%HA. by apply good_insert. }
  destruct (g_packages graph !! id) as [package|] eqn:Hp.
  - assert (Hid : id ∈ dom (g_packages graph)) by (apply elem_of_dom; eauto).
    destruct (hash_package_spec acyclic (compute_global_virtual_store_entry_hash fuel graph resolved)
      id package (hash_start id) st1 Hp) as (h' & [hashes visiting] & -> & Hext & HA); [| |done|].
    + intros d st0 Hd Hv0 Hg. destruct (IH st0 d) as (hash & st' & ? & ? & Hin & Hg').
      * rewrite Hv0. cbn. assert (size (dom (g_packages graph) ∖ ({[id]} ∪ st.2)) <
          size (dom (g_packages graph) ∖ st.2)); [|lia]. apply subset_size. set_solver.
      * intros HAc. split; [by apply Hg|]. rewrite Hv0. cbn. intros v [->%elem_of_singleton|Hvv]%elem_of_union.
        -- by apply tc_once.
        -- eapply tc_r; [|exact Hd]. by apply Hst.
      * exists hash, st'. split_and!; [done|done|]. intros HAc. split; [by apply Hg'|]. apply Hin.
        rewrite Hv0. cbn. intros [->%elem_of_singleton|Hvv]%elem_of_union.
        -- by apply (HAc id), tc_once.
        -- apply (HAc d). eapply tc_r; [|exact Hd]. by apply Hst.
    + intros HAc. by apply Hst.
    + destruct (Hend h' (hashes, visiting) Hext HA) as [Hext' Hg']. cbn. eexists _, _.
      split_and!; [reflexivity|exact Hext'|intros _; apply lookup_insert_eq|exact Hg'].
  - destruct (Hend (hash_start id) st1) as [Hext' Hg'].
    + done.
    + intros HAc. split_and!; [by apply Hst| |unfold entry_bytes; by rewrite Hp].
      intros d (p & Hp' & _). congruence.
    + cbn. eexists _, _. split_and!; [reflexivity|exact Hext'|intros _; apply lookup_insert_eq|exact Hg'].
Qed.

Lemma entry_hash_state_spec :
  exists hashes, entry_hash_state graph = Some (hashes, ∅) /\
    (forall id, is_Some (g_packages graph !! id) -> is_Some (hashes !! id)) /\ (acyclic -> good hashes).
Proof.
  unfold entry_hash_state.
  assert (Hgen : forall l hashes, (acyclic -> good hashes) ->
    exists hashes', option_fold (fun st id =>
      '(_, st) ← compute_global_virtual_store_entry_hash (hash_fuel graph) graph resolved st id; Some st)
      (hashes, ∅) l = Some (hashes', ∅) /\ hashes ⊆ hashes' /\
      (forall id, id ∈ l -> is_Some (hashes' !! id)) /\ (acyclic -> good hashes')).
  { induction l as [|id l IH]; intros hashes Hg.
    { exists hashes. split_and!; [done|done| |done]. by intros id []%not_elem_of_nil. }
    destruct (compute_spec (hash_fuel graph) (hashes, ∅) id) as (hash & [hashes1 visiting] & Heq & [Hsub Hv] & Hin & Hg1).
    { unfold hash_fuel. rewrite <-size_dom. apply Nat.lt_succ_r, subseteq_size. set_solver. }
    { intros HA. split; [by apply Hg|]. cbn. set_solver. }
    cbn [option_fold]. rewrite Heq. cbn in Hsub, Hv, Hin, Hg1 |- *. subst visiting.
    destruct (IH hashes1 Hg1) as (hashes' & Heq' & Hsub' & Hl & Hg'). exists hashes'.
    split_and!; [exact Heq'|by etrans| |done]. intros i [->|Hi]%elem_of_cons; [|by apply Hl].
    exists hash. eapply lookup_weaken; [|done]. apply Hin. set_solver. }
  destruct (Hgen (btree_keys (g_packages graph)) ∅) as (hashes & Heq & _ & Hl & Hg).
  { intros _ id hash Hh. by rewrite lookup_empty in Hh. }
  exists hashes. split_and!; [exact Heq| |done]. intros id Hid. by apply Hl, elem_of_btree_keys.
Qed.

Lemma entry_hashes_good : acyclic -> good (global_virtual_store_entry_hashes graph).
Proof.
  unfold global_virtual_store_entry_hashes. destruct entry_hash_state_spec as (hashes & -> & _ & Hg). exact Hg.
Qed.

Lemma entry_hashes_total id :
  is_Some (g_packages graph !! id) -> is_Some (global_virtual_store_entry_hashes graph !! id).
Proof.
  unfold global_virtual_store_entry_hashes. destruct entry_hash_state_spec as (hashes & -> & Hl & _). apply Hl.
Qed.
End entry_hash.

(** ** What the sharing relies on *)
Section sharing_correct.
Context `{SemverCrate} `{DigestCrates}.

(** C13: The hashes that name the entries of the shared store: the recursion
    always ends, with a hash for every package; and in a graph without cycles the
    hash of an entry is a Merkle hash, that is the digest of its own contents and
    of the names, ids and hashes of everything it is wired to, however the
    traversal with its table and its set of visited ids came to it. *)
Theorem entry_hashes_merkle graph :
  is_Some (entry_hash_state graph) /\
  (forall id, is_Some (g_packages graph !! id) -> is_Some (global_virtual_store_entry_hashes graph !! id)) /\
  (acyclic graph -> forall id, is_Some (global_virtual_store_entry_hashes graph !! id) ->
     (forall d, wired graph id d -> is_Some (global_virtual_store_entry_hashes graph !! d)) /\
     global_virtual_store_entry_hashes graph !! id =
       Some (entry_hash graph (hash_of (global_virtual_store_entry_hashes graph)) id)).
Proof.
  split_and!.
  - destruct (entry_hash_state_spec graph) as (hashes & -> & _). by eexists.
  - apply entry_hashes_total.
  - intros HA id [hash Hid]. destruct (entry_hashes_good graph HA id hash Hid) as [? ->]. done.
Qed.

(** Two graphs that agree on a package and on everything below it. *)
Definition agree_below (graph1 graph2 : ResolutionGraph) (id : PackageId) : Prop :=
  forall d, rtc (wired graph1) id d ->
    g_packages graph1 !! d = g_packages graph2 !! d /\
    resolve_unique_peers graph1 !! d = resolve_unique_peers graph2 !! d.

Lemma agree_below_step graph1 graph2 id d :
  agree_below graph1 graph2 id -> wired graph1 id d -> agree_below graph1 graph2 d.
Proof. intros Ha Hw d' Hd'. apply Ha. by eapply rtc_l. Qed.

Lemma agree_wired graph1 graph2 id d :
  agree_below graph1 graph2 id -> wired graph1 id d <-> wired graph2 id d.
Proof.
  intros Ha. destruct (Ha id) as [Hp Hr]; [done|]. unfold wired, wired_ids. by rewrite Hp, Hr.
Qed.

Lemma wired_sn graph id : acyclic graph -> sn (wired graph) id.
Proof.
  intros HA. apply tc_finite_sn; [exact HA|].
  exists (mjoin ((fun e => wired_ids (resolve_unique_peers graph) e.1 e.2) <$> btree_iter (g_packages graph))).
  intros d Hd. assert (exists x, wired graph x d) as (x & p & Hp & Hw) by (induction Hd; eauto).
  apply list_elem_of_join. eexists. split; [exact Hw|]. apply list_elem_of_fmap. exists (x, p).
  split; [done|]. by apply elem_of_btree_iter.
Qed.

Lemma entry_hash_agree graph1 graph2 f id :
  agree_below graph1 graph2 id -> entry_hash graph1 f id = entry_hash graph2 f id.
Proof.
  intros Ha. destruct (Ha id) as [Hp Hr]; [done|]. unfold entry_hash, entry_bytes. by rewrite Hp, Hr.
Qed.

(** The name of a shared entry depends on nothing but the entry and what is
    below it: two projects, whatever else they install, use the same entry for a
    package as soon as they agree on the package, its resolved peers and
    everything these are wired to. *)
Theorem shared_entry_is_reused graph1 graph2 id :
  acyclic graph1 -> acyclic graph2 -> is_Some (g_packages graph1 !! id) -> agree_below graph1 graph2 id ->
  global_virtual_store_entry_hashes graph1 !! id = global_virtual_store_entry_hashes graph2 !! id.
Proof.
  intros HA1 HA2 Hp Ha. assert (Hp2 : is_Some (g_packages graph2 !! id)).
  { by rewrite <-(proj1 (Ha id (rtc_refl _ _))). }
  apply entry_hashes_total in Hp, Hp2. revert Hp Hp2 Ha.
  pose proof (entry_hashes_good graph1 HA1) as Hg1. pose proof (entry_hashes_good graph2 HA2) as Hg2.
  induction (wired_sn graph1 id HA1) as [id _ IH]. intros [h1 H1] [h2 H2] Ha.
  destruct (Hg1 _ _ H1) as [Hd1 ->], (Hg2 _ _ H2) as [Hd2 ->]. rewrite H1, H2. f_equal.
  rewrite (entry_hash_agree graph1 graph2) by done. apply entry_hash_ext. intros d Hd.
  pose proof (proj2 (agree_wired _ _ _ d Ha) Hd) as Hd'. unfold hash_of. rewrite (IH d); [done|done|by apply Hd1|by apply Hd2|].
  by eapply agree_below_step.
Qed.

(** Which packages are materialized in the project: those that cannot be
    shared themselves (excluded by name, patched, allowed to run scripts, made
    from a local directory, or with a required peer nothing provides) and exactly
    those that are wired to one of them, over any number of packages. *)
Theorem local_packages_spec tree config workspace projects graph id :
  id ∈ local_global_virtual_store_package_ids tree config workspace projects graph <->
  exists source package, rtc (wired graph) id source /\ g_packages graph !! source = Some package /\
    package_is_project_local tree config workspace (patched_package_ids projects)
      (resolve_unique_peers graph) source package = true.
Proof.
  rewrite local_ids_spec. setoid_rewrite elem_of_initially_local. naive_solver.
Qed.

Lemma elem_of_shared_package_ids graph local id :
  id ∈ shared_package_ids graph local <-> is_Some (g_packages graph !! id) /\ id ∉ local.
Proof.
  unfold shared_package_ids. rewrite elem_of_list_to_set, list_elem_of_filter, elem_of_btree_keys. tauto.
Qed.
End sharing_correct.

Section self_contained.
Context `{SemverLaws} `{DigestCrates}.

Lemma resolved_peer_installed graph id peers name peer_id :
  graph_closed graph -> resolve_unique_peers graph !! id = Some peers -> peers !! name = Some peer_id ->
  is_Some (g_packages graph !! peer_id).
Proof.
  intros [_ Hroot] Hpeers Hpeer. rewrite resolve_unique_peers_lookup in Hpeers.
  destruct (g_packages graph !! id) as [package|]; [|done]. cbn in Hpeers. case_decide; [done|].
  pose proof (package_peers_spec graph package) as Hspec. rewrite Hpeers in Hspec. specialize (Hspec name).
  repeat case_match; try congruence. destruct Hspec as (i & Hi & range & _ & Hb). simplify_eq.
  destruct Hb as [(_ & _ & Hd)|(_ & _ & _ & ? & _)]; [|done].
  destruct (g_root graph !! name) as [d|] eqn:Hg; cbn in Hd; [|done]. injection Hd as <-. by eapply Hroot.
Qed.

Lemma wired_installed graph id d : graph_closed graph -> wired graph id d -> is_Some (g_packages graph !! d).
Proof.
  intros Hc (package & Hp & [Hd|Hd]%elem_of_app).
  - apply elem_of_btree_values in Hd as [name Hd]. by eapply (proj1 Hc).
  - destruct (resolve_unique_peers graph !! id) as [peers|] eqn:Hpeers; [|by apply not_elem_of_nil in Hd].
    apply elem_of_btree_values in Hd as [name Hd]. by eapply resolved_peer_installed.
Qed.

Lemma wired_map_ids resolved_peers id package name d :
  wired_map package (resolved_peers !! id) !! name = Some d -> d ∈ wired_ids resolved_peers id package.
Proof.
  intros Hl%collect_lookup_Some. unfold wired_ids. apply elem_of_app in Hl as [Hl|Hl]; apply elem_of_app; [left|right].
  - by apply (list_elem_of_fmap_2 snd) in Hl.
  - destruct (resolved_peers !! id); [|by apply not_elem_of_nil in Hl]. by apply (list_elem_of_fmap_2 snd) in Hl.
Qed.

Lemma dependency_state_hash_ok wired paths :
  (forall name d, wired !! name = Some d -> is_Some (paths !! d)) ->
  exists hash, dependency_state_hash wired paths = Ok hash.
Proof.
  intros Hall. unfold dependency_state_hash.
  assert (Hl : forall e, e ∈ btree_iter wired -> is_Some (paths !! e.2)).
  { intros [n d] He%elem_of_btree_iter. by eapply Hall. }
  revert Hl. generalize (hasher_new Sha256). induction (btree_iter wired) as [|e l IH]; intros h Hl; cbn [try_fold].
  - by eexists.
  - destruct (Hl e) as [path Hpath]; [by left|]. rewrite Hpath. cbn [ok_or mbind result_bind].
    apply IH. intros e' He'. apply Hl. by right.
Qed.

Lemma shared_paths_lookup dir graph shared id :
  shared_paths dir graph shared !! id =
  if decide (id ∈ shared)
  then Some (hashed_virtual_package_location dir id (Some (global_virtual_store_entry_hashes graph))) else None.
Proof.
  unfold shared_paths. set (f := fun id => (id, _)).
  assert (Hnd : NoDup (f <$> bset_iter shared).*1).
  { rewrite <-list_fmap_compose. change (fst ∘ f) with (fun i : PackageId => i).
    rewrite list_fmap_id. apply NoDup_bset_iter. }
  apply option_eq. intros path. rewrite collect_lookup by done. rewrite list_elem_of_fmap.
  destruct (decide (id ∈ shared)) as [Hin|Hnot]; split.
  - by intros (i & [= <- ->] & _).
  - intros [= <-]. exists id. by rewrite elem_of_bset_iter.
  - by intros (i & [= <- ->] & Hi%elem_of_bset_iter).
  - done.
Qed.

Lemma shared_stay_shared tree config workspace projects graph id package :
  let shared := shared_package_ids graph
                  (local_global_virtual_store_package_ids tree config workspace projects graph) in
  graph_closed graph -> id ∈ shared -> g_packages graph !! id = Some package ->
  forall name d, wired_map package (resolve_unique_peers graph !! id) !! name = Some d -> d ∈ shared.
Proof.
  intros shared Hc [_ Hid]%elem_of_shared_package_ids Hp name d Hd%wired_map_ids.
  assert (Hw : wired graph id d) by by exists package.
  apply elem_of_shared_package_ids. split; [by eapply wired_installed|].
  intros (s & Hs & Hr)%local_ids_spec. apply Hid, local_ids_spec. exists s. split; [done|]. by eapply rtc_l.
Qed.

End self_contained.

(** ** Directories do not clash *)
Lemma replace_char_absent c d s : c <> d -> contains_char c (replace_char c d s) = false.
Proof.
  intros Hne. unfold replace_char. induction s as [|a s IH]; [done|]. cbn.
  apply orb_false_iff. split; [|exact IH]. destruct (Ascii.eqb c a) eqn:Ha; [|done]. by apply Ascii.eqb_neq.
Qed.

Lemma location_app dir dir_name name :
  name_ok dir_name = true -> is_absolute name = false ->
  path_push (path_push (path_push dir dir_name) "node_modules") name =
  path_push dir (dir_name +:+ "/" +:+ "node_modules/" +:+ name).
Proof.
  intros Hd Hn. rewrite path_push_push by done. by rewrite path_push_push.
Qed.

Lemma id_dir_name_ok a b :
  contains_char "/" a = false -> contains_char "/" b = false -> name_ok (a +:+ "@" +:+ b) = true.
Proof.
  intros Ha Hb. assert (Hat : contains_char "@" (a +:+ "@" +:+ b) = true).
  { rewrite contains_char_app. change ("@" +:+ b) with (String "@" b). cbn. by rewrite orb_true_r. }
  unfold name_ok. apply andb_true_iff. split.
  - rewrite contains_char_app, Ha. change ("@" +:+ b) with (String "@" b). cbn. by rewrite Hb.
  - apply bool_decide_eq_true. unfold component_of. generalize dependent (a +:+ "@" +:+ b). intros s Hs.
    destruct (is_empty s) eqn:He; [by destruct s|].
    destruct (s == ".") eqn:H1; [apply String.eqb_eq in H1; by subst|].
    destruct (s == "..") eqn:H2; [apply String.eqb_eq in H2; by subst|]. done.
Qed.

Lemma path_push_relative dir r : is_absolute r = false -> exists prefix, path_push dir r = prefix +:+ r /\
  forall r', is_absolute r' = false -> path_push dir r' = prefix +:+ r'.
Proof.
  intros Hr. unfold path_push. rewrite Hr. destruct (is_empty dir || ends_with "/" dir).
  - exists dir. split; [done|]. by intros r' ->.
  - exists (dir +:+ "/"). split; [by rewrite <-app_assoc_s|]. intros r' ->. by rewrite <-app_assoc_s.
Qed.

Lemma location_inj dir name1 tail1 name2 tail2 :
  is_absolute name1 = false -> is_absolute name2 = false ->
  contains_char "/" tail1 = false -> contains_char "/" tail2 = false ->
  path_push (path_push (path_push dir (replace_char "/" "+" name1 +:+ "@" +:+ tail1)) "node_modules") name1 =
  path_push (path_push (path_push dir (replace_char "/" "+" name2 +:+ "@" +:+ tail2)) "node_modules") name2 ->
  name1 = name2 /\ tail1 = tail2.
Proof.
  intros Ha1 Ha2 Ht1 Ht2.
  assert (Hs : forall n, contains_char "/" (replace_char "/" "+" n) = false) by (intros; by apply replace_char_absent).
  pose proof (id_dir_name_ok _ _ (Hs name1) Ht1) as Hok1. pose proof (id_dir_name_ok _ _ (Hs name2) Ht2) as Hok2.
  rewrite !location_app by done. revert Hok1 Hok2.
  set (d1 := replace_char "/" "+" name1 +:+ _). set (d2 := replace_char "/" "+" name2 +:+ _). intros Hok1 Hok2.
  pose proof (name_ok_spec _ Hok1) as (Hc1 & _). pose proof (name_ok_spec _ Hok2) as (Hc2 & _).
  assert (Habs : forall d r, name_ok d = true -> is_absolute (d +:+ "/" +:+ r) = false).
  { intros d r Hd. apply name_not_absolute in Hd as Hn. pose proof (name_ok_spec _ Hd) as (_ & He & _).
    destruct d as [|a d]; [done|]. unfold is_absolute in *. rewrite app_cons_s.
    change "/" with (chr "/") in *. by rewrite starts_with_chr_cons in *. }
  destruct (path_push_relative dir _ (Habs d1 ("node_modules/" +:+ name1) Hok1)) as (prefix & -> & Hp).
  rewrite Hp by by apply Habs. intros Heq%(app_inj_head_s prefix).
  apply (f_equal (split_once "/")) in Heq.
  change ("/" +:+ "node_modules/" +:+ name1) with (String "/" ("node_modules/" +:+ name1)) in Heq.
  change ("/" +:+ "node_modules/" +:+ name2) with (String "/" ("node_modules/" +:+ name2)) in Heq.
  rewrite !split_once_app in Heq by done. injection Heq as Hd Hn.
  apply (app_inj_head_s ε) in Hn. split; [done|]. unfold d1, d2 in Hd. rewrite Hn in Hd.
  apply app_inj_head_s in Hd. by injection Hd.
Qed.

Lemma app_length_inj_s (a b c d : string) :
  a +:+ b = c +:+ d -> String.length b = String.length d -> a = c /\ b = d.
Proof.
  intros Heq Hlen. assert (Hl : String.length a = String.length c).
  { apply (f_equal String.length) in Heq. rewrite !length_app_s in Heq. lia. }
  pose proof (stake_app a b) as H1. pose proof (sdrop_app a b) as H2. rewrite Heq, Hl in H1, H2.
  rewrite stake_app in H1. rewrite sdrop_app in H2. done.
Qed.


(** ** The state file *)

(** What [write_dependency_state] writes is recognised: with that file in
    place and the directory untouched, [dependency_state_matches] accepts the
    hash that was written and no other; so links are made again exactly when the
    hash, or the directory's time of modification, is another one. *)
Theorem dependency_state_roundtrip `{BincodeLaws VirtualDependencyState} (fs fs' : FileSystem)
    package_location package_name hash state_path data hash' :
  write_dependency_state fs package_location package_name hash = Ok (state_path, data) ->
  fs_bytes fs' state_path = Ok data ->
  dependency_state_matches fs' package_location package_name hash' = true <->
  hash' = hash /\ exists dir metadata metadata' time,
    package_node_modules package_location package_name = Some dir /\
    fs_stat fs dir = Ok metadata /\ st_modified metadata = Ok time /\
    fs_stat fs' dir = Ok metadata' /\ st_modified metadata' = Ok time.
Proof.
  unfold write_dependency_state, dependency_state_matches. intros Hw Hdata.
  destruct (package_node_modules _ _) as [dir|] eqn:Hdir; [|done]. cbn in Hw |- *.
  destruct (dependency_state_path _ _) as [path|]; [|done]. cbn in Hw |- *.
  destruct (fs_stat fs dir) as [metadata|] eqn:Hstat; [|done]. cbn in Hw.
  destruct (st_modified metadata) as [time|] eqn:Htime; [|done]. cbn in Hw.
  unfold since_epoch in Hw at 1. destruct (time <? 0)%Z eqn:Hneg; [done|]. cbn in Hw.
  destruct (bincode _) as [data'|] eqn:Hb; [|done]. injection Hw as -> ->.
  unfold read_dependency_state_lossy. rewrite Hdata. cbn. rewrite (unbincode_bincode _ _ Hb). cbn.
  destruct (hash == hash') eqn:Hh; cbn; [apply String.eqb_eq in Hh as ->|apply String.eqb_neq in Hh; split; [done|]; by intros [-> _]].
  destruct (fs_stat fs' dir) as [metadata'|] eqn:Hstat'; cbn;
    [|split; [done|]; intros (_ & d & ? & ? & ? & [= <-] & _ & _ & ? & _); congruence].
  destruct (st_modified metadata') as [time'|] eqn:Htime'; cbn;
    [|split; [done|]; intros (_ & d & ? & ? & ? & [= <-] & _ & _ & ? & ?); congruence].
  assert (Heqv : (if (time' <? 0)%Z then false else
    (time' / NANOS =? time / NANOS)%Z && (time' mod NANOS =? time mod NANOS)%Z) = true <-> time' = time).
  { apply Z.ltb_ge in Hneg. unfold NANOS.
    pose proof (Z.div_mod time 1000000000) as Hd. pose proof (Z.div_mod time' 1000000000) as Hd'.
    destruct (time' <? 0)%Z eqn:Hneg'; [apply Z.ltb_lt in Hneg'; split; [done|lia]|].
    rewrite andb_true_iff, !Z.eqb_eq. split; [intros [H1 H2]; lia|by intros ->]. }
  transitivity (time' = time).
  - rewrite <-Heqv. unfold since_epoch. by destruct (time' <? 0)%Z.
  - split; [intros ->|intros (_ & d & ? & ? & ? & [= <-] & ? & ? & ? & ?); congruence].
    split; [done|]. exists dir, metadata, metadata', time. done.
Qed.


(** A graph whose edges lead to ids of smaller rank has no cycles. *)
Lemma acyclic_by_rank `{SemverCrate} graph (rank : PackageId -> nat) :
  forallb (fun e => forallb (fun d => rank d <? rank e.1)%nat (wired_ids (resolve_unique_peers graph) e.1 e.2))
    (btree_iter (g_packages graph)) = true -> acyclic graph.
Proof.
  intros Hall. rewrite forallb_true in Hall.
  assert (Hstep : forall a b, wired graph a b -> rank b < rank a).
  { intros a b (p & Hp & Hb). apply Nat.ltb_lt. specialize (Hall (a, p)). cbn in Hall.
    rewrite forallb_true in Hall. by apply Hall; [apply elem_of_btree_iter|]. }
  assert (Htc : forall a b, tc (wired graph) a b -> rank b < rank a).
  { induction 1 as [a b Hab|a b c Hab _ IH]; [by apply Hstep|]. apply Hstep in Hab. lia. }
  intros id Hid. apply Htc in Hid. lia.
Qed.

(** A list with everything its members are wired to. *)
Lemma wired_closed `{SemverCrate} graph l x y :
  forallb (fun a => match g_packages graph !! a with
                    | Some p => forallb (fun d => bool_decide (d ∈ l)) (wired_ids (resolve_unique_peers graph) a p)
                    | None => true
                    end) l = true ->
  x ∈ l -> rtc (wired graph) x y -> y ∈ l.
Proof.
  intros Hall Hx Hr. induction Hr as [|x z y (p & Hp & Hz) _ IH]; [done|]. apply IH.
  rewrite forallb_true in Hall. specialize (Hall x Hx). rewrite Hp, forallb_true in Hall.
  specialize (Hall z Hz). by apply bool_decide_eq_true in Hall.
Qed.

(** ** Witnesses *)
Module SharingDemo.
Import LinkerDemo.

(** A checksum for a digest. *)
Definition checksum_step (h : N) (a : ascii) : N := ((h * 257 + N_of_ascii a) mod 9007199254740881)%N.
#[local] Instance checksum : DigestCrates := {|
  base64_encode s := s;
  base64_decode s := Ok s;
  hex_encode s := s;
  hasher := N;
  hasher_new _ := 7%N;
  hasher_update h s := fold_left checksum_step (String.list_ascii_of_string s) h;
  hasher_finalize h := show_N (1000000000000000 + h)%N;
|}.

(** The graph of [LinkerDemo], and one that has less around [widget]. *)
Definition graph2 : ResolutionGraph := {|
  g_root := root [("react", id "react" "18.2.0"); ("app", id "app" "0.1.0")];
  g_packages := list_to_map [pkg "react" "17.0.2" ∅ ∅; pkg "react" "18.2.0" ∅ ∅;
                             pkg "old" "1.0.0" {["react" := id "react" "17.0.2"]} ∅;
                             pkg "app" "0.1.0" {["widget" := id "widget" "1.0.0"]} ∅;
                             pkg "widget" "1.0.0" {["old" := id "old" "1.0.0"]} {["react" := ">=17.0.0"]}] |}.

Definition rank (i : PackageId) : nat :=
  if id_name i == "app" then 3 else if id_name i == "widget" then 2 else if id_name i == "old" then 1 else 0.

Lemma graph_acyclic : acyclic graph.
Proof. apply (acyclic_by_rank graph rank). vm_refl. Qed.
Lemma graph2_acyclic : acyclic graph2.
Proof. apply (acyclic_by_rank graph2 rank). vm_refl. Qed.

Lemma entry_hashes_merkle_witness :
  let hashes := global_virtual_store_entry_hashes graph in
  is_Some (hashes !! id "widget" "1.0.0") /\
  hashes !! id "widget" "1.0.0" = Some (entry_hash graph (hash_of hashes) (id "widget" "1.0.0")).
Proof.
  assert (Hw : is_Some (g_packages graph !! id "widget" "1.0.0")) by (apply (bool_decide_unpack _); vm_compute; exact I).
  destruct (entry_hashes_merkle graph) as (_ & Htotal & Hmerkle). split; [by apply Htotal|].
  apply (Hmerkle graph_acyclic); by apply Htotal.
Defined.

Example hashes_differ :
  let hashes := global_virtual_store_entry_hashes graph in
  hashes !! id "react" "17.0.2" <> hashes !! id "react" "18.2.0".
Proof. vm_compute. discriminate. Qed.

Definition below_widget : list PackageId :=
  [id "widget" "1.0.0"; id "old" "1.0.0"; id "react" "17.0.2"; id "react" "18.2.0"].

Lemma below_widget_closed d : rtc (wired graph) (id "widget" "1.0.0") d -> d ∈ below_widget.
Proof. apply wired_closed; [vm_refl|by left]. Qed.

Lemma shared_entry_is_reused_witness :
  global_virtual_store_entry_hashes graph !! id "widget" "1.0.0" =
  global_virtual_store_entry_hashes graph2 !! id "widget" "1.0.0".
Proof.
  apply (shared_entry_is_reused graph graph2); [exact graph_acyclic|exact graph2_acyclic| |].
  - apply (bool_decide_unpack _). vm_compute. exact I.
  - intros d Hin%below_widget_closed. unfold below_widget in Hin.
    repeat (apply elem_of_cons in Hin as [->|Hin]; [split; vm_refl|]). by apply not_elem_of_nil in Hin.
Defined.


(** A state file for one state. *)
Definition state : VirtualDependencyState :=
  {| vd_version := 1; vd_dependency_hash := "abc"; vd_directory_seconds := 12; vd_directory_nanoseconds := 5 |}.
#[local] Instance one_state : Bincode VirtualDependencyState := {|
  bincode s := if decide (s = state) then Ok "bytes" else Err "unsupported";
  unbincode b := if b == "bytes" then Ok state else Err "unsupported" |}.
#[local] Instance one_state_laws : BincodeLaws VirtualDependencyState.
Proof. split. intros a data. cbn. case_decide as Ha; [|done]. intros [= <-]. by rewrite Ha. Qed.

Definition state_fs : FileSystem := {|
  fs_lstat p := Err "unused";
  fs_stat p := if p == "/s/b@1/node_modules"
               then Ok {| st_type := TDir; st_len := 0; st_modified := Ok 12000000005%Z |} else Err "no such file";
  fs_bytes p := if p == "/s/b@1/.snpm-dependencies.bin" then Ok "bytes" else Err "no such file";
  fs_read_link p := Err "not a link";
  fs_entries p := Err "unused" |}.

Lemma dependency_state_roundtrip_witness :
  dependency_state_matches state_fs "/s/b@1/node_modules/@a/b" "@a/b" "abc" = true.
Proof.
  apply (dependency_state_roundtrip state_fs state_fs "/s/b@1/node_modules/@a/b" "@a/b" "abc"
           "/s/b@1/.snpm-dependencies.bin" "bytes"); [vm_refl|vm_refl|].
  split; [done|]. eexists _, _, _, 12000000005%Z. split_and!; vm_compute; reflexivity.
Defined.

Lemma graph_is_closed : graph_closed graph.
Proof.
  split.
  - intros i p name d Hp Hd.
    assert (Hall : map_Forall (fun _ p => map_Forall (fun _ d => is_Some (g_packages graph !! d))
      (r_dependencies p)) (g_packages graph)) by (apply (bool_decide_unpack _); vm_compute; exact I).
    exact (Hall i p Hp name d Hd).
  - intros name d Hd.
    apply (map_Forall_lookup_1 (fun _ d => is_Some (g_packages graph !! rd_resolved d)) (g_root graph) name d);
      [|exact Hd]. apply (bool_decide_unpack _). vm_compute. exact I.
Qed.

Definition shared_here : gset PackageId :=
  shared_package_ids graph (local_global_virtual_store_package_ids fs config_for_tests None [app] graph).

Definition widget : ResolvedPackage :=
  (pkg "widget" "1.0.0" {["old" := id "old" "1.0.0"]} {["react" := ">=17.0.0"]}).2.


(** [a] and [b] depend on each other; what else [a] depends on differs. *)
Definition cyclic (other : PackageId) : ResolutionGraph := {|
  g_root := root [("a", id "a" "1.0.0")];
  g_packages := list_to_map [pkg "a" "1.0.0" (list_to_map [("b", id "b" "1.0.0"); ("c", other)]) ∅;
                             pkg "b" "1.0.0" {["a" := id "a" "1.0.0"]} ∅;
                             pkg "c" "1.0.0" ∅ ∅; pkg "c" "2.0.0" ∅ ∅] |}.

End SharingDemo.

(** On a cycle the hash is blind: whatever the digest, the entry of [b] has the
    same name in both graphs, though the [a] it is linked to is another entry. *)
Lemma cycles_share_too_much `{DigestCrates} :
  global_virtual_store_entry_hashes (SharingDemo.cyclic (LinkerDemo.id "c" "1.0.0")) !! LinkerDemo.id "b" "1.0.0" =
  global_virtual_store_entry_hashes (SharingDemo.cyclic (LinkerDemo.id "c" "2.0.0")) !! LinkerDemo.id "b" "1.0.0".
Proof. vm_compute. reflexivity. Qed.
