(* ===== verification/Layout.v ===== *)
(** * The layout of an installation ([operations/install/utils/layout_state.rs])

    What an installation is expected to look like, as a hash of text entries, and
    what it looked like when it was finished, as a list of checks that are made
    again later: directories with their times of modification, links with their
    targets, packages that exist. *)
From S2P Require Import Prelude.
From S2P Require Import BTree.
From S2P Require Import Text.
From S2P Require Import Errors.
From S2P Require Import Types.
From S2P Require Import Paths.
From S2P Require Import Crates.
From S2P Require Import Store.
From S2P Require Import Roots.
From S2P Require Import Patches.
From S2P Require Import Scripts.
From S2P Require Import Linker.
From S2P Require Import Sharing.

Definition LAYOUT_STATE_FILE : string := ".snpm-install-state".
Definition LAYOUT_STATE_VERSION : N := 1.

Inductive LayoutCheck :=
| Exists (path : string)
| Mtime (path : string) (seconds nanoseconds : Z)
| SymlinkTarget (link target : string).
Global Instance LayoutCheck_eq_dec : EqDecision LayoutCheck.
Proof. solve_decision. Defined.

Record LayoutState := {
  la_version : N;
  la_layout_hash : string;
  la_checks : list LayoutCheck;
}.

(** [serde_json::from_slice::<LayoutState>] *)
Class LayoutJson := { layout_state_from_slice : string -> option LayoutState }.

Definition install_state_path (root : string) : string := path_push root LAYOUT_STATE_FILE.
Definition state_path (node_modules : string) : string :=
  install_state_path (default node_modules (parent node_modules)).

Definition hoisting_label (mode : HoistingMode) : string :=
  match mode with HoistNone => "none" | SingleVersion => "single-version" | HoistAll => "all" end.

Definition show_id (id : PackageId) : string := id_name id +:+ "@" +:+ id_version id.

(** ** The expected layout *)
Section hash.
Context `{SemverCrate} `{DigestCrates}.

Definition hash_entries (entries : list string) : string :=
  hex_encode (hasher_finalize
    (foldl (fun h entry => hasher_update (hasher_update h entry) (chr "010")) (hasher_new Sha256) entries)).

Definition package_entries (locally_materialized_ids : gset PackageId)
    (resolved_peers : gmap PackageId (gmap string PackageId)) (id : PackageId) : list string :=
  let locality := if bool_decide (id ∈ locally_materialized_ids) then "local" else "shared" in
  ("package:" +:+ locality +:+ ":" +:+ show_id id) ::
  match resolved_peers !! id with
  | Some peers => (fun e => "peer:" +:+ show_id id +:+ ":" +:+ e.1 +:+ "=" +:+ show_id e.2) <$> btree_iter peers
  | None => []
  end.

Definition virtual_store_entries (tree : FileTree) (config : SnpmConfig) (workspace : option Workspace)
    (projects : list Project) (graph : ResolutionGraph) : list string :=
  let locally_materialized_ids :=
    local_global_virtual_store_package_ids tree config workspace projects graph in
  let resolved_peers := resolve_unique_peers graph in
  mjoin (package_entries locally_materialized_ids resolved_peers <$> btree_keys (g_packages graph)).

Definition manifest_link_entry (section : string) (workspace : option Workspace) (graph : ResolutionGraph)
    (name spec : string) : Result (list string) :=
  local ← match workspace with
          | Some workspace => is_local_workspace_dependency workspace name spec
          | None => Ok false
          end;
  match workspace, local with
  | Some workspace, true =>
      source_project ← ok_or (WorkspaceConfig (w_root workspace)
          ("workspace dependency " +:+ name +:+ " not found in workspace projects"))
        (project_by_name workspace name);
      Ok [section +:+ ":workspace:" +:+ name +:+ "=" +:+ p_root source_project]
  | _, _ =>
      Ok (match g_root graph !! name with
          | Some root_dep => [section +:+ ":external:" +:+ name +:+ "=" +:+ show_id (rd_resolved root_dep)]
          | None => []
          end)
  end.

Definition manifest_link_entries (deps : gmap string string) (section : string)
    (workspace : option Workspace) (graph : ResolutionGraph) : Result (list string) :=
  try_fold (fun entries e =>
      new ← manifest_link_entry section workspace graph e.1 e.2; Ok (entries ++ new)) [] (btree_iter deps).

Definition project_link_entries (project : Project) (workspace : option Workspace)
    (graph : ResolutionGraph) (include_dev : bool) : Result (list string) :=
  let manifest := p_manifest project in
  deps ← manifest_link_entries (m_dependencies manifest) "dependencies" workspace graph;
  dev ← (if include_dev
         then manifest_link_entries (m_dev_dependencies manifest) "dev_dependencies" workspace graph
         else Ok []);
  opt ← manifest_link_entries (m_optional_dependencies manifest) "optional_dependencies" workspace graph;
  Ok (deps ++ dev ++ opt).

Definition hoist_entries (graph : ResolutionGraph) (mode : HoistingMode) : list string :=
  (fun e => "hoist:" +:+ e.1 +:+ "=" +:+ show_id e.2) <$> hoisted graph mode.

Definition project_layout_entries (tree : FileTree) (config : SnpmConfig) (project : Project)
    (workspace : option Workspace) (graph : ResolutionGraph) (include_dev : bool) : Result (list string) :=
  let mode := effective_hoisting config workspace in
  links ← project_link_entries project workspace graph include_dev;
  Ok (["kind=project"; "hoisting=" +:+ hoisting_label mode] ++
      virtual_store_entries tree config workspace [project] graph ++ links ++ hoist_entries graph mode).

Definition build_project_layout_hash (tree : FileTree) (config : SnpmConfig) (project : Project)
    (workspace : option Workspace) (graph : ResolutionGraph) (include_dev : bool) : Result string :=
  entries ← project_layout_entries tree config project workspace graph include_dev;
  Ok (hash_entries entries).

Definition workspace_layout_entries (tree : FileTree) (config : SnpmConfig) (workspace : Workspace)
    (graph : ResolutionGraph) (include_dev : bool) : Result (list string) :=
  links ← try_fold (fun entries project =>
      new ← project_link_entries project (Some workspace) graph include_dev;
      Ok (entries ++ ("project=" +:+ p_root project) :: new)) [] (w_projects workspace);
  Ok ("kind=workspace" ::
      virtual_store_entries tree config (Some workspace) (w_projects workspace) graph ++ links).

Definition build_workspace_layout_hash (tree : FileTree) (config : SnpmConfig) (workspace : Workspace)
    (graph : ResolutionGraph) (include_dev : bool) : Result string :=
  entries ← workspace_layout_entries tree config workspace graph include_dev;
  Ok (hash_entries entries).
End hash.

(** ** The layout that is there *)

(** [metadata(path)?.modified()?.duration_since(UNIX_EPOCH)?] *)
Definition modified_since_epoch (fs : FileSystem) (path : string) : Result Z :=
  metadata ← map_err (ReadFile path) (fs_stat fs path);
  modified ← map_err (ReadFile path) (st_modified metadata);
  map_err (Io path) (since_epoch modified).

(** [package_path_ready] *)
Definition package_path_ready (fs : FileSystem) (path : string) : bool :=
  is_dir fs path &&
  (is_file fs (path_push path PACKAGE_METADATA_FILE)
   || match fs_entries fs path with Ok (_ :: _) => true | _ => false end).

(** The checks collected so far, and the links already seen, as paths. *)
Notation Captured := (list LayoutCheck * gset (list (nat * string)))%type.

Definition capture_link_or_exists (fs : FileSystem) (st : Captured) (path : string) : Result Captured :=
  let '(checks, seen_links) := st in
  if decide (path_key path ∈ seen_links) then Ok st else
  let seen_links := {[path_key path]} ∪ seen_links in
  metadata ← map_err (ReadFile path) (fs_lstat fs path);
  if decide (st_type metadata = TSymlink) then
    target ← map_err (ReadFile path) (fs_read_link fs path);
    Ok (checks ++ [SymlinkTarget path target], seen_links)
  else Ok (checks ++ [Exists path], seen_links).

Definition capture_directory_mtime (fs : FileSystem) (checks : list LayoutCheck) (path : string)
  : Result (list LayoutCheck) :=
  duration ← modified_since_epoch fs path;
  Ok (checks ++ [Mtime path (duration / NANOS) (duration mod NANOS)]).

Definition capture_directory_mtime_if_exists (fs : FileSystem) (checks : list LayoutCheck) (path : string)
  : Result (list LayoutCheck) :=
  if is_dir fs path then capture_directory_mtime fs checks path else Ok checks.

Definition capture_scope_mtime (fs : FileSystem) (node_modules : string) (checks : list LayoutCheck)
    (entry : result string (string * result string FileType)) : Result (list LayoutCheck) :=
  entry ← map_err (ReadFile node_modules) entry;
  if starts_with "@" entry.1 then capture_directory_mtime fs checks (path_push node_modules entry.1)
  else Ok checks.

Definition capture_node_modules_checks (fs : FileSystem) (checks : list LayoutCheck) (node_modules : string)
  : Result (list LayoutCheck) :=
  checks ← capture_directory_mtime fs checks node_modules;
  checks ← capture_directory_mtime_if_exists fs checks (path_push node_modules ".bin");
  entries ← map_err (ReadFile node_modules) (fs_entries fs node_modules);
  try_fold (capture_scope_mtime fs node_modules) checks entries.

Definition virtual_package_node_modules (package_location package_name : string) : Result string :=
  ok_or (Internal ("virtual package path missing node_modules parent: " +:+ package_location))
    (package_node_modules package_location package_name).

Definition capture_virtual_package (fs : FileSystem) (virtual_store_dir : string) (checks : list LayoutCheck)
    (e : PackageId * ResolvedPackage) : Result (list LayoutCheck) :=
  let '(id, package) := e in
  let package_location := virtual_package_location virtual_store_dir id in
  '(checks, _) ← capture_link_or_exists fs (checks, ∅) package_location;
  if decide (r_dependencies package = ∅) then Ok checks else
  dependency_dir ← virtual_package_node_modules package_location (id_name id);
  checks ← capture_directory_mtime fs checks dependency_dir;
  capture_directory_mtime_if_exists fs checks (path_push dependency_dir ".bin").

Definition capture_virtual_store_checks (fs : FileSystem) (checks : list LayoutCheck)
    (virtual_store_dir : string) (graph : ResolutionGraph) : Result (list LayoutCheck) :=
  checks ← capture_directory_mtime fs checks virtual_store_dir;
  try_fold (capture_virtual_package fs virtual_store_dir) checks (btree_iter (g_packages graph)).

Section capture.
Context `{SemverCrate} (fs : FileSystem).

(** Whether a dependency of the manifest has a link, and where. *)
Definition manifest_link (workspace : option Workspace) (graph : ResolutionGraph) (node_modules : string)
    (e : string * string) : Result (option string) :=
  is_workspace_link ← match workspace with
                      | Some workspace => is_local_workspace_dependency workspace e.1 e.2
                      | None => Ok false
                      end;
  if negb is_workspace_link && negb (bool_decide (is_Some (g_root graph !! e.1))) then Ok None
  else Ok (Some (path_push node_modules e.1)).

Definition capture_manifest_link_checks (deps : gmap string string) (workspace : option Workspace)
    (graph : ResolutionGraph) (node_modules : string) (st : Captured) : Result Captured :=
  try_fold (fun st e =>
      link ← manifest_link workspace graph node_modules e;
      match link with Some path => capture_link_or_exists fs st path | None => Ok st end)
    st (btree_iter deps).

Definition capture_project_link_checks (config : SnpmConfig) (project : Project)
    (workspace : option Workspace) (graph : ResolutionGraph) (include_dev include_hoists : bool)
    (node_modules : string) (st : Captured) : Result Captured :=
  let manifest := p_manifest project in
  st ← capture_manifest_link_checks (m_dependencies manifest) workspace graph node_modules st;
  st ← (if include_dev
        then capture_manifest_link_checks (m_dev_dependencies manifest) workspace graph node_modules st
        else Ok st);
  st ← capture_manifest_link_checks (m_optional_dependencies manifest) workspace graph node_modules st;
  if include_hoists then
    try_fold (fun st e => capture_link_or_exists fs st (path_push node_modules e.1)) st
      (hoisted graph (effective_hoisting config workspace))
  else Ok st.

Definition capture_project_checks (config : SnpmConfig) (project : Project) (workspace : option Workspace)
    (graph : ResolutionGraph) (include_dev : bool) : Result (list LayoutCheck) :=
  let node_modules := path_push (p_root project) "node_modules" in
  checks ← capture_node_modules_checks fs [] node_modules;
  '(checks, _) ← capture_project_link_checks config project workspace graph include_dev true node_modules
                   (checks, ∅);
  capture_virtual_store_checks fs checks (path_push (p_root project) ".snpm") graph.

Definition capture_workspace_checks (config : SnpmConfig) (workspace : Workspace) (graph : ResolutionGraph)
    (include_dev : bool) : Result (list LayoutCheck) :=
  checks ← capture_directory_mtime fs [] (path_push (w_root workspace) "node_modules");
  checks ← capture_virtual_store_checks fs checks (path_push (w_root workspace) ".snpm") graph;
  try_fold (fun checks project =>
      let node_modules := path_push (p_root project) "node_modules" in
      checks ← capture_node_modules_checks fs checks node_modules;
      '(checks, _) ← capture_project_link_checks config project (Some workspace) graph include_dev false
                       node_modules (checks, ∅);
      Ok checks) checks (w_projects workspace).
End capture.

(** ** Checking it again *)
Definition mtime_is (fs : FileSystem) (path : string) (seconds nanoseconds : Z) : bool :=
  match modified_since_epoch fs path with
  | Ok duration => (duration / NANOS =? seconds)%Z && (duration mod NANOS =? nanoseconds)%Z
  | Err _ => false
  end.

Definition resolve_symlink_target (link target : string) : string :=
  if is_absolute target then target
  else match parent link with Some parent => path_push parent target | None => target end.

Definition check_layout (fs : FileSystem) (check : LayoutCheck) : bool :=
  match check with
  | Exists path => package_path_ready fs path
  | Mtime path seconds nanoseconds => mtime_is fs path seconds nanoseconds
  | SymlinkTarget link target =>
      match fs_read_link fs link with
      | Ok current => path_eq current target && package_path_ready fs (resolve_symlink_target link target)
      | Err _ => false
      end
  end.

Section legacy.
Context `{LayoutJson} (fs : FileSystem).

Definition read_layout_state (node_modules : string) : option LayoutState :=
  content ← result_ok (fs_bytes fs (state_path node_modules));
  layout_state_from_slice content.

Definition check_layout_state (node_modules expected_layout_hash : string) : bool :=
  match read_layout_state node_modules with
  | None => false
  | Some state =>
      if negb (la_version state =? LAYOUT_STATE_VERSION)%N || negb (la_layout_hash state == expected_layout_hash)
      then false
      else forallb (check_layout fs) (la_checks state)
  end.
End legacy.

(** ** A layout that has just been captured is there *)
Section captured.
Context (fs : FileSystem).

(** What a check says about the file system it was made from. *)
Definition recorded (check : LayoutCheck) : Prop :=
  match check with
  | Exists _ => True
  | Mtime path seconds nanoseconds => mtime_is fs path seconds nanoseconds = true
  | SymlinkTarget link target => fs_read_link fs link = Ok target
  end.

(** The package a check is about is ready. *)
Definition check_ready (check : LayoutCheck) : bool :=
  match check with
  | Exists path => package_path_ready fs path
  | Mtime _ _ _ => true
  | SymlinkTarget link target => package_path_ready fs (resolve_symlink_target link target)
  end.

Lemma recorded_check check : recorded check -> check_layout fs check = check_ready check.
Proof.
  destruct check as [| |link target]; cbn; [done|done|]. intros ->. unfold path_eq.
  by rewrite bool_decide_eq_true_2.
Qed.

(** The links the checks are about; every link that has been seen has a check. *)
Definition covers (checks : list LayoutCheck) (path : string) : Prop :=
  exists check link, check ∈ checks /\ path_key link = path_key path /\
    (check = Exists link \/ exists target, check = SymlinkTarget link target).

Definition captured (st : Captured) : Prop :=
  Forall recorded st.1 /\ forall path, path_key path ∈ st.2 -> covers st.1 path.

Lemma covers_app checks new path : covers checks path -> covers (checks ++ new) path.
Proof. intros (c & l & ? & ?). exists c, l. split; [by apply elem_of_app; left|done]. Qed.

Lemma capture_mtime_spec checks path checks' :
  capture_directory_mtime fs checks path = Ok checks' -> Forall recorded checks ->
  Forall recorded checks' /\ exists new, checks' = checks ++ new.
Proof.
  unfold capture_directory_mtime. intros (duration & Hd & [= <-])%result_bind_Ok Hall.
  split; [|by eexists]. apply Forall_app. split; [done|]. constructor; [|constructor].
  cbn. unfold mtime_is. by rewrite Hd, !Z.eqb_refl.
Qed.

Lemma capture_mtime_if_exists_spec checks path checks' :
  capture_directory_mtime_if_exists fs checks path = Ok checks' -> Forall recorded checks ->
  Forall recorded checks' /\ exists new, checks' = checks ++ new.
Proof.
  unfold capture_directory_mtime_if_exists. case_match; [apply capture_mtime_spec|].
  intros [= <-] Hall. split; [done|]. exists []. by rewrite app_nil_r.
Qed.

Lemma capture_link_spec st path st' :
  capture_link_or_exists fs st path = Ok st' -> captured st ->
  captured st' /\ covers st'.1 path /\ st.2 ⊆ st'.2 /\ exists new, st'.1 = st.1 ++ new.
Proof.
  destruct st as [checks seen]. unfold capture_link_or_exists. case_decide as Hseen.
  { intros [= <-] [Hr Hs]. split_and!; [done|by apply Hs|done|]. exists []. by rewrite app_nil_r. }
  intros (metadata & _ & Hrest)%result_bind_Ok [Hr Hs]. cbn in Hr, Hs.
  assert (exists check, st' = (checks ++ [check], {[path_key path]} ∪ seen) /\ recorded check /\
    (check = Exists path \/ exists target, check = SymlinkTarget path target)) as (check & -> & Hc & Hform).
  { case_decide.
    - apply result_bind_Ok in Hrest as (target & Ht & [= <-]). eexists. split; [done|].
      split; [|by eauto]. cbn. destruct (fs_read_link fs path); [by injection Ht as ->|done].
    - injection Hrest as <-. eexists. split; [done|]. split; [done|]. by left. }
  assert (Hcov : covers (checks ++ [check]) path).
  { exists check, path. split_and!; [set_solver|done|done]. }
  split_and!; [|done|cbn; set_solver|by eexists]. split; [apply Forall_app; by repeat constructor|].
  cbn [fst snd]. intros p [Hp%elem_of_singleton|Hp]%elem_of_union.
  - destruct Hcov as (c & l & ? & Hk & ?). exists c, l. split_and!; [done|by rewrite Hp|done].
  - by apply covers_app, Hs.
Qed.

(** Loops over captures: the checks grow and stay recorded. *)
Lemma capture_loop_spec {B} (f : list LayoutCheck -> B -> Result (list LayoutCheck)) l :
  (forall checks b checks', f checks b = Ok checks' -> Forall recorded checks ->
     Forall recorded checks' /\ exists new, checks' = checks ++ new) ->
  forall checks checks', try_fold f checks l = Ok checks' -> Forall recorded checks ->
    Forall recorded checks' /\ exists new, checks' = checks ++ new.
Proof.
  intros Hf. induction l as [|b l IH]; intros checks checks'; cbn [try_fold].
  { intros [= <-] ?. split; [done|]. exists []. by rewrite app_nil_r. }
  intros (checks1 & H1 & H2)%result_bind_Ok Hall. apply Hf in H1 as [Hr1 [new1 ->]]; [|done].
  apply IH in H2 as [Hr2 [new2 ->]]; [|done]. split; [done|]. exists (new1 ++ new2). by rewrite (assoc_L app).
Qed.

Lemma capture_node_modules_spec checks node_modules checks' :
  capture_node_modules_checks fs checks node_modules = Ok checks' -> Forall recorded checks ->
  Forall recorded checks' /\ exists new, checks' = checks ++ new.
Proof.
  unfold capture_node_modules_checks.
  intros (c1 & H1 & (c2 & H2 & (entries & _ & H3)%result_bind_Ok)%result_bind_Ok)%result_bind_Ok Hall.
  apply capture_mtime_spec in H1 as [Hr1 [n1 ->]]; [|done].
  apply capture_mtime_if_exists_spec in H2 as [Hr2 [n2 ->]]; [|done].
  apply capture_loop_spec in H3 as [Hr3 [n3 ->]]; [|clear|done].
  - split; [done|]. exists (n1 ++ n2 ++ n3). by rewrite !(assoc_L app).
  - intros checks b checks'. unfold capture_scope_mtime. intros (entry & _ & Hc)%result_bind_Ok Hall.
    case_match; [by eapply capture_mtime_spec|]. injection Hc as <-. split; [done|].
    exists []. by rewrite app_nil_r.
Qed.

Lemma capture_virtual_store_spec checks virtual_store_dir graph checks' :
  capture_virtual_store_checks fs checks virtual_store_dir graph = Ok checks' -> Forall recorded checks ->
  Forall recorded checks' /\ exists new, checks' = checks ++ new.
Proof.
  unfold capture_virtual_store_checks. intros (c1 & H1 & H2)%result_bind_Ok Hall.
  apply capture_mtime_spec in H1 as [Hr1 [n1 ->]]; [|done].
  apply capture_loop_spec in H2 as [Hr2 [n2 ->]]; [|clear|done].
  - split; [done|]. exists (n1 ++ n2). by rewrite (assoc_L app).
  - intros checks [id package] checks'. unfold capture_virtual_package.
    intros ([c1 seen] & H1 & H2)%result_bind_Ok Hall.
    apply capture_link_spec in H1 as ([Hr1 _] & _ & _ & n1 & Hn1); [|by split; [|set_solver]]. cbn in Hr1, Hn1. subst c1.
    case_decide; [injection H2 as <-; by eauto|].
    apply result_bind_Ok in H2 as (dir & _ & (c2 & H2 & H3)%result_bind_Ok).
    apply capture_mtime_spec in H2 as [Hr2 [n2 ->]]; [|done].
    apply capture_mtime_if_exists_spec in H3 as [Hr3 [n3 ->]]; [|done].
    split; [done|]. exists (n1 ++ n2 ++ n3). by rewrite !(assoc_L app).
Qed.

Section links.
Context `{SemverCrate} (workspace : option Workspace) (graph : ResolutionGraph) (node_modules : string).

(** The loop over the links: what it keeps, and that every link is covered. *)
Definition link_step_ok (st st' : Captured) : Prop :=
  captured st' /\ (forall path, covers st.1 path -> covers st'.1 path).

Lemma capture_links_spec {B} (link : B -> Result (option string)) (l : list B) :
  forall st st', captured st ->
  try_fold (fun st b => path ← link b; match path with
                                       | Some path => capture_link_or_exists fs st path
                                       | None => Ok st
                                       end) st l = Ok st' ->
  link_step_ok st st' /\
  forall b, b ∈ l -> is_ok (link b) = true /\ forall path, link b = Ok (Some path) -> covers st'.1 path.
Proof.
  induction l as [|b l IH]; intros st st' Hst; cbn [try_fold].
  { intros [= <-]. split; [by split|]. by intros ? []%not_elem_of_nil. }
  intros (st1 & (path & Hp & Hstep)%result_bind_Ok & Hrest)%result_bind_Ok.
  assert (H1 : link_step_ok st st1 /\ forall p, link b = Ok (Some p) -> covers st1.1 p).
  { destruct path as [path|].
    - apply capture_link_spec in Hstep as (Hc & Hcov & _ & new & Hnew); [|done].
      split; [split; [done|]|].
      + intros p. rewrite Hnew. apply covers_app.
      + intros p Hl. rewrite Hp in Hl. by injection Hl as <-.
    - injection Hstep as <-. split; [by split|]. intros p Hl. rewrite Hp in Hl. done. }
  destruct H1 as [[Hc1 Hcov1] Hb]. destruct (IH _ _ Hc1 Hrest) as [[Hc2 Hcov2] Hl]. split.
  - split; [done|]. intros p Hp'. by apply Hcov2, Hcov1.
  - intros b' [->|Hin]%elem_of_cons; [|by apply Hl]. rewrite Hp. split; [done|].
    intros p Hlink. apply Hcov2, Hb. by rewrite Hp.
Qed.

Lemma capture_manifest_spec deps st st' :
  captured st -> capture_manifest_link_checks fs deps workspace graph node_modules st = Ok st' ->
  link_step_ok st st' /\
  forall e, e ∈ btree_iter deps -> is_ok (manifest_link workspace graph node_modules e) = true /\
    forall path, manifest_link workspace graph node_modules e = Ok (Some path) -> covers st'.1 path.
Proof. apply (capture_links_spec (manifest_link workspace graph node_modules)). Qed.

(** The dependencies a project has links for. *)
Definition linked_dependency (project : Project) (include_dev : bool) (e : string * string) : Prop :=
  let manifest := p_manifest project in
  e ∈ btree_iter (m_dependencies manifest) \/
  (include_dev = true /\ e ∈ btree_iter (m_dev_dependencies manifest)) \/
  e ∈ btree_iter (m_optional_dependencies manifest).

Definition links_covered (project : Project) (include_dev : bool) (checks : list LayoutCheck) : Prop :=
  forall e, linked_dependency project include_dev e ->
    is_ok (manifest_link workspace graph node_modules e) = true /\
    forall path, manifest_link workspace graph node_modules e = Ok (Some path) -> covers checks path.

Lemma capture_project_links_spec config project include_dev include_hoists st st' :
  captured st ->
  capture_project_link_checks fs config project workspace graph include_dev include_hoists node_modules st = Ok st' ->
  captured st' /\ links_covered project include_dev st'.1.
Proof.
  intros Hst. unfold capture_project_link_checks.
  intros (s1 & H1 & (s2 & H2 & (s3 & H3 & H4)%result_bind_Ok)%result_bind_Ok)%result_bind_Ok.
  apply capture_manifest_spec in H1 as [[Hc1 Hm1] Hl1]; [|done].
  assert (H2' : link_step_ok s1 s2 /\ forall e, include_dev = true ->
    e ∈ btree_iter (m_dev_dependencies (p_manifest project)) ->
    is_ok (manifest_link workspace graph node_modules e) = true /\
    forall path, manifest_link workspace graph node_modules e = Ok (Some path) -> covers s2.1 path).
  { destruct include_dev; [|injection H2 as <-; by split].
    apply capture_manifest_spec in H2 as [? Hl]; [|done]. split; [done|]. auto. }
  destruct H2' as [[Hc2 Hm2] Hl2]. apply capture_manifest_spec in H3 as [[Hc3 Hm3] Hl3]; [|done].
  assert (H4' : link_step_ok s3 st').
  { destruct include_hoists; [|injection H4 as <-; by split].
    by apply (capture_links_spec (fun e => Ok (Some (path_push node_modules e.1)))) in H4 as [? _]. }
  destruct H4' as [Hc4 Hm4]. split; [done|].
  intros e [He|[[Hdev He]|He]].
  - destruct (Hl1 e He) as [? Hcov]. split; [done|]. intros path Hlink. by apply Hm4, Hm3, Hm2, Hcov.
  - destruct (Hl2 e Hdev He) as [? Hcov]. split; [done|]. intros path Hlink. by apply Hm4, Hm3, Hcov.
  - destruct (Hl3 e He) as [? Hcov]. split; [done|]. intros path Hlink. by apply Hm4, Hcov.
Qed.
End links.

Lemma capture_project_spec `{SemverCrate} config project workspace graph include_dev checks :
  capture_project_checks fs config project workspace graph include_dev = Ok checks ->
  Forall recorded checks /\
  links_covered workspace graph (path_push (p_root project) "node_modules") project include_dev checks.
Proof.
  unfold capture_project_checks. intros (c1 & H1 & ([c2 seen] & H2 & H3)%result_bind_Ok)%result_bind_Ok.
  apply capture_node_modules_spec in H1 as [Hr1 _]; [|constructor].
  apply capture_project_links_spec in H2 as [[Hr2 _] Hl]; [|by split; [|set_solver]].
  apply capture_virtual_store_spec in H3 as [Hr3 [new ->]]; [|done]. split; [done|].
  intros e He. destruct (Hl e He) as [? Hcov]. split; [done|]. intros path Hlink. by apply covers_app, Hcov.
Qed.
End captured.

(** What an installation records passes its own check: on the file system it
    was captured from every time and every link target agrees, so that the layout
    is found valid exactly when the packages that were linked are there. *)
Theorem captured_layout_is_valid `{SemverCrate} (fs : FileSystem) config project workspace graph include_dev checks :
  capture_project_checks fs config project workspace graph include_dev = Ok checks ->
  forallb (check_layout fs) checks = forallb (check_ready fs) checks.
Proof.
  intros [Hr _]%capture_project_spec. induction Hr as [|check checks Hc _ IH]; [done|]. cbn [forallb].
  by rewrite IH, (recorded_check fs check Hc).
Qed.
