(* ===== verification/InstallState.v ===== *)
(** * The saved state of an installation ([operations/install/utils/{install_state,snapshot_graph,graph_snapshot}.rs])

    What an installation leaves behind so that the next one can be skipped: the
    resolved graph, a hash of what was asked for, the file the graph was read
    from, and the layout.  The graph is written through a mirror that bincode can
    read back. *)
From S2P Require Import Prelude.
From S2P Require Import BTree.
From S2P Require Import Text.
From S2P Require Import Errors.
From S2P Require Import Types.
From S2P Require Import Paths.
From S2P Require Import Crates.
From S2P Require Import Store.
From S2P Require Import Roots.
From S2P Require Import Scripts.
From S2P Require Import Linker.
From S2P Require Import Sharing.
From S2P Require Import Layout.

(** ** The mirror of the graph *)
Record SnapshotRootDependency := { srd_requested : string; srd_resolved : PackageId }.
Inductive SnapshotBundled := SnapshotList (l : list string) | SnapshotAll (all : bool).
Inductive SnapshotBin := SingleBin (script : string) | MapBin (map : gmap string string).

Record SnapshotPackage := {
  sp_id : PackageId;
  sp_tarball : string;
  sp_integrity : option string;
  sp_dependencies : gmap string PackageId;
  sp_peer_dependencies : gmap string string;
  sp_bundled_dependencies : option SnapshotBundled;
  sp_has_bin : bool;
  sp_bin : option SnapshotBin;
}.

Record SnapshotGraph := {
  sg_root : gmap string SnapshotRootDependency;
  sg_packages : gmap PackageId SnapshotPackage;
}.

Definition snapshot_package (package : ResolvedPackage) : SnapshotPackage := {|
  sp_id := r_id package;
  sp_tarball := r_tarball package;
  sp_integrity := r_integrity package;
  sp_dependencies := r_dependencies package;
  sp_peer_dependencies := r_peer_dependencies package;
  sp_bundled_dependencies :=
    (fun bundled => match bundled with BundledList l => SnapshotList l | BundledAll all => SnapshotAll all end)
      <$> r_bundled_dependencies package;
  sp_has_bin := r_has_bin package;
  sp_bin := (fun bin => match bin with Single value => SingleBin value | BinMap map => MapBin map end)
              <$> r_bin package;
|}.

Definition package_of_snapshot (package : SnapshotPackage) : ResolvedPackage := {|
  r_id := sp_id package;
  r_tarball := sp_tarball package;
  r_integrity := sp_integrity package;
  r_dependencies := sp_dependencies package;
  r_peer_dependencies := sp_peer_dependencies package;
  r_bundled_dependencies :=
    (fun bundled => match bundled with SnapshotList l => BundledList l | SnapshotAll all => BundledAll all end)
      <$> sp_bundled_dependencies package;
  r_has_bin := sp_has_bin package;
  r_bin := (fun bin => match bin with SingleBin value => Single value | MapBin map => BinMap map end)
             <$> sp_bin package;
|}.

Definition snapshot_graph (graph : ResolutionGraph) : SnapshotGraph := {|
  sg_root := collect ((fun e => (e.1, {| srd_requested := rd_requested e.2; srd_resolved := rd_resolved e.2 |}))
                      <$> btree_iter (g_root graph));
  sg_packages := collect ((fun e => (e.1, snapshot_package e.2)) <$> btree_iter (g_packages graph));
|}.

Definition graph_of_snapshot (snapshot : SnapshotGraph) : ResolutionGraph := {|
  g_root := collect ((fun e => (e.1, {| rd_requested := srd_requested e.2; rd_resolved := srd_resolved e.2 |}))
                     <$> btree_iter (sg_root snapshot));
  g_packages := collect ((fun e => (e.1, package_of_snapshot e.2)) <$> btree_iter (sg_packages snapshot));
|}.

(** ** What was asked for *)
Section root_specs.
Context `{DigestCrates}.

Definition hash_root_spec (kind : string) (h : hasher) (e : string * string) : hasher :=
  update_nul (update_nul (hasher_update h (kind +:+ chr "000")) e.1) e.2.

Definition root_specs_hash (required_root optional_root : gmap string string) : string :=
  let h := foldl (hash_root_spec "required") (hasher_new Sha256) (btree_iter required_root) in
  let h := foldl (hash_root_spec "optional") h (btree_iter optional_root) in
  hex_encode (hasher_finalize h).
End root_specs.

(** ** The file *)
Definition INSTALL_STATE_VERSION : N := 2.

Record SnapshotSource := {
  ss_path : string;
  ss_length : N;
  ss_modified_seconds : Z;
  ss_modified_nanoseconds : Z;
}.

(** Derived [PartialEq]; the path is compared as a path. *)
Definition source_eq (a b : SnapshotSource) : bool :=
  path_eq (ss_path a) (ss_path b) && (ss_length a =? ss_length b)%N
  && (ss_modified_seconds a =? ss_modified_seconds b)%Z
  && (ss_modified_nanoseconds a =? ss_modified_nanoseconds b)%Z.

Definition source_capture (fs : FileSystem) (path : string) : Result SnapshotSource :=
  metadata ← map_err (ReadFile path) (fs_stat fs path);
  duration ← modified_since_epoch fs path;
  Ok {| ss_path := path; ss_length := st_len metadata;
        ss_modified_seconds := duration / NANOS; ss_modified_nanoseconds := duration mod NANOS |}.

Inductive StoredLayoutCheck :=
| StoredExists (path : string)
| StoredMtime (path : string) (seconds nanoseconds : Z)
| StoredSymlinkTarget (link target : string).

Definition stored_check (value : LayoutCheck) : StoredLayoutCheck :=
  match value with
  | Exists path => StoredExists path
  | Mtime path seconds nanoseconds => StoredMtime path seconds nanoseconds
  | SymlinkTarget link target => StoredSymlinkTarget link target
  end.

Definition validate (fs : FileSystem) (check : StoredLayoutCheck) : bool :=
  match check with
  | StoredExists path => package_path_ready fs path
  | StoredMtime path seconds nanoseconds => mtime_is fs path seconds nanoseconds
  | StoredSymlinkTarget link target =>
      match fs_read_link fs link with
      | Ok current => path_eq current target && package_path_ready fs (resolve_symlink_target link target)
      | Err _ => false
      end
  end.

Record LayoutSnapshot := { ls_layout_hash : string; ls_checks : list StoredLayoutCheck }.

Record GraphSnapshotState := {
  gs_source : SnapshotSource;
  gs_root_specs_hash : string;
  gs_graph : ResolutionGraph;
}.

Record InstallStateFile := {
  is_version : N;
  is_graph_snapshot : GraphSnapshotState;
  is_layout : LayoutSnapshot;
}.

Record DiskInstallStateFile := {
  di_version : N;
  di_source : SnapshotSource;
  di_root_specs_hash : string;
  di_graph : SnapshotGraph;
  di_layout : LayoutSnapshot;
}.

Definition from_memory (state : InstallStateFile) : DiskInstallStateFile := {|
  di_version := is_version state;
  di_source := gs_source (is_graph_snapshot state);
  di_root_specs_hash := gs_root_specs_hash (is_graph_snapshot state);
  di_graph := snapshot_graph (gs_graph (is_graph_snapshot state));
  di_layout := is_layout state;
|}.

Definition into_memory (self : DiskInstallStateFile) : InstallStateFile := {|
  is_version := di_version self;
  is_graph_snapshot := {| gs_source := di_source self; gs_root_specs_hash := di_root_specs_hash self;
                          gs_graph := graph_of_snapshot (di_graph self) |};
  is_layout := di_layout self;
|}.

Record CachedInstallState := {
  ci_graph : ResolutionGraph;
  ci_root_specs_matches : bool;
  ci_layout_valid : bool;
}.

Global Instance SnapshotRootDependency_eq_dec : EqDecision SnapshotRootDependency.
Proof. solve_decision. Defined.
Global Instance SnapshotBundled_eq_dec : EqDecision SnapshotBundled.
Proof. solve_decision. Defined.
Global Instance SnapshotBin_eq_dec : EqDecision SnapshotBin.
Proof. solve_decision. Defined.
Global Instance SnapshotPackage_eq_dec : EqDecision SnapshotPackage.
Proof. solve_decision. Defined.
Global Instance SnapshotGraph_eq_dec : EqDecision SnapshotGraph.
Proof. solve_decision. Defined.
Global Instance SnapshotSource_eq_dec : EqDecision SnapshotSource.
Proof. solve_decision. Defined.
Global Instance StoredLayoutCheck_eq_dec : EqDecision StoredLayoutCheck.
Proof. solve_decision. Defined.
Global Instance LayoutSnapshot_eq_dec : EqDecision LayoutSnapshot.
Proof. solve_decision. Defined.
Global Instance DiskInstallStateFile_eq_dec : EqDecision DiskInstallStateFile.
Proof. solve_decision. Defined.

Section install_state.
Context `{SemverCrate} `{DigestCrates} `{Bincode DiskInstallStateFile} (fs : FileSystem).

(** What is written, and where. *)
Definition write_install_state (path : string) (state : InstallStateFile) : Result (string * string) :=
  data ← map_err (SerializeJson path) (bincode (from_memory state));
  _ ← ok_or (Internal ("install state path has no parent: " +:+ path)) (parent path);
  Ok (path, data).

Definition write_project_install_state (config : SnpmConfig) (project : Project)
    (workspace : option Workspace) (source_path : string) (required_root optional_root : gmap string string)
    (graph : ResolutionGraph) (include_dev : bool) : Result (string * string) :=
  source ← source_capture fs source_path;
  layout_hash ← build_project_layout_hash fs config project workspace graph include_dev;
  checks ← capture_project_checks fs config project workspace graph include_dev;
  write_install_state (install_state_path (p_root project))
    {| is_version := INSTALL_STATE_VERSION;
       is_graph_snapshot := {| gs_source := source; gs_root_specs_hash := root_specs_hash required_root optional_root;
                               gs_graph := graph |};
       is_layout := {| ls_layout_hash := layout_hash; ls_checks := stored_check <$> checks |} |}.

Definition write_workspace_install_state (config : SnpmConfig) (workspace : Workspace)
    (source_path : string) (required_root optional_root : gmap string string)
    (graph : ResolutionGraph) (include_dev : bool) : Result (string * string) :=
  source ← source_capture fs source_path;
  layout_hash ← build_workspace_layout_hash fs config workspace graph include_dev;
  checks ← capture_workspace_checks fs config workspace graph include_dev;
  write_install_state (install_state_path (w_root workspace))
    {| is_version := INSTALL_STATE_VERSION;
       is_graph_snapshot := {| gs_source := source; gs_root_specs_hash := root_specs_hash required_root optional_root;
                               gs_graph := graph |};
       is_layout := {| ls_layout_hash := layout_hash; ls_checks := stored_check <$> checks |} |}.

Definition read_install_state (path : string) : option InstallStateFile :=
  bytes ← result_ok (fs_bytes fs path);
  into_memory <$> result_ok (unbincode bytes).

Definition read_valid_install_state (path source_path : string) : option InstallStateFile :=
  state ← read_install_state path;
  if negb (is_version state =? INSTALL_STATE_VERSION)%N then None else
  source ← result_ok (source_capture fs source_path);
  if negb (source_eq (gs_source (is_graph_snapshot state)) source) then None else Some state.

(** [is_some_and(|expected| expected == layout_hash)] *)
Definition layout_hash_is (expected : Result string) (state : InstallStateFile) : bool :=
  match expected with Ok hash => hash == ls_layout_hash (is_layout state) | Err _ => false end.

Definition load_project_install_state (config : SnpmConfig) (project : Project)
    (workspace : option Workspace) (source_path : string) (required_root optional_root : gmap string string)
    (include_dev : bool) : option CachedInstallState :=
  state ← read_valid_install_state (install_state_path (p_root project)) source_path;
  let graph := gs_graph (is_graph_snapshot state) in
  let root_specs_matches :=
    gs_root_specs_hash (is_graph_snapshot state) == root_specs_hash required_root optional_root in
  let layout_valid :=
    root_specs_matches
    && layout_hash_is (build_project_layout_hash fs config project workspace graph include_dev) state
    && forallb (validate fs) (ls_checks (is_layout state)) in
  Some {| ci_graph := graph; ci_root_specs_matches := root_specs_matches; ci_layout_valid := layout_valid |}.

Definition load_workspace_install_state (config : SnpmConfig) (workspace : Workspace)
    (source_path : string) (required_root optional_root : gmap string string)
    (include_dev : bool) : option CachedInstallState :=
  state ← read_valid_install_state (install_state_path (w_root workspace)) source_path;
  let graph := gs_graph (is_graph_snapshot state) in
  let root_specs_matches :=
    gs_root_specs_hash (is_graph_snapshot state) == root_specs_hash required_root optional_root in
  let layout_valid :=
    root_specs_matches
    && layout_hash_is (build_workspace_layout_hash fs config workspace graph include_dev) state
    && forallb (validate fs) (ls_checks (is_layout state)) in
  Some {| ci_graph := graph; ci_root_specs_matches := root_specs_matches; ci_layout_valid := layout_valid |}.

Definition load_graph_snapshot_from_install_state (root source_path : string)
  : option (ResolutionGraph * string) :=
  state ← read_valid_install_state (install_state_path root) source_path;
  Some (gs_graph (is_graph_snapshot state), gs_root_specs_hash (is_graph_snapshot state)).

Definition check_project_layout_from_install_state (config : SnpmConfig) (project : Project)
    (workspace : option Workspace) (graph : ResolutionGraph) (include_dev : bool) : option bool :=
  state ← read_install_state (install_state_path (p_root project));
  if negb (is_version state =? INSTALL_STATE_VERSION)%N then None else
  expected ← result_ok (build_project_layout_hash fs config project workspace graph include_dev);
  Some ((expected == ls_layout_hash (is_layout state)) && forallb (validate fs) (ls_checks (is_layout state))).

Definition check_workspace_layout_from_install_state (config : SnpmConfig) (workspace : Workspace)
    (graph : ResolutionGraph) (include_dev : bool) : option bool :=
  state ← read_install_state (install_state_path (w_root workspace));
  if negb (is_version state =? INSTALL_STATE_VERSION)%N then None else
  expected ← result_ok (build_workspace_layout_hash fs config workspace graph include_dev);
  Some ((expected == ls_layout_hash (is_layout state)) && forallb (validate fs) (ls_checks (is_layout state))).

(** [layout_state.rs]: the state file, or the legacy one. *)
Definition check_project_layout_state `{LayoutJson} (config : SnpmConfig) (project : Project)
    (workspace : option Workspace) (graph : ResolutionGraph) (include_dev : bool) : bool :=
  match check_project_layout_from_install_state config project workspace graph include_dev with
  | Some valid => valid
  | None =>
      match build_project_layout_hash fs config project workspace graph include_dev with
      | Ok layout_hash => check_layout_state fs (path_push (p_root project) "node_modules") layout_hash
      | Err _ => false
      end
  end.

Definition check_workspace_layout_state `{LayoutJson} (config : SnpmConfig) (workspace : Workspace)
    (graph : ResolutionGraph) (include_dev : bool) : bool :=
  match check_workspace_layout_from_install_state config workspace graph include_dev with
  | Some valid => valid
  | None =>
      match build_workspace_layout_hash fs config workspace graph include_dev with
      | Ok layout_hash => check_layout_state fs (path_push (w_root workspace) "node_modules") layout_hash
      | Err _ => false
      end
  end.

(** ** The fast check *)
Definition is_node_modules_boundary_child (path node_modules : string) : bool :=
  path_eq path (path_push node_modules ".bin")
  || (match parent path with Some parent => path_eq parent node_modules | None => false end
      && match file_name path with Some name => starts_with "@" name | None => false end).

Definition is_fast_boundary_mtime (node_modules_roots virtual_store_roots : list string) (path : string) : bool :=
  existsb (path_eq path) virtual_store_roots
  || existsb (fun root => path_eq path root || is_node_modules_boundary_child path root) node_modules_roots.

Definition path_in (paths : list string) (path : string) : bool := existsb (path_eq path) paths.

(** Whether a check is made, and the link it is about. *)
Inductive FastCheck := Skipped | Boundary | Linked (link : string).
Definition fast_check (node_modules_roots virtual_store_roots link_paths : list string)
    (check : StoredLayoutCheck) : FastCheck :=
  match check with
  | StoredMtime path _ _ =>
      if is_fast_boundary_mtime node_modules_roots virtual_store_roots path then Boundary else Skipped
  | StoredExists path => if path_in link_paths path then Linked path else Skipped
  | StoredSymlinkTarget link _ => if path_in link_paths link then Linked link else Skipped
  end.

(** The loop over the checks: [None] when it returns early. *)
Fixpoint validated_links (node_modules_roots virtual_store_roots link_paths : list string)
    (validated : list string) (checks : list StoredLayoutCheck) : option (list string) :=
  match checks with
  | [] => Some validated
  | check :: checks =>
      let continue := validated_links node_modules_roots virtual_store_roots link_paths in
      match fast_check node_modules_roots virtual_store_roots link_paths check with
      | Skipped => continue validated checks
      | Boundary => if validate fs check then continue validated checks else None
      | Linked link => if validate fs check then continue (validated ++ [link]) checks else None
      end
  end.

Definition validate_fast_layout_checks (checks : list StoredLayoutCheck)
    (node_modules_roots virtual_store_roots link_paths : list string) : bool :=
  if existsb (fun path => negb (is_dir fs path)) node_modules_roots
     || existsb (fun path => negb (is_dir fs path)) virtual_store_roots then false
  else match validated_links node_modules_roots virtual_store_roots link_paths [] checks with
       | None => false
       | Some validated => forallb (path_in validated) link_paths
       end.

Definition append_project_link_paths (deps : gmap string string) (workspace : option Workspace)
    (graph : ResolutionGraph) (node_modules : string) (links : list string) : Result (list string) :=
  try_fold (fun links e =>
      link ← manifest_link workspace graph node_modules e;
      Ok match link with Some path => links ++ [path] | None => links end) links (btree_iter deps).

(** The [BTreeSet] of paths is a list here: only membership is used. *)
Definition project_link_paths (project : Project) (workspace : option Workspace) (graph : ResolutionGraph)
    (include_dev : bool) : Result (list string) :=
  let node_modules := path_push (p_root project) "node_modules" in
  let manifest := p_manifest project in
  links ← append_project_link_paths (m_dependencies manifest) workspace graph node_modules [];
  links ← (if include_dev
           then append_project_link_paths (m_dev_dependencies manifest) workspace graph node_modules links
           else Ok links);
  append_project_link_paths (m_optional_dependencies manifest) workspace graph node_modules links.

Definition fast_project_layout_valid (config : SnpmConfig) (project : Project)
    (workspace : option Workspace) (state : InstallStateFile) (include_dev : bool) : bool :=
  let graph := gs_graph (is_graph_snapshot state) in
  if negb (layout_hash_is (build_project_layout_hash fs config project workspace graph include_dev) state)
  then false else
  match project_link_paths project workspace graph include_dev with
  | Err _ => false
  | Ok link_paths =>
      validate_fast_layout_checks (ls_checks (is_layout state))
        [path_push (p_root project) "node_modules"] [path_push (p_root project) ".snpm"] link_paths
  end.

Definition fast_workspace_layout_valid (config : SnpmConfig) (workspace : Workspace)
    (state : InstallStateFile) (include_dev : bool) : bool :=
  let graph := gs_graph (is_graph_snapshot state) in
  if negb (layout_hash_is (build_workspace_layout_hash fs config workspace graph include_dev) state)
  then false else
  match try_fold (fun links project =>
          paths ← project_link_paths project (Some workspace) graph include_dev; Ok (links ++ paths))
          [] (w_projects workspace) with
  | Err _ => false
  | Ok link_paths =>
      validate_fast_layout_checks (ls_checks (is_layout state))
        (path_push (w_root workspace) "node_modules"
         :: ((fun project => path_push (p_root project) "node_modules") <$> w_projects workspace))
        [path_push (w_root workspace) ".snpm"] link_paths
  end.

Definition load_project_install_state_fast (config : SnpmConfig) (project : Project)
    (workspace : option Workspace) (source_path : string) (required_root optional_root : gmap string string)
    (include_dev : bool) : option CachedInstallState :=
  state ← read_valid_install_state (install_state_path (p_root project)) source_path;
  let root_specs_matches :=
    gs_root_specs_hash (is_graph_snapshot state) == root_specs_hash required_root optional_root in
  let layout_valid := root_specs_matches && fast_project_layout_valid config project workspace state include_dev in
  Some {| ci_graph := gs_graph (is_graph_snapshot state); ci_root_specs_matches := root_specs_matches;
          ci_layout_valid := layout_valid |}.

Definition load_workspace_install_state_fast (config : SnpmConfig) (workspace : Workspace)
    (source_path : string) (required_root optional_root : gmap string string)
    (include_dev : bool) : option CachedInstallState :=
  state ← read_valid_install_state (install_state_path (w_root workspace)) source_path;
  let root_specs_matches :=
    gs_root_specs_hash (is_graph_snapshot state) == root_specs_hash required_root optional_root in
  let layout_valid := root_specs_matches && fast_workspace_layout_valid config workspace state include_dev in
  Some {| ci_graph := gs_graph (is_graph_snapshot state); ci_root_specs_matches := root_specs_matches;
          ci_layout_valid := layout_valid |}.
End install_state.

(** ** The mirror loses nothing *)
Lemma graph_of_snapshot_graph graph : graph_of_snapshot (snapshot_graph graph) = graph.
Proof.
  destruct graph as [root packages]. unfold graph_of_snapshot, snapshot_graph. cbn [g_root g_packages sg_root sg_packages].
  rewrite (collect_map_values (fun _ d => {| srd_requested := rd_requested d; srd_resolved := rd_resolved d |})).
  rewrite (collect_map_values (fun _ d => {| rd_requested := srd_requested d; rd_resolved := srd_resolved d |})).
  rewrite (collect_map_values (fun _ => snapshot_package)), (collect_map_values (fun _ => package_of_snapshot)).
  rewrite !map_imap_inverse; [done| |by intros []].
  intros [????? bundled ? bin]. unfold package_of_snapshot, snapshot_package; cbn.
  by destruct bundled as [[]|], bin as [[]|].
Qed.

Lemma into_from_memory state : into_memory (from_memory state) = state.
Proof.
  destruct state as [? [] ?]. unfold into_memory, from_memory. cbn. by rewrite graph_of_snapshot_graph.
Qed.

Lemma source_eq_refl source : source_eq source source = true.
Proof.
  unfold source_eq, path_eq. rewrite bool_decide_eq_true_2 by done. by rewrite N.eqb_refl, !Z.eqb_refl.
Qed.

Section state_correct.
Context `{SemverCrate} `{DigestCrates} `{BincodeLaws DiskInstallStateFile}.

Lemma read_written (fs fs' : FileSystem) path state data path' :
  write_install_state path state = Ok (path', data) -> fs_bytes fs' path' = Ok data ->
  path' = path /\ read_install_state fs' path = Some state.
Proof.
  unfold write_install_state, read_install_state. destruct (bincode _) as [bytes|] eqn:Hb; [|done]. cbn.
  destruct (parent path); [|done]. intros [= <- <-] Hd. split; [done|]. rewrite Hd.
  cbn [result_ok mbind option_bind]. rewrite (unbincode_bincode _ _ Hb).
  exact (f_equal Some (into_from_memory state)).
Qed.

Lemma read_valid_written (fs fs' : FileSystem) path data source_path source state path' :
  write_install_state path state = Ok (path', data) -> fs_bytes fs' path' = Ok data ->
  is_version state = INSTALL_STATE_VERSION -> gs_source (is_graph_snapshot state) = source ->
  source_capture fs' source_path = Ok source ->
  read_valid_install_state fs' path source_path = Some state.
Proof.
  intros Hw Hd Hv Hs Hc. destruct (read_written fs fs' _ _ _ _ Hw Hd) as [-> Hr].
  unfold read_valid_install_state. rewrite Hr. cbn. rewrite Hv, Hc, Hs. cbn. by rewrite source_eq_refl.
Qed.

Lemma written_state_loads (fs fs' : FileSystem) config project workspace source_path
    required_root optional_root graph include_dev path data config' required_root' optional_root' include_dev' :
  write_project_install_state fs config project workspace source_path required_root optional_root graph include_dev
    = Ok (path, data) ->
  fs_bytes fs' path = Ok data -> source_capture fs' source_path = source_capture fs source_path ->
  exists layout_hash checks,
    build_project_layout_hash fs config project workspace graph include_dev = Ok layout_hash /\
    capture_project_checks fs config project workspace graph include_dev = Ok checks /\
    load_project_install_state fs' config' project workspace source_path required_root' optional_root' include_dev' =
    let matches := root_specs_hash required_root optional_root == root_specs_hash required_root' optional_root' in
    Some {| ci_graph := graph; ci_root_specs_matches := matches;
            ci_layout_valid :=
              matches
              && match build_project_layout_hash fs' config' project workspace graph include_dev' with
                 | Ok hash => hash == layout_hash
                 | Err _ => false
                 end
              && forallb (check_layout fs') checks |}.
Proof.
  unfold write_project_install_state. intros Hw Hd Hsrc.
  destruct (source_capture fs source_path) as [source|] eqn:Hs; [|done]. cbn in Hw.
  destruct (build_project_layout_hash fs _ _ _ _ _) as [layout_hash|] eqn:Hh; [|done]. cbn in Hw.
  destruct (capture_project_checks _ _ _ _ _ _) as [checks|] eqn:Hc; [|done]. cbn in Hw.
  exists layout_hash, checks. split_and!; [done..|]. unfold load_project_install_state.
  rewrite (read_valid_written fs fs' _ _ _ source _ _ Hw Hd) by done. cbn. do 3 f_equal.
  clear. induction checks as [|check checks IH]; [done|]. cbn [fmap list_fmap map forallb].
  rewrite <-IH. by destruct check.
Qed.

(** The saved state comes back.  What [write_project_install_state] writes
    is read by the next installation as long as the lockfile has the same length
    and time of modification: the same graph, whether the same dependencies are
    asked for, and a layout that is valid when they are, when the layout expected
    now is the one expected then, and when every check that was made then still
    passes. *)
Theorem project_install_state_roundtrip (fs fs' : FileSystem) config project workspace source_path
    required_root optional_root graph include_dev path data config' required_root' optional_root' include_dev' :
  write_project_install_state fs config project workspace source_path required_root optional_root graph include_dev
    = Ok (path, data) ->
  fs_bytes fs' path = Ok data -> source_capture fs' source_path = source_capture fs source_path ->
  exists layout_hash checks,
    build_project_layout_hash fs config project workspace graph include_dev = Ok layout_hash /\
    capture_project_checks fs config project workspace graph include_dev = Ok checks /\
    load_project_install_state fs' config' project workspace source_path required_root' optional_root' include_dev' =
    let matches := root_specs_hash required_root optional_root == root_specs_hash required_root' optional_root' in
    Some {| ci_graph := graph; ci_root_specs_matches := matches;
            ci_layout_valid :=
              matches
              && match build_project_layout_hash fs' config' project workspace graph include_dev' with
                 | Ok hash => hash == layout_hash
                 | Err _ => false
                 end
              && forallb (check_layout fs') checks |}.
Proof. apply written_state_loads. Qed.
End state_correct.

(** ** What was asked for, and nothing else, is hashed *)
Fixpoint nul_terminated (fields : list string) : string :=
  match fields with [] => ε | f :: fields => f +:+ chr "000" +:+ nul_terminated fields end.

Lemma nul_terminated_app l1 l2 : nul_terminated (l1 ++ l2) = nul_terminated l1 +:+ nul_terminated l2.
Proof. induction l1 as [|f l1 IH]; [done|]. cbn [app nul_terminated]. by rewrite IH, !app_assoc_s. Qed.

Definition nul_free (s : string) : Prop := contains_char "000" s = false.

Lemma nul_terminated_inj l1 l2 :
  Forall nul_free l1 -> Forall nul_free l2 -> nul_terminated l1 = nul_terminated l2 -> l1 = l2.
Proof.
  assert (Hcons : forall f l, nul_terminated (f :: l) = f +:+ String "000" (nul_terminated l)) by done.
  revert l2. induction l1 as [|f1 l1 IH]; intros [|f2 l2] H1 H2 Heq; [done| | |].
  - exfalso. rewrite Hcons in Heq. by destruct f2.
  - exfalso. rewrite Hcons in Heq. by destruct f1.
  - apply Forall_cons in H1 as [Hf1 H1], H2 as [Hf2 H2]. rewrite !Hcons in Heq.
    apply (f_equal (split_once "000")) in Heq. rewrite !split_once_app in Heq by done.
    injection Heq as -> Heq. f_equal. by apply IH.
Qed.

Definition spec_fields (kind : string) (m : gmap string string) : list string :=
  mjoin ((fun e => [kind; e.1; e.2]) <$> btree_iter m).

(** The bytes that are hashed. *)
Definition root_specs_bytes (required_root optional_root : gmap string string) : string :=
  nul_terminated (spec_fields "required" required_root ++ spec_fields "optional" optional_root).

Definition specs_nul_free (m : gmap string string) : Prop :=
  forall name value, m !! name = Some value -> nul_free name /\ nul_free value.

Lemma spec_fields_nul_free kind m : nul_free kind -> specs_nul_free m -> Forall nul_free (spec_fields kind m).
Proof.
  intros Hk Hm. apply Forall_forall. intros f (l & Hf & (e & -> & He)%list_elem_of_fmap)%list_elem_of_join.
  destruct e as [n v]. apply elem_of_btree_iter, Hm in He as [Hn Hv].
  repeat (apply elem_of_cons in Hf as [->|Hf]; [done|]). by apply not_elem_of_nil in Hf.
Qed.

Lemma spec_fields_inj required optional required' optional' :
  spec_fields "required" required ++ spec_fields "optional" optional =
  spec_fields "required" required' ++ spec_fields "optional" optional' ->
  required = required' /\ optional = optional'.
Proof.
  assert (Hgen : forall (l l' m m' : list (string * string)),
    mjoin ((fun e => ["required"; e.1; e.2]) <$> l) ++ mjoin ((fun e => ["optional"; e.1; e.2]) <$> m) =
    mjoin ((fun e => ["required"; e.1; e.2]) <$> l') ++ mjoin ((fun e => ["optional"; e.1; e.2]) <$> m') ->
    l = l' /\ m = m').
  { induction l as [|[n v] l IH]; intros [|[n' v'] l'] m m' Heq.
    - split; [done|]. cbn [fmap list_fmap map mjoin list_join app] in Heq. revert m' Heq.
      induction m as [|[n v] m IHm]; intros [|[n' v'] m'] Heq; [done..|]. injection Heq as -> -> Heq.
      f_equal. by apply IHm.
    - exfalso. by destruct m as [|[]].
    - exfalso. by destruct m' as [|[]].
    - injection Heq as -> -> Heq. destruct (IH l' m m' Heq) as [-> ->]. done. }
  intros [Hr Ho]%Hgen.
  split; [rewrite <-(collect_btree_iter required), <-(collect_btree_iter required')
         |rewrite <-(collect_btree_iter optional), <-(collect_btree_iter optional')]; congruence.
Qed.

Lemma root_specs_bytes_inj required optional required' optional' :
  specs_nul_free required -> specs_nul_free optional -> specs_nul_free required' -> specs_nul_free optional' ->
  root_specs_bytes required optional = root_specs_bytes required' optional' ->
  required = required' /\ optional = optional'.
Proof.
  intros Hr Ho Hr' Ho' Heq. apply spec_fields_inj.
  apply nul_terminated_inj in Heq; [done|..]; apply Forall_app; split; by apply spec_fields_nul_free.
Qed.

Section root_specs_correct.
Context `{DigestLaws}.

Lemma root_specs_hash_bytes required_root optional_root :
  root_specs_hash required_root optional_root =
  hex_encode (hasher_finalize (hasher_update (hasher_new Sha256) (root_specs_bytes required_root optional_root))).
Proof.
  assert (Hfold : forall kind l h, foldl (hash_root_spec kind) h l =
    hasher_update h (nul_terminated (mjoin ((fun e => [kind; e.1; e.2]) <$> l)))).
  { intros kind. induction l as [|e l IH]; intros h; [symmetry; apply hasher_update_nil|].
    cbn [foldl]. rewrite IH. unfold hash_root_spec, update_nul. rewrite !hasher_update_app.
    cbn [fmap list_fmap map mjoin list_join app nul_terminated]. by rewrite !app_assoc_s. }
  unfold root_specs_hash, root_specs_bytes. rewrite !Hfold, hasher_update_app.
  by rewrite <-nul_terminated_app.
Qed.

(** The hash that is compared before an installation is skipped stands for
    the dependencies that are asked for: unless the digest collides on the two
    inputs, it is the same for the same required and the same optional
    dependencies only, whatever names and ranges there are. *)
Theorem root_specs_hash_faithful required optional required' optional' :
  specs_nul_free required -> specs_nul_free optional -> specs_nul_free required' -> specs_nul_free optional' ->
  let digest bytes := hex_encode (hasher_finalize (hasher_update (hasher_new Sha256) bytes)) in
  (digest (root_specs_bytes required optional) = digest (root_specs_bytes required' optional') ->
   root_specs_bytes required optional = root_specs_bytes required' optional') ->
  root_specs_hash required optional = root_specs_hash required' optional' <->
  required = required' /\ optional = optional'.
Proof.
  intros Hr Ho Hr' Ho' digest Hinj. rewrite !root_specs_hash_bytes. split.
  - intros Heq%Hinj. by apply root_specs_bytes_inj.
  - by intros [-> ->].
Qed.
End root_specs_correct.

(** ** The fast check accepts what the full one accepts *)
Lemma path_key_eq p q : path_key p = path_key q -> path_eq p q = true.
Proof.
  unfold path_key, path_eq. intros Heq. apply bool_decide_eq_true_2.
  assert (Inj (=) (=) component_key) by (intros [] []; cbn; congruence).
  by apply (inj (fmap component_key)).
Qed.

Lemma path_eq_sym p q : path_eq p q = path_eq q p.
Proof. unfold path_eq. by apply bool_decide_ext. Qed.
Lemma path_eq_trans p q r : path_eq p q = true -> path_eq q r = true -> path_eq p r = true.
Proof. unfold path_eq. rewrite !bool_decide_eq_true. congruence. Qed.

Lemma validated_links_spec fs node_modules_roots virtual_store_roots link_paths checks acc :
  forallb (validate fs) checks = true ->
  exists validated, validated_links fs node_modules_roots virtual_store_roots link_paths acc checks = Some validated /\
    acc ⊆ validated /\
    forall check link, check ∈ checks ->
      fast_check node_modules_roots virtual_store_roots link_paths check = Linked link -> link ∈ validated.
Proof.
  revert acc. induction checks as [|check checks IH]; intros acc; cbn [forallb validated_links].
  { intros _. exists acc. split_and!; [done|done|]. by intros ? ? []%not_elem_of_nil. }
  intros [Hv Hall]%andb_true_iff. destruct (fast_check _ _ _ check) as [| |link] eqn:Hf; rewrite ?Hv.
  all: edestruct IH as (v & -> & Hsub & Hl); [done|]; exists v; split_and!; [done|set_solver|];
    intros c l [->|Hc]%elem_of_cons Hfc; [|by eapply Hl].
  - congruence.
  - congruence.
  - rewrite Hf in Hfc. injection Hfc as <-. set_solver.
Qed.

Lemma append_links_spec `{SemverCrate} deps workspace graph node_modules links :
  (forall e, e ∈ btree_iter deps -> is_ok (manifest_link workspace graph node_modules e) = true) ->
  exists links', append_project_link_paths deps workspace graph node_modules links = Ok links' /\
    forall path, path ∈ links' -> path ∈ links \/
      exists e, e ∈ btree_iter deps /\ manifest_link workspace graph node_modules e = Ok (Some path).
Proof.
  unfold append_project_link_paths. revert links. induction (btree_iter deps) as [|e l IH]; intros links Hok; cbn [try_fold].
  { exists links. split; [done|]. by left. }
  destruct (proj1 (is_ok_true _) (Hok e ltac:(by left))) as [link Hlink]. rewrite Hlink.
  cbn [mbind result_bind]. destruct (IH match link with Some path => links ++ [path] | None => links end)
    as (links' & -> & Hin); [intros; apply Hok; by right|].
  exists links'. split; [done|]. intros path Hpath.
  destruct (Hin path Hpath) as [Hp|(e' & ? & ?)]; [|right; exists e'; split; [by right|done]].
  destruct link as [p|]; [|by left]. apply elem_of_app in Hp as [Hp| ->%list_elem_of_singleton]; [by left|].
  right. exists e. split; [by left|done].
Qed.

Lemma project_link_paths_spec `{SemverCrate} project workspace graph include_dev checks :
  links_covered workspace graph (path_push (p_root project) "node_modules") project include_dev checks ->
  exists links, project_link_paths project workspace graph include_dev = Ok links /\
    forall path, path ∈ links -> covers checks path.
Proof.
  unfold project_link_paths. set (node_modules := path_push _ _). intros Hcov.
  destruct (append_links_spec (m_dependencies (p_manifest project)) workspace graph node_modules [])
    as (l1 & -> & H1). { intros e He. by apply Hcov; left. }
  cbn [mbind result_bind].
  assert (exists l2, (if include_dev then append_project_link_paths (m_dev_dependencies (p_manifest project))
        workspace graph node_modules l1 else Ok l1) = Ok l2 /\
      forall path, path ∈ l2 -> path ∈ l1 \/ covers checks path) as (l2 & -> & H2).
  { destruct include_dev; [|exists l1; by eauto].
    destruct (append_links_spec (m_dev_dependencies (p_manifest project)) workspace graph node_modules l1)
      as (l2 & -> & H2). { intros e He. by apply Hcov; right; left. }
    exists l2. split; [done|]. intros path [?|(e & He & ?)]%H2; [by left|right]. by apply (Hcov e); [right; left|]. }
  cbn [mbind result_bind].
  destruct (append_links_spec (m_optional_dependencies (p_manifest project)) workspace graph node_modules l2)
    as (l3 & -> & H3). { intros e He. by apply Hcov; right; right. }
  exists l3. split; [done|]. intros path [[Hp|?]%H2|(e & He & ?)]%H3; [|done|].
  - destruct (H1 path Hp) as [[]%not_elem_of_nil|(e & He & ?)]. by apply (Hcov e); [left|].
  - by apply (Hcov e); [right; right|].
Qed.

Lemma fast_of_full fs checks node_modules_roots virtual_store_roots link_paths :
  forallb (validate fs) (stored_check <$> checks) = true ->
  (forall path, path ∈ link_paths -> covers checks path) ->
  Forall (fun dir => is_dir fs dir = true) (node_modules_roots ++ virtual_store_roots) ->
  validate_fast_layout_checks fs (stored_check <$> checks) node_modules_roots virtual_store_roots link_paths = true.
Proof.
  intros Hall Hcov [Hnm Hvs]%Forall_app. unfold validate_fast_layout_checks.
  assert (Hdirs : forall dirs, Forall (fun dir => is_dir fs dir = true) dirs ->
    existsb (fun path => negb (is_dir fs path)) dirs = false).
  { intros dirs Hd. induction Hd as [|dir dirs Hd _ IH]; [done|]. cbn [existsb]. by rewrite Hd, IH. }
  rewrite !Hdirs by done. cbn [orb].
  destruct (validated_links_spec fs node_modules_roots virtual_store_roots link_paths _ [] Hall) as (v & -> & _ & Hl).
  apply forallb_true. intros path Hpath. destruct (Hcov path Hpath) as (check & link & Hin & Hk & Hform).
  apply path_key_eq in Hk. assert (Hpin : path_in link_paths link = true) by (apply existsb_true; by exists path).
  apply existsb_true. exists link. split; [|by rewrite path_eq_sym].
  apply (Hl (stored_check check) link); [by apply list_elem_of_fmap_2|].
  destruct Hform as [->|[target ->]]; cbn; by rewrite Hpin.
Qed.

Section fast.
Context `{SemverCrate} `{DigestCrates} `{BincodeLaws DiskInstallStateFile}.

Lemma fast_state_of_full (fs fs' : FileSystem) config project workspace source_path
    required_root optional_root graph include_dev path data state :
  write_project_install_state fs config project workspace source_path required_root optional_root graph include_dev
    = Ok (path, data) ->
  fs_bytes fs' path = Ok data ->
  load_project_install_state fs' config project workspace source_path required_root optional_root include_dev
    = Some state ->
  ci_layout_valid state = true ->
  is_dir fs' (path_push (p_root project) "node_modules") = true ->
  is_dir fs' (path_push (p_root project) ".snpm") = true ->
  load_project_install_state_fast fs' config project workspace source_path required_root optional_root include_dev
    = Some state.
Proof.
  unfold write_project_install_state. intros Hw Hd.
  destruct (source_capture fs source_path) as [source|]; [|done]. cbn in Hw.
  destruct (build_project_layout_hash fs _ _ _ _ _) as [layout_hash|]; [|done]. cbn in Hw.
  destruct (capture_project_checks _ _ _ _ _ _) as [checks|] eqn:Hc; [|done]. cbn in Hw.
  destruct (read_written fs fs' _ _ _ _ Hw Hd) as [-> Hr].
  unfold load_project_install_state, load_project_install_state_fast, read_valid_install_state. rewrite Hr.
  cbn [mbind option_bind is_version is_graph_snapshot gs_source gs_graph gs_root_specs_hash is_layout].
  case_match; [done|]. destruct (result_ok (source_capture fs' source_path)) as [source'|]; [|done].
  cbn [mbind option_bind]. case_match; [done|]. intros [= <-]. cbn [ci_layout_valid mbind option_bind].
  intros [[Hm Hh]%andb_true_iff Hv]%andb_true_iff Hnm Hvs.
  cbn [is_layout ls_checks] in Hv. rewrite Hm, Hh, Hv. cbn [andb].
  enough (fast_project_layout_valid fs' config project workspace
    {| is_version := INSTALL_STATE_VERSION;
       is_graph_snapshot := {| gs_source := source; gs_root_specs_hash := root_specs_hash required_root optional_root;
                               gs_graph := graph |};
       is_layout := {| ls_layout_hash := layout_hash; ls_checks := stored_check <$> checks |} |} include_dev = true)
    as -> by (cbn [is_graph_snapshot gs_root_specs_hash gs_graph]; by rewrite String.eqb_refl).
  unfold fast_project_layout_valid. cbn [is_graph_snapshot gs_graph is_layout ls_checks]. rewrite Hh. cbn [negb].
  apply capture_project_spec in Hc as [_ (links & -> & Hcov)%project_link_paths_spec].
  apply fast_of_full; [done|done|by repeat constructor].
Qed.

(** The shortcut is no stricter than the full check: a state that was written
    by an installation and that the full check finds valid is found valid, with
    the same graph, by the check that only looks at the boundary of the layout. *)
Theorem fast_state_agrees (fs fs' : FileSystem) config project workspace source_path
    required_root optional_root graph include_dev path data state :
  write_project_install_state fs config project workspace source_path required_root optional_root graph include_dev
    = Ok (path, data) ->
  fs_bytes fs' path = Ok data ->
  load_project_install_state fs' config project workspace source_path required_root optional_root include_dev
    = Some state ->
  ci_layout_valid state = true ->
  is_dir fs' (path_push (p_root project) "node_modules") = true ->
  is_dir fs' (path_push (p_root project) ".snpm") = true ->
  load_project_install_state_fast fs' config project workspace source_path required_root optional_root include_dev
    = Some state.
Proof. apply fast_state_of_full. Qed.
End fast.

(** ** Witness *)
Module RootSpecsDemo.
#[local] Existing Instance StoreDemo.transparent.
#[local] Existing Instance StoreDemo.transparent_laws.

Lemma root_specs_hash_faithful_witness :
  root_specs_hash {["react" := "^18.0.0"]} ∅ = root_specs_hash ∅ {["react" := "^18.0.0"]} <->
  ({["react" := "^18.0.0"]} : gmap string string) = ∅ /\ (∅ : gmap string string) = {["react" := "^18.0.0"]}.
Proof.
  assert (H1 : specs_nul_free {["react" := "^18.0.0"]}).
  { intros name value [<- <-]%lookup_singleton_Some. done. }
  assert (H0 : specs_nul_free ∅) by (intros name value; by rewrite lookup_empty).
  apply (root_specs_hash_faithful {["react" := "^18.0.0"]} ∅ ∅ {["react" := "^18.0.0"]} H1 H0 H0 H1).
  intros Heq. cbn in Heq. by apply (app_inj_head_s "sha256") in Heq.
Defined.
End RootSpecsDemo.
