(* ===== verification/Residency.v ===== *)
(** * What the package store holds ([store/{cache_index,metadata}.rs], [store/filesystem/paths.rs])

    The directories of the store, the metadata that is written next to a package,
    the index of packages that are resident, and the search for what an
    installation still misses. *)
From S2P Require Import Prelude.
From S2P Require Import BTree.
From S2P Require Import Text.
From S2P Require Import Errors.
From S2P Require Import Types.
From S2P Require Import Paths.
From S2P Require Import Crates.
From S2P Require Import Config.
From S2P Require Import Linker.
From S2P Require Import Sharing.

(** ** [store/filesystem/paths.rs], [store/metadata.rs] *)
Definition sanitize_name : string -> string := replace_char "/" "_".

Definition package_dir (packages_dir : string) (id : PackageId) : string :=
  path_push (path_push packages_dir (sanitize_name (id_name id))) (id_version id).

Record PackageFilesystemShape := { directories : list string; shape_files : list string }.
Definition shape_default : PackageFilesystemShape := {| directories := []; shape_files := [] |}.
Definition shape_is_empty (self : PackageFilesystemShape) : bool :=
  match directories self, shape_files self with [], [] => true | _, _ => false end.

Record PackageStoreMetadata := {
  pm_root_relative_path : option string;
  pm_name : option string;
  pm_version : option string;
  pm_bundled_dependencies : option BundledDependencies;
  pm_has_bin : bool;
  pm_bin : option BinField;
  pm_filesystem : PackageFilesystemShape;
}.
Definition metadata_default : PackageStoreMetadata := {|
  pm_root_relative_path := None; pm_name := None; pm_version := None; pm_bundled_dependencies := None;
  pm_has_bin := false; pm_bin := None; pm_filesystem := shape_default |}.

Record ManifestFacts := {
  mf_name : option string;
  mf_version : option string;
  mf_bin : option BinField;
  mf_bundled_dependencies : option BundledDependencies;
  mf_bundle_dependencies : option BundledDependencies;
}.

(** [serde_json] at the two types that are read and the one that is written. *)
Class MetadataJson := {
  metadata_from_str : string -> option PackageStoreMetadata;
  metadata_to_vec : PackageStoreMetadata -> result string string;
  facts_from_str : string -> option ManifestFacts;
}.

Definition invalid_root_component (component : Component) : bool :=
  match component with ParentDir | RootDir => true | _ => false end.

(** [is_valid_relative_path] *)
Definition is_valid_relative_path (path : string) : bool :=
  negb (is_absolute path) && negb (existsb invalid_root_component (components path)).

(** [PackageStoreMetadata::resolve_root] *)
Definition metadata_resolve_root (self : PackageStoreMetadata) (package_dir : string) : option string :=
  relative ← pm_root_relative_path self;
  if is_empty relative || (relative == ".") then Some package_dir
  else if is_absolute relative || existsb invalid_root_component (components relative) then None
  else Some (path_push package_dir relative).

Section metadata.
Context `{MetadataJson} (fs : FileSystem).

(** The cache of parsed files, which lives as long as the process and relies on
    the store's files not changing, is left out. *)
Definition read_package_metadata_lossy (package_root : string) : option PackageStoreMetadata :=
  data ← result_ok (read_to_string fs (path_push package_root PACKAGE_METADATA_FILE));
  metadata_from_str data.

Definition read_package_filesystem_shape_lossy (package_root : string) : option PackageFilesystemShape :=
  metadata ← read_package_metadata_lossy package_root;
  if shape_is_empty (pm_filesystem metadata) then None else Some (pm_filesystem metadata).

(** The only directory next to the marker, when it holds a manifest. *)
Definition single_directory (pkg_dir : string) : option string :=
  entries ← result_ok (read_dir fs pkg_dir);
  let dirs := filter (fun path => is_dir fs path = true /\ file_name path <> None /\ file_name path <> Some ".snpm_complete")
                ((fun e => path_push pkg_dir e.1) <$> entries) in
  match dirs with
  | [dir] => if is_file fs (path_push dir "package.json") then Some dir else None
  | _ => None
  end.

Definition package_root_dir (pkg_dir : string) : string :=
  let fallback :=
    let candidate := path_push pkg_dir "package" in
    if is_dir fs candidate then candidate else default pkg_dir (single_directory pkg_dir) in
  match read_package_metadata_lossy pkg_dir with
  | None => fallback
  | Some metadata =>
      match metadata_resolve_root metadata pkg_dir with
      | Some root => if is_dir fs root then root else fallback
      | None => match pm_root_relative_path metadata with None => pkg_dir | Some _ => fallback end
      end
  end.

(** ** Writing the metadata *)
Definition collect_manifest_facts (package_root : string) : PackageStoreMetadata :=
  let manifest_path := path_push package_root "package.json" in
  if negb (is_file fs manifest_path) then metadata_default else
  match read_to_string fs manifest_path with
  | Err _ => metadata_default
  | Ok data =>
      match facts_from_str data with
      | None => metadata_default
      | Some manifest => {|
          pm_root_relative_path := None;
          pm_name := mf_name manifest;
          pm_version := mf_version manifest;
          pm_bundled_dependencies :=
            match mf_bundled_dependencies manifest with
            | Some bundled => Some bundled
            | None => mf_bundle_dependencies manifest
            end;
          pm_has_bin := bool_decide (is_Some (mf_bin manifest));
          pm_bin := mf_bin manifest;
          pm_filesystem := shape_default |}
      end
  end.

Definition root_relative_path (package_dir package_root : string) : option string :=
  relative ← path_strip_prefix package_root package_dir;
  if is_empty relative then None else Some relative.
End metadata.

(** ** [store/cache_index.rs] *)
Definition STORE_RESIDENCY_INDEX_VERSION : N := 1.

Record StoreResidencyEntry := { root_relative : option string }.
Record StoreResidencyIndex := {
  ri_version : N;
  ri_packages : gmap PackageId StoreResidencyEntry;
}.
Global Instance StoreResidencyEntry_eq_dec : EqDecision StoreResidencyEntry.
Proof. solve_decision. Defined.
Global Instance StoreResidencyIndex_eq_dec : EqDecision StoreResidencyIndex.
Proof. solve_decision. Defined.
Definition residency_default : StoreResidencyIndex :=
  {| ri_version := STORE_RESIDENCY_INDEX_VERSION; ri_packages := ∅ |}.

(** [StoreResidencyIndexView::resolve_root] *)
Definition resolve_root (self : gmap PackageId StoreResidencyEntry) (packages_dir : string) (id : PackageId)
  : option string :=
  let package_dir := package_dir packages_dir id in
  entry ← self !! id;
  match root_relative entry with
  | None => Some package_dir
  | Some relative =>
      if is_empty relative then Some package_dir
      else if is_valid_relative_path relative then Some (path_push package_dir relative)
      else None
  end.

Definition entry_for_root (packages_dir : string) (id : PackageId) (root : string) : option StoreResidencyEntry :=
  relative ← path_strip_prefix root (package_dir packages_dir id);
  if is_empty relative then Some {| root_relative := None |}
  else if is_valid_relative_path relative then Some {| root_relative := Some relative |}
  else None.

Section index.
Context `{Bincode StoreResidencyIndex} (fs : FileSystem).

Definition load_store_residency_index_lossy (config : SnpmConfig)
  : option (gmap PackageId StoreResidencyEntry) :=
  bytes ← result_ok (fs_bytes fs (store_residency_index_path config));
  index ← result_ok (unbincode bytes);
  if (ri_version index =? STORE_RESIDENCY_INDEX_VERSION)%N then Some (ri_packages index) else None.

Definition add_resident (packages_dir : string) (packages : gmap PackageId StoreResidencyEntry)
    (e : PackageId * string) : gmap PackageId StoreResidencyEntry :=
  match entry_for_root packages_dir e.1 e.2 with
  | Some entry => <[e.1 := entry]> packages
  | None => packages
  end.

(** The index with the new packages. *)
Definition updated_index (config : SnpmConfig) (store_paths : gmap PackageId string) : StoreResidencyIndex :=
  {| ri_version := STORE_RESIDENCY_INDEX_VERSION;
     ri_packages := foldl (add_resident (packages_dir config))
       (default ∅ (load_store_residency_index_lossy config)) (btree_iter store_paths) |}.

(** What is written, and where; nothing without packages. *)
Definition persist_store_residency_index (config : SnpmConfig) (store_paths : gmap PackageId string)
  : Result (option (string * string)) :=
  if decide (store_paths = ∅) then Ok None else
  let path := store_residency_index_path config in
  _ ← ok_or (Internal ("store residency index path has no parent: " +:+ path)) (parent path);
  data ← map_err (SerializeJson path) (bincode (updated_index config store_paths));
  Ok (Some (path, data)).
End index.

(** ** [operations/install/utils/store/cache.rs] *)
Record CacheCheckResult := {
  cached : gmap PackageId string;
  missing : list ResolvedPackage;
}.

Section cache.
Context `{MetadataJson} `{Bincode StoreResidencyIndex} (fs : FileSystem).

Definition cached_root_ready (root : string) : bool :=
  is_dir fs root && (is_file fs (path_push root PACKAGE_METADATA_FILE) || is_file fs (path_push root "package.json")).

Definition cache_lookup (base : string) (store_index : option (gmap PackageId StoreResidencyEntry))
    (package : ResolvedPackage) : option (PackageId * string) * option ResolvedPackage :=
  let package_directory := package_dir base (r_id package) in
  let marker := path_push package_directory ".snpm_complete" in
  if is_file fs marker then
    match index ← store_index; resolve_root index base (r_id package) with
    | Some root => if cached_root_ready root then (Some (r_id package, root), None)
                   else (Some (r_id package, package_root_dir fs package_directory), None)
    | None => (Some (r_id package, package_root_dir fs package_directory), None)
    end
  else (None, Some package).

Definition add_lookup (acc : CacheCheckResult) (result : option (PackageId * string) * option ResolvedPackage)
  : CacheCheckResult := {|
  cached := match result.1 with Some (id, path) => <[id := path]> (cached acc) | None => cached acc end;
  missing := missing acc ++ option_list result.2;
|}.

Definition check_store_cache (config : SnpmConfig) (graph : ResolutionGraph) : CacheCheckResult :=
  let base := packages_dir config in
  let store_index := load_store_residency_index_lossy fs config in
  foldl add_lookup {| cached := ∅; missing := [] |}
    (cache_lookup base store_index <$> btree_values (g_packages graph)).
End cache.

(** ** Relative paths stay below *)
Lemma components_join p ws :
  is_empty p = false -> ws <> [] -> Forall (fun w => contains_char "/" w = false) ws ->
  components (p +:+ String "/" (join "/" ws)) = components p ++ omap component_of ws.
Proof.
  intros Hp. induction ws as [|w ws IH] using rev_ind; [done|]. intros _ [Hws [Hw _]%Forall_cons]%Forall_app.
  rewrite omap_app. assert (omap component_of [w] = option_list (component_of w)) as Hone
    by (cbn; by destruct (component_of w)).
  destruct (decide (ws = [])) as [->|Hne].
  { cbn [app join]. rewrite components_snoc by done. by rewrite Hone. }
  rewrite join_snoc by done.
  assert (p +:+ String "/" (join "/" ws +:+ "/" +:+ w) = (p +:+ String "/" (join "/" ws)) +:+ String "/" w) as ->.
  { rewrite <-app_assoc_s. by rewrite app_cons_s. }
  rewrite components_snoc by (done || by destruct p). rewrite IH by done. by rewrite Hone, (assoc_L app).
Qed.

Lemma components_push_relative p r :
  is_empty p = false -> is_absolute r = false ->
  components (path_push p r) = components p ++ omap component_of (split_char "/" r).
Proof.
  intros Hp Hr. unfold path_push. rewrite Hr, Hp. cbn [orb].
  assert (Hws : Forall (fun w => contains_char "/" w = false) (split_char "/" r)).
  { apply Forall_forall. intros w. apply split_char_pieces. }
  assert (Hne : split_char "/" r <> []) by apply split_by_ne.
  assert (Hj : join "/" (split_char "/" r) = r) by apply (join_split_char "/").
  assert (Hjoin : forall q, is_empty q = false ->
    components (q +:+ String "/" r) = components q ++ omap component_of (split_char "/" r)).
  { intros q Hq. transitivity (components (q +:+ String "/" (join "/" (split_char "/" r)))); [by rewrite Hj|].
    by apply components_join. }
  destruct (ends_with "/" p) eqn:Hend.
  - apply ends_with_spec in Hend as [q ->]. rewrite <-app_assoc_s.
    change ("/" +:+ r) with (String "/" r). change (q +:+ "/") with (q +:+ String "/" ε).
    destruct (is_empty q) eqn:Hq.
    + destruct q; [|done]. rewrite !app_nil_l_s. unfold components.
      assert (split_char "/" (String "/" r) = ε :: split_char "/" r) as ->.
      { transitivity (split_char "/" (join "/" (ε :: split_char "/" r))).
        - rewrite join_cons_app, Hj by done. done.
        - apply (split_char_join "/"); [done|by constructor]. }
      assert (is_absolute (String "/" r) = true) as ->.
      { unfold is_absolute. change "/" with (chr "/"). by rewrite starts_with_chr_cons. }
      done.
    + rewrite Hjoin by done. rewrite components_snoc by done. cbn. by rewrite app_nil_r.
  - change (p +:+ "/" +:+ r) with (p +:+ String "/" r). by apply Hjoin.
Qed.

(** [q] names something in the directory [p], or the directory itself. *)
Definition inside (p q : string) : Prop := exists names, components q = components p ++ (Normal <$> names).

Lemma inside_refl p : inside p p.
Proof. exists []. cbn. by rewrite app_nil_r. Qed.

Lemma inside_push p r :
  is_empty p = false -> is_absolute r = false -> existsb invalid_root_component (components r) = false ->
  inside p (path_push p r).
Proof.
  intros Hp Ha Hc. unfold inside. rewrite components_push_relative by done.
  assert (Hall : Forall (fun c => exists n, c = Normal n) (omap component_of (split_char "/" r))).
  { apply Forall_forall. intros c Hin. rewrite existsb_false in Hc. assert (Hcr : c ∈ components r) by (unfold components; apply elem_of_app; by right).
    apply list_elem_of_omap in Hin as (w & _ & Hw). specialize (Hc c Hcr).
    destruct c as [| | |n]; [done| |done|by exists n].
    unfold component_of in Hw. by repeat case_match. }
  revert Hall. generalize (omap component_of (split_char "/" r)). intros l Hall.
  induction Hall as [|c l [n ->] _ (names & IH)]; [by exists []|].
  apply app_inv_head in IH. exists (n :: names). by rewrite IH.
Qed.

Lemma package_dir_ne packages_dir id :
  is_empty packages_dir = false -> is_absolute (id_version id) = false ->
  is_empty (package_dir packages_dir id) = false.
Proof.
  intros Hp Hv. unfold package_dir, path_push. rewrite Hv. repeat case_match; bool_prop.
  all: destruct packages_dir, (sanitize_name (id_name id)); done.
Qed.

(** ** Packages that are resident *)
Lemma resolve_root_inside index packages_dir id root :
  is_empty packages_dir = false -> is_absolute (id_version id) = false ->
  resolve_root index packages_dir id = Some root -> inside (package_dir packages_dir id) root.
Proof.
  intros Hp Hv. unfold resolve_root. destruct (index !! id) as [[relative]|]; [|done]. cbn.
  destruct relative as [relative|]; [|intros [= <-]; apply inside_refl].
  destruct (is_empty relative); [intros [= <-]; apply inside_refl|].
  unfold is_valid_relative_path. destruct (is_absolute relative) eqn:Ha; [done|].
  destruct (existsb _ _) eqn:Hc; [done|]. cbn. intros [= <-]. apply inside_push; [by apply package_dir_ne|done|done].
Qed.

Lemma metadata_resolve_root_inside metadata dir root :
  is_empty dir = false -> metadata_resolve_root metadata dir = Some root -> inside dir root.
Proof.
  intros Hp. unfold metadata_resolve_root. destruct (pm_root_relative_path metadata) as [relative|]; [|done]. cbn.
  destruct (is_empty relative || (relative == ".")); [intros [= <-]; apply inside_refl|].
  destruct (is_absolute relative) eqn:Ha; [done|]. cbn [orb]. destruct (existsb _ _) eqn:Hc; [done|].
  intros [= <-]. by apply inside_push.
Qed.

Section resident.
Context `{MetadataJson} `{Bincode StoreResidencyIndex} (fs : FileSystem).

(** The names [read_dir] gives are names. *)
Definition entries_ok : Prop :=
  forall dir entries e, read_dir fs dir = Ok entries -> e ∈ entries -> name_ok e.1 = true.

Lemma inside_push_name p n : name_ok n = true -> inside p (path_push p n).
Proof. intros Hn. exists [n]. by apply components_push. Qed.

Lemma package_root_dir_inside dir :
  entries_ok -> is_empty dir = false -> inside dir (package_root_dir fs dir).
Proof.
  intros Hentries Hdir.
  assert (Hfallback : inside dir (if is_dir fs (path_push dir "package") then path_push dir "package"
    else default dir (single_directory fs dir))).
  { case_match; [by apply inside_push_name|]. unfold single_directory.
    destruct (read_dir fs dir) as [entries|] eqn:Hr; [|apply inside_refl]. cbn.
    destruct (filter _ _) as [|d [|]] eqn:Hf; [apply inside_refl| |apply inside_refl].
    case_match; [|apply inside_refl]. cbn.
    assert (Hd : d ∈ [d]) by by left. rewrite <-Hf in Hd. apply list_elem_of_filter in Hd as [_ Hd].
    apply list_elem_of_fmap in Hd as (e & -> & He). by eapply inside_push_name, Hentries. }
  unfold package_root_dir. destruct (read_package_metadata_lossy fs dir) as [metadata|]; [|done].
  destruct (metadata_resolve_root metadata dir) as [root|] eqn:Hroot.
  - destruct (is_dir fs root); [by eapply metadata_resolve_root_inside|exact Hfallback].
  - destruct (pm_root_relative_path metadata); [exact Hfallback|apply inside_refl].
Qed.

(** The directory of a package is there, marked as complete. *)
Definition complete (config : SnpmConfig) (id : PackageId) : bool :=
  is_file fs (path_push (package_dir (packages_dir config) id) ".snpm_complete").

Lemma cache_lookup_spec config index package :
  entries_ok -> is_empty (packages_dir config) = false -> is_absolute (id_version (r_id package)) = false ->
  if complete config (r_id package)
  then exists root, cache_lookup fs (packages_dir config) index package = (Some (r_id package, root), None) /\
       inside (package_dir (packages_dir config) (r_id package)) root
  else cache_lookup fs (packages_dir config) index package = (None, Some package).
Proof.
  intros He Hp Hv. unfold complete, cache_lookup. destruct (is_file fs _); [|done].
  assert (Hroot : inside (package_dir (packages_dir config) (r_id package))
    (package_root_dir fs (package_dir (packages_dir config) (r_id package)))).
  { apply package_root_dir_inside; [done|]. by apply package_dir_ne. }
  destruct index as [index|]; cbn; [|by eexists].
  destruct (resolve_root index _ _) as [root|] eqn:Hr; [|by eexists].
  case_match; [|by eexists]. eexists. split; [done|]. by eapply resolve_root_inside.
Qed.

Lemma add_lookups_spec config index l acc :
  entries_ok -> is_empty (packages_dir config) = false ->
  (forall package, package ∈ l -> is_absolute (id_version (r_id package)) = false) ->
  let result := foldl add_lookup acc (cache_lookup fs (packages_dir config) index <$> l) in
  missing result = missing acc ++ filter (fun package => complete config (r_id package) = false) l /\
  forall id, match cached result !! id with
             | Some root => cached acc !! id = Some root \/
                 complete config id = true /\ inside (package_dir (packages_dir config) id) root /\
                 exists package, package ∈ l /\ r_id package = id
             | None => cached acc !! id = None /\
                 forall package, package ∈ l -> r_id package = id -> complete config id = false
             end.
Proof.
  intros He Hp. revert acc. induction l as [|package l IH]; intros acc Hv; cbn [fmap list_fmap map foldl].
  { split; [cbn; by rewrite app_nil_r|]. intros id. destruct (cached acc !! id); [by left|].
    split; [done|]. by intros ? []%not_elem_of_nil. }
  pose proof (cache_lookup_spec config index package He Hp (Hv package ltac:(by left))) as Hlookup.
  specialize (IH (add_lookup acc (cache_lookup fs (packages_dir config) index package))
    ltac:(intros; apply Hv; by right)). cbn zeta in IH. destruct IH as [IHm IHc]. split.
  - change (map (cache_lookup fs (packages_dir config) index) l) with (cache_lookup fs (packages_dir config) index <$> l).
    rewrite IHm. destruct (complete config (r_id package)) eqn:Hc.
    + destruct Hlookup as (root & -> & _). rewrite filter_cons_False by congruence. cbn. by rewrite app_nil_r.
    + rewrite Hlookup, filter_cons_True by done. cbn. by rewrite <-(assoc_L app).
  - intros id. specialize (IHc id).
    change (map (cache_lookup fs (packages_dir config) index) l) with (cache_lookup fs (packages_dir config) index <$> l).
    destruct (cached (foldl _ _ _) !! id) as [root|].
    + destruct IHc as [Hacc|(? & ? & p & ? & ?)]; [|right; split_and!; [done|done|exists p; split; [by right|done]]].
      destruct (complete config (r_id package)) eqn:Hc; [|rewrite Hlookup in Hacc; by left].
      destruct Hlookup as (root' & Heq & Hin). rewrite Heq in Hacc. cbn in Hacc.
      apply lookup_insert_Some in Hacc as [[<- <-]|[_ ?]]; [|by left]. right. split_and!; [done|done|].
      exists package. split; [by left|done].
    + destruct IHc as [Hacc Hall]. destruct (complete config (r_id package)) eqn:Hc.
      * destruct Hlookup as (root' & Heq & Hin). rewrite Heq in Hacc. cbn in Hacc.
        apply lookup_insert_None in Hacc as [? Hne]. split; [done|].
        intros p [->|Hp']%elem_of_cons Hid; [congruence|by eapply Hall].
      * rewrite Hlookup in Hacc. split; [done|]. intros p [->|Hp']%elem_of_cons Hid; [congruence|by eapply Hall].
Qed.
End resident.

(** What an installation still has to download: exactly the packages whose
    directory is not marked as complete, in the order of the graph.  Every other
    package is found, at a place inside its own directory of the store, whatever
    the index of resident packages and the metadata next to the packages say. *)
Theorem check_store_cache_spec `{MetadataJson} `{Bincode StoreResidencyIndex} (fs : FileSystem) config graph :
  entries_ok fs -> is_empty (packages_dir config) = false ->
  (forall id package, g_packages graph !! id = Some package ->
     r_id package = id /\ is_absolute (id_version id) = false) ->
  let result := check_store_cache fs config graph in
  missing result = filter (fun package => complete fs config (r_id package) = false) (btree_values (g_packages graph)) /\
  forall id, is_Some (g_packages graph !! id) ->
    if complete fs config id
    then exists root, cached result !! id = Some root /\ inside (package_dir (packages_dir config) id) root
    else cached result !! id = None.
Proof.
  intros He Hp Hids. unfold check_store_cache.
  destruct (add_lookups_spec fs config (load_store_residency_index_lossy fs config) (btree_values (g_packages graph))
    {| cached := ∅; missing := [] |} He Hp) as [Hm Hc].
  { intros package (id & Hid)%elem_of_btree_values. apply Hids in Hid as [-> ?]. done. }
  split; [exact Hm|]. intros id [package Hid]. specialize (Hc id). cbn [cached] in Hc.
  assert (Hin : package ∈ btree_values (g_packages graph)) by (apply elem_of_btree_values; by exists id).
  destruct (Hids id package Hid) as [Heq _].
  destruct (cached _ !! id) as [root|].
  - destruct Hc as [Hc|(-> & ? & _)]; [by rewrite lookup_empty in Hc|by exists root].
  - destruct Hc as [_ Hc]. by rewrite (Hc package Hin Heq).
Qed.

(** ** The index comes back *)

(** The index knows a root that it was told about, as the same path. *)
Lemma entry_for_root_resolve packages id rest base entry index :
  Forall (fun n => name_ok n = true) (base ++ rest) ->
  package_dir packages id = abs_path base ->
  entry_for_root packages id (abs_path (base ++ rest)) = Some entry ->
  index !! id = Some entry ->
  resolve_root index packages id = Some (abs_path (base ++ rest)).
Proof.
  intros Hok Hdir. apply Forall_app in Hok as [Hb Hr]. unfold entry_for_root, resolve_root. rewrite Hdir.
  rewrite path_strip_prefix_abs by done. cbn [mbind option_bind].
  destruct rest as [|r rest].
  { cbn. intros [= <-] ->. cbn. by rewrite app_nil_r. }
  assert (Hpush : path_push (abs_path base) (join "/" (r :: rest)) = abs_path (base ++ r :: rest))
    by by apply path_push_abs_join.
  assert (He : is_empty (join "/" (r :: rest)) = false).
  { apply Forall_cons in Hr as [Hr _]. pose proof (name_ok_spec r Hr) as (_ & Hre & _).
    rewrite join_cons. destruct r; [done|]. by destruct rest. }
  revert Hpush He. generalize (join "/" (r :: rest)). intros relative Hpush He. rewrite He.
  destruct (is_valid_relative_path relative) eqn:Hv; [|done]. intros [= <-] ->.
  cbn [mbind option_bind root_relative]. by rewrite He, Hv, Hpush.
Qed.

Section index_roundtrip.
Context `{BincodeLaws StoreResidencyIndex}.

Lemma add_resident_lookup dir l packages id :
  NoDup l.*1 ->
  foldl (add_resident dir) packages l !! id =
  match (list_to_map l : gmap PackageId string) !! id with
  | Some root => match entry_for_root dir id root with Some entry => Some entry | None => packages !! id end
  | None => packages !! id
  end.
Proof.
  revert packages. induction l as [|[i root] l IH]; intros packages Hnd; [done|].
  rewrite fmap_cons in Hnd. apply NoDup_cons in Hnd as [Hi Hnd]. cbn [foldl list_to_map]. rewrite IH by done.
  unfold add_resident at 1 2. cbn. destruct (decide (i = id)) as [->|Hne].
  - rewrite lookup_insert_eq. rewrite (not_elem_of_list_to_map_1 l id) by done.
    destruct (entry_for_root dir id root); [apply lookup_insert_eq|done].
  - rewrite lookup_insert_ne by done. destruct (entry_for_root dir i root) as [entry|]; [|done].
    by rewrite lookup_insert_ne by done.
Qed.

(** The index of resident packages that is written is the one that is read
    back, and it adds what was installed to what it held: a package installed at
    a root below its directory is found there, and a package that was not
    installed keeps its entry. *)
Theorem residency_index_roundtrip (fs fs' : FileSystem) config store_paths path data id :
  persist_store_residency_index fs config store_paths = Ok (Some (path, data)) ->
  fs_bytes fs' path = Ok data ->
  exists index, load_store_residency_index_lossy fs' config = Some index /\
    (store_paths !! id = None ->
       index !! id = default ∅ (load_store_residency_index_lossy fs config) !! id) /\
    forall base rest entry, store_paths !! id = Some (abs_path (base ++ rest)) ->
      Forall (fun n => name_ok n = true) (base ++ rest) -> package_dir (packages_dir config) id = abs_path base ->
      entry_for_root (packages_dir config) id (abs_path (base ++ rest)) = Some entry ->
      resolve_root index (packages_dir config) id = Some (abs_path (base ++ rest)).
Proof.
  unfold persist_store_residency_index. case_decide; [done|].
  intros (_ & _ & (bytes & Hb & [= <- <-])%result_bind_Ok)%result_bind_Ok Hd.
  destruct (bincode _) as [data'|] eqn:Hbin; [|done]. injection Hb as ->.
  exists (ri_packages (updated_index fs config store_paths)).
  assert (Hlookup : ri_packages (updated_index fs config store_paths) !! id =
    match store_paths !! id with
    | Some root => match entry_for_root (packages_dir config) id root with
                   | Some entry => Some entry
                   | None => default ∅ (load_store_residency_index_lossy fs config) !! id
                   end
    | None => default ∅ (load_store_residency_index_lossy fs config) !! id
    end).
  { cbn [updated_index ri_packages]. rewrite add_resident_lookup by apply NoDup_btree_keys.
    by rewrite list_to_map_btree_iter. }
  split_and!.
  - unfold load_store_residency_index_lossy. rewrite Hd. cbn [result_ok mbind option_bind].
    by rewrite (unbincode_bincode _ _ Hbin).
  - intros Hnone. by rewrite Hlookup, Hnone.
  - intros base rest entry Hroot Hok Hdir Hentry. eapply entry_for_root_resolve; [done|done|exact Hentry|].
    by rewrite Hlookup, Hroot, Hentry.
Qed.
End index_roundtrip.

(** ** Names that share a directory

    The separator of a scope becomes an underscore, which names may contain. *)
Lemma package_dirs_collide packages_dir version :
  package_dir packages_dir {| id_name := "@a/b_c"; id_version := version |} =
  package_dir packages_dir {| id_name := "@a_b/c"; id_version := version |}.
Proof. reflexivity. Qed.

(** ** Witness *)
Module ResidencyDemo.
Definition react : PackageId := {| id_name := "react"; id_version := "18.2.0" |}.
Definition loose : PackageId := {| id_name := "loose"; id_version := "1.4.0" |}.

(** [react] is resident; [loose] is added. *)
Definition before : StoreResidencyIndex :=
  {| ri_version := 1; ri_packages := {[react := {| root_relative := None |}]} |}.
Definition after : StoreResidencyIndex :=
  {| ri_version := 1; ri_packages := {[loose := {| root_relative := Some "package" |}; react := {| root_relative := None |}]} |}.
#[local] Instance two_indexes : Bincode StoreResidencyIndex := {|
  bincode s := if decide (s = before) then Ok "before" else if decide (s = after) then Ok "after" else Err "unsupported";
  unbincode b := if b == "before" then Ok before else if b == "after" then Ok after else Err "unsupported" |}.
#[local] Instance two_indexes_laws : BincodeLaws StoreResidencyIndex.
Proof.
  split. intros a data. unfold bincode, unbincode, two_indexes.
  case_decide as Ha; [intros [= <-]; by rewrite Ha|]. case_decide as Hb; [|done]. intros [= <-]. by rewrite Hb.
Qed.

Definition fs (bytes : string) : FileSystem := {|
  fs_lstat _ := Err "unused"; fs_stat _ := Err "unused"; fs_read_link _ := Err "unused"; fs_entries _ := Err "unused";
  fs_bytes p := if p == "/tmp/data/metadata/store-residency-v1.bin" then Ok bytes else Err "no such file" |}.

Definition installed : gmap PackageId string := {[loose := "/tmp/data/packages/loose/1.4.0/package"]}.

Lemma residency_index_roundtrip_witness :
  exists index, load_store_residency_index_lossy (fs "after") config_for_tests = Some index /\
    resolve_root index (packages_dir config_for_tests) loose = Some "/tmp/data/packages/loose/1.4.0/package".
Proof.
  destruct (residency_index_roundtrip (fs "before") (fs "after") config_for_tests installed
    "/tmp/data/metadata/store-residency-v1.bin" "after" loose) as (index & Hload & _ & Hroot); [vm_refl|vm_refl|].
  exists index. split; [exact Hload|].
  apply (Hroot ["tmp"; "data"; "packages"; "loose"; "1.4.0"] ["package"] {| root_relative := Some "package" |});
    [vm_refl| |vm_refl|vm_refl].
  repeat (apply Forall_cons; split; [vm_refl|]). constructor.
Defined.
End ResidencyDemo.
