(* ===== verification/Discovery.v ===== *)
(** * Projects and workspaces on disk

    [project/io.rs], [workspace/discovery/] and the files of [workspace/types.rs]:
    the manifest above a directory, the workspace above a directory, its
    configuration from four files, its members, and the overrides a manifest
    declares ([operations/install/overrides.rs]).

    What serde makes of the text of a file, and the [glob] crate, are interfaces. *)
From S2P Require Import Prelude.
From S2P Require Import BTree.
From S2P Require Import Text.
From S2P Require Import Errors.
From S2P Require Import Types.
From S2P Require Import Paths.
From S2P Require Import Crates.
From S2P Require Import Roots.

(** [serde_json::from_str] and [serde_yaml::from_str] at the types of the files *)
Class ConfigFiles := {
  parse_manifest : string -> result string Manifest;
  (** [PartialManifest]: the field [workspaces] of a manifest *)
  parse_workspaces : string -> result string (option WorkspacesField);
  parse_workspace_config : string -> result string WorkspaceConfigFile;
  parse_catalog_config : string -> result string CatalogConfig;
  (** [YarnRcCatalogConfig], whose fields are those of [CatalogConfig] *)
  parse_yarnrc : string -> result string CatalogConfig;
  (** [OverridesConfig]: the field [overrides] *)
  parse_overrides_config : string -> result string (gmap string string);
}.

(** [glob::glob(pattern)]: the entries in the order of the walk, or the error of
    a malformed pattern; [Pattern::new]'s error. *)
Class GlobEntries := {
  glob_entries : string -> result string (list (result string string));
  glob_new_error : string -> string;
}.

(** ** [project/io.rs] *)
Section discovery.
Context `{ConfigFiles} `{GlobCrate} `{GlobEntries} (tree : FileTree).

Definition from_manifest_path (path : string) : Result Project :=
  data ← map_err (ReadFile path) (read_to_string tree path);
  manifest ← map_err (ParseJson path) (parse_manifest data);
  root ← ok_or (ManifestInvalid path "manifest has no parent directory") (parent path);
  Ok {| p_root := root; p_manifest_path := path; p_manifest := manifest |}.

Fixpoint discover_in (start : string) (dirs : list string) : Result Project :=
  match dirs with
  | [] => Err (ManifestMissing start)
  | dir :: dirs =>
      let candidate := path_push dir "package.json" in
      if is_file tree candidate then from_manifest_path candidate else discover_in start dirs
  end.
Definition discover (start : string) : Result Project := discover_in start (ancestors start).

(** ** Files of a workspace's root ([workspace/types.rs], [discovery/config.rs],
    [discovery/package_json.rs]) *)
Definition load_yaml {A} (parse : string -> result string A) (path : string) : Result (option A) :=
  if negb (is_file tree path) then Ok None else
  data ← map_err (ReadFile path) (read_to_string tree path);
  config ← map_err (WorkspaceConfig path) (parse data);
  Ok (Some config).

Definition load_catalog_config (root : string) : Result (option CatalogConfig) :=
  load_yaml parse_catalog_config (path_push root "snpm-catalog.yaml").
Definition load_overrides_config (root : string) : Result (option (gmap string string)) :=
  load_yaml parse_overrides_config (path_push root "snpm-overrides.yaml").

Definition empty_workspace_config : WorkspaceConfigFile := {|
  wc_packages := []; wc_catalog := ∅; wc_catalogs := ∅; wc_only_built_dependencies := [];
  wc_ignored_built_dependencies := []; wc_disable_global_virtual_store_for_packages := None;
  wc_hoisting := None |}.

Definition read_config (path : string) : Result WorkspaceConfigFile :=
  data ← map_err (ReadFile path) (read_to_string tree path);
  map_err (WorkspaceConfig path) (parse_workspace_config data).

Definition read_package_json_workspaces (path : string) : Result (option WorkspacesField) :=
  data ← map_err (ReadFile path) (read_to_string tree path);
  map_err (ParseJson path) (parse_workspaces data).

(** [entry(name).or_insert(range)] for every entry *)
Definition or_insert_all (target entries : gmap string string) : gmap string string :=
  foldl (fun m e => match m !! e.1 with Some _ => m | None => <[e.1 := e.2]> m end)
    target (btree_iter entries).

Definition set_catalogs (config : WorkspaceConfigFile) (catalog : gmap string string)
    (catalogs : gmap string (gmap string string)) : WorkspaceConfigFile := {|
  wc_packages := wc_packages config; wc_catalog := catalog; wc_catalogs := catalogs;
  wc_only_built_dependencies := wc_only_built_dependencies config;
  wc_ignored_built_dependencies := wc_ignored_built_dependencies config;
  wc_disable_global_virtual_store_for_packages := wc_disable_global_virtual_store_for_packages config;
  wc_hoisting := wc_hoisting config |}.

Definition merge_catalog_entries (config : WorkspaceConfigFile) (catalog : gmap string string)
    (catalogs : gmap string (gmap string string)) : WorkspaceConfigFile :=
  set_catalogs config (or_insert_all (wc_catalog config) catalog)
    (foldl (fun m e => <[e.1 := or_insert_all (default ∅ (m !! e.1)) e.2]> m)
       (wc_catalogs config) (btree_iter catalogs)).

Definition merge_file_catalog (file : option CatalogConfig) (config : WorkspaceConfigFile)
  : WorkspaceConfigFile :=
  match file with
  | Some file => merge_catalog_entries config (cc_catalog file) (cc_catalogs file)
  | None => config
  end.

Definition merge_snpm_catalog (root : string) (config : WorkspaceConfigFile) : Result WorkspaceConfigFile :=
  file ← load_catalog_config root; Ok (merge_file_catalog file config).

Definition merge_yarn_catalog (root : string) (config : WorkspaceConfigFile) : Result WorkspaceConfigFile :=
  file ← load_yaml parse_yarnrc (path_push root ".yarnrc.yml"); Ok (merge_file_catalog file config).

(** ** The members ([discovery/projects.rs]) *)
Definition build_exclusion_patterns (root : string) (packages : list string)
  : Result (list glob_pattern) :=
  try_fold (fun exclusions pattern =>
    match strip_prefix "!" pattern with
    | None => Ok exclusions
    | Some exclusion =>
        let absolute := path_push root exclusion in
        compiled ← ok_or (WorkspaceConfig root (glob_new_error absolute)) (glob_new absolute);
        Ok (exclusions ++ [compiled])
    end) [] packages.

Definition is_excluded (path : string) (exclusions : list glob_pattern) : bool :=
  existsb (fun pattern => glob_matches pattern path) exclusions.

(** The projects so far, and the manifests they come from, as paths. *)
Notation Loaded := (list Project * gset (list (nat * string)))%type.

Definition push_project (manifest_path : string) (st : Loaded) : Result Loaded :=
  let '(projects, seen_manifests) := st in
  if decide (path_key manifest_path ∈ seen_manifests) then Ok st else
  project ← from_manifest_path manifest_path;
  Ok (projects ++ [project], {[path_key manifest_path]} ∪ seen_manifests).

Definition load_entry (root : string) (exclusions : list glob_pattern) (st : Loaded)
    (entry : result string string) : Result Loaded :=
  path ← map_err (WorkspaceConfig root) entry;
  let manifest_path := path_push path "package.json" in
  if is_dir tree path && negb (is_excluded path exclusions) && is_file tree manifest_path
  then push_project manifest_path st else Ok st.

Definition load_pattern (root : string) (exclusions : list glob_pattern) (st : Loaded) (pattern : string)
  : Result Loaded :=
  entries ← map_err (WorkspaceConfig root) (glob_entries (path_push root pattern));
  try_fold (load_entry root exclusions) st entries.

Definition load_projects (root : string) (config : WorkspaceConfigFile) (include_root_project : bool)
  : Result (list Project) :=
  exclusions ← build_exclusion_patterns root (wc_packages config);
  let root_manifest := path_push root "package.json" in
  st ← (if include_root_project && is_file tree root_manifest
        then push_project root_manifest ([], ∅) else Ok ([], ∅));
  st ← try_fold (load_pattern root exclusions) st
         (filter (fun pattern => starts_with "!" pattern = false) (wc_packages config));
  Ok st.1.

(** ** [discovery/mod.rs] *)
Definition workspace_yaml_path (dir : string) : option string :=
  let snpm_path := path_push dir "snpm-workspace.yaml" in
  let pnpm_path := path_push dir "pnpm-workspace.yaml" in
  if is_file tree snpm_path then Some snpm_path
  else if is_file tree pnpm_path then Some pnpm_path else None.

Definition merge_package_patterns (config : WorkspaceConfigFile) (patterns : list string)
  : WorkspaceConfigFile := {|
  wc_packages := foldl (fun packages pattern =>
    if decide (pattern ∈ packages) then packages else packages ++ [pattern]) (wc_packages config) patterns;
  wc_catalog := wc_catalog config; wc_catalogs := wc_catalogs config;
  wc_only_built_dependencies := wc_only_built_dependencies config;
  wc_ignored_built_dependencies := wc_ignored_built_dependencies config;
  wc_disable_global_virtual_store_for_packages := wc_disable_global_virtual_store_for_packages config;
  wc_hoisting := wc_hoisting config |}.

Definition try_load_workspace (dir : string) : Result (option Workspace) :=
  let yaml_path := workspace_yaml_path dir in
  let package_json_path := path_push dir "package.json" in
  package_json_workspaces ← (if is_file tree package_json_path
                             then read_package_json_workspaces package_json_path else Ok None);
  match yaml_path, package_json_workspaces with
  | None, None => Ok None
  | _, _ =>
      config ← match yaml_path with Some path => read_config path | None => Ok empty_workspace_config end;
      let config := match package_json_workspaces with
                    | Some workspaces =>
                        let '(patterns, catalog, catalogs) := into_parts workspaces in
                        merge_catalog_entries (merge_package_patterns config patterns) catalog catalogs
                    | None => config
                    end in
      config ← merge_snpm_catalog dir config;
      config ← merge_yarn_catalog dir config;
      projects ← load_projects dir config (is_file tree package_json_path);
      Ok (Some {| w_root := dir; w_projects := projects; w_config := config |})
  end.

Fixpoint discover_workspace_in (dirs : list string) : Result (option Workspace) :=
  match dirs with
  | [] => Ok None
  | directory :: dirs =>
      workspace ← try_load_workspace directory;
      match workspace with
      | Some workspace => Ok (Some workspace)
      | None => discover_workspace_in dirs
      end
  end.
Definition discover_workspace (start : string) : Result (option Workspace) :=
  discover_workspace_in (ancestors start).
End discovery.

(** ** Overrides ([operations/install/overrides.rs]) *)
Definition flat_override_range (value : json) : option string :=
  match value with
  | JString range => Some range
  | JObject map => map !! "." ≫= as_str
  | _ => None
  end.

Definition direct_dependency_spec (project : Project) (name : string) : option string :=
  let manifest := p_manifest project in
  match m_dependencies manifest !! name with
  | Some spec => Some spec
  | None => match m_dev_dependencies manifest !! name with
            | Some spec => Some spec
            | None => m_optional_dependencies manifest !! name
            end
  end.

Definition resolve_override_reference (range : string) (project : Project) : option string :=
  match strip_prefix "$" range with
  | Some referenced => direct_dependency_spec project referenced
  | None => Some range
  end.

Definition merge_npm_override (project : Project) (overrides : gmap string string) (e : string * json)
  : Result (gmap string string) :=
  match flat_override_range e.2 with
  | None => Ok overrides
  | Some raw =>
      match resolve_override_reference raw project with
      | Some resolved => Ok (<[e.1 := resolved]> overrides)
      | None => Err (ManifestInvalid (p_manifest_path project)
          ("override for " +:+ e.1 +:+ " references " +:+ raw +:+ ", which does not match any direct dependency"))
      end
  end.

Definition merge_manifest_overrides (project : Project) (overrides : gmap string string)
  : Result (gmap string string) :=
  let manifest := p_manifest project in
  let overrides := extend overrides (btree_iter (m_resolutions manifest)) in
  overrides ← try_fold (merge_npm_override project) overrides (btree_iter (m_overrides manifest));
  let overrides := match m_pnpm manifest with
                   | Some pnpm => extend overrides (btree_iter (mp_overrides pnpm))
                   | None => overrides
                   end in
  Ok (match m_snpm manifest with
      | Some snpm => extend overrides (btree_iter (ms_overrides snpm))
      | None => overrides
      end).

(** ** The members of a workspace *)
Section members.
Context `{ConfigFiles} `{GlobCrate} `{GlobEntries} (tree : FileTree).

(** The manifest a project comes from. *)
Definition manifest_key (project : Project) : list (nat * string) := path_key (p_manifest_path project).

(** [dir] is listed by a pattern, is not excluded and has a manifest. *)
Definition lists_member (root : string) (packages : list string) (exclusions : list glob_pattern) (dir : string)
  : Prop :=
  exists pattern entries, pattern ∈ packages /\ starts_with "!" pattern = false /\
    glob_entries (path_push root pattern) = Ok entries /\ Ok dir ∈ entries /\
    is_dir tree dir = true /\ is_excluded dir exclusions = false /\
    is_file tree (path_push dir "package.json") = true.

(** The state of the loop: every project was read from its manifest, which is
    one of those allowed, and the manifests are the ones that were seen. *)
Record loaded (allowed : string -> Prop) (st : list Project * gset (list (nat * string))) : Prop := {
  loaded_nodup : NoDup (manifest_key <$> st.1);
  loaded_seen k : k ∈ st.2 <-> k ∈ manifest_key <$> st.1;
  loaded_read p : p ∈ st.1 -> from_manifest_path tree (p_manifest_path p) = Ok p /\ allowed (p_manifest_path p);
}.

Lemma from_manifest_path_file path p : from_manifest_path tree path = Ok p -> p_manifest_path p = path.
Proof.
  unfold from_manifest_path. intros (? & _ & (? & _ & (? & _ & [= <-])%result_bind_Ok)%result_bind_Ok)%result_bind_Ok.
  done.
Qed.

Lemma push_project_loaded (allowed : string -> Prop) path st st' :
  loaded allowed st -> allowed path -> push_project tree path st = Ok st' ->
  loaded allowed st' /\ st.2 ⊆ st'.2 /\ path_key path ∈ st'.2.
Proof.
  destruct st as [projects seen]. intros [Hnd Hseen Hread] Hpath. unfold push_project. cbn in *.
  case_decide as Hin; [by intros [= <-]|].
  intros (p & Hp & [= <-])%result_bind_Ok. pose proof (from_manifest_path_file _ _ Hp) as Hf.
  assert (Hk : manifest_key p = path_key path) by (unfold manifest_key; by rewrite Hf).
  split; [split|split]; cbn.
  - rewrite fmap_app. cbn. rewrite Hk, NoDup_app. split_and!; [done| |apply NoDup_singleton].
    intros k Hk1 ->%list_elem_of_singleton. by rewrite <-Hseen in Hk1.
  - intros k. rewrite fmap_app, elem_of_app, <-Hseen, elem_of_union, elem_of_singleton. cbn.
    rewrite list_elem_of_singleton, Hk. tauto.
  - intros q [Hq| ->%list_elem_of_singleton]%elem_of_app; [by apply Hread|]. by rewrite Hf.
  - set_solver.
  - set_solver.
Qed.

(** What a fold over the state keeps: the invariant, what was seen, and for
    every item what its step guarantees. *)
Lemma loaded_fold {B} (allowed : string -> Prop)
    (f : list Project * gset (list (nat * string)) -> B -> Result (list Project * gset (list (nat * string))))
    (Q : B -> gset (list (nat * string)) -> Prop) l :
  (forall b s s', Q b s -> s ⊆ s' -> Q b s') ->
  (forall b st st', b ∈ l -> loaded allowed st -> f st b = Ok st' ->
     loaded allowed st' /\ st.2 ⊆ st'.2 /\ Q b st'.2) ->
  forall st st', loaded allowed st -> try_fold f st l = Ok st' ->
  loaded allowed st' /\ st.2 ⊆ st'.2 /\ forall b, b ∈ l -> Q b st'.2.
Proof.
  intros Hmono. induction l as [|b l IH]; cbn; intros Hf st st' Hst.
  { intros [= <-]. split_and!; [done|done|]. intros b Hb. by apply not_elem_of_nil in Hb. }
  intros (st1 & Hst1 & Hrest)%result_bind_Ok.
  apply Hf in Hst1 as (Hl1 & Hs1 & HQ); [|by left|done].
  apply IH in Hrest as (Hl2 & Hs2 & Hall); [|intros; apply Hf; [by right|done..]|done].
  split_and!; [done|by etrans|]. intros c [->|Hc]%elem_of_cons; eauto.
Qed.

Lemma load_entry_loaded (allowed : string -> Prop) root exclusions st entry st' :
  loaded allowed st ->
  (forall dir, entry = Ok dir -> is_dir tree dir = true -> is_excluded dir exclusions = false ->
     is_file tree (path_push dir "package.json") = true -> allowed (path_push dir "package.json")) ->
  load_entry tree root exclusions st entry = Ok st' ->
  loaded allowed st' /\ st.2 ⊆ st'.2 /\
  forall dir, entry = Ok dir -> is_dir tree dir = true -> is_excluded dir exclusions = false ->
    is_file tree (path_push dir "package.json") = true -> path_key (path_push dir "package.json") ∈ st'.2.
Proof.
  intros Hst Hallowed (path & Hp & Hpush)%result_bind_Ok.
  destruct entry as [dir|]; cbn in Hp; [|done]. injection Hp as <-. cbn zeta in Hpush.
  destruct (is_dir tree dir && negb (is_excluded dir exclusions) && is_file tree (path_push dir "package.json")) eqn:Hc.
  - apply andb_true_iff in Hc as [[Hd He%negb_true_iff]%andb_true_iff Hf].
    apply (push_project_loaded allowed) in Hpush as (Hl & Hs & Hk); [|done|by apply Hallowed].
    split_and!; [done|done|]. intros ? [= <-] _ _ _. done.
  - injection Hpush as <-. split_and!; [done|done|]. intros ? [= <-] Hd He Hf. by rewrite Hd, He, Hf in Hc.
Qed.

(** What a pattern lists is in the set. *)
Definition pattern_seen (root : string) (exclusions : list glob_pattern) (pattern : string)
    (seen : gset (list (nat * string))) : Prop :=
  forall entries dir, glob_entries (path_push root pattern) = Ok entries -> Ok dir ∈ entries ->
    is_dir tree dir = true -> is_excluded dir exclusions = false ->
    is_file tree (path_push dir "package.json") = true -> path_key (path_push dir "package.json") ∈ seen.

Lemma load_pattern_loaded (allowed : string -> Prop) root packages exclusions st pattern st' :
  loaded allowed st -> pattern ∈ packages -> starts_with "!" pattern = false ->
  (forall dir, lists_member root packages exclusions dir -> allowed (path_push dir "package.json")) ->
  load_pattern tree root exclusions st pattern = Ok st' ->
  loaded allowed st' /\ st.2 ⊆ st'.2 /\ pattern_seen root exclusions pattern st'.2.
Proof.
  intros Hst Hp Hbang Hallowed (entries & Hg & Hentries)%result_bind_Ok.
  destruct (glob_entries _) as [es|] eqn:Hglob; cbn in Hg; [|done]. injection Hg as ->.
  apply (loaded_fold allowed _ (fun entry seen => forall dir, entry = Ok dir -> is_dir tree dir = true ->
    is_excluded dir exclusions = false -> is_file tree (path_push dir "package.json") = true ->
    path_key (path_push dir "package.json") ∈ seen)) in Hentries as (? & ? & Hin); [| | |done].
  - split_and!; [done|done|]. intros es dir Hes. rewrite Hglob in Hes. injection Hes as <-.
    intros Hd. by apply (Hin _ Hd).
  - intros e s1 s2 He Hsub dir ????. apply Hsub. by apply (He dir).
  - intros entry s1 s2 He Hs1. apply load_entry_loaded; [done|].
    intros dir -> ???. apply Hallowed. by exists pattern, entries.
Qed.

Lemma load_projects_loaded root config include_root_project projects :
  load_projects tree root config include_root_project = Ok projects ->
  exists exclusions, build_exclusion_patterns root (wc_packages config) = Ok exclusions /\
  let root_manifest := path_push root "package.json" in
  let has_root := include_root_project && is_file tree root_manifest in
  let listed dir := lists_member root (wc_packages config) exclusions dir in
  exists seen, loaded (fun path => (has_root = true /\ path = root_manifest) \/
      exists dir, listed dir /\ path = path_push dir "package.json") (projects, seen) /\
    (has_root = true -> path_key root_manifest ∈ seen) /\
    forall dir, listed dir -> path_key (path_push dir "package.json") ∈ seen.
Proof.
  intros (exclusions & Hx & (st0 & Hst0 & (st & Hfold & [= <-])%result_bind_Ok)%result_bind_Ok)%result_bind_Ok.
  exists exclusions. split; [done|]. cbn zeta.
  match goal with |- exists seen, loaded ?P _ /\ _ => set (allowed := P) end.
  assert (Hstart : loaded allowed st0 /\ (include_root_project && is_file tree (path_push root "package.json") = true ->
    path_key (path_push root "package.json") ∈ st0.2)).
  { assert (Hnil : loaded allowed ([], ∅)).
    { split; cbn; [constructor|set_solver|]. intros p Hp. by apply not_elem_of_nil in Hp. }
    destruct (_ && _) eqn:Hr; [|by injection Hst0 as <-].
    apply (push_project_loaded allowed) in Hst0 as (? & _ & ?); [done|done|by left]. }
  destruct Hstart as [Hinit Hroot].
  assert (Hloop : loaded allowed st /\ st0.2 ⊆ st.2 /\ forall pattern,
    pattern ∈ filter (fun pattern => starts_with "!" pattern = false) (wc_packages config) ->
    pattern_seen root exclusions pattern st.2).
  { apply (loaded_fold allowed (load_pattern tree root exclusions) (pattern_seen root exclusions) _)
      with (st := st0); [| |done|done].
    - intros p s s' HQ Hs entries dir ?????. apply Hs. by eapply HQ.
    - intros pattern s s' [Hbang Hp]%list_elem_of_filter Hs. apply (load_pattern_loaded _ _ (wc_packages config)); [done..|].
      intros dir Hdir. right. by exists dir. }
  destruct Hloop as (Hl & Hs & Hall).
  exists st.2. destruct st as [projects' seen]. cbn in *. split_and!; [done|set_solver|].
  intros dir (pattern & entries & Hp & Hbang & Hg & Hd & ? & ? & ?).
  eapply Hall; [|done..]. by apply list_elem_of_filter.
Qed.

(** The members of a workspace: one project for the root's manifest and for
    every directory that a pattern lists, that is not excluded and that has a
    manifest, each read from its manifest and none twice, whatever the patterns
    and the order in which they match. *)
Theorem load_projects_spec root config include_root_project projects :
  load_projects tree root config include_root_project = Ok projects ->
  exists exclusions, build_exclusion_patterns root (wc_packages config) = Ok exclusions /\
  let is_member path :=
    (include_root_project && is_file tree (path_push root "package.json") = true /\ path = path_push root "package.json")
    \/ exists dir, lists_member root (wc_packages config) exclusions dir /\ path = path_push dir "package.json" in
  NoDup (manifest_key <$> projects) /\
  (forall p, p ∈ projects -> from_manifest_path tree (p_manifest_path p) = Ok p /\ is_member (p_manifest_path p)) /\
  (forall path, is_member path -> exists p, p ∈ projects /\ path_key (p_manifest_path p) = path_key path).
Proof.
  intros (exclusions & Hx & seen & [Hnd Hseen Hread] & Hroot & Hdirs)%load_projects_loaded.
  exists exclusions. split; [done|]. intros is_member. cbn in *. split_and!; [done|exact Hread|].
  assert (Hback : forall path, path_key path ∈ seen -> exists p, p ∈ projects /\ path_key (p_manifest_path p) = path_key path).
  { intros path (p & Hk & Hp)%Hseen%list_elem_of_fmap. by exists p. }
  intros path [[Hr ->]|(dir & Hd & ->)]; apply Hback; auto.
Qed.
End members.

(** ** Overrides *)
(** The override of a name in the [overrides] field of the manifest. *)
Definition npm_override_in (project : Project) (m : gmap string json) (name : string) : option string :=
  value ← (m !! name : option json);
  raw ← flat_override_range value;
  resolve_override_reference raw project.
Definition npm_override (project : Project) : string -> option string :=
  npm_override_in project (m_overrides (p_manifest project)).

Definition override_dangles (project : Project) (name raw : string) : Prop :=
  (exists value, m_overrides (p_manifest project) !! name = Some value /\ flat_override_range value = Some raw) /\
  resolve_override_reference raw project = None.

Lemma merge_npm_overrides project (l : list (string * json)) overrides :
  NoDup l.*1 ->
  match try_fold (merge_npm_override project) overrides l with
  | Ok merged =>
      (forall e raw, e ∈ l -> flat_override_range e.2 = Some raw -> is_Some (resolve_override_reference raw project)) /\
      forall name, merged !! name =
        match npm_override_in project (list_to_map l) name with
        | Some range => Some range
        | None => overrides !! name
        end
  | Err _ => exists e raw, e ∈ l /\ flat_override_range e.2 = Some raw /\ resolve_override_reference raw project = None
  end.
Proof.
  revert overrides. induction l as [|[n value] l IH]; intros overrides; cbn.
  { intros _. split; [|done]. intros e raw He. by apply not_elem_of_nil in He. }
  intros [Hn Hnd]%NoDup_cons. 
  assert (Hstep : merge_npm_override project overrides (n, value) =
    match flat_override_range value with
    | None => Ok overrides
    | Some raw =>
        match resolve_override_reference raw project with
        | Some resolved => Ok (<[n := resolved]> overrides)
        | None => Err (ManifestInvalid (p_manifest_path project)
          ("override for " +:+ n +:+ " references " +:+ raw +:+ ", which does not match any direct dependency"))
        end
    end) by done.
  rewrite Hstep. clear Hstep.
  destruct (flat_override_range value) as [raw|] eqn:Hflat; cbn.
  - destruct (resolve_override_reference raw project) as [range|] eqn:Hres; cbn.
    2:{ exists (n, value), raw. split_and!; [by left|done|done]. }
    specialize (IH (<[n := range]> overrides) Hnd). destruct (try_fold _ _ l) as [merged|].
    + destruct IH as [Hall Hlook]. split.
      * intros e raw' [->|He]%elem_of_cons; [|by apply Hall]. cbn. rewrite Hflat. intros [= <-]. by rewrite Hres.
      * intros name. rewrite Hlook. destruct (decide (name = n)) as [->|Hne].
        -- unfold npm_override_in. rewrite !lookup_insert_eq. cbn. rewrite Hflat. cbn. rewrite Hres.
           by rewrite (not_elem_of_list_to_map_1 l n Hn).
        -- unfold npm_override_in. by rewrite !lookup_insert_ne by done.
    + destruct IH as (entry & raw0 & He & ? & ?). exists entry, raw0. split_and!; [by right|done|done].
  - specialize (IH overrides Hnd). destruct (try_fold _ _ l) as [merged|].
    + destruct IH as [Hall Hlook]. split.
      * intros e raw' [->|He]%elem_of_cons; [|by apply Hall]. cbn. by rewrite Hflat.
      * intros name. rewrite Hlook. destruct (decide (name = n)) as [->|Hne].
        -- unfold npm_override_in. rewrite lookup_insert_eq. cbn. rewrite Hflat. cbn.
           by rewrite (not_elem_of_list_to_map_1 l n Hn).
        -- unfold npm_override_in. by rewrite !lookup_insert_ne by done.
    + destruct IH as (entry & raw0 & He & ? & ?). exists entry, raw0. split_and!; [by right|done|done].
Qed.

(** The overrides a manifest declares: for each name the entry of [snpm],
    else of [pnpm], else of [overrides] (its own or its [.] entry, a [$name]
    replaced by that direct dependency's range), else of [resolutions], else what
    was there; and an [$name] that is no direct dependency is an error. *)
Theorem merge_manifest_overrides_spec project overrides :
  let manifest := p_manifest project in
  match merge_manifest_overrides project overrides with
  | Ok merged =>
      (forall name raw, ~ override_dangles project name raw) /\
      forall name, merged !! name =
        (default ∅ (ms_overrides <$> m_snpm manifest) ∪ default ∅ (mp_overrides <$> m_pnpm manifest)) !! name
        ∪ (npm_override project name ∪ (m_resolutions manifest ∪ overrides) !! name)
  | Err _ => exists name raw, override_dangles project name raw
  end.
Proof.
  cbn zeta. unfold merge_manifest_overrides. rewrite extend_btree_iter.
  pose proof (merge_npm_overrides project (btree_iter (m_overrides (p_manifest project)))
    (m_resolutions (p_manifest project) ∪ overrides) (NoDup_btree_keys _)) as Hnpm.
  rewrite list_to_map_btree_iter in Hnpm. destruct (try_fold _ _ _) as [merged|error]; cbn [mbind result_bind].
  - destruct Hnpm as [Hall Hlook]. split.
    + intros name raw ((value & Hv & Hflat) & Hnone).
      destruct (Hall (name, value) raw) as [x Hx]; [by apply elem_of_btree_iter|done|]. by rewrite Hnone in Hx.
    + intros name.
      assert (Hm : merged !! name = npm_override project name ∪ (m_resolutions (p_manifest project) ∪ overrides) !! name).
      { rewrite Hlook. unfold npm_override. by destruct (npm_override_in _ _ _), (_ !! name). }
      destruct (m_pnpm _), (m_snpm _); cbn; rewrite ?extend_btree_iter, ?lookup_union, Hm, ?lookup_union, ?lookup_empty;
        repeat (match goal with |- context [?m !! name] => destruct (m !! name) end); cbn; try done;
        by destruct (npm_override project name).
  - destruct Hnpm as ([name value] & raw & He%elem_of_btree_iter & Hflat & Hnone). exists name, raw.
    split; [by exists value|done].
Qed.

(** ** Concrete inputs *)
Module DiscoveryDemo.
(** A manifest is the name of the package; the root has patterns. *)
#[local] Instance names : ConfigFiles := {|
  parse_manifest s := Ok {| m_name := Some s; m_version := None; m_package_manager := None; m_private := false;
    m_dependencies := ∅; m_dev_dependencies := ∅; m_optional_dependencies := ∅; m_scripts := ∅;
    m_resolutions := ∅; m_overrides := ∅; m_files := None; m_bin := None; m_main := None; m_pnpm := None;
    m_snpm := None; m_workspaces := None; m_extra := ∅ |};
  parse_workspaces s := Ok (if s == "root" then Some (Patterns ["packages/*"; "packages/a"; "!packages/old"]) else None);
  parse_workspace_config _ := Err "no configuration";
  parse_catalog_config _ := Err "no catalog";
  parse_yarnrc _ := Err "no yarnrc";
  parse_overrides_config _ := Err "no overrides" |}.

(** A pattern is a path, or a directory and [/*]. *)
#[local] Instance plain_glob : GlobCrate := {|
  glob_pattern := string; glob_new := Some; glob_matches := String.eqb |}.
#[local] Instance plain_entries : GlobEntries := {|
  glob_entries p :=
    if p == "/w/packages/*" then Ok [Ok "/w/packages/a"; Ok "/w/packages/b"; Ok "/w/packages/old"] else Ok [Ok p];
  glob_new_error _ := "malformed" |}.

Definition tree : FileTree := {|
  symlink_metadata _ := Err "unused";
  metadata p :=
    if one_of p ["/w/package.json"; "/w/packages/a/package.json"; "/w/packages/b/package.json";
                 "/w/packages/old/package.json"] then Ok TFile
    else if one_of p ["/w"; "/w/packages"; "/w/packages/a"; "/w/packages/b"; "/w/packages/old"] then Ok TDir
    else Err "No such file or directory";
  read p := default (Err "No such file or directory")
    (list_to_map (M := gmap string (result string string))
       [("/w/package.json", Ok "root"); ("/w/packages/a/package.json", Ok "a"); ("/w/packages/b/package.json", Ok "b");
        ("/w/packages/old/package.json", Ok "old")] !! p);
  read_dir _ := Err "unused" |}.

(** From a member's directory the workspace above it is found, with the root and
    two members, [a] only once although two patterns list it. *)
Example found :
  (fun w => (w_root w, p_root <$> w_projects w)) <$> default None (result_ok (discover_workspace tree "/w/packages/b/src")) =
  Some ("/w", ["/w"; "/w/packages/a"; "/w/packages/b"]).
Proof. vm_refl. Qed.

Definition config : WorkspaceConfigFile := merge_package_patterns empty_workspace_config
  ["packages/*"; "packages/a"; "!packages/old"].
Definition members : list Project := default [] (result_ok (load_projects tree "/w" config true)).

Lemma load_projects_spec_witness :
  NoDup (manifest_key <$> members) /\
  (forall p, p ∈ members -> from_manifest_path tree (p_manifest_path p) = Ok p) /\
  exists p, p ∈ members /\ path_key (p_manifest_path p) = path_key "/w/packages/b/package.json".
Proof.
  assert (Hload : load_projects tree "/w" config true = Ok members) by vm_refl.
  destruct (load_projects_spec tree "/w" config true members Hload) as (exclusions & Hx & Hnd & Hread & Hall).
  split; [exact Hnd|]. split; [intros p Hp; exact (proj1 (Hread p Hp))|].
  apply Hall. right. exists "/w/packages/b". split; [|reflexivity].
  exists "packages/*", [Ok "/w/packages/a"; Ok "/w/packages/b"; Ok "/w/packages/old"].
  split_and!; [by left|reflexivity|reflexivity|by right; left|reflexivity| |reflexivity].
  vm_compute in Hx. injection Hx as <-. vm_refl.
Defined.
End DiscoveryDemo.
