(* ===== verification/Compat.v ===== *)
(** * What the importers of foreign lockfiles share ([lockfile/compat/])

    Imported entries, required peers, root dependencies and how the answers of
    several projects are merged, tarball addresses.  The source repeats most of
    these functions in [npm.rs], [pnpm.rs], [bun.rs] and [yarn.rs]; where the
    copies are the same they are one definition here, where only the error differs
    it is an argument.  The lemmas say what makes an imported lockfile a closed
    graph; the files of the importers discharge them. *)
From S2P Require Import Prelude.
From S2P Require Import BTree.
From S2P Require Import Text.
From S2P Require Import Errors.
From S2P Require Import Types.
From S2P Require Import Paths.
From S2P Require Import Lockfile.
Import Lockfile.Graph.

Global Instance BundledDependencies_eq_dec : EqDecision BundledDependencies.
Proof. solve_decision. Defined.
Global Instance BinField_eq_dec : EqDecision BinField.
Proof. solve_decision. Defined.
Global Instance LockPackage_eq_dec : EqDecision LockPackage.
Proof. solve_decision. Defined.

(** ** [str] *)
(** [str::rfind] of a string *)
Fixpoint rfind_str (p s : string) : option nat :=
  match s with
  | ε => if is_empty p then Some 0 else None
  | String _ s' =>
      match rfind_str p s' with
      | Some i => Some (S i)
      | None => if starts_with p s then Some 0 else None
      end
  end.

(** [str::rsplit(c).next()] *)
Definition last_piece (c : ascii) (s : string) : string :=
  match rfind_char c s with Some i => sdrop (S i) s | None => s end.

(** [split_once(c).map(|(head, _)| head).unwrap_or(s)] *)
Definition head_piece (c : ascii) (s : string) : string :=
  match split_once c s with Some (head, _) => head | None => s end.

(** ** [compat/mod.rs] *)
Definition required_peer_dependencies (peer_dependencies : gmap string string) (optional_names : gset string)
  : gmap string string :=
  filter (fun e => e.1 ∉ optional_names) peer_dependencies.

(** The metadata are [PeerDependencyMeta::optional]. *)
Definition required_peer_dependencies_with_meta (peer_dependencies : gmap string string) (meta : gmap string bool)
  : gmap string string :=
  required_peer_dependencies peer_dependencies (dom (filter (fun e => e.2 = true) meta)).

(** ** Tarball addresses *)
Definition encode_package_name (name : string) : string :=
  if starts_with "@" name then join "%2F" (split_char "/" name) else name.

Definition scoped_registry_for_package (config : SnpmConfig) (name : string) : string :=
  match split_once "/" name with
  | Some (scope, _) =>
      if starts_with "@" scope then default (c_default_registry config) (c_scoped_registries config !! scope)
      else c_default_registry config
  | None => c_default_registry config
  end.

Definition is_registry_version (version : string) : bool :=
  negb (contains "://" version) && negb (starts_with "file:" version) && negb (starts_with "link:" version)
  && negb (starts_with "workspace:" version) && negb (contains_char "#" version).

Definition registry_tarball (config : SnpmConfig) (name version : string) : string :=
  trim_end_matches "/" (scoped_registry_for_package config name) +:+ "/" +:+ encode_package_name name
    +:+ "/-/" +:+ last_piece "/" name +:+ "-" +:+ version +:+ ".tgz".

Definition derive_registry_tarball (config : SnpmConfig) (name version : string) : option string :=
  if is_registry_version version then Some (registry_tarball config name version) else None.

(** ** Root dependencies *)
Definition resolved_root (dep_name requested : string) (optional : bool) (resolved_name version : string)
  : LockRootDependency := {|
  ld_requested := requested;
  ld_package := if resolved_name == dep_name then None else Some resolved_name;
  ld_version := Some version;
  ld_optional := optional |}.

Definition build_optional_root_dependency (dep_name requested : string) (resolved : option string)
  : LockRootDependency :=
  match dep_key ← resolved; split_dep_key dep_key with
  | Some (resolved_name, version) => resolved_root dep_name requested true resolved_name version
  | None => {| ld_requested := requested; ld_package := None; ld_version := None; ld_optional := true |}
  end.

Definition build_required_root_dependency (path dep_name requested dep_key : string) : Result LockRootDependency :=
  '(resolved_name, version) ←
    ok_or (LockfileError path ("unsupported resolved dependency key `" +:+ dep_key +:+ "`")) (split_dep_key dep_key);
  Ok (resolved_root dep_name requested false resolved_name version).

(** Two options that must not differ: the value both agree on. *)
Definition merge_field (conflict : string -> string -> SnpmError) (existing incoming : option string)
  : Result (option string) :=
  match existing, incoming with
  | Some value, Some other => if value == other then Ok existing else Err (conflict value other)
  | None, Some value => Ok (Some value)
  | _, _ => Ok existing
  end.

(** [merge_root_dependency]; [conflict] is the error of the importer. *)
Definition merge_root_dependency (conflict : string -> string -> SnpmError) (dep_name : string)
    (incoming : LockRootDependency) (root : gmap string LockRootDependency)
  : Result (gmap string LockRootDependency) :=
  match root !! dep_name with
  | None => Ok (<[dep_name := incoming]> root)
  | Some existing =>
      if negb (ld_requested existing == ld_requested incoming)
      then Err (conflict (ld_requested existing) (ld_requested incoming)) else
      package ← merge_field conflict (ld_package existing) (ld_package incoming);
      version ← merge_field conflict (ld_version existing) (ld_version incoming);
      Ok (<[dep_name := {| ld_requested := ld_requested existing; ld_package := package; ld_version := version;
                           ld_optional := ld_optional existing && ld_optional incoming |}]> root)
  end.

(** A package that several entries stand for is kept once, if they agree. *)
Definition insert_package (conflict : SnpmError) (packages : gmap string LockPackage) (lock_key : string)
    (lock_package : LockPackage) : Result (gmap string LockPackage) :=
  match packages !! lock_key with
  | Some existing => if decide (existing = lock_package) then Ok packages else Err conflict
  | None => Ok (<[lock_key := lock_package]> packages)
  end.

(** ** Closed lockfiles *)
(** Every entry is filed under its name and version, every dependency of an
    entry is an entry, and so is every root dependency that has a version. *)
Definition package_filed (key : string) (package : LockPackage) : Prop :=
  key = package_key (lp_name package) (lp_version package).
Definition depends_within (known : string -> Prop) (package : LockPackage) : Prop :=
  forall name dep_key, lp_dependencies package !! name = Some dep_key -> known dep_key.
Definition root_within (known : string -> Prop) (name : string) (dep : LockRootDependency) : Prop :=
  match ld_version dep with
  | Some version => known (package_key (default name (ld_package dep)) version) /\ contains_char "@" version = false
  | None => ld_package dep = None
  end.

Record lockfile_closed (lockfile : Lockfile) : Prop := {
  closed_filed key package : l_packages lockfile !! key = Some package -> package_filed key package;
  closed_deps key package : l_packages lockfile !! key = Some package ->
    depends_within (fun dep_key => is_Some (l_packages lockfile !! dep_key)) package;
  closed_root name dep : l_root lockfile !! name = Some dep ->
    root_within (fun dep_key => is_Some (l_packages lockfile !! dep_key)) name dep;
}.

(** ** Lemmas: keys *)
Lemma rfind_char_sdrop c s i :
  rfind_char c s = Some i -> sdrop i s = String c (sdrop (S i) s) /\ contains_char c (sdrop (S i) s) = false.
Proof.
  intros [Hs Hc]%rfind_char_Some. split; [|done].
  apply (app_inj_head_s (stake i s)). by rewrite stake_sdrop.
Qed.

Lemma split_dep_key_inv key name version :
  split_dep_key key = Some (name, version) -> key = package_key name version /\ contains_char "@" version = false.
Proof.
  unfold split_dep_key. intros (i & Hi & [= <- <-])%bind_Some.
  destruct (rfind_char_sdrop _ _ _ Hi) as [Hdrop Hrest]. unfold package_key. split; [|
    rewrite Hdrop; cbn [trim_start_matches]; by rewrite Ascii.eqb_refl, trim_start_matches_ne].
  rewrite Hdrop. cbn [trim_start_matches]. rewrite Ascii.eqb_refl, trim_start_matches_ne by done.
  change ("@" +:+ ?r) with (String "@" r). rewrite <-Hdrop. by rewrite stake_sdrop.
Qed.

(** ** Lemmas: root dependencies *)
Section within.
Context (known : string -> Prop).

Lemma resolved_root_within dep_name requested optional resolved_name version :
  known (package_key resolved_name version) -> contains_char "@" version = false ->
  root_within known dep_name (resolved_root dep_name requested optional resolved_name version).
Proof.
  intros Hk Hv. split; [|done]. cbn. by destruct (String.eqb_spec resolved_name dep_name) as [->|].
Qed.

Lemma build_optional_within dep_name requested resolved :
  (forall key, resolved = Some key -> known key) ->
  root_within known dep_name (build_optional_root_dependency dep_name requested resolved).
Proof.
  intros Hk. unfold build_optional_root_dependency.
  destruct resolved as [key|]; cbn; [|done]. destruct (split_dep_key key) as [[name version]|] eqn:Hs; [|done].
  apply split_dep_key_inv in Hs as [-> Hv]. apply resolved_root_within; [by apply Hk|done].
Qed.

Lemma build_required_within path dep_name requested key dep :
  known key -> build_required_root_dependency path dep_name requested key = Ok dep ->
  root_within known dep_name dep.
Proof.
  intros Hk ([name version] & Hs & [= <-])%result_bind_Ok.
  destruct (split_dep_key key) as [[n v]|] eqn:Hkey; cbn in Hs; [|done]. injection Hs as <- <-.
  apply split_dep_key_inv in Hkey as [-> Hv]. by apply resolved_root_within.
Qed.

Lemma merge_field_Some conflict existing incoming merged :
  merge_field conflict existing incoming = Ok merged ->
  (existing = merged /\ (incoming = None \/ incoming = merged)) \/ (existing = None /\ incoming = merged).
Proof.
  unfold merge_field. destruct existing as [a|], incoming as [b|].
  - destruct (String.eqb_spec a b) as [->|]; [|done]. intros [= <-]. auto.
  - intros [= <-]. auto.
  - intros [= <-]. auto.
  - intros [= <-]. auto.
Qed.

Lemma merged_within dep_name existing incoming package version requested optional :
  root_within known dep_name existing -> root_within known dep_name incoming ->
  (ld_package existing = package /\ (ld_package incoming = None \/ ld_package incoming = package)) \/
    (ld_package existing = None /\ ld_package incoming = package) ->
  (ld_version existing = version /\ (ld_version incoming = None \/ ld_version incoming = version)) \/
    (ld_version existing = None /\ ld_version incoming = version) ->
  root_within known dep_name {| ld_requested := requested; ld_package := package; ld_version := version;
                                ld_optional := optional |}.
Proof.
  unfold root_within. destruct existing as [? pe ve ?], incoming as [? pi vi ?]; cbn.
  intros Hold Hin Hp [[<- Hv]|[-> <-]].
  - destruct ve as [v|].
    + destruct Hp as [[<- _]|[-> <-]]; [done|]. destruct Hv as [->| ->]; [by rewrite Hin|done].
    + assert (vi = None) as -> by (by destruct Hv). destruct Hp as [[<- _]|[_ <-]]; done.
  - subst pe. destruct Hp as [[<- [->| ->]]|[_ <-]]; done.
Qed.

Definition roots_within (root : gmap string LockRootDependency) : Prop :=
  forall name dep, root !! name = Some dep -> root_within known name dep.

Lemma merge_root_within conflict dep_name incoming root root' :
  roots_within root -> root_within known dep_name incoming ->
  merge_root_dependency conflict dep_name incoming root = Ok root' -> roots_within root'.
Proof.
  intros Hroot Hin. unfold merge_root_dependency. destruct (root !! dep_name) as [existing|] eqn:Hex.
  - destruct (negb _); [done|]. intros (package & Hp & (version & Hv & [= <-])%result_bind_Ok)%result_bind_Ok.
    apply merge_field_Some in Hp, Hv. specialize (Hroot _ _ Hex) as Hold.
    intros name dep. destruct (decide (name = dep_name)) as [->|Hne].
    + rewrite lookup_insert_eq. intros [= <-]. by apply (merged_within dep_name existing incoming).
    + rewrite lookup_insert_ne by done. apply Hroot.
  - intros [= <-] name dep. destruct (decide (name = dep_name)) as [->|Hne].
    + rewrite lookup_insert_eq. by intros [= <-].
    + rewrite lookup_insert_ne by done. apply Hroot.
Qed.

Lemma roots_within_empty : roots_within ∅.
Proof. intros name dep. by rewrite lookup_empty. Qed.
End within.

(** ** Lemmas: packages *)
Section packages.
Context {B : Type} (key : B -> string) (make : B -> Result LockPackage) (conflict : B -> SnpmError).

Definition insert_entry (packages : gmap string LockPackage) (entry : B) : Result (gmap string LockPackage) :=
  lock_package ← make entry; insert_package (conflict entry) packages (key entry) lock_package.

Lemma insert_entry_spec packages entry packages' :
  insert_entry packages entry = Ok packages' ->
  packages ⊆ packages' /\ exists p, make entry = Ok p /\ packages' !! key entry = Some p /\
    forall k q, packages' !! k = Some q -> packages !! k = Some q \/ (k = key entry /\ q = p).
Proof.
  intros (p & Hp & Hins)%result_bind_Ok. unfold insert_package in Hins.
  destruct (packages !! key entry) as [existing|] eqn:Hex.
  - case_decide as Heq; [|done]. injection Hins as <-. subst existing. split; [done|]. exists p. eauto.
  - injection Hins as <-. split; [by apply insert_subseteq|]. exists p. rewrite lookup_insert_eq. split_and!; [done..|].
    intros k q [[<- <-]|[_ ?]]%lookup_insert_Some; auto.
Qed.

(** After the loop the packages are what the entries make: every entry's package
    is under its key, and nothing else was added. *)
Lemma insert_entries_spec entries packages packages' :
  try_fold insert_entry packages entries = Ok packages' ->
  packages ⊆ packages' /\
  (forall entry, entry ∈ entries -> exists p, make entry = Ok p /\ packages' !! key entry = Some p) /\
  (forall k p, packages' !! k = Some p ->
     packages !! k = Some p \/ exists entry, entry ∈ entries /\ key entry = k /\ make entry = Ok p).
Proof.
  revert packages. induction entries as [|e entries IH]; intros packages; cbn.
  { intros [= <-]. split_and!; [done| |by left]. by intros ? []%not_elem_of_nil. }
  intros (packages1 & (Hs1 & p & Hp & Hkey & Hback)%insert_entry_spec & Hrest)%result_bind_Ok.
  destruct (IH _ Hrest) as (Hs & Hall & Hfrom). split_and!; [by etrans| |].
  - intros entry [->|Hin]%elem_of_cons; [|by apply Hall]. exists p. split; [done|]. by eapply lookup_weaken.
  - intros k q Hq. destruct (Hfrom _ _ Hq) as [H1|(entry & ? & ? & ?)].
    + destruct (Hback _ _ H1) as [?|[-> ->]]; [by left|]. right. exists e. split; [by left|done].
    + right. exists entry. split; [by right|done].
Qed.
End packages.

(** Dependencies that are all known. *)
Definition deps_known (known : string -> Prop) (dependencies : gmap string string) : Prop :=
  forall name key, dependencies !! name = Some key -> known key.

Lemma deps_known_insert known name key dependencies :
  known key -> deps_known known dependencies -> deps_known known (<[name := key]> dependencies).
Proof. intros Hk Hd n k [[_ <-]|[_ ?]]%lookup_insert_Some; [done|by eapply Hd]. Qed.
Lemma deps_known_empty known : deps_known known ∅.
Proof. intros name key. by rewrite lookup_empty. Qed.

(** What an importer has to show: its packages are filed under the keys of its
    entries, and dependencies and roots lead to such keys. *)
Lemma imported_closed {B} (key : B -> string) make conflict entries packages root known version :
  (forall k, known k -> exists entry, entry ∈ entries /\ key entry = k) ->
  try_fold (insert_entry key make conflict) ∅ entries = Ok packages ->
  (forall entry p, entry ∈ entries -> make entry = Ok p -> package_filed (key entry) p /\ deps_known known (lp_dependencies p)) ->
  roots_within known root ->
  lockfile_closed {| l_version := version; l_root := root; l_packages := packages |}.
Proof.
  intros Hknown (_ & Hall & Hfrom)%insert_entries_spec Hmade Hroot.
  assert (Hinstalled : forall k, known k -> is_Some (packages !! k)).
  { intros k (entry & Hin & <-)%Hknown. destruct (Hall _ Hin) as (p & _ & Hp). by exists p. }
  assert (Hp : forall k p, packages !! k = Some p -> package_filed k p /\ deps_known known (lp_dependencies p)).
  { intros k p Hp. destruct (Hfrom _ _ Hp) as [Hnone|(entry & Hin & <- & Hm)]; [by rewrite lookup_empty in Hnone|].
    by apply Hmade. }
  split; cbn.
  - by intros k p []%Hp.
  - intros k p [_ Hd]%Hp name dep Hdep. by apply Hinstalled, (Hd name).
  - intros name dep Hdep. specialize (Hroot _ _ Hdep). unfold root_within in *.
    destruct (ld_version dep); [|done]. destruct Hroot as [Hk Hv]. split; [by apply Hinstalled|done].
Qed.

(** ** Nested names

    The keys of npm and bun are the names of the directories, or of the packages,
    from the root inwards. *)
(** The path of nested names, the innermost first, and the names on the way out. *)
Definition path_of (names : list string) : string := join "/" (reverse names).
Fixpoint suffixes (names : list string) : list (list string) :=
  names :: match names with [] => [] | _ :: above => suffixes above end.

Lemma path_of_cons name names :
  path_of (name :: names) = match names with [] => name | _ => path_of names +:+ "/" +:+ name end.
Proof.
  unfold path_of. rewrite reverse_cons. destruct names as [|y names]; [done|].
  rewrite join_snoc; [done|]. rewrite reverse_cons. by destruct (reverse names).
Qed.

Lemma path_of_nonempty names : Forall (fun name => is_empty name = false) names -> names <> [] -> is_empty (path_of names) = false.
Proof.
  destruct names as [|x [|y names]]; [done| |]; intros [Hx _]%Forall_cons _; rewrite path_of_cons; [done|].
  by destruct (path_of (y :: names)).
Qed.

Lemma path_of_length names : Forall (fun name => is_empty name = false) names -> length names <= String.length (path_of names).
Proof.
  induction names as [|x names IH]; intros Hall; [cbn; lia|].
  apply Forall_cons in Hall as [Hx Hall]. specialize (IH Hall). rewrite path_of_cons.
  assert (1 <= String.length x) by (destruct x; [done|cbn; lia]).
  destruct names as [|y names]; [cbn; lia|]. rewrite !length_app_s. cbn [length] in *. lia.
Qed.

(** ** A closed lockfile is a closed graph *)
Section closed.
Context (lockfile : Lockfile) (Hclosed : lockfile_closed lockfile).
Context (Hversions : forall key package, l_packages lockfile !! key = Some package ->
  contains_char "@" (lp_version package) = false).

Lemma filed_key key package :
  l_packages lockfile !! key = Some package -> key = id_key (lock_package_id package) /\ id_ok (lock_package_id package).
Proof.
  intros Hp. split; [exact (closed_filed _ Hclosed _ _ Hp)|exact (Hversions _ _ Hp)].
Qed.

Lemma closed_ids_NoDup : NoDup (lock_package_id <$> btree_values (l_packages lockfile)).
Proof. apply (NoDup_btree_values lock_package_id id_key). intros k p Hp. by apply filed_key in Hp as []. Qed.

Lemma closed_graph_lookup id package :
  g_packages (to_graph lockfile) !! id = Some package <->
  exists key lock_pkg, l_packages lockfile !! key = Some lock_pkg /\ lock_package_id lock_pkg = id /\
    package = set_dependencies (lock_dependencies lock_pkg) (package_node lock_pkg).
Proof.
  rewrite to_graph_packages_lookup by apply closed_ids_NoDup. rewrite fmap_Some.
  setoid_rewrite <-elem_of_list_to_map; [|rewrite <-list_fmap_compose; apply closed_ids_NoDup].
  setoid_rewrite list_elem_of_fmap. setoid_rewrite elem_of_btree_values. naive_solver.
Qed.

Lemma closed_key_installed key :
  is_Some (l_packages lockfile !! key) -> exists id, key = id_key id /\ id_ok id /\
    is_Some (g_packages (to_graph lockfile) !! id).
Proof.
  intros [p Hp]. destruct (filed_key _ _ Hp) as [Hk Hid]. exists (lock_package_id p). split_and!; [done..|].
  eexists. apply closed_graph_lookup. eauto.
Qed.

Lemma closed_id_installed id :
  is_Some (l_packages lockfile !! id_key id) -> id_ok id -> is_Some (g_packages (to_graph lockfile) !! id).
Proof. intros (id' & Hk & Hok & Hs)%closed_key_installed Hid. by rewrite (id_key_inj id id'). Qed.

Lemma dep_id_inv key id : dep_id key = Some id -> key = id_key id /\ id_ok id.
Proof. intros ([name version] & [-> Hv]%split_dep_key_inv & [= <-])%bind_Some. done. Qed.

Lemma closed_lockfile_graph : graph_closed (to_graph lockfile).
Proof.
  split.
  - intros id package name dep_id' Hp Hdep. apply closed_graph_lookup in Hp as (key & lock_pkg & Hk & _ & ->).
    cbn in Hdep. unfold lock_dependencies in Hdep. rewrite (collect_filter_map (fun _ key => dep_id key)) in Hdep.
    rewrite map_lookup_imap in Hdep. apply bind_Some in Hdep as (dep_key & Hd & Hid).
    apply dep_id_inv in Hid as [-> Hid]. apply closed_id_installed; [|done].
    by apply (closed_deps _ Hclosed _ _ Hk name).
  - intros name d Hd. rewrite to_graph_root_lookup in Hd.
    apply bind_Some in Hd as (dep & Hdep & (version & Hv & [= <-])%bind_Some). cbn.
    pose proof (closed_root _ Hclosed _ _ Hdep) as Hroot. unfold root_within in Hroot. rewrite Hv in Hroot.
    destruct Hroot. by apply closed_id_installed.
Qed.
End closed.
