(* ===== verification/NpmLock.v ===== *)
(** * The importer of npm lockfiles ([lockfile/compat/npm.rs])

    Lockfiles of the versions 1, 2 and 3 and shrinkwraps: the tree of version 1
    flattened into install paths, the entries, links and workspace members, the
    resolution of a dependency by walking up the install paths, and the lockfile
    that results.  What serde makes of the text is the interface [NpmFormat]. *)
From S2P Require Import Prelude.
From S2P Require Import BTree.
From S2P Require Import Text.
From S2P Require Import Errors.
From S2P Require Import Types.
From S2P Require Import Paths.
From S2P Require Import Crates.
From S2P Require Import Lockfile.
From S2P Require Import Compat.

Module Npm.
Record RawNpmPackage := {
  np_name : option string;
  np_version : option string;
  np_resolved : option string;
  np_integrity : option string;
  np_link : bool;
  np_dependencies : gmap string string;
  np_dev_dependencies : gmap string string;
  np_optional_dependencies : gmap string string;
  np_peer_dependencies : gmap string string;
  (** [PeerDependencyMeta::optional] *)
  np_peer_dependencies_meta : gmap string bool;
  np_bundled_dependencies : option BundledDependencies;
  np_bundle_dependencies : option BundledDependencies;
  np_bin : option json;
  np_workspaces : list string;
}.

(** The map of nested dependencies as its entries in the order of their names. *)
Inductive RawNpmV1Dependency := {
  v1_version : option string;
  v1_resolved : option string;
  v1_integrity : option string;
  v1_from : option string;
  v1_requires : gmap string string;
  v1_dependencies : list (string * RawNpmV1Dependency);
  v1_dev : bool;
  v1_optional : bool;
  v1_bundled : bool;
  v1_bin : option json;
}.

Record RawNpmV1Lockfile := {
  v1_name : option string;
  v1_root_version : option string;
  v1_root_dependencies : list (string * RawNpmV1Dependency);
}.

(** [serde_json::from_str] at [VersionProbe], [RawNpmLockfile] (its field
    [packages]) and [RawNpmV1Lockfile] *)
Class NpmFormat := {
  parse_probe : string -> result string N;
  parse_lockfile : string -> result string (gmap string RawNpmPackage);
  parse_v1 : string -> result string RawNpmV1Lockfile;
}.

Record PackageEntry := {
  pe_install_path : string;
  pe_name : string;
  pe_version : string;
  pe_lock_key : string;
}.

Inductive DependencyResolution := PackageKey (key : string) | WorkspaceMember | Missing.

(** ** Paths *)
Fixpoint strip_dot_slash (s : string) : string :=
  match s with
  | String a s1 =>
      match s1 with
      | String b s2 => if Ascii.eqb a "." && Ascii.eqb b "/" then strip_dot_slash s2 else s
      | ε => s
      end
  | ε => s
  end.

Definition normalize_lockfile_path (path : string) : string :=
  trim_end_matches "/" (strip_dot_slash (replace_char "\" "/" path)).

Definition contains_node_modules (path : string) : bool :=
  (path == "node_modules") || starts_with "node_modules/" path || contains "/node_modules/" path.

Definition lockfile_name (path : string) : string := default "package-lock.json" (file_name path).

Definition display_source_label (label : string) : string := if is_empty label then "." else label.

Definition parent_path (path : string) : option string :=
  if is_empty path then None
  else match rfind_char "/" path with
       | Some i => Some (stake i path)
       | None => Some ε
       end.

Definition dependency_candidate (base dep_name : string) : string :=
  if is_empty base || (base == "node_modules") then "node_modules/" +:+ dep_name
  else if last_piece "/" base == "node_modules" then base +:+ "/" +:+ dep_name
  else base +:+ "/node_modules/" +:+ dep_name.

(** The bases from an install path up to the root; each is shorter. *)
Fixpoint bases_go (fuel : nat) (base : string) : list string :=
  match fuel with
  | O => []
  | S fuel => base :: match parent_path base with Some parent => bases_go fuel parent | None => [] end
  end.
Definition bases (path : string) : list string := bases_go (S (String.length path)) path.

(** [candidates] holds exactly what is in [seen]. *)
Definition push_candidate (candidates : list string) (candidate : string) : list string :=
  if decide (candidate ∈ candidates) then candidates else candidates ++ [candidate].

Definition dependency_candidate_paths (source_install_path dep_name : string) : list string :=
  push_candidate
    (foldl push_candidate [] ((fun base => dependency_candidate base dep_name) <$> bases source_install_path))
    ("node_modules/" +:+ dep_name).

Definition package_name_from_install_path (install_path : string) : option string :=
  let install_path := normalize_lockfile_path install_path in
  idx ← rfind_str "node_modules/" install_path;
  let tail := sdrop (idx + String.length "node_modules/") install_path in
  if is_empty tail then None
  else match strip_prefix "@" tail with
  | Some rest =>
      slash ← find_char "/" rest;
      let scoped_end := slash + 1 in
      let name_end := match find_char "/" (sdrop scoped_end rest) with
                      | Some value => scoped_end + value
                      | None => String.length rest
                      end in
      Some ("@" +:+ stake name_end rest)
  | None => Some (head_piece "/" tail)
  end.

(** ** Version 1 *)
Definition collect_v1_bundled_children (children : list (string * RawNpmV1Dependency))
  : option BundledDependencies :=
  match (filter (fun e => v1_bundled e.2 = true) children).*1 with
  | [] => None
  | names => Some (BundledList names)
  end.

Definition v1_entry (name : string) (dep : RawNpmV1Dependency) : RawNpmPackage := {|
  np_name := Some name;
  np_version := v1_version dep;
  np_resolved := match v1_resolved dep with
                 | Some resolved => Some resolved
                 | None => value ← v1_from dep; if contains "://" value then Some value else None
                 end;
  np_integrity := v1_integrity dep;
  np_link := false;
  np_dependencies := v1_requires dep;
  np_dev_dependencies := ∅;
  np_optional_dependencies := ∅;
  np_peer_dependencies := ∅;
  np_peer_dependencies_meta := ∅;
  np_bundled_dependencies := collect_v1_bundled_children (v1_dependencies dep);
  np_bundle_dependencies := None;
  np_bin := v1_bin dep;
  np_workspaces := [] |}.

Definition v1_install_path (parent_path name : string) : string :=
  if is_empty parent_path then "node_modules/" +:+ name else parent_path +:+ "/node_modules/" +:+ name.

Fixpoint flatten_v1_dep (name : string) (dep : RawNpmV1Dependency) (parent_path : string)
    (out : gmap string RawNpmPackage) : gmap string RawNpmPackage :=
  let install_path := v1_install_path parent_path name in
  foldl (fun out e => flatten_v1_dep e.1 e.2 install_path out)
    (<[install_path := v1_entry name dep]> out) (v1_dependencies dep).

Definition flatten_v1_deps (deps : list (string * RawNpmV1Dependency)) (parent_path : string)
    (out : gmap string RawNpmPackage) : gmap string RawNpmPackage :=
  foldl (fun out e => flatten_v1_dep e.1 e.2 parent_path out) out deps.

Definition set_root (entry : RawNpmPackage) (dependencies dev_dependencies optional_dependencies : gmap string string)
    (workspaces : list string) (bin : option json) : RawNpmPackage := {|
  np_name := np_name entry; np_version := np_version entry; np_resolved := np_resolved entry;
  np_integrity := np_integrity entry; np_link := np_link entry;
  np_dependencies := dependencies; np_dev_dependencies := dev_dependencies;
  np_optional_dependencies := optional_dependencies;
  np_peer_dependencies := np_peer_dependencies entry; np_peer_dependencies_meta := np_peer_dependencies_meta entry;
  np_bundled_dependencies := np_bundled_dependencies entry; np_bundle_dependencies := np_bundle_dependencies entry;
  np_bin := bin; np_workspaces := workspaces |}.

Definition copy_dep_block (manifest : json) (key : string) (target : gmap string string) : gmap string string :=
  match json_get key manifest ≫= as_object with
  | None => target
  | Some block =>
      foldl (fun target e => match as_str e.2 with Some spec => <[e.1 := spec]> target | None => target end)
        target (btree_iter block)
  end.

Definition string_items (items : list json) : list string := omap as_str items.

Definition workspaces_from_manifest (value : json) : list string :=
  match as_array value with
  | Some arr => string_items arr
  | None => match json_get "packages" value ≫= as_array with
            | Some packages => string_items packages
            | None => []
            end
  end.

Definition populate_root_from_manifest (entry : RawNpmPackage) (manifest : json) : RawNpmPackage :=
  set_root entry
    (copy_dep_block manifest "dependencies" (np_dependencies entry))
    (copy_dep_block manifest "devDependencies" (np_dev_dependencies entry))
    (copy_dep_block manifest "optionalDependencies" (np_optional_dependencies entry))
    (match json_get "workspaces" manifest with
     | Some workspaces => workspaces_from_manifest workspaces
     | None => np_workspaces entry
     end)
    (match np_bin entry with Some bin => Some bin | None => json_get "bin" manifest end).

(** A dependency of the tree as one of the root, when there is no manifest. *)
Definition v1_root_dep (entry : RawNpmPackage) (e : string * RawNpmV1Dependency) : RawNpmPackage :=
  let '(name, dep) := e in
  let spec := default "*" (match v1_from dep with Some from => Some from | None => v1_version dep end) in
  let dependencies := np_dependencies entry in
  let dev := np_dev_dependencies entry in
  let optional := np_optional_dependencies entry in
  if v1_optional dep then
    set_root entry dependencies dev (<[name := spec]> optional) (np_workspaces entry) (np_bin entry)
  else if v1_dev dep then
    set_root entry dependencies (<[name := spec]> dev) optional (np_workspaces entry) (np_bin entry)
  else set_root entry (<[name := spec]> dependencies) dev optional (np_workspaces entry) (np_bin entry).

Definition default_package (name version : option string) : RawNpmPackage := {|
  np_name := name; np_version := version; np_resolved := None; np_integrity := None; np_link := false;
  np_dependencies := ∅; np_dev_dependencies := ∅; np_optional_dependencies := ∅; np_peer_dependencies := ∅;
  np_peer_dependencies_meta := ∅; np_bundled_dependencies := None; np_bundle_dependencies := None;
  np_bin := None; np_workspaces := [] |}.

Definition build_v1_root_entry `{JsonCrate} (tree : FileTree) (path : string) (v1 : RawNpmV1Lockfile)
  : RawNpmPackage :=
  let entry := default_package (v1_name v1) (v1_root_version v1) in
  let manifest :=
    parent ← parent path;
    let pkg_json := path_push parent "package.json" in
    if is_file tree pkg_json then
      content ← result_ok (read_to_string tree pkg_json); result_ok (json_from_str content)
    else None in
  let entry := match manifest with Some value => populate_root_from_manifest entry value | None => entry end in
  if decide (np_dependencies entry = ∅ /\ np_dev_dependencies entry = ∅ /\ np_optional_dependencies entry = ∅)
  then foldl v1_root_dep entry (v1_root_dependencies v1)
  else entry.

Definition parse_v1_as_v2 `{JsonCrate} `{NpmFormat} (tree : FileTree) (path data : string)
  : Result (gmap string RawNpmPackage) :=
  v1 ← map_err (ParseJson path) (parse_v1 data);
  let packages := flatten_v1_deps (v1_root_dependencies v1) ε ∅ in
  Ok (<[ε := build_v1_root_entry tree path v1]> packages).

(** ** Entries and links *)
Definition normalize_packages (raw : gmap string RawNpmPackage) : gmap string RawNpmPackage :=
  collect ((fun e => (normalize_lockfile_path e.1, e.2)) <$> btree_iter raw).

Definition collect_workspace_member_paths (root_entry : RawNpmPackage)
    (packages_by_path : gmap string RawNpmPackage) : gset string :=
  match np_workspaces root_entry with
  | [] => ∅
  | _ => filter (fun path => is_empty path = false /\ contains_node_modules path = false) (dom packages_by_path)
  end.

Definition link_target (path : string) (e : string * RawNpmPackage) : Result string :=
  ok_or (LockfileError path (lockfile_name path +:+ " link entry `" +:+ e.1 +:+ "` is missing a resolved target"))
    (resolved ← np_resolved e.2;
     let value := normalize_lockfile_path resolved in
     if is_empty value then None else Some value).

Definition collect_link_targets (path : string) (packages_by_path : gmap string RawNpmPackage)
  : Result (gmap string string) :=
  try_fold (fun (targets : gmap string string) e =>
    if negb (np_link e.2) then Ok targets
    else target ← link_target path e; Ok (<[e.1 := target]> targets)) ∅ (btree_iter packages_by_path).

Definition collect_link_names_by_target (link_targets_by_path : gmap string string) : gmap string (gset string) :=
  foldl (fun (names_by_target : gmap string (gset string)) e =>
    match package_name_from_install_path e.1 with
    | None => names_by_target
    | Some name => <[e.2 := {[name]} ∪ default ∅ (names_by_target !! e.2)]> names_by_target
    end) ∅ (btree_iter link_targets_by_path).

Definition resolve_package_name (path install_path : string) (package : RawNpmPackage)
    (link_names : option (gset string)) : Result string :=
  let own := name ← np_name package; if is_empty name then None else Some name in
  match own with
  | Some name => Ok name
  | None =>
  match package_name_from_install_path install_path with
  | Some name => Ok name
  | None =>
  match bset_iter (default ∅ link_names) with
  | [name] => Ok name
  | _ :: _ as names =>
      Err (LockfileError path (lockfile_name path +:+ " local package entry `" +:+ install_path
        +:+ "` is linked from multiple names: " +:+ join ", " names))
  | [] =>
      let fallback := last_piece "/" install_path in
      if is_empty fallback then
        Err (LockfileError path (lockfile_name path +:+ " package entry `" +:+ install_path
          +:+ "` is missing a package name"))
      else Ok fallback
  end end end.

Definition package_entry (path : string) (link_names_by_target : gmap string (gset string))
    (install_path : string) (package : RawNpmPackage) : Result PackageEntry :=
  name ← resolve_package_name path install_path package (link_names_by_target !! install_path);
  version ← ok_or (LockfileError path (lockfile_name path +:+ " package entry `" +:+ install_path
                     +:+ "` is missing a version"))
              (version ← np_version package; if is_empty version then None else Some version);
  Ok {| pe_install_path := install_path; pe_name := name; pe_version := version;
        pe_lock_key := package_key name version |}.

Definition is_entry (workspace_member_paths : gset string) (install_path : string) (package : RawNpmPackage) : bool :=
  negb (is_empty install_path) && negb (np_link package)
  && negb (bool_decide (install_path ∈ workspace_member_paths)).

Definition collect_package_entries (path : string) (packages_by_path : gmap string RawNpmPackage)
    (workspace_member_paths : gset string) (link_names_by_target : gmap string (gset string))
  : Result (list PackageEntry) :=
  try_fold (fun entries e =>
    if is_entry workspace_member_paths e.1 e.2
    then entry ← package_entry path link_names_by_target e.1 e.2; Ok (entries ++ [entry])
    else Ok entries) [] (btree_iter packages_by_path).

Definition build_install_path_map (path : string) (package_entries : list PackageEntry)
    (link_targets_by_path : gmap string string) (workspace_member_paths : gset string)
  : Result (gmap string string) :=
  try_fold (fun (install_path_to_package_key : gmap string string) e =>
    let '(install_path, target_path) := e in
    if decide (target_path ∈ workspace_member_paths) then Ok install_path_to_package_key
    else
      target_key ← ok_or (LockfileError path (lockfile_name path +:+ " link entry `" +:+ install_path
                            +:+ "` points to missing package entry `" +:+ target_path +:+ "`"))
                     (install_path_to_package_key !! target_path);
      Ok (<[install_path := target_key]> install_path_to_package_key))
    (collect ((fun entry => (pe_install_path entry, pe_lock_key entry)) <$> package_entries))
    (btree_iter link_targets_by_path).

(** ** Resolving a dependency *)
Section resolve.
Context (path : string) (install_path_to_package_key link_targets_by_path : gmap string string)
  (workspace_member_paths : gset string).

Definition candidate_resolution (candidate : string) : option DependencyResolution :=
  match install_path_to_package_key !! candidate with
  | Some dep_key => Some (PackageKey dep_key)
  | None =>
      target_path ← link_targets_by_path !! candidate;
      if decide (target_path ∈ workspace_member_paths) then Some WorkspaceMember else None
  end.

Definition resolve_dependency (dep_name source_install_path : string) : DependencyResolution :=
  default Missing
    (head (omap candidate_resolution (dependency_candidate_paths source_install_path dep_name))).

(** ** Tarballs *)
Definition build_local_file_url (project_root relative_path : string) : string :=
  "file://" +:+ path_push project_root relative_path.

Definition local_file_url (project_root resolved : string) : option string :=
  let resolved := trim resolved in
  if is_empty resolved then None
  else match strip_prefix "file://" resolved with
  | Some path => Some ("file://" +:+ path)
  | None =>
  match strip_prefix "file:" resolved with
  | Some path => Some (build_local_file_url project_root path)
  | None =>
      if starts_with "http://" resolved || starts_with "https://" resolved || contains "://" resolved then None
      else Some (build_local_file_url project_root resolved)
  end end.

Definition build_package_tarball (project_root : string) (config : SnpmConfig) (entry : PackageEntry)
    (raw : RawNpmPackage) : string :=
  let remote := resolved ← np_resolved raw;
                if starts_with "http://" resolved || starts_with "https://" resolved then Some resolved
                else local_file_url project_root resolved in
  match remote with
  | Some url => url
  | None =>
      if negb (contains_node_modules (pe_install_path entry))
      then "file://" +:+ path_push project_root (pe_install_path entry)
      else default ε (derive_registry_tarball config (pe_name entry) (pe_version entry))
  end.

(** ** Packages *)
Definition has_bin (value : json) : bool :=
  match value with
  | JString value => negb (is_empty value)
  | JObject value => bool_decide (value <> ∅)
  | _ => false
  end.

Definition required_dependency (entry : PackageEntry) (dependencies : gmap string string) (dep_name : string)
  : Result (gmap string string) :=
  match resolve_dependency dep_name (pe_install_path entry) with
  | PackageKey dep_key => Ok (<[dep_name := dep_key]> dependencies)
  | WorkspaceMember | Missing =>
      Err (LockfileError path (lockfile_name path +:+ " dependency `" +:+ dep_name +:+ "` from `"
        +:+ pe_install_path entry +:+ "` could not be resolved from the imported lockfile"))
  end.

Definition optional_dependency (entry : PackageEntry) (dependencies : gmap string string) (dep_name : string)
  : gmap string string :=
  match resolve_dependency dep_name (pe_install_path entry) with
  | PackageKey dep_key => <[dep_name := dep_key]> dependencies
  | WorkspaceMember | Missing => dependencies
  end.

Definition package_dependencies (entry : PackageEntry) (raw : RawNpmPackage) : Result (gmap string string) :=
  dependencies ← try_fold (required_dependency entry) ∅ (btree_keys (np_dependencies raw));
  Ok (foldl (optional_dependency entry) dependencies (btree_keys (np_optional_dependencies raw))).

Definition lock_package (config : SnpmConfig) (packages_by_path : gmap string RawNpmPackage) (entry : PackageEntry)
  : Result LockPackage :=
  let project_root := default "." (parent path) in
  raw ← ok_or (LockfileError path (lockfile_name path +:+ " package entry `" +:+ pe_install_path entry
                 +:+ "` disappeared during import"))
          (packages_by_path !! pe_install_path entry);
  dependencies ← package_dependencies entry raw;
  Ok {| lp_name := pe_name entry;
        lp_version := pe_version entry;
        lp_tarball := build_package_tarball project_root config entry raw;
        lp_integrity := np_integrity raw;
        lp_dependencies := dependencies;
        lp_peer_dependencies :=
          required_peer_dependencies_with_meta (np_peer_dependencies raw) (np_peer_dependencies_meta raw);
        lp_bundled_dependencies :=
          value ← (match np_bundled_dependencies raw with Some b => Some b | None => np_bundle_dependencies raw end);
          if bundled_is_empty value then None else Some value;
        lp_has_bin := match np_bin raw with Some value => has_bin value | None => false end;
        lp_bin := None |}.

Definition variants_conflict (entry : PackageEntry) : SnpmError :=
  LockfileError path (lockfile_name path
    +:+ " contains multiple package variants that collapse to the same snpm package key `" +:+ pe_lock_key entry +:+ "`").

Definition build_packages (config : SnpmConfig) (packages_by_path : gmap string RawNpmPackage)
    (package_entries : list PackageEntry) : Result (gmap string LockPackage) :=
  try_fold (insert_entry pe_lock_key (lock_package config packages_by_path) variants_conflict) ∅ package_entries.

(** ** Root dependencies *)
Definition root_conflict_error (source_label dep_name value other : string) : SnpmError :=
  LockfileError path (lockfile_name path +:+ " entry `" +:+ display_source_label source_label
    +:+ "` declares dependency `" +:+ dep_name +:+ "` with conflicting values `" +:+ value +:+ "` and `"
    +:+ other +:+ "`").

(** The dependency of the root for an entry of a block; [None]: served by the
    workspace, left out. *)
Definition root_dependency (source_label source_install_path : string) (optional allow_workspace_members : bool)
    (dep_name requested : string) : Result (option LockRootDependency) :=
  match resolve_dependency dep_name source_install_path with
  | PackageKey dep_key =>
      if optional then Ok (Some (build_optional_root_dependency dep_name requested (Some dep_key)))
      else Some <$> build_required_root_dependency path dep_name requested dep_key
  | WorkspaceMember =>
      if allow_workspace_members then Ok None
      else if optional then Ok (Some (build_optional_root_dependency dep_name requested None))
      else Err (LockfileError path (lockfile_name path +:+ " dependency `" +:+ dep_name +:+ "` from `" +:+ source_label
                  +:+ "` resolves to an unsupported workspace member link"))
  | Missing =>
      if optional then Ok (Some (build_optional_root_dependency dep_name requested None))
      else Err (LockfileError path (lockfile_name path +:+ " root dependency `" +:+ dep_name +:+ "` from `"
                  +:+ source_label +:+ "` could not be resolved from the imported lockfile"))
  end.

Definition insert_root_block (source_label source_install_path : string) (block : gmap string string)
    (optional allow_workspace_members : bool) (root : gmap string LockRootDependency)
  : Result (gmap string LockRootDependency) :=
  try_fold (fun root e =>
    incoming ← root_dependency source_label source_install_path optional allow_workspace_members e.1 e.2;
    match incoming with
    | None => Ok root
    | Some incoming => merge_root_dependency (root_conflict_error source_label e.1) e.1 incoming root
    end) root (btree_iter block).

Definition insert_root_blocks (source_label source_install_path : string) (package : RawNpmPackage)
    (allow_workspace_members : bool) (root : gmap string LockRootDependency)
  : Result (gmap string LockRootDependency) :=
  root ← insert_root_block source_label source_install_path (np_dependencies package) false allow_workspace_members root;
  root ← insert_root_block source_label source_install_path (np_dev_dependencies package) false allow_workspace_members root;
  insert_root_block source_label source_install_path (np_optional_dependencies package) true allow_workspace_members root.

Definition build_root_from_entry (source_label source_install_path : string) (package : RawNpmPackage)
    (allow_workspace_members : bool) : Result (gmap string LockRootDependency) :=
  insert_root_blocks source_label source_install_path package allow_workspace_members ∅.

Definition build_workspace_root (packages_by_path : gmap string RawNpmPackage)
  : Result (gmap string LockRootDependency) :=
  try_fold (fun dependencies member_path =>
    member ← ok_or (LockfileError path (lockfile_name path +:+ " workspace member entry `" +:+ member_path
                      +:+ "` disappeared during import"))
               (packages_by_path !! member_path);
    insert_root_blocks member_path member_path member true dependencies)
    ∅ (bset_iter workspace_member_paths).
End resolve.

(** ** Reading *)
Section read.
Context `{JsonCrate} `{NpmFormat} (tree : FileTree).

Definition raw_lockfile (path data : string) : Result (gmap string RawNpmPackage) :=
  version ← map_err (ParseJson path) (parse_probe data);
  if (version =? 1)%N then parse_v1_as_v2 tree path data
  else if (version =? 2)%N || (version =? 3)%N then map_err (ParseJson path) (parse_lockfile data)
  else Err (LockfileError path (lockfile_name path +:+ " lockfileVersion " +:+ show_N version
         +:+ " is not supported; only npm lockfile v1/v2/v3 is currently supported")).

Definition import (path : string) (config : SnpmConfig) (raw : gmap string RawNpmPackage) : Result Lockfile :=
  let packages_by_path := normalize_packages raw in
  root_entry ← ok_or (LockfileError path (lockfile_name path +:+ " is missing the root package entry"))
                 (packages_by_path !! ε);
  let members := collect_workspace_member_paths root_entry packages_by_path in
  links ← collect_link_targets path packages_by_path;
  package_entries ← collect_package_entries path packages_by_path members (collect_link_names_by_target links);
  keys ← build_install_path_map path package_entries links members;
  packages ← build_packages path keys links members config packages_by_path package_entries;
  root ← match np_workspaces root_entry with
         | [] => build_root_from_entry path keys links members "." ε root_entry false
         | _ => build_workspace_root path keys links members packages_by_path
         end;
  Ok {| l_version := 1; l_root := root; l_packages := packages |}.

Definition read (path : string) (config : SnpmConfig) : Result Lockfile :=
  data ← map_err (ReadFile path) (read_to_string tree path);
  raw ← raw_lockfile path data;
  import path config raw.
End read.
End Npm.
Import Npm.

(** ** An imported lockfile is closed *)
Section closed.
Context (path : string) (install_path_to_package_key link_targets_by_path : gmap string string)
  (workspace_member_paths : gset string).
Context (known : string -> Prop).
Context (Hknown : forall install_path key, install_path_to_package_key !! install_path = Some key -> known key).
Let resolve := resolve_dependency install_path_to_package_key link_targets_by_path workspace_member_paths.

Lemma npm_resolved_known dep_name source key : resolve dep_name source = PackageKey key -> known key.
Proof.
  unfold resolve, resolve_dependency. destruct (head _) as [r|] eqn:Hr; cbn; [|done]. intros ->.
  apply head_Some_elem_of, list_elem_of_omap in Hr as (candidate & _ & Hc).
  unfold candidate_resolution in Hc.
  destruct (install_path_to_package_key !! candidate) eqn:Hk; [injection Hc as <-; by eapply Hknown|].
  destruct (link_targets_by_path !! candidate); cbn in Hc; [|done]. by case_decide.
Qed.

Lemma package_dependencies_known entry raw dependencies :
  package_dependencies path install_path_to_package_key link_targets_by_path workspace_member_paths entry raw
    = Ok dependencies -> deps_known known dependencies.
Proof.
  intros (required & Hreq & [= <-])%result_bind_Ok.
  apply (foldl_inv _ (deps_known known)).
  - intros deps name _ Hd. unfold optional_dependency.
    destruct (resolve_dependency _ _ _ _ _) eqn:Hr; [|done..].
    apply npm_resolved_known in Hr. by apply deps_known_insert.
  - eapply (try_fold_inv _ (deps_known known) _ _ _ _ _ Hreq). Unshelve.
    + intros deps name deps' _ Hd. unfold required_dependency.
      destruct (resolve_dependency _ _ _ _ _) eqn:Hr; [|done..]. intros [= <-].
      apply npm_resolved_known in Hr. by apply deps_known_insert.
    + apply deps_known_empty.
Qed.

Lemma npm_lock_package_spec config packages_by_path entry package :
  lock_package path install_path_to_package_key link_targets_by_path workspace_member_paths config packages_by_path entry
    = Ok package ->
  lp_name package = pe_name entry /\ lp_version package = pe_version entry /\ deps_known known (lp_dependencies package).
Proof.
  intros (raw & _ & (deps & Hdeps & [= <-])%result_bind_Ok)%result_bind_Ok. cbn. split_and!; [done..|].
  by apply package_dependencies_known in Hdeps.
Qed.

Lemma npm_root_dependency_within label source optional allow name requested incoming :
  root_dependency path install_path_to_package_key link_targets_by_path workspace_member_paths
    label source optional allow name requested = Ok (Some incoming) ->
  root_within known name incoming.
Proof.
  unfold root_dependency. destruct (resolve_dependency _ _ _ _ _) as [key| |] eqn:Hr.
  - apply npm_resolved_known in Hr. destruct optional.
    + intros [= <-]. apply build_optional_within. by intros ? [= <-].
    + destruct (build_required_root_dependency _ _ _ _) as [dep|] eqn:Hb; cbn; [|done].
      intros [= <-]. by eapply build_required_within.
  - destruct allow; [done|]. destruct optional; [|done]. intros [= <-]. by apply build_optional_within.
  - destruct optional; [|done]. intros [= <-]. by apply build_optional_within.
Qed.

Lemma npm_insert_root_block_within label source block optional allow root root' :
  roots_within known root ->
  insert_root_block path install_path_to_package_key link_targets_by_path workspace_member_paths
    label source block optional allow root = Ok root' -> roots_within known root'.
Proof.
  intros Hroot. apply (try_fold_inv _ (roots_within known)); [|done].
  intros r [name requested] r' _ Hr (incoming & Hin & Hm)%result_bind_Ok.
  destruct incoming as [incoming|]; [|by injection Hm as <-].
  eapply merge_root_within; [done| |done]. by eapply npm_root_dependency_within.
Qed.

Lemma npm_insert_root_blocks_within label source package allow root root' :
  roots_within known root ->
  insert_root_blocks path install_path_to_package_key link_targets_by_path workspace_member_paths
    label source package allow root = Ok root' -> roots_within known root'.
Proof.
  intros Hroot (r1 & H1 & (r2 & H2 & H3)%result_bind_Ok)%result_bind_Ok.
  do 3 (eapply npm_insert_root_block_within; [|done]). done.
Qed.
End closed.

Lemma npm_collect_package_entries_spec path packages_by_path members names entries entry :
  collect_package_entries path packages_by_path members names = Ok entries -> entry ∈ entries ->
  pe_lock_key entry = package_key (pe_name entry) (pe_version entry) /\
  exists package, packages_by_path !! pe_install_path entry = Some package /\
    is_entry members (pe_install_path entry) package = true /\ np_version package = Some (pe_version entry).
Proof.
  intros Hc Hin. revert entry Hin.
  set (P := fun entries : list PackageEntry => forall entry, entry ∈ entries ->
    pe_lock_key entry = package_key (pe_name entry) (pe_version entry) /\
    exists package, packages_by_path !! pe_install_path entry = Some package /\
      is_entry members (pe_install_path entry) package = true /\ np_version package = Some (pe_version entry)).
  apply (try_fold_inv _ P) with (3 := Hc); [|by intros ? []%not_elem_of_nil].
  intros l [install_path package] l' Hl%elem_of_btree_iter HP. cbn.
  destruct (is_entry members install_path package) eqn:He; [|by intros [= <-]].
  intros (e & (name & Hname & (version & Hv & [= <-])%result_bind_Ok)%result_bind_Ok & [= <-])%result_bind_Ok.
  intros entry [Hin| ->%list_elem_of_singleton]%elem_of_app; [by apply HP|]. cbn. split; [done|].
  exists package. split_and!; [done..|].
  destruct (np_version package) as [v|]; cbn in Hv; [|done]. destruct (is_empty v); [done|]. by injection Hv as ->.
Qed.

Lemma build_install_path_map_spec path entries links members keys install_path key :
  build_install_path_map path entries links members = Ok keys -> keys !! install_path = Some key ->
  exists entry, entry ∈ entries /\ key = pe_lock_key entry.
Proof.
  intros Hb. revert install_path key.
  set (P := fun keys : gmap string string => forall install_path key, keys !! install_path = Some key ->
    exists entry, entry ∈ entries /\ key = pe_lock_key entry).
  apply (try_fold_inv _ P) with (3 := Hb).
  - intros m [link target] m' _ HP. cbn. case_decide; [by intros [= <-]|].
    intros (k & Hk & [= <-])%result_bind_Ok. intros p k' [[_ <-]|[_ ?]]%lookup_insert_Some; [|by eapply HP].
    destruct (m !! target) eqn:Ht; cbn in Hk; [|done]. injection Hk as <-. by eapply HP.
  - intros p k Hk%collect_lookup_Some%list_elem_of_fmap. destruct Hk as (e & [= _ ->] & He). by exists e.
Qed.

Lemma npm_import_closed path config raw lockfile :
  import path config raw = Ok lockfile -> lockfile_closed lockfile.
Proof.
  unfold import. intros (root_entry & _ & (links & _ & (entries & Hentries & (keys & Hkeys &
    (packages & Hpackages & (root & Hroot & [= <-])%result_bind_Ok)%result_bind_Ok)%result_bind_Ok)%result_bind_Ok)
    %result_bind_Ok)%result_bind_Ok.
  set (known := fun key => exists entry, entry ∈ entries /\ key = pe_lock_key entry).
  assert (Hknown : forall p k, keys !! p = Some k -> known k)
    by (intros p k; by eapply build_install_path_map_spec).
  apply (imported_closed pe_lock_key _ _ entries packages root known _ ltac:(intros k (e & ? & ->); by exists e) Hpackages).
  - intros entry p Hin Hm. eapply npm_lock_package_spec in Hm as (Hn & Hv & Hd); [|exact Hknown].
    destruct (npm_collect_package_entries_spec _ _ _ _ _ _ Hentries Hin) as [-> _].
    unfold package_filed. by rewrite Hn, Hv.
  - destruct (np_workspaces root_entry).
    + eapply npm_insert_root_blocks_within; [exact Hknown|apply roots_within_empty|exact Hroot].
    + eapply (try_fold_inv _ (roots_within known)); [|apply roots_within_empty|exact Hroot].
      intros r m r' _ Hr (member & _ & Hins)%result_bind_Ok.
      eapply npm_insert_root_blocks_within; [exact Hknown|exact Hr|exact Hins].
Qed.

(** ** The lookup is Node's *)
Section node.
Context (dep_name : string).

Definition path_name (name : string) : Prop := is_empty name = false /\ contains_char "/" name = false.

(** The place of [dep_name] in the [node_modules] of a directory. *)
Definition in_node_modules (names : list string) : string :=
  match names with
  | [] => "node_modules/" +:+ dep_name
  | _ => path_of names +:+ "/node_modules/" +:+ dep_name
  end.

(** Node's algorithm: the [node_modules] of the directory and of every one above
    it, but for those that are themselves called [node_modules]. *)
Fixpoint node_lookup (names : list string) : list string :=
  match names with
  | [] => [in_node_modules []]
  | name :: above =>
      if decide (name = "node_modules") then node_lookup above else in_node_modules names :: node_lookup above
  end.

(** No [node_modules] directly inside another. *)
Fixpoint not_nested (names : list string) : Prop :=
  match names with
  | [] => True
  | name :: above => (name = "node_modules" -> head above <> Some "node_modules") /\ not_nested above
  end.

Lemma path_names_nonempty names : Forall path_name names -> Forall (fun name => is_empty name = false) names.
Proof. intros Hall. by eapply Forall_impl; [exact Hall|]; intros ? []. Qed.

Lemma parent_path_of name names :
  Forall path_name (name :: names) -> parent_path (path_of (name :: names)) = Some (path_of names).
Proof.
  intros Hall. unfold parent_path. rewrite path_of_nonempty by (by try apply path_names_nonempty). apply Forall_cons in Hall as [[_ Hn] _].
  rewrite path_of_cons. destruct names as [|y names].
  - by rewrite (proj2 (rfind_char_None "/" name)).
  - change ("/" +:+ name) with (String "/" name). rewrite rfind_char_app by done. by rewrite stake_app.
Qed.

Lemma bases_go_of fuel names :
  Forall path_name names -> length names < fuel -> bases_go fuel (path_of names) = path_of <$> suffixes names.
Proof.
  revert names. induction fuel as [|fuel IH]; intros names Hall Hlen; [lia|]. cbn [bases_go].
  destruct names as [|x names]; [done|]. rewrite parent_path_of by done. cbn [suffixes fmap list_fmap]. f_equal.
  apply IH; [by apply Forall_cons in Hall as []|cbn in Hlen; lia].
Qed.

Lemma candidate_of names :
  Forall path_name names ->
  dependency_candidate (path_of names) dep_name =
  match names with
  | name :: above => if decide (name = "node_modules") then in_node_modules above else in_node_modules names
  | [] => in_node_modules []
  end.
Proof.
  destruct names as [|x names]; [done|]. intros Hall. unfold dependency_candidate.
  rewrite path_of_nonempty by (by try apply path_names_nonempty). apply Forall_cons in Hall as [[_ Hx] Hall]. rewrite path_of_cons.
  destruct names as [|y names].
  - unfold last_piece. rewrite (proj2 (rfind_char_None "/" x)) by done. cbn.
    destruct (String.eqb_spec x "node_modules") as [->|Hne]; [done|]. by rewrite decide_False.
  - assert (last_piece "/" (path_of (y :: names) +:+ "/" +:+ x) = x) as ->.
    { unfold last_piece. change ("/" +:+ x) with (String "/" x). rewrite rfind_char_app by done.
      by rewrite sdrop_app_S. }
    destruct (String.eqb_spec (path_of (y :: names) +:+ "/" +:+ x) "node_modules") as [Heq|_].
    { assert (contains_char "/" "node_modules" = true) by (rewrite <-Heq, !contains_char_app; cbn; by rewrite orb_true_r).
      done. }
    cbn [orb]. destruct (String.eqb_spec x "node_modules") as [->|Hne].
    + rewrite decide_True by done. cbn [in_node_modules]. by rewrite <-!app_assoc_s.
    + rewrite decide_False by done. cbn [in_node_modules]. by rewrite (path_of_cons x), <-!app_assoc_s.
Qed.

Lemma in_node_modules_length names :
  Forall path_name names ->
  String.length (in_node_modules names) =
    String.length (path_of names) + match names with [] => 0 | _ => 1 end + String.length ("node_modules/" +:+ dep_name).
Proof. destruct names; intros _; [done|]. cbn [in_node_modules]. rewrite !length_app_s. cbn. lia. Qed.

Lemma suffix_shorter name names above :
  Forall path_name (name :: names) -> above ∈ suffixes names ->
  Forall path_name above /\ String.length (in_node_modules above) < String.length (in_node_modules (name :: names)).
Proof.
  intros Hall Hin.
  assert (Hle : Forall path_name above /\ String.length (path_of above) <= String.length (path_of names)
    /\ (names = [] -> above = [])).
  { apply Forall_cons in Hall as [_ Hall]. revert Hin. induction names as [|x names IH]; cbn [suffixes].
    - intros ->%list_elem_of_singleton. done.
    - intros [->|Hin]%elem_of_cons; [by split_and!|]. pose proof Hall as [_ Hn]%Forall_cons.
      destruct (IH Hn Hin) as (Ha & Hl & Hz). split_and!; [done| |done]. rewrite path_of_cons.
      destruct names as [|y names]; [by rewrite (Hz eq_refl); cbn; lia|]. rewrite !length_app_s. lia. }
  destruct Hle as (Ha & Hl & Hz). split; [done|]. rewrite !in_node_modules_length by done.
  apply Forall_cons in Hall as [[Hx _] _]. assert (1 <= String.length name) by (destruct name; [done|cbn; lia]).
  rewrite path_of_cons. destruct names as [|y names].
  - rewrite (Hz eq_refl). cbn. lia.
  - rewrite !length_app_s. cbn [String.length]. destruct above; lia.
Qed.

Notation candidates names := ((fun base => dependency_candidate base dep_name) <$> (path_of <$> suffixes names)).

Lemma candidates_head names :
  Forall path_name names -> head names <> Some "node_modules" ->
  exists rest, candidates names = in_node_modules names :: rest.
Proof.
  intros Hall Hhead. destruct names as [|x names]; cbn [suffixes fmap list_fmap]; [by eexists|].
  rewrite candidate_of by done. rewrite decide_False by (intros ->; by apply Hhead). by eexists.
Qed.

Lemma push_known l c : c ∈ l -> push_candidate l c = l.
Proof. intros Hc. unfold push_candidate. by rewrite decide_True. Qed.
Lemma push_new l c : c ∉ l -> push_candidate l c = l ++ [c].
Proof. intros Hc. unfold push_candidate. by rewrite decide_False. Qed.

Lemma push_candidates names seen :
  Forall path_name names -> not_nested names ->
  (forall above, above ∈ suffixes names -> in_node_modules above ∉ seen) ->
  foldl push_candidate seen (candidates names) = seen ++ node_lookup names.
Proof.
  revert seen. induction names as [|x names IH]; intros seen Hall Hnest Hfresh.
  { cbn. apply push_new. apply (Hfresh []). by left. }
  pose proof Hall as [_ Hn]%Forall_cons. destruct Hnest as [Hx Hnest].
  cbn [suffixes fmap list_fmap foldl]. rewrite candidate_of by done. cbn [node_lookup]. case_decide as Heq.
  - rewrite push_new by (apply Hfresh; right; by destruct names; left).
    rewrite <-IH by (try done; intros; apply Hfresh; by right).
    destruct (candidates_head names Hn (Hx Heq)) as [rest Hrest].
    unfold fmap in Hrest. unfold fmap. rewrite Hrest. cbn [foldl].
    rewrite (push_known (seen ++ _)) by (apply elem_of_app; right; by left).
    by rewrite push_new by (apply Hfresh; right; by destruct names; left).
  - rewrite push_new by (apply Hfresh; by left). rewrite IH, <-app_assoc; [done|done|done|].
    intros above Ha [Hin|Heq'%list_elem_of_singleton]%elem_of_app; [by eapply Hfresh; [right|]|].
    destruct (suffix_shorter x names above Hall Ha) as [_ Hlen]. rewrite Heq' in Hlen. lia.
Qed.

Lemma node_lookup_root names : in_node_modules [] ∈ node_lookup names.
Proof. induction names as [|x names IH]; cbn; [by left|]. case_decide; [done|by right]. Qed.
End node.

(** C33: A dependency of an imported npm lockfile is looked up where Node looks:
    for an install path the candidates are the [node_modules] of the directory and
    of every one above it in that order, those that are themselves called
    [node_modules] left out, and the answer is the first that has an entry or a
    link to a member. *)
Theorem npm_lookup_is_node keys links members parts dep_name :
  Forall path_name parts -> not_nested (reverse parts) ->
  dependency_candidate_paths (join "/" parts) dep_name = node_lookup dep_name (reverse parts) /\
  resolve_dependency keys links members dep_name (join "/" parts) =
    default Missing (head (omap (candidate_resolution keys links members) (node_lookup dep_name (reverse parts)))).
Proof.
  intros Hall Hnest. assert (Hrev : Forall path_name (reverse parts)) by by rewrite Forall_reverse.
  assert (Hpaths : dependency_candidate_paths (join "/" parts) dep_name = node_lookup dep_name (reverse parts)).
  { unfold dependency_candidate_paths, bases.
    assert (join "/" parts = path_of (reverse parts)) as -> by (unfold path_of; by rewrite reverse_involutive).
    rewrite bases_go_of by (try done; pose proof (path_of_length _ (path_names_nonempty _ Hrev)); lia).
    rewrite push_candidates by (try done; intros; apply not_elem_of_nil). cbn [app].
    apply push_known, node_lookup_root. }
  split; [done|]. unfold resolve_dependency. by rewrite Hpaths.
Qed.

(** ** Concrete inputs *)
Module NpmDemo.
Definition entry (version resolved : option string) (deps : list (string * string)) : RawNpmPackage :=
  let package := default_package None version in
  {| np_name := None; np_version := version; np_resolved := resolved; np_integrity := None; np_link := false;
     np_dependencies := list_to_map deps; np_dev_dependencies := ∅; np_optional_dependencies := ∅;
     np_peer_dependencies := ∅; np_peer_dependencies_meta := ∅; np_bundled_dependencies := None;
     np_bundle_dependencies := None; np_bin := None; np_workspaces := [] |}.

(** Two versions of [b], one of them below [a]. *)
Definition raw : gmap string RawNpmPackage := list_to_map [
  (ε, entry None None [("a", "^1.0.0"); ("b", "^2.0.0")]);
  ("node_modules/a", entry (Some "1.0.0") (Some "https://r.test/a.tgz") [("b", "^1.0.0")]);
  ("node_modules/a/node_modules/b", entry (Some "1.0.0") None []);
  ("./node_modules/b/", entry (Some "2.0.0") (Some "file:vendor/b") [])].

Example npm_imported :
  (fun l => (btree_keys (l_packages l), btree_iter ∘ lp_dependencies <$> l_packages l !! "a@1.0.0",
             lp_tarball <$> l_packages l !! "b@2.0.0")) <$>
    result_ok (import "/p/package-lock.json" config_for_tests raw) =
  Some (["a@1.0.0"; "b@1.0.0"; "b@2.0.0"], Some [("b", "b@1.0.0")], Some "file:///p/vendor/b").
Proof. vm_refl. Qed.

Lemma npm_lookup_is_node_witness :
  dependency_candidate_paths "node_modules/@s/a/node_modules/b" "c" =
    ["node_modules/@s/a/node_modules/b/node_modules/c"; "node_modules/@s/a/node_modules/c";
     "node_modules/@s/node_modules/c"; "node_modules/c"].
Proof.
  apply (npm_lookup_is_node ∅ ∅ ∅ ["node_modules"; "@s"; "a"; "node_modules"; "b"] "c").
  - repeat constructor.
  - cbn. by split_and!.
Defined.

(** A git dependency, which has the version of its manifest, is imported as the
    package of that name and version of the registry. *)
Example git_dependency_becomes_registry_package :
  lp_tarball <$> (result_ok (import "/p/package-lock.json" config_for_tests
    (list_to_map [(ε, entry None None [("lib", "github:me/lib")]);
      ("node_modules/lib", entry (Some "1.2.3") (Some "git+ssh://git@github.com/me/lib.git#4f3c") [])]))
    ≫= fun l => l_packages l !! "lib@1.2.3") =
  Some "https://registry.npmjs.org/lib/-/lib-1.2.3.tgz".
Proof. vm_refl. Qed.

(** In version 1 its version is its address, whose [@] ends up in the name: the
    root depends on a package that is not in the graph. *)
Example git_address_splits_the_name :
  (fun graph => (id_name ∘ rd_resolved <$> g_root graph !! "lib",
                 (fun id => (id_name id, id_version id)) <$> btree_keys (g_packages graph))) ∘ Lockfile.Graph.to_graph <$>
    result_ok (import "/p/package-lock.json" config_for_tests
      (list_to_map [(ε, entry None None [("lib", "github:me/lib")]);
        ("node_modules/lib", entry (Some "git+ssh://git@github.com/me/lib.git#4f3c") None [])])) =
  Some (Some "lib@git+ssh://git", [("lib", "git+ssh://git@github.com/me/lib.git#4f3c")]).
Proof. vm_refl. Qed.
End NpmDemo.
