(* ===== verification/PnpmLock.v ===== *)
(** * The importer of pnpm lockfiles ([lockfile/compat/pnpm.rs])

    The main document of a file with several, the entries with their peer
    suffixes, the packages and the root dependencies of all importers.  What
    serde makes of the text is the interface [PnpmFormat]. *)
From S2P Require Import Prelude.
From S2P Require Import BTree.
From S2P Require Import Text.
From S2P Require Import Errors.
From S2P Require Import Types.
From S2P Require Import Paths.
From S2P Require Import Lockfile.
From S2P Require Import Compat.

Module Pnpm.
Inductive RawImporterDependency :=
| Inline (specifier version : string)
| Version (version : string).

Definition dep_version (dep : RawImporterDependency) : string :=
  match dep with Inline _ version => version | Version version => version end.

Definition dep_specifier (dep : RawImporterDependency) (name : string) (specifiers : gmap string string)
  : option string :=
  match dep with Inline specifier _ => Some specifier | Version _ => specifiers !! name end.

Record RawImporter := {
  ri_specifiers : gmap string string;
  ri_dependencies : gmap string RawImporterDependency;
  ri_dev_dependencies : gmap string RawImporterDependency;
  ri_optional_dependencies : gmap string RawImporterDependency;
}.

Record RawPackageInfo := {
  (** [RawResolution] *)
  pi_tarball : option string;
  pi_integrity : option string;
  pi_name : option string;
  pi_version : option string;
  pi_bundled_dependencies : option BundledDependencies;
  pi_has_bin : bool;
  pi_peer_dependencies : gmap string string;
  (** [PeerDependencyMeta::optional] *)
  pi_peer_dependencies_meta : gmap string bool;
}.

Record RawSnapshot := {
  rs_dependencies : gmap string string;
  rs_optional_dependencies : gmap string string;
}.

(** The version of the file as [stringify_lockfile_version] sees it: the text of
    a string or of a number, or something else. *)
Inductive VersionValue := VersionString (value : string) | VersionNumber (text : string) | VersionOther.

Record RawPnpmLockfile := {
  rl_lockfile_version : VersionValue;
  rl_importers : gmap string RawImporter;
  rl_packages : gmap string RawPackageInfo;
  rl_snapshots : gmap string RawSnapshot;
}.

(** [serde_yaml::from_str] at [RawPnpmLockfile] *)
Class PnpmFormat := { parse_lockfile : string -> result string RawPnpmLockfile }.

Record PackageEntry := {
  pe_source_key : string;
  pe_lookup_key : string;
  pe_name : string;
  pe_version : string;
  pe_lock_key : string;
}.

(** ** Text *)
Definition newline : string := chr "010".

Definition extract_main_document (content : string) : string :=
  let START := "---" +:+ newline in
  let SEP := newline +:+ "---" +:+ newline in
  match strip_prefix START content with
  | None => content
  | Some rest =>
      match find_str SEP rest with
      | None => rest
      | Some idx => sdrop (idx + String.length START + String.length SEP) content
      end
  end.

Definition stringify_lockfile_version (value : VersionValue) : option string :=
  match value with VersionString value => Some value | VersionNumber text => Some text | VersionOther => None end.

Definition strip_peer_suffix (dep_ref : string) : string := head_piece "(" dep_ref.

(** ** Entries *)
Definition canonical_lookup_key (source_key : string) (packages : gmap string RawPackageInfo) : string :=
  let stripped := strip_peer_suffix source_key in
  match packages !! stripped with Some _ => stripped | None => source_key end.

Definition parse_package_identity (path lookup_key : string) (package_info : option RawPackageInfo)
  : Result (string * string) :=
  '(parsed_name, parsed_version) ←
    ok_or (LockfileError path ("unsupported pnpm package key `" +:+ lookup_key +:+ "`")) (split_dep_key lookup_key);
  let name := default parsed_name (info ← package_info; pi_name info) in
  let version := default parsed_version
    (info ← package_info; value ← pi_version info; if is_empty value then None else Some value) in
  Ok (name, version).

Definition package_entry (path : string) (raw : RawPnpmLockfile) (source_key : string) : Result PackageEntry :=
  let lookup_key := canonical_lookup_key source_key (rl_packages raw) in
  '(name, version) ← parse_package_identity path lookup_key (rl_packages raw !! lookup_key);
  Ok {| pe_source_key := source_key; pe_lookup_key := lookup_key; pe_name := name; pe_version := version;
        pe_lock_key := package_key name version |}.

Definition source_keys (raw : RawPnpmLockfile) : list string :=
  if decide (rl_snapshots raw = ∅) then btree_keys (rl_packages raw) else btree_keys (rl_snapshots raw).

Definition collect_package_entries (path : string) (raw : RawPnpmLockfile) : Result (list PackageEntry) :=
  try_fold (fun entries source_key => entry ← package_entry path raw source_key; Ok (entries ++ [entry]))
    [] (source_keys raw).

Definition build_dep_path_map (entries : list PackageEntry) : gmap string string :=
  foldl (fun (dep_paths : gmap string string) entry =>
    let dep_paths := <[pe_source_key entry := pe_lock_key entry]> dep_paths in
    match dep_paths !! pe_lookup_key entry with
    | Some _ => dep_paths
    | None => <[pe_lookup_key entry := pe_lock_key entry]> dep_paths
    end) ∅ entries.

Definition resolve_dependency_key (dep_name dep_ref : string) (dep_path_to_package_key : gmap string string)
  : option string :=
  let dep_ref := strip_peer_suffix dep_ref in
  let candidate := match dep_path_to_package_key !! dep_ref with
                   | Some _ => dep_ref
                   | None => dep_name +:+ "@" +:+ dep_ref
                   end in
  dep_path_to_package_key !! candidate.

(** ** Packages *)
Definition looks_like_registry_package (lookup_key : string) : bool :=
  match split_dep_key lookup_key with
  | None => false
  | Some (_, version) => is_registry_version version
  end.

Definition derive_registry_tarball (config : SnpmConfig) (name version lookup_key : string) : option string :=
  if looks_like_registry_package lookup_key then Some (registry_tarball config name version) else None.

Section packages.
Context (path : string) (dep_path_to_package_key : gmap string string).

Definition required_dependency (dependencies : gmap string string) (e : string * string)
  : Result (gmap string string) :=
  dep_key ← ok_or (LockfileError path ("pnpm dependency `" +:+ e.1 +:+ "` -> `" +:+ e.2
                     +:+ "` could not be resolved from the imported lockfile"))
              (resolve_dependency_key e.1 e.2 dep_path_to_package_key);
  Ok (<[e.1 := dep_key]> dependencies).

Definition optional_dependency (dependencies : gmap string string) (e : string * string) : gmap string string :=
  match resolve_dependency_key e.1 e.2 dep_path_to_package_key with
  | Some dep_key => <[e.1 := dep_key]> dependencies
  | None => dependencies
  end.

Definition snapshot_dependencies (snapshot : option RawSnapshot) : Result (gmap string string) :=
  match snapshot with
  | None => Ok ∅
  | Some snapshot =>
      dependencies ← try_fold required_dependency ∅ (btree_iter (rs_dependencies snapshot));
      Ok (foldl optional_dependency dependencies (btree_iter (rs_optional_dependencies snapshot)))
  end.

Definition lock_package (config : SnpmConfig) (raw : RawPnpmLockfile) (entry : PackageEntry) : Result LockPackage :=
  let snapshot := match rl_snapshots raw !! pe_source_key entry with
                  | Some snapshot => Some snapshot
                  | None => rl_snapshots raw !! pe_lookup_key entry
                  end in
  let package_info := rl_packages raw !! pe_lookup_key entry in
  dependencies ← snapshot_dependencies snapshot;
  Ok {| lp_name := pe_name entry;
        lp_version := pe_version entry;
        lp_tarball := default ε (match info ← package_info; pi_tarball info with
                                 | Some tarball => Some tarball
                                 | None => derive_registry_tarball config (pe_name entry) (pe_version entry)
                                             (pe_lookup_key entry)
                                 end);
        lp_integrity := info ← package_info; pi_integrity info;
        lp_dependencies := dependencies;
        lp_peer_dependencies := default ∅ ((fun info => required_peer_dependencies_with_meta
          (pi_peer_dependencies info) (pi_peer_dependencies_meta info)) <$> package_info);
        lp_bundled_dependencies := info ← package_info; pi_bundled_dependencies info;
        lp_has_bin := default false (pi_has_bin <$> package_info);
        lp_bin := None |}.

Definition variants_conflict (entry : PackageEntry) : SnpmError :=
  LockfileError path ("pnpm lockfile contains multiple peer-context variants for `" +:+ pe_lookup_key entry
    +:+ "` that collapse to the same snpm package key `" +:+ pe_lock_key entry +:+ "`").

Definition build_packages (config : SnpmConfig) (raw : RawPnpmLockfile) (entries : list PackageEntry)
  : Result (gmap string LockPackage) :=
  try_fold (insert_entry pe_lock_key (lock_package config raw) variants_conflict) ∅ entries.

(** ** Root dependencies *)
Definition display_importer_path (importer_path : string) : string :=
  if is_empty importer_path then "." else importer_path.

Definition importer_conflict_error (importer_path dep_name value other : string) : SnpmError :=
  LockfileError path ("pnpm importer `" +:+ display_importer_path importer_path +:+ "` declares dependency `"
    +:+ dep_name +:+ "` with conflicting values `" +:+ value +:+ "` and `" +:+ other +:+ "`").

Definition build_required_root_dependency (dep_name requested : string) (resolved : option string)
  : Result LockRootDependency :=
  dep_key ← ok_or (LockfileError path ("pnpm root dependency `" +:+ dep_name +:+ "` -> `" +:+ requested
                     +:+ "` could not be resolved from the imported lockfile")) resolved;
  Compat.build_required_root_dependency path dep_name requested dep_key.

Definition insert_root_block (importer_path : string) (importer : RawImporter)
    (block : gmap string RawImporterDependency) (optional : bool) (root : gmap string LockRootDependency)
  : Result (gmap string LockRootDependency) :=
  try_fold (fun root e =>
    let '(dep_name, dep) := e in
    let requested := default (dep_version dep) (dep_specifier dep dep_name (ri_specifiers importer)) in
    let resolved := resolve_dependency_key dep_name (dep_version dep) dep_path_to_package_key in
    incoming ← (if optional : bool then Ok (build_optional_root_dependency dep_name requested resolved)
                else build_required_root_dependency dep_name requested resolved);
    merge_root_dependency (importer_conflict_error importer_path dep_name) dep_name incoming root)
    root (btree_iter block).

Definition build_root (raw : RawPnpmLockfile) : Result (gmap string LockRootDependency) :=
  try_fold (fun dependencies e =>
    let '(importer_path, importer) := e in
    dependencies ← insert_root_block importer_path importer (ri_dependencies importer) false dependencies;
    dependencies ← insert_root_block importer_path importer (ri_dev_dependencies importer) false dependencies;
    insert_root_block importer_path importer (ri_optional_dependencies importer) true dependencies)
    ∅ (btree_iter (rl_importers raw)).
End packages.

(** ** Reading *)
Definition validate_importers (path : string) (importers : gmap string RawImporter) : Result unit :=
  if decide (importers = ∅) then Err (LockfileError path "pnpm-lock.yaml is missing the root importer") else Ok tt.

Definition check_lockfile_version (path : string) (raw : RawPnpmLockfile) : Result unit :=
  version ← ok_or (LockfileError path "pnpm-lock.yaml is missing a supported lockfileVersion")
              (stringify_lockfile_version (rl_lockfile_version raw));
  if starts_with "9" version then Ok tt
  else Err (LockfileError path ("pnpm lockfile version " +:+ version
         +:+ " is not supported yet; only pnpm v9 lockfiles are currently supported")).

Definition import (path : string) (config : SnpmConfig) (raw : RawPnpmLockfile) : Result Lockfile :=
  _ ← check_lockfile_version path raw;
  _ ← validate_importers path (rl_importers raw);
  package_entries ← collect_package_entries path raw;
  let keys := build_dep_path_map package_entries in
  packages ← build_packages path keys config raw package_entries;
  root ← build_root path keys raw;
  Ok {| l_version := 1; l_root := root; l_packages := packages |}.

(** The byte order mark *)
Definition bom : string := chr "239" +:+ chr "187" +:+ chr "191".
Fixpoint strip_bom (fuel : nat) (s : string) : string :=
  match fuel with
  | O => s
  | S fuel => match strip_prefix bom s with Some s => strip_bom fuel s | None => s end
  end.

Definition read `{PnpmFormat} (tree : FileTree) (path : string) (config : SnpmConfig) : Result Lockfile :=
  data ← map_err (ReadFile path) (read_to_string tree path);
  let content := extract_main_document (strip_bom (String.length data) data) in
  raw ← map_err (fun error => LockfileError path ("failed to parse pnpm-lock.yaml: " +:+ error))
          (parse_lockfile content);
  import path config raw.
End Pnpm.
Import Pnpm.

(** ** An imported lockfile is closed *)
Lemma build_dep_path_map_spec entries dep_path key :
  build_dep_path_map entries !! dep_path = Some key ->
  exists entry, entry ∈ entries /\ pe_lock_key entry = key.
Proof.
  revert dep_path key.
  set (P := fun keys : gmap string string => forall dep_path key, keys !! dep_path = Some key ->
    exists entry, entry ∈ entries /\ pe_lock_key entry = key).
  apply (foldl_inv _ P); [|intros ? ?; by rewrite lookup_empty].
  intros m entry Hin HP. cbv zeta.
  assert (HP' : P (<[pe_source_key entry := pe_lock_key entry]> m)).
  { intros d k [[_ <-]|[_ ?]]%lookup_insert_Some; [by exists entry|by eapply HP]. }
  destruct (_ !! pe_lookup_key entry); [done|].
  intros d k [[_ <-]|[_ ?]]%lookup_insert_Some; [by exists entry|by eapply HP'].
Qed.

Lemma pnpm_collect_package_entries_spec path raw entries entry :
  collect_package_entries path raw = Ok entries -> entry ∈ entries ->
  pe_lock_key entry = package_key (pe_name entry) (pe_version entry).
Proof.
  intros Hc. revert entry.
  set (P := fun entries : list PackageEntry => forall entry, entry ∈ entries ->
    pe_lock_key entry = package_key (pe_name entry) (pe_version entry)).
  apply (try_fold_inv _ P) with (3 := Hc); [|by intros ? []%not_elem_of_nil].
  intros l source_key l' _ HP (e & ([name version] & _ & [= <-])%result_bind_Ok & [= <-])%result_bind_Ok.
  intros entry [Hin| ->%list_elem_of_singleton]%elem_of_app; [by apply HP|done].
Qed.

Section closed.
Context (path : string) (keys : gmap string string) (known : string -> Prop).
Context (Hknown : forall dep_path key, keys !! dep_path = Some key -> known key).

Lemma pnpm_resolved_known dep_name dep_ref key : resolve_dependency_key dep_name dep_ref keys = Some key -> known key.
Proof. apply Hknown. Qed.

Lemma snapshot_dependencies_known snapshot dependencies :
  snapshot_dependencies path keys snapshot = Ok dependencies -> deps_known known dependencies.
Proof.
  destruct snapshot as [snapshot|]; cbn; [|intros [= <-]; apply deps_known_empty].
  intros (required & Hreq & [= <-])%result_bind_Ok. apply (foldl_inv _ (deps_known known)).
  - intros deps [name ref] _ Hd. unfold optional_dependency. cbn.
    destruct (resolve_dependency_key _ _ _) eqn:Hr; [|done]. apply pnpm_resolved_known in Hr. by apply deps_known_insert.
  - apply (try_fold_inv _ (deps_known known)) with (3 := Hreq); [|apply deps_known_empty].
    intros deps [name ref] deps' _ Hd (key & Hk & [= <-])%result_bind_Ok. cbn in *.
    destruct (resolve_dependency_key _ _ _) eqn:Hr; cbn in Hk; [|done]. injection Hk as <-.
    apply pnpm_resolved_known in Hr. by apply deps_known_insert.
Qed.

Lemma pnpm_insert_root_block_within importer_path importer block optional root root' :
  roots_within known root -> insert_root_block path keys importer_path importer block optional root = Ok root' ->
  roots_within known root'.
Proof.
  intros Hroot. apply (try_fold_inv _ (roots_within known)); [|done].
  intros r [name dep] r' _ Hr. cbv zeta. intros (incoming & Hin & Hm)%result_bind_Ok.
  eapply merge_root_within; [done| |done]. destruct optional.
  - injection Hin as <-. apply build_optional_within. intros key. apply pnpm_resolved_known.
  - apply result_bind_Ok in Hin as (key & Hk & Hb).
    destruct (resolve_dependency_key _ _ _) eqn:Hres; cbn in Hk; [|done]. injection Hk as <-.
    apply pnpm_resolved_known in Hres. by eapply build_required_within.
Qed.

Lemma pnpm_build_root_within raw root : build_root path keys raw = Ok root -> roots_within known root.
Proof.
  apply (try_fold_inv _ (roots_within known)); [|apply roots_within_empty].
  intros r [importer_path importer] r' _ Hr (r1 & H1 & (r2 & H2 & H3)%result_bind_Ok)%result_bind_Ok.
  do 3 (eapply pnpm_insert_root_block_within; [|done]). done.
Qed.
End closed.

Lemma pnpm_import_closed path config raw lockfile : import path config raw = Ok lockfile -> lockfile_closed lockfile.
Proof.
  intros ([] & _ & ([] & _ & (entries & Hentries & (packages & Hpackages & (root & Hroot & [= <-])%result_bind_Ok)
    %result_bind_Ok)%result_bind_Ok)%result_bind_Ok)%result_bind_Ok.
  set (known := fun key => exists entry, entry ∈ entries /\ pe_lock_key entry = key).
  assert (Hknown : forall d k, build_dep_path_map entries !! d = Some k -> known k)
    by (intros d k; apply build_dep_path_map_spec).
  apply (imported_closed pe_lock_key _ _ entries packages root known _ ltac:(done) Hpackages).
  - intros entry p Hin (deps & Hdeps & [= <-])%result_bind_Ok.
    split; [by eapply pnpm_collect_package_entries_spec|]. by eapply snapshot_dependencies_known.
  - by eapply pnpm_build_root_within.
Qed.

(** ** Concrete inputs *)
Module PnpmDemo.
Definition info (tarball : option string) : RawPackageInfo := {|
  pi_tarball := tarball; pi_integrity := Some "sha512-x"; pi_name := None; pi_version := None;
  pi_bundled_dependencies := None; pi_has_bin := false; pi_peer_dependencies := ∅; pi_peer_dependencies_meta := ∅ |}.
Definition importer (deps : list (string * RawImporterDependency)) : RawImporter := {|
  ri_specifiers := ∅; ri_dependencies := list_to_map deps; ri_dev_dependencies := ∅; ri_optional_dependencies := ∅ |}.
Definition snapshot (deps : list (string * string)) : RawSnapshot :=
  {| rs_dependencies := list_to_map deps; rs_optional_dependencies := ∅ |}.

Definition raw (importers : list (string * RawImporter)) : RawPnpmLockfile := {|
  rl_lockfile_version := VersionString "9.0";
  rl_importers := list_to_map importers;
  rl_packages := list_to_map [("react@18.2.0", info None); ("react-dom@18.2.0", info None)];
  rl_snapshots := list_to_map [("react@18.2.0", snapshot []);
                               ("react-dom@18.2.0(react@18.2.0)", snapshot [("react", "18.2.0")])] |}.

Example pnpm_imported :
  (fun l => (btree_keys (l_packages l), btree_iter ∘ lp_dependencies <$> l_packages l !! "react-dom@18.2.0")) <$>
    result_ok (import "/p/pnpm-lock.yaml" config_for_tests
      (raw [(".", importer [("react-dom", Inline "^18.0.0" "18.2.0(react@18.2.0)")])])) =
  Some (["react-dom@18.2.0"; "react@18.2.0"], Some [("react", "react@18.2.0")]).
Proof. vm_refl. Qed.

(** A member that another member depends on is a [link:] of pnpm's lockfile; the
    import fails, where those of npm and bun leave the dependency out. *)
Example workspace_links_are_refused :
  import "/p/pnpm-lock.yaml" config_for_tests
    (raw [("packages/a", importer [("b", Inline "workspace:*" "link:../b")]); ("packages/b", importer [])]) =
  Err (LockfileError "/p/pnpm-lock.yaml"
    "pnpm root dependency `b` -> `workspace:*` could not be resolved from the imported lockfile").
Proof. vm_refl. Qed.

(** A file of two documents: the second is the lockfile. *)
Example main_document :
  extract_main_document ("---" +:+ newline +:+ "config: 1" +:+ newline +:+ "---" +:+ newline +:+ "lockfileVersion: 9") =
  "lockfileVersion: 9".
Proof. vm_refl. Qed.
End PnpmDemo.
