(* ===== verification/BunLock.v ===== *)
(** * The importer of bun's text lockfile ([lockfile/compat/bun.rs])

    JSON with comments and trailing commas, the arrays that stand for packages,
    the lookup of a dependency along the nesting of the keys, and the lockfile
    that results.  What serde makes of JSON is the interface [BunFormat]. *)
From S2P Require Import Prelude.
From S2P Require Import BTree.
From S2P Require Import Text.
From S2P Require Import Errors.
From S2P Require Import Types.
From S2P Require Import Paths.
From S2P Require Import Lockfile.
From S2P Require Import Compat.

Module Bun.
Record RawBunWorkspace := {
  bw_name : option string;
  bw_dependencies : gmap string string;
  bw_dev_dependencies : gmap string string;
  bw_optional_dependencies : gmap string string;
}.

Record RawBunLockfile := {
  bl_lockfile_version : N;
  bl_workspaces : gmap string RawBunWorkspace;
  bl_packages : gmap string (list json);
}.

Record RawBunMeta := {
  bm_dependencies : gmap string string;
  bm_optional_dependencies : gmap string string;
  bm_peer_dependencies : gmap string string;
  bm_optional_peers : list string;
  bm_bin : gmap string string;
}.

Definition meta_default : RawBunMeta := {|
  bm_dependencies := ∅; bm_optional_dependencies := ∅; bm_peer_dependencies := ∅; bm_optional_peers := [];
  bm_bin := ∅ |}.

(** [serde_json::from_str] at [RawBunLockfile], [serde_json::from_value] at
    [RawBunMeta] *)
Class BunFormat := {
  parse_lockfile : string -> result string RawBunLockfile;
  parse_meta : json -> option RawBunMeta;
}.

Record BunEntry := { be_ident : string; be_meta : RawBunMeta; be_integrity : option string }.

(** ** Comments and trailing commas *)
(** [u8::is_ascii_whitespace] *)
Definition is_ascii_whitespace (a : ascii) : bool :=
  let n := nat_of_ascii a in (n =? 32)%nat || (n =? 9)%nat || (n =? 10)%nat || (n =? 12)%nat || (n =? 13)%nat.

Definition newline : ascii := "010".
Definition quote : ascii := "034".
Definition backslash : ascii := "092".

(** A byte of a comment: a line break stays. *)
Definition blank (a : ascii) : ascii := if Ascii.eqb a newline then newline else " "%char.

Inductive Mode := Code | InString (escaped : bool) | LineComment | BlockComment.

(** Whether the next byte that is no white space closes a list or an object. *)
Fixpoint closes (s : string) : bool :=
  match s with
  | ε => false
  | String a s => if is_ascii_whitespace a then closes s else Ascii.eqb a "}" || Ascii.eqb a "]"
  end.

Fixpoint strip_jsonc_go (mode : Mode) (s : string) : string :=
  match s with
  | ε => ε
  | String byte rest =>
      match mode with
      | InString escaped =>
          String byte (strip_jsonc_go
            (if escaped then InString false
             else if Ascii.eqb byte backslash then InString true
             else if Ascii.eqb byte quote then Code else InString false) rest)
      | LineComment =>
          if Ascii.eqb byte newline then String byte (strip_jsonc_go Code rest)
          else String " " (strip_jsonc_go LineComment rest)
      | BlockComment =>
          match rest with
          | String next rest' =>
              if Ascii.eqb byte "*" && Ascii.eqb next "/"
              then String " " (String " " (strip_jsonc_go Code rest'))
              else String (blank byte) (strip_jsonc_go BlockComment rest)
          | ε => String (blank byte) ε
          end
      | Code =>
          match rest with
          | String next rest' =>
              if Ascii.eqb byte "/" && Ascii.eqb next "/" then String " " (strip_jsonc_go LineComment rest)
              else if Ascii.eqb byte "/" && Ascii.eqb next "*"
              then String " " (String " " (strip_jsonc_go BlockComment rest'))
              else if Ascii.eqb byte "," && closes rest then String " " (strip_jsonc_go Code rest)
              else String byte (strip_jsonc_go (if Ascii.eqb byte quote then InString false else Code) rest)
          | ε => String byte ε
          end
      end
  end.
Definition strip_jsonc (input : string) : string := strip_jsonc_go Code input.

(** ** Entries *)
Definition integrity_length (algorithm : string) : option nat :=
  if algorithm == "sha512" then Some 88
  else if algorithm == "sha384" then Some 64
  else if algorithm == "sha256" then Some 44
  else if algorithm == "sha1" then Some 28
  else if algorithm == "md5" then Some 24
  else None.

Definition is_base64_byte (a : ascii) : bool :=
  byte_in 48 57 a || byte_in 65 90 a || byte_in 97 122 a || Ascii.eqb a "+" || Ascii.eqb a "/" || Ascii.eqb a "=".

Definition is_integrity_hash (value : string) : bool :=
  match split_once "-" value with
  | None => false
  | Some (algorithm, body) =>
      match integrity_length algorithm with
      | None => false
      | Some expected_length => (String.length body =? expected_length)%nat && all_chars is_base64_byte body
      end
  end.

Definition split_ident (ident : string) : option (string * string) :=
  match strip_prefix "@" ident with
  | Some rest =>
      slash ← find_char "/" rest;
      let after_slash := sdrop (slash + 1) rest in
      at_ ← find_char "@" after_slash;
      Some ("@" +:+ stake (slash + 1 + at_) rest, sdrop (at_ + 1) after_slash)
  | None =>
      at_ ← find_char "@" ident;
      Some (stake at_ ident, sdrop (at_ + 1) ident)
  end.

Section entries.
Context `{BunFormat}.

Definition from_array_step (acc : RawBunMeta * option string) (value : json) : RawBunMeta * option string :=
  match value with
  | JObject _ => (default meta_default (parse_meta value), acc.2)
  | JString value => if is_integrity_hash value then (acc.1, Some value) else acc
  | _ => acc
  end.

Definition from_array (key : string) (values : list json) : result string BunEntry :=
  ident ← ok_or ("bun.lock package `" +:+ key +:+ "` is missing its ident string") (head values ≫= as_str);
  let '(meta, integrity) := foldl from_array_step (meta_default, None) (tail values) in
  Ok {| be_ident := ident; be_meta := meta; be_integrity := integrity |}.

Definition decode_entries (path : string) (packages : gmap string (list json)) : Result (gmap string BunEntry) :=
  try_fold (fun (entries : gmap string BunEntry) e =>
    entry ← map_err (LockfileError path) (from_array e.1 e.2);
    Ok (<[e.1 := entry]> entries)) ∅ (btree_iter packages).
End entries.

Definition build_key_info (path : string) (entries : gmap string BunEntry) : Result (gmap string (string * string)) :=
  try_fold (fun (key_info : gmap string (string * string)) e =>
    identity ← ok_or (LockfileError path ("bun.lock package `" +:+ e.1 +:+ "` has an unsupported ident `"
                        +:+ be_ident e.2 +:+ "`"))
                 (split_ident (be_ident e.2));
    Ok (<[e.1 := identity]> key_info)) ∅ (btree_iter entries).

Definition collect_workspace_names (workspaces : gmap string RawBunWorkspace) : gset string :=
  list_to_set (omap bw_name (btree_values workspaces)).

(** ** Resolving a dependency *)
(** The key without its last package, which is two pieces for a scoped one. *)
Definition truncate_base (base : string) : string :=
  match rfind_char "/" base with
  | None => ε
  | Some index =>
      let front := stake index base in
      let tail_start := match rfind_char "/" front with Some value => value + 1 | None => 0 end in
      if starts_with "@" (sdrop tail_start front) then stake (tail_start - 1) base else front
  end.

Fixpoint resolve_nested_go (fuel : nat) (base dep_name : string) (key_info : gmap string (string * string))
  : option string :=
  match fuel with
  | O => None
  | S fuel =>
      let candidate := if is_empty base then dep_name else base +:+ "/" +:+ dep_name in
      match key_info !! candidate with
      | Some _ => Some candidate
      | None => if is_empty base then None else resolve_nested_go fuel (truncate_base base) dep_name key_info
      end
  end.
Definition resolve_nested_bun (package_key_path dep_name : string) (key_info : gmap string (string * string))
  : option string :=
  resolve_nested_go (S (String.length package_key_path)) package_key_path dep_name key_info.

Definition key_of (identity : string * string) : string := package_key identity.1 identity.2.

Definition resolve_workspace_dep (workspace_path dep_name : string) (key_info : gmap string (string * string))
  : option string :=
  let scoped := if is_empty workspace_path then None else key_info !! (workspace_path +:+ "/" +:+ dep_name) in
  match scoped with
  | Some identity => Some (key_of identity)
  | None => key_of <$> key_info !! dep_name
  end.

(** ** Packages *)
Section packages.
Context (path : string) (key_info : gmap string (string * string)).

Definition dependency_key (key dep_name : string) : option string :=
  target_key ← resolve_nested_bun key dep_name key_info;
  key_of <$> key_info !! target_key.

Definition required_dependency (key : string) (dependencies : gmap string string) (dep_name : string)
  : Result (gmap string string) :=
  dep_key ← ok_or (LockfileError path ("bun.lock dependency `" +:+ dep_name +:+ "` from `" +:+ key
                     +:+ "` could not be resolved from the imported lockfile"))
              (dependency_key key dep_name);
  Ok (<[dep_name := dep_key]> dependencies).

Definition optional_dependency (key : string) (dependencies : gmap string string) (dep_name : string)
  : gmap string string :=
  match dependency_key key dep_name with
  | Some dep_key => <[dep_name := dep_key]> dependencies
  | None => dependencies
  end.

Definition entry_dependencies (key : string) (meta : RawBunMeta) : Result (gmap string string) :=
  dependencies ← try_fold (required_dependency key) ∅ (btree_keys (bm_dependencies meta));
  Ok (foldl (optional_dependency key) dependencies (btree_keys (bm_optional_dependencies meta))).

(** An entry with its name and version; [build_key_info] has one for every key. *)
Definition identity_of (key : string) : Result (string * string) :=
  ok_or (LockfileError path ("bun.lock package `" +:+ key +:+ "` disappeared during import")) (key_info !! key).

Definition lock_package (config : SnpmConfig) (e : string * BunEntry) : Result LockPackage :=
  let '(key, entry) := e in
  '(name, version) ← identity_of key;
  dependencies ← entry_dependencies key (be_meta entry);
  let bin := bm_bin (be_meta entry) in
  Ok {| lp_name := name;
        lp_version := version;
        lp_tarball := default ε (derive_registry_tarball config name version);
        lp_integrity := be_integrity entry;
        lp_dependencies := dependencies;
        lp_peer_dependencies := required_peer_dependencies (bm_peer_dependencies (be_meta entry))
                                  (list_to_set (bm_optional_peers (be_meta entry)));
        lp_bundled_dependencies := None;
        lp_has_bin := bool_decide (bin <> ∅);
        lp_bin := if decide (bin = ∅) then None else Some (BinMap bin) |}.

Definition lock_key (e : string * BunEntry) : string := default ε (key_of <$> key_info !! e.1).

Definition variants_conflict (e : string * BunEntry) : SnpmError :=
  LockfileError path ("bun.lock contains multiple package variants that collapse to the same snpm package key `"
    +:+ lock_key e +:+ "`").

Definition build_packages (config : SnpmConfig) (entries : gmap string BunEntry) : Result (gmap string LockPackage) :=
  try_fold (insert_entry lock_key (lock_package config) variants_conflict) ∅ (btree_iter entries).

(** ** Root dependencies *)
Definition display_workspace_path (workspace_path : string) : string :=
  if is_empty workspace_path then "." else workspace_path.

Definition root_conflict_error (workspace_path dep_name value other : string) : SnpmError :=
  LockfileError path ("bun.lock workspace `" +:+ display_workspace_path workspace_path
    +:+ "` declares dependency `" +:+ dep_name +:+ "` with conflicting values `" +:+ value +:+ "` and `"
    +:+ other +:+ "`").

(** [None]: served by the workspace, left out. *)
Definition root_dependency (workspace_path : string) (optional : bool) (workspace_names : gset string)
    (dep_name requested : string) : Result (option LockRootDependency) :=
  match resolve_workspace_dep workspace_path dep_name key_info with
  | Some dep_key =>
      if optional then Ok (Some (build_optional_root_dependency dep_name requested (Some dep_key)))
      else Some <$> build_required_root_dependency path dep_name requested dep_key
  | None =>
      if decide (dep_name ∈ workspace_names) then Ok None
      else if optional then Ok (Some (build_optional_root_dependency dep_name requested None))
      else Err (LockfileError path ("bun.lock workspace `" +:+ display_workspace_path workspace_path
             +:+ "` dependency `" +:+ dep_name +:+ "` could not be resolved from the imported lockfile"))
  end.

Definition insert_root_block (workspace_path : string) (block : gmap string string) (optional : bool)
    (workspace_names : gset string) (root : gmap string LockRootDependency)
  : Result (gmap string LockRootDependency) :=
  try_fold (fun root e =>
    incoming ← root_dependency workspace_path optional workspace_names e.1 e.2;
    match incoming with
    | None => Ok root
    | Some incoming => merge_root_dependency (root_conflict_error workspace_path e.1) e.1 incoming root
    end) root (btree_iter block).

Definition build_root (workspaces : gmap string RawBunWorkspace) (workspace_names : gset string)
  : Result (gmap string LockRootDependency) :=
  try_fold (fun dependencies e =>
    let '(workspace_path, workspace) := e in
    dependencies ← insert_root_block workspace_path (bw_dependencies workspace) false workspace_names dependencies;
    dependencies ← insert_root_block workspace_path (bw_dev_dependencies workspace) false workspace_names dependencies;
    insert_root_block workspace_path (bw_optional_dependencies workspace) true workspace_names dependencies)
    ∅ (btree_iter workspaces).
End packages.

(** ** Reading *)
Section read.
Context `{BunFormat}.

Definition import (path : string) (config : SnpmConfig) (raw : RawBunLockfile) : Result Lockfile :=
  if negb (bl_lockfile_version raw =? 1)%N then
    Err (LockfileError path ("bun.lock lockfileVersion " +:+ show_N (bl_lockfile_version raw)
      +:+ " is not supported yet; only bun text lockfile v1 is currently supported"))
  else
  entries ← decode_entries path (bl_packages raw);
  key_info ← build_key_info path entries;
  let workspace_names := collect_workspace_names (bl_workspaces raw) in
  packages ← build_packages path key_info config entries;
  root ← build_root path key_info (bl_workspaces raw) workspace_names;
  Ok {| l_version := 1; l_root := root; l_packages := packages |}.

Definition read (tree : FileTree) (path : string) (config : SnpmConfig) : Result Lockfile :=
  raw_content ← map_err (ReadFile path) (read_to_string tree path);
  raw ← map_err (ParseJson path) (parse_lockfile (strip_jsonc raw_content));
  import path config raw.
End read.
End Bun.
Import Bun.

(** ** Comments and trailing commas *)
(** Every byte is the same or has become a space, and line breaks stay. *)
Fixpoint blanked (s t : string) : Prop :=
  match s, t with
  | ε, ε => True
  | String a s, String b t => (b = a \/ (b = " "%char /\ a <> newline)) /\ blanked s t
  | _, _ => False
  end.

Lemma blank_spec a : blank a = a \/ (blank a = " "%char /\ a <> newline).
Proof. unfold blank. destruct (Ascii.eqb_spec a newline) as [->|]; auto. Qed.

Lemma strip_jsonc_go_blanked n mode s : String.length s <= n -> blanked s (strip_jsonc_go mode s).
Proof.
  revert mode s. induction n as [|n IH]; intros mode s Hlen; (destruct s as [|a s]; [done|]); cbn in Hlen; [lia|].
  assert (Hrec : forall m, blanked s (strip_jsonc_go m s)) by (intros; apply IH; lia).
  assert (Hrec2 : forall m b r, s = String b r -> blanked r (strip_jsonc_go m r))
    by (intros m b r ->; cbn in Hlen; apply IH; lia).
  destruct mode as [|escaped| |]; cbn [strip_jsonc_go].
  - destruct s as [|b r]; [cbn; auto|].
    destruct (Ascii.eqb_spec a "/") as [->|]; cbn [andb].
    + destruct (Ascii.eqb_spec b "/") as [->|]; [split; [by right|apply Hrec]|].
      destruct (Ascii.eqb_spec b "*") as [->|]; [|split; [by left|apply Hrec]].
      split; [by right|]. split; [by right|]. by eapply Hrec2.
    + destruct (Ascii.eqb_spec a ",") as [->|]; cbn [andb]; [|split; [by left|apply Hrec]].
      destruct (closes _); [split; [by right|apply Hrec]|split; [by left|apply Hrec]].
  - split; [by left|apply Hrec].
  - destruct (Ascii.eqb_spec a newline) as [->|]; (split; [auto|apply Hrec]).
  - destruct s as [|b r]; [split; [apply blank_spec|done]|].
    destruct (Ascii.eqb_spec a "*") as [->|]; cbn [andb]; [|split; [apply blank_spec|apply Hrec]].
    destruct (Ascii.eqb_spec b "/") as [->|]; [|split; [apply blank_spec|apply Hrec]].
    split; [by right|]. split; [by right|]. by eapply Hrec2.
Qed.

Lemma strip_string_contents s rest :
  contains_char quote s = false -> contains_char backslash s = false ->
  strip_jsonc_go (InString false) (s +:+ String quote rest) = s +:+ String quote (strip_jsonc_go Code rest).
Proof.
  induction s as [|a s IH]; [done|]. cbn [contains_char]. intros [Hq Hqs]%orb_false_iff [Hb Hbs]%orb_false_iff.
  rewrite !app_cons_s. cbn [strip_jsonc_go].
  rewrite (Ascii.eqb_sym a backslash), Hb, (Ascii.eqb_sym a quote), Hq. by rewrite IH.
Qed.

Lemma strip_line_comment s rest :
  contains_char newline s = false ->
  exists spaces, all_chars (Ascii.eqb " ") spaces = true /\
    strip_jsonc_go LineComment (s +:+ String newline rest) = spaces +:+ String newline (strip_jsonc_go Code rest).
Proof.
  induction s as [|a s IH]; cbn [contains_char]; [by exists ε|]. intros [Ha Hs]%orb_false_iff.
  destruct (IH Hs) as (spaces & Hsp & Heq). exists (String " " spaces). split; [done|].
  rewrite app_cons_s. cbn [strip_jsonc_go]. by rewrite (Ascii.eqb_sym a newline), Ha, Heq.
Qed.

(** Cleaning JSON with comments happens in place, so that the positions in
    parse errors are those of the file: every byte stays or becomes a space and
    line breaks stay.  The contents of a string are copied whatever they look
    like, a comment to the end of a line becomes spaces, and so does a comma that
    only white space separates from the bracket that closes. *)
Theorem strip_jsonc_spec :
  (forall input, blanked input (strip_jsonc input)) /\
  (forall s rest, contains_char quote s = false -> contains_char backslash s = false ->
     strip_jsonc (String quote (s +:+ String quote rest)) = String quote (s +:+ String quote (strip_jsonc rest))) /\
  (forall s rest, contains_char newline s = false ->
     exists spaces, all_chars (Ascii.eqb " ") spaces = true /\
       strip_jsonc ("//" +:+ s +:+ String newline rest) = spaces +:+ String newline (strip_jsonc rest)) /\
  (forall rest, closes rest = true -> strip_jsonc (String "," rest) = String " " (strip_jsonc rest)).
Proof.
  split_and!.
  - intros input. by apply (strip_jsonc_go_blanked (String.length input)).
  - intros s rest Hq Hb. unfold strip_jsonc. rewrite <-strip_string_contents by done.
    cbn [strip_jsonc_go]. destruct (s +:+ String quote rest) as [|b r] eqn:Heq; [by destruct s|]. done.
  - intros s rest Hn. destruct (strip_line_comment s rest Hn) as (spaces & Hsp & Heq).
    exists (String " " (String " " spaces)). split; [done|]. unfold strip_jsonc.
    change ("//" +:+ ?x) with (String "/" (String "/" x)). cbn [strip_jsonc_go andb].
    rewrite !Ascii.eqb_refl. cbn [andb]. by rewrite Heq.
  - intros rest Hc. unfold strip_jsonc. cbn [strip_jsonc_go]. destruct rest as [|b r]; [done|].
    cbn [andb]. by rewrite Hc.
Qed.

(** ** An imported lockfile is closed *)
Section closed.
Context (path : string) (key_info : gmap string (string * string)) (known : string -> Prop).
Context (Hknown : forall key identity, key_info !! key = Some identity -> known (key_of identity)).

Lemma dependency_key_known key dep_name dep_key : dependency_key key_info key dep_name = Some dep_key -> known dep_key.
Proof.
  intros (target & _ & (identity & Hid & ->)%fmap_Some)%bind_Some. by eapply Hknown.
Qed.

Lemma entry_dependencies_known key meta dependencies :
  entry_dependencies path key_info key meta = Ok dependencies -> deps_known known dependencies.
Proof.
  intros (required & Hreq & [= <-])%result_bind_Ok. apply (foldl_inv _ (deps_known known)).
  - intros deps name _ Hd. unfold optional_dependency.
    destruct (dependency_key _ _ _) eqn:Hr; [|done]. apply dependency_key_known in Hr. by apply deps_known_insert.
  - apply (try_fold_inv _ (deps_known known)) with (3 := Hreq); [|apply deps_known_empty].
    intros deps name deps' _ Hd (dep_key & Hk & [= <-])%result_bind_Ok.
    destruct (dependency_key _ _ _) eqn:Hr; cbn in Hk; [|done]. injection Hk as <-.
    apply dependency_key_known in Hr. by apply deps_known_insert.
Qed.

Lemma resolve_workspace_dep_known workspace_path dep_name key :
  resolve_workspace_dep workspace_path dep_name key_info = Some key -> known key.
Proof.
  unfold resolve_workspace_dep. destruct (if is_empty workspace_path then _ else _) as [identity|] eqn:Hs.
  - intros [= <-]. destruct (is_empty workspace_path); [done|]. by eapply Hknown.
  - intros (identity & Hid & ->)%fmap_Some. by eapply Hknown.
Qed.

Lemma bun_insert_root_block_within workspace_path block optional names root root' :
  roots_within known root -> insert_root_block path key_info workspace_path block optional names root = Ok root' ->
  roots_within known root'.
Proof.
  intros Hroot. apply (try_fold_inv _ (roots_within known)); [|done].
  intros r [name requested] r' _ Hr (incoming & Hin & Hm)%result_bind_Ok.
  destruct incoming as [incoming|]; [|by injection Hm as <-].
  eapply merge_root_within; [done| |done]. unfold root_dependency in Hin. cbn in Hin.
  destruct (resolve_workspace_dep _ _ _) as [key|] eqn:Hk.
  - apply resolve_workspace_dep_known in Hk. destruct optional.
    + injection Hin as <-. apply build_optional_within. by intros ? [= <-].
    + destruct (build_required_root_dependency _ _ _ _) as [dep|] eqn:Hb; cbn in Hin; [|done].
      injection Hin as <-. by eapply build_required_within.
  - case_decide; [done|]. destruct optional; [|done]. by injection Hin as <-.
Qed.
End closed.

Lemma bun_import_closed `{BunFormat} path config raw lockfile :
  import path config raw = Ok lockfile -> lockfile_closed lockfile.
Proof.
  unfold import. destruct (negb _); [done|].
  intros (entries & _ & (key_info & Hinfo & (packages & Hpackages & (root & Hroot & [= <-])%result_bind_Ok)
    %result_bind_Ok)%result_bind_Ok)%result_bind_Ok.
  set (known := fun key => exists e, e ∈ btree_iter entries /\ lock_key key_info e = key).
  assert (Hknown : forall key identity, key_info !! key = Some identity -> known (key_of identity)).
  { intros key identity Hid. assert (Hin : is_Some (entries !! key)).
    { revert Hid. set (P := fun m : gmap string (string * string) => forall k i, m !! k = Some i -> is_Some (entries !! k)).
      revert key identity. apply (try_fold_inv _ P) with (3 := Hinfo); [|intros ? ?; by rewrite lookup_empty].
      intros m [k e] m' Hm%elem_of_btree_iter HP (i & _ & [= <-])%result_bind_Ok.
      intros k' i' [[<- _]|[_ Hk']]%lookup_insert_Some; [by exists e|by eapply HP]. }
    destruct Hin as [entry Hin]. exists (key, entry). split; [by apply elem_of_btree_iter|].
    unfold lock_key. cbn. by rewrite Hid. }
  apply (imported_closed (lock_key key_info) _ _ (btree_iter entries) packages root known _ ltac:(done) Hpackages).
  - intros [key entry] p Hin ([name version] & Hid & (deps & Hdeps & [= <-])%result_bind_Ok)%result_bind_Ok.
    unfold identity_of in Hid. destruct (key_info !! key) as [identity|] eqn:Hk; cbn in Hid; [|done]. injection Hid as ->.
    split; [|by eapply entry_dependencies_known]. unfold package_filed, lock_key. cbn. by rewrite Hk.
  - apply (try_fold_inv _ (roots_within known)) with (3 := Hroot); [|apply roots_within_empty].
    intros r [workspace_path workspace] r' _ Hr (r1 & H1 & (r2 & H2 & H3)%result_bind_Ok)%result_bind_Ok.
    do 3 (eapply bun_insert_root_block_within; [done| |done]). done.
Qed.

(** ** The lookup along the nesting of the keys *)
Definition scoped_name (scope name : string) : string := "@" +:+ scope +:+ "/" +:+ name.
Definition plain_piece (name : string) : Prop :=
  is_empty name = false /\ contains_char "/" name = false /\ starts_with "@" name = false.
Definition bun_name (name : string) : Prop :=
  plain_piece name \/ exists scope piece, name = scoped_name scope piece /\ contains_char "/" scope = false /\ plain_piece piece.

Lemma bun_names_nonempty names : Forall bun_name names -> Forall (fun name => is_empty name = false) names.
Proof.
  intros Hall. eapply Forall_impl; [exact Hall|]. intros x [[? _]|(s & p & -> & _)]; done.
Qed.

(** The last piece of a key belongs to a package's own name. *)
Lemma path_of_last x names :
  bun_name x -> exists front piece, path_of (x :: names) = front +:+ piece /\ plain_piece piece /\
    (front = ε \/ exists front', front = front' +:+ "/").
Proof.
  intros Hx. rewrite path_of_cons. set (P := path_of names).
  destruct Hx as [Hx|(scope & piece & -> & _ & Hp)].
  - destruct names as [|y names]; [exists ε, x; auto|]. exists (P +:+ "/"), x.
    rewrite <-app_assoc_s. split_and!; [done..|]. right. by exists P.
  - destruct names as [|y names].
    + exists ("@" +:+ scope +:+ "/"), piece. unfold scoped_name. rewrite <-!app_assoc_s. split_and!; [done..|].
      right. exists ("@" +:+ scope). by rewrite <-app_assoc_s.
    + exists (P +:+ "/@" +:+ scope +:+ "/"), piece. unfold scoped_name. rewrite <-!app_assoc_s. split_and!; [done..|].
      right. exists (P +:+ "/@" +:+ scope). by rewrite <-!app_assoc_s.
Qed.

Lemma last_tail front piece :
  contains_char "/" piece = false -> (front = ε \/ exists front', front = front' +:+ "/") ->
  sdrop (match rfind_char "/" (front +:+ piece) with Some value => value + 1 | None => 0 end) (front +:+ piece) = piece.
Proof.
  intros Hp [->|[front' ->]].
  - change (ε +:+ piece) with piece. by rewrite (proj2 (rfind_char_None "/" piece)).
  - rewrite <-app_assoc_s. change ("/" +:+ piece) with (String "/" piece). rewrite rfind_char_app by done.
    rewrite Nat.add_1_r. apply sdrop_app_S.
Qed.

Lemma truncate_base_of x names :
  Forall bun_name (x :: names) -> truncate_base (path_of (x :: names)) = path_of names.
Proof.
  intros [Hx Hall]%Forall_cons. unfold truncate_base. rewrite path_of_cons.
  destruct Hx as [(Hne & Hslash & Hat)|(scope & piece & -> & Hscope & (_ & Hp & _))].
  - destruct names as [|y names]; [by rewrite (proj2 (rfind_char_None "/" x))|].
    change ("/" +:+ x) with (String "/" x). rewrite rfind_char_app by done. cbv zeta. rewrite stake_app.
    apply Forall_cons in Hall as [Hy _]. destruct (path_of_last y names Hy) as (front & piece & Heq & (_ & Hp & Hpat) & Hf).
    rewrite Heq, last_tail by done. by rewrite Hpat.
  - assert (Hsplit : forall front, front +:+ scoped_name scope piece = (front +:+ "@" +:+ scope) +:+ String "/" piece)
      by (intros front; unfold scoped_name; by rewrite <-!app_assoc_s).
    destruct names as [|y names].
    + change (scoped_name scope piece) with (ε +:+ scoped_name scope piece). rewrite Hsplit, rfind_char_app by done.
      cbv zeta. rewrite stake_app. change (ε +:+ ?z) with z.
      rewrite (proj2 (rfind_char_None "/" ("@" +:+ scope))) by done. done.
    + rewrite app_assoc_s, Hsplit, rfind_char_app by done. cbv zeta. rewrite stake_app.
      rewrite last_tail; [|done|right; by eexists].
      rewrite <-!app_assoc_s. change ("/" +:+ ?z) with (String "/" z).
      rewrite rfind_char_app by done. cbn [starts_with strip_prefix].
      replace (String.length (path_of (y :: names)) + 1 - 1) with (String.length (path_of (y :: names))) by lia.
      by rewrite stake_app.
Qed.

(** The key of a dependency nested under some packages. *)
Definition nested_key (dep_name : string) (names : list string) : string :=
  match names with [] => dep_name | _ => path_of names +:+ "/" +:+ dep_name end.

Lemma resolve_nested_go_spec fuel names dep_name key_info :
  Forall bun_name names -> length names < fuel ->
  resolve_nested_go fuel (path_of names) dep_name key_info =
    head (filter (fun candidate => is_Some (key_info !! candidate)) (nested_key dep_name <$> suffixes names)).
Proof.
  revert names. induction fuel as [|fuel IH]; intros names Hall Hlen; [lia|]. cbn [resolve_nested_go].
  destruct names as [|x names].
  - cbn. destruct (key_info !! dep_name) eqn:Hk; [by rewrite decide_True|].
    rewrite decide_False; [done|]. by intros [].
  - rewrite path_of_nonempty by (by try apply bun_names_nonempty).
    cbn [suffixes fmap list_fmap nested_key]. rewrite filter_cons.
    destruct (key_info !! (path_of (x :: names) +:+ "/" +:+ dep_name)) eqn:Hk.
    + rewrite decide_True by done. done.
    + rewrite decide_False by by intros []. rewrite truncate_base_of by done.
      apply IH; [by apply Forall_cons in Hall as []|cbn in Hlen; lia].
Qed.

(** A dependency of an imported bun lockfile is looked up along the nesting
    of its key: below the package, below the package around it, and so on, last at
    the top, a scoped name counting as one; the innermost entry is the answer. *)
Theorem resolve_nested_bun_spec names dep_name key_info :
  Forall bun_name names ->
  resolve_nested_bun (path_of names) dep_name key_info =
    head (filter (fun candidate => is_Some (key_info !! candidate)) (nested_key dep_name <$> suffixes names)).
Proof.
  intros Hall. apply resolve_nested_go_spec; [done|].
  pose proof (path_of_length _ (bun_names_nonempty _ Hall)). lia.
Qed.

(** ** Concrete inputs *)
Module BunDemo.
#[local] Instance no_meta : BunFormat := {| parse_lockfile _ := Err "unused"; parse_meta _ := None |}.

Definition info (keys : list (string * (string * string))) : gmap string (string * string) := list_to_map keys.

Lemma resolve_nested_bun_spec_witness :
  resolve_nested_bun "a/@s/b" "c" (info [("c", ("c", "3.0.0")); ("a/c", ("c", "1.0.0"))]) = Some "a/c".
Proof.
  etrans; [apply (resolve_nested_bun_spec ["@s/b"; "a"] "c")|reflexivity].
  constructor; [right; by exists "s", "b"|]. constructor; [by left|constructor].
Defined.

Lemma strip_jsonc_spec_example :
  strip_jsonc "{ //c" = "{    " /\ strip_jsonc "[1, /* last */ ]" = "[1,            ]".
Proof. split; vm_refl. Qed.

Definition workspace (name : string) (deps : list (string * string)) : RawBunWorkspace := {|
  bw_name := Some name; bw_dependencies := list_to_map deps; bw_dev_dependencies := ∅;
  bw_optional_dependencies := ∅ |}.

Definition raw (packages : list (string * list json)) : RawBunLockfile := {|
  bl_lockfile_version := 1;
  bl_workspaces := list_to_map [(ε, workspace "root" []);
    ("packages/app", workspace "app" [("lib", "workspace:*")]); ("packages/lib", workspace "lib" [])];
  bl_packages := list_to_map packages |}.

(** A dependency on a member is left out, unless the lockfile has an entry for
    the member: then it is a dependency of the root on a package without an
    archive. *)
Example members_with_an_entry_are_imported :
  (fun l => ld_version <$> l_root l !! "lib") <$> result_ok (import "/p/bun.lock" config_for_tests (raw [])) = Some None /\
  (fun l => (ld_version <$> l_root l !! "lib", lp_tarball <$> l_packages l !! "lib@workspace:packages/lib")) <$>
    result_ok (import "/p/bun.lock" config_for_tests (raw [("lib", [JString "lib@workspace:packages/lib"])])) =
  Some (Some (Some "workspace:packages/lib"), Some ε).
Proof. split; vm_refl. Qed.
End BunDemo.
