(* ===== verification/YarnLock.v ===== *)
(** * The importer of yarn lockfiles ([lockfile/compat/yarn.rs])

    The line format of yarn classic and its tokenizer, the YAML of yarn berry,
    the candidates under which a requested range is looked up, and the lockfile
    for the roots the manifests ask for (yarn's lockfile does not list them).
    [serde_yaml] is the interface [YarnFormat]; its [Value] is a type here. *)
From S2P Require Import Prelude.
From S2P Require Import BTree.
From S2P Require Import Text.
From S2P Require Import Errors.
From S2P Require Import Types.
From S2P Require Import Paths.
From S2P Require Import Specs.
From S2P Require Import Crates.
From S2P Require Import Semver.
From S2P Require Import Lockfile.
From S2P Require Import Roots.
From S2P Require Import Discovery.
From S2P Require Import Compat.

Module Yarn.
(** [serde_yaml::Value]; a number as its text, a mapping as its entries in order *)
Inductive yaml :=
| YNull
| YBool (b : bool)
| YNumber (text : string)
| YString (value : string)
| YSequence (items : list yaml)
| YMapping (entries : list (yaml * yaml))
| YTagged (tag : string) (value : yaml).

Class YarnFormat := {
  (** [serde_yaml::from_str::<Value>] *)
  parse_yaml : string -> result string yaml;
  (** [{:?}] of a [Vec<String>], in messages *)
  debug_strings : list string -> string;
}.

(** [Value::as_mapping], [as_str] and [as_bool] look through tags. *)
Fixpoint untag (value : yaml) : yaml := match value with YTagged _ value => untag value | _ => value end.
Definition as_mapping (value : yaml) : option (list (yaml * yaml)) :=
  match untag value with YMapping entries => Some entries | _ => None end.
Definition yaml_str (value : yaml) : option string :=
  match untag value with YString value => Some value | _ => None end.
Definition yaml_bool (value : yaml) : option bool :=
  match untag value with YBool b => Some b | _ => None end.

(** [Mapping::get] of a string *)
Fixpoint yaml_get (entries : list (yaml * yaml)) (key : string) : option yaml :=
  match entries with
  | [] => None
  | (YString name, value) :: entries => if name == key then Some value else yaml_get entries key
  | _ :: entries => yaml_get entries key
  end.

Definition yaml_scalar_as_string (value : yaml) : option string :=
  match value with YString value => Some value | YNumber text => Some text | _ => None end.

Record ClassicBlock := {
  cb_specs : list string;
  cb_fields : gmap string string;
  cb_dependencies : gmap string string;
}.

(** [ClassicPackageSeed], [BerryPackageSeed] *)
Record PackageSeed := {
  sd_dep_path : string;
  sd_name : string;
  sd_version : string;
  sd_tarball : string;
  sd_integrity : option string;
  sd_has_bin : bool;
  sd_declared_dependencies : gmap string string;
  sd_peer_dependencies : gmap string string;
}.

(** ** [str] *)
(** [split_once(char::is_whitespace)] *)
Fixpoint split_once_ws (s : string) : option (string * string) :=
  match s with
  | ε => None
  | String a s1 =>
      let next := '(l, r) ← split_once_ws s1; Some (String a l, r) in
      if ws1 a then Some (ε, s1) else
      match s1 with
      | String b s2 =>
          if ws2 a b then Some (ε, s2) else
          match s2 with
          | String c s3 => if ws3 a b c then Some (ε, s3) else next
          | ε => next
          end
      | ε => next
      end
  end.

(** [trim_start_matches] of a non-empty string; each round drops a byte. *)
Fixpoint trim_start_str_go (fuel : nat) (p s : string) : string :=
  match fuel with
  | O => s
  | S fuel => match strip_prefix p s with Some s => trim_start_str_go fuel p s | None => s end
  end.
Definition trim_start_str (p s : string) : string := trim_start_str_go (String.length s) p s.

Definition quotes : list ascii := ["034"; "039"]%char.

(** A text between two quotes of a kind, without them. *)
Definition unquote (s : string) : string :=
  if existsb (fun q => starts_with (chr q) s && ends_with (chr q) s && (2 <=? String.length s)%nat) quotes
  then stake (String.length s - 2) (sdrop 1 s) else s.

(** ** Tokens of the classic format *)
Definition parse_classic_header_specs (header : string) : result string (list string) :=
  specs ← try_fold (fun specs raw_spec =>
    let spec := unquote (trim raw_spec) in
    if is_empty spec then Err ("empty spec in header `" +:+ header +:+ "`") else Ok (specs ++ [spec]))
    [] (split_char "," header);
  match specs with
  | [] => Err ("no specs parsed from header `" +:+ header +:+ "`")
  | _ => Ok specs
  end.

Definition split_classic_key_value (line : string) : option (string * string) :=
  '(key, value) ← split_once_ws line;
  Some (key, unquote (trim value)).

Record TokenizerState := {
  ts_blocks : list ClassicBlock;
  ts_current : option ClassicBlock;
  ts_in_dependencies : bool;
}.

Definition finished_blocks (st : TokenizerState) : list ClassicBlock :=
  ts_blocks st ++ match ts_current st with Some block => [block] | None => [] end.

Definition header_line (line_number : nat) (line : string) (st : TokenizerState) : result string TokenizerState :=
  if negb (ends_with ":" line)
  then Err ("line " +:+ show_nat line_number +:+ ": expected block header ending in `:`")
  else
    specs ← parse_classic_header_specs (trim (trim_end_matches ":" line));
    Ok {| ts_blocks := finished_blocks st;
          ts_current := Some {| cb_specs := specs; cb_fields := ∅; cb_dependencies := ∅ |};
          ts_in_dependencies := false |}.

Definition field_line (line_number : nat) (line : string) (block : ClassicBlock) (st : TokenizerState)
  : result string TokenizerState :=
  let body := trim_start line in
  if ends_with ":" body then
    Ok {| ts_blocks := ts_blocks st; ts_current := ts_current st;
          ts_in_dependencies :=
            one_of (trim (trim_end_matches ":" body)) ["dependencies"; "optionalDependencies"] |}
  else
    '(key, value) ← ok_or ("line " +:+ show_nat line_number +:+ ": could not parse `" +:+ body +:+ "`")
                      (split_classic_key_value body);
    Ok {| ts_blocks := ts_blocks st;
          ts_current := Some {| cb_specs := cb_specs block; cb_fields := <[key := value]> (cb_fields block);
                                cb_dependencies := cb_dependencies block |};
          ts_in_dependencies := false |}.

Definition dependency_line (line_number : nat) (line : string) (block : ClassicBlock) (st : TokenizerState)
  : result string TokenizerState :=
  let body := trim_start line in
  '(name, value) ← ok_or ("line " +:+ show_nat line_number +:+ ": could not parse dependency `" +:+ body +:+ "`")
                     (split_classic_key_value body);
  Ok {| ts_blocks := ts_blocks st;
        ts_current := Some {| cb_specs := cb_specs block; cb_fields := cb_fields block;
                              cb_dependencies := <[name := value]> (cb_dependencies block) |};
        ts_in_dependencies := ts_in_dependencies st |}.

Definition tokenize_line (st : TokenizerState) (e : nat * string) : result string TokenizerState :=
  let line_number := e.1 + 1 in
  let line := trim_end e.2 in
  if is_empty (trim line) || starts_with "#" (trim_start line) then Ok st
  else
    let indent := String.length line - String.length (trim_start line) in
    if (indent =? 0)%nat then header_line line_number line st
    else match ts_current st with
    | None => Err ("line " +:+ show_nat line_number +:+ ": encountered indented content before any block header")
    | Some block =>
        if (indent =? 2)%nat then field_line line_number line block st
        else if (4 <=? indent)%nat && ts_in_dependencies st then dependency_line line_number line block st
        else Ok st
    end.

Definition tokenize_classic_blocks (content : string) : result string (list ClassicBlock) :=
  st ← try_fold tokenize_line {| ts_blocks := []; ts_current := None; ts_in_dependencies := false |}
         (enumerate (lines content));
  Ok (finished_blocks st).

(** ** Specifiers *)
Definition split_spec_name_and_range (spec : string) : option (string * string) :=
  match strip_prefix "@" spec with
  | Some rest =>
      slash ← find_char "/" rest;
      let after_slash := sdrop (slash + 1) rest in
      at_ ← find_char "@" after_slash;
      Some ("@" +:+ stake (slash + 1 + at_) rest, sdrop (at_ + 1) after_slash)
  | None =>
      at_ ← find_char "@" spec;
      Some (stake at_ spec, sdrop (at_ + 1) spec)
  end.

(** [ClassicIdentity]: the name of the package *)
Definition parse_classic_identity (spec : string) : option string :=
  '(outer_name, range) ← split_spec_name_and_range spec;
  match strip_prefix "npm:" range with
  | Some inner => fst <$> split_spec_name_and_range inner
  | None => Some outer_name
  end.

Definition classic_candidates (name range : string) : list string := [name +:+ "@" +:+ range].

Definition strip_hash_fragment (value : string) : string := head_piece "#" value.

Definition local_file_url (project_root relative_path : string) : option string :=
  let trimmed := trim relative_path in
  if is_empty trimmed then None
  else
    let trimmed := default trimmed (strip_prefix "file:" trimmed) in
    let trimmed := default trimmed (strip_prefix "link:" trimmed) in
    Some ("file://" +:+ path_push project_root trimmed).

Definition classic_tarball (project_root : string) (config : SnpmConfig) (name version : string)
    (resolved : option string) : option string :=
  match resolved with
  | Some resolved =>
      if starts_with "http://" resolved || starts_with "https://" resolved then Some (strip_hash_fragment resolved)
      else if starts_with "file:" resolved || starts_with "link:" resolved then
        local_file_url project_root
          (strip_hash_fragment (trim_start_str "link:" (trim_start_str "file:" resolved)))
      else derive_registry_tarball config name version
  | None => derive_registry_tarball config name version
  end.

Definition is_berry (content : string) : bool :=
  existsb (fun line => starts_with "__metadata:" (trim_start line)) (lines content).

Definition split_berry_header (header : string) : list string :=
  filter (fun value => is_empty value = false)
    ((fun value => trim_matches "034" (trim value)) <$> split_str ", " header).

(** The name, the protocol and the rest *)
Definition parse_berry_spec (spec : string) : option (string * string * string) :=
  '(name, after_at) ← (match strip_prefix "@" spec with
    | Some rest =>
        slash ← find_char "/" rest;
        let after_slash := sdrop (slash + 1) rest in
        at_ ← find_char "@" after_slash;
        let full_name_len := 1 + slash + 1 + at_ in
        Some (stake full_name_len spec, sdrop (full_name_len + 1) spec)
    | None =>
        at_ ← find_char "@" spec;
        Some (stake at_ spec, sdrop (at_ + 1) spec)
    end);
  colon ← find_char ":" after_at;
  Some (name, stake colon after_at, sdrop (colon + 1) after_at).

Definition is_protocol_char (a : ascii) : bool := byte_in 65 90 a || byte_in 97 122 a || Ascii.eqb a "+".

Definition range_has_protocol (range : string) : bool :=
  match find_char ":" range with
  | None => false
  | Some colon => let head := stake colon range in negb (is_empty head) && all_chars is_protocol_char head
  end.

Definition berry_candidates (name range : string) : list string :=
  (name +:+ "@" +:+ range) :: (if range_has_protocol range then [] else [name +:+ "@npm:" +:+ range]).

Definition split_dep_path (dep_path : string) : option (string * string) :=
  index ← rfind_char "@" dep_path;
  Some (stake index dep_path, trim_start_matches "@" (sdrop index dep_path)).

(** ** Resolving by candidates *)
Definition resolve_spec_candidates (candidates : list string) (spec_to_dep_path : gmap string string)
  : option string :=
  head (omap (fun candidate => spec_to_dep_path !! candidate) candidates).

Definition resolve_dependencies_with (declared_dependencies spec_to_dep_path : gmap string string)
    (candidate_builder : string -> string -> list string) : gmap string string :=
  foldl (fun (dependencies : gmap string string) e =>
    match resolve_spec_candidates (candidate_builder e.1 e.2) spec_to_dep_path with
    | Some dep_path => <[e.1 := dep_path]> dependencies
    | None => dependencies
    end) ∅ (btree_iter declared_dependencies).

(** The dependency of the root for a resolved path *)
Definition resolved_dependency (path name requested : string) (optional : bool) (dep_path : string)
  : Result LockRootDependency :=
  '(resolved_name, version) ←
    ok_or (LockfileError path ("unsupported resolved dependency key `" +:+ dep_path +:+ "`")) (split_dep_path dep_path);
  Ok (resolved_root name requested optional resolved_name version).

Definition required_root (path : string) (spec_to_dep_path : gmap string string)
    (candidate_builder : string -> string -> list string) (dependencies : gmap string LockRootDependency)
    (e : string * string) : Result (gmap string LockRootDependency) :=
  let '(name, requested) := e in
  dep_path ← ok_or (LockfileError path ("yarn.lock root dependency `" +:+ name +:+ "` -> `" +:+ requested
                      +:+ "` could not be resolved from the imported lockfile"))
               (resolve_spec_candidates (candidate_builder name requested) spec_to_dep_path);
  dependency ← resolved_dependency path name requested false dep_path;
  Ok (<[name := dependency]> dependencies).

Definition optional_root (path : string) (spec_to_dep_path : gmap string string)
    (candidate_builder : string -> string -> list string) (dependencies : gmap string LockRootDependency)
    (e : string * string) : Result (gmap string LockRootDependency) :=
  let '(name, requested) := e in
  dependency ← match resolve_spec_candidates (candidate_builder name requested) spec_to_dep_path with
               | Some dep_path => resolved_dependency path name requested true dep_path
               | None => Ok {| ld_requested := requested; ld_package := None; ld_version := None; ld_optional := true |}
               end;
  Ok (<[name := dependency]> dependencies).

Definition build_root_from_specs (path : string) (root_specs : RootSpecSet) (spec_to_dep_path : gmap string string)
    (candidate_builder : string -> string -> list string) : Result (gmap string LockRootDependency) :=
  dependencies ← try_fold (required_root path spec_to_dep_path candidate_builder) ∅ (btree_iter (required root_specs));
  try_fold (optional_root path spec_to_dep_path candidate_builder) dependencies (btree_iter (optional root_specs)).

(** The packages of the seeds: later ones replace earlier ones of the same path. *)
Definition seed_package (spec_to_dep_path : gmap string string)
    (candidate_builder : string -> string -> list string) (seed : PackageSeed) : LockPackage := {|
  lp_name := sd_name seed;
  lp_version := sd_version seed;
  lp_tarball := sd_tarball seed;
  lp_integrity := sd_integrity seed;
  lp_dependencies := resolve_dependencies_with (sd_declared_dependencies seed) spec_to_dep_path candidate_builder;
  lp_peer_dependencies := sd_peer_dependencies seed;
  lp_bundled_dependencies := None;
  lp_has_bin := sd_has_bin seed;
  lp_bin := None |}.

Definition seeds_to_packages (seeds : list PackageSeed) (spec_to_dep_path : gmap string string)
    (candidate_builder : string -> string -> list string) : gmap string LockPackage :=
  foldl (fun (packages : gmap string LockPackage) seed =>
    <[sd_dep_path seed := seed_package spec_to_dep_path candidate_builder seed]> packages) ∅ seeds.

(** The state of the loop over the blocks: [spec_to_dep_path], the seeds, and the
    paths that have one *)
Notation Seeded := (gmap string string * list PackageSeed * gset string)%type.

Definition add_seed (st : Seeded) (seed : PackageSeed) : Seeded :=
  let '(specs, seeds, seen) := st in
  if decide (sd_dep_path seed ∈ seen) then st else (specs, seeds ++ [seed], {[sd_dep_path seed]} ∪ seen).

Definition add_spec (dep_path : string) (specs : gmap string string) (spec : string) : gmap string string :=
  <[spec := dep_path]> specs.

Definition finish_import (path : string) (root_specs : RootSpecSet)
    (candidate_builder : string -> string -> list string) (st : Seeded) : Result Lockfile :=
  let '(specs, seeds, _) := st in
  root ← build_root_from_specs path root_specs specs candidate_builder;
  Ok {| l_version := 1; l_root := root; l_packages := seeds_to_packages seeds specs candidate_builder |}.

(** ** [parse_classic_str] *)
Section import.
Context `{YarnFormat} (path : string) (config : SnpmConfig).

Definition project_root : string := default "." (parent path).

Definition check_spec (block : ClassicBlock) (name dep_path : string) (specs : gmap string string) (spec : string)
  : Result (gmap string string) :=
  package_name ← ok_or (LockfileError path ("could not parse package name from yarn.lock spec `" +:+ spec +:+ "`"))
                   (parse_classic_identity spec);
  if package_name == name then Ok (add_spec dep_path specs spec)
  else Err (LockfileError path ("yarn.lock block " +:+ debug_strings (cb_specs block)
              +:+ " resolves multiple package names")).

Definition classic_seed (block : ClassicBlock) (name version dep_path : string) : PackageSeed := {|
  sd_dep_path := dep_path;
  sd_name := name;
  sd_version := version;
  sd_tarball := default ε (classic_tarball project_root config name version (cb_fields block !! "resolved"));
  sd_integrity := cb_fields block !! "integrity";
  sd_has_bin := false;
  sd_declared_dependencies := cb_dependencies block;
  sd_peer_dependencies := ∅ |}.

(** A block the tokenizer returns has a first spec (see [tokenized_specs]). *)
Definition add_classic_block (st : Seeded) (block : ClassicBlock) : Result Seeded :=
  let first := default ε (head (cb_specs block)) in
  version ← ok_or (LockfileError path ("yarn.lock block " +:+ debug_strings (cb_specs block) +:+ " is missing a version"))
              (cb_fields block !! "version" : option string);
  name ← ok_or (LockfileError path ("could not parse package name from yarn.lock spec `" +:+ first +:+ "`"))
           (parse_classic_identity first);
  let dep_path := name +:+ "@" +:+ version in
  let '(specs, seeds, seen) := st in
  specs ← try_fold (check_spec block name dep_path) specs (cb_specs block);
  Ok (add_seed (specs, seeds, seen) (classic_seed block name version dep_path)).

Definition parse_classic_str (content : string) (root_specs : RootSpecSet) : Result Lockfile :=
  blocks ← map_err (LockfileError path) (tokenize_classic_blocks content);
  st ← try_fold add_classic_block (∅, [], ∅) blocks;
  finish_import path root_specs classic_candidates st.

(** ** [parse_berry_str] *)
Definition mapping_at (block : list (yaml * yaml)) (key : string) : list (yaml * yaml) :=
  default [] (yaml_get block key ≫= as_mapping).

Definition collect_dep_map (block : list (yaml * yaml)) (key : string) : gmap string string :=
  collect (omap (fun e => key ← yaml_str e.1; value ← yaml_scalar_as_string e.2; Some (key, value))
            (mapping_at block key)).

Definition meta_is_optional (meta : yaml) : bool :=
  default false (meta ← as_mapping meta; optional ← yaml_get meta "optional"; yaml_bool optional).

Definition collect_optional_peer_names (block : list (yaml * yaml)) : gset string :=
  list_to_set (omap (fun e : yaml * yaml => if meta_is_optional e.2 then yaml_str e.1 else None)
                 (mapping_at block "peerDependenciesMeta")).

Definition berry_has_bin (block : list (yaml * yaml)) : bool :=
  match mapping_at block "bin" with [] => false | _ => true end.

Definition metadata_version (map : list (yaml * yaml)) : N :=
  default 0%N (metadata ← yaml_get map "__metadata"; metadata ← as_mapping metadata;
               version ← yaml_get metadata "version"; version ← yaml_scalar_as_string version; parse_u64 version).

Definition berry_tarball (name protocol body version : string) : Result string :=
  if protocol == "npm" then Ok (default ε (derive_registry_tarball config name version))
  else if one_of protocol ["file"; "link"] then
    Ok (default ε (local_file_url project_root (strip_hash_fragment body)))
  else Err (LockfileError path ("yarn berry protocol `" +:+ protocol +:+ "` is not supported yet")).

Definition berry_seed (block : list (yaml * yaml)) (name version dep_path tarball : string) : PackageSeed := {|
  sd_dep_path := dep_path;
  sd_name := name;
  sd_version := version;
  sd_tarball := tarball;
  sd_integrity := None;
  sd_has_bin := berry_has_bin block;
  sd_declared_dependencies := collect_dep_map block "optionalDependencies" ∪ collect_dep_map block "dependencies";
  sd_peer_dependencies := required_peer_dependencies (collect_dep_map block "peerDependencies")
                            (collect_optional_peer_names block) |}.

Definition berry_error (key_str problem : string) : SnpmError :=
  LockfileError path ("yarn berry block `" +:+ key_str +:+ "` " +:+ problem).

Definition add_berry_package (st : Seeded) (key_str : string) (block : list (yaml * yaml)) (headers : list string)
  : Result Seeded :=
  version ← ok_or (berry_error key_str "is missing a version") (yaml_get block "version" ≫= yaml_scalar_as_string);
  resolution ← ok_or (berry_error key_str "is missing a resolution") (yaml_get block "resolution" ≫= yaml_str);
  '(resolved_name, protocol, body) ←
    ok_or (berry_error key_str ("has malformed resolution `" +:+ resolution +:+ "`")) (parse_berry_spec resolution);
  if protocol == "workspace" then Ok st
  else
    let dep_path := resolved_name +:+ "@" +:+ version in
    let '(specs, seeds, seen) := st in
    let specs := foldl (add_spec dep_path) specs headers in
    if decide (dep_path ∈ seen) then Ok (specs, seeds, seen)
    else
      tarball ← berry_tarball resolved_name protocol body version;
      Ok (add_seed (specs, seeds, seen) (berry_seed block resolved_name version dep_path tarball)).

Definition add_berry_block (st : Seeded) (e : yaml * yaml) : Result Seeded :=
  match yaml_str e.1 with
  | None => Ok st
  | Some key_str =>
      if starts_with "__" key_str then Ok st
      else
        block ← ok_or (berry_error key_str "is not a mapping") (as_mapping e.2);
        match split_berry_header key_str with
        | [] => Ok st
        | headers => add_berry_package st key_str block headers
        end
  end.

Definition parse_berry_str (content : string) (root_specs : RootSpecSet) : Result Lockfile :=
  doc ← map_err (fun error => LockfileError path ("failed to parse yarn.lock: " +:+ error)) (parse_yaml content);
  map ← ok_or (LockfileError path "yarn berry lockfile root must be a mapping") (as_mapping doc);
  if (metadata_version map <? 3)%N
  then Err (LockfileError path ("yarn berry lockfile has unexpected __metadata.version: "
              +:+ show_N (metadata_version map) +:+ " (expected >= 3)"))
  else
    st ← try_fold add_berry_block (∅, [], ∅) map;
    finish_import path root_specs berry_candidates st.
End import.

(** ** The roots the manifests ask for *)
Section read.
Context `{YarnFormat} `{ConfigFiles} `{GlobCrate} `{GlobEntries} `{SemverCrate} `{UrlCrate}.
Variable canonicalize : string -> result string string.
Variable tree : FileTree.

Definition load_project_root_specs (lockfile_root : string) : Result RootSpecSet :=
  project ← from_manifest_path tree (path_push lockfile_root "package.json");
  catalog ← load_catalog_config tree (p_root project);
  dependencies ← apply_specs (m_dependencies (p_manifest project)) None catalog ∅ None;
  development_dependencies ← apply_specs (m_dev_dependencies (p_manifest project)) None catalog ∅ None;
  optional_dependencies ← apply_specs (m_optional_dependencies (p_manifest project)) None catalog ∅ None;
  Ok (build_project_root_specs (ap_result dependencies) (ap_result development_dependencies)
        (ap_result optional_dependencies) true).

Definition load_manifest_root_specs (lockfile_path : string) : Result RootSpecSet :=
  let lockfile_root := default "." (parent lockfile_path) in
  workspace ← discover_workspace tree lockfile_root;
  match workspace with
  | Some workspace =>
      if path_eq (w_root workspace) lockfile_root
      then collect_workspace_root_specs canonicalize workspace true
      else load_project_root_specs lockfile_root
  | None => load_project_root_specs lockfile_root
  end.

Definition read (path : string) (config : SnpmConfig) : Result Lockfile :=
  content ← map_err (ReadFile path) (read_to_string tree path);
  root_specs ← load_manifest_root_specs path;
  if is_berry content then parse_berry_str path config content root_specs
  else parse_classic_str path config content root_specs.
End read.

(** ** An imported lockfile is closed *)
Record seeded (st : Seeded) : Prop := {
  seeded_specs spec dep_path : st.1.1 !! spec = Some dep_path -> dep_path ∈ st.2;
  seeded_seen dep_path : dep_path ∈ st.2 -> dep_path ∈ sd_dep_path <$> st.1.2;
  seeded_filed seed : seed ∈ st.1.2 -> sd_dep_path seed = package_key (sd_name seed) (sd_version seed);
}.

(** What a block does to the state: specs that lead to its path, then its seed. *)
Lemma add_seed_seeded specs seeds seen specs' seed :
  seeded (specs, seeds, seen) -> sd_dep_path seed = package_key (sd_name seed) (sd_version seed) ->
  (forall spec dep_path, specs' !! spec = Some dep_path ->
     specs !! spec = Some dep_path \/ dep_path = sd_dep_path seed) ->
  seeded (add_seed (specs', seeds, seen) seed).
Proof.
  intros [Hspecs Hseen Hfiled] Hseed Hnew. cbn in *. unfold add_seed. case_decide as Hin; split; cbn.
  - intros spec dep_path [Hold| ->]%Hnew; [by eapply Hspecs|done].
  - done.
  - done.
  - intros spec dep_path [Hold| ->]%Hnew; [apply elem_of_union_r; by eapply Hspecs|]. by apply elem_of_union_l, elem_of_singleton.
  - intros dep_path. rewrite elem_of_union, elem_of_singleton, fmap_app, elem_of_app.
    intros [->|?%Hseen]; [right; by left|by left].
  - intros s. rewrite elem_of_app, list_elem_of_singleton. by intros [?%Hfiled| ->].
Qed.

Lemma add_seed_seen specs seeds seen seed :
  sd_dep_path seed ∈ seen -> add_seed (specs, seeds, seen) seed = (specs, seeds, seen).
Proof. intros ?. unfold add_seed. by rewrite decide_True. Qed.

Section blocks.
Context `{YarnFormat} (path : string) (config : SnpmConfig).

Lemma check_specs_within block name dep_path headers specs specs' :
  try_fold (check_spec path block name dep_path) specs headers = Ok specs' ->
  forall spec p, specs' !! spec = Some p -> specs !! spec = Some p \/ p = dep_path.
Proof.
  intros Hf. apply (try_fold_inv _ (fun m : gmap string string =>
    forall spec p, m !! spec = Some p -> specs !! spec = Some p \/ p = dep_path)) with (3 := Hf); [|auto].
  intros m spec m' _ Hm (n & _ & Hif)%result_bind_Ok. destruct (n == name); [|done]. injection Hif as <-.
  unfold add_spec. intros k p [[_ <-]|[_ ?]]%lookup_insert_Some; [by right|by apply (Hm k)].
Qed.

Lemma add_classic_block_seeded st block st' :
  seeded st -> add_classic_block path config st block = Ok st' -> seeded st'.
Proof.
  intros Hst (version & _ & (name & _ & Hrest)%result_bind_Ok)%result_bind_Ok.
  destruct st as [[specs seeds] seen]. apply result_bind_Ok in Hrest as (specs' & Hs & [= <-]).
  apply (add_seed_seeded specs seeds seen specs'
           (classic_seed path config block name version (name +:+ "@" +:+ version))); [done|done|].
  by apply (check_specs_within _ _ _ _ _ _ Hs).
Qed.

Lemma add_specs_within dep_path headers (specs : gmap string string) spec p :
  foldl (add_spec dep_path) specs headers !! spec = Some p -> specs !! spec = Some p \/ p = dep_path.
Proof.
  unfold add_spec. revert specs. induction headers as [|h headers IH]; intros specs; cbn; [auto|].
  intros [[[_ <-]|[_ ?]]%lookup_insert_Some| ->]%IH; auto.
Qed.

Lemma add_berry_block_seeded st e st' :
  seeded st -> add_berry_block path config st e = Ok st' -> seeded st'.
Proof.
  intros Hst. unfold add_berry_block. destruct (yaml_str e.1) as [key|]; [|by intros [= <-]].
  destruct (starts_with _ _); [by intros [= <-]|]. intros (block & _ & Hrest)%result_bind_Ok.
  destruct (split_berry_header key) as [|h hs]; [by injection Hrest as <-|].
  revert Hrest. intros (version & _ & (resolution & _ & ([[name protocol] body] & _ & Hrest)
    %result_bind_Ok)%result_bind_Ok)%result_bind_Ok.
  destruct (protocol == "workspace"); [by injection Hrest as <-|].
  destruct st as [[specs seeds] seen]. cbn zeta in Hrest.
  set (seed t := berry_seed block name version (name +:+ "@" +:+ version) t) in *.
  assert (Hok : forall t, seeded (add_seed (foldl (add_spec (name +:+ "@" +:+ version)) specs (h :: hs), seeds, seen) (seed t))).
  { intros t. apply (add_seed_seeded specs); [done|done|]. intros spec p. apply add_specs_within. }
  case_decide as Hseen.
  - injection Hrest as <-. specialize (Hok ε). by rewrite add_seed_seen in Hok.
  - apply result_bind_Ok in Hrest as (tarball & _ & [= <-]). apply Hok.
Qed.
End blocks.

Lemma seeded_empty : seeded (∅, [], ∅).
Proof. split; cbn; intros *; [by rewrite lookup_empty|by intros ?%not_elem_of_empty|by intros ?%not_elem_of_nil]. Qed.

Lemma resolve_spec_candidates_Some candidates (specs : gmap string string) dep_path :
  resolve_spec_candidates candidates specs = Some dep_path ->
  exists candidate, candidate ∈ candidates /\ specs !! candidate = Some dep_path.
Proof.
  unfold resolve_spec_candidates. destruct (omap _ candidates) as [|p ps] eqn:Ho; [done|]. intros [= <-].
  assert (Hp : p ∈ omap (fun c => specs !! c) candidates) by (rewrite Ho; by left).
  by apply list_elem_of_omap in Hp.
Qed.

Lemma seeds_to_packages_spec seeds specs builder :
  (forall key package, seeds_to_packages seeds specs builder !! key = Some package ->
     exists seed, seed ∈ seeds /\ key = sd_dep_path seed /\ package = seed_package specs builder seed) /\
  (forall key, key ∈ sd_dep_path <$> seeds -> is_Some (seeds_to_packages seeds specs builder !! key)).
Proof.
  unfold seeds_to_packages. induction seeds as [|seed seeds [IHa IHb]] using rev_ind.
  { split; cbn; [by intros ? ?; rewrite lookup_empty|by intros ? ?%not_elem_of_nil]. }
  rewrite foldl_app. cbn [foldl]. split.
  - intros key package [[<- <-]|[_ (s & ? & ? & ?)%IHa]]%lookup_insert_Some; [|exists s; rewrite elem_of_app; auto].
    exists seed. rewrite elem_of_app, list_elem_of_singleton. auto.
  - intros key. rewrite fmap_app, elem_of_app. cbn. rewrite list_elem_of_singleton. rewrite lookup_insert_is_Some'.
    intros [?%IHb| ->]; auto.
Qed.

Section finish.
Context (path : string) (specs : gmap string string) (builder : string -> string -> list string).
Context (known : string -> Prop) (Hknown : forall spec dep_path, specs !! spec = Some dep_path -> known dep_path).

Lemma resolved_known candidates dep_path : resolve_spec_candidates candidates specs = Some dep_path -> known dep_path.
Proof. intros (c & _ & Hc)%resolve_spec_candidates_Some. by eapply Hknown. Qed.

Lemma resolved_dependency_within name requested optional dep_path dep :
  known dep_path -> resolved_dependency path name requested optional dep_path = Ok dep -> root_within known name dep.
Proof.
  intros Hk ([n v] & Hs & [= <-])%result_bind_Ok. change split_dep_path with split_dep_key in Hs.
  destruct (split_dep_key dep_path) as [[n' v']|] eqn:Hkey; cbn in Hs; [|done]. injection Hs as <- <-.
  apply split_dep_key_inv in Hkey as [-> Hv]. by apply resolved_root_within.
Qed.

Lemma yarn_insert_root_within (root : gmap string LockRootDependency) name dep :
  roots_within known root -> root_within known name dep -> roots_within known (<[name := dep]> root).
Proof. intros Hr Hd n d [[<- <-]|[_ ?]]%lookup_insert_Some; [done|by apply Hr]. Qed.

Lemma build_root_within root_specs root :
  build_root_from_specs path root_specs specs builder = Ok root -> roots_within known root.
Proof.
  intros (r & Hr & Hroot)%result_bind_Ok.
  assert (Hreq : roots_within known r).
  { apply (try_fold_inv _ (roots_within known)) with (3 := Hr); [|apply roots_within_empty].
    intros m [name requested] m' _ Hm (dep_path & Hd & (dep & Hdep & [= <-])%result_bind_Ok)%result_bind_Ok.
    destruct (resolve_spec_candidates _ _) as [p|] eqn:Hp; cbn in Hd; [|done]. injection Hd as <-.
    apply yarn_insert_root_within; [done|]. eapply resolved_dependency_within; [|done]. by eapply resolved_known. }
  apply (try_fold_inv _ (roots_within known)) with (3 := Hroot); [|done].
  intros m [name requested] m' _ Hm (dep & Hdep & [= <-])%result_bind_Ok. apply yarn_insert_root_within; [done|].
  destruct (resolve_spec_candidates _ _) as [p|] eqn:Hp; [|by injection Hdep as <-].
  eapply resolved_dependency_within; [|done]. by eapply resolved_known.
Qed.

Lemma resolve_dependencies_known declared : deps_known known (resolve_dependencies_with declared specs builder).
Proof.
  unfold resolve_dependencies_with. generalize (btree_iter declared). intros l.
  assert (Hg : forall m, deps_known known m -> deps_known known (foldl (fun (dependencies : gmap string string) (e : string * string) =>
    match resolve_spec_candidates (builder e.1 e.2) specs with
    | Some dep_path => <[e.1 := dep_path]> dependencies
    | None => dependencies
    end) m l)).
  { induction l as [|e l IH]; intros m Hm; [done|]. apply IH.
    destruct (resolve_spec_candidates _ _) eqn:Hr; [|done]. apply deps_known_insert; [by eapply resolved_known|done]. }
  apply Hg, deps_known_empty.
Qed.
End finish.

Lemma finish_import_closed path root_specs builder st lockfile :
  seeded st -> finish_import path root_specs builder st = Ok lockfile -> lockfile_closed lockfile.
Proof.
  destruct st as [[specs seeds] seen]. intros [Hspecs Hseen Hfiled] (root & Hroot & [= <-])%result_bind_Ok. cbn in *.
  destruct (seeds_to_packages_spec seeds specs builder) as [Hfrom Hin].
  set (known := fun key => is_Some (seeds_to_packages seeds specs builder !! key)).
  assert (Hknown : forall spec p, specs !! spec = Some p -> known p).
  { intros spec p Hp%Hspecs. by apply Hin, Hseen. }
  split; cbn.
  - intros key package (seed & Hs & -> & ->)%Hfrom. by apply Hfiled.
  - intros key package (seed & Hs & -> & ->)%Hfrom. by apply resolve_dependencies_known.
  - by apply (build_root_within path specs builder known Hknown root_specs).
Qed.

Lemma yarn_import_closed `{YarnFormat} `{ConfigFiles} `{GlobCrate} `{GlobEntries} `{SemverCrate} `{UrlCrate}
    canonicalize tree path config lockfile :
  read canonicalize tree path config = Ok lockfile -> lockfile_closed lockfile.
Proof.
  intros (content & _ & (root_specs & _ & Hread)%result_bind_Ok)%result_bind_Ok. destruct (is_berry content).
  - revert Hread. intros (doc & _ & (map & _ & Hmap)%result_bind_Ok)%result_bind_Ok.
    destruct (_ <? _)%N; [done|]. revert Hmap. intros (st & Hst & Hfin)%result_bind_Ok.
    eapply finish_import_closed; [|done].
    apply (try_fold_inv _ seeded) with (3 := Hst); [|apply seeded_empty]. intros *. intros _. apply add_berry_block_seeded.
  - revert Hread. intros (blocks & _ & (st & Hst & Hfin)%result_bind_Ok)%result_bind_Ok.
    eapply finish_import_closed; [|done].
    apply (try_fold_inv _ seeded) with (3 := Hst); [|apply seeded_empty]. intros *. intros _. apply add_classic_block_seeded.
Qed.
End Yarn.
