(* ===== verification/Importers.v ===== *)
(** * The lockfile of another package manager ([lockfile/compat/mod.rs])

    Which file of a project is imported, and by which importer; and what all of
    them promise: the graph of an imported lockfile is closed. *)
From S2P Require Import Prelude.
From S2P Require Import BTree.
From S2P Require Import Text.
From S2P Require Import Errors.
From S2P Require Import Types.
From S2P Require Import Paths.
From S2P Require Import Specs.
From S2P Require Import Crates.
From S2P Require Import Semver.
From S2P Require Import Lockfile.
From S2P Require Import Roots.
From S2P Require Import Discovery.
From S2P Require Import Compat.
From S2P Require Import NpmLock.
From S2P Require Import PnpmLock.
From S2P Require Import BunLock.
From S2P Require Import YarnLock.

(** [git -C <dir> branch --show-current]: whether it succeeded, and its output;
    [None] when it cannot be started. *)
Class GitBranch := { show_current_branch : string -> option (bool * string) }.

(** What an import asks of code outside the repository *)
Class ForeignFormats := {
  foreign_json :: JsonCrate;
  foreign_npm :: NpmLock.Npm.NpmFormat;
  foreign_pnpm :: PnpmLock.Pnpm.PnpmFormat;
  foreign_bun :: BunLock.Bun.BunFormat;
  foreign_yarn :: YarnLock.Yarn.YarnFormat;
  foreign_files :: ConfigFiles;
  foreign_glob :: GlobCrate;
  foreign_entries :: GlobEntries;
  foreign_url :: UrlCrate;
}.

Inductive CompatibleLockfileKind := Pnpm | Bun | Yarn | NpmShrinkwrap | Npm.

Definition filename (kind : CompatibleLockfileKind) : string :=
  match kind with
  | Pnpm => "pnpm-lock.yaml"
  | Bun => "bun.lock"
  | Yarn => "yarn.lock"
  | NpmShrinkwrap => "npm-shrinkwrap.json"
  | Npm => "package-lock.json"
  end.

Record CompatibleLockfile := { cl_kind : CompatibleLockfileKind; cl_path : string }.

Definition label (source : CompatibleLockfile) : string := filename (cl_kind source).

Definition pnpm_branch_lockfile_name (branch : string) : string :=
  "pnpm-lock." +:+ join "!" (split_char "/" branch) +:+ ".yaml".

Definition current_git_branch `{GitBranch} (project_root : string) : option string :=
  '(success, stdout) ← show_current_branch project_root;
  if negb success then None else
  branch ← result_ok (from_utf8 stdout);
  let branch := trim branch in
  if is_empty branch then None else Some branch.

Definition compatible_lockfile_candidates `{GitBranch} (project_root : string) : list CompatibleLockfile :=
  let at_ kind := {| cl_kind := kind; cl_path := path_push project_root (filename kind) |} in
  match current_git_branch project_root with
  | Some branch => [{| cl_kind := Pnpm; cl_path := path_push project_root (pnpm_branch_lockfile_name branch) |}]
  | None => []
  end ++ (at_ <$> [Pnpm; Bun; Yarn; NpmShrinkwrap; Npm]).

Definition detect_compatible_lockfile `{GitBranch} (tree : FileTree) (project_root : string)
  : option CompatibleLockfile :=
  head (filter (fun candidate => is_file tree (cl_path candidate) = true)
          (compatible_lockfile_candidates project_root)).

Section read.
Context `{ForeignFormats} `{SemverCrate}.
Variable canonicalize : string -> result string string.
Variable tree : FileTree.

Definition read_compatible_lockfile (source : CompatibleLockfile) (config : SnpmConfig) : Result Lockfile :=
  match cl_kind source with
  | Pnpm => PnpmLock.Pnpm.read tree (cl_path source) config
  | Bun => BunLock.Bun.read tree (cl_path source) config
  | Yarn => YarnLock.Yarn.read canonicalize tree (cl_path source) config
  | NpmShrinkwrap | Npm => NpmLock.Npm.read tree (cl_path source) config
  end.

(** ** What importing promises *)
Lemma read_compatible_lockfile_closed source config lockfile :
  read_compatible_lockfile source config = Ok lockfile -> lockfile_closed lockfile.
Proof.
  unfold read_compatible_lockfile. destruct (cl_kind source).
  - intros (data & _ & (raw & _ & Hi)%result_bind_Ok)%result_bind_Ok. by eapply pnpm_import_closed.
  - intros (data & _ & (raw & _ & Hi)%result_bind_Ok)%result_bind_Ok. by eapply bun_import_closed.
  - intros Hr. by eapply YarnLock.Yarn.yarn_import_closed.
  - intros (data & _ & (raw & _ & Hi)%result_bind_Ok)%result_bind_Ok. by eapply npm_import_closed.
  - intros (data & _ & (raw & _ & Hi)%result_bind_Ok)%result_bind_Ok. by eapply npm_import_closed.
Qed.

End read.

(** ** Concrete inputs *)
Module ImportersDemo.
(** No format but that of manifests can be read, and a glob is a path. *)
Definition with_manifests (files : ConfigFiles) : ForeignFormats := {|
  foreign_json := {| json_from_str _ := Err "none" |};
  foreign_npm := {| NpmLock.Npm.parse_probe _ := Err "none"; NpmLock.Npm.parse_lockfile _ := Err "none";
                    NpmLock.Npm.parse_v1 _ := Err "none" |};
  foreign_pnpm := {| PnpmLock.Pnpm.parse_lockfile _ := Err "none" |};
  foreign_bun := {| BunLock.Bun.parse_lockfile _ := Err "none"; BunLock.Bun.parse_meta _ := None |};
  foreign_yarn := {| YarnLock.Yarn.parse_yaml _ := Err "none"; YarnLock.Yarn.debug_strings _ := ε |};
  foreign_files := files;
  foreign_glob := {| glob_pattern := string; glob_new := Some; glob_matches := String.eqb |};
  foreign_entries := {| glob_entries _ := Ok []; glob_new_error _ := ε |};
  foreign_url := percent_url |}.

Definition nl : string := chr "010".
Definition yarn_lock : string := join nl
  ["# yarn lockfile v1"; ε; "a@^1.0.0, a@^1.2.0:"; "  version " +:+ chr "034" +:+ "1.2.3" +:+ chr "034";
   "  resolved " +:+ chr "034" +:+ "https://registry.yarnpkg.com/a/-/a-1.2.3.tgz#abc" +:+ chr "034";
   "  dependencies:"; "    " +:+ chr "034" +:+ "@s/b" +:+ chr "034" +:+ " ^2.0.0"; ε;
   chr "034" +:+ "@s/b@^2.0.0" +:+ chr "034" +:+ ":"; "  version " +:+ chr "034" +:+ "2.0.1" +:+ chr "034";
   "  resolved " +:+ chr "034" +:+ "git+ssh://git@github.com/s/b.git#abc" +:+ chr "034"; ε].

Definition manifest : Manifest := {|
  m_name := Some "app"; m_version := None; m_package_manager := None; m_private := false;
  m_dependencies := {["a" := "^1.2.0"]}; m_dev_dependencies := ∅; m_optional_dependencies := {["c" := "^1.0.0"]};
  m_scripts := ∅; m_resolutions := ∅; m_overrides := ∅; m_files := None; m_bin := None; m_main := None;
  m_pnpm := None; m_snpm := None; m_workspaces := None; m_extra := ∅ |}.

Definition only_manifests : ConfigFiles := {|
  parse_manifest _ := Ok manifest; parse_workspaces _ := Ok None; parse_workspace_config _ := Err "none";
  parse_catalog_config _ := Err "none"; parse_yarnrc _ := Err "none"; parse_overrides_config _ := Err "none" |}.
#[local] Instance manifests_only : ForeignFormats := with_manifests only_manifests.
#[local] Instance on_branch : GitBranch := {| show_current_branch _ := Some (true, "feature/x" +:+ nl) |}.

Definition tree : FileTree := {|
  symlink_metadata _ := Err "unused";
  metadata p := if one_of p ["/p/package.json"; "/p/yarn.lock"] then Ok TFile else
                if one_of p ["/"; "/p"] then Ok TDir else Err "No such file or directory";
  Paths.read p := if p == "/p/package.json" then Ok "{}" else if p == "/p/yarn.lock" then Ok yarn_lock
            else Err "No such file or directory";
  read_dir _ := Err "unused" |}.

Definition source : CompatibleLockfile := {| cl_kind := Yarn; cl_path := "/p/yarn.lock" |}.
Definition imported : Lockfile :=
  default {| l_version := 0; l_root := ∅; l_packages := ∅ |}
    (result_ok (read_compatible_lockfile Ok tree source config_for_tests)).

Example detected :
  detect_compatible_lockfile tree "/p" = Some source /\
  cl_path <$> compatible_lockfile_candidates "/p" =
    ["/p/pnpm-lock.feature!x.yaml"; "/p/pnpm-lock.yaml"; "/p/bun.lock"; "/p/yarn.lock"; "/p/npm-shrinkwrap.json";
     "/p/package-lock.json"].
Proof. split; vm_refl. Qed.

(** The lockfile of yarn classic names the packages that answer two specs; the
    roots are those of the manifest, the optional one without an answer.  A git
    dependency is imported as the package of the registry of its name and version. *)
Example yarn_classic_imported :
  btree_iter (l_root imported) =
    [("a", {| ld_requested := "^1.2.0"; ld_package := None; ld_version := Some "1.2.3"; ld_optional := false |});
     ("c", {| ld_requested := "^1.0.0"; ld_package := None; ld_version := None; ld_optional := true |})] /\
  (fun e => (e.1, lp_tarball e.2)) <$> btree_iter (l_packages imported) =
    [("@s/b@2.0.1", "https://registry.npmjs.org/@s%2Fb/-/b-2.0.1.tgz");
     ("a@1.2.3", "https://registry.yarnpkg.com/a/-/a-1.2.3.tgz")].
Proof. split; vm_refl. Qed.

(** Yarn quotes names that start with [@]; the tokenizer takes the quotes off
    values and headers and not off the names of dependencies, so the dependency
    on [@s/b], which the lockfile resolves, is lost. *)
Example scoped_dependencies_are_lost :
  btree_iter ∘ lp_dependencies <$> l_packages imported !! "a@1.2.3" = Some [] /\
  btree_iter ∘ YarnLock.Yarn.cb_dependencies <$>
    default [] (result_ok (YarnLock.Yarn.tokenize_classic_blocks yarn_lock)) =
    [[(chr "034" +:+ "@s/b" +:+ chr "034", "^2.0.0")]; []].
Proof. split; vm_refl. Qed.

End ImportersDemo.
