(* ===== verification/Why.v ===== *)
(** * Why a package is installed ([operations/why/])

    The reverse index of a resolution graph, the walk from a package up to the
    dependencies of the project, and the patterns that choose the packages.  The
    walk is recursive with a set of visited packages; its fuel is the number of
    packages. *)
From S2P Require Import Prelude.
From S2P Require Import BTree.
From S2P Require Import Text.
From S2P Require Import Errors.
From S2P Require Import Types.
From S2P Require Import Paths.
From S2P Require Import Crates.
From S2P Require Import Lockfile.
From S2P Require Import Discovery.

(** ** [index.rs] *)
Record PackageParent := { pp_parent : PackageId; pp_via : string }.
Record RootParent := { rp_name : string; rp_requested : string }.
Record ReverseIndex := {
  package_parents : gmap PackageId (list PackageParent);
  root_parents : gmap PackageId (list RootParent);
}.

(** [entry(key).or_default().push(value)] *)
Definition push_at {K A} `{Countable K} (key : K) (value : A) (m : gmap K (list A)) : gmap K (list A) :=
  <[key := default [] (m !! key) ++ [value]]> m.

Definition package_parent_le (a b : PackageParent) : Prop := ord_le (pp_parent a, pp_via a) (pp_parent b, pp_via b).
Global Instance package_parent_le_dec : RelDecision package_parent_le.
Proof. intros a b. unfold package_parent_le. apply _. Defined.
Definition root_parent_le (a b : RootParent) : Prop := ord_le (rp_name a, rp_requested a) (rp_name b, rp_requested b).
Global Instance root_parent_le_dec : RelDecision root_parent_le.
Proof. intros a b. unfold root_parent_le. apply _. Defined.

(** The edges of the graph, in the order in which they are pushed. *)
Definition package_edges (graph : ResolutionGraph) : list (PackageId * PackageParent) :=
  mjoin ((fun package => (fun e => (e.2, {| pp_parent := r_id package; pp_via := e.1 |})) <$> btree_iter (r_dependencies package))
    <$> btree_values (g_packages graph)).
Definition root_edges (graph : ResolutionGraph) : list (PackageId * RootParent) :=
  (fun e => (rd_resolved e.2, {| rp_name := e.1; rp_requested := rd_requested e.2 |})) <$> btree_iter (g_root graph).

Definition push_all_at {A} (edges : list (PackageId * A)) : gmap PackageId (list A) :=
  foldl (fun m e => push_at e.1 e.2 m) ∅ edges.

Definition build_reverse_index (graph : ResolutionGraph) : ReverseIndex := {|
  package_parents := merge_sort package_parent_le <$> push_all_at (package_edges graph);
  root_parents := merge_sort root_parent_le <$> push_all_at (root_edges graph) |}.

(** ** [types.rs] *)
Inductive WhyHop := WhyPackage (name version via : string) | WhyRoot (name requested : string).
Global Instance WhyHop_eq_dec : EqDecision WhyHop.
Proof. solve_decision. Defined.
Record WhyPath := { hops : list WhyHop; truncated : bool }.
Global Instance WhyPath_eq_dec : EqDecision WhyPath.
Proof. solve_decision. Defined.
Record WhyPackageMatch := { wm_name : string; wm_version : string; wm_paths : list WhyPath }.

(** The derived [Ord]: by variant, then by fields; a path by its hops, then by the flag. *)
Definition hop_key (hop : WhyHop) : nat * list string :=
  match hop with WhyPackage name version via => (0, [name; version; via]) | WhyRoot name requested => (1, [name; requested]) end.
Definition path_order (path : WhyPath) : list (nat * list string) * nat :=
  (hop_key <$> hops path, if truncated path then 1 else 0).
Definition why_path_le (a b : WhyPath) : Prop := ord_le (path_order a) (path_order b).
Global Instance why_path_le_dec : RelDecision why_path_le.
Proof. intros a b. unfold why_path_le. apply _. Defined.

(** [Vec::dedup] *)
Fixpoint dedup_adjacent {A} `{EqDecision A} (l : list A) : list A :=
  match l with
  | a :: (b :: _) as rest => if decide (a = b) then dedup_adjacent rest else a :: dedup_adjacent rest
  | _ => l
  end.
Definition dedupe_paths (paths : list WhyPath) : list WhyPath := dedup_adjacent (merge_sort why_path_le paths).

(** ** [service/paths.rs] *)
Definition root_hop (root : RootParent) : WhyHop := WhyRoot (rp_name root) (rp_requested root).
Definition package_hop (parent : PackageParent) : WhyHop :=
  WhyPackage (id_name (pp_parent parent)) (id_version (pp_parent parent)) (pp_via parent).

Definition emit_truncated_or_root_paths (index : ReverseIndex) (parent : PackageId) (parent_hops : list WhyHop)
    (out : list WhyPath) : list WhyPath :=
  match root_parents index !! parent with
  | None => out ++ [{| hops := parent_hops; truncated := true |}]
  | Some roots => out ++ ((fun root => {| hops := parent_hops ++ [root_hop root]; truncated := false |}) <$> roots)
  end.

Section walk.
Context (index : ReverseIndex) (max_depth : N).

(** One parent of [current]: whether the walk advanced, and what it found; [walk]
    continues from the parent. *)
Definition walk_parent (walk : PackageId -> gset PackageId -> list WhyHop -> N -> list WhyPath -> list WhyPath)
    (visited : gset PackageId) (hops : list WhyHop) (depth : N) (acc : bool * list WhyPath) (parent : PackageParent)
  : bool * list WhyPath :=
  let '(advanced, out) := acc in
  if bool_decide (pp_parent parent ∈ visited) then (advanced, out) else
  let parent_hops := hops ++ [package_hop parent] in
  let next_depth := (depth + 1)%N in
  if (max_depth <=? next_depth)%N then (true, emit_truncated_or_root_paths index (pp_parent parent) parent_hops out)
  else (true, walk (pp_parent parent) ({[pp_parent parent]} ∪ visited) parent_hops next_depth out).

Fixpoint walk_paths (fuel : nat) (current : PackageId) (visited : gset PackageId) (hops : list WhyHop) (depth : N)
    (out : list WhyPath) : list WhyPath :=
  match fuel with
  | O => out
  | S fuel =>
      let roots := default [] (root_parents index !! current) in
      let parents := default [] (package_parents index !! current) in
      let out := out ++ ((fun root => {| hops := hops ++ [root_hop root]; truncated := false |}) <$> roots) in
      let '(advanced, out) := foldl (walk_parent (walk_paths fuel) visited hops depth)
                                (negb (bool_decide (roots = [])), out) parents in
      if advanced then out else out ++ [{| hops := hops; truncated := false |}]
  end.
End walk.

(** The packages the walk may pass through: it visits each at most once. *)
Definition parent_ids (index : ReverseIndex) : gset PackageId :=
  list_to_set (pp_parent <$> mjoin (map_to_list (package_parents index)).*2).

Definition build_match (index : ReverseIndex) (max_depth : N) (target : PackageId) : WhyPackageMatch :=
  let paths := walk_paths index max_depth (S (size (parent_ids index))) target {[target]} [] 0 [] in
  {| wm_name := id_name target; wm_version := id_version target; wm_paths := dedupe_paths paths |}.

(** ** [pattern.rs] *)
Fixpoint pattern_loop (value : string) (starts_anchored : bool) (idx cursor : nat) (parts : list string) : bool :=
  match parts with
  | [] => true
  | part :: parts =>
      if (idx =? 0)%nat && starts_anchored then
        if starts_with part (sdrop cursor value)
        then pattern_loop value starts_anchored (S idx) (cursor + String.length part) parts
        else false
      else
        match find_str part (sdrop cursor value) with
        | Some found => pattern_loop value starts_anchored (S idx) (cursor + found + String.length part) parts
        | None => false
        end
  end.

Definition matches_pattern (value pattern : string) : bool :=
  if pattern == "*" then true
  else if negb (contains_char "*" pattern) then value == pattern
  else
    let starts_anchored := negb (starts_with "*" pattern) in
    let ends_anchored := negb (ends_with "*" pattern) in
    let parts := filter (fun part => is_empty part = false) (split_char "*" pattern) in
    match parts with
    | [] => true
    | _ =>
        pattern_loop value starts_anchored 0 0 parts &&
        (if ends_anchored then match last parts with Some last => ends_with last value | None => true end else true)
    end.

(** ** [service/] *)
Section why.
Context `{LockCrates} `{ConfigFiles} `{GlobCrate} `{GlobEntries} (fs : FileSystem).

Definition find_lockfile_path (project : Project) : Result string :=
  workspace ← discover_workspace fs (p_root project);
  let lockfile_path := match workspace with
                       | Some workspace => path_push (w_root workspace) "snpm-lock.yaml"
                       | None => path_push (p_root project) "snpm-lock.yaml"
                       end in
  if is_file fs lockfile_path then Ok lockfile_path
  else Err (LockfileError lockfile_path "snpm-lock.yaml is missing. Run `snpm install` first.").

(** The keys of a [BTreeMap] are sorted already. *)
Definition load_why_context (project : Project) (patterns : list string) : Result (ReverseIndex * list PackageId) :=
  lockfile_path ← find_lockfile_path project;
  lock ← Lockfile.read_with (fs_bytes fs) lockfile_path;
  let graph := Lockfile.Graph.to_graph lock in
  Ok (build_reverse_index graph,
      filter (fun id => existsb (matches_pattern (id_name id)) patterns = true) (btree_keys (g_packages graph))).

(** [WhyOptions]: its field [depth]. *)
Definition why (project : Project) (patterns : list string) (depth : option N) : Result (list WhyPackageMatch) :=
  '(index, targets) ← load_why_context project patterns;
  Ok (fmap (M := list) (build_match index (default u64_max depth)) targets).
End why.

(** ** What the reverse index holds *)
Lemma push_all_at_lookup {A} (edges : list (PackageId * A)) key :
  default [] (push_all_at edges !! key) = snd <$> filter (fun e => e.1 = key) edges /\
  (push_all_at edges !! key = Some [] -> False).
Proof.
  unfold push_all_at. induction edges as [|[k a] edges IH] using rev_ind; [cbn [foldl]; by rewrite lookup_empty|].
  rewrite foldl_app. cbn [foldl fst snd]. rewrite filter_app, fmap_app. unfold push_at.
  set (m := foldl _ ∅ edges) in *. destruct IH as [IH IHne]. destruct (decide (k = key)) as [->|Hne].
  - rewrite lookup_insert_eq, filter_cons_True, <-IH by done. split; [done|]. intros [= Hnil]. by apply app_nil in Hnil as [_ ?].
  - rewrite lookup_insert_ne, filter_cons_False by done. by rewrite app_nil_r.
Qed.

Lemma sorted_elem {A} (le : A -> A -> Prop) `{!RelDecision le} (edges : list (PackageId * A)) key a :
  a ∈ default [] ((merge_sort le <$> push_all_at edges) !! key) <-> (key, a) ∈ edges.
Proof.
  rewrite lookup_fmap. pose proof (proj1 (push_all_at_lookup edges key)) as Hl.
  assert (Hin : a ∈ default [] (push_all_at edges !! key) <-> (key, a) ∈ edges).
  { rewrite Hl, list_elem_of_fmap. split.
    - intros ([k x] & -> & [Hk Hin]%list_elem_of_filter). cbn in *. by subst.
    - intros Hin. exists (key, a). split; [done|]. by apply list_elem_of_filter. }
  rewrite <-Hin. destruct (push_all_at edges !! key) as [l|]; cbn; [|done]. by rewrite merge_sort_Permutation.
Qed.

Definition edge_to (graph : ResolutionGraph) (current : PackageId) (parent : PackageParent) : Prop :=
  exists package, package ∈ btree_values (g_packages graph) /\ r_id package = pp_parent parent /\
    r_dependencies package !! pp_via parent = Some current.
Definition root_to (graph : ResolutionGraph) (current : PackageId) (root : RootParent) : Prop :=
  exists dependency, g_root graph !! rp_name root = Some dependency /\ rd_resolved dependency = current /\
    rd_requested dependency = rp_requested root.

Lemma package_parents_spec graph current parent :
  parent ∈ default [] (package_parents (build_reverse_index graph) !! current) <-> edge_to graph current parent.
Proof.
  cbn [package_parents build_reverse_index]. rewrite (sorted_elem package_parent_le). unfold package_edges, edge_to.
  rewrite list_elem_of_join. split.
  - intros (l & Hin & (package & -> & Hp)%list_elem_of_fmap). apply list_elem_of_fmap in Hin as ([via dep] & [= -> ->] & Hdep).
    exists package. by apply elem_of_btree_iter in Hdep.
  - intros (package & Hp & Hid & Hdep). eexists. split; [|by apply list_elem_of_fmap_2]. apply list_elem_of_fmap.
    exists (pp_via parent, current). split; [|by apply elem_of_btree_iter]. destruct parent. cbn in *. by rewrite Hid.
Qed.
Lemma root_parents_spec graph current root :
  root ∈ default [] (root_parents (build_reverse_index graph) !! current) <-> root_to graph current root.
Proof.
  cbn [root_parents build_reverse_index]. rewrite (sorted_elem root_parent_le). unfold root_edges, root_to.
  rewrite list_elem_of_fmap. split.
  - intros ([name dep] & [= -> ->] & Hdep). cbn. apply elem_of_btree_iter in Hdep. by exists dep.
  - intros (dep & Hdep & <- & Hreq). exists (rp_name root, dep). split; [|by apply elem_of_btree_iter].
    destruct root. cbn in *. by rewrite Hreq.
Qed.
(** A package with an entry among the roots has a root. *)
Lemma root_parents_entry graph current :
  match root_parents (build_reverse_index graph) !! current with Some roots => roots <> [] | None => True end.
Proof.
  cbn [root_parents build_reverse_index]. rewrite lookup_fmap.
  destruct (push_all_at (root_edges graph) !! current) as [l|] eqn:E; cbn; [|done]. intros Hnil.
  apply (proj2 (push_all_at_lookup (root_edges graph) current)). rewrite E. f_equal.
  apply Permutation_nil. by rewrite <-Hnil, merge_sort_Permutation.
Qed.

(** ** What the walk finds *)
Section explains.
Context (graph : ResolutionGraph) (max_depth : N).

(** The chains from a package up, as the graph has them: a chain goes from a
    package to one that depends on it and is not on the chain yet, and ends at a
    dependency of the project, at the greatest length, or where every package
    that depends on the last one is on the chain. *)
Inductive explains : gset PackageId -> N -> PackageId -> list WhyHop -> bool -> Prop :=
| explains_root visited depth current root :
    root_to graph current root -> explains visited depth current [root_hop root] false
| explains_package visited depth current parent hops truncated :
    edge_to graph current parent -> pp_parent parent ∉ visited -> (depth + 1 < max_depth)%N ->
    explains ({[pp_parent parent]} ∪ visited) (depth + 1) (pp_parent parent) hops truncated ->
    explains visited depth current (package_hop parent :: hops) truncated
| explains_last_root visited depth current parent root :
    edge_to graph current parent -> pp_parent parent ∉ visited -> (max_depth <= depth + 1)%N ->
    root_to graph (pp_parent parent) root -> explains visited depth current [package_hop parent; root_hop root] false
| explains_cut visited depth current parent :
    edge_to graph current parent -> pp_parent parent ∉ visited -> (max_depth <= depth + 1)%N ->
    (forall root, ~ root_to graph (pp_parent parent) root) -> explains visited depth current [package_hop parent] true
| explains_end visited depth current :
    (forall root, ~ root_to graph current root) -> (forall parent, edge_to graph current parent -> pp_parent parent ∈ visited) ->
    explains visited depth current [] false.

Notation index := (build_reverse_index graph).

Definition explained (visited : gset PackageId) (depth : N) (current : PackageId) (prefix : list WhyHop) (x : WhyPath) : Prop :=
  exists hs, explains visited depth current hs (truncated x) /\ hops x = prefix ++ hs.
(** What is found through one parent. *)
Definition through (visited : gset PackageId) (depth : N) (prefix : list WhyHop) (parent : PackageParent) (x : WhyPath) : Prop :=
  pp_parent parent ∉ visited /\
  if (max_depth <=? depth + 1)%N then x ∈ emit_truncated_or_root_paths index (pp_parent parent) (prefix ++ [package_hop parent]) []
  else explained ({[pp_parent parent]} ∪ visited) (depth + 1) (pp_parent parent) (prefix ++ [package_hop parent]) x.

Lemma emit_app parent parent_hops out :
  emit_truncated_or_root_paths index parent parent_hops out = out ++ emit_truncated_or_root_paths index parent parent_hops [].
Proof. unfold emit_truncated_or_root_paths. by destruct (root_parents index !! parent). Qed.

Lemma no_roots current : (forall root, ~ root_to graph current root) <-> default [] (root_parents index !! current) = [].
Proof.
  split.
  - intros Hno. destruct (default [] (root_parents index !! current)) as [|root l] eqn:E; [done|].
    exfalso. apply (Hno root). apply root_parents_spec. rewrite E. by left.
  - intros Hnil root Hroot. apply root_parents_spec in Hroot. rewrite Hnil in Hroot. by apply elem_of_nil in Hroot.
Qed.

Lemma emit_spec parent parent_hops x :
  x ∈ emit_truncated_or_root_paths index parent parent_hops [] <->
  (exists root, root_to graph parent root /\ x = {| hops := parent_hops ++ [root_hop root]; truncated := false |}) \/
  (forall root, ~ root_to graph parent root) /\ x = {| hops := parent_hops; truncated := true |}.
Proof.
  rewrite no_roots. pose proof (root_parents_entry graph parent) as Hentry. pose proof (root_parents_spec graph parent) as Hspec.
  unfold emit_truncated_or_root_paths. destruct (root_parents index !! parent) as [roots|]; cbn [default] in *.
  - cbn [app]. rewrite list_elem_of_fmap. split.
    + intros (root & -> & Hin). left. exists root. split; [by apply Hspec|done].
    + intros [(root & Hroot%Hspec & ->)|[Hnil _]]; [by exists root|done].
  - cbn [app]. rewrite list_elem_of_singleton. split; [intros ->; by right|].
    intros [(root & Hroot%Hspec & _)|[_ ->]]; [by apply elem_of_nil in Hroot|done].
Qed.

Lemma explained_iff visited depth current prefix x :
  explained visited depth current prefix x <->
  (exists root, root_to graph current root /\ x = {| hops := prefix ++ [root_hop root]; truncated := false |}) \/
  (exists parent, edge_to graph current parent /\ through visited depth prefix parent x) \/
  ((forall root, ~ root_to graph current root) /\ (forall parent, edge_to graph current parent -> pp_parent parent ∈ visited) /\
   x = {| hops := prefix; truncated := false |}).
Proof.
  unfold explained, through. split.
  - intros (hs & Hex & Hh). destruct x as [hx tx]. cbn in *. subst hx.
    destruct Hex as [v d c root Hr|v d c parent h t He Hn Hd Hex|v d c parent root He Hn Hd Hr|v d c parent He Hn Hd Hr|v d c Hr He].
    + left. by exists root.
    + right. left. exists parent. split_and!; [done|done|]. rewrite (proj2 (N.leb_gt _ _) Hd). exists h. by rewrite <-(assoc_L app).
    + right. left. exists parent. split_and!; [done|done|]. rewrite (proj2 (N.leb_le _ _) Hd). apply emit_spec. left.
      exists root. by rewrite <-(assoc_L app).
    + right. left. exists parent. split_and!; [done|done|]. rewrite (proj2 (N.leb_le _ _) Hd). apply emit_spec. by right.
    + right. right. by rewrite app_nil_r.
  - intros [(root & Hr & ->)|[(parent & He & Hn & Hx)|(Hr & He & ->)]].
    + exists [root_hop root]. split; [by apply explains_root|done].
    + destruct (max_depth <=? depth + 1)%N eqn:Hd; [apply N.leb_le in Hd|apply N.leb_gt in Hd].
      * apply emit_spec in Hx as [(root & Hr & ->)|[Hr ->]].
        -- exists [package_hop parent; root_hop root]. split; [by apply explains_last_root|]. cbn. by rewrite <-(assoc_L app).
        -- exists [package_hop parent]. split; [by apply explains_cut|done].
      * destruct Hx as (hs & Hex & ->). exists (package_hop parent :: hs). split; [by apply explains_package|]. by rewrite <-(assoc_L app).
    + exists []. split; [by apply explains_end|]. cbn. by rewrite app_nil_r.
Qed.

Lemma walk_parents_spec walk visited prefix depth l : forall advanced out advanced' out',
  (forall parent out x, parent ∈ l -> pp_parent parent ∉ visited -> 
     x ∈ walk (pp_parent parent) ({[pp_parent parent]} ∪ visited) (prefix ++ [package_hop parent]) (depth + 1)%N out <->
     x ∈ out \/ explained ({[pp_parent parent]} ∪ visited) (depth + 1) (pp_parent parent) (prefix ++ [package_hop parent]) x) ->
  foldl (walk_parent index max_depth walk visited prefix depth) (advanced, out) l = (advanced', out') ->
  (advanced' = true <-> advanced = true \/ exists parent, parent ∈ l /\ pp_parent parent ∉ visited) /\
  forall x, x ∈ out' <-> x ∈ out \/ exists parent, parent ∈ l /\ through visited depth prefix parent x.
Proof.
  induction l as [|parent l IH]; intros advanced out advanced' out' Hwalk; cbn [foldl].
  { intros [= <- <-]. split; [|intros x]; split; auto; intros [?|(? & ?%elem_of_nil & _)]; done. }
  intros Hfold. destruct (walk_parent _ _ _ _ _ _ (advanced, out) parent) as [advanced1 out1] eqn:Hone.
  apply IH in Hfold as [Hadv Hout]; [|intros; apply Hwalk; [by right|done]].
  setoid_rewrite (exists_cons (fun p => pp_parent p ∉ visited) parent l).
  setoid_rewrite (exists_cons (fun p => through visited depth prefix p _) parent l).
  unfold walk_parent in Hone. case_bool_decide as Hv.
  { assert (Hno : forall y, through visited depth prefix parent y <-> False) by (intros y; split; [intros [? _]|]; done).
    injection Hone as <- <-. split; [rewrite Hadv; tauto|]. intros x. rewrite (Hout x), (Hno x). tauto. }
  assert (Hout1 : advanced1 = true /\ forall x, x ∈ out1 <-> x ∈ out \/ through visited depth prefix parent x).
  { unfold through. destruct (max_depth <=? depth + 1)%N; injection Hone as <- <-; (split; [done|]); intros x.
    - rewrite emit_app, elem_of_app. tauto.
    - rewrite Hwalk by (done || by left). tauto. }
  destruct Hout1 as [-> Hout1]. split; [rewrite Hadv; tauto|]. intros x. rewrite (Hout x), (Hout1 x). tauto.
Qed.

Lemma parent_in_ids current parent : edge_to graph current parent -> pp_parent parent ∈ parent_ids index.
Proof.
  intros He%package_parents_spec. unfold parent_ids. apply elem_of_list_to_set, list_elem_of_fmap. exists parent. split; [done|].
  apply list_elem_of_join. destruct (package_parents index !! current) as [l|] eqn:E; [|by apply elem_of_nil in He].
  exists l. split; [done|]. apply list_elem_of_fmap. exists (current, l). split; [done|]. by apply elem_of_map_to_list.
Qed.

Lemma walk_paths_spec fuel : forall current visited prefix depth out x,
  size (parent_ids index ∖ visited) < fuel ->
  x ∈ walk_paths index max_depth fuel current visited prefix depth out <-> x ∈ out \/ explained visited depth current prefix x.
Proof.
  induction fuel as [|fuel IH]; intros current visited prefix depth out x Hfuel; [lia|]. cbn [walk_paths].
  set (roots := default [] (root_parents index !! current)). set (parents := default [] (package_parents index !! current)).
  destruct (foldl _ _ parents) as [advanced out'] eqn:Hfold.
  apply walk_parents_spec in Hfold as [Hadv Hout].
  2:{ intros parent out1 y Hin Hv. apply IH. apply package_parents_spec, parent_in_ids in Hin.
      assert (Hsub : parent_ids index ∖ visited ∖ {[pp_parent parent]} ⊂ parent_ids index ∖ visited).
      { apply subset_difference_elem_of. apply elem_of_difference. by split. }
      apply subset_size in Hsub. rewrite (union_comm_L _ visited), <-difference_difference_l_L. lia. }
  assert (Hroots : forall y, y ∈ (fun root => {| hops := prefix ++ [root_hop root]; truncated := false |}) <$> roots <->
    exists root, root_to graph current root /\ y = {| hops := prefix ++ [root_hop root]; truncated := false |}).
  { intros y. rewrite list_elem_of_fmap. unfold roots. setoid_rewrite (root_parents_spec graph current). clear. firstorder. }
  assert (Hthrough : forall y, (exists parent, parent ∈ parents /\ through visited depth prefix parent y) <->
    exists parent, edge_to graph current parent /\ through visited depth prefix parent y).
  { intros y. unfold parents. by setoid_rewrite (package_parents_spec graph current). }
  assert (Hnone : advanced = false <-> (forall root, ~ root_to graph current root) /\
    forall parent, edge_to graph current parent -> pp_parent parent ∈ visited).
  { rewrite <-not_true_iff_false, Hadv, negb_true_iff, bool_decide_eq_false, no_roots. fold roots. split.
    - intros Hno. split; [destruct (decide (roots = [])); tauto|]. intros parent He%package_parents_spec.
      destruct (decide (pp_parent parent ∈ visited)); [done|]. exfalso. apply Hno. right. by exists parent.
    - intros [Hr Hp] [?|(parent & Hin%package_parents_spec & Hv)]; [done|]. by apply Hv, Hp. }
  rewrite explained_iff. destruct advanced.
  - rewrite Hout, elem_of_app, Hroots, Hthrough. split; [tauto|]. intros [?|[?|[?|(Hr & Hp & _)]]]; [tauto..|].
    discriminate (proj2 Hnone (conj Hr Hp)).
  - destruct (proj1 Hnone eq_refl) as [Hr Hp]. rewrite elem_of_app, list_elem_of_singleton, Hout, elem_of_app, Hroots, Hthrough. tauto.
Qed.
End explains.

Lemma dedup_adjacent_elem {A} `{EqDecision A} (l : list A) x : x ∈ dedup_adjacent l <-> x ∈ l.
Proof.
  induction l as [|a [|b l] IH]; [done|done|]. cbn [dedup_adjacent] in *. case_decide as Hab.
  - subst. rewrite IH, !elem_of_cons. tauto.
  - rewrite (elem_of_cons (b :: l)), elem_of_cons, IH. tauto.
Qed.

(** Why a package is installed.  The paths that are reported for a package are
    exactly the chains of the graph from it up to a dependency of the project:
    none is missed, none is invented, however packages depend on each other and
    also in cycles, up to the greatest length, where a chain is marked as cut. *)
Theorem why_paths_are_chains graph max_depth target x :
  x ∈ wm_paths (build_match (build_reverse_index graph) max_depth target) <->
  explains graph max_depth {[target]} 0 target (hops x) (truncated x).
Proof.
  unfold build_match, dedupe_paths. cbn [wm_paths]. rewrite dedup_adjacent_elem, merge_sort_Permutation.
  rewrite walk_paths_spec by (apply Nat.lt_succ_r, subseteq_size; set_solver). rewrite elem_of_nil. unfold explained. cbn [app].
  split; [intros [[]|(hs & Hex & ->)]; done|]. intros Hex. right. by exists (hops x).
Qed.

(** ** Patterns *)

(** A text made of the pieces, each after any text. *)
Fixpoint fills (pieces : list string) (v : string) : Prop :=
  match pieces with
  | [] => v = ε
  | w :: pieces => exists g r, v = g +:+ (w +:+ r) /\ fills pieces r
  end.
(** What a pattern means: its stars stand for any texts. *)
Definition denotes (pattern value : string) : Prop :=
  match split_char "*" pattern with
  | [] => False
  | first :: rest => exists r, value = first +:+ r /\ fills rest r
  end.

(** The same, with any text at the end. *)
Fixpoint follows (pieces : list string) (v : string) : Prop :=
  match pieces with
  | [] => True
  | w :: pieces => exists g r, v = g +:+ (w +:+ r) /\ follows pieces r
  end.

Lemma follows_later pieces g v : follows pieces v -> follows pieces (g +:+ v).
Proof.
  destruct pieces as [|w pieces]; [done|]. intros (g' & r & -> & Hr). exists (g +:+ g'), r. by rewrite app_assoc_s.
Qed.
Lemma follows_filter pieces : forall v, follows (filter (fun w => is_empty w = false) pieces) v <-> follows pieces v.
Proof.
  induction pieces as [|w pieces IH]; intros v; [done|]. destruct (is_empty w) eqn:Hw.
  - rewrite filter_cons_False by congruence. rewrite IH. destruct w; [|done]. cbn [follows]. split.
    + intros Hv. by exists ε, v.
    + intros (g & r & -> & Hr). rewrite app_nil_l_s. by apply follows_later.
  - rewrite filter_cons_True by done. cbn [follows]. by setoid_rewrite IH.
Qed.
Lemma fills_snoc pieces l : forall v, fills (pieces ++ [l]) v <-> exists v', v = v' +:+ l /\ follows pieces v'.
Proof.
  induction pieces as [|w pieces IH]; intros v; cbn [app fills follows].
  - split; [intros (g & r & -> & ->); exists g; by rewrite app_nil_s|]. intros (v' & -> & _). exists v', ε. by rewrite app_nil_s.
  - setoid_rewrite IH. split.
    + intros (g & r & -> & v' & -> & Hv). exists (g +:+ (w +:+ v')). split; [by rewrite !app_assoc_s|]. by exists g, v'.
    + intros (v' & -> & g & r & -> & Hr). exists g, (r +:+ l). split; [by rewrite !app_assoc_s|]. by exists r.
Qed.

Lemma ends_with_app l a r : String.length l <= String.length r -> ends_with l (a +:+ r) = true <-> ends_with l r = true.
Proof.
  intros Hlen. rewrite !ends_with_spec. split; intros [q Hq].
  - by apply app_suffix in Hq.
  - exists (a +:+ q). by rewrite Hq, app_assoc_s.
Qed.
Lemma follows_length pieces l : forall v, follows (pieces ++ [l]) v -> String.length l <= String.length v.
Proof.
  induction pieces as [|w pieces IH]; intros v; cbn [app follows]; intros (g & r & -> & Hr); rewrite !length_app_s; [lia|].
  apply IH in Hr. lia.
Qed.
Lemma follows_ends pieces l : forall v,
  (exists v', v = v' +:+ l /\ follows pieces v') <-> follows (pieces ++ [l]) v /\ ends_with l v = true.
Proof.
  induction pieces as [|w pieces IH]; intros v; cbn [app follows].
  - rewrite ends_with_spec. split.
    + intros (v' & -> & _). split; [exists v', ε; by rewrite app_nil_s|by exists v'].
    + intros [_ [q ->]]. by exists q.
  - split.
    + intros (v' & -> & g & r & -> & Hr). destruct (proj1 (IH (r +:+ l))) as [Hf He]; [by exists r|]. split.
      * exists g, (r +:+ l). split; [by rewrite !app_assoc_s|done].
      * apply ends_with_spec. by exists (g +:+ (w +:+ r)).
    + intros [(g & r & -> & Hr) He]. pose proof (follows_length _ _ _ Hr) as Hlen.
      rewrite !ends_with_app in He by (rewrite ?length_app_s; lia). destruct (proj2 (IH r)) as (v' & -> & Hv); [done|].
      exists (g +:+ (w +:+ v')). split; [by rewrite !app_assoc_s|]. by exists g, v'.
Qed.

Lemma sdrop_app_app a p r : sdrop (String.length a + String.length p) (a +:+ (p +:+ r)) = r.
Proof. rewrite app_assoc_s, <-length_app_s. apply sdrop_app. Qed.
Lemma sdrop_sdrop m n s : sdrop m (sdrop n s) = sdrop (n + m) s.
Proof. revert s. induction n as [|n IH]; intros [|c s]; try done; [by destruct m|]. cbn [Nat.add]. by rewrite !sdrop_S. Qed.

Lemma pattern_loop_spec value anchored parts : forall idx cursor, (idx =? 0)%nat && anchored = false ->
  pattern_loop value anchored idx cursor parts = true <-> follows parts (sdrop cursor value).
Proof.
  induction parts as [|part parts IH]; intros idx cursor Hidx; cbn [pattern_loop follows]; [done|]. rewrite Hidx.
  pose proof (find_str_spec part (sdrop cursor value)) as Hfind. destruct (find_str part _) as [i|].
  - destruct Hfind as (a & r & Hs & <- & Hfirst). rewrite IH by done. rewrite <-Nat.add_assoc, <-sdrop_sdrop, Hs, sdrop_app_app. split.
    + intros Hr. by exists a, r.
    + intros (g & r' & Hg & Hr'). rewrite Hs in Hfirst. apply Hfirst in Hg as [d ->]. by apply follows_later.
  - split; [done|]. intros (g & r & Hg & _). by apply Hfind in Hg.
Qed.

(** The first and the last piece, and the ends of the pattern. *)
Lemma pattern_starts first rest : rest <> [] -> contains_char "*" first = false ->
  starts_with "*" (join "*" (first :: rest)) = is_empty first.
Proof.
  intros Hne Hc. rewrite join_cons. destruct rest as [|w rest]; [done|]. destruct first as [|a first]; [done|].
  rewrite app_cons_s. change "*" with (chr "*") at 1. rewrite starts_with_chr_cons. cbn in Hc. by destruct (Ascii.eqb "*" a).
Qed.
Lemma pattern_ends mids l : mids <> [] -> contains_char "*" l = false -> ends_with "*" (join "*" (mids ++ [l])) = is_empty l.
Proof.
  intros Hne Hc. rewrite join_snoc by done. rewrite app_assoc_s. destruct l as [|a l].
  - rewrite app_nil_s. apply ends_with_spec. by eexists.
  - apply not_true_iff_false. rewrite ends_with_app by (cbn; lia). intros [q Hq]%ends_with_spec.
    rewrite Hq, contains_char_app in Hc. by apply orb_false_iff in Hc as [_ ?].
Qed.

Lemma filter_pieces_snoc mids l : is_empty l = false ->
  filter (fun w => is_empty w = false) (mids ++ [l]) = filter (fun w => is_empty w = false) mids ++ [l].
Proof. intros Hl. rewrite filter_app. by rewrite filter_cons_True. Qed.

(** What comes after the first piece. *)
Lemma fills_rest mids l v : fills (mids ++ [l]) v <->
  follows (filter (fun w => is_empty w = false) (mids ++ [l])) v /\ (is_empty l = false -> ends_with l v = true).
Proof.
  rewrite fills_snoc. destruct (is_empty l) eqn:Hl.
  - destruct l; [|done]. rewrite follows_filter. setoid_rewrite app_nil_s. split.
    + intros (v' & -> & Hv). split; [|done]. clear -Hv. revert v' Hv. induction mids as [|w mids IH]; intros v' Hv; cbn [app follows].
      * exists v', ε. by rewrite !app_nil_s.
      * destruct Hv as (g & r & -> & Hr). exists g, r. split; [done|by apply IH].
    + intros [Hv _]. exists v. split; [done|]. revert v Hv. induction mids as [|w mids IH]; intros v; cbn [app follows]; [done|].
      intros (g & r & -> & Hr). exists g, r. split; [done|by apply IH].
  - rewrite follows_filter, follows_ends. tauto.
Qed.

(** Patterns of packages.  A pattern chooses exactly the names in which its stars
    can be replaced by texts: looking for the leftmost occurrence of each piece
    and comparing the ends misses nothing and accepts nothing else, also where
    pieces overlap or repeat. *)
Theorem matches_pattern_denotes value pattern : matches_pattern value pattern = true <-> denotes pattern value.
Proof.
  unfold matches_pattern, denotes. destruct (pattern == "*") eqn:Hstar; bool_prop.
  { subst. cbn. split; [|done]. intros _. exists value. split; [done|]. exists value, ε. by rewrite app_nil_s. }
  pose proof (join_split_char "*" pattern) as Hjoin. change (chr "*") with "*" in Hjoin.
  assert (Hp : forall w, w ∈ split_char "*" pattern -> contains_char "*" w = false) by apply split_char_pieces.
  destruct (split_char "*" pattern) as [|first rest] eqn:Hsplit; [by apply split_by_ne in Hsplit|].
  assert (Hfirst : contains_char "*" first = false) by (apply Hp; by left).
  destruct rest as [|last_rest mids _] using rev_ind.
  { cbn in Hjoin. subst first. rewrite Hfirst. cbn [negb fills]. split.
    - intros ->%String.eqb_eq. exists ε. by rewrite app_nil_s.
    - intros (r & -> & ->). rewrite app_nil_s. apply String.eqb_refl. }
  assert (Hlast : contains_char "*" last_rest = false) by (apply Hp; right; apply elem_of_app; right; by left).
  assert (Hc : contains_char "*" pattern = true).
  { rewrite <-Hjoin, app_comm_cons, join_snoc, !contains_char_app by done. cbn. by rewrite orb_true_r. }
  rewrite Hc. cbn [negb].
  assert (Hstarts : starts_with "*" pattern = is_empty first).
  { rewrite <-Hjoin. apply pattern_starts; [by destruct mids|done]. }
  assert (Hends : ends_with "*" pattern = is_empty last_rest).
  { rewrite <-Hjoin, app_comm_cons. by apply pattern_ends. }
  rewrite Hstarts, Hends. setoid_rewrite fills_rest. rewrite filter_cons.
  set (parts := filter (fun part => is_empty part = false) (mids ++ [last_rest])).
  assert (Hlastp : is_empty last_rest = false -> last parts = Some last_rest).
  { intros Hl. unfold parts. rewrite filter_pieces_snoc by done. apply last_snoc. }
  assert (Hmatch : forall l, match l with
      | [] => true
      | _ => pattern_loop value (negb (is_empty first)) 0 0 l &&
          (if negb (is_empty last_rest) then match last l with Some last => ends_with last value | None => true end else true)
      end = true <-> pattern_loop value (negb (is_empty first)) 0 0 l = true /\
        (is_empty last_rest = false -> match last l with Some last => ends_with last value = true | None => True end)).
  { intros l. destruct l as [|w l]; [by cbn|]. rewrite andb_true_iff.
    destruct (is_empty last_rest), (last (w :: l)); cbn [negb]; intuition done. }
  rewrite Hmatch. clear Hmatch. destruct (is_empty first) eqn:He; cbn [negb].
  - rewrite decide_False, pattern_loop_spec by done. destruct first; [|done]. change (sdrop 0 value) with value. split.
    + intros [Hf Hl]. exists value. split_and!; [done|done|]. intros Hne. specialize (Hl Hne). by rewrite (Hlastp Hne) in Hl.
    + intros (r & -> & Hf & Hl). rewrite app_nil_l_s. split; [done|]. intros Hne. rewrite (Hlastp Hne). by apply Hl.
  - rewrite decide_True by done. cbn [pattern_loop Nat.eqb andb]. change (sdrop 0 value) with value.
    destruct (starts_with first value) eqn:Hsw.
    2:{ split; [by intros [? _]|]. intros (r & -> & _). by rewrite starts_with_app in Hsw. }
    apply starts_with_spec in Hsw as [r ->]. rewrite pattern_loop_spec by done. cbn [Nat.add]. rewrite sdrop_app.
    assert (Hend : is_empty last_rest = false -> follows parts r ->
      last (first :: parts) = Some last_rest /\ (ends_with last_rest (first +:+ r) = true <-> ends_with last_rest r = true)).
    { intros Hne Hf. split.
      - rewrite last_cons, Hlastp by done. done.
      - apply ends_with_app. unfold parts in Hf. rewrite filter_pieces_snoc in Hf by done. by apply follows_length in Hf. }
    split.
    + intros [Hf Hl]. exists r. split_and!; [done|done|]. intros Hne. destruct (Hend Hne Hf) as [Hlast' Hiff].
      specialize (Hl Hne). rewrite Hlast' in Hl. by apply Hiff.
    + intros (r' & Heq & Hf & Hl). assert (r' = r) as ->.
      { apply (f_equal (sdrop (String.length first))) in Heq. by rewrite !sdrop_app in Heq. }
      split; [done|]. intros Hne. destruct (Hend Hne Hf) as [-> Hiff]. by apply Hiff, Hl.
Qed.

(** ** Witness: two packages that depend on each other *)
Module WhyDemo.
Definition a_id : PackageId := {| id_name := "a"; id_version := "1.0.0" |}.
Definition b_id : PackageId := {| id_name := "b"; id_version := "2.0.0" |}.
Definition package (id : PackageId) (dependencies : gmap string PackageId) : ResolvedPackage := {|
  r_id := id; r_tarball := ε; r_integrity := None; r_dependencies := dependencies; r_peer_dependencies := ∅;
  r_bundled_dependencies := None; r_has_bin := false; r_bin := None |}.
Definition graph : ResolutionGraph := {|
  g_root := {["a" := {| rd_requested := "^1.0.0"; rd_resolved := a_id |}]};
  g_packages := {[a_id := package a_id {["b" := b_id]}; b_id := package b_id {["a" := a_id]}]} |}.

Example why_b : wm_paths (build_match (build_reverse_index graph) u64_max b_id) =
  [{| hops := [WhyPackage "a" "1.0.0" "b"; WhyRoot "a" "^1.0.0"]; truncated := false |}].
Proof. vm_refl. Qed.
Example why_a_cut : wm_paths (build_match (build_reverse_index graph) 1 a_id) =
  [{| hops := [WhyPackage "b" "2.0.0" "a"]; truncated := true |}; {| hops := [WhyRoot "a" "^1.0.0"]; truncated := false |}].
Proof. vm_refl. Qed.
Example patterns : matches_pattern "@types/node" "@types/*" = true /\ matches_pattern "aXbXb" "a*Xb" = true /\
  matches_pattern "aba" "*ab*ba" = false /\ matches_pattern "core-js" "*js*core*" = false.
Proof. split_and!; vm_refl. Qed.
End WhyDemo.
