(* ===== verification/Scenario.v ===== *)
(** * How much of an installation has to run ([operations/install/utils/{scenario,types,graph_snapshot}.rs, integrity/, overrides.rs, age_policy.rs])

    What earlier installations left behind decides the scenario: nothing to do,
    linking only, downloading what is missing, or a resolution. *)
From S2P Require Import Prelude.
From S2P Require Import BTree.
From S2P Require Import Text.
From S2P Require Import Errors.
From S2P Require Import Types.
From S2P Require Import Paths.
From S2P Require Import Crates.
From S2P Require Import Lockfile.
From S2P Require Import Store.
From S2P Require Import Patches.
From S2P Require Import Linker.
From S2P Require Import Sharing.
From S2P Require Import Layout.
From S2P Require Import InstallState.
From S2P Require Import Residency.
From S2P Require Import Select.
From S2P Require Import Resolver.
From S2P Require Import Importers.

(** ** [types.rs] *)
Inductive InstallScenario := Hot | WarmLinkOnly | WarmPartialCache | Cold.
Global Instance InstallScenario_eq_dec : EqDecision InstallScenario.
Proof. solve_decision. Defined.

Inductive FrozenLockfileOverride := OverrideFrozen | OverrideNo | OverridePrefer | OverrideFix.

Inductive FrozenLockfileMode := ModeFrozen | ModePrefer | ModeNo | ModeFix.
Global Instance FrozenLockfileMode_eq_dec : EqDecision FrozenLockfileMode.
Proof. solve_decision. Defined.

Definition mode_as_str (self : FrozenLockfileMode) : string :=
  match self with ModeFrozen => "frozen" | ModePrefer => "prefer" | ModeNo => "off" | ModeFix => "fix" end.

(** [ci]: whether the environment has [CI]. *)
Definition from_override (ci : bool) (override_mode : option FrozenLockfileOverride)
    (frozen_lockfile_default : bool) : FrozenLockfileMode :=
  match override_mode with
  | Some OverrideFrozen => ModeFrozen
  | Some OverrideNo => ModeNo
  | Some OverridePrefer => ModePrefer
  | Some OverrideFix => ModeFix
  | None => if frozen_lockfile_default || ci then ModeFrozen else ModePrefer
  end.

Definition from_config_default (ci frozen_lockfile_default : bool) : FrozenLockfileMode :=
  from_override ci None frozen_lockfile_default.

Definition is_strict (self : FrozenLockfileMode) : bool :=
  match self with ModeFrozen => true | _ => false end.
Definition is_restrictive (self : FrozenLockfileMode) : bool :=
  match self with ModeNo => false | ModeFix | ModePrefer | ModeFrozen => true end.

Definition from_flags (frozen_lockfile no_frozen_lockfile prefer_frozen_lockfile fix_lockfile : bool)
  : option FrozenLockfileOverride :=
  if frozen_lockfile then Some OverrideFrozen
  else if no_frozen_lockfile then Some OverrideNo
  else if prefer_frozen_lockfile then Some OverridePrefer
  else if fix_lockfile then Some OverrideFix
  else None.

Record IntegrityState := { lockfile_hash : string; patch_hash : string }.

Record ScenarioResult := {
  scenario : InstallScenario;
  cache_check : option CacheCheckResult;
  sr_graph : option ResolutionGraph;
  integrity_state : option IntegrityState;
  hot_install_state_current : bool;
}.

Definition cold : ScenarioResult := {|
  scenario := Cold; cache_check := None; sr_graph := None; integrity_state := None;
  hot_install_state_current := false |}.

Definition cold_with (graph : ResolutionGraph) : ScenarioResult := {|
  scenario := Cold; cache_check := None; sr_graph := Some graph; integrity_state := None;
  hot_install_state_current := false |}.

(** ** [integrity/] *)
Definition NO_PATCH_HASH : string := "none".

Section integrity.
Context `{DigestCrates} (fs : FileSystem).

(** [format!("{:x}", hasher.finalize())] *)
Definition hex_digest (h : hasher) : string := hex_encode (hasher_finalize h).

Definition hash_root_dependency (h : hasher) (e : string * RootDependency) : hasher :=
  hasher_update (hasher_update (hasher_update (hasher_update h e.1) (rd_requested e.2))
    (id_name (rd_resolved e.2))) (id_version (rd_resolved e.2)).

Definition hash_graph_package (h : hasher) (e : PackageId * ResolvedPackage) : hasher :=
  hasher_update (hasher_update (hasher_update (hasher_update h (id_name e.1)) (id_version e.1))
    (id_name (r_id e.2))) (id_version (r_id e.2)).

Definition compute_lockfile_hash (graph : ResolutionGraph) : string :=
  let h := foldl hash_root_dependency (hasher_new Sha256) (btree_iter (g_root graph)) in
  hex_digest (foldl hash_graph_package h (btree_iter (g_packages graph))).

Definition hash_patch (project : Project) (h : hasher) (e : string * string) : Result hasher :=
  let h := hasher_update (hasher_update h e.1) e.2 in
  let patch_path := path_push (p_root project) e.2 in
  if is_file fs patch_path
  then bytes ← map_err (ReadFile patch_path) (fs_bytes fs patch_path); Ok (hasher_update h bytes)
  else Ok (hasher_update h "__missing__").

Definition compute_project_patch_hash (project : Project) : Result string :=
  let patched_dependencies := get_patched_dependencies project in
  if decide (patched_dependencies = ∅) then Ok NO_PATCH_HASH else
  h ← try_fold (hash_patch project) (hasher_new Sha256) (btree_iter patched_dependencies);
  Ok (hex_digest h).

Definition root_le (left right : Project) : Prop := ord_le (path_key (p_root left)) (path_key (p_root right)).
Global Instance root_le_dec : RelDecision root_le.
Proof. intros l r. apply (ord_le_dec (path_key (p_root l)) (path_key (p_root r))). Defined.

Definition hash_project_patches (acc : hasher * bool) (project : Project) : Result (hasher * bool) :=
  let '(h, has_any_patches) := acc in
  patch_hash ← compute_project_patch_hash project;
  Ok (hasher_update (hasher_update h (p_root project)) patch_hash,
      has_any_patches || negb (patch_hash == NO_PATCH_HASH)).

Definition compute_workspace_patch_hash (workspace : Workspace) : Result string :=
  try_fold hash_project_patches (hasher_new Sha256, false) (merge_sort root_le (w_projects workspace))
    ≫= fun acc : hasher * bool => Ok (if acc.2 then hex_digest acc.1 else NO_PATCH_HASH).

Definition build_project_integrity_state (project : Project) (graph : ResolutionGraph) : Result IntegrityState :=
  patch_hash ← compute_project_patch_hash project;
  Ok {| lockfile_hash := compute_lockfile_hash graph; patch_hash := patch_hash |}.

Definition build_workspace_integrity_state (workspace : Workspace) (graph : ResolutionGraph)
  : Result IntegrityState :=
  patch_hash ← compute_workspace_patch_hash workspace;
  Ok {| lockfile_hash := compute_lockfile_hash graph; patch_hash := patch_hash |}.
End integrity.

Definition newline : string := chr "010".
Definition integrity_content (state : IntegrityState) : string :=
  "lockfile: " +:+ lockfile_hash state +:+ newline +:+ "patches: " +:+ patch_hash state +:+ newline.
Definition legacy_integrity_content (state : IntegrityState) : string :=
  "lockfile: " +:+ lockfile_hash state +:+ newline.

Definition check_integrity_path (fs : FileSystem) (node_modules : string) (state : IntegrityState) : bool :=
  match read_to_string fs (path_push node_modules ".snpm-integrity") with
  | Ok content =>
      (content == integrity_content state)
      || ((patch_hash state == NO_PATCH_HASH) && (content == legacy_integrity_content state))
  | Err _ => false
  end.

Definition check_integrity_file (fs : FileSystem) (project : Project) (state : IntegrityState) : bool :=
  check_integrity_path fs (path_push (p_root project) "node_modules") state.

(** What is written, and where; nothing without the directory. *)
Definition write_integrity_path (fs : FileSystem) (node_modules : string) (state : IntegrityState)
  : option (string * string) :=
  if negb (is_dir fs node_modules) then None
  else Some (path_push node_modules ".snpm-integrity", integrity_content state).

Definition write_integrity_file (fs : FileSystem) (project : Project) (state : IntegrityState)
  : option (string * string) :=
  write_integrity_path fs (path_push (p_root project) "node_modules") state.

(** ** [graph_snapshot.rs]: the state file, or the legacy snapshot *)
Definition GRAPH_SNAPSHOT_FILE : string := ".snpm-graph-snapshot.bin".
Definition GRAPH_SNAPSHOT_VERSION : N := 1.

Record GraphSnapshot := {
  lg_version : N;
  lg_source : SnapshotSource;
  lg_root_specs_hash : string;
  lg_graph : ResolutionGraph;
}.

Record LoadedGraphSnapshot := { lo_graph : ResolutionGraph; lo_root_specs_hash : string }.

Section scenario.
Context `{SemverCrate} `{DigestCrates} `{LockCrates} `{LayoutJson} `{MetadataJson}
  `{Bincode DiskInstallStateFile} `{Bincode GraphSnapshot} `{Bincode StoreResidencyIndex} `{ForeignFormats}
  (canonicalize : string -> result string string) (fs : FileSystem).

Definition load_graph_snapshot (root source_path : string) : option LoadedGraphSnapshot :=
  match load_graph_snapshot_from_install_state fs root source_path with
  | Some (graph, hash) => Some {| lo_graph := graph; lo_root_specs_hash := hash |}
  | None =>
      bytes ← result_ok (fs_bytes fs (path_push root GRAPH_SNAPSHOT_FILE));
      snapshot ← result_ok (unbincode bytes);
      if negb (lg_version snapshot =? GRAPH_SNAPSHOT_VERSION)%N then None else
      current_source ← result_ok (source_capture fs source_path);
      if negb (source_eq (lg_source snapshot) current_source) then None
      else Some {| lo_graph := lg_graph snapshot; lo_root_specs_hash := lg_root_specs_hash snapshot |}
  end.

Definition matches_root_specs (self : LoadedGraphSnapshot) (required_root optional_root : gmap string string) : bool :=
  lo_root_specs_hash self == root_specs_hash required_root optional_root.

Definition lockfile_source_path (lockfile_path : string) (compatible_lockfile : option CompatibleLockfile)
  : option string :=
  if is_file fs lockfile_path then Some lockfile_path else cl_path <$> compatible_lockfile.

Definition read_existing_lockfile (lockfile_path : string) (compatible_lockfile : option CompatibleLockfile)
    (config : SnpmConfig) : Result Lockfile :=
  if is_file fs lockfile_path then read_with (fs_bytes fs) lockfile_path else
  source ← ok_or (LockfileError lockfile_path "no lockfile was found") compatible_lockfile;
  read_compatible_lockfile canonicalize fs source config.

(** ** [scenario.rs] *)
Definition detect_from_graph (config : SnpmConfig) (project : Project) (workspace : option Workspace)
    (graph : ResolutionGraph) (force : bool) (cached_layout_valid : option bool) : ScenarioResult :=
  match build_project_integrity_state fs project graph with
  | Err _ => cold
  | Ok integrity_state =>
      let layout_valid := match cached_layout_valid with
                          | Some valid => valid
                          | None => check_project_layout_state fs config project workspace graph true
                          end in
      if negb force && check_integrity_file fs project integrity_state && layout_valid then
        {| scenario := Hot; cache_check := None; sr_graph := Some graph;
           integrity_state := Some integrity_state;
           hot_install_state_current := bool_decide (is_Some cached_layout_valid) |}
      else
        let cache_check := check_store_cache fs config graph in
        let missing_count := length (missing cache_check) in
        if (0 <? missing_count)%nat && existsb (fun package => is_empty (r_tarball package)) (missing cache_check)
        then cold
        else
          {| scenario := if (missing_count =? 0)%nat then WarmLinkOnly else WarmPartialCache;
             cache_check := Some cache_check; sr_graph := Some graph;
             integrity_state := Some integrity_state; hot_install_state_current := false |}
  end.

Definition detect_install_scenario (project : Project) (workspace : option Workspace) (lockfile_path : string)
    (required_root optional_root : gmap string string) (config : SnpmConfig)
    (frozen_lockfile : FrozenLockfileMode) (force : bool) (compatible_lockfile : option CompatibleLockfile)
  : ScenarioResult :=
  if decide (frozen_lockfile = ModeNo) then cold
  else if negb (is_file fs lockfile_path) && match compatible_lockfile with None => true | Some _ => false end then cold
  else
    let source_path := lockfile_source_path lockfile_path compatible_lockfile in
    match source_path ← source_path;
          load_project_install_state fs config project workspace source_path required_root optional_root true with
    | Some state =>
        if negb (ci_root_specs_matches state) then cold_with (ci_graph state)
        else detect_from_graph config project workspace (ci_graph state) force (Some (ci_layout_valid state))
    | None =>
        match source_path ← source_path; load_graph_snapshot (p_root project) source_path with
        | Some snapshot =>
            if negb (matches_root_specs snapshot required_root optional_root) then cold_with (lo_graph snapshot)
            else detect_from_graph config project workspace (lo_graph snapshot) force None
        | None =>
            match read_existing_lockfile lockfile_path compatible_lockfile config with
            | Err _ => cold
            | Ok existing =>
                let graph := Lockfile.Graph.to_graph existing in
                if negb (root_specs_match existing required_root optional_root) then cold_with graph
                else detect_from_graph config project workspace graph force None
            end
        end
    end.
End scenario.

(** ** What the scenario means *)
Section scenario_correct.
Context `{SemverCrate} `{DigestCrates} `{LockCrates} `{LayoutJson} `{MetadataJson}
  `{Bincode DiskInstallStateFile} `{Bincode GraphSnapshot} `{Bincode StoreResidencyIndex} `{ForeignFormats}
  (canonicalize : string -> result string string) (fs : FileSystem).

(** The graph is what the manifest asks for: by the hash next to the snapshot
    taken from the lockfile, or by the entries of the lockfile itself. *)
Definition graph_answers (root : string) (config : SnpmConfig) (lockfile_path : string)
    (compatible : option CompatibleLockfile) (required_root optional_root : gmap string string)
    (graph : ResolutionGraph) : Prop :=
  (exists source_path hash, lockfile_source_path fs lockfile_path compatible = Some source_path /\
     load_graph_snapshot fs root source_path = Some {| lo_graph := graph; lo_root_specs_hash := hash |} /\
     hash = root_specs_hash required_root optional_root) \/
  exists existing, read_existing_lockfile canonicalize fs lockfile_path compatible config = Ok existing /\
    graph = Lockfile.Graph.to_graph existing /\ root_specs_match existing required_root optional_root = true.

(** The layout is the expected one, by the saved state or by the checks. *)
Definition layout_ok (project : Project) (config : SnpmConfig) (workspace : option Workspace)
    (lockfile_path : string) (compatible : option CompatibleLockfile) (required_root optional_root : gmap string string)
    (graph : ResolutionGraph) : Prop :=
  (exists source_path state, lockfile_source_path fs lockfile_path compatible = Some source_path /\
     load_project_install_state fs config project workspace source_path required_root optional_root true = Some state /\
     ci_graph state = graph /\ ci_layout_valid state = true) \/
  check_project_layout_state fs config project workspace graph true = true.

(** The outcomes of [detect_from_graph]. *)
Lemma detect_from_graph_spec config project workspace graph force cached :
  let result := detect_from_graph fs config project workspace graph force cached in
  match scenario result with
  | Hot => force = false /\ sr_graph result = Some graph /\ cache_check result = None /\
      (exists state, build_project_integrity_state fs project graph = Ok state /\
         integrity_state result = Some state /\ check_integrity_file fs project state = true) /\
      match cached with
      | Some valid => valid = true
      | None => check_project_layout_state fs config project workspace graph true = true
      end
  | WarmLinkOnly => sr_graph result = Some graph /\ cache_check result = Some (check_store_cache fs config graph) /\
      missing (check_store_cache fs config graph) = []
  | WarmPartialCache => sr_graph result = Some graph /\ cache_check result = Some (check_store_cache fs config graph) /\
      missing (check_store_cache fs config graph) <> [] /\
      forall package, package ∈ missing (check_store_cache fs config graph) -> is_empty (r_tarball package) = false
  | Cold => result = cold
  end.
Proof.
  unfold detect_from_graph. destruct (build_project_integrity_state fs project graph) as [state|]; [|done].
  destruct (negb force && _ && _) eqn:Hhot; cbn zeta.
  - apply andb_true_iff in Hhot as [[Hf Hi]%andb_true_iff Hl]. cbn. split_and!; [by destruct force|done|done| |].
    + by exists state.
    + by destruct cached.
  - destruct ((0 <? _)%nat && _) eqn:Hcold; [done|].
    destruct (missing (check_store_cache fs config graph)) as [|p l] eqn:Hm; cbn; [done|].
    split_and!; [done..|]. cbn [length Nat.ltb Nat.leb andb] in Hcold.
    intros package Hp. rewrite existsb_false in Hcold. by apply Hcold.
Qed.

(** The outcome for one graph, which answers what is asked for and whose layout
    was found valid if the saved state says so. *)
Lemma detect_from_graph_safe project workspace lockfile_path required_root optional_root config force compatible
    graph cached :
  graph_answers (p_root project) config lockfile_path compatible required_root optional_root graph ->
  (cached = Some true -> layout_ok project config workspace lockfile_path compatible required_root optional_root graph) ->
  let result := detect_from_graph fs config project workspace graph force cached in
  scenario result <> Cold ->
  exists graph, sr_graph result = Some graph /\
    graph_answers (p_root project) config lockfile_path compatible required_root optional_root graph /\
    match scenario result with
    | Hot => force = false /\ layout_ok project config workspace lockfile_path compatible required_root optional_root graph /\
        exists state, build_project_integrity_state fs project graph = Ok state /\
          check_integrity_file fs project state = true
    | WarmLinkOnly => missing (check_store_cache fs config graph) = []
    | _ => missing (check_store_cache fs config graph) <> []
    end.
Proof.
  intros Hans Hcached result Hncold.
  pose proof (detect_from_graph_spec config project workspace graph force cached) as Hspec.
  cbn zeta in Hspec. fold result in Hspec. exists graph.
  destruct (scenario result); [| | |done].
  - destruct Hspec as (? & ? & _ & (state & ? & _ & ?) & Hl). split_and!; [done..| |by exists state].
    destruct cached as [[]|]; [by apply Hcached|done|by right].
  - by destruct Hspec as (? & _ & ?).
  - by destruct Hspec as (? & _ & ? & _).
Qed.

(** C2: Skipping is safe.  An installation is skipped only if it is not forced
    and the lockfile is used, for a graph that answers what the manifest asks for,
    when the file in [node_modules] names that very graph and patches and the
    layout is as expected; linking alone is chosen only if every package of such a
    graph is in the store. *)
Theorem detect_scenario_safe project workspace lockfile_path required_root optional_root config mode force compatible :
  let result := detect_install_scenario canonicalize fs project workspace lockfile_path
                  required_root optional_root config mode force compatible in
  scenario result <> Cold ->
  mode <> ModeNo /\
  exists graph, sr_graph result = Some graph /\
    graph_answers (p_root project) config lockfile_path compatible required_root optional_root graph /\
    match scenario result with
    | Hot => force = false /\ layout_ok project config workspace lockfile_path compatible required_root optional_root graph /\
        exists state, build_project_integrity_state fs project graph = Ok state /\
          check_integrity_file fs project state = true
    | WarmLinkOnly => missing (check_store_cache fs config graph) = []
    | _ => missing (check_store_cache fs config graph) <> []
    end.
Proof.
  intros result. subst result. unfold detect_install_scenario. case_decide as Hmode; [done|].
  destruct (negb _ && _); [done|].
  intros Hncold. split; [done|]. revert Hncold.
  destruct (lockfile_source_path fs lockfile_path compatible) as [source_path|] eqn:Hsource; cbn [mbind option_bind].
  - destruct (load_project_install_state _ _ _ _ _ _ _ _) as [state|] eqn:Hload.
    + destruct (ci_root_specs_matches state) eqn:Hm; [|done]. cbn [negb]. apply detect_from_graph_safe.
      * left. unfold load_project_install_state in Hload.
        apply bind_Some in Hload as (file & Hfile & [= <-]). cbn in Hm |- *.
        exists source_path, (gs_root_specs_hash (is_graph_snapshot file)).
        split_and!; [done| |by apply String.eqb_eq].
        unfold load_graph_snapshot, load_graph_snapshot_from_install_state. by rewrite Hfile.
      * intros [= Hv]. left. by exists source_path, state.
    + destruct (load_graph_snapshot fs (p_root project) source_path) as [[graph hash]|] eqn:Hsnap.
      * unfold matches_root_specs. cbn [lo_root_specs_hash lo_graph].
        destruct (hash == _) eqn:Hh; [|done]. cbn [negb]. apply detect_from_graph_safe; [|done].
        left. exists source_path, hash. split_and!; [done|done|by apply String.eqb_eq].
      * destruct (read_existing_lockfile _ _ _ _ _) as [existing|] eqn:Hread; [|done].
        destruct (root_specs_match _ _ _) eqn:Hmatch; [|done]. cbn [negb]. apply detect_from_graph_safe; [|done].
        right. by exists existing.
  - destruct (read_existing_lockfile _ _ _ _ _) as [existing|] eqn:Hread; [|done].
    destruct (root_specs_match _ _ _) eqn:Hmatch; [|done]. cbn [negb]. apply detect_from_graph_safe; [|done].
    right. by exists existing.
Qed.

(** C16: An installation that was completed is not repeated.  With the lockfile as
    it was, the state file and the integrity file as they were written, and a
    layout that still passes its checks, the next installation for the same
    dependencies is found to have nothing to do, for the same graph. *)
Theorem completed_install_is_hot `{BincodeLaws DiskInstallStateFile} (fs0 : FileSystem) config project workspace
    lockfile_path required_root optional_root graph path data mode compatible state :
  write_project_install_state fs0 config project workspace lockfile_path required_root optional_root graph true
    = Ok (path, data) ->
  fs_bytes fs path = Ok data -> is_file fs lockfile_path = true ->
  source_capture fs lockfile_path = source_capture fs0 lockfile_path ->
  build_project_layout_hash fs config project workspace graph true =
    build_project_layout_hash fs0 config project workspace graph true ->
  (forall checks, capture_project_checks fs0 config project workspace graph true = Ok checks ->
     forallb (check_layout fs) checks = true) ->
  build_project_integrity_state fs project graph = Ok state ->
  (forall file content, write_integrity_file fs0 project state = Some (file, content) ->
     read_to_string fs file = Ok content) ->
  is_dir fs0 (path_push (p_root project) "node_modules") = true ->
  mode <> ModeNo ->
  detect_install_scenario canonicalize fs project workspace lockfile_path required_root optional_root
    config mode false compatible =
  {| scenario := Hot; cache_check := None; sr_graph := Some graph; integrity_state := Some state;
     hot_install_state_current := true |}.
Proof.
  intros Hw Hd Hfile Hsrc Hhash Hchecks Hstate Hint Hdir Hmode.
  unfold detect_install_scenario. rewrite decide_False by done. unfold lockfile_source_path. rewrite Hfile.
  cbn [negb andb mbind option_bind].
  destruct (written_state_loads fs0 fs config project workspace lockfile_path required_root optional_root graph true
    path data config required_root optional_root true Hw Hd Hsrc) as (layout_hash & checks & Hh & Hc & Hload).
  rewrite Hload. cbn [ci_root_specs_matches ci_graph ci_layout_valid]. rewrite Hhash, Hh, !String.eqb_refl.
  rewrite (Hchecks checks Hc). cbn [negb andb].
  unfold detect_from_graph. rewrite Hstate.
  unfold write_integrity_file, write_integrity_path in Hint. rewrite Hdir in Hint.
  unfold check_integrity_file, check_integrity_path. rewrite (Hint _ _ eq_refl), String.eqb_refl. done.
Qed.
End scenario_correct.

(** ** [age_policy.rs] *)
Section age.
Context `{TimeCrate} `{Registry}.

Definition should_check_registry_age (package : ResolvedPackage) : bool :=
  starts_with "http://" (r_tarball package) || starts_with "https://" (r_tarball package).

Definition age_check_protocol (package : ResolvedPackage) : RegistryProtocol :=
  if contains "npm.jsr.io/" (r_tarball package) then jsr else npm.

(** [package_versions.entry((protocol.name, name)).or_default().insert(version)] *)
Definition add_checked (acc : gmap (string * string) (gset string)) (package : ResolvedPackage)
  : gmap (string * string) (gset string) :=
  let key := (protocol_name (age_check_protocol package), id_name (r_id package)) in
  <[key := {[id_version (r_id package)]} ∪ default ∅ (acc !! key)]> acc.

Definition package_versions (graph : ResolutionGraph) : gmap (string * string) (gset string) :=
  foldl add_checked ∅
    (filter (fun package => should_check_registry_age package = true) (btree_values (g_packages graph))).

Definition check_version_age (name : string) (registry_package : RegistryPackage) (min_days : Z)
    (now : OffsetDateTime) (version : string) : Result unit :=
  match version_age_days registry_package version now with
  | None => Ok tt
  | Some age_days =>
      if decide (min_days <= age_days)%Z then Ok tt
      else Err (ResolutionFailed name version
        ("locked version " +:+ version +:+ " is only " +:+ show_Z age_days
         +:+ " days old, less than the configured minimum of " +:+ show_Z min_days +:+ " days"))
  end.

Definition validate_package_versions_min_age (protocol : RegistryProtocol) (name : string)
    (versions : gset string) (min_days : Z) (now : OffsetDateTime) : Result unit :=
  registry_package ← fetch_registry_package name protocol;
  try_each (check_version_age name registry_package min_days now) (bset_iter versions).

(** The requests run concurrently and the first failure to arrive is returned:
    [completion] is the order in which they finish, and [now] the clock when the
    answer for a package is looked at. *)
Definition validate_graph_min_package_age (config : SnpmConfig) (graph : ResolutionGraph) (force : bool)
    (now : string * string -> OffsetDateTime)
    (completion : list ((string * string) * gset string) -> list ((string * string) * gset string))
  : Result unit :=
  match c_min_package_age_days config with
  | None => Ok tt
  | Some min_days =>
      if force then Ok tt
      else try_each (fun e =>
             validate_package_versions_min_age (custom e.1.1) e.1.2 e.2 min_days (now e.1))
           (completion (btree_iter (package_versions graph)))
  end.

Lemma add_checked_elem l acc key version :
  (exists versions, foldl add_checked acc l !! key = Some versions /\ version ∈ versions) <->
  (exists versions, acc !! key = Some versions /\ version ∈ versions) \/
  exists package, package ∈ l /\ key = (protocol_name (age_check_protocol package), id_name (r_id package)) /\
    version = id_version (r_id package).
Proof.
  revert acc. induction l as [|package l IH]; intros acc; cbn [foldl].
  { split; [by left|]. by intros [?|(? & []%not_elem_of_nil & _)]. }
  rewrite IH. unfold add_checked at 1. set (k := (_, id_name (r_id package))).
  assert (Hstep : (exists versions, <[k := {[id_version (r_id package)]} ∪ default ∅ (acc !! k)]> acc !! key = Some versions /\
      version ∈ versions) <->
    (exists versions, acc !! key = Some versions /\ version ∈ versions) \/ key = k /\ version = id_version (r_id package)).
  { destruct (decide (k = key)) as [<-|Hne].
    - rewrite lookup_insert_eq. split.
      + intros (? & [= <-] & [->%elem_of_singleton|Hv]%elem_of_union); [by right|left].
        destruct (acc !! k) as [vs|]; [by exists vs|by apply not_elem_of_empty in Hv].
      + intros [(vs & -> & Hv)|[_ ->]]; eexists; (split; [done|]); cbn; set_solver.
    - rewrite lookup_insert_ne by done. naive_solver. }
  rewrite Hstep. split.
  - intros [[?|[-> ->]]|(p & ? & ?)]; [by left| |].
    + right. exists package. split; [by left|done].
    + right. exists p. split; [by right|done].
  - intros [?|(p & [->|Hp]%elem_of_cons & -> & ->)]; [by left; left|by left; right|].
    right. by exists p.
Qed.

Lemma package_versions_ne graph key versions : package_versions graph !! key = Some versions -> versions <> ∅.
Proof.
  unfold package_versions. revert key versions.
  apply (foldl_inv add_checked (fun m => forall key versions, m !! key = Some versions -> versions <> ∅)).
  - intros m package _ Hm key versions. unfold add_checked. rewrite lookup_insert_Some.
    intros [[_ <-]|[_ Hl]]; [set_solver|by eapply Hm].
  - intros key versions. by rewrite lookup_empty.
Qed.

(** The age policy, for every order in which the registry answers: with a
    minimum and without [force] a graph is accepted exactly when the registry
    answers for every package that was downloaded and no version whose time of
    publication is known is younger than the minimum. *)
Theorem age_policy_ok_iff config graph now completion min_days :
  (forall l, completion l ≡ₚ l) -> c_min_package_age_days config = Some min_days ->
  validate_graph_min_package_age config graph false now completion = Ok tt <->
  forall id package, g_packages graph !! id = Some package -> should_check_registry_age package = true ->
    exists registry_package,
      fetch_registry_package (id_name (r_id package)) (age_check_protocol package) = Ok registry_package /\
      forall age_days, version_age_days registry_package (id_version (r_id package))
        (now (protocol_name (age_check_protocol package), id_name (r_id package))) = Some age_days ->
      (min_days <= age_days)%Z.
Proof.
  intros Hperm Hmin. unfold validate_graph_min_package_age. rewrite Hmin, try_each_ok, Hperm, Forall_forall.
  assert (Hmem : forall key version,
    (exists versions, package_versions graph !! key = Some versions /\ version ∈ versions) <->
    exists id package, g_packages graph !! id = Some package /\ should_check_registry_age package = true /\
      key = (protocol_name (age_check_protocol package), id_name (r_id package)) /\ version = id_version (r_id package)).
  { intros key version. unfold package_versions. rewrite add_checked_elem. setoid_rewrite lookup_empty.
    setoid_rewrite list_elem_of_filter. setoid_rewrite elem_of_btree_values. naive_solver. }
  assert (Hcheck : forall name rp now version, check_version_age name rp min_days now version = Ok tt <->
    forall age_days, version_age_days rp version now = Some age_days -> (min_days <= age_days)%Z).
  { intros name rp t version. unfold check_version_age. destruct (version_age_days rp version t) as [age|]; [|by split].
    case_decide as Hage; [split; [by intros _ ? [= <-]|done]|]. split; [done|]. intros Hall. by specialize (Hall age eq_refl). }
  assert (Hproto : forall package, custom (protocol_name (age_check_protocol package)) = age_check_protocol package)
    by (intros; unfold age_check_protocol; by case_match).
  split.
  - intros Hall id package Hp Hs. destruct (proj2 (Hmem (protocol_name (age_check_protocol package), id_name (r_id package))
      (id_version (r_id package)))) as (versions & Hv & Hin); [by eauto 6|].
    specialize (Hall (_, versions) (proj2 (elem_of_btree_iter _ _ _) Hv)). cbn in Hall.
    unfold validate_package_versions_min_age in Hall. rewrite Hproto in Hall.
    apply result_bind_Ok in Hall as (rp & Hrp & Heach). exists rp. split; [done|].
    apply try_each_ok in Heach. rewrite Forall_forall in Heach. by eapply Hcheck, Heach, elem_of_bset_iter.
  - intros Hall [key versions] Hin%elem_of_btree_iter. cbn.
    assert (Hsome : forall version, version ∈ versions -> exists id package, g_packages graph !! id = Some package /\
      should_check_registry_age package = true /\
      key = (protocol_name (age_check_protocol package), id_name (r_id package)) /\ version = id_version (r_id package)).
    { intros version Hv. apply Hmem. by exists versions. }
    destruct (set_choose_L versions) as [v0 Hv0]; [by eapply package_versions_ne|].
    destruct (Hsome v0 Hv0) as (id0 & p0 & Hp0 & Hs0 & Hkey & _).
    destruct (Hall _ _ Hp0 Hs0) as (rp & Hrp & _). unfold validate_package_versions_min_age.
    rewrite Hkey. cbn [fst snd]. rewrite Hproto, Hrp. cbn [mbind result_bind].
    apply try_each_ok, Forall_forall. intros version Hv%elem_of_bset_iter. apply Hcheck.
    destruct (Hsome version Hv) as (id & p & Hp & Hs & Hkey' & ->).
    destruct (Hall _ _ Hp Hs) as (rp' & Hrp' & Hages). rewrite Hkey in Hkey'. injection Hkey' as Hproto' Hname.
    assert (Heqp : age_check_protocol p0 = age_check_protocol p) by (by rewrite <-Hproto, Hproto', Hproto).
    rewrite Heqp, Hname, Hrp' in Hrp. injection Hrp as ->. by rewrite Hproto', Hname.
Qed.
End age.

(** ** Witnesses: a project with one dependency, installed *)
Module ScenarioDemo.
Import LinkerDemo.
#[local] Existing Instance SharingDemo.checksum.
#[local] Existing Instance LockfileDemo.one_lockfile.

Definition demo : Project := project ["react"] [] [].
Definition demo_graph : ResolutionGraph := {|
  g_root := root [("react", id "react" "18.2.0")];
  g_packages := list_to_map [pkg "react" "18.2.0" {["loose" := id "loose" "1.4.0"]} ∅; pkg "loose" "1.4.0" ∅ ∅] |}.

Definition integrity : IntegrityState :=
  {| lockfile_hash := compute_lockfile_hash demo_graph; patch_hash := NO_PATCH_HASH |}.

Definition stat (type : FileType) : Stat := {| st_type := type; st_len := 10; st_modified := Ok 5000000007%Z |}.
Definition plain_file (p : string) : bool :=
  ends_with ".json" p || ends_with ".yaml" p || ends_with ".snpm_complete" p || ends_with ".snpm-integrity" p.
Definition linked (p : string) : bool := ends_with "/react" p || ends_with "/loose" p.

Definition fs : FileSystem := {|
  fs_lstat p := Ok (stat (if linked p then TSymlink else if plain_file p then TFile else TDir));
  fs_stat p := Ok (stat (if plain_file p then TFile else TDir));
  fs_bytes p := if p == "/p/.snpm-install-state" then Ok "state"
                else if p == "/p/node_modules/.snpm-integrity" then Ok (integrity_content integrity)
                else Err "no such file";
  fs_read_link p := if linked p then Ok "/data/virtual-store/entry" else Err "not a link";
  fs_entries p := if p == "/p/node_modules" then Ok [Ok ("react", Ok TSymlink); Ok ("loose", Ok TSymlink)]
                  else Ok [] |}.

Definition required : gmap string string := {["react" := "^18.0.0"]}.

Definition get {A} (default : A) (r : Result A) : A := match r with Ok a => a | Err _ => default end.
Definition demo_state : DiskInstallStateFile := from_memory {|
  is_version := INSTALL_STATE_VERSION;
  is_graph_snapshot := {|
    gs_source := get {| ss_path := ε; ss_length := 0; ss_modified_seconds := 0; ss_modified_nanoseconds := 0 |}
                   (source_capture fs "/p/snpm-lock.yaml");
    gs_root_specs_hash := root_specs_hash required ∅;
    gs_graph := demo_graph |};
  is_layout := {|
    ls_layout_hash := get ε (build_project_layout_hash fs config_for_tests demo None demo_graph true);
    ls_checks := stored_check <$> get [] (capture_project_checks fs config_for_tests demo None demo_graph true) |} |}.

#[local] Instance one_state : Bincode DiskInstallStateFile := {|
  bincode s := if decide (s = demo_state) then Ok "state" else Err "unsupported";
  unbincode b := if b == "state" then Ok demo_state else Err "unsupported" |}.
#[local] Instance one_state_laws : BincodeLaws DiskInstallStateFile.
Proof.
  split. intros a data. unfold bincode, unbincode, one_state. case_decide as Ha; [|done]. intros [= <-]. by rewrite Ha.
Qed.

Example layout_checks :
  capture_project_checks fs config_for_tests demo None demo_graph true =
  Ok [Mtime "/p/node_modules" 5 7; Mtime "/p/node_modules/.bin" 5 7;
      SymlinkTarget "/p/node_modules/react" "/data/virtual-store/entry";
      SymlinkTarget "/p/node_modules/loose" "/data/virtual-store/entry";
      Mtime "/p/.snpm" 5 7;
      SymlinkTarget "/p/.snpm/loose@1.4.0/node_modules/loose" "/data/virtual-store/entry";
      SymlinkTarget "/p/.snpm/react@18.2.0/node_modules/react" "/data/virtual-store/entry";
      Mtime "/p/.snpm/react@18.2.0/node_modules" 5 7; Mtime "/p/.snpm/react@18.2.0/node_modules/.bin" 5 7].
Proof. vm_refl. Qed.

Lemma written :
  write_project_install_state fs config_for_tests demo None "/p/snpm-lock.yaml" required ∅ demo_graph true
  = Ok ("/p/.snpm-install-state", "state").
Proof. vm_refl. Qed.

Lemma captured_layout_is_valid_witness :
  forallb (check_layout fs) (get [] (capture_project_checks fs config_for_tests demo None demo_graph true)) =
  forallb (check_ready fs) (get [] (capture_project_checks fs config_for_tests demo None demo_graph true)).
Proof. apply (captured_layout_is_valid fs config_for_tests demo None demo_graph true). vm_refl. Defined.

Definition later : gmap string string := {["react" := "^17.0.0"]}.

Lemma project_install_state_roundtrip_witness :
  exists layout_hash checks,
    build_project_layout_hash fs config_for_tests demo None demo_graph true = Ok layout_hash /\
    capture_project_checks fs config_for_tests demo None demo_graph true = Ok checks /\
    load_project_install_state fs config_for_tests demo None "/p/snpm-lock.yaml" later ∅ true =
    let matches := root_specs_hash required ∅ == root_specs_hash later ∅ in
    Some {| ci_graph := demo_graph; ci_root_specs_matches := matches;
            ci_layout_valid :=
              matches
              && match build_project_layout_hash fs config_for_tests demo None demo_graph true with
                 | Ok hash => hash == layout_hash
                 | Err _ => false
                 end
              && forallb (check_layout fs) checks |}.
Proof.
  apply (project_install_state_roundtrip fs fs config_for_tests demo None "/p/snpm-lock.yaml" required ∅
           demo_graph true "/p/.snpm-install-state" "state" config_for_tests later ∅ true written);
    [vm_refl|reflexivity].
Defined.

Definition current : CachedInstallState :=
  {| ci_graph := demo_graph; ci_root_specs_matches := true; ci_layout_valid := true |}.

Lemma fast_state_agrees_witness :
  load_project_install_state_fast fs config_for_tests demo None "/p/snpm-lock.yaml" required ∅ true = Some current.
Proof.
  apply (fast_state_agrees fs fs config_for_tests demo None "/p/snpm-lock.yaml" required ∅ demo_graph true
           "/p/.snpm-install-state" "state" current written); vm_refl.
Defined.

#[local] Instance no_layout_json : LayoutJson := {| layout_state_from_slice _ := None |}.
#[local] Instance no_metadata : MetadataJson := {|
  metadata_from_str _ := None; metadata_to_vec _ := Err "unsupported"; facts_from_str _ := None |}.
#[local] Instance no_snapshot : Bincode GraphSnapshot := {| bincode _ := Err "unsupported"; unbincode _ := Err "unsupported" |}.
#[local] Instance no_index : Bincode StoreResidencyIndex := {| bincode _ := Err "unsupported"; unbincode _ := Err "unsupported" |}.

#[local] Instance no_formats : ForeignFormats := ImportersDemo.with_manifests ImportersDemo.only_manifests.

Lemma completed_install_is_hot_witness :
  detect_install_scenario Ok fs demo None "/p/snpm-lock.yaml" required ∅ config_for_tests ModePrefer false None =
  {| scenario := Hot; cache_check := None; sr_graph := Some demo_graph; integrity_state := Some integrity;
     hot_install_state_current := true |}.
Proof.
  apply (completed_install_is_hot Ok fs fs config_for_tests demo None "/p/snpm-lock.yaml" required ∅ demo_graph
           "/p/.snpm-install-state" "state" ModePrefer None integrity written); [vm_refl..| |vm_refl| |vm_refl|done].
  - intros checks. rewrite layout_checks. intros [= <-]. vm_refl.
  - intros file content. cbn [write_integrity_file]. unfold write_integrity_file, write_integrity_path.
    assert (is_dir fs (path_push (p_root demo) "node_modules") = true) as -> by vm_refl. intros [= <- <-]. vm_refl.
Defined.

Lemma detect_scenario_safe_witness :
  exists graph, sr_graph (detect_install_scenario Ok fs demo None "/p/snpm-lock.yaml" required ∅
                            config_for_tests ModeFrozen true None) = Some graph /\
    missing (check_store_cache fs config_for_tests graph) = [].
Proof.
  assert (Hs : scenario (detect_install_scenario Ok fs demo None "/p/snpm-lock.yaml" required ∅
                            config_for_tests ModeFrozen true None) = WarmLinkOnly) by vm_refl.
  destruct (detect_scenario_safe Ok fs demo None "/p/snpm-lock.yaml" required ∅ config_for_tests ModeFrozen
              true None) as (_ & graph & Hg & _ & Hm); [by rewrite Hs|].
  exists graph. split; [exact Hg|]. by rewrite Hs in Hm.
Defined.

Lemma check_store_cache_spec_witness :
  missing (check_store_cache fs config_for_tests demo_graph) =
  filter (fun package => complete fs config_for_tests (r_id package) = false) (btree_values (g_packages demo_graph)).
Proof.
  apply (check_store_cache_spec fs config_for_tests demo_graph).
  - intros dir entries e. cbn. case_match; intros [= <-]; intros He;
      repeat (apply elem_of_cons in He as [->|He]; [vm_refl|]); by apply not_elem_of_nil in He.
  - vm_refl.
  - intros i p Hp. apply (map_Forall_lookup_1 (fun i p => r_id p = i /\ is_absolute (id_version i) = false)
      (g_packages demo_graph) i p); [|exact Hp]. apply (bool_decide_unpack _). vm_compute. exact I.
Defined.

(** A packument with a time of publication, in days. *)
#[local] Instance registry : Registry := {|
  fetch_registry_package name protocol :=
    Ok {| rp_versions := ∅; rp_time := {["18.2.0" := "100"]}; rp_dist_tags := ∅ |} |}.

Definition strict_config : SnpmConfig := {|
  c_cache_dir := "/tmp/cache"; c_data_dir := "/tmp/data"; c_allow_scripts := ∅;
  c_disable_global_virtual_store_for_packages := ∅; c_min_package_age_days := Some 7%Z;
  c_min_package_cache_age_days := None; c_default_registry := "https://registry.npmjs.org";
  c_scoped_registries := ∅; c_registry_auth := ∅; c_default_registry_auth_token := None;
  c_default_registry_auth_scheme := Bearer; c_registry_auth_schemes := ∅;
  c_hoisting := SingleVersion; c_link_backend := LinkAuto; c_strict_peers := false;
  c_save_exact := false; c_save_prefix := "^"; c_frozen_lockfile_default := false;
  c_always_auth := false; c_registry_concurrency := 64; c_verbose := false;
  c_log_file := None; c_remote_cache_url := None; c_remote_cache_auth_token := None;
  c_remote_cache_read_only := false
|}.

Definition at_day (n : Z) : OffsetDateTime := n.

Lemma age_policy_ok_iff_witness :
  validate_graph_min_package_age strict_config demo_graph false (fun _ => at_day 107) reverse = Ok tt <->
  forall i package, g_packages demo_graph !! i = Some package -> should_check_registry_age package = true ->
    exists registry_package,
      fetch_registry_package (id_name (r_id package)) (age_check_protocol package) = Ok registry_package /\
      forall age_days, version_age_days registry_package (id_version (r_id package)) (at_day 107) = Some age_days ->
      (7 <= age_days)%Z.
Proof.
  apply (age_policy_ok_iff strict_config demo_graph (fun _ => at_day 107) reverse 7%Z); [|vm_refl].
  intros l. apply reverse_Permutation.
Defined.
Example old_enough :
  validate_graph_min_package_age strict_config demo_graph false (fun _ => at_day 107) reverse = Ok tt /\
  validate_graph_min_package_age strict_config demo_graph false (fun _ => at_day 106) reverse =
    Err (ResolutionFailed "react" "18.2.0"
      "locked version 18.2.0 is only 6 days old, less than the configured minimum of 7 days").
Proof. split; vm_refl. Qed.

(** Of [react] only the edge to [loose] changes: the layout and the integrity
    hash stay the same, whatever the digest, so that the installation is taken to
    be up to date though the link of [react] is not. *)
Definition two_versions (loose : string) : ResolutionGraph := {|
  g_root := root [("react", id "react" "18.2.0")];
  g_packages := list_to_map [pkg "react" "18.2.0" {["loose" := id "loose" loose]} ∅;
                             pkg "loose" "1.4.0" ∅ ∅; pkg "loose" "2.0.0" ∅ ∅] |}.
End ScenarioDemo.

(** The hashes that decide whether an installation is up to date do not see the
    edges between packages. *)
Lemma edges_are_not_hashed `{DigestCrates} :
  compute_lockfile_hash (ScenarioDemo.two_versions "1.4.0") = compute_lockfile_hash (ScenarioDemo.two_versions "2.0.0") /\
  build_project_layout_hash ScenarioDemo.fs config_for_tests ScenarioDemo.demo None (ScenarioDemo.two_versions "1.4.0") true =
  build_project_layout_hash ScenarioDemo.fs config_for_tests ScenarioDemo.demo None (ScenarioDemo.two_versions "2.0.0") true.
Proof. split; vm_compute; reflexivity. Qed.
