(* ===== verification/Plan.v ===== *)
(** * Planning an installation ([operations/install/project_install/plan/, state.rs], [operations/install/workspace/{setup,plan}.rs, resolution/scenario.rs])

    What an installation is asked for: the specifiers of the manifests with their
    catalogs, protocols and overrides, the lockfile they are compared with, what
    [--frozen-lockfile] and [--fix-lockfile] make of it, and the scenario of a
    workspace.  All of it looks at one state of the file system. *)
From S2P Require Import Prelude.
From S2P Require Import BTree.
From S2P Require Import Text.
From S2P Require Import Errors.
From S2P Require Import Types.
From S2P Require Import Paths.
From S2P Require Import Specs.
From S2P Require Import Crates.
From S2P Require Import Lockfile.
From S2P Require Import Roots.
From S2P Require Import Store.
From S2P Require Import Layout.
From S2P Require Import InstallState.
From S2P Require Import Residency.
From S2P Require Import Discovery.
From S2P Require Import Importers.
From S2P Require Import Linker.
From S2P Require Import Sharing.
From S2P Require Import Scenario.

(** ** [utils/types.rs] *)
Record InstallOptions := {
  io_requested : list string;
  io_dev : bool;
  io_include_dev : bool;
  io_frozen_lockfile : FrozenLockfileMode;
  io_strict_no_lockfile : bool;
  io_force : bool;
  io_silent_summary : bool;
}.

(** ** [plan/manifest/] *)
Definition collect_additions (requested : list string) : gmap string string * gmap string RegistryProtocol :=
  let '(requested_ranges, requested_protocols) := Manifests.parse_requested_with_protocol requested in
  foldl (fun '(additions, addition_protocols) '(name, range) =>
    (<[name := range]> additions,
     match requested_protocols !! name with
     | Some protocol => <[name := protocol]> addition_protocols
     | None => addition_protocols
     end)) (∅, ∅) (btree_iter requested_ranges).

Record ResolvedManifestSpecs := {
  rm_local_deps : gset string;
  rm_local_dev_deps : gset string;
  rm_local_optional_deps : gset string;
  rm_dependencies : gmap string string;
  rm_development_dependencies : gmap string string;
  rm_optional_dependencies : gmap string string;
  rm_protocols : gmap string RegistryProtocol;
}.

Definition merge_root_dependencies (manifest_root optional_root additions : gmap string string) : gmap string string :=
  additions ∪ (optional_root ∪ manifest_root).

Definition insert_protocols (protocols : gmap string RegistryProtocol) (names : list string)
    (root_protocols : gmap string RegistryProtocol) : gmap string RegistryProtocol :=
  foldl (fun root_protocols name => <[name := default npm (protocols !! name)]> root_protocols) root_protocols names.

Definition build_root_protocols (manifest_root optional_root : gmap string string)
    (manifest_protocols : gmap string RegistryProtocol) (additions : gmap string string)
    (requested_protocols : gmap string RegistryProtocol) : gmap string RegistryProtocol :=
  insert_protocols requested_protocols (btree_keys additions)
    (insert_protocols manifest_protocols (btree_keys manifest_root ++ btree_keys optional_root) ∅).

Record ProjectInstallPlan := {
  pl_workspace : option Workspace;
  pl_catalog : option CatalogConfig;
  pl_overrides : gmap string string;
  pl_additions : gmap string string;
  pl_local_deps : gset string;
  pl_local_dev_deps : gset string;
  pl_local_optional_deps : gset string;
  pl_manifest_root : gmap string string;
  pl_root_specs : RootSpecSet;
  pl_root_dependencies : gmap string string;
  pl_root_protocols : gmap string RegistryProtocol;
  pl_optional_root_names : gset string;
  pl_lockfile_path : string;
  pl_compatible_lockfile : option CompatibleLockfile;
  pl_is_fresh_install : bool;
}.

(** ** Pinning for [--fix-lockfile] ([state.rs], [workspace/plan.rs]) *)
Definition pin_required (existing : Lockfile) (root_dependencies : gmap string string) (e : string * string)
  : gmap string string :=
  match l_root existing !! e.1 with
  | Some dep =>
      match ld_version dep with
      | Some version =>
          if ld_optional dep || negb (ld_requested dep == e.2) then root_dependencies
          else <[e.1 := version]> root_dependencies
      | None => root_dependencies
      end
  | None => root_dependencies
  end.

Definition pin_optional (existing : Lockfile) (root_dependencies : gmap string string) (e : string * string)
  : gmap string string :=
  match l_root existing !! e.1 with
  | Some dep =>
      match ld_version dep with
      | Some version =>
          if negb (ld_requested dep == e.2) then root_dependencies else <[e.1 := version]> root_dependencies
      | None => root_dependencies
      end
  | None => root_dependencies
  end.

Definition pin_roots (existing : Lockfile) (root_specs : RootSpecSet) (root_dependencies : gmap string string)
  : gmap string string :=
  foldl (pin_optional existing)
    (foldl (pin_required existing) root_dependencies (btree_iter (required root_specs)))
    (btree_iter (optional root_specs)).

Section plan.
Context `{SemverCrate} `{DigestCrates} `{LockCrates} `{LayoutJson} `{MetadataJson}
  `{Bincode DiskInstallStateFile} `{Bincode GraphSnapshot} `{Bincode StoreResidencyIndex} `{ForeignFormats} `{GitBranch}
  (canonicalize : string -> result string string) (fs : FileSystem).

(** ** [plan/config.rs], [plan/manifest/{resolve,root}.rs] *)
Definition load_catalog (project : Project) (workspace : option Workspace) : Result (option CatalogConfig) :=
  match workspace with
  | Some _ => Ok None
  | None => load_catalog_config fs (p_root project)
  end.

Definition load_overrides (project : Project) (workspace : option Workspace) : Result (gmap string string) :=
  let root := match workspace with Some workspace => w_root workspace | None => p_root project end in
  overrides ← load_overrides_config fs root;
  merge_manifest_overrides project (default ∅ overrides).

Definition resolve_manifest_specs (project : Project) (workspace : option Workspace) (catalog : option CatalogConfig)
  : Result ResolvedManifestSpecs :=
  let manifest := p_manifest project in
  dependencies ← apply_specs (m_dependencies manifest) workspace catalog ∅ (Some ∅);
  development ← apply_specs (m_dev_dependencies manifest) workspace catalog ∅ (ap_protocols dependencies);
  optional ← apply_specs (m_optional_dependencies manifest) workspace catalog ∅ (ap_protocols development);
  Ok {| rm_local_deps := ap_local_set dependencies;
        rm_local_dev_deps := ap_local_set development;
        rm_local_optional_deps := ap_local_set optional;
        rm_dependencies := ap_result dependencies;
        rm_development_dependencies := ap_result development;
        rm_optional_dependencies := ap_result optional;
        rm_protocols := default ∅ (ap_protocols optional) |}.

Definition build_root_specs (workspace : option Workspace) (resolved_manifest : ResolvedManifestSpecs)
    (include_dev : bool) (overrides : gmap string string) : Result RootSpecSet :=
  match workspace with
  | Some workspace => collect_workspace_root_specs_with_overrides canonicalize workspace include_dev overrides
  | None => Ok (build_project_root_specs (rm_dependencies resolved_manifest)
                  (rm_development_dependencies resolved_manifest) (rm_optional_dependencies resolved_manifest) include_dev)
  end.

(** ** [plan/prepare.rs] *)
Definition prepare_install_plan (project : Project) (options : InstallOptions) : Result ProjectInstallPlan :=
  let '(additions, requested_protocols) := collect_additions (io_requested options) in
  workspace ← discover_workspace fs (p_root project);
  catalog ← load_catalog project workspace;
  overrides ← load_overrides project workspace;
  resolved_manifest ← resolve_manifest_specs project workspace catalog;
  root_specs ← build_root_specs workspace resolved_manifest (io_include_dev options) overrides;
  let manifest_root := required root_specs in
  let root := match workspace with Some workspace => w_root workspace | None => p_root project end in
  let lockfile_path := path_push root "snpm-lock.yaml" in
  let compatible_lockfile :=
    if match workspace with None => true | Some _ => false end && negb (is_file fs lockfile_path)
    then detect_compatible_lockfile fs (p_root project) else None in
  Ok {| pl_workspace := workspace;
        pl_catalog := catalog;
        pl_overrides := overrides;
        pl_additions := additions;
        pl_local_deps := rm_local_deps resolved_manifest;
        pl_local_dev_deps := rm_local_dev_deps resolved_manifest;
        pl_local_optional_deps := rm_local_optional_deps resolved_manifest;
        pl_manifest_root := manifest_root;
        pl_root_specs := root_specs;
        pl_root_dependencies := merge_root_dependencies manifest_root (optional root_specs) additions;
        pl_root_protocols := build_root_protocols manifest_root (optional root_specs) (rm_protocols resolved_manifest)
                               additions requested_protocols;
        pl_optional_root_names := dom (optional root_specs);
        pl_lockfile_path := lockfile_path;
        pl_compatible_lockfile := compatible_lockfile;
        pl_is_fresh_install :=
          negb (path_exists fs lockfile_path) && match compatible_lockfile with None => true | Some _ => false end |}.

(** [ProjectInstallPlan::lockfile_source_path]; the label is its text. *)
Definition plan_source_path (lockfile_path : string) (compatible_lockfile : option CompatibleLockfile) : string :=
  default lockfile_path (lockfile_source_path fs lockfile_path compatible_lockfile).

(** ** [plan/frozen.rs] *)
Definition read_frozen_lockfile (plan : ProjectInstallPlan) (config : SnpmConfig) : Result Lockfile :=
  if is_file fs (pl_lockfile_path plan) then Lockfile.read_with (fs_bytes fs) (pl_lockfile_path plan) else
  source ← ok_or (LockfileError (pl_lockfile_path plan) "frozen-lockfile requested but no lockfile was found")
             (pl_compatible_lockfile plan);
  read_compatible_lockfile canonicalize fs source config.

Definition validate_frozen_lockfile (config : SnpmConfig) (options : InstallOptions) (plan : ProjectInstallPlan)
  : Result unit :=
  match io_frozen_lockfile options with
  | ModeFrozen =>
      if negb (io_strict_no_lockfile options) && negb (is_file fs (pl_lockfile_path plan))
         && match pl_compatible_lockfile plan with None => true | Some _ => false end
      then Ok tt
      else if negb (bool_decide (pl_additions plan = ∅))
      then Err (LockfileError (pl_lockfile_path plan) "cannot add package when using frozen-lockfile")
      else
        existing ← read_frozen_lockfile plan config;
        if root_specs_match existing (pl_manifest_root plan) (optional (pl_root_specs plan)) then Ok tt
        else Err (LockfileError (pl_lockfile_path plan)
               "manifest dependencies do not match the existing lockfile when using frozen-lockfile")
  | _ => Ok tt
  end.

(** ** [state.rs]: pins and seeds *)
Definition read_lockfile_for_fix (plan : ProjectInstallPlan) (config : SnpmConfig) : Result Lockfile :=
  read_existing_lockfile canonicalize fs (pl_lockfile_path plan) (pl_compatible_lockfile plan) config.

Definition pinned_root_dependencies_for_fix (plan : ProjectInstallPlan) (config : SnpmConfig) : gmap string string :=
  match read_lockfile_for_fix plan config with
  | Ok existing => pin_roots existing (pl_root_specs plan) (pl_root_dependencies plan)
  | Err _ => pl_root_dependencies plan
  end.

Definition read_existing_graph_seed (config : SnpmConfig) (project : Project) (plan : ProjectInstallPlan)
  : option ResolutionGraph :=
  if is_file fs (pl_lockfile_path plan) then
    match load_graph_snapshot fs (p_root project) (pl_lockfile_path plan) with
    | Some snapshot => Some (lo_graph snapshot)
    | None => Lockfile.Graph.to_graph <$> result_ok (Lockfile.read_with (fs_bytes fs) (pl_lockfile_path plan))
    end
  else
    source ← pl_compatible_lockfile plan;
    Lockfile.Graph.to_graph <$> result_ok (read_compatible_lockfile canonicalize fs source config).

Definition explicit_lockfile_seed (config : SnpmConfig) (project : Project) (plan : ProjectInstallPlan)
    (options : InstallOptions) : option ResolutionGraph :=
  if decide (io_frozen_lockfile options = ModeFix) then
    Lockfile.Graph.to_graph <$> result_ok (read_lockfile_for_fix plan config)
  else if decide (pl_additions plan = ∅ \/ io_frozen_lockfile options = ModeNo) then None
  else read_existing_graph_seed config project plan.

Definition planned_root_dependencies (config : SnpmConfig) (options : InstallOptions) (plan : ProjectInstallPlan)
  : gmap string string :=
  if decide (io_frozen_lockfile options = ModeFix) then pinned_root_dependencies_for_fix plan config
  else pl_root_dependencies plan.

Definition plan_scenario (config : SnpmConfig) (project : Project) (plan : ProjectInstallPlan)
    (options : InstallOptions) : ScenarioResult :=
  if io_include_dev options && bool_decide (pl_additions plan = ∅)
     && negb (bool_decide (io_frozen_lockfile options = ModeNo \/ io_frozen_lockfile options = ModeFix))
  then detect_install_scenario canonicalize fs project (pl_workspace plan) (pl_lockfile_path plan)
         (pl_manifest_root plan) (optional (pl_root_specs plan)) config (io_frozen_lockfile options)
         (io_force options) (pl_compatible_lockfile plan)
  else cold.
End plan.

(** ** Root sets *)
Lemma project_roots_disjoint prod dev_deps opt include_dev :
  required (build_project_root_specs prod dev_deps opt include_dev) ##ₘ
  optional (build_project_root_specs prod dev_deps opt include_dev).
Proof.
  apply map_disjoint_spec. intros name x y Hx Hy.
  destruct (build_project_root_specs_lookup prod dev_deps opt include_dev name) as [Ho Hr].
  cbn zeta in Ho, Hr. rewrite Ho in Hy. by rewrite Hr, Hy in Hx.
Qed.

(** A lockfile answers one set of roots only. *)
Lemma root_specs_match_inj lockfile required required' optional :
  required ##ₘ optional -> required' ##ₘ optional ->
  root_specs_match lockfile required optional = true -> root_specs_match lockfile required' optional = true ->
  required = required'.
Proof.
  intros Hd Hd' (Hdom & Hreq & _)%root_specs_match_spec (Hdom' & Hreq' & _)%root_specs_match_spec; [|done..].
  assert (Hdoms : dom required = dom required').
  { apply map_disjoint_dom in Hd, Hd'. rewrite Hdom in Hdom'. set_solver. }
  apply map_eq. intros name. destruct (required !! name) as [r|] eqn:Hr.
  - assert (is_Some (required' !! name)) as [r' Hr'] by (apply elem_of_dom; rewrite <-Hdoms; by eapply elem_of_dom_2).
    destruct (Hreq _ _ Hr) as (dep & Hdep & <- & _). destruct (Hreq' _ _ Hr') as (dep' & Hdep' & <- & _).
    congruence.
  - symmetry. apply not_elem_of_dom. rewrite <-Hdoms. by apply not_elem_of_dom.
Qed.

(** ** Pinning *)
(** The version the lockfile has for a request, which it must have answered as
    it is now; a required one not as an optional one. *)
Definition locked_version (existing : Lockfile) (optional_too : bool) (name requested : string) : option string :=
  dep ← l_root existing !! name;
  version ← ld_version dep;
  if (ld_optional dep && negb optional_too) || negb (ld_requested dep == requested) then None else Some version.

Lemma pin_required_eq existing m e :
  pin_required existing m e =
  match locked_version existing false e.1 e.2 with Some version => <[e.1 := version]> m | None => m end.
Proof.
  unfold pin_required, locked_version. destruct (l_root existing !! e.1) as [dep|]; [|done].
  cbn. destruct (ld_version dep); [|done]. cbn. rewrite andb_true_r. by destruct (_ || _).
Qed.

Lemma pin_optional_eq existing m e :
  pin_optional existing m e =
  match locked_version existing true e.1 e.2 with Some version => <[e.1 := version]> m | None => m end.
Proof.
  unfold pin_optional, locked_version. destruct (l_root existing !! e.1) as [dep|]; [|done].
  cbn. destruct (ld_version dep); [|done]. cbn. rewrite andb_false_r. by destruct (negb _).
Qed.

Lemma pin_roots_lookup existing specs root_dependencies name :
  pin_roots existing specs root_dependencies !! name =
  match optional specs !! name ≫= locked_version existing true name with
  | Some version => Some version
  | None =>
      match required specs !! name ≫= locked_version existing false name with
      | Some version => Some version
      | None => root_dependencies !! name
      end
  end.
Proof.
  unfold pin_roots. rewrite (foldl_ext _ _ _ _ (fun m e => pin_optional_eq existing m e)).
  rewrite (btree_foldl_insert_lookup (locked_version existing true)).
  rewrite (foldl_ext _ _ _ _ (fun m e => pin_required_eq existing m e)).
  by rewrite (btree_foldl_insert_lookup (locked_version existing false)).
Qed.

(** ** The lockfile a resolution leaves *)
(** What the resolver promises about the roots (see [Resolver]): they are
    recorded under the request, and only optional ones may be missing. *)
Record roots_resolved (root_dependencies : gmap string string) (optional_names : gset string)
    (graph : ResolutionGraph) : Prop := {
  resolved_requested name dep : g_root graph !! name = Some dep ->
    root_dependencies !! name = Some (rd_requested dep);
  resolved_present name : is_Some (root_dependencies !! name) -> name ∉ optional_names ->
    is_Some (g_root graph !! name);
}.

Lemma written_request_mismatch graph optional required name dep requested :
  g_root graph !! name = Some dep -> optional !! name = None -> required !! name = Some requested ->
  rd_requested dep <> requested -> root_specs_match (Write.lockfile_of graph optional) required optional = false.
Proof.
  intros Hg Ho Hr Hne. apply not_true_iff_false. unfold root_specs_match. rewrite !andb_true_iff, !forallb_true.
  intros [[_ Hall] _]. specialize (Hall (name, requested)). cbn beta iota in Hall. cbn [l_root Write.lockfile_of] in Hall.
  rewrite written_root_lookup, Hg in Hall. cbn in Hall.
  pose proof (Hall (proj2 (elem_of_btree_iter _ _ _) Hr)) as Htrue. bool_prop. done.
Qed.

Lemma lockfile_answers_manifest required optional root_dependencies graph :
  required ##ₘ optional -> roots_resolved root_dependencies (dom optional) graph ->
  dom root_dependencies = dom required ∪ dom optional ->
  root_specs_match (Write.lockfile_of graph optional) required optional = true <->
  forall name dep, g_root graph !! name = Some dep -> (optional ∪ required) !! name = root_dependencies !! name.
Proof.
  intros Hdisj [Hreq Hpres] Hdom. split.
  - intros (_ & Hr & Ho)%root_specs_match_spec name dep Hdep; [|done]. rewrite (Hreq _ _ Hdep).
    assert (Hin : name ∈ dom required ∪ dom optional).
    { rewrite <-Hdom. apply elem_of_dom. rewrite (Hreq _ _ Hdep). eauto. }
    cbn [l_root Write.lockfile_of] in Hr, Ho. destruct (optional !! name) as [o|] eqn:Hon.
    + destruct (Ho _ _ Hon) as (d & Hd & <-). rewrite written_root_lookup, Hdep in Hd. injection Hd as <-.
      rewrite (lookup_union_Some_l _ _ _ _ Hon). done.
    + rewrite lookup_union_r by done. apply elem_of_union in Hin as [Hin|Hin%elem_of_dom]; [|rewrite Hon in Hin; by destruct Hin].
      apply elem_of_dom in Hin as [r Hrn]. destruct (Hr _ _ Hrn) as (d & Hd & <- & _).
      rewrite written_root_lookup, Hdep in Hd. injection Hd as <-. done.
  - intros Hagree. apply written_root_specs_match; [done| |].
    + intros name dep Hdep. specialize (Hagree _ _ Hdep). rewrite (Hreq _ _ Hdep) in Hagree.
      apply lookup_union_Some_raw in Hagree as [?|[_ ?]]; auto.
    + intros name Hin. apply elem_of_dom, Hpres; [apply elem_of_dom; rewrite Hdom; set_solver|].
      apply map_disjoint_dom in Hdisj. set_solver.
Qed.


(** After [--fix-lockfile] the lockfile asks for the version, not for the range
    of the manifest. *)
Lemma fix_lockfile_unfreezes existing specs graph name dep requested version :
  optional specs !! name = None -> required specs !! name = Some requested ->
  locked_version existing false name requested = Some version -> version <> requested ->
  roots_resolved (pin_roots existing specs (merge_root_dependencies (required specs) (optional specs) ∅))
    (dom (optional specs)) graph ->
  g_root graph !! name = Some dep ->
  root_specs_match (Write.lockfile_of graph (optional specs)) (required specs) (optional specs) = false.
Proof.
  intros Ho Hr Hlocked Hne [Hreq _] Hdep.
  apply (written_request_mismatch graph _ _ name dep requested); [done..|].
  specialize (Hreq _ _ Hdep). rewrite pin_roots_lookup, Ho, Hr in Hreq. cbn in Hreq. rewrite Hlocked in Hreq. congruence.
Qed.

(** After a bare [add] the lockfile asks for [latest], the manifest for a range. *)
Lemma bare_add_unfreezes manifest graph additions dev workspace catalog save_prefix name dep optional :
  additions !! name = Some "latest" -> g_root graph !! name = Some dep -> rd_requested dep = "latest" ->
  catalog_selector name workspace catalog = None ->
  save_prefix +:+ id_version (rd_resolved dep) <> "latest" ->
  let '(dependencies, dev_dependencies, optional_dependencies) :=
    written_sections manifest graph additions dev workspace catalog save_prefix in
  let specs := build_project_root_specs dependencies dev_dependencies optional_dependencies true in
  optional = Roots.optional specs ->
  root_specs_match (Write.lockfile_of graph optional) (required specs) optional = false.
Proof.
  intros Hadd Hdep Hlatest Hcat Hne.
  pose proof (written_sections_spec manifest graph additions dev workspace catalog save_prefix name) as Hsec.
  destruct (written_sections _ _ _ _ _ _ _) as [[deps dev_deps] opt]. rewrite Hdep, Hadd in Hsec. cbn zeta in Hsec |- *.
  intros ->. destruct (build_project_root_specs_lookup deps dev_deps opt true name) as [Ho Hr]. cbn zeta in Ho, Hr.
  unfold section_of in Hsec. cbn in Hsec.
  assert (Hspec : manifest_spec_for_dependency name "latest" (id_version (rd_resolved dep)) workspace catalog save_prefix
                  = save_prefix +:+ id_version (rd_resolved dep)).
  { unfold manifest_spec_for_dependency. by rewrite Hcat. }
  rewrite Hspec in Hsec.
  apply (written_request_mismatch graph _ _ name dep (save_prefix +:+ id_version (rd_resolved dep))); [done| | |].
  - rewrite Ho. by destruct dev; injection Hsec.
  - rewrite Hr. destruct dev; injection Hsec as Hd Hdd Hop; by rewrite Hop, Hd, ?Hdd.
  - by rewrite Hlatest.
Qed.

(** ** Frozen installations *)
Section frozen.
Context `{SemverCrate} `{DigestCrates} `{LockCrates} `{LayoutJson} `{MetadataJson}
  `{Bincode DiskInstallStateFile} `{Bincode GraphSnapshot} `{Bincode StoreResidencyIndex} `{ForeignFormats} `{GitBranch}
  (canonicalize : string -> result string string) (fs : FileSystem).

Definition has_lockfile (plan : ProjectInstallPlan) : Prop :=
  is_file fs (pl_lockfile_path plan) = true \/ is_Some (pl_compatible_lockfile plan).

Lemma validate_frozen_ok config options plan :
  io_frozen_lockfile options = ModeFrozen -> has_lockfile plan ->
  validate_frozen_lockfile canonicalize fs config options plan = Ok tt <->
  pl_additions plan = ∅ /\ exists existing, read_frozen_lockfile canonicalize fs plan config = Ok existing /\
    root_specs_match existing (pl_manifest_root plan) (optional (pl_root_specs plan)) = true.
Proof.
  intros Hmode Hhas. unfold validate_frozen_lockfile. rewrite Hmode.
  assert (negb (io_strict_no_lockfile options) && negb (is_file fs (pl_lockfile_path plan))
            && match pl_compatible_lockfile plan with None => true | Some _ => false end = false) as ->.
  { destruct Hhas as [->|[c ->]]; [by rewrite andb_false_r|by rewrite !andb_false_r]. }
  case_bool_decide as Hadd; cbn [negb]; [|by split; [|intros [? _]]].
  destruct (read_frozen_lockfile _ _ _ _) as [existing|e]; cbn; [|split; [done|by intros (_ & ? & ? & _)]].
  destruct (root_specs_match _ _ _) eqn:Hm; split; try done.
  - intros _. split; [done|]. by exists existing.
  - intros (_ & x & [= <-] & Hx). congruence.
Qed.

(** Only what is installed changes with [--production]. *)
Definition production (options : InstallOptions) : InstallOptions := {|
  io_requested := io_requested options;
  io_dev := io_dev options;
  io_include_dev := false;
  io_frozen_lockfile := io_frozen_lockfile options;
  io_strict_no_lockfile := io_strict_no_lockfile options;
  io_force := io_force options;
  io_silent_summary := io_silent_summary options |}.

Lemma prepared_twice project options plan plan' :
  prepare_install_plan canonicalize fs project options = Ok plan -> pl_workspace plan = None ->
  prepare_install_plan canonicalize fs project (production options) = Ok plan' ->
  pl_lockfile_path plan' = pl_lockfile_path plan /\ pl_compatible_lockfile plan' = pl_compatible_lockfile plan /\
  pl_additions plan' = pl_additions plan /\ optional (pl_root_specs plan') = optional (pl_root_specs plan) /\
  pl_manifest_root plan ##ₘ optional (pl_root_specs plan) /\
  pl_manifest_root plan' ##ₘ optional (pl_root_specs plan).
Proof.
  unfold prepare_install_plan. cbn [io_requested production].
  destruct (collect_additions _) as [additions requested].
  destruct (discover_workspace _ _) as [workspace|]; cbn [mbind result_bind]; [|done].
  destruct (load_catalog _ _ _) as [catalog|]; cbn [mbind result_bind]; [|done].
  destruct (load_overrides _ _ _) as [overrides|]; cbn [mbind result_bind]; [|done].
  destruct (resolve_manifest_specs _ _ _) as [resolved|]; cbn [mbind result_bind]; [|done].
  intros (specs & Hs & [= <-])%result_bind_Ok Hw (specs' & Hs' & [= <-])%result_bind_Ok. cbn in Hw |- *. subst workspace.
  cbn in Hs, Hs'. injection Hs as <-. injection Hs' as <-. split_and!; [done..| |].
  - apply project_roots_disjoint.
  - apply (project_roots_disjoint (rm_dependencies resolved) (rm_development_dependencies resolved)
             (rm_optional_dependencies resolved) false).
Qed.

(** An installation without development dependencies is never locked.  If a
    frozen installation accepts the lockfile of a project and some required
    dependency is for development, the frozen installation for production
    rejects it; and in the other modes (but [--fix-lockfile]) an installation for
    production resolves everything again, with no graph to start from. *)
Theorem production_is_never_locked config project options plan plan' :
  prepare_install_plan canonicalize fs project options = Ok plan -> pl_workspace plan = None ->
  prepare_install_plan canonicalize fs project (production options) = Ok plan' -> has_lockfile plan ->
  (io_frozen_lockfile options = ModeFrozen -> pl_manifest_root plan' <> pl_manifest_root plan ->
   validate_frozen_lockfile canonicalize fs config options plan = Ok tt ->
   validate_frozen_lockfile canonicalize fs config (production options) plan' <> Ok tt) /\
  plan_scenario canonicalize fs config project plan' (production options) = cold /\
  (io_frozen_lockfile options <> ModeFix -> pl_additions plan = ∅ ->
   explicit_lockfile_seed canonicalize fs config project plan' (production options) = None).
Proof.
  intros Hp Hw Hp' Hhas. destruct (prepared_twice _ _ _ _ Hp Hw Hp') as (Hl & Hc & Ha & Ho & Hd & Hd').
  split_and!.
  - intros Hmode Hne (_ & existing & Hread & Hm)%validate_frozen_ok; [|done..].
    intros (_ & existing' & Hread' & Hm')%validate_frozen_ok; [|done|by unfold has_lockfile; rewrite Hl, Hc].
    unfold read_frozen_lockfile in *. rewrite Hl, Hc, Hread in Hread'. injection Hread' as <-.
    rewrite Ho in Hm'. apply Hne. by eapply root_specs_match_inj.
  - done.
  - intros Hfix Hadd. unfold explicit_lockfile_seed. cbn [io_frozen_lockfile production].
    rewrite decide_False by done. rewrite decide_True; [done|]. left. by rewrite Ha.
Qed.
End frozen.

(** ** Concrete inputs: a project with a lockfile, a dependency and a development dependency *)
Module PlanDemo.
#[local] Existing Instance SharingDemo.checksum.
#[local] Instance formats : ForeignFormats := ImportersDemo.with_manifests ImportersDemo.only_manifests.
#[local] Instance no_git : GitBranch := {| show_current_branch _ := None |}.
#[local] Instance no_layout_json : LayoutJson := {| layout_state_from_slice _ := None |}.
#[local] Instance no_metadata : MetadataJson := {|
  metadata_from_str _ := None; metadata_to_vec _ := Err "unsupported"; facts_from_str _ := None |}.
#[local] Instance no_bincode {A} : Bincode A := {| bincode _ := Err "unsupported"; unbincode _ := Err "unsupported" |}.

Definition locked (requested version : string) : LockRootDependency :=
  {| ld_requested := requested; ld_package := None; ld_version := Some version; ld_optional := false |}.
Definition lockfile : Lockfile := {|
  l_version := 1; l_root := {["react" := locked "^18.0.0" "18.2.0"; "jest" := locked "^29.0.0" "29.7.0"]};
  l_packages := ∅ |}.
#[local] Instance lock_crates : LockCrates := {|
  yaml_to_string _ := Err "unsupported"; yaml_from_str _ := Ok lockfile;
  bincode_serialize _ := None; bincode_deserialize _ := None; Lockfile.sha256 s := s |}.

Definition project : Project := {|
  p_root := "/p"; p_manifest_path := "/p/package.json";
  p_manifest := {| m_name := Some "app"; m_version := None; m_package_manager := None; m_private := false;
    m_dependencies := {["react" := "^18.0.0"]}; m_dev_dependencies := {["jest" := "^29.0.0"]};
    m_optional_dependencies := ∅; m_scripts := ∅; m_resolutions := ∅; m_overrides := ∅; m_files := None;
    m_bin := None; m_main := None; m_pnpm := None; m_snpm := None; m_workspaces := None; m_extra := ∅ |} |}.

Definition stat (type : FileType) : Stat := {| st_type := type; st_len := 10; st_modified := Ok 5000000007%Z |}.
Definition is_text (p : string) : bool := one_of p ["/p/package.json"; "/p/snpm-lock.yaml"].
Definition fs : FileSystem := {|
  fs_lstat p := if is_text p then Ok (stat TFile) else if p == "/p" then Ok (stat TDir) else Err "no such file";
  fs_stat p := if is_text p then Ok (stat TFile) else if p == "/p" then Ok (stat TDir) else Err "no such file";
  fs_bytes p := if is_text p then Ok "text" else Err "no such file";
  fs_read_link _ := Err "not a link";
  fs_entries _ := Ok [] |}.

Definition frozen : InstallOptions := {|
  io_requested := []; io_dev := false; io_include_dev := true; io_frozen_lockfile := ModeFrozen;
  io_strict_no_lockfile := false; io_force := false; io_silent_summary := false |}.

Definition no_plan : ProjectInstallPlan := {|
  pl_workspace := None; pl_catalog := None; pl_overrides := ∅; pl_additions := ∅; pl_local_deps := ∅;
  pl_local_dev_deps := ∅; pl_local_optional_deps := ∅; pl_manifest_root := ∅;
  pl_root_specs := {| required := ∅; optional := ∅ |}; pl_root_dependencies := ∅; pl_root_protocols := ∅;
  pl_optional_root_names := ∅; pl_lockfile_path := ε; pl_compatible_lockfile := None; pl_is_fresh_install := false |}.
Definition plan (options : InstallOptions) : ProjectInstallPlan :=
  default no_plan (result_ok (prepare_install_plan Ok fs project options)).

Lemma production_is_never_locked_witness :
  validate_frozen_lockfile Ok fs config_for_tests frozen (plan frozen) = Ok tt /\
  validate_frozen_lockfile Ok fs config_for_tests (production frozen) (plan (production frozen)) <> Ok tt.
Proof.
  split; [vm_refl|].
  apply (production_is_never_locked Ok fs config_for_tests project frozen (plan frozen) (plan (production frozen)));
    [vm_refl|vm_refl|vm_refl|left; vm_refl|reflexivity| |vm_refl].
  apply (bool_decide_unpack _). vm_compute. exact I.
Defined.

Definition resolved (requested version : string) : RootDependency :=
  {| rd_requested := requested; rd_resolved := {| id_name := "react"; id_version := version |} |}.
Definition graph (requested : string) : ResolutionGraph :=
  {| g_root := {["react" := resolved requested "18.2.0"]}; g_packages := ∅ |}.


(** [--fix-lockfile] pins the range, whose lockfile the next frozen installation
    rejects; for an alias it even pins a version of the package of the alias's name. *)
Example pinned :
  pin_roots lockfile {| required := {["react" := "^18.0.0"]}; optional := ∅ |} {["react" := "^18.0.0"]} !! "react" =
    Some "18.2.0" /\
  root_specs_match (Write.lockfile_of (graph "18.2.0") ∅) {["react" := "^18.0.0"]} ∅ = false /\
  pin_roots {| l_version := 1; l_packages := ∅;
               l_root := {["ui" := {| ld_requested := "npm:react@^18.0.0"; ld_package := Some "react";
                                      ld_version := Some "18.2.0"; ld_optional := false |}]} |}
    {| required := {["ui" := "npm:react@^18.0.0"]}; optional := ∅ |} {["ui" := "npm:react@^18.0.0"]} !! "ui" =
    Some "18.2.0".
Proof. split_and!; vm_refl. Qed.
End PlanDemo.
