(* ===== verification/WorkspacePlan.v ===== *)
(** * Planning the installation of a workspace ([operations/install/workspace/{setup,plan}.rs, resolution/scenario.rs])

    The same decisions as in [Plan], by a second implementation that differs in
    what it loads, what it checks and what it keeps. *)
From S2P Require Import Prelude.
From S2P Require Import BTree.
From S2P Require Import Text.
From S2P Require Import Errors.
From S2P Require Import Types.
From S2P Require Import Paths.
From S2P Require Import Specs.
From S2P Require Import Crates.
From S2P Require Import Lockfile.
From S2P Require Import Roots.
From S2P Require Import Store.
From S2P Require Import Sharing.
From S2P Require Import Layout.
From S2P Require Import InstallState.
From S2P Require Import Residency.
From S2P Require Import Discovery.
From S2P Require Import Importers.
From S2P Require Import Scenario.
From S2P Require Import Plan.

Record WorkspaceInstallSetup := {
  su_lockfile_path : string;
  su_compatible_lockfile : option CompatibleLockfile;
  su_overrides : gmap string string;
  su_root_specs : RootSpecSet;
  su_root_dependencies : gmap string string;
  su_root_protocols : gmap string RegistryProtocol;
  su_optional_root_names : gset string;
}.

Record WorkspaceScenarioArtifacts := {
  wa_scenario : InstallScenario;
  wa_existing_lockfile : option Lockfile;
  wa_graph : option ResolutionGraph;
  wa_cache_check : option CacheCheckResult;
  wa_lockfile_checked : bool;
}.

Record WorkspaceInstallPlan := {
  wp_setup : WorkspaceInstallSetup;
  wp_scenario : InstallScenario;
  wp_scenario_graph : option ResolutionGraph;
  wp_scenario_cache_check : option CacheCheckResult;
}.

Definition artifacts_cold (lockfile_checked : bool) : WorkspaceScenarioArtifacts := {|
  wa_scenario := Cold; wa_existing_lockfile := None; wa_graph := None; wa_cache_check := None;
  wa_lockfile_checked := lockfile_checked |}.

(** [setup.rs::build_root_protocols] *)
Definition workspace_root_protocols (root_dependencies : gmap string string) : gmap string RegistryProtocol :=
  (fun spec => default npm (Manifests.detect_manifest_protocol spec)) <$> root_dependencies.

Definition set_pinned_roots (root_dependencies : gmap string string) (setup : WorkspaceInstallSetup)
  : WorkspaceInstallSetup := {|
  su_lockfile_path := su_lockfile_path setup;
  su_compatible_lockfile := su_compatible_lockfile setup;
  su_overrides := su_overrides setup;
  su_root_specs := su_root_specs setup;
  su_root_dependencies := root_dependencies;
  su_root_protocols := workspace_root_protocols root_dependencies;
  su_optional_root_names := su_optional_root_names setup |}.

Definition pinned_workspace_root_dependencies_for_fix (setup : WorkspaceInstallSetup)
    (existing_lockfile : option Lockfile) : gmap string string :=
  match existing_lockfile with
  | None => su_root_dependencies setup
  | Some existing => pin_roots existing (su_root_specs setup) (su_root_dependencies setup)
  end.

(** ** [validate_lockfile_matches_manifest] *)
Definition validate_lockfile_matches_manifest (frozen_lockfile : FrozenLockfileMode) (lockfile_path : string)
    (strict_no_lockfile : bool) (scenario : InstallScenario) (lockfile : option Lockfile)
    (required_root optional_root : gmap string string) (lockfile_checked : bool)
  : Result (InstallScenario * option Lockfile) :=
  if match lockfile with
     | Some existing => negb (root_specs_match existing required_root optional_root)
     | None => false
     end
  then
    if decide (frozen_lockfile = ModeFrozen) then
      Err (LockfileError lockfile_path
             "manifest dependencies do not match the existing lockfile when using frozen-lockfile")
    else Ok (Cold, lockfile)
  else if strict_no_lockfile && bool_decide (frozen_lockfile = ModeFrozen) && negb lockfile_checked then
    Err (LockfileError lockfile_path "frozen-lockfile requested but lockfile could not be read")
  else Ok (scenario, lockfile).

Section workspace.
Context `{SemverCrate} `{DigestCrates} `{LockCrates} `{LayoutJson} `{MetadataJson}
  `{Bincode DiskInstallStateFile} `{Bincode GraphSnapshot} `{Bincode StoreResidencyIndex} `{ForeignFormats} `{GitBranch}
  (canonicalize : string -> result string string) (fs : FileSystem).

(** ** [setup.rs] *)
Definition load_workspace_overrides (workspace : Workspace) : Result (gmap string string) :=
  overrides ← load_overrides_config fs (w_root workspace);
  let overrides := default ∅ overrides in
  match head (filter (fun project => path_eq (p_root project) (w_root workspace) = true) (w_projects workspace)) with
  | Some root_project => merge_manifest_overrides root_project overrides
  | None => Ok overrides
  end.

Definition prepare_workspace_install (workspace : Workspace) (include_dev : bool)
    (frozen_lockfile : FrozenLockfileMode) (strict_no_lockfile : bool) : Result WorkspaceInstallSetup :=
  let lockfile_path := path_push (w_root workspace) "snpm-lock.yaml" in
  let compatible_lockfile :=
    if negb (is_file fs lockfile_path) then detect_compatible_lockfile fs (w_root workspace) else None in
  if strict_no_lockfile && bool_decide (frozen_lockfile = ModeFrozen) && negb (is_file fs lockfile_path)
     && match compatible_lockfile with None => true | Some _ => false end
  then Err (LockfileError lockfile_path
         "frozen-lockfile requested but neither snpm-lock.yaml nor a supported compatible lockfile was found")
  else
    overrides ← load_workspace_overrides workspace;
    root_specs ← collect_workspace_root_specs_with_overrides canonicalize workspace include_dev overrides;
    let root_dependencies := optional root_specs ∪ required root_specs in
    Ok {| su_lockfile_path := lockfile_path;
          su_compatible_lockfile := compatible_lockfile;
          su_overrides := overrides;
          su_root_specs := root_specs;
          su_root_dependencies := root_dependencies;
          su_root_protocols := workspace_root_protocols root_dependencies;
          su_optional_root_names := dom (optional root_specs) |}.

(** ** [resolution/scenario.rs] *)
Definition workspace_from_graph (workspace : Workspace) (config : SnpmConfig) (graph : ResolutionGraph)
    (force : bool) (existing_lockfile : option Lockfile) (lockfile_checked : bool)
    (cached_layout_valid : option bool) : WorkspaceScenarioArtifacts :=
  let artifacts scenario cache_check :=
    {| wa_scenario := scenario; wa_existing_lockfile := existing_lockfile; wa_graph := Some graph;
       wa_cache_check := cache_check; wa_lockfile_checked := lockfile_checked |} in
  match build_workspace_integrity_state fs workspace graph with
  | Err _ => artifacts Cold None
  | Ok integrity_state =>
      let layout_valid := match cached_layout_valid with
                          | Some valid => valid
                          | None => check_workspace_layout_state fs config workspace graph true
                          end in
      if negb force && check_integrity_path fs (path_push (w_root workspace) "node_modules") integrity_state
         && layout_valid
      then artifacts Hot None
      else
        let cache_check := check_store_cache fs config graph in
        if existsb (fun package => is_empty (r_tarball package)) (missing cache_check) then artifacts Cold None
        else match missing cache_check with
             | [] => artifacts WarmLinkOnly (Some cache_check)
             | _ => artifacts WarmPartialCache (Some cache_check)
             end
  end.

Definition detect_workspace_scenario_early (workspace : Workspace) (lockfile_path : string)
    (compatible_lockfile : option CompatibleLockfile) (config : SnpmConfig) (frozen_lockfile : FrozenLockfileMode)
    (force : bool) (required_root optional_root : gmap string string) : WorkspaceScenarioArtifacts :=
  if decide (frozen_lockfile = ModeNo \/ frozen_lockfile = ModeFix) then artifacts_cold false
  else if negb (is_file fs lockfile_path) && match compatible_lockfile with None => true | Some _ => false end
  then artifacts_cold false
  else
    let source_path := lockfile_source_path fs lockfile_path compatible_lockfile in
    match source_path ← source_path;
          load_workspace_install_state fs config workspace source_path required_root optional_root true with
    | Some state =>
        if ci_root_specs_matches state
        then workspace_from_graph workspace config (ci_graph state) force None true (Some (ci_layout_valid state))
        else {| wa_scenario := Cold; wa_existing_lockfile := None; wa_graph := Some (ci_graph state);
                wa_cache_check := None; wa_lockfile_checked := true |}
    | None =>
        match snapshot ← (source_path ← source_path; load_graph_snapshot fs (w_root workspace) source_path);
              if matches_root_specs snapshot required_root optional_root then Some snapshot else None with
        | Some snapshot => workspace_from_graph workspace config (lo_graph snapshot) force None true None
        | None =>
            match read_existing_lockfile canonicalize fs lockfile_path compatible_lockfile config with
            | Err _ => artifacts_cold false
            | Ok existing =>
                let graph := Lockfile.Graph.to_graph existing in
                if negb (root_specs_match existing required_root optional_root)
                then {| wa_scenario := Cold; wa_existing_lockfile := Some existing; wa_graph := Some graph;
                        wa_cache_check := None; wa_lockfile_checked := true |}
                else workspace_from_graph workspace config graph force (Some existing) true None
            end
        end
    end.

(** ** [plan.rs] *)
Definition read_workspace_lockfile_for_fix (setup : WorkspaceInstallSetup) (config : SnpmConfig) : Result Lockfile :=
  read_existing_lockfile canonicalize fs (su_lockfile_path setup) (su_compatible_lockfile setup) config.

Definition fix_artifacts (setup : WorkspaceInstallSetup) (config : SnpmConfig) : WorkspaceScenarioArtifacts :=
  let existing_lockfile := result_ok (read_workspace_lockfile_for_fix setup config) in
  {| wa_scenario := Cold; wa_existing_lockfile := existing_lockfile;
     wa_graph := Lockfile.Graph.to_graph <$> existing_lockfile; wa_cache_check := None;
     wa_lockfile_checked := bool_decide (is_Some existing_lockfile) |}.

Definition plan_workspace_install (config : SnpmConfig) (workspace : Workspace) (include_dev : bool)
    (frozen_lockfile : FrozenLockfileMode) (strict_no_lockfile force : bool) : Result WorkspaceInstallPlan :=
  setup ← prepare_workspace_install workspace include_dev frozen_lockfile strict_no_lockfile;
  let source_path := plan_source_path fs (su_lockfile_path setup) (su_compatible_lockfile setup) in
  let artifacts :=
    if decide (frozen_lockfile = ModeFix) then fix_artifacts setup config
    else detect_workspace_scenario_early workspace (su_lockfile_path setup) (su_compatible_lockfile setup) config
           frozen_lockfile force (required (su_root_specs setup)) (optional (su_root_specs setup)) in
  '(scenario, existing_lockfile) ←
    validate_lockfile_matches_manifest frozen_lockfile source_path strict_no_lockfile (wa_scenario artifacts)
      (wa_existing_lockfile artifacts) (required (su_root_specs setup)) (optional (su_root_specs setup))
      (wa_lockfile_checked artifacts);
  let setup :=
    if decide (frozen_lockfile = ModeFix)
    then set_pinned_roots (pinned_workspace_root_dependencies_for_fix setup existing_lockfile) setup
    else setup in
  Ok {| wp_setup := setup; wp_scenario := scenario; wp_scenario_graph := wa_graph artifacts;
        wp_scenario_cache_check := wa_cache_check artifacts |}.
End workspace.

(** ** What the plan means *)
Section workspace_correct.
Context `{SemverCrate} `{DigestCrates} `{LockCrates} `{LayoutJson} `{MetadataJson}
  `{Bincode DiskInstallStateFile} `{Bincode GraphSnapshot} `{Bincode StoreResidencyIndex} `{ForeignFormats} `{GitBranch}
  (canonicalize : string -> result string string) (fs : FileSystem).
Context (config : SnpmConfig) (workspace : Workspace).

Definition workspace_layout_ok (source_path : option string) (required_root optional_root : gmap string string)
    (graph : ResolutionGraph) : Prop :=
  (exists path state, source_path = Some path /\
     load_workspace_install_state fs config workspace path required_root optional_root true = Some state /\
     ci_graph state = graph /\ ci_layout_valid state = true) \/
  check_workspace_layout_state fs config workspace graph true = true.

(** What each scenario claims about a graph. *)
Definition scenario_claims (result : WorkspaceScenarioArtifacts) (force : bool) (layout : ResolutionGraph -> Prop)
  : Prop :=
  exists graph, wa_graph result = Some graph /\
    match wa_scenario result with
    | Hot => force = false /\ layout graph /\ exists state, build_workspace_integrity_state fs workspace graph = Ok state /\
        check_integrity_path fs (path_push (w_root workspace) "node_modules") state = true
    | WarmLinkOnly => missing (check_store_cache fs config graph) = []
    | WarmPartialCache => missing (check_store_cache fs config graph) <> [] /\
        forall package, package ∈ missing (check_store_cache fs config graph) -> is_empty (r_tarball package) = false
    | Cold => True
    end.

Lemma workspace_from_graph_spec graph force existing checked cached (layout : ResolutionGraph -> Prop) :
  match cached with
  | Some valid => valid = true -> layout graph
  | None => check_workspace_layout_state fs config workspace graph true = true -> layout graph
  end ->
  let result := workspace_from_graph fs workspace config graph force existing checked cached in
  wa_graph result = Some graph /\ wa_existing_lockfile result = existing /\ wa_lockfile_checked result = checked /\
  scenario_claims result force layout.
Proof.
  intros Hlayout. unfold workspace_from_graph, scenario_claims.
  destruct (build_workspace_integrity_state fs workspace graph) as [state|] eqn:Hbuild; cbn zeta; [|by cbn; eauto 10].
  destruct (negb force && _ && _) eqn:Hhot.
  - apply andb_true_iff in Hhot as [[Hf Hi]%andb_true_iff Hl]. cbn. split_and!; [done..|]. exists graph.
    split_and!; [done|by destruct force|by destruct cached; auto|]. by exists state.
  - destruct (existsb _ _) eqn:Hex; [by cbn; eauto 10|]. destruct (missing (check_store_cache fs config graph)) eqn:Hm.
    + cbn. eauto 10.
    + cbn. split_and!; [done..|]. exists graph. rewrite Hm. split_and!; [done..|].
      rewrite existsb_false in Hex. exact Hex.
Qed.

(** A graph that answers the manifests gives a scenario whose claims hold. *)
Lemma workspace_from_graph_safe lockfile_path compatible required_root optional_root graph force existing cached :
  graph_answers canonicalize fs (w_root workspace) config lockfile_path compatible required_root optional_root graph ->
  (cached = Some true ->
     workspace_layout_ok (lockfile_source_path fs lockfile_path compatible) required_root optional_root graph) ->
  let result := workspace_from_graph fs workspace config graph force existing true cached in
  scenario_claims result force
    (workspace_layout_ok (lockfile_source_path fs lockfile_path compatible) required_root optional_root) /\
  forall graph', wa_graph result = Some graph' ->
    graph_answers canonicalize fs (w_root workspace) config lockfile_path compatible required_root optional_root graph'.
Proof.
  intros Hans Hcached result.
  destruct (workspace_from_graph_spec graph force existing true cached
    (workspace_layout_ok (lockfile_source_path fs lockfile_path compatible) required_root optional_root))
    as (Hgraph & _ & _ & Hclaims).
  - destruct cached as [valid|]; [intros ->; by apply Hcached|by right].
  - split; [exact Hclaims|]. intros graph'. unfold result. rewrite Hgraph. by intros [= <-].
Qed.

(** The same for the graph of a lockfile that had to be read. *)
Lemma early_from_lockfile lockfile_path compatible force required_root optional_root :
  let result :=
    match read_existing_lockfile canonicalize fs lockfile_path compatible config with
    | Err _ => artifacts_cold false
    | Ok existing =>
        let graph := Lockfile.Graph.to_graph existing in
        if negb (root_specs_match existing required_root optional_root)
        then {| wa_scenario := Cold; wa_existing_lockfile := Some existing; wa_graph := Some graph;
                wa_cache_check := None; wa_lockfile_checked := true |}
        else workspace_from_graph fs workspace config graph force (Some existing) true None
    end in
  wa_scenario result <> Cold ->
  scenario_claims result force
    (workspace_layout_ok (lockfile_source_path fs lockfile_path compatible) required_root optional_root) /\
  forall graph, wa_graph result = Some graph ->
    graph_answers canonicalize fs (w_root workspace) config lockfile_path compatible required_root optional_root graph.
Proof.
  cbn zeta. destruct (read_existing_lockfile _ _ _ _ _) as [existing|] eqn:Hread; [|done].
  destruct (root_specs_match _ _ _) eqn:Hmatch; [|done]. cbn [negb]. intros _.
  apply workspace_from_graph_safe; [|done]. right. by exists existing.
Qed.

(** C21: Skipping is safe in a workspace.  Before a single package is resolved, a
    scenario other than the full installation is chosen only when the lockfile is
    used, for a graph that answers what all members ask for; the installation is
    called complete only if it was not forced, the file in the root's
    [node_modules] names that very graph and patches, and the layout of every
    member is as expected; linking alone is chosen only if every package is in the
    store, and a partial download only if every missing package has an address. *)
Theorem workspace_scenario_safe lockfile_path compatible mode force required_root optional_root :
  let result := detect_workspace_scenario_early canonicalize fs workspace lockfile_path compatible config mode force
                  required_root optional_root in
  wa_scenario result <> Cold ->
  (mode <> ModeNo /\ mode <> ModeFix) /\
  scenario_claims result force
    (workspace_layout_ok (lockfile_source_path fs lockfile_path compatible) required_root optional_root) /\
  forall graph, wa_graph result = Some graph ->
    graph_answers canonicalize fs (w_root workspace) config lockfile_path compatible required_root optional_root graph.
Proof.
  intros result. subst result. unfold detect_workspace_scenario_early.
  case_decide as Hmode; [done|]. destruct (negb _ && _); [done|].
  intros Hncold. split; [tauto|]. revert Hncold.
  destruct (lockfile_source_path fs lockfile_path compatible) as [source|] eqn:Hsource; cbn [mbind option_bind].
  - destruct (load_workspace_install_state _ _ _ _ _ _ _) as [state|] eqn:Hload.
    + destruct (ci_root_specs_matches state) eqn:Hm; [|done]. intros _. rewrite <- Hsource.
      apply workspace_from_graph_safe.
      * left. unfold load_workspace_install_state in Hload.
        apply bind_Some in Hload as (file & Hfile & [= <-]). cbn in Hm |- *.
        exists source, (gs_root_specs_hash (is_graph_snapshot file)).
        split_and!; [done| |by apply String.eqb_eq].
        unfold load_graph_snapshot, load_graph_snapshot_from_install_state. by rewrite Hfile.
      * intros [= Hv]. left. by exists source, state.
    + destruct (load_graph_snapshot fs (w_root workspace) source) as [[snap hash]|] eqn:Hsnap; cbn [mbind option_bind].
      * unfold matches_root_specs. cbn [lo_root_specs_hash lo_graph].
        destruct (hash == _) eqn:Hh.
        -- intros _. cbn [lo_graph]. rewrite <- Hsource. apply workspace_from_graph_safe; [|done].
           left. exists source, hash. split_and!; [done|done|by apply String.eqb_eq].
        -- rewrite <- Hsource. apply early_from_lockfile.
      * rewrite <- Hsource. apply early_from_lockfile.
  - rewrite <- Hsource. apply early_from_lockfile.
Qed.
(** The snapshot of an earlier lockfile, when it is for these requests. *)
Definition snapshot_answers (source : string) (required_root optional_root : gmap string string) : bool :=
  match load_graph_snapshot fs (w_root workspace) source with
  | Some snapshot => matches_root_specs snapshot required_root optional_root
  | None => false
  end.

(** The lockfile itself is for other requests, or cannot be read when it must be. *)
Definition lockfile_refused (setup : WorkspaceInstallSetup) (strict : bool) : bool :=
  match read_existing_lockfile canonicalize fs (su_lockfile_path setup) (su_compatible_lockfile setup) config with
  | Ok existing => negb (root_specs_match existing (required (su_root_specs setup)) (optional (su_root_specs setup)))
  | Err _ => strict
  end.

Lemma workspace_from_graph_checked graph force existing cached :
  wa_lockfile_checked (workspace_from_graph fs workspace config graph force existing true cached) = true /\
  wa_existing_lockfile (workspace_from_graph fs workspace config graph force existing true cached) = existing.
Proof.
  by destruct (workspace_from_graph_spec graph force existing true cached (fun _ => True)) as (_ & ? & ? & _);
    [destruct cached|split].
Qed.

Lemma validate_checked mode path strict scenario lockfile required_root optional_root :
  match lockfile with Some existing => root_specs_match existing required_root optional_root = true | None => True end ->
  validate_lockfile_matches_manifest mode path strict scenario lockfile required_root optional_root true =
  Ok (scenario, lockfile).
Proof.
  intros Hm. unfold validate_lockfile_matches_manifest. rewrite andb_false_r.
  destruct lockfile as [existing|]; [by rewrite Hm|done].
Qed.

(** One case of what follows: the artifacts are known, and so is whether planning fails. *)
Ltac frozen_case :=
  try (match goal with |- context [workspace_from_graph ?a ?b ?c ?d ?e ?f true ?g] =>
         destruct (workspace_from_graph_checked d e f g) as [-> ->] end; rewrite validate_checked by done);
  unfold validate_lockfile_matches_manifest; cbn;
  try match goal with E : root_specs_match _ _ _ = _ |- _ => rewrite E end; cbn;
  try match goal with b : bool |- context [if ?b && _ && _ then _ else _] => destruct b; cbn end;
  (split; [intros [? ?]|intros (? & ? & ?)]; naive_solver).

(** When a frozen installation of a workspace refuses.  Once the members'
    requests are collected and a lockfile exists, planning fails exactly when
    there is neither a saved state nor a snapshot of that lockfile for these
    requests, and the lockfile asks for something else (or, if strict, cannot be
    read).  A saved state for OTHER requests therefore does not make it fail: the
    plan is then to resolve everything again. *)
Theorem workspace_frozen_outcome include_dev strict force setup source :
  prepare_workspace_install canonicalize fs workspace include_dev ModeFrozen strict = Ok setup ->
  lockfile_source_path fs (su_lockfile_path setup) (su_compatible_lockfile setup) = Some source ->
  let result := plan_workspace_install canonicalize fs config workspace include_dev ModeFrozen strict force in
  let required_root := required (su_root_specs setup) in
  let optional_root := optional (su_root_specs setup) in
  let saved := load_workspace_install_state fs config workspace source required_root optional_root true in
  ((exists error, result = Err error) <->
   saved = None /\ snapshot_answers source required_root optional_root = false /\ lockfile_refused setup strict = true) /\
  (forall state, saved = Some state -> ci_root_specs_matches state = false ->
   exists plan, result = Ok plan /\ wp_setup plan = setup /\ wp_scenario plan = Cold).
Proof.
  intros Hprep Hsource. cbn zeta. unfold plan_workspace_install. rewrite Hprep. cbn [mbind result_bind].
  rewrite !(decide_False (P := ModeFrozen = ModeFix)) by done.
  unfold detect_workspace_scenario_early. rewrite decide_False by (by intros []).
  assert (negb (is_file fs (su_lockfile_path setup)) &&
          match su_compatible_lockfile setup with None => true | Some _ => false end = false) as ->.
  { revert Hsource. unfold lockfile_source_path. destruct (is_file _ _); [done|]. by destruct (su_compatible_lockfile setup). }
  rewrite Hsource. cbn [mbind option_bind].
  destruct (load_workspace_install_state _ _ _ _ _ _ _) as [state|].
  { destruct (ci_root_specs_matches state) eqn:Hm.
    - split; [frozen_case|by intros ? [= <-]; rewrite Hm].
    - cbn. rewrite andb_false_r. split; [|by eauto]. split; [by intros [? ?]|by intros [? _]]. }
  split; [|done]. unfold snapshot_answers, lockfile_refused.
  destruct (load_graph_snapshot fs (w_root workspace) source) as [snapshot|]; cbn [mbind option_bind];
    [destruct (matches_root_specs snapshot _ _)|].
  { frozen_case. }
  all: destruct (read_existing_lockfile _ _ _ _ _) as [existing|];
    [destruct (root_specs_match existing _ _) eqn:Hmatch; cbn [negb]|].
  all: frozen_case.
Qed.
End workspace_correct.

(** ** Concrete inputs: the workspace whose only member is the project of [PlanDemo] *)
Module WorkspaceDemo.
Import PlanDemo.
#[local] Existing Instance SharingDemo.checksum.
#[local] Existing Instance PlanDemo.formats.
#[local] Existing Instance PlanDemo.no_git.
#[local] Existing Instance PlanDemo.no_layout_json.
#[local] Existing Instance PlanDemo.no_metadata.
#[local] Existing Instance PlanDemo.lock_crates.

Definition workspace : Workspace := {|
  w_root := "/p"; w_projects := [project];
  w_config := {| wc_packages := []; wc_catalog := ∅; wc_catalogs := ∅; wc_only_built_dependencies := [];
                 wc_ignored_built_dependencies := []; wc_disable_global_virtual_store_for_packages := None;
                 wc_hoisting := None |} |}.

Definition no_setup : WorkspaceInstallSetup := {|
  su_lockfile_path := ε; su_compatible_lockfile := None; su_overrides := ∅;
  su_root_specs := {| required := ∅; optional := ∅ |}; su_root_dependencies := ∅; su_root_protocols := ∅;
  su_optional_root_names := ∅ |}.
Definition setup (include_dev : bool) : WorkspaceInstallSetup :=
  default no_setup (result_ok (prepare_workspace_install Ok fs workspace include_dev ModeFrozen false)).

(** The lockfile asks for [react] and [jest]: all members' requests, less the
    development ones when they are left out. *)
Example specs : required (su_root_specs (setup true)) = {["react" := "^18.0.0"; "jest" := "^29.0.0"]}.
Proof. apply (bool_decide_unpack _). vm_compute. exact I. Qed.

Section fresh.
#[local] Existing Instance PlanDemo.no_bincode.

(** Nothing is installed, and the (empty) graph of the lockfile is in the store. *)
Lemma workspace_scenario_safe_witness :
  wa_scenario (detect_workspace_scenario_early Ok fs workspace "/p/snpm-lock.yaml" None config_for_tests ModePrefer
                 false (required (su_root_specs (setup true))) ∅) = WarmLinkOnly /\
  (ModePrefer <> ModeNo /\ ModePrefer <> ModeFix).
Proof.
  split; [vm_refl|].
  apply (workspace_scenario_safe Ok fs config_for_tests workspace "/p/snpm-lock.yaml" None ModePrefer false
           (required (su_root_specs (setup true))) ∅). vm_compute. done.
Defined.

(** Without a saved state the frozen installation for production is refused. *)
Example frozen_refused :
  match plan_workspace_install Ok fs config_for_tests workspace false ModeFrozen false false with
  | Err _ => true | Ok _ => false end = true.
Proof. vm_refl. Qed.
End fresh.

Section saved.
(** The state of an installation for other requests, with the same lockfile. *)
Definition saved_state : DiskInstallStateFile := from_memory {|
  is_version := INSTALL_STATE_VERSION;
  is_graph_snapshot := {|
    gs_source := default {| ss_path := ε; ss_length := 0; ss_modified_seconds := 0; ss_modified_nanoseconds := 0 |}
                   (result_ok (source_capture fs "/p/snpm-lock.yaml"));
    gs_root_specs_hash := root_specs_hash {["vue" := "^3.0.0"]} ∅;
    gs_graph := Lockfile.Graph.to_graph lockfile |};
  is_layout := {| ls_layout_hash := ε; ls_checks := [] |} |}.
#[local] Instance one_state : Bincode DiskInstallStateFile := {|
  bincode _ := Err "unsupported"; unbincode b := if b == "state" then Ok saved_state else Err "unsupported" |}.
#[local] Instance no_snapshot : Bincode GraphSnapshot := {| bincode _ := Err "unsupported"; unbincode _ := Err "unsupported" |}.
#[local] Instance no_index : Bincode StoreResidencyIndex := {| bincode _ := Err "unsupported"; unbincode _ := Err "unsupported" |}.
Definition fs_saved : FileSystem := {|
  fs_lstat := fs_lstat fs; fs_stat := fs_stat fs;
  fs_bytes p := if p == "/p/.snpm-install-state" then Ok "state" else fs_bytes fs p;
  fs_read_link := fs_read_link fs; fs_entries := fs_entries fs |}.

(** With it, the same refused lockfile is not looked at: everything is resolved again. *)
Lemma workspace_frozen_outcome_witness :
  lockfile_refused Ok fs_saved config_for_tests (setup false) false = true /\
  exists plan, plan_workspace_install Ok fs_saved config_for_tests workspace false ModeFrozen false false = Ok plan /\
    wp_setup plan = setup false /\ wp_scenario plan = Cold.
Proof.
  split; [vm_refl|].
  apply (workspace_frozen_outcome Ok fs_saved config_for_tests workspace false false false (setup false)
           "/p/snpm-lock.yaml") with
    (state := {| ci_graph := Lockfile.Graph.to_graph lockfile; ci_root_specs_matches := false; ci_layout_valid := false |});
    vm_refl.
Defined.
End saved.
End WorkspaceDemo.
