(* ===== verification/LinkFs.v ===== *)
(** * Links, clones and copies ([linker/fs/], [linker/bins/], [copying.rs], [patch/apply/target.rs])

    The primitives of linking over the file system of [World]: which of clone,
    hard link, symbolic link and copy is tried, what the process remembers of
    failures, how a directory of the store is put in place, and how launchers are
    written.  Loops that run in parallel are run in order here; a directory is
    walked to the depth the file system has ([fs_depth]). *)
From S2P Require Import Prelude.
From S2P Require Import BTree.
From S2P Require Import Text.
From S2P Require Import Errors.
From S2P Require Import Types.
From S2P Require Import Paths.
From S2P Require Import Crates.
From S2P Require Import Peers.
From S2P Require Import Config.
From S2P Require Import Linker.
From S2P Require Import Residency.
From S2P Require Import World.

(** ** [linker/fs/capabilities.rs]

    The source has each function twice, for clones and for hard links. *)
Inductive Primitive := PReflink | PHardlink.

Definition probe_of (p : Primitive) (caps : Capabilities) : Probe :=
  match p with PReflink => cap_reflink caps | PHardlink => cap_hardlink caps end.
Definition set_probe (p : Primitive) (probe : Probe) (caps : Capabilities) : Capabilities :=
  match p with
  | PReflink => {| cap_reflink := probe; cap_hardlink := cap_hardlink caps |}
  | PHardlink => {| cap_reflink := cap_reflink caps; cap_hardlink := probe |}
  end.
Definition any_failure (p : Primitive) (memory : LinkMemory) : bool :=
  match p with PReflink => lm_any_reflink_failure memory | PHardlink => lm_any_hardlink_failure memory end.
Definition note_failure (p : Primitive) (memory : LinkMemory) : LinkMemory := {|
  lm_any_reflink_failure := match p with PReflink => true | PHardlink => lm_any_reflink_failure memory end;
  lm_any_hardlink_failure := match p with PReflink => lm_any_hardlink_failure memory | PHardlink => true end;
  lm_cache := lm_cache memory; lm_auto_backend := lm_auto_backend memory |}.
Definition untested : Capabilities := {| cap_reflink := Untested; cap_hardlink := Untested |}.
Definition remember (p : Primitive) (key : N * N) (probe : Probe) (memory : LinkMemory) : LinkMemory := {|
  lm_any_reflink_failure := lm_any_reflink_failure memory;
  lm_any_hardlink_failure := lm_any_hardlink_failure memory;
  lm_cache := <[key := set_probe p probe (default untested (lm_cache memory !! key))]> (lm_cache memory);
  lm_auto_backend := lm_auto_backend memory |}.

(** [*_likely] and [record_*_outcome], for the pair of devices that was found. *)
Definition likely (p : Primitive) (memory : LinkMemory) (key : option (N * N)) : bool :=
  if negb (any_failure p memory) then true else
  match key with
  | Some key => match lm_cache memory !! key with
                | Some caps => negb (bool_decide (probe_of p caps = Incapable))
                | None => true
                end
  | None => true
  end.

Definition record_outcome (p : Primitive) (key : option (N * N)) (succeeded : bool) (memory : LinkMemory) : LinkMemory :=
  if succeeded && negb (any_failure p memory) then memory else
  match key with
  | None => memory
  | Some key =>
      let memory := if succeeded then memory else note_failure p memory in
      remember p key (if succeeded then Capable else Incapable) memory
  end.

(** The [bin] field of a manifest, as [serde_json] reads it. *)
Class BinManifestJson := { bin_from_str : string -> result string (option BinField) }.

Section links.
Context `{FsWorld W}.

(** The device of the deepest ancestor that exists. *)
Fixpoint device_of_first (w : W) (candidates : list string) : option N :=
  match candidates with
  | [] => None
  | candidate :: candidates =>
      match fs_device w candidate with
      | Ok device => Some device
      | Err error => if error_not_found error then device_of_first w candidates else None
      end
  end.
Definition device_id_for_create (w : W) (path : string) : option N := device_of_first w (ancestors path).
Definition key_for (w : W) (from to : string) : option (N * N) :=
  source ← result_ok (fs_device w from); dest ← device_id_for_create w to; Some (source, dest).

Definition seems_possible (p : Primitive) (from to : string) (w : W) : bool :=
  likely p (link_memory w) (key_for w from to).
Definition record (p : Primitive) (from to : string) (succeeded : bool) : Eff W unit := fun w =>
  (Ok tt, put_link_memory (record_outcome p (key_for w from to) succeeded (link_memory w)) w).

(** ** [linker/fs/link.rs]: one file *)
Definition primitive_op (p : Primitive) : string -> string -> IoOp W :=
  match p with PReflink => fs_reflink | PHardlink => fs_hard_link end.

(** [try_reflink], [try_hard_link] *)
Definition try_primitive (p : Primitive) (from to : string) : Eff W bool :=
  w ← world;
  if negb (seems_possible p from to w) then mret false else
  ok ← io_try (primitive_op p from to);
  _ ← record p from to ok;
  mret ok.

Definition ensure_parent_dir (path : string) : Eff W unit :=
  match parent path with Some parent => create_dir_all parent | None => mret tt end.

Definition copy_file (from to : string) : Eff W unit := _ ← ensure_parent_dir to; io_write to (fs_copy from to).

Definition set_auto_backend (backend : LinkBackend) : Eff W LinkBackend := fun w =>
  let memory := link_memory w in
  (Ok backend, put_link_memory {| lm_any_reflink_failure := lm_any_reflink_failure memory;
    lm_any_hardlink_failure := lm_any_hardlink_failure memory; lm_cache := lm_cache memory;
    lm_auto_backend := Some backend |} w).

(** Whether the primitive works here; what it made is removed again. *)
Definition probe_primitive (p : Primitive) (from to : string) : Eff W bool :=
  w ← world;
  ok ← (if seems_possible p from to w then io_try (primitive_op p from to) else mret false);
  _ ← (if ok : bool then io_ignore (fs_remove_file to) else mret tt);
  _ ← record p from to ok;
  mret ok.

(** [get_or_init]: decided once per process. *)
Definition resolve_auto_backend (from to : string) : Eff W LinkBackend :=
  w ← world;
  match lm_auto_backend (link_memory w) with
  | Some backend => mret backend
  | None =>
      reflinks ← probe_primitive PReflink from to;
      if reflinks : bool then set_auto_backend Reflink else
      hardlinks ← probe_primitive PHardlink from to;
      if hardlinks : bool then set_auto_backend Hardlink else
      symlinks ← io_try (fs_symlink from to);
      if symlinks : bool then _ ← io_ignore (fs_remove_file to); set_auto_backend Symlink
      else set_auto_backend Copy
  end.

Definition is_auto (backend : LinkBackend) : bool := match backend with LinkAuto => true | _ => false end.

Definition link_file (config : SnpmConfig) (from to : string) : Eff W unit :=
  let requested_backend := c_link_backend config in
  backend ← (if is_auto requested_backend then resolve_auto_backend from to else mret requested_backend);
  match backend with
  | LinkAuto => lift (Err (Internal "internal error: entered unreachable code"))
  | Reflink =>
      ok ← try_primitive PReflink from to;
      if ok : bool then mret tt else
      hard ← (if is_auto requested_backend then try_primitive PHardlink from to else mret false);
      if hard : bool then mret tt else copy_file from to
  | Hardlink => ok ← try_primitive PHardlink from to; if ok : bool then mret tt else copy_file from to
  | Symlink => ok ← io_try (fs_symlink from to); if ok : bool then mret tt else copy_file from to
  | Copy => copy_file from to
  end.

(** [copying.rs] *)
Definition clone_or_copy_file (from to : string) : Eff W (result string unit) :=
  cloned ← try_primitive PReflink from to;
  if cloned : bool then mret (Ok tt) else eff_of (fs_copy from to).

(** ** Walking a directory of the store *)
(** A walk that is cut off by its depth. *)
Definition too_deep (source : string) : SnpmError := Io source "the directories are nested too deeply".

Definition refuse_symlink (from verb : string) : SnpmError :=
  Io from ("refusing to " +:+ verb +:+ " symlink from package store").

(** The entries of a directory, each with its type. *)
Definition dir_entries (fs : FileSystem) (source : string) : Result (list (result string (string * result string FileType))) :=
  map_err (ReadFile source) (fs_entries fs source).
Definition dir_entry (source : string) (entry : result string (string * result string FileType))
  : Result (string * FileType) :=
  '(name, file_type) ← map_err (ReadFile source) entry;
  file_type ← map_err (ReadFile (path_push source name)) file_type;
  Ok (name, file_type).

Definition LinkOps : Type := list string * list (string * string).

Fixpoint collect_link_ops (fuel : nat) (fs : FileSystem) (source dest : string) (ops : LinkOps) : Result LinkOps :=
  match fuel with
  | O => Err (too_deep source)
  | S fuel =>
      entries ← dir_entries fs source;
      try_fold (fun ops entry =>
        '(name, file_type) ← dir_entry source entry;
        let from := path_push source name in
        let to := path_push dest name in
        match file_type with
        | TSymlink => Err (refuse_symlink from "link")
        | TDir => collect_link_ops fuel fs from to (ops.1 ++ [to], ops.2)
        | _ => Ok (ops.1, ops.2 ++ [(from, to)])
        end) ops entries
  end.

Section dirs.
Context `{MetadataJson} `{Target}.

Definition indexed_link_ops (fs : FileSystem) (source dest : string) : option LinkOps :=
  shape ← read_package_filesystem_shape_lossy fs source;
  Some (dest :: (path_push dest <$> directories shape),
        (fun relative => (path_push source relative, path_push dest relative)) <$> shape_files shape).

(** [cfg!(any(target_os = "macos", ...))] *)
Definition is_apple : bool := one_of target_os ["macos"; "ios"; "tvos"; "watchos"].

Definition should_try_clone_store_package_dir (config : SnpmConfig) (source : string) : bool :=
  match c_link_backend config with LinkAuto | Reflink => true | _ => false end
  && path_starts_with source (packages_dir config).

Definition try_clone_store_package_dir (config : SnpmConfig) (source dest : string) : Eff W bool :=
  if negb is_apple then mret false else
  if negb (should_try_clone_store_package_dir config source) then mret false else
  w ← world;
  if negb (seems_possible PReflink source dest w) then mret false else
  _ ← ensure_parent_dir dest;
  ok ← io_try (fs_reflink source dest);
  _ ← record PReflink source dest ok;
  mret ok.

Definition link_ops (fs : FileSystem) (depth : nat) (source dest : string) : Result LinkOps :=
  match indexed_link_ops fs source dest with
  | Some ops => Ok ops
  | None => collect_link_ops depth fs source dest ([dest], [])
  end.

Definition link_dir (config : SnpmConfig) (source dest : string) : Eff W unit :=
  cloned ← try_clone_store_package_dir config source dest;
  if cloned : bool then mret tt else
  w ← world;
  ops ← lift (link_ops (view w) (fs_depth w source) source dest);
  _ ← eff_fold (fun (_ : unit) directory => create_dir_all directory) tt ops.1;
  eff_fold (fun (_ : unit) e => link_file config e.1 e.2) tt ops.2.

(** ** [linker/fs/copy.rs]: what is copied, in order; the copy is never inside
    the source *)
Inductive CopyStep := MakeDir (path : string) | CopyFile (from to : string) | Refuse (error : SnpmError).

Definition shape_steps (source dest : string) (shape : PackageFilesystemShape) : list CopyStep :=
  (MakeDir ∘ path_push dest <$> directories shape) ++
  mjoin ((fun file => let to := path_push dest file in
                      option_list (MakeDir <$> parent to) ++ [CopyFile (path_push source file) to]) <$> shape_files shape).

Fixpoint copy_steps (fuel : nat) (fs : FileSystem) (source dest : string) : list CopyStep :=
  match fuel with
  | O => [Refuse (too_deep source)]
  | S fuel =>
      MakeDir dest ::
      match read_package_filesystem_shape_lossy fs source with
      | Some shape => shape_steps source dest shape
      | None =>
          match dir_entries fs source with
          | Err error => [Refuse error]
          | Ok entries =>
              mjoin ((fun entry =>
                match dir_entry source entry with
                | Err error => [Refuse error]
                | Ok (name, file_type) =>
                    let from := path_push source name in
                    let to := path_push dest name in
                    match file_type with
                    | TSymlink => [Refuse (refuse_symlink from "copy")]
                    | TDir => copy_steps fuel fs from to
                    | _ => [CopyFile from to]
                    end
                end) <$> entries)
          end
      end
  end.

Definition copy_step (_ : unit) (step : CopyStep) : Eff W unit :=
  match step with
  | MakeDir path => create_dir_all path
  | CopyFile from to => copied ← clone_or_copy_file from to; lift (map_err (WriteFile to) copied)
  | Refuse error => lift (Err error)
  end.

Definition copy_dir (source dest : string) : Eff W unit :=
  w ← world; eff_fold copy_step tt (copy_steps (fs_depth w source) (view w) source dest).

(** [patch/apply/target.rs] *)
Definition materialize_patch_target (target_dir store_path : string) : Eff W unit :=
  w ← world;
  _ ← match fs_lstat (view w) target_dir with
      | Ok metadata =>
          io_error (Io target_dir)
            (if decide (st_type metadata = TDir) then fs_remove_dir_all target_dir else fs_remove_file target_dir)
      | Err _ => mret tt
      end;
  _ ← ensure_parent_dir target_dir;
  copy_dir store_path target_dir.
End dirs.

(** ** [linker/bins/writer.rs] *)
Definition remove_existing_bin_entry (path : string) : Eff W unit :=
  w ← world;
  match fs_lstat (view w) path with
  | Err _ => mret tt
  | Ok metadata =>
      io_write path (if decide (st_type metadata = TDir) then fs_remove_dir_all path else fs_remove_file path)
  end.

(** [mode | ((mode & 0o444) >> 2)] *)
Definition executable_mode (mode : N) : N := N.lor mode (N.shiftr (N.land mode 292) 2).

Definition ensure_executable_bits (path : string) : Eff W unit :=
  w ← world;
  mode ← lift (map_err (ReadFile path) (fs_mode w path));
  if (executable_mode mode =? mode)%N then mret tt else io_write path (fs_set_mode path (executable_mode mode)).

Definition write_bin_link (target destination : string) : Eff W unit :=
  let fallback :=
    _ ← remove_existing_bin_entry destination;
    copied ← clone_or_copy_file target destination;
    _ ← lift (map_err (WriteFile destination) copied);
    ensure_executable_bits destination in
  linked ← eff_of (fs_symlink target destination);
  match linked with
  | Ok _ => mret tt
  | Err error =>
      if error_already_exists error then
        _ ← remove_existing_bin_entry destination;
        again ← io_try (fs_symlink target destination);
        if again : bool then mret tt else fallback
      else fallback
  end.

Definition create_bin_file (bin_dir name target : string) : Eff W unit :=
  let destination := path_push bin_dir name in
  _ ← ensure_parent_dir destination;
  w ← world;
  if negb (is_file (view w) target) then remove_existing_bin_entry destination else
  _ ← ensure_executable_bits target;
  w ← world;
  if symlink_is_correct (view w) destination target then mret tt else
  _ ← remove_existing_bin_entry destination;
  write_bin_link target destination.

(** ** [linker/bins/manifest.rs] *)
Definition link_bin_entries (pkg_path bin_dir pkg_name : string) (bin : BinField) : Eff W unit :=
  eff_fold (fun (_ : unit) e => create_bin_file bin_dir e.1 e.2) tt (bin_entries pkg_path pkg_name bin).

Definition link_known_bins (pkg_path bin_root pkg_name : string) (bin : BinField) : Eff W unit :=
  let bin_dir := path_push bin_root ".bin" in
  _ ← create_dir_all bin_dir;
  link_bin_entries pkg_path bin_dir pkg_name bin.

Section bins.
Context `{MetadataJson} `{BinManifestJson}.

Definition read_bin_definition (fs : FileSystem) (package_root : string) : Result (option BinField) :=
  match read_package_metadata_lossy fs package_root with
  | Some metadata => Ok (pm_bin metadata)
  | None =>
      let manifest_path := path_push package_root "package.json" in
      if negb (is_file fs manifest_path) then Ok None else
      data ← map_err (ReadFile manifest_path) (read_to_string fs manifest_path);
      map_err (ParseJson manifest_path) (bin_from_str data)
  end.

Definition link_bins (dest bin_root name : string) : Eff W unit :=
  w ← world;
  bin ← lift (read_bin_definition (view w) dest);
  match bin with Some bin => link_known_bins dest bin_root name bin | None => mret tt end.

Definition read_bin_definition_lossy (fs : FileSystem) (package_root : string) : option BinField :=
  result_ok (read_bin_definition fs package_root) ≫= id.

Definition link_bins_from_bundled_pkg (pkg_path bin_dir pkg_name : string) : Eff W unit :=
  w ← world;
  match read_bin_definition_lossy (view w) pkg_path with
  | Some bin => _ ← create_dir_all bin_dir; link_bin_entries pkg_path bin_dir pkg_name bin
  | None => mret tt
  end.

(** For the directory of global launchers: no [.bin] below it. *)
Definition link_bins_flat (dest bin_dir name : string) : Eff W unit :=
  w ← world;
  bin ← lift (read_bin_definition (view w) dest);
  match bin with
  | Some bin => _ ← create_dir_all bin_dir; link_bin_entries dest bin_dir name bin
  | None => mret tt
  end.

(** The launchers of a package whose [bin] field may be known. *)
Definition link_package_bins (dest bin_root name : string) (bin : option BinField) : Eff W unit :=
  match bin with
  | Some bin => link_known_bins dest bin_root name bin
  | None => link_bins dest bin_root name
  end.
End bins.
End links.

(** ** What the memory of link failures amounts to

    The flags and the table are an optimisation: nothing is written down before
    the first failure.  What they answer is what the last attempt did. *)
Record Attempt := { at_primitive : Primitive; at_key : option (N * N); at_succeeded : bool }.
Global Instance Primitive_eq_dec : EqDecision Primitive.
Proof. solve_decision. Defined.

Definition fresh_memory (backend : option LinkBackend) : LinkMemory := {|
  lm_any_reflink_failure := false; lm_any_hardlink_failure := false; lm_cache := ∅; lm_auto_backend := backend |}.
Definition after_attempts (memory : LinkMemory) (history : list Attempt) : LinkMemory :=
  foldl (fun memory a => record_outcome (at_primitive a) (at_key a) (at_succeeded a) memory) memory history.

(** The outcome of the last attempt of a primitive between two devices. *)
Definition last_outcome (p : Primitive) (key : N * N) (history : list Attempt) : option bool :=
  at_succeeded <$> last (filter (fun a => at_primitive a = p /\ at_key a = Some key) history).

(** What the memory holds of a pair of devices. *)
Definition remembers (p : Primitive) (key : N * N) (memory : LinkMemory) : Probe :=
  probe_of p (default untested (lm_cache memory !! key)).

(** Only what was written down once a failure was seen. *)
Definition remembers_outcome (p : Primitive) (key : N * N) (memory : LinkMemory) (outcome : option bool) : Prop :=
  match remembers p key memory with
  | Incapable => outcome = Some false /\ any_failure p memory = true
  | _ => outcome <> Some false
  end /\ (any_failure p memory = false -> forall key, remembers p key memory = Untested).

Lemma probe_set p q probe caps : probe_of p (set_probe q probe caps) = if decide (p = q) then probe else probe_of p caps.
Proof. by destruct p, q. Qed.

Lemma remembers_remember p q key k probe memory :
  remembers p k (remember q key probe memory) = if decide (p = q /\ k = key) then probe else remembers p k memory.
Proof.
  unfold remembers, remember. cbn. destruct (decide (k = key)) as [-> |Hne].
  - rewrite lookup_insert_eq. cbn. rewrite probe_set. repeat case_decide; naive_solver.
  - rewrite lookup_insert_ne by done. case_decide; naive_solver.
Qed.

Lemma any_failure_remember p q key probe memory : any_failure p (remember q key probe memory) = any_failure p memory.
Proof. by destruct p. Qed.
Lemma any_failure_note p q memory : any_failure p (note_failure q memory) = bool_decide (p = q) || any_failure p memory.
Proof. by destruct p, q. Qed.
Lemma remembers_note p q key memory : remembers p key (note_failure q memory) = remembers p key memory.
Proof. done. Qed.

Lemma last_outcome_snoc p key history a :
  last_outcome p key (history ++ [a]) =
  if decide (at_primitive a = p /\ at_key a = Some key) then Some (at_succeeded a) else last_outcome p key history.
Proof.
  unfold last_outcome. rewrite filter_app, filter_cons, filter_nil. case_decide; [by rewrite last_snoc|].
  by rewrite app_nil_r.
Qed.

Lemma record_outcome_spec p key memory history a :
  remembers_outcome p key memory (last_outcome p key history) ->
  remembers_outcome p key (record_outcome (at_primitive a) (at_key a) (at_succeeded a) memory)
    (last_outcome p key (history ++ [a])).
Proof.
  destruct a as [q k ok]. rewrite last_outcome_snoc. intros [Hout Hempty]. unfold record_outcome. cbn.
  assert (Hkeep : ok = true -> any_failure q memory = false -> remembers_outcome p key memory
    (if decide (q = p /\ k = Some key) then Some ok else last_outcome p key history)).
  { intros -> Hnone. split; [|done]. case_decide as Hd; [|done]. destruct Hd as [-> ->]. by rewrite (Hempty Hnone). }
  destruct (ok && negb (any_failure q memory)) eqn:Hq.
  { apply andb_prop in Hq as [-> Hnone%negb_true_iff]. by apply Hkeep. }
  destruct k as [k|]; [|split; [|done]; case_decide as Hd; [by destruct Hd|done]].
  split.
  - rewrite remembers_remember, any_failure_remember. destruct (decide (p = q /\ key = k)) as [[-> ->]|Hne].
    + rewrite decide_True by done. destruct ok; [done|]. cbn. by rewrite any_failure_note, bool_decide_true.
    + rewrite decide_False by (intros [<- [= <-]]; by apply Hne). destruct ok; [exact Hout|].
      rewrite remembers_note, any_failure_note. destruct (remembers p key memory); try done.
      destruct Hout as [? ->]. by rewrite orb_true_r.
  - rewrite any_failure_remember. intros Hnone k'. rewrite remembers_remember. destruct ok; cbn in Hq, Hnone |- *.
    + apply negb_false_iff in Hq. rewrite decide_False by (intros [-> _]; congruence). by apply Hempty.
    + rewrite any_failure_note in Hnone. apply orb_false_iff in Hnone as [Hpq%bool_decide_eq_false Hnone].
      rewrite decide_False by naive_solver. rewrite remembers_note. by apply Hempty.
Qed.

(** Whether a clone or a hard link is worth trying between two devices.  Nothing
    is looked up before the first failure and successes are not written down until
    then, yet after any attempts, in any order and between any devices, the answer
    is no exactly when the last attempt of that primitive between those two
    devices failed: a failure elsewhere, or of the other primitive, does not
    count, and a later success takes the failure back. *)
Theorem likely_is_last_outcome p key backend history :
  likely p (after_attempts (fresh_memory backend) history) (Some key) = false <->
  last_outcome p key history = Some false.
Proof.
  assert (Hinv : remembers_outcome p key (after_attempts (fresh_memory backend) history) (last_outcome p key history)).
  { induction history as [|a history IH] using rev_ind; [by split; [|intros _ k]; unfold remembers; cbn; rewrite lookup_empty; destruct p|].
    unfold after_attempts. rewrite foldl_app. by apply record_outcome_spec. }
  revert Hinv. generalize (after_attempts (fresh_memory backend) history). intros memory [Hout Hempty].
  unfold likely. unfold remembers in Hout. destruct (any_failure p memory) eqn:Hany; cbn.
  - destruct (lm_cache memory !! key) as [caps|]; cbn in Hout.
    + destruct (probe_of p caps); split; try done; by destruct Hout.
    + destruct p; cbn in Hout; by split.
  - specialize (Hempty eq_refl key). unfold remembers in Hempty. rewrite Hempty in Hout. by split.
Qed.
