(* ===== verification/StoreFs.v ===== *)
(** * Filling the store ([store/{ensure,local,remote,fetch,metadata}.rs], [store/archive/], [store/filesystem/copy.rs])

    A package that is missing is downloaded into a blob whose bytes go through the
    verifier of [Store], unpacked next to its place or in it, moved there, marked
    as complete and described for the linker.  The world adds to [FsWorld] what
    downloads and archives need ([StoreWorld]).

    A permit of a semaphore and the end of a blocking task are taken for granted:
    the semaphores are never closed and the tasks do not panic.  Messages on the
    console are left out, and so is the cache of metadata files ([Residency]). *)
From S2P Require Import Prelude.
From S2P Require Import BTree.
From S2P Require Import Text.
From S2P Require Import Errors.
From S2P Require Import Types.
From S2P Require Import Paths.
From S2P Require Import Crates.
From S2P Require Import Peers.
From S2P Require Import Config.
From S2P Require Import Linker.
From S2P Require Import Sharing.
From S2P Require Import Residency.
From S2P Require Import Store.
From S2P Require Import World.
From S2P Require Import Http.
From S2P Require Import LinkFs.

(** ** The crates [tar] and [flate2] *)
Inductive EntryType := EntryRegular | EntryDirectory | EntrySymlink | EntryLink | EntryOther.
Global Instance EntryType_eq_dec : EqDecision EntryType.
Proof. solve_decision. Defined.

Record TarEntry := {
  (** [entry.path()] *)
  te_path : result string string;
  te_type : EntryType;
  te_data : string;
}.

(** The entries of an archive, from the successive reads of the file. *)
Class TarCrate := tar_entries : list (result string string) -> result string (list (result string TarEntry)).

Class StoreWorld (W : Type) := {
  store_fs :: FsWorld W;
  fs_create_dir : string -> IoOp W;
  (** [tempfile]: a new directory or file in [parent] *)
  fs_tempdir_in : string -> string -> W -> result string string * W;
  fs_tempfile_in : string -> string -> string -> W -> result string string * W;
  (** the open file of a download: [open] with [truncate], [write_all], [flush] *)
  fs_open_truncate : string -> IoOp W;
  fs_append : string -> string -> IoOp W;
  fs_flush : string -> IoOp W;
  (** the successive reads of a file that is opened *)
  fs_reads : W -> string -> result string (list (result string string));
  (** [entry.unpack(path)] *)
  fs_unpack : TarEntry -> string -> IoOp W;
  (** [client.get(url)], with a header: the pieces of the body of the response *)
  http_get : string -> option string -> W -> result HttpError (list (result HttpError string)) * W;
  (** the clock and [tokio::time::sleep] *)
  subsec_nanos : W -> N;
  http_sleep : N -> W -> W;
}.

(** ** [store/archive/] *)
Fixpoint join_components (out : string) (l : list Component) : option string :=
  match l with
  | [] => Some out
  | Normal segment :: l => join_components (path_push out segment) l
  | CurDir :: l => join_components out l
  | ParentDir :: _ | RootDir :: _ => None
  end.
Definition safe_join (root rel : string) : option string := join_components root (components rel).

Section archive.
Context `{StoreWorld W} `{TarCrate}.

Definition unpack_entry (pkg_dir : string) (entry : result string TarEntry) : Eff W unit :=
  entry ← lift (map_err (Archive pkg_dir) entry);
  rel_path ← lift (map_err (Archive pkg_dir) (te_path entry));
  match safe_join pkg_dir rel_path with
  | None => lift (Err (Archive pkg_dir ("archive entry escapes extraction root: " +:+ rel_path)))
  | Some dest_path =>
      match te_type entry with
      | EntrySymlink | EntryLink =>
          lift (Err (Archive pkg_dir ("archive contains forbidden symlink/hardlink entry: " +:+ rel_path)))
      | EntryDirectory => create_dir_all dest_path
      | EntryOther => mret tt
      | EntryRegular =>
          _ ← ensure_parent_dir dest_path;
          io_error (Archive dest_path) (fs_unpack entry dest_path)
      end
  end.

Definition unpack_tarball_reader (pkg_dir : string) (reads : list (result string string)) : Eff W unit :=
  entries ← lift (map_err (Archive pkg_dir) (tar_entries reads));
  eff_fold (fun _ entry => unpack_entry pkg_dir entry) tt entries.

Definition unpack_tarball_file (pkg_dir tarball_path : string) : Eff W unit :=
  w ← world;
  reads ← lift (map_err (ReadFile tarball_path) (fs_reads w tarball_path));
  unpack_tarball_reader pkg_dir reads.

(** ** [store/filesystem/copy.rs] *)
Definition marker_of (package_dir : string) : string := path_push package_dir ".snpm_complete".

Definition remove_path_any (path : string) : Eff W unit :=
  w ← world;
  match fs_lstat (view w) path with
  | Ok metadata => io_ignore (if decide (st_type metadata = TDir) then fs_remove_dir_all path else fs_remove_file path)
  | Err _ => mret tt
  end.

Definition atomic_finalize_extracted_dir (staged final_path : string) : Eff W unit :=
  renamed ← io_try (fs_rename staged final_path);
  if renamed : bool then mret tt else
  w ← world;
  if is_file (view w) (marker_of final_path) then io_ignore (fs_remove_dir_all staged) else
  _ ← remove_path_any final_path;
  renamed ← eff_of (fs_rename staged final_path);
  match renamed with
  | Ok _ => mret tt
  | Err source => _ ← io_ignore (fs_remove_dir_all staged); lift (Err (WriteFile final_path source))
  end.

(** The failures are those of the operating system; [error] is the caller's. *)
Fixpoint copy_dir_all (error : string -> SnpmError) (fuel : nat) (src dst : string) : Eff W unit :=
  match fuel with
  | O => lift (Err (error "the directories are nested too deeply"))
  | S fuel =>
      _ ← io_error error (fs_create_dir_all dst);
      w ← world;
      entries ← lift (map_err error (fs_entries (view w) src));
      eff_fold (fun _ entry =>
        '(name, entry_type) ← lift (map_err error entry);
        entry_type ← lift (map_err error entry_type);
        if (name == ".git") || (name == "node_modules") then mret tt else
        match entry_type with
        | TSymlink => lift (Err (error ("refusing to copy symlink from local dependency: " +:+ path_push src name)))
        | TDir => copy_dir_all error fuel (path_push src name) (path_push dst name)
        | _ =>
            copied ← clone_or_copy_file (path_push src name) (path_push dst name);
            lift (map_err error copied)
        end) tt entries
  end.

(** What a staging directory is filled with decides whether it is kept. *)
Definition or_discard (staged : string) (fill : Eff W unit) : Eff W unit :=
  result ← attempt fill;
  match result with
  | Ok _ => mret tt
  | Err error => _ ← io_ignore (fs_remove_dir_all staged); lift (Err error)
  end.

Definition parent_of_dir (final_dir : string) : Result string :=
  ok_or (Internal ("package directory has no parent: " +:+ final_dir)) (parent final_dir).

Definition tempdir_in (parent prefix : string) : Eff W string :=
  dir ← eff_of (fs_tempdir_in parent prefix); lift (map_err (WriteFile parent) dir).

(** ** [store/local.rs] *)
Definition local_tarball_path (package : ResolvedPackage) : Result string :=
  ok_or (Internal "expected file:// tarball for local package materialization") (strip_prefix "file://" (r_tarball package)).

Definition local_stage_unpack_finalize `{DigestCrates} (source_path final_dir tarball_url : string) (integrity : option string)
  : Eff W unit :=
  parent ← lift (parent_of_dir final_dir);
  _ ← create_dir_all parent;
  staged_path ← tempdir_in parent ".snpm-extract-";
  _ ← or_discard staged_path
        (w ← world;
         if is_dir (view w) source_path then
           let destination := path_push staged_path "package" in
           copy_dir_all (Io destination) (fs_depth w source_path) source_path destination
         else
           _ ← lift (verify_integrity_file tarball_url integrity source_path (fs_reads w source_path));
           unpack_tarball_file staged_path source_path);
  atomic_finalize_extracted_dir staged_path final_dir.

Definition materialize_local_package `{DigestCrates} (package : ResolvedPackage) (package_dir : string) : Eff W unit :=
  source_path ← lift (local_tarball_path package);
  local_stage_unpack_finalize source_path package_dir (r_tarball package) (r_integrity package).
End archive.

(** ** [store/fetch.rs] *)
Inductive TarballSource := Downloaded | BlobCache.
Record DownloadedTarball := {
  dt_path : string;
  dt_size_bytes : N;
  dt_source : TarballSource;
  (** the temporary file, removed when the value is dropped *)
  dt_temp_path : option string;
}.

Section fetch.
Context `{StoreWorld W} `{TarCrate} `{DigestCrates}.

Definition staged_finalize (cached final_dir parent : string) : Eff W unit :=
  staged_path ← tempdir_in parent ".snpm-extract-";
  _ ← or_discard staged_path (unpack_tarball_file staged_path cached);
  atomic_finalize_extracted_dir staged_path final_dir.

Definition stage_unpack_finalize (cached final_dir : string) : Eff W unit :=
  parent ← lift (parent_of_dir final_dir);
  _ ← create_dir_all parent;
  w ← world;
  if path_exists (view w) final_dir then staged_finalize cached final_dir parent else
  created ← eff_of (fs_create_dir final_dir);
  match created with
  | Err source => if error_already_exists source then staged_finalize cached final_dir parent
                  else lift (Err (WriteFile final_dir source))
  | Ok _ => or_discard final_dir (unpack_tarball_file final_dir cached)
  end.

Definition blob_cache_path (config : SnpmConfig) (cache_key : IntegrityCacheKey) : string :=
  path_push (path_push (tarball_blob_cache_dir config) (key_algorithm cache_key)) (digest_hex cache_key +:+ ".tgz").

Definition cached_blob_paths (config : SnpmConfig) (url : string) (integrity : option IntegritySpec) : Result (list string) :=
  match integrity with
  | None => Ok []
  | Some integrity => keys ← cache_keys integrity url; Ok (fmap (M := list) (blob_cache_path config) keys)
  end.

Definition create_temp_path (parent : string) : Eff W string :=
  _ ← create_dir_all parent;
  file ← eff_of (fs_tempfile_in parent ".snpm-tarball-" ".tmp");
  lift (map_err (WriteFile parent) file).

(** The request, tried again; the failure of the last attempt. *)
Definition request_tarball (config : SnpmConfig) (package_name url : string) : Eff W (list (result HttpError string)) := fun w =>
  let '(response, w) := with_retry subsec_nanos http_sleep
    (http_get url (authorization_header_for_tarball config package_name url)) policy_default w in
  (map_err (Http url ∘ he_message) response, w).

(** One piece of the body: the verifier and the file see it, in this order. *)
Definition take_chunk (url file_path : string) (acc : option IntegrityVerifier * N) (chunk : result HttpError string)
  : Eff W (option IntegrityVerifier * N) :=
  chunk ← lift (map_err (Http url ∘ he_message) chunk);
  let verifier := (fun v => update v chunk) <$> acc.1 in
  _ ← io_write file_path (fs_append file_path chunk);
  mret (verifier, acc.2 + N.of_nat (String.length chunk))%N.

(** [verifier.map(|v| v.finish(url)).transpose()?.flatten()] *)
Definition matched_key (url : string) (verifier : option IntegrityVerifier) : Result (option IntegrityCacheKey) :=
  match verifier with Some verifier => finish verifier url | None => Ok None end.

Definition blob_size (cached_path : string) : Eff W N :=
  w ← world; stat ← lift (map_err (ReadFile cached_path) (fs_stat (view w) cached_path)); mret (st_len stat).

(** The bytes arrive in [file_path]; the key of the token that admits them, and
    how many there are. *)
Definition download_bytes (config : SnpmConfig) (package_name url : string) (integrity_spec : option IntegritySpec)
    (file_path : string) : Eff W (option IntegrityCacheKey * N) :=
  _ ← io_write file_path (fs_open_truncate file_path);
  chunks ← request_tarball config package_name url;
  '(verifier, size_bytes) ← eff_fold (take_chunk url file_path) (verifier <$> integrity_spec, 0%N) chunks;
  _ ← io_write file_path (fs_flush file_path);
  matched_cache_key ← lift (matched_key url verifier);
  mret (matched_cache_key, size_bytes).

(** The blob that is kept. *)
Definition keep_blob (config : SnpmConfig) (file_path : string) (matched_cache_key : option IntegrityCacheKey) (size_bytes : N)
  : Eff W DownloadedTarball :=
  match matched_cache_key with
  | None => mret {| dt_path := file_path; dt_size_bytes := size_bytes; dt_source := Downloaded; dt_temp_path := Some file_path |}
  | Some cache_key =>
      let cached_path := blob_cache_path config cache_key in
      parent ← lift (ok_or (Internal ("tarball blob cache path has no parent: " +:+ cached_path)) (parent cached_path));
      _ ← create_dir_all parent;
      renamed ← eff_of (fs_rename file_path cached_path);
      match renamed with
      | Ok _ => mret {| dt_path := cached_path; dt_size_bytes := size_bytes; dt_source := Downloaded; dt_temp_path := None |}
      | Err source =>
          w ← world;
          if is_file (view w) cached_path then
            size_bytes ← blob_size cached_path;
            mret {| dt_path := cached_path; dt_size_bytes := size_bytes; dt_source := BlobCache; dt_temp_path := Some file_path |}
          else lift (Err (WriteFile cached_path source))
      end
  end.

Definition download_into (config : SnpmConfig) (package_name url : string) (integrity_spec : option IntegritySpec)
    (file_path : string) : Eff W DownloadedTarball :=
  '(matched_cache_key, size_bytes) ← download_bytes config package_name url integrity_spec file_path;
  keep_blob config file_path matched_cache_key size_bytes.

(** The temporary file is dropped unless it is part of the result. *)
Definition download_blob (config : SnpmConfig) (package_name url : string) (integrity_spec : option IntegritySpec)
  : Eff W DownloadedTarball :=
  file_path ← create_temp_path (path_push (tarball_blob_cache_dir config) "tmp");
  result ← attempt (download_into config package_name url integrity_spec file_path);
  _ ← match result with
      | Ok {| dt_temp_path := Some _ |} => mret tt
      | _ => io_ignore (fs_remove_file file_path)
      end;
  lift result.

Definition drop_tarball (tarball : DownloadedTarball) : Eff W unit :=
  match dt_temp_path tarball with Some path => io_ignore (fs_remove_file path) | None => mret tt end.

Definition first_file (fs : FileSystem) (paths : list string) : option string := head (filter (fun p => is_file fs p = true) paths).

Definition download_and_extract (config : SnpmConfig) (package_name url : string) (integrity : option string) (final_dir : string)
  : Eff W DownloadedTarball :=
  let integrity_spec := spec_parse integrity in
  blob_cache_paths ← lift (cached_blob_paths config url integrity_spec);
  w ← world;
  match first_file (view w) blob_cache_paths with
  | Some cached_path =>
      size_bytes ← blob_size cached_path;
      _ ← stage_unpack_finalize cached_path final_dir;
      mret {| dt_path := cached_path; dt_size_bytes := size_bytes; dt_source := BlobCache; dt_temp_path := None |}
  | None =>
      tarball ← download_blob config package_name url integrity_spec;
      extracted ← attempt (stage_unpack_finalize (dt_path tarball) final_dir);
      match extracted with
      | Ok _ => mret tarball
      | Err error => _ ← drop_tarball tarball; lift (Err error)
      end
  end.

(** [store/remote.rs] *)
Definition materialize_remote_package (config : SnpmConfig) (package : ResolvedPackage) (package_dir : string) : Eff W unit :=
  tarball ← download_and_extract config (id_name (r_id package)) (r_tarball package) (r_integrity package) package_dir;
  drop_tarball tarball.
End fetch.

(** ** [store/metadata.rs]: describing a package *)
Record PackageTreeIndex := { pt_filesystem : PackageFilesystemShape; pt_nested_package_roots : list string }.
Definition tree_index_default : PackageTreeIndex := {| pt_filesystem := shape_default; pt_nested_package_roots := [] |}.

Definition path_le (p q : string) : Prop := ord_le (path_key p) (path_key q).
Global Instance path_le_dec : RelDecision path_le.
Proof. intros p q. unfold path_le. apply _. Defined.
(** [sort(); dedup()]; a [BTreeSet<PathBuf>] in its order. *)
Fixpoint dedup_from (prev : string) (l : list string) : list string :=
  match l with
  | [] => []
  | p :: l => if path_eq prev p then dedup_from prev l else p :: dedup_from p l
  end.
Definition dedup_paths (l : list string) : list string :=
  match l with [] => [] | p :: l => p :: dedup_from p l end.
Definition sort_paths (l : list string) : list string := dedup_paths (merge_sort path_le l).

Definition join_relative (parent child : string) : string := if is_empty parent then child else path_push parent child.

(** [sort_by_key(|entry| entry.file_name())] *)
Definition name_le (a b : string * result string FileType) : Prop := String.le a.1 b.1.
Global Instance name_le_dec : RelDecision name_le.
Proof. intros a b. unfold name_le. apply _. Defined.

Definition add_directory_place (relative : string) (index : PackageTreeIndex) : PackageTreeIndex := {|
  pt_filesystem := {| directories := directories (pt_filesystem index) ++ [relative]; shape_files := shape_files (pt_filesystem index) |};
  pt_nested_package_roots := pt_nested_package_roots index |}.
Definition add_file_place (relative : string) (index : PackageTreeIndex) : PackageTreeIndex := {|
  pt_filesystem := {| directories := directories (pt_filesystem index); shape_files := shape_files (pt_filesystem index) ++ [relative] |};
  pt_nested_package_roots := pt_nested_package_roots index |}.
Definition add_nested_root (relative : string) (index : PackageTreeIndex) : PackageTreeIndex := {|
  pt_filesystem := pt_filesystem index; pt_nested_package_roots := pt_nested_package_roots index ++ [relative] |}.

(** One entry; [recurse] collects a directory. *)
Definition shape_entry (recurse : string -> string -> PackageTreeIndex -> Result PackageTreeIndex)
    (package_root current relative : string) (index : PackageTreeIndex) (entry : string * result string FileType)
  : Result PackageTreeIndex :=
  let '(name, entry_type) := entry in
  if name == PACKAGE_METADATA_FILE then Ok index else
  let entry_path := path_push current name in
  let entry_relative := join_relative relative name in
  entry_type ← map_err (ReadFile entry_path) entry_type;
  match entry_type with
  | TSymlink => Err (Io entry_path "refusing to index symlink from package store")
  | TDir => recurse entry_path entry_relative (add_directory_place entry_relative index)
  | _ =>
      let index := add_file_place entry_relative index in
      Ok (match parent entry_path with
          | Some dir => if (name == "package.json") && negb (path_eq dir package_root)
                        then add_nested_root (default ε (parent entry_relative)) index else index
          | None => index
          end)
  end.

Fixpoint collect_directory_shape (fuel : nat) (fs : FileSystem) (package_root current relative : string) (index : PackageTreeIndex)
  : Result PackageTreeIndex :=
  match fuel with
  | O => Err (too_deep current)
  | S fuel =>
      entries ← map_err (ReadFile current) (fs_entries fs current);
      entries ← map_err (ReadFile current) (mapM (fun entry => entry) entries);
      try_fold (shape_entry (collect_directory_shape fuel fs package_root) package_root current relative)
        index (merge_sort name_le entries)
  end.

Definition collect_package_tree_index (fuel : nat) (fs : FileSystem) (package_root : string) : Result PackageTreeIndex :=
  index ← collect_directory_shape fuel fs package_root package_root ε tree_index_default;
  let nested := sort_paths (pt_nested_package_roots index) in
  let files := shape_files (pt_filesystem index) ++ PACKAGE_METADATA_FILE ::
                 ((fun nested_root => path_push nested_root PACKAGE_METADATA_FILE) <$> nested) in
  Ok {| pt_filesystem := {| directories := sort_paths (directories (pt_filesystem index)); shape_files := sort_paths files |};
        pt_nested_package_roots := nested |}.

Section metadata.
Context `{StoreWorld W} `{MetadataJson}.

Definition with_filesystem (shape : PackageFilesystemShape) (metadata : PackageStoreMetadata) : PackageStoreMetadata := {|
  pm_root_relative_path := pm_root_relative_path metadata; pm_name := pm_name metadata; pm_version := pm_version metadata;
  pm_bundled_dependencies := pm_bundled_dependencies metadata; pm_has_bin := pm_has_bin metadata; pm_bin := pm_bin metadata;
  pm_filesystem := shape |}.
Definition with_root (root : string) (metadata : PackageStoreMetadata) : PackageStoreMetadata := {|
  pm_root_relative_path := Some root; pm_name := pm_name metadata; pm_version := pm_version metadata;
  pm_bundled_dependencies := pm_bundled_dependencies metadata; pm_has_bin := pm_has_bin metadata; pm_bin := pm_bin metadata;
  pm_filesystem := shape_default |}.

Definition write_metadata (path : string) (metadata : PackageStoreMetadata) : Eff W unit :=
  data ← lift (map_err (SerializeJson path) (metadata_to_vec metadata));
  write_output (path, data).

Definition persist_package_metadata (package_dir package_root : string) : Eff W unit :=
  w ← world;
  tree_index ← lift (collect_package_tree_index (fs_depth w package_root) (view w) package_root);
  let root_metadata := with_filesystem (pt_filesystem tree_index) (collect_manifest_facts (view w) package_root) in
  _ ← write_metadata (path_push package_root PACKAGE_METADATA_FILE) root_metadata;
  _ ← eff_fold (fun _ nested_root =>
        w ← world;
        let nested_package_root := path_push package_root nested_root in
        write_metadata (path_push nested_package_root PACKAGE_METADATA_FILE) (collect_manifest_facts (view w) nested_package_root))
        tt (pt_nested_package_roots tree_index);
  match root_relative_path package_dir package_root with
  | None => mret tt
  | Some relative_root =>
      if path_eq package_dir package_root then mret tt else
      write_metadata (path_push package_dir PACKAGE_METADATA_FILE) (with_root relative_root root_metadata)
  end.

(** ** [store/ensure.rs] *)
Definition backfill_package_metadata (package_dir package_root : string) : Eff W unit :=
  w ← world;
  let root_metadata := path_push package_root PACKAGE_METADATA_FILE in
  let store_metadata := path_push package_dir PACKAGE_METADATA_FILE in
  let store_metadata_present := path_eq package_dir package_root || is_file (view w) store_metadata in
  if is_file (view w) root_metadata && store_metadata_present then mret tt
  else persist_package_metadata package_dir package_root.

Definition store_package_dir (config : SnpmConfig) (package : ResolvedPackage) : string :=
  package_dir (packages_dir config) (r_id package).

Definition materialize_package `{TarCrate} `{DigestCrates} (config : SnpmConfig) (package : ResolvedPackage) (package_dir : string)
  : Eff W unit :=
  if starts_with "file://" (r_tarball package) then materialize_local_package package package_dir
  else materialize_remote_package config package package_dir.

Definition ensure_package_with_offline `{TarCrate} `{DigestCrates} (config : SnpmConfig) (package : ResolvedPackage)
    (offline_mode : OfflineMode) : Eff W string :=
  let package_dir := store_package_dir config package in
  let marker := marker_of package_dir in
  w ← world;
  if is_file (view w) marker then
    let root := package_root_dir (view w) package_dir in
    _ ← attempt (backfill_package_metadata package_dir root);
    mret root
  else if bool_decide (offline_mode = Offline) then
    lift (Err (OfflineRequired ("package " +:+ id_name (r_id package) +:+ "@" +:+ id_version (r_id package))))
  else
    _ ← materialize_package config package package_dir;
    _ ← write_output (marker, ε);
    w ← world;
    let root := package_root_dir (view w) package_dir in
    _ ← attempt (persist_package_metadata package_dir root);
    mret root.

Definition store_ensure_package `{TarCrate} `{DigestCrates} (config : SnpmConfig) (package : ResolvedPackage) : Eff W string :=
  ensure_package_with_offline config package Online.
End metadata.
