(* ===== verification/StoreTree.v ===== *)
(** * The description of a package is a walk of it ([store/metadata.rs], [linker/fs/link.rs])

    The files and directories that are written next to a package are those the
    linker would find by walking it. *)
From S2P Require Import Prelude.
From S2P Require Import BTree.
From S2P Require Import Text.
From S2P Require Import Errors.
From S2P Require Import Types.
From S2P Require Import Paths.
From S2P Require Import Crates.
From S2P Require Import Peers.
From S2P Require Import Config.
From S2P Require Import Linker.
From S2P Require Import Sharing.
From S2P Require Import Residency.
From S2P Require Import Store.
From S2P Require Import World.
From S2P Require Import Http.
From S2P Require Import LinkFs.
From S2P Require Import StoreFs.

(** ** What is written about a package *)

(** A relative path of names. *)
Definition rel (names : list string) : string := join "/" names.

Lemma join_relative_rel names n : Forall (fun n => name_ok n = true) names -> name_ok n = true ->
  join_relative (rel names) n = rel (names ++ [n]).
Proof.
  intros Hok Hn. unfold join_relative, rel. destruct names as [|m names] using rev_ind; [done|]. clear IHnames.
  assert (Hm : name_ok m = true) by (by apply Forall_app in Hok as [_ [? _]%Forall_cons]).
  assert (Hend : is_empty (join "/" (names ++ [m])) = false /\ ends_with "/" (join "/" (names ++ [m])) = false).
  { destruct (decide (names = [])) as [->|Hne].
    - pose proof (path_push_not_slash ε m Hm) as Hp. unfold path_push in Hp. rewrite (name_not_absolute m Hm) in Hp. done.
    - rewrite join_snoc by done. pose proof (path_push_not_slash (join "/" names +:+ "/") m Hm) as Hp.
      assert (Hsep : ends_with "/" (join "/" names +:+ "/") = true) by (apply ends_with_spec; eauto).
      unfold path_push in Hp. rewrite (name_not_absolute m Hm), Hsep, orb_true_r in Hp.
      by rewrite <-app_assoc_s in Hp. }
  destruct Hend as [He Hs]. rewrite He. rewrite (join_snoc _ (names ++ [m]) n) by by destruct names.
  unfold path_push. by rewrite (name_not_absolute n Hn), He, Hs.
Qed.

Lemma split_rel names : names <> [] -> Forall (fun n => name_ok n = true) names -> split_char "/" (rel names) = names.
Proof.
  intros Hne Hok. unfold rel. apply (split_char_join "/"); [done|]. eapply Forall_impl; [done|]. by intros n []%name_ok_spec.
Qed.

Lemma rel_not_absolute names : Forall (fun n => name_ok n = true) names -> is_absolute (rel names) = false.
Proof.
  destruct names as [|n names]; [done|]. intros [Hn Hok]%Forall_cons. unfold rel.
  destruct (decide (names = [])) as [->|Hne]; [by apply name_not_absolute|]. rewrite join_cons_app by done.
  pose proof (name_not_absolute n Hn) as Ha. pose proof (name_ok_spec n Hn) as (_ & He & _). destruct n as [|a n]; [done|].
  unfold is_absolute in *. rewrite app_cons_s. change "/" with (chr "/") in *. by rewrite starts_with_chr_cons in *.
Qed.

Lemma components_rel names : Forall (fun n => name_ok n = true) names -> components (rel names) = Normal <$> names.
Proof.
  intros Hok. destruct (decide (names = [])) as [->|Hne]; [done|].
  unfold components. rewrite rel_not_absolute, split_rel by done.
  destruct names as [|n names]; [done|]. pose proof Hok as [Hn _]%Forall_cons.
  pose proof (name_ok_spec n Hn) as (_ & _ & -> & _). cbn [app].
  clear Hne Hn. induction Hok as [|m ms Hm _ IH]; [done|]. cbn. by rewrite (name_ok_component m Hm), IH.
Qed.

Lemma parent_rel names n : Forall (fun n => name_ok n = true) names -> name_ok n = true ->
  parent (rel (names ++ [n])) = Some (rel names).
Proof.
  intros Hok Hn. assert (Hall : Forall (fun n => name_ok n = true) (names ++ [n])) by (apply Forall_app; auto).
  unfold parent. rewrite split_rel, rel_not_absolute by (done || by destruct names). cbn [andb].
  destruct names as [|m ms]; cbn [app].
  - pose proof (name_ok_spec n Hn) as (_ & -> & _). done.
  - apply Forall_cons in Hok as [Hm Hms]. rewrite trim_parts_ok by by apply Forall_app; auto.
    by rewrite reverse_snoc, reverse_involutive, trim_parts_ok.
Qed.

Fixpoint push_all (p : string) (names : list string) : string :=
  match names with [] => p | n :: names => push_all (path_push p n) names end.
Lemma push_all_rel names : forall p, names <> [] -> Forall (fun n => name_ok n = true) names ->
  push_all p names = path_push p (rel names).
Proof.
  induction names as [|n names IH]; intros p Hne; [done|]. intros [Hn Hok]%Forall_cons. cbn [push_all].
  destruct (decide (names = [])) as [->|Hne']; [done|]. rewrite IH by done.
  rewrite path_push_push by (done || by apply rel_not_absolute). unfold rel. by rewrite join_cons_app.
Qed.

Lemma rel_inj a b : Forall (fun n => name_ok n = true) a -> Forall (fun n => name_ok n = true) b ->
  path_eq (rel a) (rel b) = true -> rel a = rel b.
Proof.
  intros Ha Hb Heq%bool_decide_eq_true. rewrite !components_rel in Heq by done. f_equal.
  assert (Inj (=) (=) Normal) by by intros ? ? [=]. by apply (inj (fmap (M := list) Normal)).
Qed.

(** A path of names. *)
Definition is_rel (p : string) : Prop := exists names, Forall (fun n => name_ok n = true) names /\ p = rel names.

Lemma dedup_from_elem l : forall prev x, is_rel prev -> (forall p, p ∈ l -> is_rel p) ->
  x ∈ prev :: dedup_from prev l <-> x ∈ prev :: l.
Proof.
  induction l as [|p l IH]; intros prev x Hprev Hl; cbn; [done|].
  assert (Hp : is_rel p) by (apply Hl; by left). specialize (IH p x Hp ltac:(intros; apply Hl; by right)) as IHp.
  destruct (path_eq prev p) eqn:Heq; [|rewrite !elem_of_cons in *; naive_solver].
  destruct Hprev as (a & Ha & ->), Hp as (b & Hb & ->). apply rel_inj in Heq; [|done..]. rewrite <-Heq in *.
  rewrite !elem_of_cons in *. naive_solver.
Qed.

Lemma sort_paths_elem l x : (forall p, p ∈ l -> is_rel p) -> x ∈ sort_paths l <-> x ∈ l.
Proof.
  intros Hl. unfold sort_paths. pose proof (merge_sort_Permutation path_le l) as Hperm.
  transitivity (x ∈ merge_sort path_le l); [|by rewrite Hperm]. assert (Hl' : forall p, p ∈ merge_sort path_le l -> is_rel p) by (intros p; rewrite Hperm; apply Hl).
  destruct (merge_sort path_le l) as [|p l']; [done|]. apply dedup_from_elem; [apply Hl'; by left|].
  intros; apply Hl'; by right.
Qed.

Lemma mapM_entries {A} (entries : list (result string A)) l : mapM (fun e => e) entries = Ok l -> entries = Ok <$> l.
Proof.
  revert l. induction entries as [|e entries IH]; intros l; cbn; [by intros [= <-]|].
  destruct e as [a|]; [|done]. cbn. destruct (mapM _ entries) as [l'|] eqn:E; [|done]. intros [= <-]. cbn.
  by rewrite (IH l' eq_refl).
Qed.

(** The roots of nested packages are places below the package. *)
Lemma nested_roots_rel fs root :
  (forall dir entries n ty, fs_entries fs dir = Ok entries -> Ok (n, ty) ∈ entries -> name_ok n = true) ->
  forall fuel dir base index index', Forall (fun n => name_ok n = true) base ->
  collect_directory_shape fuel fs root dir (rel base) index = Ok index' ->
  (forall r, r ∈ pt_nested_package_roots index -> is_rel r) -> forall r, r ∈ pt_nested_package_roots index' -> is_rel r.
Proof.
  intros Hnames. induction fuel as [|fuel IH]; intros dir base index index' Hbase; [done|]. cbn [collect_directory_shape].
  intros (entries & He & (l & Hl & Hfold)%result_bind_Ok)%result_bind_Ok.
  destruct (fs_entries fs dir) as [entries'|] eqn:Hentries; [|done]. injection He as ->.
  destruct (mapM _ entries) as [l'|] eqn:Hmap; [|done]. injection Hl as ->. apply mapM_entries in Hmap as ->.
  assert (Hok : forall e, e ∈ merge_sort name_le l -> name_ok e.1 = true).
  { intros [n ty]. rewrite (merge_sort_Permutation name_le l). intros Hin. eapply Hnames; [exact Hentries|].
    by apply list_elem_of_fmap_2. }
  clear Hentries. revert index Hfold Hok. generalize (merge_sort name_le l). clear l.
  intros l. induction l as [|[n ty] l IHl]; intros index Hfold Hok Hindex; cbn [try_fold] in Hfold; [by injection Hfold as <-|].
  apply result_bind_Ok in Hfold as (index1 & Hstep & Hfold).
  apply (IHl index1 Hfold); [intros e Hin; apply Hok; by right|].
  pose proof (Hok _ ltac:(by left)) as Hn. cbn in Hn. revert Hstep. unfold shape_entry.
  destruct (n == PACKAGE_METADATA_FILE); [by intros [= <-]|]. rewrite join_relative_rel by done.
  destruct ty as [t|]; [|done]. cbn [map_err mbind result_bind]. assert (Hb : Forall (fun n => name_ok n = true) (base ++ [n])).
  { apply Forall_app. auto. }
  destruct t; [|intros Hc; by eapply (IH _ _ _ _ Hb Hc)|done|].
  all: intros [= <-]; destruct (parent (path_push dir n)); [|done]; case_match; [|done];
    cbn; intros r [Hr| ->%list_elem_of_singleton]%elem_of_app; [by apply Hindex|]; rewrite parent_rel by done; by exists base.
Qed.

(** ** The description of a package is a walk of it *)
Section shape.
Context (fs : FileSystem).

(** What is at the place [names] below a directory. *)
Definition listed (dir name : string) (t : FileType) : Prop :=
  exists entries, fs_entries fs dir = Ok entries /\ Ok (name, Ok t) ∈ entries.
Fixpoint entry_at (dir : string) (names : list string) (t : FileType) : Prop :=
  match names with
  | [] => False
  | n :: names => (names = [] /\ listed dir n t) \/ (listed dir n TDir /\ entry_at (path_push dir n) names t)
  end.
(** The same, starting at some entries of the directory. *)
Definition in_entries (dir : string) (l : list (string * result string FileType)) (names : list string) (t : FileType) : Prop :=
  match names with
  | [] => False
  | n :: names => (names = [] /\ (n, Ok t) ∈ l) \/ ((n, Ok TDir) ∈ l /\ entry_at (path_push dir n) names t)
  end.

Lemma in_entries_nil dir names t : ~ in_entries dir [] names t.
Proof. destruct names as [|n names]; cbn; [tauto|]. intros [[_ Hin]|[Hin _]]; by apply elem_of_nil in Hin. Qed.
Lemma in_entries_cons dir e l names t : in_entries dir (e :: l) names t <-> in_entries dir [e] names t \/ in_entries dir l names t.
Proof.
  destruct names as [|n names]; cbn; [tauto|].
  rewrite !(elem_of_cons l), !list_elem_of_singleton. tauto.
Qed.
Lemma in_entries_all dir l names t : fs_entries fs dir = Ok (Ok <$> l) -> in_entries dir l names t <-> entry_at dir names t.
Proof.
  intros He. assert (Hl : forall n t', (n, Ok t') ∈ l <-> listed dir n t').
  { intros n t'. unfold listed. rewrite He. split.
    - intros Hin. exists (Ok <$> l). split; [done|]. by apply list_elem_of_fmap_2.
    - intros (entries & [= <-] & Hin). apply list_elem_of_fmap in Hin as (x & [= ->] & ?). done. }
  destruct names as [|n names]; cbn; [done|]. by rewrite !Hl.
Qed.
Lemma in_entries_perm dir l l' names t : l ≡ₚ l' -> in_entries dir l names t <-> in_entries dir l' names t.
Proof. intros Hp. destruct names as [|n names]; cbn; [done|]. by rewrite Hp. Qed.

(** A tree that can be walked to a depth: no link, nothing unreadable. *)
Fixpoint walkable (fuel : nat) (dir : string) : Prop :=
  match fuel with
  | O => False
  | S fuel => exists l, fs_entries fs dir = Ok (Ok <$> l) /\
      forall n ty, (n, ty) ∈ l -> n <> PACKAGE_METADATA_FILE ->
        exists t, ty = Ok t /\ t <> TSymlink /\ (t = TDir -> walkable fuel (path_push dir n))
  end.

(** Names are names, and what has the name of the metadata file is a file. *)
Hypothesis Hnames : forall dir entries n ty, fs_entries fs dir = Ok entries -> Ok (n, ty) ∈ entries ->
  name_ok n = true /\ (n = PACKAGE_METADATA_FILE -> ty = Ok TFile).

Lemma entry_at_ok dir names t : entry_at dir names t -> Forall (fun n => name_ok n = true) names /\ names <> [].
Proof.
  revert dir. induction names as [|n names IH]; intros dir; [done|]. intros [[-> (entries & He & Hin)]|[(entries & He & Hin) Hat]].
  - split; [|done]. repeat constructor. by eapply Hnames.
  - split; [|done]. constructor; [by eapply Hnames|by eapply IH].
Qed.

(** What a list of places gains. *)
Definition gains {A} (l l' : list A) (P : A -> Prop) : Prop := forall x, x ∈ l' <-> x ∈ l \/ P x.
Lemma gains_trans {A} (l l1 l2 : list A) (P Q R : A -> Prop) :
  gains l l1 P -> gains l1 l2 Q -> (forall x, R x <-> P x \/ Q x) -> gains l l2 R.
Proof. intros H1 H2 HR x. rewrite (H2 x), (H1 x), (HR x). tauto. Qed.
Lemma gains_ext {A} (l l' : list A) (P Q : A -> Prop) : gains l l' P -> (forall x, P x <-> Q x) -> gains l l' Q.
Proof. intros H1 HQ x. by rewrite (H1 x), (HQ x). Qed.
Lemma gains_none {A} (l : list A) (P : A -> Prop) : (forall x, ~ P x) -> gains l l P.
Proof. intros HP x. specialize (HP x). tauto. Qed.
Lemma gains_one {A} (l : list A) a (P : A -> Prop) : (forall x, P x <-> x = a) -> gains l (l ++ [a]) P.
Proof. intros HP x. by rewrite elem_of_app, list_elem_of_singleton, HP. Qed.

Definition dir_places (base : list string) (at_ : list string -> FileType -> Prop) (d : string) : Prop :=
  exists names, at_ names TDir /\ d = rel (base ++ names).
Definition file_places (base : list string) (at_ : list string -> FileType -> Prop) (f : string) : Prop :=
  exists names t, at_ names t /\ t <> TDir /\ last names <> Some PACKAGE_METADATA_FILE /\ f = rel (base ++ names).
Definition shape_gains (base : list string) (at_ : list string -> FileType -> Prop) (index index' : PackageTreeIndex) : Prop :=
  gains (directories (pt_filesystem index)) (directories (pt_filesystem index')) (dir_places base at_) /\
  gains (shape_files (pt_filesystem index)) (shape_files (pt_filesystem index')) (file_places base at_).

Lemma dir_places_or base (at_ at1 at2 : list string -> FileType -> Prop) x : (forall names t, at_ names t <-> at1 names t \/ at2 names t) ->
  dir_places base at_ x <-> dir_places base at1 x \/ dir_places base at2 x.
Proof. intros Hat. unfold dir_places. setoid_rewrite Hat. clear. firstorder. Qed.
Lemma file_places_or base (at_ at1 at2 : list string -> FileType -> Prop) x : (forall names t, at_ names t <-> at1 names t \/ at2 names t) ->
  file_places base at_ x <-> file_places base at1 x \/ file_places base at2 x.
Proof. intros Hat. unfold file_places. setoid_rewrite Hat. clear. firstorder. Qed.

(** One entry of a directory whose tree is walked by [IH]. *)
Lemma single_here dir n ty names t :
  in_entries dir [(n, ty)] names t <->
  (names = [n] /\ ty = Ok t) \/ exists ns, names = n :: ns /\ ty = Ok TDir /\ entry_at (path_push dir n) ns t.
Proof.
  destruct names as [|m names]; cbn; [naive_solver|]. rewrite !list_elem_of_singleton. naive_solver.
Qed.

Lemma dir_places_single dir base n :
  forall d, dir_places base (in_entries dir [(n, Ok TDir)]) d <->
    d = rel (base ++ [n]) \/ dir_places (base ++ [n]) (entry_at (path_push dir n)) d.
Proof.
  intros d. unfold dir_places. setoid_rewrite single_here. split.
  - intros (names & [[-> _]|(ns & -> & _ & Hat)] & ->); [by left|]. right. exists ns. by rewrite <-(assoc_L app).
  - intros [-> |(ns & Hat & ->)].
    + exists [n]. split; [by left|done].
    + exists (n :: ns). rewrite <-(assoc_L app). split; [|done]. right. by exists ns.
Qed.
Lemma file_places_single_dir dir base n :
  forall f, file_places base (in_entries dir [(n, Ok TDir)]) f <->
    file_places (base ++ [n]) (entry_at (path_push dir n)) f.
Proof.
  intros f. unfold file_places. setoid_rewrite single_here. split.
  - intros (names & t & [[_ [= <-]]|(ns & -> & _ & Hat)] & Ht & Hlast & ->); [done|]. exists ns, t.
    rewrite <-(assoc_L app). split_and!; [done|done| |done]. apply entry_at_ok in Hat as [_ Hne]. by destruct ns.
  - intros (ns & t & Hat & Ht & Hlast & ->). exists (n :: ns), t. rewrite <-(assoc_L app).
    split_and!; [right; by exists ns|done| |done]. apply entry_at_ok in Hat as [_ Hne]. by destruct ns.
Qed.
Lemma places_single_file dir base n t : t <> TDir ->
  (forall d, ~ dir_places base (in_entries dir [(n, Ok t)]) d) /\
  (forall f, file_places base (in_entries dir [(n, Ok t)]) f <-> n <> PACKAGE_METADATA_FILE /\ f = rel (base ++ [n])).
Proof.
  intros Ht. unfold dir_places, file_places. setoid_rewrite single_here. split.
  - intros d (names & [[_ [= ->]]|(ns & _ & [= ->] & _)] & _); done.
  - intros f. split.
    + intros (names & t' & [[-> [= ->]]|(ns & _ & [= ->] & _)] & _ & Hlast & ->); [|done]. split; [|done].
      intros ->. by apply Hlast.
    + intros [Hn ->]. exists [n], t. split_and!; [by left|done| |done]. by intros [= ->].
Qed.

Definition fine (fuel : nat) (dir n : string) (ty : result string FileType) : Prop :=
  n <> PACKAGE_METADATA_FILE -> exists t, ty = Ok t /\ t <> TSymlink /\ (t = TDir -> walkable fuel (path_push dir n)).

Lemma shape_entry_spec root fuel dir base index index' n ty :
  (forall dir base index index', Forall (fun n => name_ok n = true) base ->
    collect_directory_shape fuel fs root dir (rel base) index = Ok index' ->
    walkable fuel dir /\ shape_gains base (entry_at dir) index index') ->
  Forall (fun n => name_ok n = true) base -> name_ok n = true -> (n = PACKAGE_METADATA_FILE -> ty = Ok TFile) ->
  shape_entry (collect_directory_shape fuel fs root) root dir (rel base) index (n, ty) = Ok index' ->
  fine fuel dir n ty /\ shape_gains base (in_entries dir [(n, ty)]) index index'.
Proof.
  intros IH Hbase Hn Hmeta. unfold shape_entry, fine. destruct (n == PACKAGE_METADATA_FILE) eqn:Hm; bool_prop.
  { intros [= <-]. rewrite (Hmeta Hm). split; [by intros ?|].
    destruct (places_single_file dir base n TFile) as [Hd Hf]; [done|].
    split; apply gains_none; [exact Hd|]. intros f. rewrite Hf. by intros [? _]. }
  rewrite join_relative_rel by done. destruct ty as [t|]; [|done]. cbn [map_err mbind result_bind].
  destruct (decide (t = TDir)) as [->|Ht].
  { intros Hc. apply IH in Hc as [Hw [Hd Hf]]; [|by apply Forall_app; auto]. split.
    - intros _. exists TDir. by split_and!.
    - split; (eapply gains_trans; [|eassumption|]).
      + by apply (gains_one _ (rel (base ++ [n])) (fun d => d = rel (base ++ [n]))).
      + apply dir_places_single.
      + by apply (gains_none _ (fun _ => False)); auto.
      + intros f. rewrite file_places_single_dir. tauto. }
  destruct (decide (t = TSymlink)) as [->|Hs]; [done|].
  intros Hi. assert (Hfs : pt_filesystem index' = pt_filesystem (add_file_place (rel (base ++ [n])) index)).
  { destruct t; [|done|done|]; injection Hi as <-; by repeat case_match. }
  split; [intros _; by exists t|]. destruct (places_single_file dir base n t Ht) as [Hd Hf].
  split; rewrite Hfs; [by apply gains_none|]. apply gains_one. intros f. rewrite Hf. naive_solver.
Qed.

Lemma shape_entries_spec root fuel dir base l :
  (forall index index' n ty, (n, ty) ∈ l ->
    shape_entry (collect_directory_shape fuel fs root) root dir (rel base) index (n, ty) = Ok index' ->
    fine fuel dir n ty /\ shape_gains base (in_entries dir [(n, ty)]) index index') ->
  forall index index',
  try_fold (shape_entry (collect_directory_shape fuel fs root) root dir (rel base)) index l = Ok index' ->
  (forall n ty, (n, ty) ∈ l -> fine fuel dir n ty) /\ shape_gains base (in_entries dir l) index index'.
Proof.
  induction l as [|[n ty] l IH]; intros Hone index index' Hfold; cbn [try_fold] in Hfold.
  { injection Hfold as <-. split; [by intros ? ? ?%elem_of_nil|].
    split; apply gains_none; intros x; [intros (? & []%in_entries_nil & _)|intros (? & ? & []%in_entries_nil & _)]. }
  apply result_bind_Ok in Hfold as (index1 & [Hw1 [Hd1 Hf1]]%Hone & Hfold); [|by left].
  apply IH in Hfold as [Hw [Hd Hf]]; [|intros; eapply Hone; [by right|done]]. split.
  { intros m ty' [[= -> ->]|Hin]%elem_of_cons; [done|by apply Hw]. }
  split.
  - apply (gains_trans _ _ _ _ _ _ Hd1 Hd). intros x. apply dir_places_or. intros names t. apply in_entries_cons.
  - apply (gains_trans _ _ _ _ _ _ Hf1 Hf). intros x. apply file_places_or. intros names t. apply in_entries_cons.
Qed.

Lemma collect_directory_shape_spec root fuel : forall dir base index index',
  Forall (fun n => name_ok n = true) base ->
  collect_directory_shape fuel fs root dir (rel base) index = Ok index' ->
  walkable fuel dir /\ shape_gains base (entry_at dir) index index'.
Proof.
  induction fuel as [|fuel IH]; intros dir base index index' Hbase; [done|]. cbn [collect_directory_shape].
  intros (entries & He & (l & Hl & Hfold)%result_bind_Ok)%result_bind_Ok.
  destruct (fs_entries fs dir) as [entries'|] eqn:Hentries; [|done]. injection He as ->.
  destruct (mapM _ entries) as [l'|] eqn:Hmap; [|done]. injection Hl as ->. apply mapM_entries in Hmap as ->.
  pose proof (merge_sort_Permutation name_le l) as Hperm.
  apply shape_entries_spec in Hfold as [Hwalk [Hd Hf]].
  - split.
    + exists l. split; [done|]. intros n ty Hin. apply Hwalk. by rewrite Hperm.
    + split; (eapply gains_ext; [eassumption|]); intros x; unfold dir_places, file_places;
        setoid_rewrite (in_entries_perm _ _ _ _ _ Hperm); by setoid_rewrite (in_entries_all _ _ _ _ Hentries).
  - intros index1 index2 n ty Hin. rewrite Hperm in Hin.
    destruct (Hnames dir _ n ty Hentries) as [Hn Hmeta]; [by apply list_elem_of_fmap_2|]. by apply shape_entry_spec.
Qed.

(** What the walk of the linker finds. *)
Definition walk_dirs (dest : string) (at_ : list string -> FileType -> Prop) (d : string) : Prop :=
  exists names, at_ names TDir /\ d = push_all dest names.
Definition walk_files (source dest : string) (at_ : list string -> FileType -> Prop) (e : string * string) : Prop :=
  exists names t, at_ names t /\ t <> TDir /\ e = (push_all source names, push_all dest names).
Definition walk_gains (source dest : string) (at_ : list string -> FileType -> Prop) (ops ops' : LinkOps) : Prop :=
  gains ops.1 ops'.1 (walk_dirs dest at_) /\ gains ops.2 ops'.2 (walk_files source dest at_).

Lemma walk_gains_cons source dest n ty l ops ops1 ops2 :
  walk_gains source dest (in_entries source [(n, ty)]) ops ops1 -> walk_gains source dest (in_entries source l) ops1 ops2 ->
  walk_gains source dest (in_entries source ((n, ty) :: l)) ops ops2.
Proof.
  intros [Hd1 Hf1] [Hd2 Hf2]. split.
  - apply (gains_trans _ _ _ _ _ _ Hd1 Hd2). intros x. unfold walk_dirs. setoid_rewrite (in_entries_cons source (n, ty) l).
    clear. firstorder.
  - apply (gains_trans _ _ _ _ _ _ Hf1 Hf2). intros x. unfold walk_files. setoid_rewrite (in_entries_cons source (n, ty) l).
    clear. firstorder.
Qed.

Lemma walk_gains_dir source dest n ops ops' :
  walk_gains (path_push source n) (path_push dest n) (entry_at (path_push source n)) (ops.1 ++ [path_push dest n], ops.2) ops' ->
  walk_gains source dest (in_entries source [(n, Ok TDir)]) ops ops'.
Proof.
  intros [Hd Hf]. cbn in Hd, Hf. split.
  - intros d. rewrite (Hd d), elem_of_app, list_elem_of_singleton. unfold walk_dirs. setoid_rewrite single_here. split.
    + intros [[?|Hx]|(ns & Hat & Hx)]; [by left| |]; right; [exists [n]|exists (n :: ns)]; (split; [|exact Hx]); [by left|].
      right. by exists ns.
    + intros [?|(names & [[-> _]|(ns & -> & _ & Hat)] & ->)]; [by left; left|by left; right|]. right. by exists ns.
  - intros e. rewrite (Hf e). unfold walk_files. setoid_rewrite single_here. split.
    + intros [?|(ns & t & Hat & Ht & ->)]; [by left|]. right. exists (n :: ns), t. split_and!; [|done|done]. right. by exists ns.
    + intros [?|(names & t & [[_ [= <-]]|(ns & -> & _ & Hat)] & Ht & ->)]; [by left|done|]. right. by exists ns, t.
Qed.

Lemma walk_gains_file source dest n t ops : t <> TDir ->
  walk_gains source dest (in_entries source [(n, Ok t)]) ops (ops.1, ops.2 ++ [(path_push source n, path_push dest n)]).
Proof.
  intros Ht. split; cbn.
  - apply gains_none. unfold walk_dirs. setoid_rewrite single_here. intros d (names & [[_ [= ->]]|(ns & _ & [= ->] & _)] & _); done.
  - apply gains_one. intros e. unfold walk_files. setoid_rewrite single_here. split.
    + intros (names & t' & [[-> _]|(ns & _ & [= ->] & _)] & _ & ->); done.
    + intros ->. exists [n], t. split_and!; [by left|done|done].
Qed.

Definition link_step (fuel : nat) (source dest : string) (ops : LinkOps) (entry : result string (string * result string FileType))
  : Result LinkOps :=
  '(name, file_type) ← dir_entry source entry;
  match file_type with
  | TSymlink => Err (refuse_symlink (path_push source name) "link")
  | TDir => collect_link_ops fuel fs (path_push source name) (path_push dest name) (ops.1 ++ [path_push dest name], ops.2)
  | _ => Ok (ops.1, ops.2 ++ [(path_push source name, path_push dest name)])
  end.

Lemma link_step_walk fuel source dest n ty :
  (forall source dest ops, walkable fuel source ->
    exists ops', collect_link_ops fuel fs source dest ops = Ok ops' /\ walk_gains source dest (entry_at source) ops ops') ->
  (n = PACKAGE_METADATA_FILE -> ty = Ok TFile) -> fine fuel source n ty ->
  forall ops, exists ops', link_step fuel source dest ops (Ok (n, ty)) = Ok ops' /\
    walk_gains source dest (in_entries source [(n, ty)]) ops ops'.
Proof.
  intros IH Hmeta Hfine ops.
  assert (Hty : exists t, ty = Ok t /\ t <> TSymlink /\ (t = TDir -> walkable fuel (path_push source n))).
  { destruct (decide (n = PACKAGE_METADATA_FILE)) as [Hm|Hm]; [|by apply Hfine].
    exists TFile. by rewrite (Hmeta Hm). }
  destruct Hty as (t & -> & Ht & Hdir). destruct t; [| |done|].
  2:{ destruct (IH (path_push source n) (path_push dest n) (ops.1 ++ [path_push dest n], ops.2)) as (ops1 & Hr & Hg); [by apply Hdir|].
      exists ops1. split; [exact Hr|]. by apply walk_gains_dir. }
  all: eexists; split; [reflexivity|]; by apply walk_gains_file.
Qed.

Lemma collect_link_ops_walk fuel : forall source dest ops, walkable fuel source ->
  exists ops', collect_link_ops fuel fs source dest ops = Ok ops' /\ walk_gains source dest (entry_at source) ops ops'.
Proof.
  induction fuel as [|fuel IH]; intros source dest ops; [done|]. cbn [walkable]. intros (l & Hl & Hwalk).
  assert (Hgen : forall ops, exists ops', try_fold (link_step fuel source dest) ops (Ok <$> l) = Ok ops' /\
    walk_gains source dest (in_entries source l) ops ops').
  { assert (Hok : forall n ty, (n, ty) ∈ l -> n = PACKAGE_METADATA_FILE -> ty = Ok TFile).
    { intros n ty Hin. eapply (Hnames source); [exact Hl|]. by apply list_elem_of_fmap_2. }
    clear Hl. revert Hwalk Hok. induction l as [|[n ty] l IHl]; intros Hwalk Hok ops0.
    { exists ops0. split; [done|]. split; apply gains_none; intros x; [intros (? & []%in_entries_nil & _)|
        intros (? & ? & []%in_entries_nil & _)]. }
    destruct (link_step_walk fuel source dest n ty IH (Hok n ty ltac:(by left)) (Hwalk n ty ltac:(by left)) ops0)
      as (ops1 & Hstep & Hg1). cbn [fmap list_fmap map try_fold]. rewrite Hstep. cbn [mbind result_bind].
    destruct (IHl ltac:(intros; eapply Hwalk; [by right|done]) ltac:(intros; eapply Hok; [by right|done]) ops1)
      as (ops2 & Hr & Hg2). exists ops2. split; [exact Hr|]. by eapply walk_gains_cons. }
  destruct (Hgen ops) as (ops' & Hr & [Hd Hf]). exists ops'.
  cbn [collect_link_ops]. unfold dir_entries. rewrite Hl. split; [exact Hr|]. split.
  - eapply gains_ext; [exact Hd|]. intros x. unfold walk_dirs. by setoid_rewrite (in_entries_all _ _ _ _ Hl).
  - eapply gains_ext; [exact Hf|]. intros x. unfold walk_files. by setoid_rewrite (in_entries_all _ _ _ _ Hl).
Qed.
End shape.

Lemma components_push_all names : forall p, Forall (fun n => name_ok n = true) names ->
  components (push_all p names) = components p ++ (Normal <$> names).
Proof.
  induction names as [|n names IH]; intros p; [by rewrite app_nil_r|]. intros [Hn Hok]%Forall_cons. cbn [push_all].
  rewrite IH, components_push by done. by rewrite <-(assoc_L app).
Qed.
Lemma file_name_push_all p names n : Forall (fun n => name_ok n = true) (names ++ [n]) ->
  file_name (push_all p (names ++ [n])) = Some n.
Proof.
  intros Hok. unfold file_name. rewrite components_push_all by done. rewrite fmap_app, (assoc_L app).
  change (Normal <$> [n]) with [Normal n]. by rewrite last_snoc.
Qed.
Lemma metadata_file_rel r : is_rel r -> exists names, Forall (fun n => name_ok n = true) (names ++ [PACKAGE_METADATA_FILE]) /\
  path_push r PACKAGE_METADATA_FILE = rel (names ++ [PACKAGE_METADATA_FILE]).
Proof.
  intros (names & Hok & ->). exists names. assert (Hm : name_ok PACKAGE_METADATA_FILE = true) by vm_refl.
  split; [by apply Forall_app; auto|]. rewrite <-join_relative_rel by done. unfold join_relative.
  case_match; [|done]. by destruct (rel names).
Qed.

(** The files of a description: those that were found, and the descriptions. *)
Definition metadata_files (index : PackageTreeIndex) : list string :=
  PACKAGE_METADATA_FILE ::
    ((fun nested_root => path_push nested_root PACKAGE_METADATA_FILE) <$> sort_paths (pt_nested_package_roots index)).

Section indexed.
Context (fs : FileSystem) (root dest : string) (shape : PackageTreeIndex).
Hypothesis Hnames : forall dir entries n ty, fs_entries fs dir = Ok entries -> Ok (n, ty) ∈ entries ->
  name_ok n = true /\ (n = PACKAGE_METADATA_FILE -> ty = Ok TFile).
Hypothesis Hgains : shape_gains [] (entry_at fs root) tree_index_default shape.
Hypothesis Hnested : forall r, r ∈ pt_nested_package_roots shape -> is_rel r.

Lemma shape_dirs x : x ∈ directories (pt_filesystem shape) <-> exists names, entry_at fs root names TDir /\ x = rel names.
Proof.
  destruct Hgains as [Hd _]. rewrite (Hd x). split; [|by right].
  intros [Hx|?]; [by apply elem_of_nil in Hx|done].
Qed.
Lemma shape_files_elem x : x ∈ shape_files (pt_filesystem shape) <->
  exists names t, entry_at fs root names t /\ t <> TDir /\ last names <> Some PACKAGE_METADATA_FILE /\ x = rel names.
Proof.
  destruct Hgains as [_ Hf]. rewrite (Hf x). split; [|by right].
  intros [Hx|?]; [by apply elem_of_nil in Hx|done].
Qed.
Lemma metadata_files_elem x : x ∈ metadata_files shape ->
  exists names, Forall (fun n => name_ok n = true) (names ++ [PACKAGE_METADATA_FILE]) /\ x = rel (names ++ [PACKAGE_METADATA_FILE]).
Proof.
  intros [-> |(r & -> & Hr)%list_elem_of_fmap]%elem_of_cons.
  - exists []. split; [|done]. repeat constructor.
  - rewrite sort_paths_elem in Hr by done. apply Hnested in Hr. by apply metadata_file_rel.
Qed.
Lemma all_files_rel x : x ∈ shape_files (pt_filesystem shape) ++ metadata_files shape -> is_rel x.
Proof.
  intros [(names & t & Hat & _ & _ & ->)%shape_files_elem|(names & Hok & ->)%metadata_files_elem]%elem_of_app.
  - exists names. split; [|done]. by eapply entry_at_ok.
  - by eexists.
Qed.
Lemma push_rel p names t : entry_at fs root names t -> path_push p (rel names) = push_all p names.
Proof. intros [Hok Hne]%(entry_at_ok fs Hnames). by rewrite push_all_rel. Qed.

Lemma indexed_dirs d :
  d ∈ dest :: (path_push dest <$> sort_paths (directories (pt_filesystem shape))) <->
  d = dest \/ walk_dirs dest (entry_at fs root) d.
Proof.
  rewrite elem_of_cons, list_elem_of_fmap. unfold walk_dirs. apply or_iff_compat_l. split.
  - intros (x & -> & Hx). rewrite sort_paths_elem in Hx.
    + apply shape_dirs in Hx as (names & Hat & ->). exists names. split; [done|]. by eapply push_rel.
    + intros p (names & Hat & ->)%shape_dirs. exists names. split; [by eapply entry_at_ok|done].
  - intros (names & Hat & ->). exists (rel names). split; [by erewrite push_rel|]. rewrite sort_paths_elem.
    + apply shape_dirs. by exists names.
    + intros p (names' & Hat' & ->)%shape_dirs. exists names'. split; [by eapply entry_at_ok|done].
Qed.

Lemma indexed_files e : file_name e.1 <> Some PACKAGE_METADATA_FILE ->
  e ∈ (fun r => (path_push root r, path_push dest r)) <$> sort_paths (shape_files (pt_filesystem shape) ++ metadata_files shape) <->
  walk_files root dest (entry_at fs root) e.
Proof.
  intros He. rewrite list_elem_of_fmap. split.
  - intros (x & -> & Hx). rewrite sort_paths_elem in Hx by apply all_files_rel.
    apply elem_of_app in Hx as [(names & t & Hat & Ht & _ & ->)%shape_files_elem|(names & Hok & ->)%metadata_files_elem].
    + exists names, t. by rewrite !(push_rel _ _ _ Hat).
    + exfalso. apply He. cbn [fst]. rewrite <-push_all_rel by (done || by destruct names). by apply file_name_push_all.
  - intros (names & t & Hat & Ht & ->). exists (rel names). rewrite !(push_rel _ _ _ Hat). split; [done|].
    rewrite sort_paths_elem by apply all_files_rel. apply elem_of_app. left. apply shape_files_elem.
    exists names, t. split_and!; [done|done| |done]. intros Hlast. apply He. cbn [fst].
    apply last_Some in Hlast as [names' ->]. apply file_name_push_all. by eapply entry_at_ok.
Qed.
End indexed.

(** C14: Linking from the description of a package is linking by walking it.  When
    the description of a package that was just unpacked could be made, the walk
    of the package succeeds, to the same depth; reading the description back
    gives the same directories, and the same files from and to the same places,
    up to the files with descriptions, which the description adds itself. *)
Theorem indexed_link_ops_walk `{MetadataJson} fs fs' fuel root dest index :
  (forall dir entries n ty, fs_entries fs dir = Ok entries -> Ok (n, ty) ∈ entries ->
     name_ok n = true /\ (n = PACKAGE_METADATA_FILE -> ty = Ok TFile)) ->
  collect_package_tree_index fuel fs root = Ok index ->
  read_package_filesystem_shape_lossy fs' root = Some (pt_filesystem index) ->
  exists walked indexed,
    collect_link_ops fuel fs root dest ([dest], []) = Ok walked /\ indexed_link_ops fs' root dest = Some indexed /\
    (forall d, d ∈ indexed.1 <-> d ∈ walked.1) /\
    (forall e, file_name e.1 <> Some PACKAGE_METADATA_FILE -> e ∈ indexed.2 <-> e ∈ walked.2) /\
    (path_push root PACKAGE_METADATA_FILE, path_push dest PACKAGE_METADATA_FILE) ∈ indexed.2.
Proof.
  intros Hnames (shape & Hshape & [= <-])%result_bind_Ok Hread.
  pose proof (nested_roots_rel fs root ltac:(intros ? ? ? ? He Hi; by apply (Hnames _ _ _ _ He Hi)) _ _ [] _ _
    ltac:(constructor) Hshape ltac:(by intros ? ?%elem_of_nil)) as Hnested.
  apply (collect_directory_shape_spec fs Hnames root fuel root [] _ _ ltac:(constructor)) in Hshape as [Hwalk [Hd Hf]].
  destruct (collect_link_ops_walk fs Hnames fuel root dest ([dest], []) Hwalk) as (walked & Hr & [Hwd Hwf]).
  unfold indexed_link_ops. rewrite Hread. cbn [mbind option_bind pt_filesystem directories shape_files].
  exists walked. eexists. split; [exact Hr|]. split; [reflexivity|]. cbn [fst snd].
  change (_ :: (_ <$> sort_paths (pt_nested_package_roots shape))) with (metadata_files shape). split_and!.
  - intros d. rewrite (indexed_dirs fs root dest shape Hnames (conj Hd Hf)), (Hwd d). cbn [fst].
    by rewrite list_elem_of_singleton.
  - intros e He. rewrite (indexed_files fs root dest shape Hnames (conj Hd Hf) Hnested) by done. rewrite (Hwf e). cbn [snd].
    rewrite elem_of_nil. tauto.
  - apply list_elem_of_fmap. exists PACKAGE_METADATA_FILE. split; [done|].
    rewrite sort_paths_elem by by apply (all_files_rel fs root). apply elem_of_app. right. by left.
Qed.

(** ** Witness *)
Module StoreTreeDemo.
Definition entry_file (name : string) : result string (string * result string FileType) := Ok (name, Ok TFile).
Definition entry_dir (name : string) : result string (string * result string FileType) := Ok (name, Ok TDir).
Definition entries_of (path : string) : result string (list (result string (string * result string FileType))) :=
  if path == "/r" then Ok [entry_file "package.json"; entry_dir "lib"]
  else if path == "/r/lib" then Ok [entry_file "index.js"; entry_file "package.json"]
  else Err "not a directory".
Definition fs : FileSystem := {|
  fs_lstat _ := Err "unused"; fs_stat _ := Err "unused"; fs_read_link _ := Err "unused"; fs_entries := entries_of;
  fs_bytes p := if p == "/r/.snpm-package-metadata.json" then Ok "described" else Err "no such file" |}.

Definition described : PackageFilesystemShape := {|
  directories := ["lib"];
  shape_files := [".snpm-package-metadata.json"; "lib/.snpm-package-metadata.json"; "lib/index.js"; "lib/package.json"; "package.json"] |}.
#[local] Instance json : MetadataJson := {|
  metadata_from_str s := if s == "described" then Some (with_filesystem described metadata_default) else None;
  metadata_to_vec _ := Err "unused";
  facts_from_str _ := None |}.

Example tree_collected : collect_package_tree_index 5 fs "/r" = Ok {| pt_filesystem := described; pt_nested_package_roots := ["lib"] |}.
Proof. vm_refl. Qed.

Lemma indexed_link_ops_walk_witness :
  exists walked indexed,
    collect_link_ops 5 fs "/r" "/d" (["/d"], []) = Ok walked /\ indexed_link_ops fs "/r" "/d" = Some indexed /\
    (forall d, d ∈ indexed.1 <-> d ∈ walked.1) /\
    (forall e, file_name e.1 <> Some PACKAGE_METADATA_FILE -> e ∈ indexed.2 <-> e ∈ walked.2) /\
    ("/r/.snpm-package-metadata.json", "/d/.snpm-package-metadata.json") ∈ indexed.2.
Proof.
  apply (indexed_link_ops_walk fs fs 5 "/r" "/d" {| pt_filesystem := described; pt_nested_package_roots := ["lib"] |});
    [|vm_refl|vm_refl].
  intros d entries n ty. cbn. unfold entries_of. case_match; [|case_match; [|done]].
  all: intros [= <-] Hin; repeat (apply elem_of_cons in Hin as [Hin|Hin]; [injection Hin as -> ->; split; [vm_refl|by intros ?]|]);
    by apply elem_of_nil in Hin.
Defined.
End StoreTreeDemo.
