(* ===== verification/StoreSafe.v ===== *)
(** * Filling the store stays in the store ([store/archive/], [store/ensure.rs])

    Whatever an archive contains and a registry answers, what is written is in the
    directory of the package, the store and the cache. *)
From S2P Require Import Prelude.
From S2P Require Import BTree.
From S2P Require Import Text.
From S2P Require Import Errors.
From S2P Require Import Types.
From S2P Require Import Paths.
From S2P Require Import Crates.
From S2P Require Import Peers.
From S2P Require Import Config.
From S2P Require Import Linker.
From S2P Require Import Sharing.
From S2P Require Import Residency.
From S2P Require Import Store.
From S2P Require Import World.
From S2P Require Import Http.
From S2P Require Import LinkFs.
From S2P Require Import StoreFs.
From S2P Require Import StoreTree.

(** ** What a package is allowed to touch *)
Lemma keeps_bind_Ok {W A B} (R : relation W) `{!PreOrder R} (m : Eff W A) (k : A -> Eff W B) :
  keeps R m -> (forall w a w', m w = (Ok a, w') -> keeps R (k a)) -> keeps R (m ≫= k).
Proof.
  intros Hm Hk w r w' [(e & He & ->)|(a & w1 & Ha & Hr)]%eff_bind_inv; [by eapply Hm|].
  transitivity w1; [by eapply Hm|by eapply Hk].
Qed.
Lemma keeps_lift_bind {W A B} (R : relation W) `{!PreOrder R} (r : Result A) (k : A -> Eff W B) :
  (forall a, r = Ok a -> keeps R (k a)) -> keeps R (lift r ≫= k).
Proof. intros Hk. apply keeps_bind_Ok; [done|by apply keeps_lift|]. intros w a w' [= -> _]. by apply Hk. Qed.
Lemma keeps_world_bind {W B} (R : relation W) (k : W -> Eff W B) : (forall w, keeps R (k w)) -> keeps R (world ≫= k).
Proof. intros Hk w r w'. apply Hk. Qed.

(** Joining a path below a directory. *)
Definition below (base : list string) (q : string) : Prop :=
  exists rest, Forall (fun n => name_ok n = true) rest /\ q = abs_path (base ++ rest).

Lemma below_push base q n :
  Forall (fun n => name_ok n = true) base -> name_ok n = true -> below base q -> below base (path_push q n).
Proof.
  intros Hb Hn (rest & Hr & ->). exists (rest ++ [n]). split; [by apply Forall_app; auto|].
  rewrite path_push_abs by (done || by apply Forall_app). by rewrite (assoc_L app).
Qed.

Lemma below_inside base q : Forall (fun n => name_ok n = true) base -> below base q -> inside (abs_path base) q.
Proof.
  intros Hb (rest & Hr & ->). exists rest. rewrite !components_abs by (done || by apply Forall_app).
  by rewrite fmap_app.
Qed.

(** A path of an archive never leaves the directory: it is joined below it, or
    refused because of a parent or a root in it. *)
Lemma join_components_below base l : forall out,
  Forall (fun n => name_ok n = true) base -> (forall n, Normal n ∈ l -> name_ok n = true) -> below base out ->
  match join_components out l with
  | Some q => below base q /\ existsb invalid_root_component l = false
  | None => existsb invalid_root_component l = true
  end.
Proof.
  induction l as [|c l IH]; intros out Hb Hl Hout; cbn [join_components existsb]; [done|].
  destruct c as [| | |n]; cbn [invalid_root_component orb]; [done| |done|].
  - apply IH; [done| |done]. intros n Hn. apply Hl. by right.
  - apply IH; [done|intros n' Hn; apply Hl; by right|]. apply below_push; [done|apply Hl; by left|done].
Qed.

Lemma safe_join_below base rel :
  Forall (fun n => name_ok n = true) base ->
  match safe_join (abs_path base) rel with
  | Some q => below base q /\ existsb invalid_root_component (components rel) = false
  | None => existsb invalid_root_component (components rel) = true
  end.
Proof.
  intros Hb. apply join_components_below; [done|apply components_ok|]. exists []. by rewrite app_nil_r.
Qed.

Section operations.
Context `{FsWorld W} (R : relation W) `{!PreOrder R}.

Definition op_keeps (op : IoOp W) : Prop := forall w r w', op w = (r, w') -> R w w'.
Lemma keeps_io_error error op : op_keeps op -> keeps R (io_error error op).
Proof. intros Hop w r w'. unfold io_error. destruct (op w) eqn:E. intros [= _ <-]. by eapply Hop. Qed.
Lemma keeps_io_ignore op : op_keeps op -> keeps R (io_ignore op).
Proof. intros Hop w r w'. unfold io_ignore. destruct (op w) eqn:E. intros [= _ <-]. by eapply Hop. Qed.
Lemma keeps_io_try op : op_keeps op -> keeps R (io_try op).
Proof. intros Hop w r w'. unfold io_try. destruct (op w) eqn:E. intros [= _ <-]. by eapply Hop. Qed.
Lemma keeps_eff_of_op op : op_keeps op -> keeps R (eff_of op).
Proof. intros Hop w r w'. unfold eff_of. destruct (op w) eqn:E. intros [= _ <-]. by eapply Hop. Qed.

Lemma keeps_ensure_parent_dir names :
  Forall (fun n => name_ok n = true) names -> op_keeps (fs_create_dir_all (abs_path (removelast names))) ->
  keeps R (ensure_parent_dir (abs_path names)).
Proof.
  intros Hok Hop. unfold ensure_parent_dir. pose proof (path_pop_abs names Hok) as Hp. unfold path_pop in Hp.
  destruct (parent (abs_path names)) as [p|]; [|by apply keeps_ret]. cbn in Hp. subst p. by apply keeps_io_error.
Qed.
End operations.

Section unpack.
Context `{StoreWorld W} `{TarCrate} (R : relation W) `{!PreOrder R}.

Lemma unpack_keeps base reads :
  Forall (fun n => name_ok n = true) base ->
  (forall q, below base q \/ q = abs_path (removelast base) -> op_keeps R (fs_create_dir_all q)) ->
  (forall entry q, te_type entry = EntryRegular -> below base q -> op_keeps R (fs_unpack entry q)) ->
  keeps R (unpack_tarball_reader (abs_path base) reads).
Proof.
  intros Hb Hdir Hunpack. unfold unpack_tarball_reader. apply keeps_lift_bind; [done|]. intros entries _.
  apply keeps_fold; [done|]. intros _ entry. unfold unpack_entry. apply keeps_lift_bind; [done|]. intros e _.
  apply keeps_lift_bind; [done|]. intros rel _. pose proof (safe_join_below base rel Hb) as Hj.
  destruct (safe_join _ _) as [q|]; [|by apply keeps_lift]. destruct Hj as [Hq _].
  destruct (te_type e) eqn:Ht; [|by apply keeps_io_error, Hdir; left|by apply keeps_lift..|by apply keeps_ret].
  apply keeps_bind; [done| |intros _; by apply keeps_io_error, Hunpack].
  destruct Hq as (rest & Hr & ->). apply keeps_ensure_parent_dir; [done|by apply Forall_app|]. apply Hdir.
  destruct rest as [|n rest _] using rev_ind; [right; by rewrite app_nil_r|left].
  apply Forall_app in Hr as [Hr _]. exists rest. by rewrite (assoc_L app), removelast_last.
Qed.

(** Unpacking an archive stays in its directory.  Whatever the names and the
    types of the entries are, and wherever it stops: only directories that are
    the directory of the package, below it or its parent are created, and only
    regular files are written, at places below it.  So every property of the rest
    of the file system that these operations keep is kept by unpacking. *)
Theorem unpack_confined base tarball_path :
  Forall (fun n => name_ok n = true) base ->
  (forall q, below base q \/ q = abs_path (removelast base) -> op_keeps R (fs_create_dir_all q)) ->
  (forall entry q, te_type entry = EntryRegular -> below base q -> op_keeps R (fs_unpack entry q)) ->
  keeps R (unpack_tarball_file (abs_path base) tarball_path).
Proof.
  intros Hb Hdir Hunpack. unfold unpack_tarball_file. apply keeps_world_bind. intros w.
  apply keeps_lift_bind; [done|]. intros reads _. by apply unpack_keeps.
Qed.
End unpack.

(** ** What filling the store is allowed to touch *)
Section frame.
Context `{StoreWorld W} (R : relation W) (S : string -> Prop).

Definition makes_keeps (parent : string) (op : W -> result string string * W) : Prop := forall w r w',
  op w = (r, w') -> R w w' /\ forall path, r = Ok path -> exists n, name_ok n = true /\ path = path_push parent n.

(** The operations at paths of [S] keep [R]; so do requests and what the process
    remembers.  A temporary file or directory is a new name in its parent. *)
Record store_frame : Prop := {
  fr_create_dir_all q : S q -> op_keeps R (fs_create_dir_all q);
  fr_create_dir q : S q -> op_keeps R (fs_create_dir q);
  fr_remove_file q : S q -> op_keeps R (fs_remove_file q);
  fr_remove_dir_all q : S q -> op_keeps R (fs_remove_dir_all q);
  fr_open_truncate q : S q -> op_keeps R (fs_open_truncate q);
  fr_append q data : S q -> op_keeps R (fs_append q data);
  fr_flush q : S q -> op_keeps R (fs_flush q);
  fr_rename p q : S p -> S q -> op_keeps R (fs_rename p q);
  fr_reflink p q : S q -> op_keeps R (fs_reflink p q);
  fr_copy p q : S q -> op_keeps R (fs_copy p q);
  fr_unpack entry q : te_type entry = EntryRegular -> S q -> op_keeps R (fs_unpack entry q);
  fr_write q data w r disk : S q -> fs_write (world_disk w) q data = (r, disk) -> R w (put_disk disk w);
  fr_tempdir parent prefix : S parent -> makes_keeps parent (fs_tempdir_in parent prefix);
  fr_tempfile parent prefix suffix : S parent -> makes_keeps parent (fs_tempfile_in parent prefix suffix);
  fr_http_get url header w r w' : http_get url header w = (r, w') -> R w w';
  fr_http_sleep d w : R w (http_sleep d w);
  fr_memory m w : R w (put_link_memory m w);
}.
End frame.

(** The names [read_dir] gives are names, in every world. *)
Definition names_ok (W : Type) `{FsWorld W} : Prop := forall w dir entries name file_type,
  fs_entries (view w) dir = Ok entries -> Ok (name, file_type) ∈ entries -> name_ok name = true.

Section confined.
Context `{StoreWorld W} `{TarCrate} `{DigestCrates} `{MetadataJson} (R : relation W) `{!PreOrder R}
  (S : string -> Prop) (HS : store_frame R S) (Hnames : names_ok W).

(** A directory that may be filled. *)
Definition open_dir (base : list string) : Prop :=
  Forall (fun n => name_ok n = true) base /\ forall q, inside (abs_path base) q -> S q.

Lemma open_below base q : open_dir base -> below base q -> S q.
Proof. intros [Hb HSb] Hq. by apply HSb, below_inside. Qed.
Lemma open_self base : open_dir base -> S (abs_path base).
Proof. intros [_ HSb]. apply HSb, inside_refl. Qed.
Lemma open_app base rest : open_dir base -> Forall (fun n => name_ok n = true) rest -> open_dir (base ++ rest).
Proof.
  intros [Hb HSb] Hr. split; [by apply Forall_app|]. intros q (names & Hq). apply HSb. exists (rest ++ names).
  rewrite Hq, !components_abs by (done || by apply Forall_app). by rewrite !fmap_app, (assoc_L app).
Qed.

Lemma keeps_tempdir_in parent prefix : S parent -> keeps R (tempdir_in parent prefix).
Proof.
  intros Hp w r w'. unfold tempdir_in, eff_of, lift, mbind, eff_bind.
  destruct (fs_tempdir_in parent prefix w) as [d w1] eqn:E. intros [= _ <-]. by apply (fr_tempdir _ _ HS _ _ Hp) in E as [? _].
Qed.
Lemma tempdir_in_name parent prefix w d w' : S parent -> tempdir_in parent prefix w = (Ok d, w') ->
  exists n, name_ok n = true /\ d = path_push parent n.
Proof.
  intros Hp. unfold tempdir_in, eff_of, lift, mbind, eff_bind.
  destruct (fs_tempdir_in parent prefix w) as [[d'|] w1] eqn:E; [|done]. intros [= <- _].
  apply (fr_tempdir _ _ HS _ _ Hp) in E as [_ Hd]. by apply Hd.
Qed.

Lemma keeps_remove_path_any path : S path -> keeps R (remove_path_any path).
Proof.
  intros Hp. unfold remove_path_any. apply keeps_world_bind. intros w. destruct (fs_lstat _ _); [|by apply keeps_ret].
  apply keeps_io_ignore. case_decide; [by apply (fr_remove_dir_all _ _ HS)|by apply (fr_remove_file _ _ HS)].
Qed.

Lemma keeps_finalize staged final : S staged -> S final -> keeps R (atomic_finalize_extracted_dir staged final).
Proof.
  intros Hs Hf. unfold atomic_finalize_extracted_dir.
  apply keeps_bind; [done|by apply keeps_io_try, (fr_rename _ _ HS)|]. intros [|]; [by apply keeps_ret|].
  apply keeps_world_bind. intros w. case_match; [by apply keeps_io_ignore, (fr_remove_dir_all _ _ HS)|].
  apply keeps_bind; [done|by apply keeps_remove_path_any|]. intros _.
  apply keeps_bind; [done|by apply keeps_eff_of_op, (fr_rename _ _ HS)|]. intros [|]; [by apply keeps_ret|].
  apply keeps_bind; [done|by apply keeps_io_ignore, (fr_remove_dir_all _ _ HS)|]. intros _. by apply keeps_lift.
Qed.

Lemma keeps_or_discard staged fill : S staged -> keeps R fill -> keeps R (or_discard staged fill).
Proof.
  intros Hs Hf. unfold or_discard. apply keeps_bind; [done|by apply keeps_attempt|]. intros [|]; [by apply keeps_ret|].
  apply keeps_bind; [done|by apply keeps_io_ignore, (fr_remove_dir_all _ _ HS)|]. intros _. by apply keeps_lift.
Qed.

Lemma keeps_unpack base n path : open_dir base -> name_ok n = true -> keeps R (unpack_tarball_file (abs_path (base ++ [n])) path).
Proof.
  intros Hb Hn. assert (Hbn : open_dir (base ++ [n])) by (apply open_app; [done|by repeat constructor]).
  unfold unpack_tarball_file. apply keeps_world_bind. intros w. apply keeps_lift_bind; [done|]. intros reads _.
  apply unpack_keeps; [done|apply Hbn| |].
  - intros q [Hq| ->]; apply (fr_create_dir_all _ _ HS); [by eapply open_below|].
    rewrite removelast_last. by apply open_self.
  - intros entry q Ht Hq. apply (fr_unpack _ _ HS); [done|by eapply open_below].
Qed.

Lemma keeps_clone_or_copy from to : S to -> keeps R (clone_or_copy_file from to).
Proof.
  intros Hto. unfold clone_or_copy_file. apply keeps_bind; [done| |].
  - unfold try_primitive. apply keeps_world_bind. intros w. case_match; [by apply keeps_ret|].
    apply keeps_bind; [done|by apply keeps_io_try, (fr_reflink _ _ HS)|]. intros ok.
    apply keeps_bind; [done| |intros _; by apply keeps_ret]. intros w1 r w2 [= _ <-]. apply (fr_memory _ _ HS).
  - intros [|]; [by apply keeps_ret|]. by apply keeps_eff_of_op, (fr_copy _ _ HS).
Qed.

Lemma keeps_copy_dir_all base error fuel : open_dir base -> forall src dst, below base dst ->
  keeps R (copy_dir_all error fuel src dst).
Proof.
  intros Hb. induction fuel as [|fuel IH]; intros src dst Hdst; cbn [copy_dir_all]; [by apply keeps_lift|].
  apply keeps_bind; [done|by eapply keeps_io_error, (fr_create_dir_all _ _ HS), open_below|]. intros _.
  apply keeps_world_bind. intros w. apply keeps_lift_bind; [done|]. intros entries Hentries.
  destruct (fs_entries (view w) src) as [entries'|] eqn:He; [|done]. injection Hentries as ->.
  assert (Hall : forall entry, entry ∈ entries -> forall name t, entry = Ok (name, t) -> below base (path_push dst name)).
  { intros entry Hin name t ->. apply below_push; [apply Hb|by eapply Hnames|done]. }
  clear He. induction entries as [|entry entries IHe]; [by apply keeps_ret|].
  cbn [eff_fold]. apply keeps_bind; [done| |intros []; apply IHe; intros e Hin; apply Hall; by right].
  apply keeps_lift_bind; [done|]. intros [name t] Hentry. destruct entry as [[name' t']|]; [|done]. injection Hentry as -> ->.
  pose proof (Hall _ ltac:(by left) _ _ eq_refl) as Hto.
  apply keeps_lift_bind; [done|]. intros file_type _. case_match; [by apply keeps_ret|].
  destruct file_type; [|by apply IH|by apply keeps_lift|].
  all: apply keeps_bind; [done|by eapply keeps_clone_or_copy, open_below|intros ?; by apply keeps_lift].
Qed.
End confined.

(** ** Filling the store stays in the store *)
Lemma inside_trans p q r : inside p q -> inside q r -> inside p r.
Proof. intros (a & Ha) (b & Hb). exists (a ++ b). by rewrite Hb, Ha, fmap_app, (assoc_L app). Qed.
Lemma inside_not_empty base q : Forall (fun n => name_ok n = true) base -> inside (abs_path base) q -> is_empty q = false.
Proof. intros Hok (names & Hq). rewrite components_abs in Hq by done. by destruct q. Qed.
Lemma inside_push_rel p names : is_empty p = false -> Forall (fun n => name_ok n = true) names -> inside p (path_push p (rel names)).
Proof.
  intros Hp Hok. apply inside_push; [done|by apply rel_not_absolute|]. rewrite components_rel by done.
  apply existsb_false. intros c (n & -> & _)%list_elem_of_fmap. done.
Qed.
Lemma parent_abs_snoc {E} (e : E) base n p : Forall (fun n => name_ok n = true) base -> name_ok n = true ->
  ok_or e (parent (abs_path (base ++ [n]))) = Ok p -> p = abs_path base.
Proof.
  intros Hb Hn. pose proof (path_pop_abs (base ++ [n]) ltac:(apply Forall_app; auto)) as Hp.
  unfold path_pop in Hp. destruct (parent _) as [q|]; [|done]. rewrite removelast_last in Hp. cbn in *. congruence.
Qed.
Lemma push_pair base m n : Forall (fun n => name_ok n = true) base -> name_ok m = true -> name_ok n = true ->
  path_push (path_push (abs_path base) m) n = abs_path (base ++ [m; n]).
Proof.
  intros Hb Hm Hn. rewrite path_push_abs by done. rewrite path_push_abs by (done || by apply Forall_app; auto).
  by rewrite <-(assoc_L app).
Qed.

Section confined_store.
Context `{StoreWorld W} `{TarCrate} `{DigestCrates} `{MetadataJson} (R : relation W) `{!PreOrder R}
  (S : string -> Prop) (HS : store_frame R S) (Hnames : names_ok W).

Lemma keeps_staging base n prefix (fill : string -> Eff W unit) : open_dir S base -> name_ok n = true ->
  (forall m, name_ok m = true -> keeps R (fill (abs_path (base ++ [m])))) ->
  keeps R (staged_path ← tempdir_in (abs_path base) prefix;
           _ ← or_discard staged_path (fill staged_path);
           atomic_finalize_extracted_dir staged_path (abs_path (base ++ [n]))).
Proof.
  intros Hb Hn Hfill. pose proof (open_self S base Hb) as Hself.
  apply keeps_bind_Ok; [done|by eapply keeps_tempdir_in|]. intros w d w' Hd.
  eapply tempdir_in_name in Hd as (m & Hm & ->); [|done..]. rewrite path_push_abs by (done || apply Hb).
  assert (HSm : forall m, name_ok m = true -> S (abs_path (base ++ [m]))).
  { intros m' Hm'. apply (open_below S base); [done|]. exists [m']. split; [by repeat constructor|done]. }
  apply keeps_bind; [done|by eapply keeps_or_discard; eauto|]. intros _. eapply keeps_finalize; eauto.
Qed.

Lemma keeps_local_stage base n source_path url integrity : open_dir S base -> name_ok n = true ->
  keeps R (local_stage_unpack_finalize source_path (abs_path (base ++ [n])) url integrity).
Proof.
  intros Hb Hn. unfold local_stage_unpack_finalize. apply keeps_lift_bind; [done|].
  intros p ->%parent_abs_snoc; [|apply Hb|done].
  apply keeps_bind; [done|by eapply keeps_io_error, (fr_create_dir_all _ _ HS), open_self|]. intros _.
  apply keeps_staging; [done|done|]. intros m Hm. apply keeps_world_bind. intros w. case_match.
  - rewrite path_push_abs; [|by apply Forall_app; split; [apply Hb|repeat constructor]|done].
    eapply (keeps_copy_dir_all R S HS Hnames (base ++ [m] ++ ["package"])).
    + apply open_app; [done|]. by repeat constructor.
    + exists []. split; [constructor|]. by rewrite app_nil_r, (assoc_L app).
  - apply keeps_lift_bind; [done|]. intros _ _. by eapply keeps_unpack.
Qed.

Lemma keeps_stage_unpack base n cached : open_dir S base -> name_ok n = true ->
  keeps R (stage_unpack_finalize cached (abs_path (base ++ [n]))).
Proof.
  intros Hb Hn. unfold stage_unpack_finalize. apply keeps_lift_bind; [done|]. intros p ->%parent_abs_snoc; [|apply Hb|done].
  apply keeps_bind; [done|by eapply keeps_io_error, (fr_create_dir_all _ _ HS), open_self|]. intros _.
  assert (Hst : keeps R (staged_finalize cached (abs_path (base ++ [n])) (abs_path base))).
  { unfold staged_finalize. apply (keeps_staging base n _ (fun d => unpack_tarball_file d cached)); [done|done|].
    intros m Hm. by eapply keeps_unpack. }
  assert (HSn : S (abs_path (base ++ [n]))).
  { apply (open_below S base); [done|]. exists [n]. split; [by repeat constructor|done]. }
  apply keeps_world_bind. intros w. case_match; [exact Hst|].
  apply keeps_bind; [done|by apply keeps_eff_of_op, (fr_create_dir _ _ HS)|]. intros [|].
  - eapply keeps_or_discard; [done..|]. by eapply keeps_unpack.
  - case_match; [exact Hst|by apply keeps_lift].
Qed.

Lemma keeps_request config name url : keeps R (request_tarball config name url).
Proof.
  assert (Hloop : forall fuel attempt w r w', retry_loop subsec_nanos http_sleep
    (http_get url (authorization_header_for_tarball config name url)) fuel policy_default attempt w = (r, w') -> R w w').
  { induction fuel as [|fuel IH]; intros attempt w r w'; cbn [retry_loop].
    all: destruct (http_get url _ w) as [[value|error] w1] eqn:E; apply (fr_http_get _ _ HS) in E.
    all: try (by intros [= <- <-]); case_match; try (by intros [= <- <-]).
    intros Hr. transitivity w1; [done|]. etransitivity; [apply (fr_http_sleep _ _ HS)|by eapply IH]. }
  intros w r w'. unfold request_tarball, with_retry. destruct (retry_loop _ _ _ _ _ _ w) as [r1 w1] eqn:E.
  intros [= _ <-]. by eapply Hloop.
Qed.

(** The keys of verified archives are hexadecimal texts. *)
Context (Hhex : forall s, name_ok (hex_encode s +:+ ".tgz") = true).

Lemma finish_key v url key : finish v url = Ok (Some key) -> exists a d, key = cache_key_new (algorithm_name a) d.
Proof.
  unfold finish. case_match; [done|]. generalize (tokens (spec v)). intros l.
  induction l as [|t l IH]; cbn; [done|]. destruct (ok_or _ _) as [actual|]; [|done]. cbn.
  destruct (decode_expected_digest _ _) as [d|]; [|done]. cbn. case_match; [|exact IH].
  destruct (cacheable _); [|done]. intros [= <-]. by eexists _, _.
Qed.

Lemma keeps_download_bytes config name url spec file : S file -> keeps R (download_bytes config name url spec file).
Proof.
  intros Hfile. unfold download_bytes. apply keeps_bind; [done|by apply keeps_io_error, (fr_open_truncate _ _ HS)|]. intros _.
  apply keeps_bind; [done|apply keeps_request|]. intros chunks. apply keeps_bind; [done| |intros [v size]].
  { apply keeps_fold; [done|]. intros acc chunk. unfold take_chunk. apply keeps_lift_bind; [done|]. intros bytes _.
    apply keeps_bind; [done|by apply keeps_io_error, (fr_append _ _ HS)|]. intros _. by apply keeps_ret. }
  apply keeps_bind; [done|by apply keeps_io_error, (fr_flush _ _ HS)|]. intros _. keep.
Qed.
Lemma download_bytes_key config name url spec file w key size w' :
  download_bytes config name url spec file w = (Ok (Some key, size), w') -> exists a d, key = cache_key_new (algorithm_name a) d.
Proof.
  unfold download_bytes. intros Hr. eff_inv Hr. eff_inv Hr. eff_inv Hr. destruct a1 as [[v|] n]; eff_inv Hr; eff_inv Hr;
    injection Hr as -> _ _; injection Hm3 as Hm3 _; [by apply finish_key in Hm3|done].
Qed.

Lemma keeps_download_into config name url spec file cache : c_cache_dir config = abs_path cache -> open_dir S cache -> S file ->
  keeps R (download_into config name url spec file).
Proof.
  intros Hc Hcache Hfile. unfold download_into.
  apply keeps_bind_Ok; [done|by apply keeps_download_bytes|]. intros w0 [[key|] size] w0' Hkey; [|by apply keeps_ret].
  apply download_bytes_key in Hkey as (a & d & ->). unfold keep_blob.
  assert (Hdir : Forall (fun n => name_ok n = true) (cache ++ ["tarballs-v1"; algorithm_name a])).
  { apply Forall_app; split; [apply Hcache|]. destruct a; by repeat constructor. }
  unfold blob_cache_path, tarball_blob_cache_dir. rewrite Hc. cbn [cache_key_new key_algorithm digest_hex].
  rewrite push_pair by (apply Hcache || done || by destruct a). rewrite path_push_abs by done. apply keeps_lift_bind; [done|]. intros p ->%parent_abs_snoc; [|done|done].
  assert (HSb : forall rest, Forall (fun n => name_ok n = true) rest -> S (abs_path ((cache ++ ["tarballs-v1"; algorithm_name a]) ++ rest))).
  { intros rest Hr. apply (open_below S cache); [done|]. apply Forall_app in Hdir as [_ Hd].
    exists (["tarballs-v1"; algorithm_name a] ++ rest). split; [by apply Forall_app|]. by rewrite <-(assoc_L app). }
  apply keeps_bind; [done| |intros _].
  { apply keeps_io_error, (fr_create_dir_all _ _ HS). rewrite <-(app_nil_r (cache ++ _)). by apply HSb. }
  apply keeps_bind; [done|by apply keeps_eff_of_op, (fr_rename _ _ HS); [|apply HSb; repeat constructor]|].
  intros [|]; [by apply keeps_ret|]. apply keeps_world_bind. intros w. case_match; [|by apply keeps_lift].
  apply keeps_bind; [done| |intros ?; by apply keeps_ret]. unfold blob_size. keep.
Qed.

Lemma download_into_temp config name url spec file w t w' :
  download_into config name url spec file w = (Ok t, w') -> forall f, dt_temp_path t = Some f -> f = file.
Proof.
  unfold download_into, keep_blob. intros Hr f. eff_inv Hr. destruct a as [[key|] size]; [|injection Hr as <- _; by intros [= <-]].
  eff_inv Hr. eff_inv Hr. eff_inv Hr. destruct a1 as [|source]; [by injection Hr as <- _|].
  eff_inv Hr. case_match; [|done]. eff_inv Hr. injection Hr as <- _. by intros [= <-].
Qed.

Lemma keeps_create_temp_path dir : open_dir S dir -> keeps R (create_temp_path (abs_path dir)).
Proof.
  intros Hdir. unfold create_temp_path.
  apply keeps_bind; [done|by eapply keeps_io_error, (fr_create_dir_all _ _ HS), open_self|]. intros _.
  apply keeps_bind; [done| |intros ?; by apply keeps_lift]. intros w r w'. unfold eff_of.
  destruct (fs_tempfile_in _ _ _ w) eqn:E. intros [= _ <-]. by apply (fr_tempfile _ _ HS) in E as [? _]; [|apply open_self].
Qed.
Lemma create_temp_path_in dir w file w' : open_dir S dir -> create_temp_path (abs_path dir) w = (Ok file, w') -> S file.
Proof.
  intros Hdir Hr. unfold create_temp_path in Hr. eff_inv Hr. eff_inv Hr. unfold eff_of in Hm0.
  destruct (fs_tempfile_in _ _ _ w0) as [made w2] eqn:E. injection Hm0 as <- _. destruct made as [path|]; [|done].
  injection Hr as -> _. apply (fr_tempfile _ _ HS) in E as [_ Hn]; [|by apply open_self].
  destruct (Hn file eq_refl) as (n & Hn' & ->). rewrite path_push_abs by (done || apply Hdir).
  apply (open_below S dir); [done|]. exists [n]. split; [by repeat constructor|done].
Qed.

Lemma blob_tmp_dir config cache : c_cache_dir config = abs_path cache -> open_dir S cache ->
  path_push (tarball_blob_cache_dir config) "tmp" = abs_path (cache ++ ["tarballs-v1"; "tmp"]) /\
  open_dir S (cache ++ ["tarballs-v1"; "tmp"]).
Proof.
  intros Hc Hcache. split; [|by apply open_app; [|repeat constructor]].
  unfold tarball_blob_cache_dir. by rewrite Hc, push_pair by (apply Hcache || done).
Qed.

Lemma keeps_download config name url spec cache : c_cache_dir config = abs_path cache -> open_dir S cache ->
  keeps R (download_blob config name url spec).
Proof.
  intros Hc Hcache. unfold download_blob. destruct (blob_tmp_dir config cache Hc Hcache) as [-> Htmp].
  apply keeps_bind_Ok; [done|by apply keeps_create_temp_path|]. intros w file w' Hfile%create_temp_path_in; [|done].
  apply keeps_bind; [done|by eapply keeps_attempt, keeps_download_into|]. intros outcome.
  apply keeps_bind; [done| |intros _; by apply keeps_lift].
  destruct outcome as [[? ? ? [?|]]|]; [by apply keeps_ret|by apply keeps_io_ignore, (fr_remove_file _ _ HS)..].
Qed.
Lemma keeps_drop config name url spec cache w t w' : c_cache_dir config = abs_path cache -> open_dir S cache ->
  download_blob config name url spec w = (Ok t, w') -> keeps R (drop_tarball t).
Proof.
  intros Hc Hcache Hr. unfold download_blob in Hr. destruct (blob_tmp_dir config cache Hc Hcache) as [Hd Htmp].
  rewrite Hd in Hr. eff_inv Hr. apply create_temp_path_in in Hm; [|done]. eff_inv Hr. eff_inv Hr.
  injection Hr as -> _. unfold attempt in Hm0. destruct (download_into _ _ _ _ _ _) as [r w3] eqn:E.
  injection Hm0 as -> _. unfold drop_tarball. destruct (dt_temp_path t) as [f|] eqn:Ht; [|by apply keeps_ret].
  eapply download_into_temp in E as ->; [|done]. by apply keeps_io_ignore, (fr_remove_file _ _ HS).
Qed.

Lemma keeps_remote config package cache base n : c_cache_dir config = abs_path cache -> open_dir S cache ->
  open_dir S base -> name_ok n = true -> keeps R (materialize_remote_package config package (abs_path (base ++ [n]))).
Proof.
  intros Hc Hcache Hb Hn. unfold materialize_remote_package.
  assert (Hstage : forall cached, keeps R (stage_unpack_finalize cached (abs_path (base ++ [n])))).
  { intros cached. by apply keeps_stage_unpack. }
  unfold download_and_extract. set (name := id_name _). set (url := r_tarball _). set (spec := spec_parse _).
  apply keeps_bind_Ok; [done| |].
  - apply keeps_lift_bind; [done|]. intros paths _. apply keeps_world_bind. intros w. case_match.
    + apply keeps_bind; [done|unfold blob_size; keep|]. intros size. apply keeps_bind; [done|apply Hstage|]. intros _. by apply keeps_ret.
    + apply keeps_bind_Ok; [done|by eapply keeps_download|]. intros w1 tarball w2 Hdown.
      apply keeps_bind; [done|by apply keeps_attempt|]. intros [|]; [by apply keeps_ret|].
      apply keeps_bind; [done|by eapply keeps_drop|]. intros _. by apply keeps_lift.
  - intros w tarball w' Hr. apply eff_bind_Ok in Hr as (paths & w1 & _ & Hr). apply eff_bind_Ok in Hr as (w2 & w3 & _ & Hr).
    case_match.
    + apply eff_bind_Ok in Hr as (size & w4 & _ & Hr). apply eff_bind_Ok in Hr as (u & w5 & _ & Hr).
      injection Hr as <- _. by apply keeps_ret.
    + apply eff_bind_Ok in Hr as (t & w4 & Hdown & Hr). apply eff_bind_Ok in Hr as (u & w5 & _ & Hr).
      destruct u; [injection Hr as <- _; by eapply keeps_drop|]. by apply eff_bind_Ok in Hr as (? & ? & _ & ?).
Qed.

Lemma keeps_write_metadata path metadata : S path -> keeps R (write_metadata path metadata).
Proof.
  intros Hp. unfold write_metadata. apply keeps_lift_bind; [done|]. intros data _ w r w'. unfold write_output. cbn [fst snd].
  destruct (fs_write _ _ _) as [r1 disk] eqn:E. intros [= _ <-]. by eapply (fr_write _ _ HS).
Qed.

Lemma keeps_persist base root : open_dir S base -> inside (abs_path base) root ->
  keeps R (persist_package_metadata (abs_path base) root).
Proof.
  intros Hb Hroot. assert (Hne : is_empty root = false) by (eapply inside_not_empty; [apply Hb|done]).
  assert (HSi : forall q, inside root q -> S (path_push q PACKAGE_METADATA_FILE)).
  { intros q Hq. apply (proj2 Hb). eapply inside_trans; [exact Hroot|]. eapply inside_trans; [exact Hq|].
    by apply inside_push_name. }
  unfold persist_package_metadata. apply keeps_world_bind. intros w. apply keeps_lift_bind; [done|].
  intros index (shape & Hshape & [= <-])%result_bind_Ok.
  assert (Hn : forall dir entries n ty, fs_entries (view w) dir = Ok entries -> Ok (n, ty) ∈ entries -> name_ok n = true).
  { intros dir entries n ty He Hin. by eapply Hnames. }
  pose proof (nested_roots_rel (view w) root Hn _ _ [] _ _ ltac:(constructor) Hshape ltac:(by intros ? ?%elem_of_nil)) as Hnested.
  apply keeps_bind; [done|by apply keeps_write_metadata, HSi, inside_refl|]. intros _.
  apply keeps_bind; [done| |].
  - cbn [pt_nested_package_roots]. assert (Hall : forall r, r ∈ sort_paths (pt_nested_package_roots shape) -> is_rel r).
    { intros r. rewrite sort_paths_elem by done. apply Hnested. }
    induction (sort_paths (pt_nested_package_roots shape)) as [|r l IH]; [by apply keeps_ret|]. cbn [eff_fold].
    apply keeps_bind; [done| |intros []; apply IH; intros; apply Hall; by right].
    apply keeps_world_bind. intros w1. apply keeps_write_metadata, HSi.
    destruct (Hall r ltac:(by left)) as (names & Hok & ->). by apply inside_push_rel.
  - intros _. case_match; [|by apply keeps_ret]. case_match; [by apply keeps_ret|]. apply keeps_write_metadata.
    apply (proj2 Hb). by apply inside_push_name.
Qed.

Lemma keeps_write_marker path : S path -> keeps R (write_output (path, ε)).
Proof.
  intros Hp w r w'. unfold write_output. cbn [fst snd]. destruct (fs_write _ _ _) as [r1 disk] eqn:E.
  intros [= _ <-]. by eapply (fr_write _ _ HS).
Qed.

Lemma ensure_package_keeps config package mode data cache :
  c_data_dir config = abs_path data -> c_cache_dir config = abs_path cache -> open_dir S data -> open_dir S cache ->
  name_ok (sanitize_name (id_name (r_id package))) = true -> name_ok (id_version (r_id package)) = true ->
  keeps R (ensure_package_with_offline config package mode).
Proof.
  intros Hd Hc Hdata Hcache Hn Hv. unfold ensure_package_with_offline.
  set (base := data ++ ["packages"; sanitize_name (id_name (r_id package))]).
  assert (Hdir : store_package_dir config package = abs_path (base ++ [id_version (r_id package)])).
  { unfold store_package_dir, package_dir, packages_dir. rewrite Hd, push_pair by (apply Hdata || done).
    rewrite path_push_abs; [done| |done]. apply Forall_app; split; [apply Hdata|by repeat constructor]. }
  assert (Hbase : open_dir S base) by (apply open_app; [done|by repeat constructor]).
  assert (Hpkg : open_dir S (base ++ [id_version (r_id package)])) by (apply open_app; [done|by repeat constructor]).
  rewrite Hdir. cbn zeta. assert (Hne : is_empty (abs_path (base ++ [id_version (r_id package)])) = false).
  { by destruct base. }
  assert (Hroot : forall w, inside (abs_path (base ++ [id_version (r_id package)]))
    (package_root_dir (view w) (abs_path (base ++ [id_version (r_id package)])))).
  { intros w. apply package_root_dir_inside; [|done]. intros dir entries e. cbn.
    destruct (fs_entries (view w) dir) as [raw|] eqn:E; [|done]. intros [= <-] He.
    apply list_elem_of_omap in He as ([[n t]|] & Hin & [= <-]). by eapply Hnames. }
  apply keeps_world_bind. intros w. case_match.
  - apply keeps_bind; [done|apply keeps_attempt|intros _; by apply keeps_ret]. unfold backfill_package_metadata.
    apply keeps_world_bind. intros w1. case_match; [by apply keeps_ret|]. by apply keeps_persist.
  - case_match; [by apply keeps_lift|]. apply keeps_bind; [done| |intros _].
    { unfold materialize_package. case_match; [|by eapply keeps_remote]. unfold materialize_local_package.
      apply keeps_lift_bind; [done|]. intros source _. by apply keeps_local_stage. }
    apply keeps_bind; [done| |intros _].
    { apply keeps_write_marker. apply (proj2 Hpkg). by apply inside_push_name. }
    apply keeps_world_bind. intros w1. apply keeps_bind; [done|by apply keeps_attempt, keeps_persist|]. intros _. by apply keeps_ret.
Qed.

(** C6: Filling the store stays in the store.  Whatever the registry answers and
    the archives contain, and wherever it fails: every operation that makes a
    package available is at a path of the store or of the cache (directories,
    temporary files, unpacked files, moves, marker and descriptions), provided
    the name and the version of the package are single names.  So every property
    of the rest of the file system that such operations keep is kept. *)
Theorem ensure_package_confined config package mode data cache :
  c_data_dir config = abs_path data -> c_cache_dir config = abs_path cache -> open_dir S data -> open_dir S cache ->
  name_ok (sanitize_name (id_name (r_id package))) = true -> name_ok (id_version (r_id package)) = true ->
  keeps R (ensure_package_with_offline config package mode).
Proof. apply ensure_package_keeps. Qed.
End confined_store.

(** What orchestration relies on ([World.ensure_package_store]), of this
    implementation: when the operations at the paths of the store leave
    everything else alone, so does making a package available. *)
Lemma ensure_package_store_only `{StoreWorld W} `{TarCrate} `{DigestCrates} `{MetadataJson} config package data cache :
  store_frame (store_only config) (fun q => inside (c_data_dir config) q \/ inside (c_cache_dir config) q) -> names_ok W ->
  (forall s, name_ok (hex_encode s +:+ ".tgz") = true) ->
  c_data_dir config = abs_path data -> c_cache_dir config = abs_path cache ->
  Forall (fun n => name_ok n = true) data -> Forall (fun n => name_ok n = true) cache ->
  name_ok (sanitize_name (id_name (r_id package))) = true -> name_ok (id_version (r_id package)) = true ->
  keeps (store_only config) (store_ensure_package config package).
Proof.
  intros HS Hnames Hhex Hd Hc Hdata Hcache Hn Hv. unfold store_ensure_package.
  apply (ensure_package_keeps (store_only config) _ HS Hnames Hhex config package Online data cache Hd Hc); [..|done|done].
  - split; [done|]. intros q. rewrite Hd. by left.
  - split; [done|]. intros q. rewrite Hc. by right.
Qed.
