(* ===== verification/StoreBlobs.v ===== *)
(** * Only verified bytes are unpacked ([store/fetch.rs])

    The cache of downloaded archives is addressed by digests; what is unpacked
    matches the integrity text.  The file ends with a concrete world, for this
    file and for [StoreSafe]. *)
From S2P Require Import Prelude.
From S2P Require Import BTree.
From S2P Require Import Text.
From S2P Require Import Errors.
From S2P Require Import Types.
From S2P Require Import Paths.
From S2P Require Import Crates.
From S2P Require Import Peers.
From S2P Require Import Config.
From S2P Require Import Linker.
From S2P Require Import Sharing.
From S2P Require Import Residency.
From S2P Require Import Store.
From S2P Require Import World.
From S2P Require Import Http.
From S2P Require Import LinkFs.
From S2P Require Import StoreFs.
From S2P Require Import StoreTree.
From S2P Require Import StoreSafe.

(** ** Only verified bytes are unpacked *)
Definition content `{FsWorld W} (w : W) (path : string) : result string string := fs_read (world_disk w) path.
(** The files other than [path] are as they were. *)
Definition others_same `{FsWorld W} (path : string) (w w' : W) : Prop := forall q, q <> path -> content w' q = content w q.
Definition files_same `{FsWorld W} (w w' : W) : Prop := forall q, content w' q = content w q.

(** What the operations of a download do to the bytes of files, as their
    documentation says; no other process writes to them meanwhile. *)
Class FileLaws (W : Type) `{StoreWorld W} := {
  open_truncate_content p w r w' : fs_open_truncate p w = (r, w') ->
    others_same p w w' /\ (r = Ok tt -> content w' p = Ok ε);
  append_content p data w r w' : fs_append p data w = (r, w') ->
    others_same p w w' /\ (r = Ok tt -> forall c, content w p = Ok c -> content w' p = Ok (c +:+ data));
  flush_content p w r w' : fs_flush p w = (r, w') -> files_same w w';
  rename_content p q w r w' : fs_rename p q w = (r, w') ->
    match r with
    | Ok _ => content w' q = content w p /\ forall x, x <> p -> x <> q -> content w' x = content w x
    | Err _ => files_same w w'
    end;
  create_dir_all_content p w r w' : fs_create_dir_all p w = (r, w') -> files_same w w';
  remove_file_content p w r w' : fs_remove_file p w = (r, w') -> others_same p w w';
  http_get_content url header w r w' : http_get url header w = (r, w') -> files_same w w';
  http_sleep_content d w : files_same w (http_sleep d w);
}.

Global Instance files_same_preorder `{FsWorld W} : PreOrder files_same.
Proof. split; [by intros w q|]. intros w1 w2 w3 H12 H23 q. by rewrite (H23 q), (H12 q). Qed.
Global Instance others_same_preorder `{FsWorld W} p : PreOrder (others_same p).
Proof. split; [by intros w q|]. intros w1 w2 w3 H12 H23 q Hq. by rewrite (H23 q Hq), (H12 q Hq). Qed.

(** Bytes that an integrity text admits. *)
Definition admitted `{DigestCrates} (integrity : option string) (bytes : string) : Prop :=
  match spec_parse integrity with
  | None => True
  | Some spec => exists t, t ∈ tokens spec /\ token_admits bytes t
  end.

Section verified.
Context `{StoreWorld W} `{!FileLaws W} `{TarCrate} `{DigestLaws} (config : SnpmConfig).

Definition key_path (a : IntegrityAlgorithm) (digest : string) : string :=
  blob_cache_path config (cache_key_new (algorithm_name a) digest).

(** A blob of the cache has the digest in its name. *)
Definition cache_sound (w : W) : Prop := forall a d bytes, content w (key_path a d) = Ok bytes -> digest a bytes = d.

(** Blobs have names of their own. *)
Context (key_path_inj : forall a d a' d', key_path a d = key_path a' d' -> a = a' /\ d = d').

Lemma cache_sound_same w w' : files_same w w' -> cache_sound w -> cache_sound w'.
Proof. intros Hs Hw a d bytes. rewrite (Hs _). apply Hw. Qed.
Lemma cache_sound_others file w w' : (forall a d, key_path a d <> file) -> others_same file w w' -> cache_sound w -> cache_sound w'.
Proof. intros Hne Hs Hw a d bytes. rewrite (Hs _ (Hne a d)). apply Hw. Qed.

Lemma request_same name url w r w' : request_tarball config name url w = (r, w') -> files_same w w'.
Proof.
  unfold request_tarball, with_retry. destruct (retry_loop _ _ _ _ _ _ w) as [r1 w1] eqn:E. intros [= _ <-].
  revert E. generalize (N.to_nat (retries policy_default)). generalize 0%N. intros attempt fuel. revert attempt w r1 w1.
  induction fuel as [|fuel IH]; intros attempt w r1 w1; cbn [retry_loop].
  all: destruct (http_get url _ w) as [[value|error] w2] eqn:E; apply http_get_content in E.
  all: try (by intros [= <- <-]); case_match; try (by intros [= <- <-]).
  intros Hr. etransitivity; [exact E|]. etransitivity; [apply http_sleep_content|by eapply IH].
Qed.

(** The pieces reach the verifier and the file alike. *)
Lemma take_chunks url file chunks : forall v size c w v' size' w',
  content w file = Ok c ->
  eff_fold (take_chunk url file) (v, size) chunks w = (Ok (v', size'), w') ->
  exists bytes, content w' file = Ok (c +:+ bytes) /\ v' = (fun v => update v bytes) <$> v /\
    size' = (size + N.of_nat (String.length bytes))%N /\ others_same file w w'.
Proof.
  induction chunks as [|chunk chunks IH]; intros v size c w v' size' w' Hc; cbn [eff_fold].
  { intros [= <- <- <-]. exists ε. rewrite app_nil_s. split_and!; [done| |cbn; lia|done].
    destruct v as [v|]; [|done]. cbn. by rewrite update_nil. }
  intros Hr. apply eff_bind_Ok in Hr as ([v1 size1] & w1 & Hm & Hr). unfold take_chunk in Hm. cbn [fst snd] in Hm.
  apply eff_bind_Ok in Hm as (data & w2 & Hl & Hm). destruct chunk as [data'|]; [|done]. injection Hl as <- <-.
  apply eff_bind_Ok in Hm as (u & w3 & Hm & Hret). injection Hret as <- <- <-.
  unfold io_write, io_error in Hm. destruct (fs_append file data' w) as [r w4] eqn:E. destruct r as [[]|]; [|done].
  injection Hm as _ ->. apply append_content in E as [Ho Hd]. specialize (Hd eq_refl c Hc).
  eapply IH in Hr as (bytes & Hcb & -> & -> & Ho'); [|exact Hd]. exists (data' +:+ bytes). split_and!.
  - by rewrite Hcb, app_assoc_s.
  - destruct v as [v|]; [|done]. cbn. by rewrite update_app.
  - rewrite length_app_s. lia.
  - by etransitivity.
Qed.

(** What a key that is kept says about the bytes. *)
Definition key_admits (integrity_spec : option IntegritySpec) (key : option IntegrityCacheKey) (bytes : string) : Prop :=
  match integrity_spec with
  | None => key = None
  | Some spec => exists t, t ∈ tokens spec /\ token_admits bytes t /\
      (key = None \/ key = Some (cache_key_new (algorithm_name (algorithm t)) (digest (algorithm t) bytes)))
  end.

Lemma matched_key_admits url integrity bytes key :
  matched_key url ((fun v => update v bytes) <$> (verifier <$> spec_parse integrity)) = Ok key ->
  key_admits (spec_parse integrity) key bytes.
Proof.
  rewrite spec_parse_spec. destruct integrity as [text|]; [|by intros [= <-]].
  destruct (is_empty (trim text)); [by intros [= <-]|]. cbn [fmap option_fmap option_map matched_key].
  match goal with |- finish (update (verifier ?s) _) _ = _ -> _ => set (self := s) end.
  intros Hf. apply (finish_outcome self url bytes _ (verifier_has_seen self bytes) eq_refl) in Hf.
  destruct Hf as (pre & t & post & Htok & _ & Hadm & ->). exists t. split_and!; [|done|].
  - rewrite Htok. apply elem_of_app. right. by left.
  - case_match; auto.
Qed.

Lemma io_error_same error file (op : IoOp W) : (forall w r w', op w = (r, w') -> others_same file w w') ->
  keeps (others_same file) (io_error error op).
Proof. intros Hop. apply keeps_io_error. exact Hop. Qed.

Lemma download_bytes_same name url spec file : keeps (others_same file) (download_bytes config name url spec file).
Proof.
  assert (Hfile : forall w w', files_same w w' -> others_same file w w') by (intros w w' Hs q _; apply Hs).
  unfold download_bytes. apply keeps_bind; [apply _|apply io_error_same; intros w r w' Hr; by eapply open_truncate_content|]. intros _.
  apply keeps_bind; [apply _| |intros chunks]. { intros w r w' Hr. by eapply Hfile, request_same. }
  apply keeps_bind; [apply _| |intros [v n]].
  { apply keeps_fold; [apply _|]. intros acc chunk. unfold take_chunk. apply keeps_lift_bind; [apply _|]. intros bytes _.
    apply keeps_bind; [apply _| |intros _; apply keeps_ret; apply _].
    apply io_error_same. intros w r w' Hr. by eapply append_content. }
  apply keeps_bind; [apply _|apply io_error_same; intros w r w' Hr; by eapply Hfile, flush_content|]. intros _.
  apply keeps_lift_bind; [apply _|]. intros key _. apply keeps_ret. apply _.
Qed.

(** The bytes that arrive are those the verifier has seen. *)
Lemma download_bytes_content name url integrity file w key size w' :
  download_bytes config name url (spec_parse integrity) file w = (Ok (key, size), w') ->
  exists bytes, content w' file = Ok bytes /\ size = N.of_nat (String.length bytes) /\ key_admits (spec_parse integrity) key bytes.
Proof.
  unfold download_bytes. intros Hr. apply eff_bind_Ok in Hr as ([] & w1 & Hopen & Hr).
  unfold io_write, io_error in Hopen. destruct (fs_open_truncate file w) as [r wo] eqn:E. destruct r as [[]|]; [|done].
  injection Hopen as ->. apply open_truncate_content in E as [_ Hempty]. specialize (Hempty eq_refl).
  apply eff_bind_Ok in Hr as (chunks & w2 & Hreq%request_same & Hr). rewrite <-(Hreq file) in Hempty.
  apply eff_bind_Ok in Hr as ([v n] & w3 & Hfold & Hr).
  eapply take_chunks in Hfold as (bytes & Hbytes & -> & -> & _); [|exact Hempty].
  apply eff_bind_Ok in Hr as ([] & w4 & Hflush & Hr). unfold io_write, io_error in Hflush.
  destruct (fs_flush file w3) as [r wf] eqn:E. injection Hflush as _ ->. apply flush_content in E.
  apply eff_bind_Ok in Hr as (key' & w5 & Hkey & Hr). injection Hr as -> <- ->. injection Hkey as Hkey <-.
  exists bytes. rewrite (E file), Hbytes. split_and!; [done|cbn; lia|]. by eapply matched_key_admits.
Qed.

Lemma keep_blob_sound integrity file key size bytes w r w' :
  (forall a d, key_path a d <> file) -> cache_sound w -> content w file = Ok bytes -> key_admits (spec_parse integrity) key bytes ->
  keep_blob config file key size w = (r, w') ->
  cache_sound w' /\ forall t b, r = Ok t -> content w' (dt_path t) = Ok b -> admitted integrity b.
Proof.
  intros Hfile Hw Hbytes Hkey. unfold keep_blob, admitted. unfold key_admits in Hkey.
  destruct key as [key|].
  2:{ intros [= <- <-]. split; [done|]. intros t b [= <-] Hb. cbn in Hb. rewrite Hbytes in Hb. injection Hb as <-.
      destruct (spec_parse integrity); [|done]. destruct Hkey as (tok & ? & ? & _). by exists tok. }
  destruct (spec_parse integrity) as [spec|]; [|done]. destruct Hkey as (tok & Hin & Hadm & [?|[= ->]]); [done|].
  fold (key_path (algorithm tok) (digest (algorithm tok) bytes)).
  intros [(e & He & ->)|(p & w1 & Hp & Hr)]%eff_bind_inv; [by injection He as _ <-|]. injection Hp as _ <-.
  assert (Hdir : forall r w', create_dir_all p w = (r, w') -> files_same w w').
  { intros r1 w1'. unfold create_dir_all, io_write, io_error. destruct (fs_create_dir_all p w) eqn:E. intros [= _ <-].
    by eapply create_dir_all_content. }
  apply eff_bind_inv in Hr as [(e & Hc%Hdir & ->)|(u & w1 & Hc%Hdir & Hr)]; [split; [by eapply cache_sound_same|done]|].
  apply eff_bind_inv in Hr as [(e & Hm & _)|(renamed & w2 & Hm & Hr)]; unfold eff_of in Hm;
    destruct (fs_rename file _ w1) as [r1 w3] eqn:E; [done|]. injection Hm as <- <-. apply rename_content in E.
  rewrite <-(Hc file) in Hbytes. assert (Hw1 : cache_sound w1) by by eapply cache_sound_same.
  destruct r1 as [u1|source].
  - injection Hr as <- <-. destruct E as [Hq Hothers]. split.
    + intros a d b Hb. destruct (decide (key_path a d = key_path (algorithm tok) (digest (algorithm tok) bytes))) as [Heq|Hne].
      * rewrite Heq, Hq, Hbytes in Hb. injection Hb as <-. by apply key_path_inj in Heq as [-> ->].
      * rewrite Hothers in Hb by (apply Hfile || done). by apply Hw1.
    + intros t b [= <-] Hb. cbn in Hb. rewrite Hq, Hbytes in Hb. injection Hb as <-. by exists tok.
  - assert (Hw3 : cache_sound w3) by by eapply cache_sound_same.
    unfold mbind at 1, eff_bind at 1, world in Hr. case_match; [|by injection Hr as <- <-].
    assert (Hsize : forall r w', blob_size (key_path (algorithm tok) (digest (algorithm tok) bytes)) w3 = (r, w') -> w' = w3).
    { intros r2 w4. unfold blob_size, lift, mbind, eff_bind, world. destruct (fs_stat _ _); by intros [= _ <-]. }
    apply eff_bind_inv in Hr as [(e & He%Hsize & ->)|(n & w4 & Hn%Hsize & Hr)]; [by subst|]. subst w4. injection Hr as <- <-.
    split; [done|]. intros t b [= <-] Hb. cbn in Hb. exists tok. split; [done|].
    apply Hw3 in Hb. unfold token_admits in *. congruence.
Qed.

(** A temporary file is new, and no blob. *)
Context (Htemp : forall parent prefix suffix w r w', fs_tempfile_in parent prefix suffix w = (r, w') ->
  match r with Ok path => others_same path w w' /\ forall a d, key_path a d <> path | Err _ => files_same w w' end).

Lemma download_into_kept name url spec file w t w' :
  download_into config name url spec file w = (Ok t, w') -> dt_temp_path t = None -> exists a d, dt_path t = key_path a d.
Proof.
  unfold download_into. intros Hr Ht. apply eff_bind_Ok in Hr as ([[key|] size] & w1 & Hkey & Hr);
    [|by injection Hr as <- _]. apply download_bytes_key in Hkey as (a & d & ->). exists a, d.
  unfold keep_blob in Hr. eff_inv Hr. eff_inv Hr. eff_inv Hr. destruct a2 as [|source]; [by injection Hr as <- _|].
  eff_inv Hr. case_match; [|done]. eff_inv Hr. by injection Hr as <- _.
Qed.

Lemma create_temp_sound parent w r w' : cache_sound w -> create_temp_path parent w = (r, w') ->
  cache_sound w' /\ forall file, r = Ok file -> forall a d, key_path a d <> file.
Proof.
  intros Hw. unfold create_temp_path. intros [(e & Hd & ->)|(u & w2 & Hd & Hr)]%eff_bind_inv;
    unfold create_dir_all, io_write, io_error in Hd; destruct (fs_create_dir_all parent w) as [rd wd] eqn:E;
    apply create_dir_all_content in E; injection Hd as _ <-; (assert (Hwd : cache_sound wd) by by eapply cache_sound_same); [done|].
  unfold eff_of, lift, mbind, eff_bind in Hr. destruct (fs_tempfile_in _ _ _ wd) as [made w3] eqn:Et. apply Htemp in Et.
  injection Hr as <- <-. destruct made as [path|e]; [|by split; [eapply cache_sound_same|]].
  destruct Et as [Ho Hne]. split; [by eapply cache_sound_others|]. by intros file [= <-].
Qed.

Lemma download_blob_sound name url integrity w r w' : cache_sound w ->
  download_blob config name url (spec_parse integrity) w = (r, w') ->
  cache_sound w' /\ forall t b, r = Ok t -> content w' (dt_path t) = Ok b -> admitted integrity b.
Proof.
  intros Hw. unfold download_blob. intros [(e & Hc & ->)|(file & w1 & Hc & Hr)]%eff_bind_inv;
    (apply create_temp_sound in Hc as [Hw1 Hne]; [|done]); [done|]. specialize (Hne file eq_refl).
  apply eff_bind_inv in Hr as [(e & Hm & _)|(outcome & w2 & Hm & Hr)];
    [revert Hm; unfold attempt; by destruct (download_into _ _ _ _ _ w1)|].
  unfold attempt in Hm. destruct (download_into _ _ _ _ _ w1) as [outcome' w2'] eqn:Hdown. injection Hm as -> ->.
  assert (Hw2 : cache_sound w2 /\ forall t b, outcome = Ok t -> content w2 (dt_path t) = Ok b -> admitted integrity b).
  { pose proof Hdown as Hd. unfold download_into in Hd. apply eff_bind_inv in Hd as [(e & Hb & ->)|([key size] & w3 & Hb & Hk)].
    - split; [|done]. eapply cache_sound_others; [exact Hne| |exact Hw1]. by eapply download_bytes_same.
    - assert (Hw3 : cache_sound w3).
      { eapply cache_sound_others; [exact Hne| |exact Hw1]. by eapply download_bytes_same. }
      apply download_bytes_content in Hb as (bytes & Hbytes & _ & Hkey). by eapply keep_blob_sound. }
  destruct Hw2 as [Hw2 Hadm].
  assert (Hend : forall r w', io_ignore (fs_remove_file file) w2 = (r, w') -> r = Ok tt /\ others_same file w2 w').
  { intros r1 w3. unfold io_ignore. destruct (fs_remove_file file w2) eqn:E. intros [= <- <-].
    split; [done|]. by eapply remove_file_content. }
  destruct outcome as [t|e]; [destruct (dt_temp_path t) as [f|] eqn:Ht|].
  - destruct t; cbn in Ht; subst; cbn in Hr. injection Hr as <- <-. done.
  - assert (Hpath : exists a d, dt_path t = key_path a d) by by eapply download_into_kept.
    destruct t as [p size source temp]; cbn in Ht; subst. apply eff_bind_inv in Hr as [(e & [? _]%Hend & _)|(u & w3 & [_ Ho]%Hend & Hr)]; [done|].
    injection Hr as <- <-. split; [by eapply cache_sound_others|]. intros t b [= <-] Hb. eapply Hadm; [done|].
    destruct Hpath as (a & d & Hp). cbn in Hp, Hb |- *. rewrite Hp in Hb |- *. by rewrite <-(Ho _ (Hne a d)).
  - apply eff_bind_inv in Hr as [(e' & [? _]%Hend & _)|(u & w3 & [_ Ho]%Hend & Hr)]; [done|].
    injection Hr as <- <-. split; [by eapply cache_sound_others|done].
Qed.

(** A blob that is found under a key of the integrity text is admitted by it. *)
Lemma cached_blob_sound url integrity paths path w bytes : cache_sound w ->
  cached_blob_paths config url (spec_parse integrity) = Ok paths -> path ∈ paths -> content w path = Ok bytes ->
  admitted integrity bytes.
Proof.
  unfold cached_blob_paths, admitted. intros Hw Hpaths Hin Hb. destruct (spec_parse integrity) as [spec|] eqn:Hspec; [|done].
  destruct (cache_keys spec url) as [keys|] eqn:Hkeys; [|done]. injection Hpaths as <-.
  apply list_elem_of_fmap in Hin as (key & -> & Hkey).
  destruct (cacheable spec) eqn:Hc; [|unfold cache_keys in Hkeys; rewrite Hc in Hkeys; injection Hkeys as <-; by apply elem_of_nil in Hkey].
  destruct (cache_keys_mem spec url key Hc) as (keys' & Hkeys' & Hmem).
  { rewrite spec_parse_spec in Hspec. destruct integrity as [text|]; [|done]. destruct (is_empty _); [done|].
    injection Hspec as <-. cbn [tokens cacheable] in *. intros t Ht. apply is_ok_true. by eapply forallb_true in Hc. }
  rewrite Hkeys in Hkeys'. injection Hkeys' as <-. apply Hmem in Hkey as (t & d & Ht & Hd & ->). exists t. split; [done|].
  apply Hw in Hb. unfold token_admits. by rewrite Hd, <-Hb.
Qed.

(** C5: Only bytes that match the integrity text are unpacked.  In a cache whose
    blobs have the digests they are named after, a package that is made available
    was unpacked from a file whose bytes the integrity text admits, whether they
    came from the cache, from the registry, or from a download that another
    process finished first; and the cache is still sound then. *)
Theorem extracted_bytes_admitted name url integrity final_dir w t w' : cache_sound w ->
  download_and_extract config name url integrity final_dir w = (Ok t, w') ->
  exists w1 w2, cache_sound w1 /\ stage_unpack_finalize (dt_path t) final_dir w1 = (Ok tt, w2) /\
    forall bytes, content w1 (dt_path t) = Ok bytes -> admitted integrity bytes.
Proof.
  intros Hw. unfold download_and_extract. intros Hr. apply eff_bind_Ok in Hr as (paths & w1 & Hpaths & Hr).
  injection Hpaths as Hpaths <-. apply eff_bind_Ok in Hr as (w1 & w2 & Hworld & Hr). injection Hworld as <- <-.
  destruct (first_file (view w) paths) as [path|] eqn:Hfirst.
  - apply eff_bind_Ok in Hr as (size & w2 & Hsize & Hr). apply eff_bind_Ok in Hr as ([] & w3 & Hstage & Hr).
    injection Hr as <- <-. assert (w2 = w) as ->.
    { revert Hsize. unfold blob_size, lift, mbind, eff_bind, world. destruct (fs_stat _ _); by intros [= _ <-]. }
    exists w, w3. split_and!; [done|done|]. intros bytes Hb. eapply cached_blob_sound; [exact Hw|exact Hpaths| |exact Hb].
    unfold first_file in Hfirst. apply head_Some_elem_of in Hfirst. by apply list_elem_of_filter in Hfirst as [_ ?].
  - apply eff_bind_Ok in Hr as (tarball & w2 & Hdown & Hr). apply download_blob_sound in Hdown as [Hw2 Hadm]; [|done].
    apply eff_bind_Ok in Hr as (outcome & w3 & Hstage & Hr). unfold attempt in Hstage.
    destruct (stage_unpack_finalize _ _ w2) as [r w4] eqn:E. injection Hstage as -> <-.
    destruct outcome as [[]|e]; [|by apply eff_bind_Ok in Hr as (? & ? & _ & ?)]. injection Hr as <- <-.
    exists w2, w4. split_and!; [done|done|]. intros bytes. by apply Hadm.
Qed.
End verified.

(** ** A concrete world: files, directories, and a registry with two archives *)
Module StoreWorldDemo.
Record StoreDisk := { sd_disk : Disk; sd_dirs : list string }.
Definition files_of (w : StoreDisk) : gmap string string := files (sd_disk w).
Definition with_files (f : gmap string string) (w : StoreDisk) : StoreDisk := {| sd_disk := disk_with f; sd_dirs := sd_dirs w |}.
Definition done (w : StoreDisk) : result string unit * StoreDisk := (Ok tt, w).
Definition set_file (path data : string) (w : StoreDisk) : result string unit * StoreDisk := done (with_files (<[path := data]> (files_of w)) w).
Definition mkdir (path : string) (w : StoreDisk) : StoreDisk := {| sd_disk := sd_disk w; sd_dirs := path :: sd_dirs w |}.
Definition stat_of (w : StoreDisk) (path : string) : result string Stat :=
  if bool_decide (is_Some (files_of w !! path)) then Ok {| st_type := TFile; st_len := 4; st_modified := Ok 0%Z |}
  else if one_of path (sd_dirs w) then Ok {| st_type := TDir; st_len := 0; st_modified := Ok 0%Z |} else Err "not found".
Definition rename (p q : string) (w : StoreDisk) : result string unit * StoreDisk :=
  match files_of w !! p with
  | Some data => done (with_files (<[q := data]> (delete p (files_of w))) w)
  | None => (Err "not found", w)
  end.

#[local] Instance disk_fs : FsWorld StoreDisk := {|
  view w := {| fs_lstat := stat_of w; fs_stat := stat_of w; fs_bytes p := fs_read (disk_with (files_of w)) p;
               fs_read_link _ := Err "not a link"; fs_entries _ := Err "unused" |};
  world_disk w := disk_with (files_of w);
  put_disk d w := {| sd_disk := d; sd_dirs := sd_dirs w |};
  fs_create_dir_all p w := done (mkdir p w);
  fs_remove_file p w := done (with_files (delete p (files_of w)) w);
  fs_remove_dir p := done;
  fs_remove_dir_all p := done;
  fs_rename := rename;
  fs_symlink _ _ w := (Err "unsupported", w);
  fs_hard_link _ _ w := (Err "unsupported", w);
  fs_reflink _ _ w := (Err "unsupported", w);
  fs_copy p q w := match files_of w !! p with Some data => set_file q data w | None => (Err "not found", w) end;
  fs_mode _ _ := Ok 420%N;
  fs_set_mode _ _ := done;
  fs_device _ _ := Ok 0%N;
  error_not_found e := e == "not found";
  error_already_exists e := e == "exists";
  fs_depth _ _ := 8;
  process_id _ := 7%N;
  link_memory _ := {| lm_any_reflink_failure := false; lm_any_hardlink_failure := false; lm_cache := ∅; lm_auto_backend := None |};
  put_link_memory _ w := w |}.

Definition not_found : HttpError :=
  {| he_timeout := false; he_connect := false; he_body := false; he_decode := false; he_status := Some 404%N; he_message := "404" |}.
#[local] Instance disk_store : StoreWorld StoreDisk := {|
  store_fs := disk_fs;
  fs_create_dir p w := if one_of p (sd_dirs w) then (Err "exists", w) else done (mkdir p w);
  fs_tempdir_in parent _ w := (Ok (path_push parent "staged"), mkdir (path_push parent "staged") w);
  fs_tempfile_in parent _ _ w := (Ok (path_push parent "fresh"), with_files (<[path_push parent "fresh" := ε]> (files_of w)) w);
  fs_open_truncate p := set_file p ε;
  fs_append p data w := match files_of w !! p with Some c => set_file p (c +:+ data) w | None => (Err "not found", w) end;
  fs_flush _ := done;
  fs_reads w p := match files_of w !! p with Some c => Ok [Ok c] | None => Err "not found" end;
  fs_unpack entry p := set_file p (te_data entry);
  http_get url _ w := (if url == "https://r/good.tgz" then Ok [Ok "go"; Ok "od"]
                       else if url == "https://r/evil.tgz" then Ok [Ok "evil"] else Err not_found, w);
  subsec_nanos _ := 0%N;
  http_sleep _ w := w |}.

Definition regular (path data : string) : result string TarEntry := Ok {| te_path := Ok path; te_type := EntryRegular; te_data := data |}.
#[local] Instance archives : TarCrate := fun reads =>
  match reads with
  | [Ok "good"] => Ok [regular "package/package.json" "{}"; regular "./package/lib/a.js" "1"]
  | [Ok "evil"] => Ok [regular "package/package.json" "{}"; regular "package/../../../../etc/passwd" "root"]
  | _ => Err "not an archive"
  end.

(** Bytes as two letters each. *)
Definition letters (a : ascii) : ascii * ascii :=
  let '(Ascii b0 b1 b2 b3 b4 b5 b6 b7) := a in (Ascii b4 b5 b6 b7 false true true false, Ascii b0 b1 b2 b3 false true true false).
Fixpoint hex (s : string) : string :=
  match s with String a s => String (letters a).1 (String (letters a).2 (hex s)) | EmptyString => ε end.
#[local] Instance digests : DigestCrates := {|
  base64_encode s := s;
  base64_decode s := Ok s;
  hex_encode := hex;
  hasher := string;
  hasher_new a := algorithm_name a;
  hasher_update := String.append;
  hasher_finalize h := h |}.
#[local] Instance digests_laws : DigestLaws.
Proof. split; cbn; intros h; [|apply app_nil_s]. intros a b. by rewrite app_assoc_s. Qed.
#[local] Instance no_json : MetadataJson := {|
  metadata_from_str _ := None; metadata_to_vec _ := Err "unused"; facts_from_str _ := None |}.

Lemma hex_inj s t : hex s = hex t -> s = t.
Proof.
  revert t. induction s as [|a s IH]; intros [|b t]; [done| | |]; cbn; [by destruct b|by destruct a|].
  destruct a, b. cbn. intros [= -> -> -> -> -> -> -> -> Hst]. by rewrite (IH t Hst).
Qed.
Lemma hex_name s : name_ok (hex_encode s +:+ ".tgz") = true.
Proof.
  cbn [hex_encode digests]. assert (Hslash : contains_char "/" (hex s +:+ ".tgz") = false).
  { induction s as [|a s IH]; [done|]. destruct a as [[] [] [] [] [] [] [] []]; exact IH. }
  unfold name_ok. rewrite Hslash. apply bool_decide_eq_true_2. destruct s as [|a s]; [done|].
  destruct a as [[] [] [] [] [] [] [] []]; reflexivity.
Qed.

Lemma content_files w p : content w p = ok_or "No such file or directory" (files_of w !! p).
Proof. done. Qed.
Lemma content_set w p data q : q <> p -> content (with_files (<[p := data]> (files_of w)) w) q = content w q.
Proof. intros Hq. rewrite !content_files. unfold with_files, files_of. cbn. by rewrite lookup_insert_ne. Qed.
Lemma content_set_eq w p data : content (with_files (<[p := data]> (files_of w)) w) p = Ok data.
Proof. rewrite content_files. unfold with_files, files_of. cbn. by rewrite lookup_insert_eq. Qed.
Lemma content_delete w p q : q <> p -> content (with_files (delete p (files_of w)) w) q = content w q.
Proof. intros Hq. rewrite !content_files. unfold with_files, files_of. cbn. by rewrite lookup_delete_ne. Qed.

#[local] Arguments content : simpl never.
#[local] Instance disk_laws : FileLaws StoreDisk.
Proof.
  split; cbn; unfold set_file, done.
  - intros p w r w' [= <- <-]. split; [intros q; apply content_set|]. intros _. apply content_set_eq.
  - intros p data w r w'. destruct (files_of w !! p) as [c|] eqn:Hc; [|by intros [= <- <-]].
    intros [= <- <-]. split; [intros q; apply content_set|]. intros _ c'. rewrite content_files, Hc. intros [= <-]. apply content_set_eq.
  - by intros p w r w' [= <- <-].
  - intros p q w r w'. unfold rename. destruct (files_of w !! p) as [data|] eqn:Hc; [|by intros [= <- <-]].
    intros [= <- <-]. split.
    + rewrite (content_files w p), Hc. exact (content_set_eq (with_files (delete p (files_of w)) w) q data).
    + intros x Hp Hq. transitivity (content (with_files (delete p (files_of w)) w) x); [|by apply content_delete].
      exact (content_set (with_files (delete p (files_of w)) w) q data x Hq).
  - by intros p w r w' [= <- <-].
  - intros p w r w' [= <- <-] q. apply content_delete.
  - by intros url header w r w' [= _ <-].
  - done.
Qed.

Definition config := config_for_tests.
Lemma key_path_components a d : components (key_path config a d) =
  [RootDir; Normal "tmp"; Normal "cache"; Normal "tarballs-v1"; Normal (algorithm_name a); Normal (hex d +:+ ".tgz")].
Proof.
  unfold key_path, blob_cache_path. cbn [cache_key_new key_algorithm digest_hex hex_encode digests].
  rewrite components_push by apply hex_name. rewrite components_push by by destruct a. done.
Qed.
Lemma key_path_inj a d a' d' : key_path config a d = key_path config a' d' -> a = a' /\ d = d'.
Proof.
  intros Heq%(f_equal components). rewrite !key_path_components in Heq. injection Heq as Ha Hd. split.
  - by destruct a, a'.
  - apply hex_inj. apply (f_equal String.rev) in Hd. rewrite !rev_app_s in Hd. injection Hd as Hd.
    change (String.rev (hex d) = String.rev (hex d')) in Hd.
    by rewrite <-(rev_rev_s (hex d)), Hd, rev_rev_s.
Qed.
Lemma temp_files parent prefix suffix (w : StoreDisk) r w' : fs_tempfile_in parent prefix suffix w = (r, w') ->
  match r with Ok path => others_same path w w' /\ forall a d, key_path config a d <> path | Err _ => files_same w w' end.
Proof.
  cbn. intros [= <- <-]. split; [intros q; apply content_set|]. intros a d Heq%(f_equal components).
  rewrite key_path_components, components_push in Heq by done. apply (f_equal last) in Heq. rewrite last_snoc in Heq.
  injection Heq as Heq. apply (f_equal String.rev) in Heq. by rewrite rev_app_s in Heq.
Qed.

Definition empty_disk : StoreDisk := {| sd_disk := disk_with {["/etc/passwd" := "users"]}; sd_dirs := [] |}.
Definition other_disk : StoreDisk :=
  with_files {["/etc/passwd" := "users"; "/cache/evil.tgz" := "evil"]} empty_disk.
Definition install (url : string) := download_and_extract config "good" url (Some "md5-x sha1-sha1good") "/tmp/data/packages/good/1.0.0" empty_disk.

Definition good_blob : string := "/tmp/cache/tarballs-v1/sha1/gcfhfacafgfofofd.tgz".
Example good_installed : (install "https://r/good.tgz").1 =
    Ok {| dt_path := good_blob; dt_size_bytes := 4; dt_source := Downloaded; dt_temp_path := None |} /\
  files_of (install "https://r/good.tgz").2 =
    {["/etc/passwd" := "users"; good_blob := "good"; "/tmp/data/packages/good/1.0.0/package/lib/a.js" := "1";
      "/tmp/data/packages/good/1.0.0/package/package.json" := "{}"]} /\
  install "https://r/evil.tgz" = (Err (Tarball "https://r/evil.tgz" "integrity verification failed"), (install "https://r/evil.tgz").2) /\
  files_of (install "https://r/evil.tgz").2 = {["/etc/passwd" := "users"]}.
Proof. split_and!; vm_refl. Qed.

Lemma extracted_bytes_admitted_witness :
  exists w1 w2, cache_sound config w1 /\
    stage_unpack_finalize good_blob "/tmp/data/packages/good/1.0.0" w1 = (Ok tt, w2) /\
    forall bytes, content w1 good_blob = Ok bytes -> admitted (Some "md5-x sha1-sha1good") bytes.
Proof.
  apply (extracted_bytes_admitted config key_path_inj temp_files "good" "https://r/good.tgz" (Some "md5-x sha1-sha1good")
    "/tmp/data/packages/good/1.0.0" empty_disk
    {| dt_path := good_blob; dt_size_bytes := 4; dt_source := Downloaded; dt_temp_path := None |}
    (install "https://r/good.tgz").2); [|vm_refl].
  intros a d bytes. rewrite content_files. unfold empty_disk, files_of. cbn [sd_disk disk_with files].
  rewrite lookup_singleton_ne; [done|]. intros Heq%(f_equal components). by rewrite key_path_components in Heq.
Defined.

(** The file of the users, which no archive reaches. *)
Definition users_same (w w' : StoreDisk) : Prop := content w' "/etc/passwd" = content w "/etc/passwd".
#[local] Instance users_same_preorder : PreOrder users_same.
Proof. split; [done|]. intros w1 w2 w3 H12 H23. by transitivity (content w2 "/etc/passwd"). Qed.

Lemma unpack_confined_witness :
  (unpack_tarball_file "/tmp/data/p" "/cache/evil.tgz" other_disk).1 =
    Err (Archive "/tmp/data/p" "archive entry escapes extraction root: package/../../../../etc/passwd") /\
  users_same other_disk (unpack_tarball_file "/tmp/data/p" "/cache/evil.tgz" other_disk).2.
Proof.
  split; [vm_refl|]. eapply (unpack_confined users_same ["tmp"; "data"; "p"] "/cache/evil.tgz" ltac:(by repeat constructor)).
  - by intros q _ w r w' [= _ <-].
  - intros entry q _ (rest & Hok & ->) w r w' [= _ <-]. apply content_set. intros Heq%(f_equal components).
    change (Forall (fun n => name_ok n = true) rest) in Hok. rewrite components_abs in Heq by (by repeat (constructor; [done|])). done.
  - apply surjective_pairing.
Defined.

Definition in_store (q : string) : Prop := inside "/tmp/data" q \/ inside "/tmp/cache" q.
Lemma users_not_in_store q : in_store q -> "/etc/passwd" <> q.
Proof. intros [[names Hq]|[names Hq]] <-; vm_compute in Hq; done. Qed.
Lemma in_store_frame : store_frame users_same in_store.
Proof.
  split; cbn; unfold set_file, done, makes_keeps; try (by intros; intros w r w' [= _ <-]).
  - intros q _ w r w'. cbn. case_match; by intros [= _ <-].
  - intros q Hq w r w' [= _ <-]. apply content_delete. by apply users_not_in_store.
  - intros q Hq w r w' [= _ <-]. apply content_set. by apply users_not_in_store.
  - intros q data Hq w r w'. cbn. destruct (files_of w !! q); intros [= _ <-]; [|done].
    apply content_set. by apply users_not_in_store.
  - intros p q Hp Hq w r w'. cbn. unfold rename. destruct (files_of w !! p) as [data|]; intros [= _ <-]; [|done].
    unfold users_same. transitivity (content (with_files (delete p (files_of w)) w) "/etc/passwd").
    + exact (content_set (with_files (delete p (files_of w)) w) q data "/etc/passwd" (users_not_in_store q Hq)).
    + apply content_delete. by apply users_not_in_store.
  - intros p q Hq w r w'. cbn. destruct (files_of w !! p); intros [= _ <-]; [|done].
    apply content_set. by apply users_not_in_store.
  - intros entry q _ Hq w r w' [= _ <-]. apply content_set. by apply users_not_in_store.
  - intros q data w r disk Hq [= _ <-]. apply (content_set w q data). by apply users_not_in_store.
  - intros parent _ _ w r w' [= <- <-]. split; [done|]. intros path [= <-]. by exists "staged".
  - intros parent _ _ Hp w r w' [= <- <-]. split.
    + apply content_set. apply users_not_in_store. destruct Hp; [left|right]; (eapply inside_trans; [done|]); by apply inside_push_name.
    + intros path [= <-]. by exists "fresh".
  - by intros url header w r w' [= _ <-].
  - done.
  - done.
Qed.

Definition evil : ResolvedPackage := {|
  r_id := {| id_name := "@scope/evil"; id_version := "1.0.0" |}; r_tarball := "https://r/evil.tgz"; r_integrity := None;
  r_dependencies := ∅; r_peer_dependencies := ∅; r_bundled_dependencies := None; r_has_bin := false; r_bin := None |}.
Lemma ensure_package_confined_witness :
  (store_ensure_package config evil empty_disk).1 =
    Err (Archive "/tmp/data/packages/@scope_evil/1.0.0" "archive entry escapes extraction root: package/../../../../etc/passwd") /\
  users_same empty_disk (store_ensure_package config evil empty_disk).2.
Proof.
  split; [vm_refl|].
  eapply (ensure_package_confined users_same in_store in_store_frame ltac:(done) hex_name config evil Online ["tmp"; "data"] ["tmp"; "cache"]);
    [vm_refl|vm_refl| | |vm_refl|vm_refl|apply surjective_pairing].
  - split; [by repeat constructor|]. intros q. by left.
  - split; [by repeat constructor|]. intros q. by right.
Defined.
End StoreWorldDemo.
