(* ===== verification/Node.v ===== *)
(** * Versions of Node ([node/{paths,aliases,index,resolve,platform,shell,current,discover}.rs])

    Which version of Node a selector stands for: aliases, which may point to
    aliases, the releases of the distribution with their cache, partial versions,
    ranges and long-term releases; and the files in which a project pins one. *)
From S2P Require Import Prelude.
From S2P Require Import BTree.
From S2P Require Import Text.
From S2P Require Import Errors.
From S2P Require Import Types.
From S2P Require Import Paths.
From S2P Require Import Crates.
From S2P Require Import Semver.
From S2P Require Import Select.
From S2P Require Import Peers.
From S2P Require Import Linker.
From S2P Require Import Residency.
From S2P Require Import World.
From S2P Require Import LinkFs.

(** ** What is not in the repository *)

(** The fields of [semver::Version] that are used. *)
Class VersionFields `{SemverCrate} := { version_major : Version -> N; version_minor : Version -> N }.

Inductive LtsField := LtsNone (_ : bool) | Codename (name : string).
(** The fields of a release that are used. *)
Record NodeRelease := { nr_version : string; nr_lts : LtsField }.
Definition codename (self : LtsField) : option string := match self with Codename name => Some name | LtsNone _ => None end.

(** [serde_json::from_slice] for the index of releases *)
Class NodeIndexJson := releases_from_slice : string -> result string (list NodeRelease).

(** A response: the status line when it is not a success, the pieces of the body
    and the body as text. *)
Record NodeResponse := {
  np_failure : option string;
  np_chunks : list (result string string);
  np_text : result string string;
}.

Class NodeWorld (W : Type) := {
  node_fs :: FsWorld W;
  node_env : W -> string -> option string;
  (** [SystemTime::now()], in nanoseconds since the epoch *)
  system_now : W -> Z;
  node_client : Eff W unit;
  node_get : string -> W -> result string NodeResponse * W;
  (** what [node --version] prints, when it can be run and succeeds *)
  system_node : W -> option string;
}.

(** ** [paths.rs] *)
Definition node_root_dir (config : SnpmConfig) : string := path_push (c_data_dir config) "node".
Definition node_versions_dir (config : SnpmConfig) : string := path_push (node_root_dir config) "versions".
Definition node_aliases_dir (config : SnpmConfig) : string := path_push (node_root_dir config) "aliases".
Definition node_current_pointer_path (config : SnpmConfig) : string := path_push (node_root_dir config) "current".
Definition node_index_cache_path (config : SnpmConfig) : string :=
  path_push (path_push (c_cache_dir config) "node") "index.json".
Definition node_version_dir (config : SnpmConfig) (version : string) : string := path_push (node_versions_dir config) version.
Definition node_version_bin_dir `{Target} (config : SnpmConfig) (version : string) : string :=
  let version_dir := node_version_dir config version in
  if target_os == "windows" then version_dir else path_push version_dir "bin".

(** ** [platform.rs] *)
Inductive NodeArchive := TarGz | Zip.
Definition extension (self : NodeArchive) : string := match self with TarGz => "tar.gz" | Zip => "zip" end.
Record NodePlatform := { npl_os : string; npl_arch : string; npl_archive : NodeArchive }.

Definition node_os (host : string) : option string :=
  if host == "macos" then Some "darwin"
  else if host == "linux" then Some "linux"
  else if host == "windows" then Some "win"
  else None.
Definition node_arch (host : string) : option string :=
  if host == "x86_64" then Some "x64"
  else if host == "aarch64" then Some "arm64"
  else if host == "x86" then Some "x86"
  else if host == "arm" then Some "armv7l"
  else if host == "powerpc64" then Some "ppc64le"
  else if host == "s390x" then Some "s390x"
  else None.

Definition detect `{Target} : Result NodePlatform :=
  os ← ok_or (Internal ("unsupported OS for Node downloads: " +:+ target_os)) (node_os target_os);
  arch ← ok_or (Internal ("unsupported architecture for Node downloads: " +:+ target_arch)) (node_arch target_arch);
  Ok {| npl_os := os; npl_arch := arch; npl_archive := if os == "win" then Zip else TarGz |}.
Definition asset_stem (self : NodePlatform) (version : string) : string :=
  "node-" +:+ version +:+ "-" +:+ npl_os self +:+ "-" +:+ npl_arch self.
Definition asset_filename (self : NodePlatform) (version : string) : string :=
  asset_stem self version +:+ "." +:+ extension (npl_archive self).

(** ** [shell.rs]: the choice of the shell *)
Inductive ShellFlavor := Bash | Zsh | Fish | PowerShell.
Definition shell_parse (value : string) : Result ShellFlavor :=
  let value := to_ascii_lowercase (trim value) in
  if value == "bash" then Ok Bash
  else if value == "zsh" then Ok Zsh
  else if value == "fish" then Ok Fish
  else if (value == "powershell") || (value == "pwsh") || (value == "posh") then Ok PowerShell
  else Err (Internal ("unsupported shell '" +:+ value +:+ "' (use bash, zsh, fish, or powershell)")).
Definition shell_detect `{Target} (shell : option string) : ShellFlavor :=
  if target_os == "windows" then PowerShell else
  match shell with
  | Some shell => if contains "fish" shell then Fish else if contains "zsh" shell then Zsh else Bash
  | None => Bash
  end.

(** ** [aliases.rs], [current.rs] *)
Record AliasEntry := { al_name : string; al_target : string }.

Definition is_valid_alias_name (name : string) : bool :=
  let trimmed := trim name in
  if is_empty trimmed then false
  else if starts_with "/" trimmed || contains ".." trimmed then false
  else all_chars (fun c => is_ascii_alphanumeric c || Ascii.eqb c "_" || Ascii.eqb c "-" || Ascii.eqb c "/" || Ascii.eqb c ".") trimmed.

Definition alias_path (config : SnpmConfig) (name : string) : Result string :=
  if negb (is_valid_alias_name name)
  then Err (Internal ("invalid Node alias name '" +:+ name +:+ "' (use letters, digits, _, -, /, .)"))
  else Ok (path_push (node_aliases_dir config) name).

Section aliases.
Context `{FsWorld W}.

(** A missing file is not an error. *)
Definition read_if_there (fs : FileSystem) (path : string) : Result (option string) :=
  match read_to_string fs path with
  | Ok content => Ok (Some content)
  | Err e => if error_not_found e then Ok None else Err (ReadFile path e)
  end.

Definition read_alias (fs : FileSystem) (config : SnpmConfig) (name : string) : Result (option string) :=
  match alias_path config name with
  | Err _ => Ok None
  | Ok path => content ← read_if_there fs path; Ok (option_map trim content)
  end.

(** The parent is created first; a trailing newline is written. *)
Definition write_line (path value : string) : Eff W unit :=
  _ ← ensure_parent_dir path; write_output (path, trim value +:+ chr "010").

Definition write_alias (config : SnpmConfig) (name target : string) : Eff W string :=
  path ← lift (alias_path config name);
  _ ← write_line path target;
  mret path.

Definition remove_if_there (path : string) : Eff W bool :=
  removed ← eff_of (fs_remove_file path);
  match removed with
  | Ok _ => mret true
  | Err e => if error_not_found e then mret false else lift (Err (WriteFile path e))
  end.

Definition remove_alias (config : SnpmConfig) (name : string) : Eff W bool :=
  path ← lift (alias_path config name); remove_if_there path.

(** [path.is_dir()] follows links, so that the walk may; the names of the
    directories that are walked are the fuel ([fs_depth]). *)
Fixpoint walk_aliases (fs : FileSystem) (root : string) (fuel : nat) (dir : string) : Result (list AliasEntry) :=
  match fuel with
  | O => Err (ReadFile dir "the directories are nested too deeply")
  | S fuel =>
      entries ← map_err (ReadFile dir) (fs_entries fs dir);
      try_fold (fun found entry =>
        '(name, _) ← map_err (ReadFile dir) entry;
        let path := path_push dir name in
        if is_dir fs path then nested ← walk_aliases fs root fuel path; Ok (found ++ nested) else
        match path_strip_prefix path root with
        | None => Ok found
        | Some relative =>
            content ← map_err (ReadFile path) (read_to_string fs path);
            Ok (found ++ [{| al_name := replace_char "\" "/" relative; al_target := trim content |}])
        end) [] entries
  end.

Definition alias_le (a b : AliasEntry) : Prop := ord_le (al_name a) (al_name b).
#[global] Instance alias_le_dec : RelDecision alias_le.
Proof. intros a b. unfold alias_le. apply _. Defined.

Definition list_aliases (w : W) (config : SnpmConfig) : Result (list AliasEntry) :=
  let aliases_dir := node_aliases_dir config in
  if negb (is_dir (view w) aliases_dir) then Ok [] else
  entries ← walk_aliases (view w) aliases_dir (fs_depth w aliases_dir) aliases_dir;
  Ok (merge_sort alias_le entries).

Definition read_current (fs : FileSystem) (config : SnpmConfig) : Result (option string) :=
  content ← read_if_there fs (node_current_pointer_path config);
  Ok (match content with
      | Some content => let value := trim content in if is_empty value then None else Some value
      | None => None
      end).
Definition write_current (config : SnpmConfig) (version : string) : Eff W unit :=
  write_line (node_current_pointer_path config) version.
Definition clear_current (config : SnpmConfig) : Eff W unit :=
  _ ← remove_if_there (node_current_pointer_path config); mret tt.
End aliases.

(** ** [discover.rs] *)
Inductive PinnedNodeSource := PinFile (path : string) | EnginesNode (path : string).
Record PinnedNode := { pn_spec : string; pn_source : PinnedNodeSource }.

Definition parse_pin_file_contents (content : string) : option string :=
  found ← list_find (fun trimmed => is_empty trimmed || starts_with "#" trimmed = false) (trim <$> lines content);
  Some found.2.

(** The first answer, or the first failure, of a list of places. *)
Fixpoint first_answer {A B} (f : A -> Result (option B)) (l : list A) : Result (option B) :=
  match l with
  | [] => Ok None
  | a :: l => answer ← f a; match answer with Some b => Ok (Some b) | None => first_answer f l end
  end.

Section discover.
Context `{FsWorld W} `{JsonCrate} (fs : FileSystem).

Definition read_pin_file (path : string) : Result (option string) :=
  content ← read_if_there fs path;
  Ok (match content with Some content => parse_pin_file_contents content | None => None end).

Definition walk_for_pin_files (start : string) : Result (option PinnedNode) :=
  first_answer (fun candidate =>
      spec ← read_pin_file candidate;
      Ok (option_map (fun spec => {| pn_spec := spec; pn_source := PinFile candidate |}) spec))
    (mjoin ((fun dir => path_push dir <$> [".node-version"; ".nvmrc"]) <$> ancestors start)).

Definition engines_node (content : string) : option string :=
  value ← result_ok (json_from_str content);
  engines ← json_get "engines" value; node ← json_get "node" engines; text ← as_str node;
  let spec := trim text in
  if is_empty spec || (spec == "*") then None else Some spec.

Definition read_engines_node (manifest_path : string) : Result (option string) :=
  content ← read_if_there fs manifest_path;
  Ok (match content with Some content => engines_node content | None => None end).

Definition discover_engines_node (start : string) : Result (option PinnedNode) :=
  first_answer (fun dir =>
      let manifest_path := path_push dir "package.json" in
      if is_file fs manifest_path then
        spec ← read_engines_node manifest_path;
        Ok (option_map (fun spec => {| pn_spec := spec; pn_source := EnginesNode manifest_path |}) spec)
      else Ok None)
    (ancestors start).

Definition discover_pinned (start : string) : Result (option PinnedNode) :=
  pinned ← walk_for_pin_files start;
  match pinned with Some pinned => Ok (Some pinned) | None => discover_engines_node start end.
End discover.

(** ** [resolve.rs]: what a selector stands for *)
Inductive ResolutionSource := Exact | Alias (name target : string) | Remote (selector : string).
Record ResolvedNodeVersion := { rn_normalized : string; rn_source : ResolutionSource }.

Section selectors.
Context `{SemverCrate} `{!VersionFields}.

(** [Version::parse(label.strip_prefix('v').unwrap_or(label)).ok()] *)
Definition label_version (label : string) : option Version :=
  result_ok (version_parse (default label (strip_prefix "v" label))).

Definition normalize_version (input : string) : option string :=
  let trimmed := trim input in
  if is_empty trimmed then None else
  parsed ← label_version trimmed; Some ("v" +:+ version_display parsed).

Definition is_lts_selector (spec : string) : bool :=
  let lower := to_ascii_lowercase (trim spec) in
  (lower == "lts") || (lower == "--lts") || starts_with "lts/" lower.
Definition lts_codename (spec : string) : option string :=
  suffix ← strip_prefix "lts/" (to_ascii_lowercase (trim spec));
  if is_empty suffix || (suffix == "*") || (suffix == "latest") then None else Some suffix.

Definition latest_version (releases : list NodeRelease) : Result string :=
  ok_or (Internal "Node release index is empty") (head (nr_version <$> releases)).

Definition latest_lts (releases : list NodeRelease) (wanted : option string) : Result string :=
  let needle := to_ascii_lowercase <$> wanted in
  let chosen release :=
    match codename (nr_lts release), needle with
    | None, _ => false
    | Some release_codename, Some target => to_ascii_lowercase release_codename == target
    | Some _, None => true
    end in
  match filter (fun release => chosen release = true) releases with
  | release :: _ => Ok (nr_version release)
  | [] => Err (Internal ("no LTS release matches " +:+ match needle with Some name => "lts/" +:+ name | None => "lts/*" end))
  end.

(** The numbers of a partial version, when it is one. *)
Definition partial_parts (spec : string) : option (list N) :=
  let parts := split_char "." (default spec (strip_prefix "v" spec)) in
  if negb (forallb (all_chars is_ascii_digit) parts) then None else
  let parsed_parts := omap parse_u64 parts in
  if negb (length parsed_parts =? length parts)%nat then None
  else if (length parsed_parts =? 3)%nat then None else Some parsed_parts.
Definition matches_prefix (parts : list N) (parsed : Version) : bool :=
  match parts with
  | [major] => (version_major parsed =? major)%N
  | [major; minor] => (version_major parsed =? major)%N && (version_minor parsed =? minor)%N
  | _ => false
  end.

(** The greatest release that passes a test: the loop of [match_partial] and [match_range]. *)
Definition release_if (test : Version -> bool) (release : NodeRelease) : option (Version * string) :=
  parsed ← label_version (nr_version release); if test parsed then Some (parsed, nr_version release) else None.
Definition best_release (test : Version -> bool) (releases : list NodeRelease) : option string :=
  snd <$> keep_max_all version_le (release_if test) releases None.

Definition match_partial (spec : string) (releases : list NodeRelease) : option string :=
  parts ← partial_parts spec; best_release (matches_prefix parts) releases.
Definition match_range (spec : string) (releases : list NodeRelease) : option string :=
  range ← result_ok (Range.parse_internal spec); best_release (Range.matches range) releases.

Definition match_remote (spec : string) (releases : list NodeRelease) : Result string :=
  let lower := to_ascii_lowercase spec in
  if (lower == "latest") || (lower == "current") || (lower == "node") || (lower == "stable") then latest_version releases
  else if is_lts_selector lower then latest_lts releases (lts_codename lower)
  else match match_partial spec releases with
  | Some version => Ok version
  | None => match match_range spec releases with
            | Some version => Ok version
            | None => Err (Internal ("could not resolve Node version selector '" +:+ spec +:+ "'"))
            end
  end.
End selectors.

(** ** [index.rs] and the resolution *)
Section resolve.
Context `{SemverCrate} `{!VersionFields} `{NodeIndexJson} `{NodeWorld W}.

Definition distro_url (w : W) : string := default "https://nodejs.org/dist" (node_env w "SNPM_NODE_DISTRO_URL").

(** A request and the whole body; shared by the index and the archives. *)
Definition node_request (url : string) : Eff W NodeResponse :=
  _ ← node_client;
  response ← eff_of (node_get url);
  response ← lift (map_err (Http url) response);
  match np_failure response with
  | Some status => lift (Err (Tarball url ("HTTP " +:+ status)))
  | None => mret response
  end.
Definition node_download (url : string) : Eff W string :=
  response ← node_request url;
  lift (map_err (Http url) (try_fold (fun body chunk => chunk ← chunk; Ok (body +:+ chunk)) ε (np_chunks response))).

Definition read_cached (fs : FileSystem) (cache_path : string) : option (list NodeRelease) :=
  bytes ← result_ok (fs_bytes fs cache_path); result_ok (releases_from_slice bytes).

Definition index_ttl : Z := 60 * 60 * 6 * 1000000000.
Definition cache_is_fresh (w : W) (cache_path : string) : bool :=
  match fs_stat (view w) cache_path with
  | Ok metadata =>
      match st_modified metadata with
      | Ok modified => (modified <=? system_now w)%Z && (system_now w - modified <=? index_ttl)%Z
      | Err _ => false
      end
  | Err _ => false
  end.

Definition fetch_index (config : SnpmConfig) (force_refresh : bool) : Eff W (list NodeRelease) :=
  w ← world;
  let cache_path := node_index_cache_path config in
  match (if negb force_refresh && cache_is_fresh w cache_path then read_cached (view w) cache_path else None) with
  | Some releases => mret releases
  | None =>
      bytes ← attempt (node_download (distro_url w +:+ "/index.json"));
      match bytes with
      | Err error =>
          w ← world;
          match read_cached (view w) cache_path with Some releases => mret releases | None => lift (Err error) end
      | Ok bytes =>
          releases ← lift (map_err (ParseJson cache_path) (releases_from_slice bytes));
          _ ← ensure_parent_dir cache_path;
          _ ← write_output (cache_path, bytes);
          mret releases
      end
  end.

Definition load_releases (config : SnpmConfig) (allow_network : bool) : Eff W (list NodeRelease) :=
  if allow_network then fetch_index config false else
  w ← world;
  lift (ok_or (Internal "offline: Node release index not cached yet — run `snpm node ls-remote` first")
          (read_cached (view w) (node_index_cache_path config))).

Definition max_alias_depth : nat := 8.
(** [hops]: how many more aliases are allowed; [depth > MAX_ALIAS_DEPTH] at 0. *)
Fixpoint resolve_with_depth (config : SnpmConfig) (hops : nat) (spec : string) (allow_network : bool) : Eff W ResolvedNodeVersion :=
  match hops with
  | O => lift (Err (Internal ("alias chain exceeds 8 hops resolving '" +:+ spec +:+ "'")))
  | S hops =>
      let trimmed := trim spec in
      if is_empty trimmed then lift (Err (Internal "empty Node version selector")) else
      w ← world;
      alias ← lift (read_alias (view w) config trimmed);
      match alias with
      | Some target =>
          resolved ← resolve_with_depth config hops target allow_network;
          mret {| rn_normalized := rn_normalized resolved; rn_source := Alias trimmed target |}
      | None =>
          match normalize_version trimmed with
          | Some normalized => mret {| rn_normalized := normalized; rn_source := Exact |}
          | None =>
              releases ← load_releases config allow_network;
              normalized ← lift (match_remote trimmed releases);
              mret {| rn_normalized := normalized; rn_source := Remote trimmed |}
          end
      end
  end.

Definition resolve_spec (config : SnpmConfig) (spec : string) (allow_network : bool) : Eff W ResolvedNodeVersion :=
  resolve_with_depth config (S max_alias_depth) spec allow_network.
End resolve.

(** ** The greatest release *)
Section versions.
Context `{SemverCrate} `{!SemverLaws} `{!VersionFields}.

Lemma release_if_Some test release v label :
  release_if test release = Some (v, label) <->
  label = nr_version release /\ label_version (nr_version release) = Some v /\ test v = true.
Proof.
  unfold release_if. destruct (label_version (nr_version release)) as [w|]; cbn; [|by split; [|intros (_ & ? & _)]].
  destruct (test w) eqn:Ht; (split; [by intros [= <- <-]|intros (-> & [= <-] & ?)]); [done|congruence].
Qed.

(** Choosing a release of Node.  For a partial version and for a range, the
    release that is chosen is one of the index, its version parses and passes the
    test, and none that does is greater; nothing is chosen only when none does. *)
Theorem best_release_greatest test releases :
  match best_release test releases with
  | Some label => exists release v, release ∈ releases /\ nr_version release = label /\ label_version label = Some v /\ test v = true /\
      forall other w, other ∈ releases -> label_version (nr_version other) = Some w -> test w = true -> version_le w v
  | None => forall other w, other ∈ releases -> label_version (nr_version other) = Some w -> test w = false
  end.
Proof.
  unfold best_release. destruct (keep_max_all _ _ _ None) as [[v label]|] eqn:Hk; cbn.
  - apply keep_max_all_Some in Hk as [(release & Hin & (-> & Hv & Ht)%release_if_Some) Hmax]; [|apply _..].
    exists release, v. split_and!; try done. intros other w Ho Hw Htw. eapply Hmax; [done|]. by apply release_if_Some.
  - intros other w Ho Hw. apply not_true_iff_false. intros Ht. pose proof (proj1 (keep_max_all_None _ _ _) Hk _ Ho) as Hn.
    assert (release_if test other = Some (w, nr_version other)) by (by apply release_if_Some). congruence.
Qed.
End versions.

(** ** Aliases *)
Section alias_lemmas.
Context `{SemverCrate} `{!VersionFields} `{NodeIndexJson} `{NodeWorld W} (config : SnpmConfig).

(** From a selector to what its aliases end in: [n] aliases are followed. *)
Inductive alias_chain (fs : FileSystem) : nat -> string -> string -> Prop :=
| chain_end spec : trim spec <> ε -> read_alias fs config (trim spec) = Ok None -> alias_chain fs 0 spec (trim spec)
| chain_step n spec target last :
    trim spec <> ε -> read_alias fs config (trim spec) = Ok (Some target) -> alias_chain fs n target last ->
    alias_chain fs (S n) spec last.

(** A selector that is not an alias. *)
Definition resolve_last (allow_network : bool) (last : string) : Eff W string :=
  match normalize_version last with
  | Some normalized => mret normalized
  | None => releases ← load_releases config allow_network; lift (match_remote last releases)
  end.
Definition source_of (fs : FileSystem) (spec : string) : ResolutionSource :=
  match read_alias fs config (trim spec) with
  | Ok (Some target) => Alias (trim spec) target
  | _ => match normalize_version (trim spec) with Some _ => Exact | None => Remote (trim spec) end
  end.

Lemma resolve_step hops spec net w r w' :
  resolve_with_depth config (S hops) spec net w = (Ok r, w') <->
  trim spec <> ε /\ rn_source r = source_of (view w) spec /\
  match read_alias (view w) config (trim spec) with
  | Ok (Some target) => exists r', resolve_with_depth config hops target net w = (Ok r', w') /\ rn_normalized r = rn_normalized r'
  | Ok None => resolve_last net (trim spec) w = (Ok (rn_normalized r), w')
  | Err _ => False
  end.
Proof.
  cbn [resolve_with_depth]. cbv zeta. unfold source_of, resolve_last. destruct (is_empty (trim spec)) eqn:He.
  { assert (trim spec = ε) as -> by (by destruct (trim spec)). split; [done|]. by intros []. }
  assert (Hne : trim spec <> ε) by (by intros Hz; rewrite Hz in He). clear He. unfold mbind, eff_bind, world, lift, mret, eff_ret.
  destruct (read_alias (view w) config (trim spec)) as [[target|]|e]; [| |by split; [|intros (_ & _ & [])]].
  - destruct (resolve_with_depth config hops target net w) as [[r'|e] w1].
    + split; [intros [= <- <-]; eauto|]. destruct r. cbn. by intros (_ & -> & r'' & [= <- <-] & ->).
    + split; [done|]. by intros (_ & _ & r'' & ? & _).
  - destruct (normalize_version (trim spec)) as [normalized|].
    + split; [by intros [= <- <-]|]. destruct r. cbn. by intros (_ & -> & [= <- <-]).
    + destruct (load_releases config net w) as [[releases|e] w1]; [|by split; [|intros (_ & _ & ?)]].
      destruct (match_remote (trim spec) releases) as [normalized|e]; [|by split; [|intros (_ & _ & ?)]].
      split; [by intros [= <- <-]|]. destruct r. cbn. by intros (_ & -> & [= <- <-]).
Qed.

Lemma resolve_chain hops : forall spec net w r w',
  resolve_with_depth config hops spec net w = (Ok r, w') <->
  exists n last, n < hops /\ alias_chain (view w) n spec last /\ rn_source r = source_of (view w) spec /\
    resolve_last net last w = (Ok (rn_normalized r), w').
Proof.
  induction hops as [|hops IH]; intros spec net w r w'.
  { split; [done|]. intros (n & last & Hn & _). lia. }
  rewrite resolve_step. split.
  - intros (Hne & Hsrc & Halias). destruct (read_alias _ _ _) as [[target|]|] eqn:Ha; [| |done].
    + destruct Halias as (r' & (n & last & Hn & Hchain & _ & Hlast)%IH & Hnorm). exists (S n), last.
      split_and!; [lia|by eapply chain_step|done|by rewrite Hnorm].
    + exists 0, (trim spec). split_and!; [lia|by apply chain_end|done|done].
  - intros (n & last & Hn & Hchain & Hsrc & Hlast). destruct Hchain as [spec Hne Ha|n spec target last Hne Ha Hchain]; rewrite Ha.
    + done.
    + split_and!; [done|done|]. exists {| rn_normalized := rn_normalized r; rn_source := source_of (view w) target |}.
      split; [|done]. apply IH. exists n, last. split_and!; [lia|done|done|done].
Qed.

(** Resolving a selector.  It succeeds exactly when at most eight aliases lead
    from it to a selector that is no alias and that is a version or is found among
    the releases; a cycle of aliases is an error, and no alias is followed twice
    without end. *)
Theorem resolve_spec_follows_aliases spec net w r w' :
  resolve_spec config spec net w = (Ok r, w') <->
  exists n last, n <= 8 /\ alias_chain (view w) n spec last /\ rn_source r = source_of (view w) spec /\
    resolve_last net last w = (Ok (rn_normalized r), w').
Proof. unfold resolve_spec. rewrite resolve_chain. unfold max_alias_depth. by setoid_rewrite Nat.lt_succ_r. Qed.
End alias_lemmas.

(** ** Aliases stay among the aliases *)
Lemma alias_path_inside config name path :
  is_empty (node_aliases_dir config) = false -> trim name = name -> alias_path config name = Ok path ->
  inside (node_aliases_dir config) path.
Proof.
  intros Hdir Htrim. unfold alias_path. destruct (is_valid_alias_name name) eqn:Hv; [|done]. intros [= <-].
  unfold is_valid_alias_name in Hv. rewrite Htrim in Hv. destruct (is_empty name); [done|].
  destruct (starts_with "/" name) eqn:Habs; [done|]. destruct (contains ".." name) eqn:Hdots; [done|].
  apply inside_push; [done|done|]. apply existsb_false. intros c Hc. unfold components in Hc. unfold is_absolute in Hc. rewrite Habs in Hc.
  apply elem_of_app in Hc as [Hc|Hc].
  - destruct (split_char "/" name) as [|part parts]; [by apply not_elem_of_nil in Hc|].
    destruct (part == "."); [by apply list_elem_of_singleton in Hc as ->|by apply not_elem_of_nil in Hc].
  - apply list_elem_of_omap in Hc as (part & Hin & Hpart). unfold component_of in Hpart.
    destruct (is_empty part); [done|]. destruct (part == "."); [done|]. destruct (part == "..") eqn:Hpp; [|by injection Hpart as <-].
    exfalso. apply String.eqb_eq in Hpp as ->. apply (join_elem "/") in Hin as (a & r & Hj).
    rewrite (join_split_char "/") in Hj. assert (contains ".." name = true) by (apply contains_spec; eauto). congruence.
Qed.

(** ** Which pin counts *)
Lemma first_answer_Some {A B} (f : A -> Result (option B)) l b :
  first_answer f l = Ok (Some b) <->
  exists before a after, l = before ++ a :: after /\ f a = Ok (Some b) /\ forall x, x ∈ before -> f x = Ok None.
Proof.
  induction l as [|a l IH]; cbn [first_answer].
  { split; [done|]. by intros ([] & ? & ? & ? & _). }
  destruct (f a) as [[c|]|e] eqn:Hf; cbn [mbind result_bind].
  - split.
    + intros [= ->]. exists [], a, l. split_and!; [done|done|]. by intros x ?%not_elem_of_nil.
    + intros ([|x before] & a' & after & [= -> ->] & Hb & Hn); [congruence|]. rewrite (Hn x) in Hf by left. done.
  - rewrite IH. split.
    + intros (before & a' & after & -> & Hb & Hn). exists (a :: before), a', after. split_and!; [done|done|].
      intros x [->|Hx]%elem_of_cons; auto.
    + intros ([|x before] & a' & after & [= -> ->] & Hb & Hn); [congruence|]. exists before, a', after. split_and!; [done|done|].
      intros y Hy. apply Hn. by right.
  - split; [done|]. intros ([|x before] & a' & after & [= -> ->] & Hb & Hn); [congruence|]. rewrite (Hn x) in Hf by left. done.
Qed.
