(* ===== verification/NodeInstall.v ===== *)
(** * Installing and choosing Node ([node/{install,uninstall,exec}.rs])

    The archive of a version is downloaded, compared with the published checksum,
    unpacked into a directory of its own and renamed into place; the version that
    a project runs with is the one it pins, if that is installed.  Links are made
    as on Unix. *)
From S2P Require Import Prelude.
From S2P Require Import BTree.
From S2P Require Import Text.
From S2P Require Import Errors.
From S2P Require Import Types.
From S2P Require Import Paths.
From S2P Require Import Crates.
From S2P Require Import Semver.
From S2P Require Import Select.
From S2P Require Import Peers.
From S2P Require Import Linker.
From S2P Require Import Sharing.
From S2P Require Import Residency.
From S2P Require Import Store.
From S2P Require Import World.
From S2P Require Import LinkFs.
From S2P Require Import Node.
From S2P Require Import StoreFs.
From S2P Require Import StoreTree.
From S2P Require Import StoreSafe.

(** ** The crates [tar], [flate2] and [zip] *)
Record NodeTarEntry := {
  nt_path : result string string;
  nt_type : EntryType;
  (** [entry.link_name()] *)
  nt_link : result string (option string);
  nt_data : string;
}.
Record NodeZipEntry := {
  nz_enclosed_name : option string;
  nz_is_dir : bool;
  nz_data : result string string;
}.
Class NodeArchives := {
  node_tar_entries : string -> result string (list (result string NodeTarEntry));
  node_zip_entries : string -> result string (list (result string NodeZipEntry));
}.
(** [entry.unpack(path)] *)
Class NodeUnpack (W : Type) := node_unpack : NodeTarEntry -> string -> IoOp W.

(** ** [install.rs]: names *)
Definition node_marker (dir : string) : string := path_push dir ".snpm_complete".
Definition node_binary_path `{Target} (version_dir : string) : string :=
  if target_os == "windows" then path_push version_dir "node.exe" else path_push (path_push version_dir "bin") "node".

Fixpoint checksum_in (asset : string) (lines : list string) : option string :=
  match lines with
  | [] => None
  | line :: lines =>
      match split_whitespace line with
      | checksum :: filename :: _ =>
          if (filename == asset) && (String.length checksum =? 64)%nat then Some checksum else checksum_in asset lines
      | _ => None
      end
  end.
Definition parse_checksum (text asset : string) : option string := checksum_in asset (lines text).

(** The rest of a path without its first component, when there is one. *)
Definition strip_first_component (path : string) : option (list Component) :=
  match components path with
  | _ :: (_ :: _) as rest => Some rest
  | _ => None
  end.

Section extract.
Context `{FsWorld W} `{NodeArchives} `{!NodeUnpack W}.

Definition create_symlink (link_target link_path : string) : Eff W unit :=
  w ← world;
  _ ← (if path_exists (view w) link_path || is_symlink (view w) link_path
       then io_write link_path (fs_remove_file link_path) else mret tt);
  io_write link_path (fs_symlink link_target link_path).

Definition escapes (destination what : string) : SnpmError := Archive destination what.

Definition extract_tar_entry (destination : string) (entry : result string NodeTarEntry) : Eff W unit :=
  entry ← lift (map_err (Archive destination) entry);
  entry_path ← lift (map_err (Archive destination) (nt_path entry));
  match strip_first_component entry_path with
  | None => mret tt
  | Some rel =>
      match join_components destination rel with
      | None => lift (Err (Archive destination ("entry escapes destination: " +:+ entry_path)))
      | Some target =>
          match nt_type entry with
          | EntryDirectory => create_dir_all target
          | EntrySymlink =>
              _ ← ensure_parent_dir target;
              link_name ← lift (map_err (Archive target) (nt_link entry));
              link_name ← lift (ok_or (Archive target "symlink missing target") link_name);
              create_symlink link_name target
          | EntryRegular => _ ← ensure_parent_dir target; io_error (Archive target) (node_unpack entry target)
          | _ => ensure_parent_dir target
          end
      end
  end.
Definition extract_tarball (bytes destination : string) : Eff W unit :=
  entries ← lift (map_err (Archive destination) (node_tar_entries bytes));
  eff_fold (fun _ entry => extract_tar_entry destination entry) tt entries.

Definition extract_zip_entry (destination : string) (file : result string NodeZipEntry) : Eff W unit :=
  file ← lift (map_err (Archive destination) file);
  match nz_enclosed_name file ≫= strip_first_component with
  | None => mret tt
  | Some rel =>
      match join_components destination rel with
      | None => lift (Err (Archive destination "zip entry escapes destination"))
      | Some target =>
          if nz_is_dir file then create_dir_all target else
          _ ← ensure_parent_dir target;
          buffer ← lift (map_err (Archive target) (nz_data file));
          write_output (target, buffer)
      end
  end.
Definition extract_zip (bytes destination : string) : Eff W unit :=
  files ← lift (map_err (Archive destination) (node_zip_entries bytes));
  eff_fold (fun _ file => extract_zip_entry destination file) tt files.
End extract.

(** ** [install.rs] *)
Record InstallSummary := { is_version : string; is_bin_path : string; is_already_installed : bool }.

Section install.
Context `{Target} `{DigestCrates} `{NodeArchives} `{NodeWorld W} `{!NodeUnpack W}.

Definition skip_checksum (w : W) : bool :=
  match node_env w "SNPM_NODE_SKIP_CHECKSUM" with Some value => one_of value ["1"; "true"; "TRUE"] | None => false end.

Definition fetch_expected_checksum (shasums_url asset : string) : Eff W string :=
  response ← node_request shasums_url;
  text ← lift (map_err (Http shasums_url) (np_text response));
  lift (ok_or (Tarball shasums_url ("checksum entry not found for " +:+ asset)) (parse_checksum text asset)).

Definition discard (dir : string) {A} (error : SnpmError) : Eff W A :=
  _ ← io_ignore (fs_remove_dir_all dir); lift (Err error).

Definition node_checksum (bytes : string) : string := hex_encode (hasher_finalize (hasher_update (hasher_new Sha256) bytes)).

Definition verify_checksum (temp_dir shasums_url asset asset_url bytes : string) : Eff W unit :=
  w ← world;
  if skip_checksum w then mret tt else
  expected ← fetch_expected_checksum shasums_url asset;
  let actual := node_checksum bytes in
  if actual == to_ascii_lowercase expected then mret tt
  else discard temp_dir (Tarball asset_url ("checksum mismatch (expected " +:+ expected +:+ ", got " +:+ actual +:+ ")")).

Definition remove_dir_if_there (dir : string) : Eff W unit :=
  w ← world; if path_exists (view w) dir then io_write dir (fs_remove_dir_all dir) else mret tt.

Definition node_temp_dir (config : SnpmConfig) (version : string) : string :=
  path_push (node_versions_dir config) (version +:+ ".tmp").

(** Up to the marker: everything happens in the temporary directory. *)
Definition stage_version (config : SnpmConfig) (platform : NodePlatform) (version : string) : Eff W unit :=
  _ ← create_dir_all (node_versions_dir config);
  let temp_dir := node_temp_dir config version in
  _ ← remove_dir_if_there temp_dir;
  _ ← create_dir_all temp_dir;
  w ← world;
  let asset := asset_filename platform version in
  let asset_url := distro_url w +:+ "/" +:+ version +:+ "/" +:+ asset in
  let shasums_url := distro_url w +:+ "/" +:+ version +:+ "/SHASUMS256.txt" in
  bytes ← node_download asset_url;
  _ ← verify_checksum temp_dir shasums_url asset asset_url bytes;
  _ ← (match npl_archive platform with TarGz => extract_tarball bytes temp_dir | Zip => extract_zip bytes temp_dir end);
  w ← world;
  if negb (is_file (view w) (node_binary_path temp_dir))
  then discard temp_dir (Tarball asset_url "Node binary missing from extracted archive")
  else write_output (node_marker temp_dir, ε).

Definition is_version_installed (fs : FileSystem) (config : SnpmConfig) (version : string) : bool :=
  let dir := node_version_dir config version in
  is_file fs (node_marker dir) && is_file fs (node_binary_path dir).

Definition install_version (config : SnpmConfig) (version : string) : Eff W InstallSummary :=
  platform ← lift detect;
  let version_dir := node_version_dir config version in
  w ← world;
  if is_version_installed (view w) config version
  then mret {| is_version := version; is_bin_path := node_binary_path version_dir; is_already_installed := true |}
  else
    _ ← stage_version config platform version;
    _ ← remove_dir_if_there version_dir;
    _ ← io_write version_dir (fs_rename (node_temp_dir config version) version_dir);
    mret {| is_version := version; is_bin_path := node_binary_path version_dir; is_already_installed := false |}.
End install.

(** ** [uninstall.rs] *)
Record UninstallSummary := {
  us_version : string;
  us_removed_dir : option string;
  us_cleared_current : bool;
  us_removed_aliases : list string;
}.

Section uninstall.
Context `{SemverCrate} `{Target} `{FsWorld W}.

(** [natural_compare_versions]: names that are no versions come first. *)
Definition natural_le (a b : string) : Prop :=
  match label_version a, label_version b with
  | Some va, Some vb => version_le va vb
  | Some _, None => False
  | None, Some _ => True
  | None, None => ord_le a b
  end.
#[global] Instance natural_le_dec : RelDecision natural_le.
Proof. intros a b. unfold natural_le. destruct (label_version a), (label_version b); apply _. Defined.
#[global] Instance natural_ge_dec : RelDecision (flip natural_le).
Proof. intros a b. unfold flip. apply _. Defined.

Definition list_installed_versions (fs : FileSystem) (config : SnpmConfig) : Result (list string) :=
  let versions_dir := node_versions_dir config in
  if negb (is_dir fs versions_dir) then Ok [] else
  entries ← map_err (ReadFile versions_dir) (fs_entries fs versions_dir);
  versions ← try_fold (fun versions entry =>
    '(name, _) ← map_err (ReadFile versions_dir) entry;
    let path := path_push versions_dir name in
    if negb (is_dir fs path) || starts_with "." name || ends_with ".tmp" name || negb (is_file fs (node_marker path))
    then Ok versions else Ok (versions ++ [name])) [] entries;
  Ok (merge_sort (flip natural_le) versions).

Definition alias_points_at (entry : AliasEntry) (version : string) : bool :=
  let target := trim (al_target entry) in
  (target == version) || (target == trim_start_matches "v" version).

Definition clear_matching_aliases (config : SnpmConfig) (version : string) : Eff W (list string) :=
  w ← world;
  entries ← lift (list_aliases w config);
  eff_fold (fun cleared entry =>
    if alias_points_at entry version
    then _ ← remove_alias config (al_name entry); mret (cleared ++ [al_name entry])
    else mret cleared) [] entries.

Definition uninstall_version (config : SnpmConfig) (version : string) : Eff W UninstallSummary :=
  let version_dir := node_version_dir config version in
  w ← world;
  removed_dir ← (if path_exists (view w) version_dir
                 then _ ← io_write version_dir (fs_remove_dir_all version_dir); mret (Some version_dir)
                 else mret None);
  w ← world;
  current ← lift (read_current (view w) config);
  cleared_current ← (if decide (current = Some version) then _ ← clear_current config; mret true else mret false);
  removed_aliases ← clear_matching_aliases config version;
  mret {| us_version := version; us_removed_dir := removed_dir; us_cleared_current := cleared_current;
          us_removed_aliases := removed_aliases |}.
End uninstall.

(** ** [exec.rs] *)
Inductive ActiveNodeSource := PinnedBy (source : PinnedNodeSource) | ByDefault | ByCurrent.
Record ActiveNode := { an_version : string; an_bin_dir : string; an_source : ActiveNodeSource }.

Definition enabled (value : option string) : bool :=
  match value with
  | None => true
  | Some value => negb (one_of (to_ascii_lowercase (trim value)) ["0"; "false"; "no"; "off"])
  end.

Section choose.
Context `{SemverCrate} `{Target} `{JsonCrate} `{FsWorld W}.

Definition active_from (config : SnpmConfig) (version : string) (source : ActiveNodeSource) : ActiveNode :=
  {| an_version := version; an_bin_dir := node_version_bin_dir config version; an_source := source |}.

(** [max_by]: of equal ones the last. *)
Definition keep_last_max (best : option (Version * string)) (candidate : Version * string) : option (Version * string) :=
  match best with
  | Some (b, _) => if decide (version_le b candidate.1) then Some candidate else best
  | None => Some candidate
  end.
Definition newest_installed_matching (fs : FileSystem) (config : SnpmConfig) (spec : string) : option string :=
  range ← result_ok (Range.parse_internal spec);
  installed ← result_ok (list_installed_versions fs config);
  snd <$> foldl keep_last_max None
    (omap (fun version => parsed ← label_version version;
                          if Range.matches range parsed then Some (parsed, version) else None) installed).

Definition match_pin_offline (fs : FileSystem) (config : SnpmConfig) (pin : PinnedNode) : Result (option ActiveNode) :=
  let active version := active_from config version (PinnedBy (pn_source pin)) in
  match normalize_version (pn_spec pin) with
  | Some normalized => Ok (if is_version_installed fs config normalized then Some (active normalized) else None)
  | None =>
      target ← read_alias fs config (pn_spec pin);
      let aliased := match target with
                     | Some target =>
                         match normalize_version target with
                         | Some normalized => if is_version_installed fs config normalized then Some normalized else None
                         | None => None
                         end
                     | None => None
                     end in
      Ok (option_map active (match aliased with
                             | Some normalized => Some normalized
                             | None => newest_installed_matching fs config (pn_spec pin)
                             end))
  end.

Definition resolve_default (fs : FileSystem) (config : SnpmConfig) : Result (option ActiveNode) :=
  current ← read_current fs config;
  match (match current with Some version => if is_version_installed fs config version then Some version else None | None => None end) with
  | Some version => Ok (Some (active_from config version ByCurrent))
  | None =>
      target ← read_alias fs config "default";
      Ok (match target with
          | Some target =>
              match normalize_version target with
              | Some normalized =>
                  if is_version_installed fs config normalized then Some (active_from config normalized ByDefault) else None
              | None => None
              end
          | None => None
          end)
  end.

Definition resolve_active_offline (fs : FileSystem) (config : SnpmConfig) (pinned : option PinnedNode) : Result (option ActiveNode) :=
  match pinned with Some pin => match_pin_offline fs config pin | None => resolve_default fs config end.

Definition active_for_project_offline (fs : FileSystem) (config : SnpmConfig) (project_root : string) : Result (option ActiveNode) :=
  pinned ← discover_pinned fs project_root; resolve_active_offline fs config pinned.

End choose.

Section active.
Context `{SemverCrate} `{!VersionFields} `{Target} `{JsonCrate} `{DigestCrates} `{NodeIndexJson} `{NodeArchives} `{NodeWorld W} `{!NodeUnpack W}.

Definition auto_switch_enabled (w : W) : bool := enabled (node_env w "SNPM_NODE_AUTO").
Definition auto_install_enabled (w : W) : bool := enabled (node_env w "SNPM_NODE_AUTO_INSTALL").

(** The configuration is the one of the environment ([SnpmConfig::from_env]). *)
Definition node_bin_dir_for_subprocess (config : SnpmConfig) (w : W) (project_root : string) : option string :=
  match (value ← node_env w "SNPM_NODE_BIN_OVERRIDE"; let path := trim value in if is_empty path then None else Some path) with
  | Some path => Some path
  | None =>
      if negb (auto_switch_enabled w) then None else
      match active_for_project_offline (view w) config project_root with
      | Ok (Some active) => Some (an_bin_dir active)
      | _ => None
      end
  end.

Definition ensure_active_for_project (config : SnpmConfig) (project_root : string) : Eff W (option ActiveNode) :=
  w ← world;
  pinned ← lift (discover_pinned (view w) project_root);
  match pinned with
  | None => lift (resolve_default (view w) config)
  | Some pin =>
      resolved ← resolve_spec config (pn_spec pin) true;
      let normalized := rn_normalized resolved in
      let active := active_from config normalized (PinnedBy (pn_source pin)) in
      w ← world;
      if negb (is_version_installed (view w) config normalized) then
        if auto_install_enabled w then _ ← install_version config normalized; mret (Some active) else mret None
      else mret (Some active)
  end.

Definition system_node_satisfies (w : W) (spec : string) : bool :=
  match Range.parse_internal spec, system_node w with
  | Ok range, Some version =>
      match version_parse (trim_start_matches "v" (trim version)) with Ok parsed => Range.matches range parsed | Err _ => false end
  | _, _ => false
  end.

Definition prepare_node_for_project (config : SnpmConfig) (project_root : string) : Eff W unit :=
  w ← world;
  let override_set := match node_env w "SNPM_NODE_BIN_OVERRIDE" with Some value => negb (is_empty (trim value)) | None => false end in
  if override_set || negb (auto_switch_enabled w) then mret tt else
  pinned ← lift (discover_pinned (view w) project_root);
  match pinned with
  | None => mret tt
  | Some pin =>
      installed ← lift (match_pin_offline (view w) config pin);
      match installed with
      | Some _ => mret tt
      | None =>
          if match pn_source pin with EnginesNode _ => system_node_satisfies w (pn_spec pin) | PinFile _ => false end
          then mret tt else
          active ← ensure_active_for_project config project_root;
          match active with
          | Some _ => mret tt
          | None => lift (Err (Internal ("Node " +:+ pn_spec pin +:+ " is pinned by this project but not installed, and auto-install " +:+
              "is disabled (SNPM_NODE_AUTO_INSTALL=0). Run `snpm node install " +:+ pn_spec pin +:+ "` first.")))
          end
      end
  end.

Definition ensure_installed_for_spec (config : SnpmConfig) (spec : string) : Eff W (ResolvedNodeVersion * InstallSummary) :=
  resolved ← resolve_spec config spec true;
  summary ← install_version config (rn_normalized resolved);
  mret (resolved, summary).
End active.

(** ** What is installed was verified *)
Section verified.
Context `{Target} `{DigestCrates} `{NodeArchives} `{NodeWorld W} `{!NodeUnpack W} (config : SnpmConfig) (version : string).

(** The bytes have the checksum that is published for the asset, a text of 64 bytes. *)
Definition published_checksum (platform : NodePlatform) (w : W) (bytes : string) : Prop :=
  exists w1 response w2 text expected,
    node_request (distro_url w +:+ "/" +:+ version +:+ "/SHASUMS256.txt") w1 = (Ok response, w2) /\
    np_text response = Ok text /\ parse_checksum text (asset_filename platform version) = Some expected /\
    String.length expected = 64 /\ node_checksum bytes = to_ascii_lowercase expected.

Lemma checksum_in_length asset lines expected : checksum_in asset lines = Some expected -> String.length expected = 64.
Proof.
  induction lines as [|line lines IH]; cbn [checksum_in]; [done|].
  destruct (split_whitespace line) as [|checksum [|filename rest]]; [done|done|].
  destruct ((filename == asset) && _) eqn:Hc; [|done]. apply andb_true_iff in Hc as [_ Hlen%Nat.eqb_eq]. by intros [= <-].
Qed.

Lemma verify_checksum_Ok platform w0 temp_dir asset_url bytes w u w' :
  verify_checksum temp_dir (distro_url w0 +:+ "/" +:+ version +:+ "/SHASUMS256.txt") (asset_filename platform version) asset_url bytes w
    = (Ok u, w') ->
  skip_checksum w = true \/ published_checksum platform w0 bytes.
Proof.
  unfold verify_checksum. intros Hv. apply eff_bind_Ok in Hv as (ws & wt & [= <- <-] & Hv).
  destruct (skip_checksum w); [by left|right]. apply eff_bind_Ok in Hv as (expected & w1 & He & Hv).
  destruct (node_checksum bytes == to_ascii_lowercase expected) eqn:Heq; [|by eff_inv Hv].
  unfold fetch_expected_checksum in He. apply eff_bind_Ok in He as (response & w2 & Hr & He).
  apply eff_bind_Ok in He as (text & w3 & Ht & He). injection Ht as Ht <-. injection He as He _.
  destruct (np_text response) as [text'|] eqn:Htext; [|done]. injection Ht as ->.
  destruct (parse_checksum text _) as [expected'|] eqn:Hp; [|done]. injection He as ->.
  exists w, response, w2, text, expected. split_and!; [done|done|done|by eapply checksum_in_length|by apply String.eqb_eq].
Qed.

End verified.

(** ** A failed installation leaves what is installed *)
Section staging.
Context `{Target} `{DigestCrates} `{NodeArchives} `{NodeWorld W} `{!NodeUnpack W}
  (R : relation W) `{!PreOrder R} (base : list string) (Hbase : Forall (fun n => name_ok n = true) base).

(** The operations at places below the directory keep [R], and so do the creation
    of its parent and requests. *)
Record staging_frame : Prop := {
  sf_create q : below base q \/ q = abs_path (removelast base) -> op_keeps R (fs_create_dir_all q);
  sf_remove_file q : below base q -> op_keeps R (fs_remove_file q);
  sf_remove_dir q : below base q -> op_keeps R (fs_remove_dir_all q);
  sf_symlink target q : below base q -> op_keeps R (fs_symlink target q);
  sf_unpack entry q : below base q -> op_keeps R (node_unpack entry q);
  sf_write q data w r disk : below base q -> fs_write (world_disk w) q data = (r, disk) -> R w (put_disk disk w);
  sf_client : keeps R node_client;
  sf_get url w r w' : node_get url w = (r, w') -> R w w';
}.
Context (HR : staging_frame).

Lemma keeps_write_output q data : below base q -> keeps R (write_output (q, data)).
Proof.
  intros Hq w r w'. unfold write_output. cbn [fst snd]. destruct (fs_write _ _ _) as [r1 d] eqn:Hw. intros [= _ <-]. by eapply sf_write.
Qed.
Lemma keeps_parent q : below base q -> keeps R (ensure_parent_dir q).
Proof.
  intros (rest & Hr & ->). apply keeps_ensure_parent_dir; [done|by apply Forall_app|]. apply (sf_create HR).
  destruct rest as [|n rest _] using rev_ind; [right; by rewrite app_nil_r|left].
  apply Forall_app in Hr as [Hr _]. exists rest. by rewrite (assoc_L app), removelast_last.
Qed.
Lemma below_self : below base (abs_path base).
Proof. exists []. by rewrite app_nil_r. Qed.

Lemma stripped_below path rel :
  strip_first_component path = Some rel ->
  match join_components (abs_path base) rel with Some q => below base q | None => True end.
Proof.
  unfold strip_first_component. intros Hs. assert (Hin : forall c, c ∈ rel -> c ∈ components path).
  { destruct (components path) as [|c [|c' l]]; [done|done|]. injection Hs as <-. intros d Hd. by right. }
  pose proof (join_components_below base rel (abs_path base) Hbase) as Hj.
  destruct (join_components (abs_path base) rel); [|done]. apply Hj; [|apply below_self].
  intros n Hn. by apply components_ok with path, Hin.
Qed.

Lemma keeps_create_symlink target q : below base q -> keeps R (create_symlink target q).
Proof.
  intros Hq. unfold create_symlink. apply keeps_world_bind. intros w. apply keeps_bind; [done| |].
  - case_match; [by apply keeps_io_error, (sf_remove_file HR)|by apply keeps_ret].
  - intros _. by apply keeps_io_error, (sf_symlink HR).
Qed.

Lemma keeps_extract_tarball bytes : keeps R (extract_tarball bytes (abs_path base)).
Proof.
  unfold extract_tarball. apply keeps_lift_bind; [done|]. intros entries _. apply keeps_fold; [done|]. intros _ entry.
  unfold extract_tar_entry. apply keeps_lift_bind; [done|]. intros e _. apply keeps_lift_bind; [done|]. intros path _.
  destruct (strip_first_component path) as [rel|] eqn:Hs; [|by apply keeps_ret]. apply stripped_below in Hs as Hq.
  destruct (join_components _ _) as [q|]; [|by apply keeps_lift].
  destruct (nt_type e); [|by apply keeps_io_error, (sf_create HR); left| | |]; try by apply keeps_parent.
  all: apply keeps_bind; [done|by apply keeps_parent|intros _].
  - by apply keeps_io_error, (sf_unpack HR).
  - apply keeps_lift_bind; [done|]. intros link _. apply keeps_lift_bind; [done|]. intros target _. by apply keeps_create_symlink.
Qed.
Lemma keeps_extract_zip bytes : keeps R (extract_zip bytes (abs_path base)).
Proof.
  unfold extract_zip. apply keeps_lift_bind; [done|]. intros files _. apply keeps_fold; [done|]. intros _ file.
  unfold extract_zip_entry. apply keeps_lift_bind; [done|]. intros e _.
  destruct (nz_enclosed_name e) as [path|]; [|by apply keeps_ret]. cbn [mbind option_bind].
  destruct (strip_first_component path) as [rel|] eqn:Hs; [|by apply keeps_ret]. apply stripped_below in Hs as Hq.
  destruct (join_components _ _) as [q|]; [|by apply keeps_lift].
  destruct (nz_is_dir e); [by apply keeps_io_error, (sf_create HR); left|].
  apply keeps_bind; [done|by apply keeps_parent|intros _]. apply keeps_lift_bind; [done|]. intros buffer _. by apply keeps_write_output.
Qed.

Lemma keeps_node_request url : keeps R (node_request url).
Proof.
  unfold node_request. apply keeps_bind; [done|apply (sf_client HR)|]. intros _. apply keeps_bind; [done| |].
  - intros w r w'. unfold eff_of. destruct (node_get url w) eqn:Hg. intros [= _ <-]. by eapply sf_get.
  - intros response. apply keeps_lift_bind; [done|]. intros r _. case_match; [by apply keeps_lift|by apply keeps_ret].
Qed.
Lemma keeps_node_download url : keeps R (node_download url).
Proof. unfold node_download. apply keeps_bind; [done|apply keeps_node_request|]. intros r. by apply keeps_lift. Qed.
Lemma keeps_discard {A} error : keeps R (discard (abs_path base) error : Eff W A).
Proof.
  unfold discard. apply keeps_bind; [done|by apply keeps_io_ignore, (sf_remove_dir HR), below_self|]. intros _. by apply keeps_lift.
Qed.
Lemma keeps_verify_checksum shasums_url asset asset_url bytes :
  keeps R (verify_checksum (abs_path base) shasums_url asset asset_url bytes).
Proof.
  unfold verify_checksum. apply keeps_world_bind. intros w. case_match; [by apply keeps_ret|]. apply keeps_bind; [done| |].
  - unfold fetch_expected_checksum. apply keeps_bind; [done|apply keeps_node_request|]. intros response.
    apply keeps_lift_bind; [done|]. intros text _. by apply keeps_lift.
  - intros expected. case_match; [by apply keeps_ret|apply keeps_discard].
Qed.

Lemma keeps_stage config platform version :
  node_temp_dir config version = abs_path base -> node_versions_dir config = abs_path (removelast base) ->
  keeps R (stage_version config platform version).
Proof.
  intros Ht Hv. unfold stage_version. rewrite Ht, Hv. cbv zeta. apply keeps_bind; [done|by apply keeps_io_error, (sf_create HR); right|].
  intros _. apply keeps_bind; [done| |].
  { unfold remove_dir_if_there. apply keeps_world_bind. intros w.
    case_match; [by apply keeps_io_error, (sf_remove_dir HR), below_self|by apply keeps_ret]. }
  intros _. apply keeps_bind; [done|apply keeps_io_error, (sf_create HR); left; apply below_self|].
  intros _. apply keeps_world_bind. intros w. apply keeps_bind; [done|apply keeps_node_download|]. intros bytes.
  apply keeps_bind; [done|apply keeps_verify_checksum|]. intros _. apply keeps_bind; [done| |].
  { destruct (npl_archive platform); [apply keeps_extract_tarball|apply keeps_extract_zip]. }
  intros _. apply keeps_world_bind. intros w'. destruct (negb _); [apply keeps_discard|]. apply keeps_write_output.
  unfold node_marker. apply below_push; [done|done|apply below_self].
Qed.

(** A failed installation of Node leaves what is installed.  Whatever the
    server and the archive contain, an installation that fails has only worked in
    its own temporary directory, so that every property which operations there keep
    is kept; the other failure is that of replacing the directory of the version. *)
Theorem failed_node_install config version w e w' :
  node_temp_dir config version = abs_path base -> node_versions_dir config = abs_path (removelast base) ->
  install_version config version w = (Err e, w') ->
  R w w' \/ exists source, e = WriteFile (node_version_dir config version) source.
Proof.
  intros Ht Hv. unfold install_version. intros [(e1 & Hl & _)|(platform & w1 & Hl & Hi)]%eff_bind_inv.
  { left. injection Hl as _ <-. reflexivity. }
  injection Hl as _ <-. apply eff_bind_inv in Hi as [(? & [=] & _)|(wb & wc & [= <- <-] & Hi)].
  destruct (is_version_installed _ _ _); [done|]. apply eff_bind_inv in Hi as [(e1 & Hs & _)|(u & w1 & _ & Hi)].
  { left. by eapply keeps_stage. }
  right. unfold remove_dir_if_there, io_write in Hi. apply eff_bind_inv in Hi as [(e1 & Hm & [= ->])|(u' & w2 & _ & Hi)].
  - apply eff_bind_inv in Hm as [(? & [=] & _)|(wx & wy & [= <- <-] & Hm)]. destruct (path_exists _ _); [|done].
    revert Hm. unfold io_error. destruct (fs_remove_dir_all _ _) as [[[]|source] w3]; [done|]. intros [= <- _]. eauto.
  - apply eff_bind_inv in Hi as [(e1 & Hm & [= ->])|(? & ? & _ & [=])]. revert Hm. unfold io_error.
    destruct (fs_rename _ _ _) as [[[]|source] w3]; [done|]. intros [= <- _]. eauto.
Qed.
End staging.

(** ** The version a project runs with *)
Section active_lemmas.
Context `{SemverCrate} `{!SemverLaws} `{Target} `{JsonCrate} `{FsWorld W}.

Lemma keep_last_max_spec l : forall best,
  match foldl keep_last_max best l with
  | Some (v, label) => (best = Some (v, label) \/ (v, label) ∈ l) /\
      forall w other, best = Some (w, other) \/ (w, other) ∈ l -> version_le w v
  | None => best = None /\ l = []
  end.
Proof.
  assert (Hrefl : forall v : Version, version_le v v) by (intros v; destruct (total version_le v v); done).
  induction l as [|[a x] l IH]; intros best; cbn [foldl].
  { destruct best as [[v label]|]; [|done]. split; [by left|]. intros w other [[= <- <-]|[]%not_elem_of_nil]. done. }
  specialize (IH (keep_last_max best (a, x))). destruct (foldl _ _ l) as [[v label]|].
  - destruct IH as [Hin Hmax]. unfold keep_last_max in Hin, Hmax. cbn [fst] in Hin, Hmax. split.
    + rewrite elem_of_cons. destruct Hin as [Hin|]; [|auto]. destruct best as [[b y]|]; [case_decide|]; naive_solver.
    + intros w other Hw. rewrite elem_of_cons in Hw. destruct best as [[b y]|]; [case_decide as Hle|].
      * destruct Hw as [[= <- <-]|[[= -> ->]|Hw]]; [|by apply (Hmax a x); left|by eapply Hmax; right].
        etrans; [exact Hle|]. apply (Hmax a x). by left.
      * destruct Hw as [[= <- <-]|[[= -> ->]|Hw]]; [by apply (Hmax b y); left| |by eapply Hmax; right].
        destruct (total version_le b a); [done|]. etrans; [done|]. apply (Hmax b y). by left.
      * destruct Hw as [[=]|[[= -> ->]|Hw]]; [by apply (Hmax a x); left|by eapply Hmax; right].
  - destruct IH as [IH _]. exfalso. unfold keep_last_max in IH. destruct best as [[b y]|]; [by case_decide|done].
Qed.

(** For a range or a partial version, the version that is chosen is an installed
    one in the range, and no installed version in the range is greater. *)
Theorem newest_installed_greatest fs config spec label :
  newest_installed_matching fs config spec = Some label ->
  exists range installed v, Range.parse_internal spec = Ok range /\ list_installed_versions fs config = Ok installed /\
    label ∈ installed /\ label_version label = Some v /\ Range.matches range v = true /\
    forall other w, other ∈ installed -> label_version other = Some w -> Range.matches range w = true -> version_le w v.
Proof.
  unfold newest_installed_matching. destruct (Range.parse_internal spec) as [range|]; [|done].
  destruct (list_installed_versions fs config) as [installed|]; [|done]. cbn [mbind option_bind result_ok].
  set (l := omap _ installed). pose proof (keep_last_max_spec l None) as Hk.
  destruct (foldl keep_last_max None l) as [[v label']|]; [|done]. cbn. intros [= ->].
  destruct Hk as [[[=]|Hin] Hmax].
  assert (Hl : forall w other, (w, other) ∈ l <->
    other ∈ installed /\ label_version other = Some w /\ Range.matches range w = true).
  { intros w other. unfold l. rewrite list_elem_of_omap. split.
    - intros (version & Hv & Hp). destruct (label_version version) as [p|] eqn:E; [|done]. cbn in Hp.
      destruct (Range.matches range p) eqn:Hm; [|done]. by injection Hp as <- <-.
    - intros (Ho & Hw & Hm). exists other. split; [done|]. rewrite Hw. cbn. by rewrite Hm. }
  apply Hl in Hin as (Hin & Hv & Hm). exists range, installed, v. split_and!; try done.
  intros other w Ho Hw Hmw. apply (Hmax w other). right. by apply Hl.
Qed.

(** A pin that is neither a version nor a range, and not an alias of a version,
    gives no active version, whatever is installed. *)
Lemma word_pin_is_never_active fs config pin e :
  normalize_version (pn_spec pin) = None -> read_alias fs config (pn_spec pin) = Ok None ->
  Range.parse_internal (pn_spec pin) = Err e -> match_pin_offline fs config pin = Ok None.
Proof. intros Hn Ha Hr. unfold match_pin_offline, newest_installed_matching. by rewrite Hn, Ha, Hr. Qed.
End active_lemmas.

(** ** Examples and witnesses *)
Module NodeDemo.
#[local] Instance linux : Target := {| target_os := "linux"; target_arch := "x86_64"; target_env := "gnu" |}.
(** A checksum of 64 digits for a digest. *)
#[local] Instance digests : DigestCrates := {|
  base64_encode s := s; base64_decode s := Ok s; hex_encode s := s +:+ s +:+ s +:+ s;
  hasher := N; hasher_new _ := 7%N;
  hasher_update h s := fold_left SharingDemo.checksum_step (String.list_ascii_of_string s) h;
  hasher_finalize h := show_N (1000000000000000 + h)%N |}.
#[local] Instance fields : VersionFields := {| version_major v := v.1.1; version_minor v := v.1.2 |}.
#[local] Instance no_json : JsonCrate := {| json_from_str _ := Err "expected value" |}.
(** The index of releases has one line for each: a version, and a name if it is supported. *)
#[local] Instance lines_index : NodeIndexJson := fun data =>
  Ok (omap (fun line => match split_whitespace line with
                        | [version] => Some {| nr_version := version; nr_lts := LtsNone false |}
                        | version :: name :: _ => Some {| nr_version := version; nr_lts := Codename name |}
                        | [] => None
                        end) (lines data)).
(** An archive is its binary. *)
#[local] Instance one_binary : NodeArchives := {|
  node_tar_entries data := Ok [Ok {| nt_path := Ok "node/bin/node"; nt_type := EntryRegular; nt_link := Ok None; nt_data := data |}];
  node_zip_entries _ := Err "unsupported" |}.

Definition config : SnpmConfig := config_for_tests.
Definition directory : list string := ["tmp"; "data"; "node"; "versions"; "v20.10.0.tmp"].
Definition asset : string := "node-v20.10.0-linux-x64.tar.gz".
Definition pages (checksum : string) : list (string * string) :=
  [("https://nodejs.org/dist/index.json", "v21.1.0" +:+ chr "010" +:+ "v20.10.0 Iron" +:+ chr "010" +:+ "v20.9.0 Iron");
   ("https://nodejs.org/dist/v20.10.0/" +:+ asset, "binary");
   ("https://nodejs.org/dist/v20.10.0/SHASUMS256.txt", checksum +:+ "  " +:+ asset)].

Definition body (data : string) : NodeResponse := {| np_failure := None; np_chunks := [Ok data]; np_text := Ok data |}.
Definition World : Type := WorldDemo.DemoWorld.
Definition node_world (checksum : string) (directories : list string) (env : string -> option string) : NodeWorld World := {|
  node_fs := WorldDemo.demo_fs directories [];
  node_env _ := env;
  system_now _ := 0%Z;
  node_client := mret tt;
  node_get url w := (match list_to_map (M := gmap string string) (pages checksum) !! url with
                     | Some data => Ok (body data)
                     | None => Ok {| np_failure := Some "404 Not Found"; np_chunks := []; np_text := Ok ε |}
                     end, (w.1, w.2 ++ ["get " +:+ url]));
  system_node _ := None |}.
#[local] Instance unpacks : NodeUnpack World := fun entry path w =>
  let '(r, d) := fs_write w.1 path (nt_data entry) in (r, (d, w.2 ++ ["unpack " +:+ path])).

Definition good : string := "3127290765162636312729076516263631272907651626363127290765162636".
Definition start : World := (disk_with ∅, []).
Definition no_env (_ : string) : option string := None.

(** A new version: nothing is there but what is unpacked. *)
#[local] Instance honest : NodeWorld World := node_world good [] no_env.
Definition installed : Result InstallSummary * World := install_version config "v20.10.0" start.
Example installed_run :
  is_already_installed <$> result_ok installed.1 = Some false /\
  installed.2.2 = ["create /tmp/data/node/versions"; "create /tmp/data/node/versions/v20.10.0.tmp";
    "get https://nodejs.org/dist/v20.10.0/" +:+ asset; "get https://nodejs.org/dist/v20.10.0/SHASUMS256.txt";
    "create /tmp/data/node/versions/v20.10.0.tmp/bin"; "unpack /tmp/data/node/versions/v20.10.0.tmp/bin/node";
    "rename /tmp/data/node/versions/v20.10.0.tmp /tmp/data/node/versions/v20.10.0"].
Proof. split; vm_refl. Qed.


(** Nothing outside the temporary directory has changed. *)
Definition elsewhere (w w' : World) : Prop := forall p, ~ below directory p -> fs_read w'.1 p = fs_read w.1 p.
#[local] Instance elsewhere_preorder : PreOrder elsewhere.
Proof. split; [by intros w p|]. intros w1 w2 w3 H12 H23 p Hp. by rewrite H23, H12. Qed.

Lemma write_elsewhere q data (w : World) r disk log :
  below directory q -> fs_write w.1 q data = (r, disk) -> elsewhere w (disk, log).
Proof.
  intros Hq Hw p Hp. eapply fs_read_write_ne; [done|]. by intros ->.
Qed.
Lemma demo_frame checksum env : @staging_frame World (node_world checksum [] env) _ elsewhere directory.
Proof.
  split; try (intros; by intros w r w' [= _ <-]).
  - intros entry q Hq w r w'. unfold node_unpack, unpacks. destruct (fs_write w.1 q _) as [r1 d] eqn:Hw.
    intros [= _ <-]. by eapply write_elsewhere.
  - intros q data w r disk Hq Hw. by eapply write_elsewhere.
  - intros url w r w'. by intros [= _ <-].
Qed.

(** With another checksum published, the installation fails, and only the
    temporary directory was touched. *)
Lemma failed_node_install_witness :
  let tampered := node_world (String.concat ε (repeat "0" 64)) [] no_env in
  exists e w', install_version (H2 := tampered) config "v20.10.0" start = (Err e, w') /\
  (elsewhere start w' \/ exists source, e = WriteFile (node_version_dir config "v20.10.0") source).
Proof.
  cbn zeta. destruct (install_version (H2 := node_world (String.concat ε (repeat "0" 64)) [] no_env) config "v20.10.0" start)
    as [[summary|e] w'] eqn:Hi; [exfalso; revert Hi; vm_compute; done|].
  exists e, w'. split; [reflexivity|].
  apply (failed_node_install (H2 := node_world (String.concat ε (repeat "0" 64)) [] no_env) elsewhere directory
    ltac:(by repeat constructor) (demo_frame _ _) config "v20.10.0" start e w' eq_refl eq_refl Hi).
Defined.

(** A pin that is a word: it is resolved and found to be installed, and the project
    still runs with whatever node is on the path. *)
Definition versions : string := "/tmp/data/node/versions".
Definition pinned_start (pin : string) (aliases : list (string * string)) : World :=
  (disk_with (list_to_map ([("/p/.nvmrc", pin); (versions +:+ "/v20.10.0/.snpm_complete", ε);
     (versions +:+ "/v20.10.0/bin/node", "binary")] ++ aliases)), []).
Example word_pin_is_prepared_and_not_used :
  let start := pinned_start "lts/*" [] in
  is_version_installed (view start) config "v20.10.0" = true /\
  (prepare_node_for_project config "/p" start).1 = Ok tt /\
  an_version <$> (result_ok (ensure_active_for_project config "/p" start).1 ≫= id) = Some "v20.10.0" /\
  active_for_project_offline (view start) config "/p" = Ok None.
Proof. cbn zeta. split_and!; vm_refl. Qed.
(** So it is with an alias of an alias. *)
Example alias_of_alias_is_not_used :
  let start := pinned_start "work" [("/tmp/data/node/aliases/work", "team"); ("/tmp/data/node/aliases/team", "20.10.0")] in
  (prepare_node_for_project config "/p" start).1 = Ok tt /\
  an_version <$> (result_ok (ensure_active_for_project config "/p" start).1 ≫= id) = Some "v20.10.0" /\
  active_for_project_offline (view start) config "/p" = Ok None.
Proof. cbn zeta. split_and!; vm_refl. Qed.

(** A blank line ends the search for a checksum. *)
Example blank_line_hides_checksum :
  parse_checksum (good +:+ "  " +:+ asset) asset = Some good /\ parse_checksum (chr "010" +:+ good +:+ "  " +:+ asset) asset = None.
Proof. split; vm_refl. Qed.

(** A link in an archive may lead anywhere, and what follows is written through it. *)
#[local] Instance linking_archive : NodeArchives := {|
  node_tar_entries data := Ok [
    Ok {| nt_path := Ok "node/lib"; nt_type := EntrySymlink; nt_link := Ok (Some "/home/user"); nt_data := ε |};
    Ok {| nt_path := Ok "node/lib/.profile"; nt_type := EntryRegular; nt_link := Ok None; nt_data := data |}];
  node_zip_entries _ := Err "unsupported" |}.
Example links_are_followed :
  let result := extract_tarball "data" "/tmp/d" start in
  result.1 = Ok tt /\ result.2.2 = ["create /tmp/d"; "symlink /tmp/d/lib"; "create /tmp/d/lib"; "unpack /tmp/d/lib/.profile"].
Proof. cbn zeta. split; vm_refl. Qed.

(** Selectors: a partial version, a range, names and a cycle of aliases. *)
Definition releases : list NodeRelease := default [] (result_ok (lines_index "v21.1.0
v20.10.0 Iron
v20.9.0 Iron")).
Example selectors :
  match_remote "20" releases = Ok "v20.10.0" /\ match_remote "v20.9" releases = Ok "v20.9.0" /\
  match_remote ">=20.0.0 <20.10.0" releases = Ok "v20.9.0" /\ match_remote "LTS/iron" releases = Ok "v20.10.0" /\
  match_remote "latest" releases = Ok "v21.1.0" /\ match_remote "v1.2.3.4" releases = Err (Internal "could not resolve Node version selector 'v1.2.3.4'").
Proof. split_and!; vm_refl. Qed.
Example cyclic_aliases_fail :
  (resolve_spec config "a" true (pinned_start "a" [("/tmp/data/node/aliases/a", "b"); ("/tmp/data/node/aliases/b", "a")])).1 =
  Err (Internal "alias chain exceeds 8 hops resolving 'b'").
Proof. vm_refl. Qed.
Example newest_of_nothing : newest_installed_matching (view start) config "^20.0.0" = None.
Proof. vm_refl. Qed.
End NodeDemo.
