(* ===== verification/MetadataCache.v ===== *)
(** * The cache of packuments ([cache/])

    What the registry said about a package, with the headers of its answer, is kept
    in one of 64 files; older versions had two files for each package.  Failures to
    write are only reported, so [write_record_update] always succeeds.  Another
    process does not write in between. *)
From S2P Require Import Prelude.
From S2P Require Import BTree.
From S2P Require Import Text.
From S2P Require Import Errors.
From S2P Require Import Types.
From S2P Require Import Paths.
From S2P Require Import Crates.
From S2P Require Import Peers.
From S2P Require Import Config.
From S2P Require Import Store.
From S2P Require Import Scripts.
From S2P Require Import Linker.
From S2P Require Import Residency.
From S2P Require Import World.
From S2P Require Import Http.
From S2P Require Import LinkFs.
From S2P Require Import StoreFs.
From S2P Require Import Sharing.
From S2P Require Import StoreTree.
From S2P Require Import StoreSafe.
From S2P Require Import StoreBlobs.

Record CachedHeaders := { etag : option string; last_modified : option string }.

(** [CachedPackageEntry] and [MetadataShard], as they are encoded. *)
Record CachedPackageEntry := {
  ce_package : option RegistryPackage;
  ce_headers : option CachedHeaders;
  ce_updated_at_unix_secs : N;
}.
Record MetadataShard := { sh_version : N; sh_packages : gmap string CachedPackageEntry }.

Record CachedPackageRecord := {
  cr_package : option RegistryPackage;
  cr_headers : option CachedHeaders;
  cr_updated_at_unix_secs : N;
  cr_cache_path : string;
}.

Definition empty_entry : CachedPackageEntry := {| ce_package := None; ce_headers := None; ce_updated_at_unix_secs := 0 |}.
Definition PACKUMENT_CACHE_VERSION : N := 1.
Definition default_shard : MetadataShard := {| sh_version := PACKUMENT_CACHE_VERSION; sh_packages := ∅ |}.

(** The JSON files of older versions. *)
Class LegacyJson := {
  package_from_json : string -> result string RegistryPackage;
  headers_from_json : string -> result string CachedHeaders;
}.

(** The wall clock, in nanoseconds since the epoch. *)
Class CacheWorld (W : Type) := { cw_store :: StoreWorld W; cw_now : W -> Z }.

(** ** [paths.rs] *)
Definition PACKUMENT_CACHE_SHARDS : N := 64.
Definition sanitize_package_name : string -> string := cache_safe_name.
Definition package_cache_dir (config : SnpmConfig) (name : string) : string := path_push (metadata_dir config) (sanitize_package_name name).
Definition metadata_cache_path (config : SnpmConfig) (name : string) : string := path_push (package_cache_dir config name) "index.json".
Definition headers_cache_path (config : SnpmConfig) (name : string) : string := path_push (package_cache_dir config name) "headers.json".

(** One byte: [^=] and [wrapping_mul] on [u32]. *)
Definition shard_step (hash : N) (byte : ascii) : N := ((N.lxor hash (N_of_ascii byte) * 16777619) mod 2 ^ 32)%N.
Definition shard_for_name (name : string) : N :=
  (fold_left shard_step (String.list_ascii_of_string name) 2166136261%N `mod` PACKUMENT_CACHE_SHARDS)%N.

(** [{:02x}] below 256 *)
Definition hex_char (n : N) : ascii := ascii_of_N (if (n <? 10)%N then 48 + n else 87 + n)%N.
Definition two_hex (n : N) : string := String (hex_char (n / 16)%N) (chr (hex_char (n mod 16)%N)).
Definition metadata_shard_path (config : SnpmConfig) (name : string) : string :=
  path_push (metadata_dir config) ("packuments-v1-" +:+ two_hex (shard_for_name name) +:+ ".bin").

Section cache.
Context `{Bincode MetadataShard} `{LegacyJson} `{CacheWorld W}.

(** [duration_since(UNIX_EPOCH)], in seconds *)
Definition unix_secs (time : Z) : option N := if (0 <=? time)%Z then Some (Z.to_N (time / 1000000000)) else None.

(** ** [metadata/freshness.rs] *)

(** The age is a [u32]. *)
Definition is_fresh (w : W) (config : SnpmConfig) (updated_at_unix_secs : N) : bool :=
  match c_min_package_cache_age_days config with
  | None => false
  | Some max_age_days =>
      match unix_secs (cw_now w) with
      | None => false
      | Some now_secs =>
          if (now_secs <? updated_at_unix_secs)%N then false
          else ((now_secs - updated_at_unix_secs) / 86400 <? Z.to_N max_age_days)%N
      end
  end.

(** ** [metadata/storage.rs]: reading *)
Definition read_shard (w : W) (path : string) : option MetadataShard :=
  bytes ← result_ok (content w path);
  shard ← result_ok (unbincode bytes);
  if (sh_version shard =? PACKUMENT_CACHE_VERSION)%N then Some shard else None.

Definition read_shard_record (w : W) (config : SnpmConfig) (name : string) : option CachedPackageRecord :=
  let cache_path := metadata_shard_path config name in
  shard ← read_shard w cache_path;
  entry ← sh_packages shard !! name;
  match ce_package entry, ce_headers entry with
  | None, None => None
  | package, headers => Some {| cr_package := package; cr_headers := headers;
                                cr_updated_at_unix_secs := ce_updated_at_unix_secs entry; cr_cache_path := cache_path |}
  end.

Definition read_legacy {A} (parse : string -> result string A) (w : W) (path : string) : option A :=
  data ← result_ok (bytes ← content w path; from_utf8 bytes); result_ok (parse data).

(** [latest_modified_unix_secs], of two files *)
Definition modified_unix_secs (w : W) (path : string) : option N :=
  metadata ← result_ok (fs_stat (view w) path);
  modified ← result_ok (st_modified metadata);
  unix_secs modified.
Definition latest_modified_unix_secs (w : W) (paths : list string) : N :=
  fold_left N.max (omap (modified_unix_secs w) paths) 0%N.

Definition read_legacy_record (w : W) (config : SnpmConfig) (name : string) : option CachedPackageRecord :=
  let package_path := metadata_cache_path config name in
  let headers_path := headers_cache_path config name in
  let package := read_legacy package_from_json w package_path in
  let headers := read_legacy headers_from_json w headers_path in
  match package, headers with
  | None, None => None
  | _, _ => Some {| cr_package := package; cr_headers := headers;
                    cr_updated_at_unix_secs := latest_modified_unix_secs w [package_path; headers_path];
                    cr_cache_path := match package with Some _ => package_path | None => headers_path end |}
  end.

Definition read_cached_package_record (w : W) (config : SnpmConfig) (name : string) : option CachedPackageRecord :=
  match read_shard_record w config name with
  | Some record => Some record
  | None => read_legacy_record w config name
  end.

(** ** [metadata/mod.rs], [headers.rs] *)
Definition load_metadata_with_offline (w : W) (config : SnpmConfig) (name : string) (offline_mode : OfflineMode) : option RegistryPackage :=
  record ← read_cached_package_record w config name;
  package ← cr_package record;
  let fresh := is_fresh w config (cr_updated_at_unix_secs record) in
  let has_required_age_metadata := match c_min_package_age_days config with
                                   | None => true
                                   | Some _ => negb (bool_decide (rp_time package = ∅))
                                   end in
  let usable_for_mode := fresh || match offline_mode with PreferOffline | Offline => true | Online => false end in
  if usable_for_mode && has_required_age_metadata then Some package else None.
Definition load_metadata (w : W) (config : SnpmConfig) (name : string) : option RegistryPackage :=
  load_metadata_with_offline w config name Online.
Definition load_cached_headers (w : W) (config : SnpmConfig) (name : string) : option CachedHeaders :=
  record ← read_cached_package_record w config name; cr_headers record.

(** ** [metadata/storage.rs]: writing *)
Definition nanos_since_epoch (w : W) : N := Z.to_N (cw_now w).
Definition tmp_path_of (w : W) (path : string) : string :=
  let name := default "cache" (file_name path) in
  with_file_name path ("." +:+ name +:+ "." +:+ show_N (process_id w) +:+ "." +:+ show_N (nanos_since_epoch w) +:+ ".tmp").

Definition write_file (path data : string) : IoOp W := fun w =>
  let '(r, disk) := fs_write (world_disk w) path data in (r, put_disk disk w).

(** The rename is tried again without the file that is there. *)
Definition write_atomic (path bytes : string) : IoOp W := fun w =>
  let tmp_path := tmp_path_of w path in
  match write_file tmp_path bytes w with
  | (Err source, w) => (Err source, w)
  | (Ok _, w) =>
      match fs_rename tmp_path path w with
      | (Ok _, w) => (Ok tt, w)
      | (Err source, w) =>
          if is_file (view w) path then
            let '(_, w) := fs_remove_file path w in
            match fs_rename tmp_path path w with
            | (Ok _, w) => (Ok tt, w)
            | (Err source, w) => let '(_, w) := fs_remove_file tmp_path w in (Err source, w)
            end
          else let '(_, w) := fs_remove_file tmp_path w in (Err source, w)
      end
  end.

(** The shard with the entry of a package changed; a file that cannot be read as a
    shard counts as empty. *)
Definition updated_shard (w : W) (path name : string) (update : CachedPackageEntry -> CachedPackageEntry) : MetadataShard :=
  let shard := default default_shard (read_shard w path) in
  let entry := update (default empty_entry (sh_packages shard !! name)) in
  {| sh_version := sh_version shard;
     sh_packages := <[name := {| ce_package := ce_package entry; ce_headers := ce_headers entry;
                                 ce_updated_at_unix_secs := default 0%N (unix_secs (cw_now w)) |}]> (sh_packages shard) |}.

Definition write_record_update (config : SnpmConfig) (name : string) (update : CachedPackageEntry -> CachedPackageEntry) : Eff W unit :=
  let cache_path := metadata_shard_path config name in
  created ← (match parent cache_path with Some parent => io_try (fs_create_dir_all parent) | None => mret true end);
  if negb created then mret tt else
  w ← world;
  match bincode (updated_shard w cache_path name update) with
  | Ok bytes => io_ignore (write_atomic cache_path bytes)
  | Err _ => mret tt
  end.

Definition put_record (package : RegistryPackage) (headers : option CachedHeaders) (entry : CachedPackageEntry) : CachedPackageEntry := {|
  ce_package := Some package;
  ce_headers := match headers with Some headers => Some headers | None => ce_headers entry end;
  ce_updated_at_unix_secs := ce_updated_at_unix_secs entry |}.
Definition put_headers (headers : CachedHeaders) (entry : CachedPackageEntry) : CachedPackageEntry := {|
  ce_package := ce_package entry; ce_headers := Some headers; ce_updated_at_unix_secs := ce_updated_at_unix_secs entry |}.

Definition save_metadata_with_headers (config : SnpmConfig) (name : string) (package : RegistryPackage) (headers : option CachedHeaders)
  : Eff W unit := write_record_update config name (put_record package headers).
Definition save_metadata (config : SnpmConfig) (name : string) (package : RegistryPackage) : Eff W unit :=
  write_record_update config name (put_record package None).
Definition save_cached_headers (config : SnpmConfig) (name : string) (headers : CachedHeaders) : Eff W unit :=
  write_record_update config name (put_headers headers).
End cache.

(** ** The hash stays in a [u32], and there are 64 files *)
Lemma shard_step_u32 hash byte : (shard_step hash byte < 2 ^ 32)%N.
Proof. by apply N.mod_lt. Qed.
Lemma shard_for_name_bound name : (shard_for_name name < PACKUMENT_CACHE_SHARDS)%N.
Proof. by apply N.mod_lt. Qed.

(** ** What [bincode] does to a shard

    Fields that are read by looking at the input ([serde_json::Value] and the
    untagged [BundledDependencies]) can be encoded, but not decoded. *)
Definition plain_version (v : RegistryVersion) : Prop :=
  v_bin v = None /\ v_bundled_dependencies v = None /\ v_bundle_dependencies v = None.
Definition plain_package (package : RegistryPackage) : Prop := map_Forall (fun _ v => plain_version v) (rp_versions package).
Definition plain_entry (entry : CachedPackageEntry) : Prop :=
  match ce_package entry with Some package => plain_package package | None => True end.
#[global] Instance plain_version_dec v : Decision (plain_version v).
Proof. unfold plain_version. apply _. Defined.
#[global] Instance plain_package_dec package : Decision (plain_package package).
Proof. unfold plain_package. apply _. Defined.
#[global] Instance plain_entry_dec entry : Decision (plain_entry entry).
Proof. unfold plain_entry. destruct (ce_package entry); apply _. Defined.
Definition plain_shard (shard : MetadataShard) : Prop := map_Forall (fun _ entry => plain_entry entry) (sh_packages shard).

Class ShardLaws `{Bincode MetadataShard} := {
  plain_shard_back shard data : plain_shard shard -> bincode shard = Ok data -> unbincode data = Ok shard;
  decoded_shard_plain data shard : unbincode data = Ok shard -> plain_shard shard;
  decoded_shard_same shard data shard' : bincode shard = Ok data -> unbincode data = Ok shard' -> shard' = shard;
}.

(** The file of a shard and the temporary file next to it. *)
Definition shard_file (name : string) : string := "packuments-v1-" +:+ two_hex (shard_for_name name) +:+ ".bin".

Lemma two_hex_ok n : (n < 64)%N -> contains_char "/" (two_hex n) = false.
Proof.
  intros Hn. assert (Hall : forallb (fun n => negb (contains_char "/" (two_hex n))) (map N.of_nat (seq 0 64)) = true) by vm_refl.
  rewrite forallb_forall in Hall. apply negb_true_iff, Hall. apply in_map_iff. exists (N.to_nat n).
  rewrite N2Nat.id. split; [done|]. apply in_seq. lia.
Qed.
Lemma shard_file_ok name : name_ok (shard_file name) = true.
Proof.
  unfold name_ok. rewrite andb_true_iff, bool_decide_eq_true. split; [|reflexivity]. apply negb_true_iff. unfold shard_file.
  rewrite !contains_char_app, two_hex_ok by apply shard_for_name_bound. done.
Qed.

Lemma components_shard_path config name :
  components (metadata_shard_path config name) = components (metadata_dir config) ++ [Normal (shard_file name)].
Proof. apply components_push, shard_file_ok. Qed.

Lemma all_digits_no_slash s : all_chars is_ascii_digit s = true -> contains_char "/" s = false.
Proof.
  induction s as [|a s IH]; [done|]. cbn. rewrite andb_true_iff. intros [Ha Hs]. rewrite (IH Hs), orb_false_r.
  destruct (Ascii.eqb_spec "/" a) as [<-|]; done.
Qed.

Lemma tmp_path_ne `{CacheWorld W} (w : W) config name : tmp_path_of w (metadata_shard_path config name) <> metadata_shard_path config name.
Proof.
  intros Heq%(f_equal components). revert Heq. unfold tmp_path_of, with_file_name, file_name. rewrite components_shard_path, last_snoc. cbn [default].
  change (id (shard_file name)) with (shard_file name).
  set (tmp := "." +:+ shard_file name +:+ "." +:+ show_N (process_id w) +:+ "." +:+ show_N (nanos_since_epoch w) +:+ ".tmp").
  rewrite components_push.
  - by intros [_ [= Hn]]%app_inj_2.
  - unfold name_ok. rewrite andb_true_iff, bool_decide_eq_true. split; [|reflexivity]. apply negb_true_iff.
    pose proof (shard_file_ok name) as (Hs & _)%name_ok_spec. unfold tmp.
    rewrite !contains_char_app, Hs, (all_digits_no_slash (show_N (process_id w))),
      (all_digits_no_slash (show_N (nanos_since_epoch w))) by apply show_N_digits. done.
Qed.

Class CacheWorldLaws (W : Type) `{CacheWorld W} := {
  cw_files :: FileLaws W;
  cw_written w p data r d : fs_write (world_disk w) p data = (r, d) -> world_disk (put_disk d w) = d;
  cw_removed p w r w' : fs_remove_file p w = (r, w') -> content w' p = content w p \/ exists e, content w' p = Err e;
}.

(** The bytes are the new ones or the old ones, or they cannot be read. *)
Definition maybe_written `{CacheWorld W} (path bytes : string) (w w' : W) : Prop :=
  content w' path = Ok bytes \/ content w' path = content w path \/ exists e, content w' path = Err e.

Section correct.
Context `{ShardLaws} `{LegacyJson} `{CacheWorldLaws W}.

Lemma read_shard_plain w path shard : read_shard w path = Some shard -> plain_shard shard.
Proof.
  unfold read_shard. destruct (content w path) as [bytes|]; [|done]. cbn. destruct (unbincode bytes) as [s|] eqn:E; [|done]. cbn.
  case_match; [|done]. intros [= <-]. by eapply decoded_shard_plain.
Qed.

(** What is read back is never a package with a launcher or bundled dependencies. *)
Lemma read_record_plain w config name record package :
  read_shard_record w config name = Some record -> cr_package record = Some package -> plain_package package.
Proof.
  unfold read_shard_record. destruct (read_shard w _) as [shard|] eqn:Hs; [|done]. cbn. apply read_shard_plain in Hs.
  destruct (sh_packages shard !! name) as [entry|] eqn:He; [|done]. cbn. apply Hs in He. unfold plain_entry in He.
  destruct (ce_package entry) as [p|]; [intros [= <-] [= <-]; done|]. destruct (ce_headers entry); by intros [= <-].
Qed.

Lemma write_file_content path data w r w' : write_file path data w = (r, w') ->
  others_same path w w' /\ (r = Ok tt -> content w' path = Ok data \/ exists e, content w' path = Err e).
Proof.
  unfold write_file, content, others_same. destruct (fs_write _ _ _) as [r1 disk] eqn:Hw. intros [= <- <-].
  unfold content. rewrite (cw_written _ _ _ _ _ Hw). revert Hw. unfold fs_write. destruct (write_fault _ _); intros [= <- <-]; [done|].
  split; [|intros _; unfold fs_read; cbn; rewrite lookup_insert_eq; destruct (read_fault _ _); eauto].
  intros q Hq. unfold fs_read. cbn. by rewrite lookup_insert_ne.
Qed.

(** After an attempt to write the file of a shard: its bytes are the new ones or
    the old ones, or it cannot be read. *)
Lemma write_atomic_content config name bytes w r w' : write_atomic (metadata_shard_path config name) bytes w = (r, w') ->
  maybe_written (metadata_shard_path config name) bytes w w'.
Proof.
  pose proof (tmp_path_ne w config name) as Htmp. unfold write_atomic, maybe_written.
  set (path := metadata_shard_path config name) in *. set (tmp := tmp_path_of w path) in *.
  destruct (write_file tmp bytes w) as [r1 w1] eqn:Hw. apply write_file_content in Hw as [Ho1 Hok1].
  destruct r1 as [[]|e1]; [specialize (Hok1 eq_refl)|intros [= _ <-]; right; left; by apply Ho1].
  destruct (fs_rename tmp path w1) as [r2 w2] eqn:Hr2. apply rename_content in Hr2.
  destruct r2 as [[]|e2]; [intros [= _ <-]; rewrite (proj1 Hr2); naive_solver|].
  destruct (is_file (view w2) path).
  - destruct (fs_remove_file path w2) as [r3 w3] eqn:Hr3. pose proof (cw_removed _ _ _ _ Hr3) as Hgone.
    apply remove_file_content in Hr3. destruct (fs_rename tmp path w3) as [r4 w4] eqn:Hr4. apply rename_content in Hr4.
    destruct r4 as [[]|e4].
    + intros [= _ <-]. rewrite (proj1 Hr4), (Hr3 tmp Htmp), (Hr2 tmp). naive_solver.
    + destruct (fs_remove_file tmp w4) as [r5 w5] eqn:Hr5. apply remove_file_content in Hr5. intros [= _ <-].
      rewrite (Hr5 path), (Hr4 path) by done. rewrite (Hr2 path), (Ho1 path) in Hgone by done. naive_solver.
  - destruct (fs_remove_file tmp w2) as [r3 w3] eqn:Hr3. apply remove_file_content in Hr3. intros [= _ <-].
    right. left. by rewrite (Hr3 path), (Hr2 path), (Ho1 path).
Qed.

(** The shard that is written, which changes only with the clock. *)
Definition shard_at (time : N) (w : W) (path name : string) (update : CachedPackageEntry -> CachedPackageEntry) : MetadataShard :=
  let shard := default default_shard (read_shard w path) in
  let entry := update (default empty_entry (sh_packages shard !! name)) in
  {| sh_version := sh_version shard;
     sh_packages := <[name := {| ce_package := ce_package entry; ce_headers := ce_headers entry; ce_updated_at_unix_secs := time |}]>
                      (sh_packages shard) |}.

Lemma read_shard_content w w' path : content w' path = content w path -> read_shard w' path = read_shard w path.
Proof. unfold read_shard. by intros ->. Qed.

(** Updating a record never fails, and leaves the file as it was, unreadable or with
    the changed shard in it. *)
Lemma record_update_content config name update w r w' :
  write_record_update config name update w = (r, w') ->
  let path := metadata_shard_path config name in
  r = Ok tt /\ (content w' path = content w path \/ (exists e, content w' path = Err e) \/
    exists time bytes, bincode (shard_at time w path name update) = Ok bytes /\ content w' path = Ok bytes).
Proof.
  cbn zeta. unfold write_record_update. set (path := metadata_shard_path config name). intros [(e & Hc & _)|(created & w1 & Hc & Hr)]%eff_bind_inv.
  { exfalso. revert Hc. destruct (parent path); [|done]. unfold io_try. by destruct (fs_create_dir_all _ _). }
  assert (Hsame : content w1 path = content w path).
  { destruct (parent path) as [p|]; [|by injection Hc as _ <-]. unfold io_try in Hc.
    destruct (fs_create_dir_all p w) as [rc wc] eqn:E. injection Hc as _ <-. by apply create_dir_all_content in E. }
  destruct created; cbn [negb] in Hr; [|injection Hr as <- <-; by auto].
  apply eff_bind_inv in Hr as [(? & [=] & _)|(wx & wy & [= <- <-] & Hr)].
  destruct (bincode (updated_shard w1 path name update)) as [bytes|e] eqn:Hb; [|injection Hr as <- <-; by auto].
  unfold io_ignore in Hr. destruct (write_atomic path bytes w1) as [rw w2] eqn:Hw. injection Hr as <- <-. split; [done|].
  apply write_atomic_content in Hw as [Hw|[Hw|Hw]]; [|left; exact (eq_trans Hw Hsame)|by auto].
  right. right. exists (default 0%N (unix_secs (cw_now w1))), bytes. split; [|done].
  rewrite <-Hb. unfold shard_at, updated_shard. by rewrite (read_shard_content _ _ _ Hsame).
Qed.

(** Writing works: directories can be made, files written, read and renamed. *)
Record healthy : Prop := {
  ok_create p w : (fs_create_dir_all p w).1 = Ok tt;
  ok_write p w : write_fault (world_disk w) p = None;
  ok_read p w : read_fault (world_disk w) p = None;
  ok_rename p q w bytes : content w p = Ok bytes -> (fs_rename p q w).1 = Ok tt;
  ok_encode shard : is_Some (result_ok (bincode shard));
}.

Lemma healthy_write config name bytes w : healthy ->
  exists w', write_atomic (metadata_shard_path config name) bytes w = (Ok tt, w') /\ content w' (metadata_shard_path config name) = Ok bytes.
Proof.
  intros Hh. unfold write_atomic. set (path := metadata_shard_path config name). set (tmp := tmp_path_of w path).
  destruct (write_file tmp bytes w) as [r1 w1] eqn:Hw. pose proof Hw as Hw'. apply write_file_content in Hw' as [_ Hok].
  assert (r1 = Ok tt) as ->. { unfold write_file, fs_write in Hw. rewrite (ok_write Hh) in Hw. by injection Hw as <- _. }
  assert (Hc : content w1 tmp = Ok bytes).
  { destruct (Hok eq_refl) as [?|[e He]]; [done|]. exfalso. revert He. unfold content, fs_read. rewrite (ok_read Hh).
      revert Hw. unfold write_file. destruct (fs_write _ _ _) as [r2 disk] eqn:Hd. intros [= -> <-]. rewrite (cw_written _ _ _ _ _ Hd).
      revert Hd. unfold fs_write. rewrite (ok_write Hh). intros [= <-]. cbn. by rewrite lookup_insert_eq. }
  pose proof (ok_rename Hh tmp path w1 bytes Hc) as Hren. destruct (fs_rename tmp path w1) as [r2 w2] eqn:Hr2. cbn in Hren. subst r2.
  exists w2. split; [done|]. apply rename_content in Hr2 as [Hq _]. exact (eq_trans Hq Hc).
Qed.

Lemma healthy_update config name update w r w' : healthy -> write_record_update config name update w = (r, w') ->
  exists time bytes, bincode (shard_at time w (metadata_shard_path config name) name update) = Ok bytes /\
    content w' (metadata_shard_path config name) = Ok bytes.
Proof.
  intros Hh. unfold write_record_update. set (path := metadata_shard_path config name).
  assert (Hcreate : forall p, exists w1, io_try (fs_create_dir_all p) w = (Ok true, w1) /\ files_same w w1).
  { intros p. unfold io_try. pose proof (ok_create Hh p w) as Hok. destruct (fs_create_dir_all p w) as [rc wc] eqn:E. cbn in Hok. subst rc.
    exists wc. split; [done|]. by eapply create_dir_all_content. }
  assert (Hmade : exists w1, (match parent path with Some p => io_try (fs_create_dir_all p) | None => mret true end) w = (Ok true, w1) /\ files_same w w1).
  { destruct (parent path) as [p|]; [apply Hcreate|by exists w]. }
  destruct Hmade as (w1 & Hm & Hsame). unfold mbind at 1, eff_bind at 1. rewrite Hm. cbn [negb].
  unfold world, mbind, eff_bind. destruct (ok_encode Hh (updated_shard w1 path name update)) as [bytes Hb].
  destruct (bincode (updated_shard w1 path name update)) as [bytes'|e] eqn:Henc; [|done].
  unfold io_ignore. destruct (healthy_write config name bytes' w1 Hh) as (w2 & Hw2 & Hc). unfold path. rewrite Hw2. intros [= _ <-].
  exists (default 0%N (unix_secs (cw_now w1))), bytes'. split; [|done]. rewrite <-Henc. unfold shard_at, updated_shard.
  by rewrite (read_shard_content w w1 _ (Hsame _)).
Qed.

(** What the file of a shard says, and the record of a package in it. *)
Definition record_of (path : string) (entry : CachedPackageEntry) : option CachedPackageRecord :=
  match ce_package entry, ce_headers entry with
  | None, None => None
  | package, headers => Some {| cr_package := package; cr_headers := headers;
                                cr_updated_at_unix_secs := ce_updated_at_unix_secs entry; cr_cache_path := path |}
  end.
Lemma read_record_lookup w config n :
  read_shard_record w config n =
    sh_packages (default default_shard (read_shard w (metadata_shard_path config n))) !! n ≫= record_of (metadata_shard_path config n).
Proof. unfold read_shard_record. by destruct (read_shard w _) as [shard|]. Qed.

Lemma shard_at_version time w path name update : sh_version (shard_at time w path name update) = PACKUMENT_CACHE_VERSION.
Proof.
  unfold shard_at. cbn. unfold read_shard. destruct (content w path) as [bytes|]; [|done]. cbn. destruct (unbincode bytes) as [s|]; [|done]. cbn.
  by destruct (N.eqb_spec (sh_version s) PACKUMENT_CACHE_VERSION).
Qed.
Lemma shard_at_plain time w path name update :
  plain_shard (shard_at time w path name update) <->
  plain_entry (update (default empty_entry (sh_packages (default default_shard (read_shard w path)) !! name))).
Proof.
  unfold plain_shard, shard_at. cbn. set (before := default default_shard (read_shard w path)). split.
  - intros Hall. specialize (Hall name). rewrite lookup_insert_eq in Hall. exact (Hall _ eq_refl).
  - intros Hnew. apply map_Forall_insert_2; [exact Hnew|]. unfold before. destruct (read_shard w path) as [s|] eqn:Hs; [|apply map_Forall_empty].
    by apply read_shard_plain in Hs.
Qed.

Lemma read_saved time w w' path name update bytes :
  bincode (shard_at time w path name update) = Ok bytes -> content w' path = Ok bytes ->
  read_shard w' path = if decide (plain_entry (update (default empty_entry (sh_packages (default default_shard (read_shard w path)) !! name))))
                       then Some (shard_at time w path name update) else None.
Proof.
  intros Hb Hc. unfold read_shard at 1. rewrite Hc. cbn. case_decide as Hp.
  - apply (shard_at_plain time) in Hp. pose proof (shard_at_version time w path name update) as Hv.
    rewrite (plain_shard_back _ _ Hp Hb). unfold mbind, option_bind, result_ok. by rewrite Hv, N.eqb_refl.
  - destruct (unbincode bytes) as [s|] eqn:Hu; [|done]. exfalso. apply Hp, (shard_at_plain time).
    rewrite <-(decoded_shard_same _ _ _ Hb Hu). by eapply decoded_shard_plain.
Qed.

Lemma saved_reads config name package headers w r w' :
  healthy -> save_metadata_with_headers config name package headers w = (r, w') ->
  let path := metadata_shard_path config name in
  let old_headers := sh_packages (default default_shard (read_shard w path)) !! name ≫= ce_headers in
  r = Ok tt /\
  (plain_package package ->
     load_metadata_with_offline w' config name Offline =
       (if bool_decide (is_Some (c_min_package_age_days config)) && bool_decide (rp_time package = ∅) then None else Some package) /\
     load_cached_headers w' config name = (match headers with Some headers => Some headers | None => old_headers end) /\
     forall n, n <> name -> metadata_shard_path config n = path -> read_shard_record w' config n = read_shard_record w config n) /\
  (~ plain_package package -> forall n, metadata_shard_path config n = path -> read_shard_record w' config n = None).
Proof.
  cbn zeta. intros Hh Hs. split; [by apply record_update_content in Hs as [-> _]|].
  apply healthy_update in Hs as (time & bytes & Hb & Hc); [|done]. pose proof (read_saved _ _ _ _ _ _ _ Hb Hc) as Hread.
  clear Hb Hc. split.
  - intros Hp. rewrite decide_True in Hread by exact Hp.
    assert (Hrec : read_shard_record w' config name = Some {| cr_package := Some package;
      cr_headers := (match headers with Some headers => Some headers | None => sh_packages (default default_shard (read_shard w (metadata_shard_path config name))) !! name ≫= ce_headers end);
      cr_updated_at_unix_secs := time; cr_cache_path := metadata_shard_path config name |}).
    { rewrite read_record_lookup, Hread. cbn. rewrite lookup_insert_eq. cbn.
      by destruct headers, (sh_packages (default default_shard (read_shard w (metadata_shard_path config name))) !! name). }
    split_and!.
    + unfold load_metadata_with_offline, read_cached_package_record. rewrite Hrec. cbn. rewrite orb_true_r.
      destruct (c_min_package_age_days config); [|by rewrite bool_decide_eq_false_2 by (by intros [? [=]])].
      rewrite (bool_decide_eq_true_2 (is_Some _)) by done. by destruct (bool_decide (rp_time package = ∅)).
    + unfold load_cached_headers, read_cached_package_record. by rewrite Hrec.
    + intros n Hn Hpath. rewrite !read_record_lookup, Hpath, Hread. cbn. by rewrite lookup_insert_ne.
  - intros Hp n Hpath. rewrite decide_False in Hread by exact Hp. by rewrite read_record_lookup, Hpath, Hread.
Qed.

(** C28: Keeping a packument.  Saving never fails.  Where writing works, the packument
    and the headers are read back (the old headers, if there are no new ones), the
    other packages of the file are as before, and offline the packument is found
    unless the age policy needs the times it does not have - if no version has a
    launcher or bundled dependencies; if one has, nothing can be read from the
    file any more, for this or any other package in it. *)
Theorem saved_metadata_spec config name package headers w r w' :
  healthy -> save_metadata_with_headers config name package headers w = (r, w') ->
  let path := metadata_shard_path config name in
  let old_headers := sh_packages (default default_shard (read_shard w path)) !! name ≫= ce_headers in
  r = Ok tt /\
  (plain_package package ->
     load_metadata_with_offline w' config name Offline =
       (if bool_decide (is_Some (c_min_package_age_days config)) && bool_decide (rp_time package = ∅) then None else Some package) /\
     load_cached_headers w' config name = (match headers with Some headers => Some headers | None => old_headers end) /\
     forall n, n <> name -> metadata_shard_path config n = path -> read_shard_record w' config n = read_shard_record w config n) /\
  (~ plain_package package -> forall n, metadata_shard_path config n = path -> read_shard_record w' config n = None).
Proof. apply saved_reads. Qed.
End correct.

(** ** A disk and an encoding *)
Module CacheDemo.
#[local] Existing Instance StoreWorldDemo.disk_fs.
#[local] Existing Instance StoreWorldDemo.disk_store.
#[local] Existing Instance StoreWorldDemo.disk_laws.

(** What a plain shard consists of. *)
Definition VersionFields : Type :=
  string * gmap string string * gmap string string * gmap string string * gmap string bool * (string * option string) *
  (list string * list string * list string).
Definition PackageFields : Type := gmap string VersionFields * gmap string string * gmap string string.
Definition EntryFields : Type := option PackageFields * option (option string * option string) * N.
Definition ShardFields : Type := N * gmap string EntryFields.

Definition version_fields (v : RegistryVersion) : VersionFields :=
  (v_version v, v_dependencies v, v_optional_dependencies v, v_peer_dependencies v, v_peer_dependencies_meta v,
   (dist_tarball (v_dist v), dist_integrity (v_dist v)), (v_os v, v_cpu v, v_libc v)).
Definition version_of (f : VersionFields) : RegistryVersion :=
  let '(version, deps, optional, peer, meta, (tarball, integrity), (os, cpu, libc)) := f in {|
    v_version := version; v_dependencies := deps; v_optional_dependencies := optional; v_peer_dependencies := peer;
    v_peer_dependencies_meta := meta; v_bundled_dependencies := None; v_bundle_dependencies := None;
    v_dist := {| dist_tarball := tarball; dist_integrity := integrity |}; v_os := os; v_cpu := cpu; v_libc := libc; v_bin := None |}.
Definition package_fields (p : RegistryPackage) : PackageFields := (version_fields <$> rp_versions p, rp_time p, rp_dist_tags p).
Definition package_of (f : PackageFields) : RegistryPackage :=
  let '(versions, time, tags) := f in {| rp_versions := version_of <$> versions; rp_time := time; rp_dist_tags := tags |}.
Definition headers_fields (h : CachedHeaders) : option string * option string := (etag h, last_modified h).
Definition headers_of (f : option string * option string) : CachedHeaders := {| etag := f.1; last_modified := f.2 |}.
Definition entry_fields (e : CachedPackageEntry) : EntryFields :=
  (package_fields <$> ce_package e, headers_fields <$> ce_headers e, ce_updated_at_unix_secs e).
Definition entry_of (f : EntryFields) : CachedPackageEntry :=
  let '(package, headers, time) := f in
  {| ce_package := package_of <$> package; ce_headers := headers_of <$> headers; ce_updated_at_unix_secs := time |}.
Definition shard_fields (s : MetadataShard) : ShardFields := (sh_version s, entry_fields <$> sh_packages s).
Definition shard_of (f : ShardFields) : MetadataShard := {| sh_version := f.1; sh_packages := entry_of <$> f.2 |}.

Lemma version_of_fields v : plain_version v -> version_of (version_fields v) = v.
Proof. destruct v as [? ? ? ? ? ? ? [] ? ? ? ?]. by intros (Hb & H1 & H2); cbn in *; subst. Qed.
Lemma fields_back {A B} (f : A -> B) (g : B -> A) (m : gmap string A) : map_Forall (fun _ a => g (f a) = a) m -> g <$> (f <$> m) = m.
Proof.
  intros Hm. rewrite <-map_fmap_compose. transitivity (id <$> m); [|apply map_fmap_id]. apply map_fmap_ext. intros n a. apply Hm.
Qed.
Lemma package_of_fields p : plain_package p -> package_of (package_fields p) = p.
Proof.
  destruct p as [versions time tags]. unfold plain_package, package_fields. cbn. intros Hp. f_equal.
  apply fields_back. intros n v Hv. by apply version_of_fields, (Hp n).
Qed.
Lemma entry_of_fields e : plain_entry e -> entry_of (entry_fields e) = e.
Proof.
  destruct e as [package headers time]. unfold plain_entry, entry_fields. cbn. intros Hp. f_equal.
  - destruct package as [p|]; [|done]. exact (f_equal Some (package_of_fields p Hp)).
  - by destruct headers as [[]|].
Qed.
Lemma shard_of_fields s : plain_shard s -> shard_of (shard_fields s) = s.
Proof.
  destruct s as [version packages]. unfold plain_shard, shard_fields, shard_of. cbn. intros Hp. f_equal.
  apply fields_back. intros n e He. by apply entry_of_fields, (Hp n).
Qed.
Lemma shard_of_plain f : plain_shard (shard_of f).
Proof.
  intros n e. cbn. rewrite lookup_fmap. destruct (f.2 !! n) as [[[[[[versions time] tags]|] headers] updated]|]; intros [= <-]; [|done].
  intros k v. cbn. rewrite lookup_fmap.
  destruct (versions !! k) as [[[[[[[a b] c] d] m] [t i]] [[os cpu] libc]]|]; intros [= <-]. done.
Qed.

(** Values as lists of words: a word for a string, a number, the length of a list. *)
Class Words (A : Type) := {
  words : A -> list string;
  unwords : list string -> option (A * list string);
  unwords_words a rest : unwords (words a ++ rest) = Some (a, rest);
}.

#[local] Hint Mode Words ! : typeclass_instances.

Fixpoint bits (p : positive) : string :=
  match p with xH => ε | xO p => String "0" (bits p) | xI p => String "1" (bits p) end.
Fixpoint bits_back (s : string) : option positive :=
  match s with
  | ε => Some xH
  | String a s => if Ascii.eqb "0" a then xO <$> bits_back s else if Ascii.eqb "1" a then xI <$> bits_back s else None
  end.
Lemma bits_back_bits p : bits_back (bits p) = Some p.
Proof. induction p as [p IH|p IH|]; cbn; by rewrite ?IH. Qed.

#[local] Instance string_words : Words string.
Proof. refine {| words s := [s]; unwords l := match l with s :: l => Some (s, l) | [] => None end |}. done. Defined.
#[local] Instance nat_words : Words nat.
Proof.
  refine {| words n := [bits (Pos.of_succ_nat n)];
            unwords l := match l with s :: l => p ← bits_back s; Some (Nat.pred (Pos.to_nat p), l) | [] => None end |}.
  intros n rest. cbn. rewrite bits_back_bits. cbn. by rewrite SuccNat2Pos.id_succ.
Defined.
#[local] Instance N_words : Words N.
Proof.
  refine {| words n := [bits (N.succ_pos n)]; unwords l := match l with s :: l => p ← bits_back s; Some (Pos.pred_N p, l) | [] => None end |}.
  intros n rest. cbn. rewrite bits_back_bits. cbn. by rewrite N.pos_pred_succ.
Defined.
#[local] Instance pair_words {A B} `{Words A} `{Words B} : Words (A * B).
Proof.
  refine {| words p := words p.1 ++ words p.2; unwords l := '(a, l) ← unwords (A := A) l; '(b, l) ← unwords (A := B) l; Some ((a, b), l) |}.
  intros [a b] rest. cbn. rewrite <-(assoc_L (++)), unwords_words. cbn. by rewrite unwords_words.
Defined.
#[local] Instance option_words {A} `{Words A} : Words (option A).
Proof.
  refine {| words o := match o with Some a => "some" :: words a | None => ["none"] end;
            unwords l := match l with
                         | s :: l => if s == "some" then '(a, l) ← unwords (A := A) l; Some (Some a, l) else Some (None, l)
                         | [] => None
                         end |}.
  intros [a|] rest; cbn; [by rewrite unwords_words|done].
Defined.
#[local] Instance bool_words : Words bool.
Proof.
  refine {| words b := [if b : bool then "true" else "false"]; unwords l := match l with s :: l => Some (s == "true", l) | [] => None end |}.
  by intros [|].
Defined.

Fixpoint take_words {A} `{Words A} (n : nat) (l : list string) : option (list A * list string) :=
  match n with
  | O => Some ([], l)
  | S n => '(a, l) ← unwords (A := A) l; '(rest, l) ← take_words n l; Some (a :: rest, l)
  end.
#[local] Instance list_words {A} `{Words A} : Words (list A).
Proof.
  refine {| words l := words (length l) ++ concat (map words l); unwords l := '(n, l) ← unwords (A := nat) l; take_words n l |}.
  intros l rest. rewrite <-(assoc_L (++)), unwords_words. cbn [mbind option_bind].
  induction l as [|a l IH]; [done|]. cbn [take_words length map concat]. rewrite <-(assoc_L (++)), unwords_words. cbn.
  cbn in IH. by rewrite IH.
Defined.
#[local] Instance map_words {A} `{Words A} : Words (gmap string A).
Proof.
  refine {| words m := words (A := list (string * A)) (map_to_list m); unwords l := '(entries, l) ← unwords (A := list (string * A)) l; Some (list_to_map entries, l) |}.
  intros m rest. rewrite unwords_words. cbn. by rewrite list_to_map_to_list.
Defined.

(** Words as letters, with commas in between. *)
Definition of_letter (a : ascii) : bool * bool * bool * bool := let '(Ascii b0 b1 b2 b3 _ _ _ _) := a in (b0, b1, b2, b3).
Fixpoint unhex (s : string) : string :=
  match s with
  | String x (String y s) =>
      let '(b4, b5, b6, b7) := of_letter x in let '(b0, b1, b2, b3) := of_letter y in String (Ascii b0 b1 b2 b3 b4 b5 b6 b7) (unhex s)
  | _ => ε
  end.
Lemma unhex_hex s : unhex (StoreWorldDemo.hex s) = s.
Proof. induction s as [|a s IH]; [done|]. destruct a. cbn. by rewrite IH. Qed.
Lemma hex_no_comma s : contains_char "," (StoreWorldDemo.hex s) = false.
Proof. induction s as [|a s IH]; [done|]. destruct a as [[] [] [] [] [] [] [] []]; exact IH. Qed.

Definition write_words (l : list string) : string := join "," (map StoreWorldDemo.hex l).
Definition read_words (s : string) : list string := map unhex (split_char "," s).
Lemma read_write_words l : l <> [] -> read_words (write_words l) = l.
Proof.
  intros Hl. unfold read_words, write_words. change "," with (chr ","). rewrite split_char_join.
  - rewrite map_map. rewrite <-(map_id l) at 2. apply map_ext. apply unhex_hex.
  - by destruct l.
  - apply Forall_forall. intros w (s & -> & _)%list_elem_of_fmap. apply hex_no_comma.
Qed.

Definition shard_words : Words ShardFields := _.
Definition write_shard (f : ShardFields) : string := write_words (@words _ shard_words f).
Definition read_shard_fields (data : string) : option ShardFields :=
  match @unwords _ shard_words (read_words data) with Some (f, []) => Some f | _ => None end.
Lemma read_write_shard f : read_shard_fields (write_shard f) = Some f.
Proof.
  unfold read_shard_fields, write_shard. rewrite read_write_words; [|by destruct f].
  rewrite <-(app_nil_r (@words _ shard_words f)). by rewrite unwords_words.
Qed.

#[global] Instance plain_shard_dec shard : Decision (plain_shard shard).
Proof. unfold plain_shard. apply _. Defined.
#[local] Instance encoding : Bincode MetadataShard := {|
  bincode shard := Ok (if decide (plain_shard shard) then write_shard (shard_fields shard) else ε);
  unbincode data := match read_shard_fields data with
                    | Some f => Ok (shard_of f)
                    | None => Err "Bincode does not support the serde::Deserializer::deserialize_any method"
                    end |}.
#[local] Instance encoding_laws : ShardLaws.
Proof.
  split.
  - intros shard data Hp [= <-]. unfold unbincode, encoding. rewrite decide_True by done. by rewrite read_write_shard, shard_of_fields.
  - intros data shard. unfold unbincode, encoding. destruct (read_shard_fields data) as [f|]; [|done]. intros [= <-]. apply shard_of_plain.
  - intros shard data shard' [= <-]. unfold unbincode, encoding. case_decide; [|done]. rewrite read_write_shard.
    intros [= <-]. by apply shard_of_fields.
Qed.

#[local] Instance clock : CacheWorld StoreWorldDemo.StoreDisk := {| cw_now _ := 1700000000000000000%Z |}.
#[local] Instance laws : CacheWorldLaws StoreWorldDemo.StoreDisk.
Proof.
  split; [apply _| |].
  - intros w p data r d. unfold fs_write. cbn. intros [= _ <-]. done.
  - intros p w r w' [= _ <-]. right. unfold content, fs_read. cbn. rewrite lookup_delete_eq. eauto.
Qed.
Lemma all_healthy : healthy.
Proof.
  split; try done. intros p q w bytes. unfold content, fs_read. cbn. unfold StoreWorldDemo.rename.
  by destruct (StoreWorldDemo.files_of w !! p).
Qed.
#[local] Instance legacy : LegacyJson := {| package_from_json _ := Err "expected value"; headers_from_json _ := Err "expected value" |}.

Definition config : SnpmConfig := config_for_tests.
Definition version (bin : option json) : RegistryVersion := {|
  v_version := "1.0.0"; v_dependencies := ∅; v_optional_dependencies := ∅; v_peer_dependencies := ∅;
  v_peer_dependencies_meta := ∅; v_bundled_dependencies := None; v_bundle_dependencies := None;
  v_dist := {| dist_tarball := "https://r/p.tgz"; dist_integrity := None |}; v_os := []; v_cpu := []; v_libc := []; v_bin := bin |}.
Definition package (bin : option json) : RegistryPackage :=
  {| rp_versions := {["1.0.0" := version bin]}; rp_time := ∅; rp_dist_tags := {["latest" := "1.0.0"]} |}.
Definition start : StoreWorldDemo.StoreDisk := {| StoreWorldDemo.sd_disk := disk_with ∅; StoreWorldDemo.sd_dirs := [] |}.
Definition saved (name : string) (bin : option json) (w : StoreWorldDemo.StoreDisk) : StoreWorldDemo.StoreDisk :=
  (save_metadata_with_headers config name (package bin) (Some {| etag := Some "e1"; last_modified := None |}) w).2.
Definition versions_of (w : StoreWorldDemo.StoreDisk) (name : string) : option (list string) :=
  (fun p => btree_keys (rp_versions p)) <$> load_metadata_with_offline w config name PreferOffline.

(** Two packages in one file; the second has a launcher.  What was kept of the first
    is lost, and the second is never found. *)
Example same_shard : metadata_shard_path config "lodash" = metadata_shard_path config "eslint".
Proof. vm_refl. Qed.
Example launcher_loses_shard :
  let w1 := saved "lodash" None start in
  let w2 := saved "eslint" (Some (JString "./bin/eslint.js")) w1 in
  versions_of w1 "lodash" = Some ["1.0.0"] /\ versions_of w2 "lodash" = None /\ versions_of w2 "eslint" = None.
Proof. cbn zeta. split_and!; vm_refl. Qed.
Example both_kept :
  let w := saved "eslint" None (saved "lodash" None start) in versions_of w "lodash" = Some ["1.0.0"] /\ versions_of w "eslint" = Some ["1.0.0"].
Proof. cbn zeta. split; vm_refl. Qed.

Lemma saved_metadata_spec_witness :
  load_metadata_with_offline (saved "lodash" None start) config "lodash" Offline = Some (package None) /\
  read_shard_record (saved "eslint" (Some (JString "./bin/eslint.js")) (saved "lodash" None start)) config "lodash" = None.
Proof.
  split.
  - destruct (saved_metadata_spec config "lodash" (package None) (Some {| etag := Some "e1"; last_modified := None |}) start
      (Ok tt) (saved "lodash" None start) all_healthy eq_refl) as (_ & Hplain & _).
    apply Hplain. apply (bool_decide_unpack _). vm_compute. exact I.
  - destruct (saved_metadata_spec config "eslint" (package (Some (JString "./bin/eslint.js"))) (Some {| etag := Some "e1"; last_modified := None |})
      (saved "lodash" None start) (Ok tt) (saved "eslint" (Some (JString "./bin/eslint.js")) (saved "lodash" None start))
      all_healthy eq_refl) as (_ & _ & Hlost).
    apply Hlost; [|vm_refl]. intros Hp. destruct (Hp "1.0.0" (version (Some (JString "./bin/eslint.js"))) eq_refl) as [Hb _]. discriminate Hb.
Defined.
End CacheDemo.
