(* ===== verification/Protocols.v ===== *)
(** * Where packuments come from ([registry/mod.rs], [protocols/])

    The registries of npm and of jsr, with the cache in front of them; a git
    repository that is cloned and looked at; a directory.  What is sent to a server
    and what git is run with are values; sending and running are the interface
    [RegistryWorld].  Messages are left out. *)
From S2P Require Import Prelude.
From S2P Require Import BTree.
From S2P Require Import Text.
From S2P Require Import Errors.
From S2P Require Import Types.
From S2P Require Import Paths.
From S2P Require Import Crates.
From S2P Require Import Peers.
From S2P Require Import Config.
From S2P Require Import Compat.
From S2P Require Import Discovery.
From S2P Require Import Store.
From S2P Require Import Scripts.
From S2P Require Import Linker.
From S2P Require Import Residency.
From S2P Require Import World.
From S2P Require Import Http.
From S2P Require Import LinkFs.
From S2P Require Import StoreFs.
From S2P Require Import StoreTree.
From S2P Require Import StoreSafe.
From S2P Require Import StoreBlobs.
From S2P Require Import MetadataCache.

(** ** What is not in the repository *)

(** The tables of Unicode, for what is not ASCII. *)
Class CharTables := { char_alphanumeric : string -> bool; text_uppercase : string -> string }.

Record Request := { rq_url : string; rq_headers : list (string * string) }.
(** The status, two headers as text, and the body as JSON. *)
Record Response := {
  rs_status : N;
  rs_etag : option string;
  rs_last_modified : option string;
  rs_json : result HttpError RegistryPackage;
}.

Class HttpCrates := {
  (** [HeaderValue::from_str] *)
  header_value_ok : string -> bool;
  (** the display of a [StatusCode], and of the error of [error_for_status] *)
  status_text : N -> string;
  status_failure : string -> N -> string;
}.

Class RegistryWorld (W : Type) := {
  rw_cache :: CacheWorld W;
  rw_env : W -> string -> option string;
  rw_cwd : W -> result string string;
  registry_send : Request -> W -> result HttpError Response * W;
  (** [git] in a directory with arguments: whether it succeeded, and what it printed *)
  git_output : string -> list string -> W -> result string (bool * string * string) * W;
}.

(** The characters of a text. *)
Definition continues (s : string) : bool := match s with String a _ => is_continuation a | ε => false end.
Fixpoint utf8_chars (s : string) : list string :=
  match s with
  | ε => []
  | String a s =>
      match utf8_chars s with
      | c :: cs => if continues s then String a c :: cs else chr a :: c :: cs
      | [] => [chr a]
      end
  end.

Section text.
Context `{CharTables}.
Definition is_ascii (s : string) : bool := all_chars (fun a => nat_of_ascii a <? 128)%nat s.
Definition is_alphanumeric (c : string) : bool :=
  match c with String a ε => if is_ascii c then is_ascii_alphanumeric a else char_alphanumeric c | _ => char_alphanumeric c end.
Definition to_uppercase (s : string) : string := if is_ascii s then to_ascii_uppercase s else text_uppercase s.
End text.

(** ** [protocols/mod.rs] *)
Definition registry_version_from_manifest (manifest : Manifest) (dist_url : string) : RegistryVersion := {|
  v_version := default "0.0.0" (m_version manifest); v_dependencies := m_dependencies manifest;
  v_optional_dependencies := ∅; v_peer_dependencies := ∅; v_peer_dependencies_meta := ∅;
  v_bundled_dependencies := None; v_bundle_dependencies := None;
  v_dist := {| dist_tarball := dist_url; dist_integrity := None |};
  v_os := []; v_cpu := []; v_libc := []; v_bin := None |}.

(** The one version of a directory. *)
Definition package_of_manifest (manifest : Manifest) (dist_url : string) : RegistryPackage :=
  let version := default "0.0.0" (m_version manifest) in
  {| rp_versions := {[version := registry_version_from_manifest manifest dist_url]}; rp_time := ∅;
     rp_dist_tags := {["latest" := version]} |}.

(** ** [protocols/git/spec.rs] *)
Record GitSpec := { gs_repo : string; gs_committish : option string }.

Definition split_committish (value : string) : string * option string :=
  match rfind_char "#" value with
  | Some index =>
      let committish := trim (sdrop (S index) value) in
      (trim (stake index value), if is_empty committish then None else Some committish)
  | None => (value, None)
  end.

Definition normalize_git_colon (rest : string) : result string string :=
  let cleaned := trim rest in
  if is_empty cleaned then Err "git: URL is missing a repo"
  else if starts_with "//" cleaned then Ok ("git:" +:+ cleaned)
  else if contains "://" cleaned then Ok cleaned
  else if contains_char "@" cleaned then Ok cleaned
  else match split_once ":" cleaned with
  | Some (host, path) =>
      if is_empty host || is_empty path then Err ("git: URL is invalid: " +:+ cleaned)
      else Ok ("ssh://git@" +:+ host +:+ "/" +:+ path)
  | None => Ok ("git://" +:+ cleaned)
  end.

Definition correct_ssh_url (url : string) : string :=
  match strip_prefix "ssh://" url with
  | None => url
  | Some rest =>
      let '(auth_host, path) := match split_once "/" rest with Some parts => parts | None => (rest, ε) end in
      match rfind_char ":" auth_host with
      | None => url
      | Some index =>
          let candidate := trim_start_matches ":" (sdrop index auth_host) in
          if is_empty candidate || all_chars is_ascii_digit candidate then url
          else "ssh://" +:+ stake index auth_host +:+ "/" +:+ candidate +:+ (if is_empty path then ε else "/" +:+ path)
      end
  end.

Definition looks_like_bare_hosted_repo (spec : string) : bool :=
  if is_empty spec || starts_with "@" spec || starts_with "." spec || starts_with "/" spec
     || contains "://" spec || contains_char "\" spec || contains_char " " spec then false
  else match split_char "/" spec with
       | [owner; name] => negb (is_empty owner) && negb (is_empty name)
       | _ => false
       end.

Definition hosted_repo (trimmed : string) : option (string * string) :=
  match strip_prefix "github:" trimmed with Some repo => Some ("github.com", repo) | None =>
  match strip_prefix "gitlab:" trimmed with Some repo => Some ("gitlab.com", repo) | None =>
  match strip_prefix "bitbucket:" trimmed with Some repo => Some ("bitbucket.org", repo) | None =>
  if looks_like_bare_hosted_repo trimmed then Some ("github.com", trimmed) else None end end end.

Definition normalize_hosted_repo (raw : string) : option string :=
  '(host, repo) ← hosted_repo (trim raw);
  let repo := trim_matches "/" (trim repo) in
  if is_empty repo then None else
  let repo := default repo (strip_suffix ".git" repo) in
  Some ("https://" +:+ host +:+ "/" +:+ repo +:+ ".git").

Definition normalize_git_repo (raw : string) : result string string :=
  let repo := trim raw in
  if is_empty repo then Err "git repo URL is empty" else
  let repo := default repo (strip_prefix "git+" repo) in
  repo ← match strip_prefix "git:" repo with Some stripped => normalize_git_colon stripped | None => Ok repo end;
  Ok (match normalize_hosted_repo repo with Some hosted => hosted | None => correct_ssh_url repo end).

Definition parse_git_spec (raw : string) : Result GitSpec :=
  let trimmed := trim raw in
  if is_empty trimmed then Err (ResolutionFailed raw "latest" "git spec is empty") else
  let '(repo_part, committish) := split_committish trimmed in
  repo ← map_err (ResolutionFailed raw "latest") (normalize_git_repo repo_part);
  Ok {| gs_repo := repo; gs_committish := committish |}.

(** ** [protocols/git/repo.rs] *)
Definition GIT_TRANSPORT_HARDENING : list string := ["-c"; "protocol.ext.allow=never"; "-c"; "protocol.fd.allow=never"].

Section protocols.
Context `{CharTables} `{HttpCrates} `{ConfigFiles} `{Bincode MetadataShard} `{LegacyJson} `{RegistryWorld W}.

Definition safe_repo_name (url : string) : string :=
  String.concat ε (map (fun c => if is_alphanumeric c then c else "_") (utf8_chars url)).
Definition repo_cache_dir (config : SnpmConfig) (url : string) : string :=
  path_push (path_push (c_cache_dir config) "git") (safe_repo_name url).

Definition reject_option_like (value raw : string) : Result unit :=
  if starts_with "-" value then Err (ResolutionFailed raw value "git repository/committish must not start with '-'") else Ok tt.

Definition ensure_cache_dir (cache_dir : string) : Eff W unit :=
  w ← world;
  if path_exists (view w) cache_dir then mret tt else io_error (Io cache_dir) (fs_create_dir_all cache_dir).

Definition run_git_command (dir raw range : string) (args : list string) (action : string) : Eff W unit :=
  output ← eff_of (git_output dir (GIT_TRANSPORT_HARDENING ++ args));
  '(success, _, stderr) ← lift (map_err (fun error => ResolutionFailed raw range ("Failed to run git " +:+ action +:+ ": " +:+ error)) output);
  if success : bool then mret tt
  else lift (Err (ResolutionFailed raw range ("git " +:+ action +:+ " failed: " +:+ trim stderr))).

(** [run_git_command(..).await.is_ok()] for a revision, if there is one. *)
Definition tried (m : option (Eff W unit)) : Eff W bool :=
  match m with Some m => outcome ← attempt m; mret (is_ok outcome) | None => mret false end.

Definition fetch_repo (repo_dir : string) (committish : option string) (raw : string) : Eff W unit :=
  fetched ← tried ((fun revision => run_git_command repo_dir raw revision ["fetch"; "--depth"; "1"; "origin"; revision] "fetch") <$> committish);
  if fetched : bool then mret tt
  else run_git_command repo_dir raw "latest" ["fetch"; "--all"; "--tags"; "--prune"] "fetch".

Definition clone_repo (cache_dir repo : string) (committish : option string) (raw : string) : Eff W unit :=
  cloned ← tried ((fun revision =>
    run_git_command cache_dir raw revision ["clone"; "--depth"; "1"; "--branch"; revision; "--"; repo; "repo"] "clone") <$> committish);
  if cloned : bool then mret tt
  else run_git_command cache_dir raw "latest" ["clone"; "--"; repo; "repo"] "clone".

Definition default_remote_head (repo_dir : string) : Eff W (option string) :=
  output ← eff_of (git_output repo_dir ["symbolic-ref"; "--quiet"; "--short"; "refs/remotes/origin/HEAD"]);
  mret (match output with
        | Ok (true, stdout, _) => let head := trim stdout in if is_empty head then None else Some head
        | _ => None
        end).

Definition checkout_repo (repo_dir : string) (committish : option string) (raw : string) : Eff W unit :=
  target ← (match committish with
            | Some revision => mret revision
            | None => head ← default_remote_head repo_dir; mret (default "HEAD" head)
            end);
  run_git_command repo_dir raw target ["checkout"; "--force"; target] "checkout".

Definition prepare_repo (cache_dir : string) (spec : GitSpec) (raw : string) : Eff W string :=
  _ ← lift (reject_option_like (gs_repo spec) raw);
  _ ← lift (match gs_committish spec with Some committish => reject_option_like committish raw | None => Ok tt end);
  _ ← ensure_cache_dir cache_dir;
  let repo_dir := path_push cache_dir "repo" in
  w ← world;
  _ ← (if path_exists (view w) repo_dir then fetch_repo repo_dir (gs_committish spec) raw
       else clone_repo cache_dir (gs_repo spec) (gs_committish spec) raw);
  _ ← checkout_repo repo_dir (gs_committish spec) raw;
  mret repo_dir.

(** [git/manifest.rs], [git/mod.rs] *)
Definition load_registry_package (fs : FileSystem) (repo_dir url : string) : Result RegistryPackage :=
  let manifest_path := path_push repo_dir "package.json" in
  if negb (path_exists fs manifest_path) then Err (ResolutionFailed url "latest" "package.json not found in git repo") else
  data ← map_err (ReadFile manifest_path) (read_to_string fs manifest_path);
  manifest ← map_err (ParseJson manifest_path) (parse_manifest data);
  Ok (package_of_manifest manifest ("file://" +:+ repo_dir)).

Definition git_fetch_package (config : SnpmConfig) (url : string) : Eff W RegistryPackage :=
  git_spec ← lift (parse_git_spec url);
  repo_dir ← prepare_repo (repo_cache_dir config url) git_spec url;
  w ← world;
  lift (load_registry_package (view w) repo_dir url).

(** ** [protocols/file.rs] *)
Definition file_fetch_package (w : W) (path_str : string) : Result RegistryPackage :=
  cwd ← map_err (Io ".") (rw_cwd w);
  let abs_path := if is_absolute path_str then path_str else path_push cwd path_str in
  let fs := view w in
  if negb (path_exists fs abs_path) then Err (ResolutionFailed path_str "latest" ("File path does not exist: " +:+ abs_path))
  else if is_dir fs abs_path then
    let manifest_path := path_push abs_path "package.json" in
    data ← map_err (ReadFile manifest_path) (read_to_string fs manifest_path);
    manifest ← map_err (ParseJson manifest_path) (parse_manifest data);
    Ok (package_of_manifest manifest ("file://" +:+ abs_path))
  else Err (ResolutionFailed path_str "latest" "Single file dependencies are not yet fully supported (expected directory)").

(** ** [protocols/npm/] *)
Definition npm_registry_for_package (config : SnpmConfig) (name : string) : string :=
  match split_once "/" name with
  | Some (scope, _) =>
      if starts_with "@" scope then default (c_default_registry config) (c_scoped_registries config !! scope) else c_default_registry config
  | None => c_default_registry config
  end.

(** A variable that is not empty, without the slashes at its end. *)
Definition registry_of_variable (w : W) (key : string) : option string :=
  value ← rw_env w key;
  let trimmed := trim value in
  if is_empty trimmed then None else Some (trim_end_matches "/" trimmed).

Definition npm_like_registry_for_package (w : W) (config : SnpmConfig) (protocol_name name : string) : string :=
  if protocol_name == "npm" then npm_registry_for_package config name
  else default (c_default_registry config) (registry_of_variable w ("SNPM_REGISTRY_" +:+ to_uppercase protocol_name)).

Definition registry_url (w : W) (config : SnpmConfig) (protocol_name name : string) : string :=
  trim_end_matches "/" (npm_like_registry_for_package w config protocol_name name) +:+ "/" +:+ encode_package_name name.

(** The abbreviated form has no times. *)
Definition accept_header (config : SnpmConfig) : string :=
  match c_min_package_age_days config with
  | Some _ => "application/json; q=1.0, */*"
  | None => "application/vnd.npm.install-v1+json; q=1.0, application/json; q=0.8, */*"
  end.
Definition plain_request (config : SnpmConfig) (url : string) : list (string * string) :=
  ("accept", accept_header config)
  :: option_list ((fun value => ("authorization", value)) <$> authorization_header_for_url config url).

Definition conditional (key : string) (value : option string) : list (string * string) :=
  match value with Some value => if header_value_ok value then [(key, value)] else [] | None => [] end.
Definition build_request (w : W) (config : SnpmConfig) (name url : string) : Request := {|
  rq_url := url;
  rq_headers := plain_request config url ++
    match load_cached_headers w config name with
    | Some headers => conditional "if-none-match" (etag headers) ++ conditional "if-modified-since" (last_modified headers)
    | None => []
    end |}.

(** [fetch/response.rs] *)
Definition registry_status_error (name url : string) (status : N) : SnpmError :=
  if (status =? 404)%N then Errors.Registry ("package '" +:+ name +:+ "' was not found in the registry (404). Check the name for typos, or configure the right registry for its scope.")
  else if (status =? 401)%N then Auth ("the registry rejected the request for '" +:+ name +:+ "' as unauthenticated (401). Run `snpm login`, or set a valid token (NODE_AUTH_TOKEN / .npmrc _authToken).")
  else if (status =? 403)%N then Auth ("access to '" +:+ name +:+ "' is forbidden (403). Your token may lack permission for this package or scope.")
  else if (status =? 429)%N then Errors.Registry ("the registry is rate-limiting requests for '" +:+ name +:+ "' (429). Retry shortly.")
  else Errors.Registry ("registry returned " +:+ status_text status +:+ " for '" +:+ name +:+ "' (" +:+ url +:+ ")").

Definition is_success (status : N) : bool := ((200 <=? status) && (status <? 300))%N.
Definition no_cached_metadata (name url : string) : SnpmError :=
  Internal ("registry returned 304 Not Modified for " +:+ name +:+ " (" +:+ url +:+ ") but no cached metadata is available — delete the local metadata cache or re-run with a fresh registry to recover").

Definition handle_registry_response (config : SnpmConfig) (name url : string) (response : Response) : Eff W RegistryPackage :=
  if (rs_status response =? 304)%N then
    w ← world;
    match load_metadata_with_offline w config name Offline with
    | Some cached => _ ← attempt (save_metadata config name cached); mret cached
    | None => lift (Err (no_cached_metadata name url))
    end
  else if negb (is_success (rs_status response)) then lift (Err (registry_status_error name url (rs_status response)))
  else
    package ← lift (map_err (Errors.Http url ∘ he_message) (rs_json response));
    let response_headers := match rs_etag response, rs_last_modified response with
                            | None, None => None
                            | e, m => Some {| etag := e; last_modified := m |}
                            end in
    _ ← attempt (save_metadata_with_headers config name package response_headers);
    mret package.

(** [fetch/mod.rs]: the request is built again for each attempt. *)
Definition send_request (config : SnpmConfig) (name url : string) : W -> result HttpError Response * W :=
  fun w => registry_send (build_request w config name url) w.

Definition fetch_npm_package (config : SnpmConfig) (name protocol_name : string) (offline_mode : OfflineMode) : Eff W RegistryPackage :=
  w ← world;
  match load_metadata_with_offline w config name offline_mode with
  | Some cached => mret cached
  | None =>
      if bool_decide (offline_mode = Offline) then lift (Err (OfflineRequired ("package metadata for " +:+ name))) else
      let url := registry_url w config protocol_name name in
      response ← eff_of (with_retry subsec_nanos http_sleep (send_request config name url) policy_metadata);
      response ← lift (map_err (Errors.Http url ∘ he_message) response);
      handle_registry_response config name url response
  end.

(** ** [protocols/jsr.rs] *)
Definition jsr_compat_name (name : string) : string :=
  if starts_with "@jsr/" name then name else
  match strip_prefix "@" name with
  | Some stripped =>
      match split_once "/" stripped with
      | Some (scope, pkg) => "@jsr/" +:+ scope +:+ "__" +:+ pkg
      | None => "@jsr/" +:+ stripped
      end
  | None =>
      match split_once "/" name with
      | Some (scope, pkg) => "@jsr/" +:+ scope +:+ "__" +:+ pkg
      | None => "@jsr/" +:+ name
      end
  end.
Definition jsr_registry_base (w : W) : string := default "https://npm.jsr.io" (registry_of_variable w "SNPM_REGISTRY_JSR").

Definition fetch_jsr_package (config : SnpmConfig) (name : string) (offline_mode : OfflineMode) : Eff W RegistryPackage :=
  let compat := jsr_compat_name name in
  w ← world;
  match load_metadata_with_offline w config compat offline_mode with
  | Some cached => mret cached
  | None =>
      if bool_decide (offline_mode = Offline) then lift (Err (OfflineRequired ("jsr package metadata for " +:+ name))) else
      let url := trim_end_matches "/" (jsr_registry_base w) +:+ "/" +:+ encode_package_name compat in
      response ← eff_of (registry_send {| rq_url := url; rq_headers := plain_request config url |});
      response ← lift (map_err (Errors.Http url ∘ he_message) response);
      _ ← lift (if ((400 <=? rs_status response) && (rs_status response <? 600))%N
                then Err (Errors.Http url (status_failure url (rs_status response))) else Ok tt);
      package ← lift (map_err (Errors.Http url ∘ he_message) (rs_json response));
      _ ← attempt (save_metadata config compat package);
      mret package
  end.

(** ** [registry/mod.rs] *)
Definition fetch_package_with_offline (config : SnpmConfig) (name : string) (protocol : RegistryProtocol) (offline_mode : OfflineMode)
  : Eff W RegistryPackage :=
  if protocol_name protocol == "jsr" then fetch_jsr_package config name offline_mode
  else if protocol_name protocol == "file" then (w ← world; lift (file_fetch_package w name))
  else if protocol_name protocol == "git" then git_fetch_package config name
  else fetch_npm_package config name (protocol_name protocol) offline_mode.
Definition fetch_package (config : SnpmConfig) (name : string) (protocol : RegistryProtocol) : Eff W RegistryPackage :=
  fetch_package_with_offline config name protocol Online.
End protocols.

(** ** What fetching does to the outside *)
Section frame.
Context `{CharTables} `{HttpCrates} `{ConfigFiles} `{Bincode MetadataShard} `{LegacyJson} `{RegistryWorld W}
  (config : SnpmConfig) (R : relation W) `{!PreOrder R}.

(** Credentials only where the configuration wants them. *)
Definition allowed_request (request : Request) : Prop :=
  forall value, ("authorization", value) ∈ rq_headers request -> authorization_header_for_url config (rq_url request) = Some value.

Definition not_option (value : string) : Prop := starts_with "-" value = false.
(** The command lines git is run with; [target] is a committish that is not an
    option, what git printed, or [HEAD]. *)
Inductive git_arguments : list string -> Prop :=
| git_head : git_arguments ["symbolic-ref"; "--quiet"; "--short"; "refs/remotes/origin/HEAD"]
| git_fetch revision : not_option revision ->
    git_arguments (GIT_TRANSPORT_HARDENING ++ ["fetch"; "--depth"; "1"; "origin"; revision])
| git_fetch_all : git_arguments (GIT_TRANSPORT_HARDENING ++ ["fetch"; "--all"; "--tags"; "--prune"])
| git_clone_revision revision repo : not_option revision -> not_option repo ->
    git_arguments (GIT_TRANSPORT_HARDENING ++ ["clone"; "--depth"; "1"; "--branch"; revision; "--"; repo; "repo"])
| git_clone repo : not_option repo -> git_arguments (GIT_TRANSPORT_HARDENING ++ ["clone"; "--"; repo; "repo"])
| git_checkout target : not_option target \/ printed_by_git target ->
    git_arguments (GIT_TRANSPORT_HARDENING ++ ["checkout"; "--force"; target])
with printed_by_git : string -> Prop :=
| printed dir w stdout stderr w' :
    git_output dir ["symbolic-ref"; "--quiet"; "--short"; "refs/remotes/origin/HEAD"] w = (Ok (true, stdout, stderr), w') ->
    printed_by_git (trim stdout).

Definition cache_file (p : string) : Prop :=
  exists n, p = metadata_shard_path config n \/ exists w, p = tmp_path_of (W := W) w (metadata_shard_path config n).
Definition cache_directory (p : string) : Prop :=
  (exists n, parent (metadata_shard_path config n) = Some p) \/ exists url, p = repo_cache_dir config url.

Record fetch_frame : Prop := {
  ff_send request : allowed_request request -> forall w r w', registry_send request w = (r, w') -> R w w';
  ff_sleep d w : R w (http_sleep d w);
  ff_git dir args : git_arguments args -> forall w r w', git_output dir args w = (r, w') -> R w w';
  ff_create p : cache_directory p -> op_keeps R (fs_create_dir_all p);
  ff_write p data : cache_file p -> op_keeps R (write_file p data);
  ff_rename p q : cache_file p -> cache_file q -> op_keeps R (fs_rename p q);
  ff_remove p : cache_file p -> op_keeps R (fs_remove_file p);
}.
Context (HR : fetch_frame).

Lemma keeps_write_atomic n bytes : op_keeps R (write_atomic (metadata_shard_path config n) bytes).
Proof.
  assert (Hp : cache_file (metadata_shard_path config n)) by (exists n; by left).
  intros w r w'. unfold write_atomic. assert (Ht : cache_file (tmp_path_of w (metadata_shard_path config n))) by (exists n; right; by exists w).
  set (path := metadata_shard_path config n) in *. set (tmp := tmp_path_of w path) in *. clearbody path tmp.
  destruct (write_file tmp bytes w) as [[] w1] eqn:E1; apply (ff_write HR) in E1; [|done|by intros [= _ <-]|done].
  destruct (fs_rename tmp path w1) as [[] w2] eqn:E2; apply (ff_rename HR) in E2; try done; [intros [= _ <-]; by transitivity w1|].
  destruct (is_file _ _).
  - destruct (fs_remove_file path w2) as [r3 w3] eqn:E3. apply (ff_remove HR) in E3; [|done].
    destruct (fs_rename tmp path w3) as [[] w4] eqn:E4; apply (ff_rename HR) in E4; try done.
    + intros [= _ <-]. transitivity w1; [done|]. transitivity w2; [done|]. by transitivity w3.
    + destruct (fs_remove_file tmp w4) as [r5 w5] eqn:E5. apply (ff_remove HR) in E5; [|done]. intros [= _ <-].
      transitivity w1; [done|]. transitivity w2; [done|]. transitivity w3; [done|]. by transitivity w4.
  - destruct (fs_remove_file tmp w2) as [r3 w3] eqn:E3. apply (ff_remove HR) in E3; [|done]. intros [= _ <-].
    transitivity w1; [done|]. by transitivity w2.
Qed.

Lemma keeps_record_update n update : keeps R (write_record_update config n update).
Proof.
  unfold write_record_update. apply keeps_bind; [done| |].
  - destruct (parent _) as [p|] eqn:Hp; [|by apply keeps_ret]. apply keeps_io_try, (ff_create HR). left. by exists n.
  - intros [|]; [|by apply keeps_ret]. apply keeps_world_bind. intros w. case_match; [|by apply keeps_ret].
    apply keeps_io_ignore, keeps_write_atomic.
Qed.

(** Git *)
Lemma option_like_ok value raw : reject_option_like value raw = Ok tt -> not_option value.
Proof. unfold reject_option_like, not_option. by destruct (starts_with "-" value). Qed.
Lemma keeps_git dir args : git_arguments args -> keeps R (eff_of (git_output dir args)).
Proof. intros Ha w r w'. unfold eff_of. destruct (git_output dir args w) eqn:E. intros [= _ <-]. by eapply (ff_git HR). Qed.
Lemma keeps_run_git dir raw range args action : git_arguments (GIT_TRANSPORT_HARDENING ++ args) -> keeps R (run_git_command dir raw range args action).
Proof.
  intros Ha. unfold run_git_command. apply keeps_bind; [done|by apply keeps_git|]. intros output. apply keeps_bind; [done|by apply keeps_lift|].
  intros [[[|] ?] ?]; [by apply keeps_ret|by apply keeps_lift].
Qed.
Lemma keeps_tried (m : option (Eff W unit)) : (forall m', m = Some m' -> keeps R m') -> keeps R (tried m).
Proof.
  intros Hm. destruct m as [m|]; [|by apply keeps_ret]. cbn. apply keeps_bind; [done|by apply keeps_attempt, Hm|]. intros. by apply keeps_ret.
Qed.

Lemma head_target dir w head w' : default_remote_head dir w = (Ok head, w') ->
  not_option (default "HEAD" head) \/ printed_by_git (default "HEAD" head).
Proof.
  unfold default_remote_head. intros Hr. apply eff_bind_Ok in Hr as (output & w1 & Hg & [= <- _]).
  unfold eff_of in Hg. destruct (git_output _ _ w) as [o wo] eqn:E. injection Hg as <- _.
  destruct o as [[[[|] stdout] stderr]|e]; [|by left..]. destruct (is_empty (trim stdout)); [by left|]. right. by eapply printed.
Qed.
Lemma keeps_head dir : keeps R (default_remote_head dir).
Proof. unfold default_remote_head. apply keeps_bind; [done|apply keeps_git, git_head|]. intros. by apply keeps_ret. Qed.

Lemma keeps_checkout dir committish raw : (forall c, committish = Some c -> not_option c) -> keeps R (checkout_repo dir committish raw).
Proof.
  intros Hc. unfold checkout_repo. destruct committish as [c|].
  { apply (keeps_run_git _ raw c), git_checkout. left. by apply Hc. }
  intros w r w' [(e & Hr & ->)|(target & w1 & Hr & Hr')]%eff_bind_inv.
  - refine (keeps_bind R _ _ (keeps_head dir) _ _ _ _ Hr). intros. by apply keeps_ret.
  - apply eff_bind_Ok in Hr as (head & w2 & Hh & [= <- <-]). transitivity w2; [by eapply keeps_head|].
    eapply keeps_run_git, Hr'. apply git_checkout. by eapply head_target.
Qed.

Lemma keeps_prepare url spec raw : keeps R (prepare_repo (repo_cache_dir config url) spec raw).
Proof.
  unfold prepare_repo. apply keeps_lift_bind; [done|]. intros [] Hrepo%option_like_ok.
  apply keeps_lift_bind; [done|]. intros [] Hcom.
  assert (Hc : forall c, gs_committish spec = Some c -> not_option c).
  { intros c Hsome. rewrite Hsome in Hcom. by eapply option_like_ok. }
  apply keeps_bind; [done| |intros _].
  { unfold ensure_cache_dir. apply keeps_world_bind. intros w. destruct (path_exists _ _); [by apply keeps_ret|].
    apply keeps_io_error, (ff_create HR). right. by exists url. }
  apply keeps_world_bind. intros w. apply keeps_bind; [done| |intros _].
  - destruct (path_exists _ _); unfold fetch_repo, clone_repo; (apply keeps_bind; [done| |intros [|]; [by apply keeps_ret|apply keeps_run_git; by constructor]]);
      apply keeps_tried; intros m'; destruct (gs_committish spec) as [c|]; intros [= <-]; apply keeps_run_git; constructor; auto.
  - apply keeps_bind; [done|by apply keeps_checkout|]. intros _. by apply keeps_ret.
Qed.

(** The registries *)
Lemma plain_request_allowed url : Forall (fun h => h.1 = "authorization" -> authorization_header_for_url config url = Some h.2) (plain_request config url).
Proof. unfold plain_request. apply Forall_cons. split; [done|]. destruct (authorization_header_for_url config url); repeat constructor. Qed.
Lemma conditional_allowed key value (P : string * string -> Prop) : key <> "authorization" -> Forall (fun h => h.1 = "authorization" -> P h) (conditional key value).
Proof. intros Hk. unfold conditional. destruct value as [v|]; [|done]. destruct (header_value_ok v); by repeat constructor. Qed.
Lemma build_request_allowed w name url : allowed_request (build_request w config name url).
Proof.
  intros value Hin. cbn in Hin. cut (Forall (fun h => h.1 = "authorization" -> authorization_header_for_url config url = Some h.2)
    (rq_headers (build_request w config name url))).
  { intros Hall. rewrite Forall_forall in Hall. by apply (Hall _ Hin). }
  unfold build_request. cbn [rq_headers]. apply Forall_app. split; [apply plain_request_allowed|]. destruct (load_cached_headers w config name) as [h|]; [|done].
  apply Forall_app. split; by apply (conditional_allowed _ _ (fun h => authorization_header_for_url config url = Some h.2)).
Qed.

Lemma keeps_retry name url fuel policy : forall attempt w r w',
  retry_loop subsec_nanos http_sleep (send_request config name url) fuel policy attempt w = (r, w') -> R w w'.
Proof.
  induction fuel as [|fuel IH]; intros attempt w r w'; cbn; unfold send_request at 1;
    destruct (registry_send _ w) as [outcome w1] eqn:E; (apply (ff_send HR) in E; [|apply build_request_allowed]);
    (destruct outcome as [v|error]; [by intros [= _ <-]|]).
  - case_match; by intros [= _ <-].
  - case_match; [by intros [= _ <-]|]. intros Hr%IH. transitivity w1; [done|]. eapply transitivity; [apply (ff_sleep HR)|exact Hr].
Qed.

Lemma keeps_response name url response : keeps R (handle_registry_response config name url response).
Proof.
  unfold handle_registry_response. case_match.
  - apply keeps_world_bind. intros w. case_match; [|by apply keeps_lift].
    apply keeps_bind; [done|apply keeps_attempt, keeps_record_update|]. intros _. by apply keeps_ret.
  - case_match; [by apply keeps_lift|]. apply keeps_bind; [done|by apply keeps_lift|]. intros package.
    apply keeps_bind; [done|apply keeps_attempt, keeps_record_update|]. intros _. by apply keeps_ret.
Qed.
Lemma keeps_npm name protocol mode : keeps R (fetch_npm_package config name protocol mode).
Proof.
  unfold fetch_npm_package. apply keeps_world_bind. intros w. case_match; [by apply keeps_ret|]. case_match; [by apply keeps_lift|].
  apply keeps_bind; [done| |].
  - intros w1 r w2. unfold eff_of. destruct (with_retry _ _ _ _ w1) as [response w3] eqn:E. intros [= _ <-]. by eapply keeps_retry.
  - intros response. apply keeps_bind; [done|by apply keeps_lift|]. intros. apply keeps_response.
Qed.
Lemma keeps_jsr name mode : keeps R (fetch_jsr_package config name mode).
Proof.
  unfold fetch_jsr_package. apply keeps_world_bind. intros w. case_match; [by apply keeps_ret|]. case_match; [by apply keeps_lift|].
  apply keeps_bind; [done| |].
  - intros w1 r w2. unfold eff_of. destruct (registry_send _ w1) as [response w3] eqn:E. intros [= _ <-]. eapply (ff_send HR), E.
    intros value Hin. cbn in Hin |- *. pose proof (plain_request_allowed (trim_end_matches "/" (jsr_registry_base w) +:+ "/" +:+ encode_package_name (jsr_compat_name name))) as Hall.
    rewrite Forall_forall in Hall. by apply (Hall _ Hin).
  - intros response. do 3 (apply keeps_bind; [done|by apply keeps_lift|intros ?]).
    apply keeps_bind; [done|apply keeps_attempt, keeps_record_update|]. intros _. by apply keeps_ret.
Qed.

(** C31: Fetching a packument, whatever the protocol, the answers and the failures:
    requests carry credentials only as the configuration has them for the URL they
    are sent to; git is only run with command lines in which a repository or a
    committish is not an option and the transports that execute commands are
    off; and only files of the metadata cache are written, and directories made
    for them and for the clone. *)
Theorem fetch_confined name protocol offline_mode : keeps R (fetch_package_with_offline config name protocol offline_mode).
Proof.
  unfold fetch_package_with_offline. case_match; [apply keeps_jsr|]. case_match.
  { apply keeps_world_bind. intros w. by apply keeps_lift. }
  case_match; [|apply keeps_npm]. unfold git_fetch_package. apply keeps_bind; [done|by apply keeps_lift|]. intros spec.
  apply keeps_bind; [done|apply keeps_prepare|]. intros dir. apply keeps_world_bind. intros w. by apply keeps_lift.
Qed.
End frame.

(** ** What is fetched, and what is found later *)
Section fetched.
Context `{CharTables} `{HttpCrates} `{ConfigFiles} `{Bincode MetadataShard} `{LegacyJson} `{RegistryWorld W} (config : SnpmConfig).

(** Offline, a registry is never asked: the answer is the packument in the cache. *)
Theorem offline_asks_nobody name protocol w :
  protocol_name protocol <> "file" -> protocol_name protocol <> "git" ->
  fetch_package_with_offline config name protocol Offline w =
    (match load_metadata_with_offline w config (if protocol_name protocol == "jsr" then jsr_compat_name name else name) Offline with
     | Some package => Ok package
     | None => Err (OfflineRequired ((if protocol_name protocol == "jsr" then "jsr package metadata for " else "package metadata for ") +:+ name))
     end, w).
Proof.
  intros Hfile Hgit. unfold fetch_package_with_offline. apply String.eqb_neq in Hfile, Hgit. rewrite Hfile, Hgit.
  destruct (protocol_name protocol == "jsr").
  - unfold fetch_jsr_package, world, mbind, eff_bind. by destruct (load_metadata_with_offline w config (jsr_compat_name name) Offline).
  - unfold fetch_npm_package, world, mbind, eff_bind. by destruct (load_metadata_with_offline w config name Offline).
Qed.

(** What is fresh enough is also found offline. *)
Lemma load_offline w name mode package : load_metadata_with_offline w config name mode = Some package ->
  forall mode', mode' <> Online -> load_metadata_with_offline w config name mode' = Some package.
Proof.
  unfold load_metadata_with_offline. destruct (read_cached_package_record w config name) as [record|]; [|done]. cbn.
  destruct (cr_package record) as [p|]; [|done]. cbn. intros Hl mode' Hm.
  assert ((is_fresh w config (cr_updated_at_unix_secs record) || match mode' with PreferOffline | Offline => true | Online => false end) = true)
    as -> by (by destruct mode'; rewrite ?orb_true_r).
  destruct (is_fresh _ _ _ || _) in Hl; [exact Hl|done].
Qed.

Definition has_needed_times (package : RegistryPackage) : bool :=
  negb (bool_decide (is_Some (c_min_package_age_days config)) && bool_decide (rp_time package = ∅)).

Section kept.
Context `{!ShardLaws} `{!CacheWorldLaws W} (Hhealthy : @healthy _ W _).

Lemma saved_is_loaded name package headers w r w' mode :
  plain_package package -> has_needed_times package = true -> mode <> Online ->
  save_metadata_with_headers config name package headers w = (r, w') -> load_metadata_with_offline w' config name mode = Some package.
Proof.
  intros Hp Ht Hm Hs. destruct (saved_reads config name package headers w r w' Hhealthy Hs) as (_ & Hload & _). destruct (Hload Hp) as [Hl _].
  apply (load_offline w' name Offline); [|done]. rewrite Hl. unfold has_needed_times in Ht. by destruct (_ && _).
Qed.

(** What a registry has answered is kept: after a packument was fetched, whether
    it came from the cache, with a 304 or with a 200, the next request that need not
    be online gets the same packument without asking anybody.  This is so where
    writing works, for packuments without launchers and bundled dependencies
    that have the times the age policy needs. *)
Theorem fetched_is_kept name protocol mode package w w' :
  plain_package package -> has_needed_times package = true ->
  fetch_npm_package config name protocol mode w = (Ok package, w') ->
  forall later, later <> Online -> fetch_npm_package config name protocol later w' = (Ok package, w').
Proof.
  intros Hp Ht Hf later Hlater. cut (load_metadata_with_offline w' config name later = Some package).
  { intros Hl. unfold fetch_npm_package, world, mbind, eff_bind. by rewrite Hl. }
  unfold fetch_npm_package in Hf. apply eff_bind_Ok in Hf as (w1 & w2 & [= <- <-] & Hf).
  destruct (load_metadata_with_offline w config name mode) as [cached|] eqn:Hc.
  { injection Hf as -> <-. by eapply load_offline. }
  case_bool_decide; [done|]. apply eff_bind_Ok in Hf as (response & w3 & _ & Hf). apply eff_bind_Ok in Hf as (answer & w4 & Ha & Hf).
  clear Ha. unfold handle_registry_response in Hf. case_match.
  - apply eff_bind_Ok in Hf as (w5 & w6 & [= <- <-] & Hf). destruct (load_metadata_with_offline w4 config name Offline) as [cached|]; [|done].
    apply eff_bind_Ok in Hf as (saved & w5 & Hs & [= -> <-]). unfold attempt in Hs.
    destruct (save_metadata config name package w4) as [r w6] eqn:E. injection Hs as _ <-.
    by apply (saved_is_loaded name package None w4 r).
  - case_match; [done|]. apply eff_bind_Ok in Hf as (p & w5 & _ & Hf).
    apply eff_bind_Ok in Hf as (saved & w6 & Hs & [= -> <-]). unfold attempt in Hs.
    destruct (save_metadata_with_headers _ _ _ _ w5) as [r w7] eqn:E. injection Hs as _ <-. by eapply saved_is_loaded.
Qed.
End kept.
End fetched.

(** ** A registry and some repositories *)
Module ProtocolsDemo.
#[local] Existing Instance StoreWorldDemo.disk_fs.
#[local] Existing Instance StoreWorldDemo.disk_store.
#[local] Existing Instance StoreWorldDemo.disk_laws.
#[local] Existing Instance CacheDemo.encoding.
#[local] Existing Instance CacheDemo.encoding_laws.
#[local] Existing Instance CacheDemo.clock.
#[local] Existing Instance CacheDemo.laws.
#[local] Existing Instance CacheDemo.legacy.
#[local] Instance no_tables : CharTables := {| char_alphanumeric _ := true; text_uppercase s := s |}.
#[local] Instance http_crates : HttpCrates := {|
  header_value_ok _ := true; status_text := show_N; status_failure url status := show_N status |}.
#[local] Instance no_files : ConfigFiles := {|
  parse_manifest _ := Ok manifest_default; parse_workspaces _ := Err "unused"; parse_workspace_config _ := Err "unused";
  parse_catalog_config _ := Err "unused"; parse_yarnrc _ := Err "unused"; parse_overrides_config _ := Err "unused" |}.

(** Times only in the full form; an answer that is still good is not sent again. *)
Definition packument (full : bool) : RegistryPackage := {|
  rp_versions := {["1.0.0" := CacheDemo.version None]};
  rp_time := if full then {["1.0.0" := "2026-01-01T00:00:00Z"]} else ∅; rp_dist_tags := {["latest" := "1.0.0"]} |}.
Definition answer (request : Request) : Response :=
  if existsb (fun h => h.1 == "if-modified-since") (rq_headers request)
  then {| rs_status := 304; rs_etag := None; rs_last_modified := None; rs_json := Err StoreWorldDemo.not_found |}
  else {| rs_status := 200; rs_etag := None; rs_last_modified := Some "Thu, 01 Jan 2026 00:00:00 GMT";
          rs_json := Ok (packument (existsb (fun h => h.2 == "application/json; q=1.0, */*") (rq_headers request))) |}.
#[local] Instance registry : RegistryWorld StoreWorldDemo.StoreDisk := {|
  rw_cache := CacheDemo.clock; rw_env _ _ := None; rw_cwd _ := Ok "/p";
  registry_send request w := (Ok (answer request), w);
  git_output _ _ w := (Ok (false, ε, "fatal: unable to access"), w) |}.

Definition config : SnpmConfig := config_for_tests.
Definition npm_protocol : RegistryProtocol := {| protocol_name := "npm" |}.
Definition start : StoreWorldDemo.StoreDisk :=
  {| StoreWorldDemo.sd_disk := disk_with {["/p/package.json" := "{}"]}; StoreWorldDemo.sd_dirs := [] |}.
Definition fetched : Result RegistryPackage * StoreWorldDemo.StoreDisk := fetch_npm_package config "lodash" "npm" Online start.

Example fetched_ok : fetched.1 = Ok (packument false).
Proof. vm_refl. Qed.

Lemma fetched_run : fetch_npm_package config "lodash" "npm" Online start = (Ok (packument false), fetched.2).
Proof. rewrite <-fetched_ok. exact (surjective_pairing fetched). Qed.
Lemma packument_plain : plain_package (packument false).
Proof. apply (bool_decide_unpack _). vm_compute. exact I. Qed.
Lemma times_not_needed : has_needed_times config (packument false) = true.
Proof. vm_refl. Qed.
Lemma fetched_is_kept_witness :
  fetch_npm_package config "lodash" "npm" Offline fetched.2 = (Ok (packument false), fetched.2).
Proof.
  exact (fetched_is_kept (H4 := registry) config CacheDemo.all_healthy "lodash" "npm" Online (packument false) start fetched.2
    packument_plain times_not_needed fetched_run Offline ltac:(discriminate)).
Defined.

(** Only files of the cache change. *)
Definition elsewhere (w w' : StoreWorldDemo.StoreDisk) : Prop :=
  forall p, ~ cache_file (W := StoreWorldDemo.StoreDisk) config p -> content w' p = content w p.
#[local] Instance elsewhere_preorder : PreOrder elsewhere.
Proof. split; [by intros w p|]. intros w1 w2 w3 H12 H23 p Hp. by rewrite H23, H12. Qed.
Lemma elsewhere_frame : fetch_frame config elsewhere.
Proof.
  split; try (intros; by intros w r w' [= _ <-]).
  - by intros request Hr w r w' [= _ <-].
  - by intros d w p Hp.
  - by intros dir args Ha w r w' [= _ <-].
  - intros p data Hp w r w' Hw q Hq. apply write_file_content in Hw as [Ho _]. apply Ho. by intros ->.
  - intros p q Hp Hq w r w' Hw x Hx. apply rename_content in Hw. destruct r as [[]|]; [|apply Hw].
    apply (proj2 Hw); by intros ->.
  - intros p Hp w r w' Hw q Hq. apply remove_file_content in Hw. apply Hw. by intros ->.
Qed.
Definition fetched_from (protocol : RegistryProtocol) : Result RegistryPackage * StoreWorldDemo.StoreDisk :=
  fetch_package_with_offline config "lodash" protocol Online start.
Lemma fetch_confined_witness : elsewhere start (fetched_from npm_protocol).2.
Proof.
  exact (fetch_confined config elsewhere elsewhere_frame "lodash" npm_protocol Online start (fetched_from npm_protocol).1 (fetched_from npm_protocol).2
    (surjective_pairing (fetched_from npm_protocol))).
Defined.

(** With an age policy the abbreviated form is of no use; its date is sent all the
    same, and the answer that nothing has changed is an error, now and later. *)
Definition careful : SnpmConfig := {|
  c_cache_dir := "/tmp/cache"; c_data_dir := "/tmp/data"; c_allow_scripts := ∅;
  c_disable_global_virtual_store_for_packages := ∅; c_min_package_age_days := Some 7%Z;
  c_min_package_cache_age_days := None; c_default_registry := "https://registry.npmjs.org";
  c_scoped_registries := ∅; c_registry_auth := ∅; c_default_registry_auth_token := None;
  c_default_registry_auth_scheme := Bearer; c_registry_auth_schemes := ∅;
  c_hoisting := SingleVersion; c_link_backend := LinkAuto; c_strict_peers := false;
  c_save_exact := false; c_save_prefix := "^"; c_frozen_lockfile_default := false;
  c_always_auth := false; c_registry_concurrency := 64; c_verbose := false;
  c_log_file := None; c_remote_cache_url := None; c_remote_cache_auth_token := None;
  c_remote_cache_read_only := false |}.
Example abbreviated_form_is_stuck :
  let again := fetch_package careful "lodash" npm_protocol fetched.2 in
  again.1 = Err (no_cached_metadata "lodash" "https://registry.npmjs.org/lodash") /\
  (fetch_package careful "lodash" npm_protocol again.2).1 = again.1 /\ is_ok (fetch_package careful "lodash" npm_protocol start).1 = true.
Proof. cbn zeta. split_and!; vm_refl. Qed.

(** [parse_git_spec] as its tests have it. *)
Definition repo_and_committish (raw : string) : option (string * option string) :=
  (fun spec => (gs_repo spec, gs_committish spec)) <$> result_ok (parse_git_spec raw).
Example git_specs :
  repo_and_committish "https://github.com/acme/pkg.git#main" = Some ("https://github.com/acme/pkg.git", Some "main") /\
  repo_and_committish "git:github.com:acme/pkg.git" = Some ("ssh://git@github.com/acme/pkg.git", None) /\
  repo_and_committish "ssh://git@example.com:2222/acme/pkg.git" = Some ("ssh://git@example.com:2222/acme/pkg.git", None) /\
  repo_and_committish "ssh://git@example.com:acme/pkg.git" = Some ("ssh://git@example.com/acme/pkg.git", None) /\
  repo_and_committish "acme/pkg#v1.0.0" = Some ("https://github.com/acme/pkg.git", Some "v1.0.0").
Proof. split_and!; vm_refl. Qed.
(** An address with a user and a colon looks like an owner and a name. *)
Example scp_address_is_mangled :
  repo_and_committish "git:git@gitlab.com:acme/pkg.git" = Some ("https://github.com/git@gitlab.com:acme/pkg.git", None).
Proof. vm_refl. Qed.

(** Two repositories with one clone: what was cloned for the first is fetched and
    used for the second. *)
Example clones_are_shared :
  repo_cache_dir config "https://github.com/acme/foo-bar" = repo_cache_dir config "https://github.com/acme/foo_bar".
Proof. vm_refl. Qed.

(** A clone that is there does not help when git cannot reach the server. *)
Definition cloned : StoreWorldDemo.StoreDisk := {|
  StoreWorldDemo.sd_disk := disk_with {[repo_cache_dir config "acme/pkg" +:+ "/repo/package.json" := "{}"]};
  StoreWorldDemo.sd_dirs := [repo_cache_dir config "acme/pkg"; repo_cache_dir config "acme/pkg" +:+ "/repo"] |}.
Example clone_is_not_enough :
  is_ok (load_registry_package (view cloned) (repo_cache_dir config "acme/pkg" +:+ "/repo") "acme/pkg") = true /\
  (fetch_package_with_offline config "acme/pkg" {| protocol_name := "git" |} Offline cloned).1
    = Err (ResolutionFailed "acme/pkg" "latest" "git fetch failed: fatal: unable to access").
Proof. split; vm_refl. Qed.
End ProtocolsDemo.
