(* ===== verification/SideEffects.v ===== *)
(** * The cache of side effects ([lifecycle/runner/{cache,remote_cache}.rs])

    What the scripts of a package made is kept under a hash of what they were given:
    in a directory of the store, and as an archive on a server if one is configured.
    [Scripts] has the keys; here are the hash of a directory, copying, saving and
    restoring.  Failures of the server are only reported. *)
From S2P Require Import Prelude.
From S2P Require Import BTree.
From S2P Require Import Text.
From S2P Require Import Errors.
From S2P Require Import Types.
From S2P Require Import Paths.
From S2P Require Import Crates.
From S2P Require Import Semver.
From S2P Require Import Peers.
From S2P Require Import Config.
From S2P Require Import Store.
From S2P Require Import Scripts.
From S2P Require Import Sharing.
From S2P Require Import Residency.
From S2P Require Import World.
From S2P Require Import LinkFs.
From S2P Require Import Node.
From S2P Require Import NodeInstall.
From S2P Require Import StoreFs.
From S2P Require Import StoreTree.
From S2P Require Import StoreSafe.

(** ** What is not in the repository *)

(** [tar::Builder] over a [GzEncoder]: links, directories and files with their
    modes, and the bytes at the end. *)
Class TarBuilder := {
  Builder : Type;
  builder_new : Builder;
  append_link : Builder -> string -> string -> result string Builder;
  append_directory : Builder -> string -> N -> result string Builder;
  append_file : Builder -> string -> N -> string -> result string Builder;
  builder_finish : Builder -> result string string;
}.

Class ScriptWorld (W : Type) := {
  sw_node :: NodeWorld W;
  (** the blocking client: the status and the body; the status of an upload *)
  remote_client : Eff W unit;
  remote_get : string -> option string -> W -> result string (N * result string string) * W;
  remote_put : string -> option string -> string -> W -> result string N * W;
  (** [archive.unpack(dir)] for the bytes of a gzipped archive *)
  archive_unpack : string -> string -> IoOp W;
}.

Definition side_effects_marker : string := ".snpm-side-effects-cache".

(** ** Reading a directory *)
Definition name_le (a b : string) : Prop := ord_le a b.
#[global] Instance name_le_dec : RelDecision name_le.
Proof. intros a b. unfold name_le. apply _. Defined.

(** The names in a directory, sorted as the paths are; one that cannot be read
    is a failure. *)
Definition sorted_entries (fs : FileSystem) (current : string) : Result (list string) :=
  entries ← map_err (ReadFile current) (fs_entries fs current);
  names ← try_fold (fun names entry => '(name, _) ← map_err (ReadFile current) entry; Ok (names ++ [name])) [] entries;
  Ok (merge_sort name_le names).

Definition relative_to (base path : string) : Result string :=
  ok_or (Io path "prefix not found") (path_strip_prefix path base).

Section hash.
Context `{DigestCrates} (fs : FileSystem).

(** The marker is left out at every level. *)
Fixpoint hash_dir_inner (base : string) (fuel : nat) (current : string) (h : hasher) : Result hasher :=
  match fuel with
  | O => Err (too_deep current)
  | S fuel =>
      names ← sorted_entries fs current;
      try_fold (fun h name =>
        let path := path_push current name in
        if name == side_effects_marker then Ok h else
        relative ← relative_to base path;
        metadata ← map_err (ReadFile path) (fs_lstat fs path);
        let h := hasher_update h (replace_char "\" "/" relative) in
        match st_type metadata with
        | TSymlink =>
            target ← map_err (ReadFile path) (fs_read_link fs path);
            Ok (hasher_update (hasher_update h (chr "000" +:+ "symlink" +:+ chr "000")) target)
        | TDir => hash_dir_inner base fuel path (hasher_update h (chr "000" +:+ "dir" +:+ chr "000"))
        | _ =>
            bytes ← map_err (ReadFile path) (fs_bytes fs path);
            Ok (hasher_update (hasher_update h (chr "000" +:+ "file" +:+ chr "000")) bytes)
        end) h names
  end.

Definition hash_dir (depth : nat) (package_dir : string) : Result string :=
  h ← hash_dir_inner package_dir depth package_dir (hasher_new Sha512);
  Ok (hex_encode (hasher_finalize h)).

Definition read_marker (package_dir : string) : option string :=
  text ← result_ok (read_to_string fs (path_push package_dir side_effects_marker)); marker_hash text.
Definition marker_matches (package_dir expected : string) : bool :=
  match read_marker package_dir with Some value => value == expected | None => false end.
End hash.

(** ** Copying a directory *)
Section copy.
Context `{FsWorld W}.

Definition remove_path (path : string) : Eff W unit :=
  w ← world;
  metadata ← lift (map_err (ReadFile path) (fs_lstat (view w) path));
  io_write path (match st_type metadata with TDir => fs_remove_dir_all path | _ => fs_remove_file path end).

(** The target must exist: its kind decides how the link is made on Windows. *)
Definition create_symlink_like (source target destination : string) : Eff W unit :=
  w ← world;
  _ ← lift (map_err (ReadFile source) (fs_stat (view w) source));
  _ ← ensure_parent_dir destination;
  io_write destination (fs_symlink target destination).

Fixpoint copy_dir_inner (base : string) (fuel : nat) (current destination_root : string) : Eff W unit :=
  match fuel with
  | O => lift (Err (too_deep current))
  | S fuel =>
      w ← world;
      names ← lift (sorted_entries (view w) current);
      eff_fold (fun (_ : unit) name =>
        let path := path_push current name in
        relative ← lift (relative_to base path);
        let destination := path_push destination_root relative in
        w ← world;
        metadata ← lift (map_err (ReadFile path) (fs_lstat (view w) path));
        match st_type metadata with
        | TSymlink =>
            target ← lift (map_err (ReadFile path) (fs_read_link (view w) path));
            create_symlink_like path target destination
        | TDir => _ ← create_dir_all destination; copy_dir_inner base fuel path destination_root
        | _ =>
            _ ← ensure_parent_dir destination;
            copied ← clone_or_copy_file path destination;
            lift (map_err (WriteFile destination) copied)
        end) tt names
  end.

Definition copy_dir (source destination : string) : Eff W unit :=
  w ← world;
  _ ← (match fs_lstat (view w) destination with Ok _ => remove_path destination | Err _ => mret tt end);
  _ ← create_dir_all destination;
  w ← world;
  copy_dir_inner source (fs_depth w source) source destination.

Definition write_marker (package_dir input_hash : string) : Eff W unit :=
  write_output (path_push package_dir side_effects_marker, input_hash).
End copy.

(** ** [remote_cache.rs] *)
Section remote.
Context `{TarBuilder} `{ScriptWorld W}.

(** Everything in a directory; modes are the low bits the file system keeps. *)
Fixpoint pack_dir_inner (w : W) (base : string) (fuel : nat) (current : string) (builder : Builder) : Result Builder :=
  match fuel with
  | O => Err (too_deep current)
  | S fuel =>
      let fs := view w in
      names ← sorted_entries fs current;
      try_fold (fun builder name =>
        let path := path_push current name in
        relative ← relative_to base path;
        metadata ← map_err (ReadFile path) (fs_lstat fs path);
        match st_type metadata with
        | TSymlink =>
            target ← map_err (ReadFile path) (fs_read_link fs path);
            map_err (WriteFile path) (append_link builder relative target)
        | TDir =>
            mode ← map_err (ReadFile path) (fs_mode w path);
            builder ← map_err (WriteFile path) (append_directory builder relative mode);
            pack_dir_inner w base fuel path builder
        | _ =>
            mode ← map_err (ReadFile path) (fs_mode w path);
            bytes ← map_err (ReadFile path) (fs_bytes fs path);
            map_err (WriteFile path) (append_file builder relative mode bytes)
        end) builder names
  end.
Definition pack_dir (w : W) (package_dir : string) : Result string :=
  builder ← pack_dir_inner w package_dir (fs_depth w package_dir) package_dir builder_new;
  map_err (WriteFile package_dir) (builder_finish builder).

Definition restore_staging (w : W) (dest_dir : string) : string :=
  let name := default "package" (file_name dest_dir) in
  with_file_name dest_dir ("." +:+ name +:+ ".remote-restore." +:+ show_N (process_id w) +:+ ".tmp").

Definition unpack_into_dir (bytes dest_dir : string) : Eff W unit :=
  w ← world;
  let staging := restore_staging w dest_dir in
  _ ← (if path_exists (view w) staging then io_ignore (fs_remove_dir_all staging) else mret tt);
  _ ← create_dir_all staging;
  unpacked ← eff_of (archive_unpack bytes staging);
  match unpacked with
  | Err source => _ ← io_ignore (fs_remove_dir_all staging); lift (Err (WriteFile dest_dir source))
  | Ok _ =>
      w ← world;
      _ ← (if path_exists (view w) dest_dir then io_ignore (fs_remove_dir_all dest_dir) else mret tt);
      renamed ← eff_of (fs_rename staging dest_dir);
      match renamed with
      | Ok _ => mret tt
      | Err source => _ ← io_ignore (fs_remove_dir_all staging); lift (Err (WriteFile dest_dir source))
      end
  end.

Definition bearer (self : RemoteCache) : option string := (fun token => "Bearer " +:+ token) <$> rc_auth_token self.
Definition is_success (status : N) : bool := (200 <=? status)%N && (status <? 300)%N.

(** Whether it was restored; every failure is a miss. *)
Definition try_restore (self : RemoteCache) (key package_dir : string) : Eff W bool :=
  client ← attempt remote_client;
  match client with
  | Err _ => mret false
  | Ok _ =>
      response ← eff_of (remote_get (object_url self key) (bearer self));
      match response with
      | Ok (status, Ok bytes) =>
          if is_success status
          then unpacked ← attempt (unpack_into_dir bytes package_dir);
               mret (match unpacked with Ok _ => true | Err _ => false end)
          else mret false
      | _ => mret false
      end
  end.

Definition try_upload (self : RemoteCache) (key package_dir : string) : Eff W unit :=
  if rc_read_only self then mret tt else
  w ← world;
  match pack_dir w package_dir with
  | Err _ => mret tt
  | Ok bytes =>
      client ← attempt remote_client;
      match client with
      | Err _ => mret tt
      | Ok _ => _ ← eff_of (remote_put (object_url self key) (bearer self) bytes); mret tt
      end
  end.
End remote.

(** ** [cache.rs] *)
Section cache.
Context `{SemverCrate} `{Target} `{JsonCrate} `{DigestCrates} `{TarBuilder} `{ScriptWorld W}.

Definition engine_tag (w : W) (config : SnpmConfig) (package_dir : string) : string :=
  node_engine_tag
    (match discover_pinned (view w) package_dir with Ok (Some pin) => Some (pn_spec pin) | _ => None end)
    (match active_for_project_offline (view w) config package_dir with Ok (Some active) => Some (an_version active) | _ => None end)
    (system_node w).

Definition new_cache_entry (w : W) (config : SnpmConfig) (name version package_dir : string) : Result SideEffectsCacheEntry :=
  input_hash ← match read_marker (view w) package_dir with
               | Some hash => Ok hash
               | None => hash_dir (view w) (fs_depth w package_dir) package_dir
               end;
  Ok (side_effects_entry config target_os target_arch (engine_tag w config package_dir) name version input_hash).

Definition slot_parent (self : SideEffectsCacheEntry) : Result string :=
  ok_or (Internal ("side-effects cache path has no parent: " +:+ se_path self)) (parent (se_path self)).

(** A time before the epoch counts as the epoch. *)
Definition tmp_name (w : W) : string :=
  ".tmp-side-effects-" +:+ show_N (process_id w) +:+ "-" +:+ show_N (Z.to_N (system_now w)).

(** The copy and the rename that [save] and [save_local_from] end with. *)
Definition fill_slot (self : SideEffectsCacheEntry) (parent package_dir : string) : Eff W unit :=
  w ← world;
  let tmp_dir := path_push parent (tmp_name w) in
  _ ← (if path_exists (view w) tmp_dir then remove_path tmp_dir else mret tt);
  _ ← copy_dir package_dir tmp_dir;
  renamed ← eff_of (fs_rename tmp_dir (se_path self));
  match renamed with
  | Ok _ => mret tt
  | Err source =>
      w ← world;
      _ ← attempt (remove_path tmp_dir);
      if is_dir (view w) (se_path self) then mret tt else lift (Err (WriteFile (se_path self) source))
  end.

Definition save_local_from (self : SideEffectsCacheEntry) (package_dir : string) : Eff W unit :=
  w ← world;
  if is_dir (view w) (se_path self) then mret tt else
  parent ← lift (slot_parent self);
  _ ← create_dir_all parent;
  fill_slot self parent package_dir.

Definition push_remote (self : SideEffectsCacheEntry) (package_dir : string) : Eff W unit :=
  match se_remote self with Some remote => try_upload remote (se_remote_key self) package_dir | None => mret tt end.

Definition save (self : SideEffectsCacheEntry) (package_dir : string) : Eff W unit :=
  w ← world;
  if is_dir (view w) (se_path self) then write_marker package_dir (se_input_hash self) else
  parent ← lift (slot_parent self);
  _ ← create_dir_all parent;
  _ ← write_marker package_dir (se_input_hash self);
  _ ← fill_slot self parent package_dir;
  push_remote self package_dir.

Definition restore_if_available (self : SideEffectsCacheEntry) (package_dir : string) : Eff W SideEffectsCacheRestore :=
  w ← world;
  let slot := is_dir (view w) (se_path self) in
  if marker_matches (view w) package_dir (se_input_hash self) && slot then mret AlreadyApplied
  else if slot then _ ← copy_dir (se_path self) package_dir; mret Restored
  else match se_remote self with
  | None => mret Miss
  | Some remote =>
      restored ← try_restore remote (se_remote_key self) package_dir;
      if restored : bool then
        _ ← attempt (save_local_from self package_dir);
        _ ← write_marker package_dir (se_input_hash self);
        mret Restored
      else mret Miss
  end.
End cache.

(** ** What is saved is complete *)
Section save_correct.
Context `{TarBuilder} `{ScriptWorld W} (self : SideEffectsCacheEntry).

(** The slot was filled by renaming a complete copy, or by another process. *)
Definition slot_filled (package_dir : string) (w w' : W) : Prop :=
  exists parent tmp w1 w2 w3 renamed, Paths.parent (se_path self) = Some parent /\ tmp = path_push parent (tmp_name w1) /\
    copy_dir package_dir tmp w2 = (Ok tt, w3) /\ fs_rename tmp (se_path self) w3 = renamed /\
    (renamed.1 = Ok tt \/ is_dir (view renamed.2) (se_path self) = true).

Lemma fill_slot_Ok parent package_dir w w' :
  Paths.parent (se_path self) = Some parent -> fill_slot self parent package_dir w = (Ok tt, w') -> slot_filled package_dir w w'.
Proof.
  intros Hp. unfold fill_slot. intros Hf. apply eff_bind_Ok in Hf as (wa & wb & [= <- <-] & Hf). eff_inv Hf.
  apply eff_bind_Ok in Hf as ([] & wc & Hcopy & Hf). apply eff_bind_Ok in Hf as (renamed & wd & Hr & Hf).
  unfold eff_of in Hr. destruct (fs_rename _ _ wc) as [r w1] eqn:Hren. injection Hr as <- <-.
  exists parent, (path_push parent (tmp_name w)). do 3 eexists. exists (r, w1). split_and!; [done|done|exact Hcopy|exact Hren|].
  destruct r as [[]|source]; [by left|right]. apply eff_bind_Ok in Hf as (we & wf & [= <- <-] & Hf). eff_inv Hf. cbn [snd].
  by destruct (is_dir (view w1) (se_path self)).
Qed.

(** Saving writes the marker into the package and nothing else there; a slot that
    was there already stays as it was, and a new one is a complete copy that was
    made next to it and renamed. *)
Theorem save_spec package_dir w w' :
  save self package_dir w = (Ok tt, w') ->
  (is_dir (view w) (se_path self) = true /\ write_marker package_dir (se_input_hash self) w = (Ok tt, w')) \/
  (is_dir (view w) (se_path self) = false /\
   exists w1 w2 w3, write_marker package_dir (se_input_hash self) w1 = (Ok tt, w2) /\
     slot_filled package_dir w2 w3 /\ push_remote self package_dir w3 = (Ok tt, w')).
Proof.
  unfold save. intros Hs. apply eff_bind_Ok in Hs as (wa & wb & [= <- <-] & Hs).
  destruct (is_dir (view w) (se_path self)); [by left|right; split; [done|]].
  apply eff_bind_Ok in Hs as (parent & wp & Hp & Hs). unfold lift, slot_parent in Hp. injection Hp as Hp <-.
  eff_inv Hs. apply eff_bind_Ok in Hs as ([] & wc & Hmark & Hs). apply eff_bind_Ok in Hs as ([] & wd & Hf & Hs).
  do 3 eexists. split_and!; [exact Hmark| |exact Hs]. eapply fill_slot_Ok; [|exact Hf].
  by destruct (Paths.parent (se_path self)) as [p|]; [injection Hp as ->|].
Qed.
End save_correct.

(** ** A bad archive leaves the package *)
Section unpack_correct.
Context `{TarBuilder} `{ScriptWorld W} (R : relation W) `{!PreOrder R} (staging : string).

Record unpack_frame : Prop := {
  uf_create : op_keeps R (fs_create_dir_all staging);
  uf_remove : op_keeps R (fs_remove_dir_all staging);
  uf_unpack bytes : op_keeps R (archive_unpack bytes staging);
}.

(** An archive that cannot be unpacked leaves the package as it is: everything
    happened in the staging directory.  The other failure is that of the last
    rename, when the package is already gone. *)
Theorem bad_archive_leaves_package bytes dest_dir w e w' :
  unpack_frame -> restore_staging w dest_dir = staging -> unpack_into_dir bytes dest_dir w = (Err e, w') ->
  R w w' \/ exists w1 source, (fs_rename staging dest_dir w1).1 = Err source /\ e = WriteFile dest_dir source.
Proof.
  intros HR Hst. unfold unpack_into_dir. intros [(? & [=] & _)|(wa & wb & [= <- <-] & Hu)]%eff_bind_inv. rewrite Hst in Hu.
  assert (Hignore : keeps R (io_ignore (fs_remove_dir_all staging))) by apply keeps_io_ignore, (uf_remove HR).
  apply eff_bind_inv in Hu as [(e1 & Hm & [= <-])|(u1 & w1 & Hm & Hu)].
  { left. destruct (path_exists _ _); [by eapply Hignore|by injection Hm]. }
  assert (Hw1 : R w w1) by (destruct (path_exists _ _); [by eapply Hignore|by injection Hm as _ <-]).
  assert (Hcreate : keeps R (create_dir_all staging)) by apply keeps_io_error, (uf_create HR).
  apply eff_bind_inv in Hu as [(e1 & Hc & [= <-])|(u2 & w2 & Hc & Hu)]; apply Hcreate in Hc; [left; by transitivity w1|].
  apply eff_bind_inv in Hu as [(e1 & Hx & _)|(unpacked & w3 & Hx & Hu)].
  { exfalso. revert Hx. unfold eff_of. by destruct (archive_unpack _ _ _). }
  assert (Hunpack : keeps R (eff_of (archive_unpack bytes staging))) by apply keeps_eff_of_op, (uf_unpack HR).
  apply Hunpack in Hx. destruct unpacked as [u3|source].
  - right. apply eff_bind_inv in Hu as [(? & [=] & _)|(wx & wy & [= <- <-] & Hu)].
    apply eff_bind_inv in Hu as [(e1 & Hm' & _)|(u4 & w4 & _ & Hu)].
    { exfalso. clear -Hm'. unfold io_ignore in Hm'. destruct (path_exists _ _); [|done]. by destruct (fs_remove_dir_all _ _). }
    apply eff_bind_inv in Hu as [(e1 & Hr & _)|(renamed & w5 & Hr & Hu)].
    { exfalso. revert Hr. unfold eff_of. by destruct (fs_rename _ _ _). }
    unfold eff_of in Hr. destruct (fs_rename staging dest_dir w4) as [r w6] eqn:Hren. injection Hr as <- <-.
    destruct r as [u5|source]; [done|]. exists w4, source. rewrite Hren. split; [done|].
    apply eff_bind_inv in Hu as [(e1 & Hm' & _)|(u6 & w7 & _ & [= <- _])]; [|done].
    exfalso. revert Hm'. unfold io_ignore. by destruct (fs_remove_dir_all _ _).
  - left. apply eff_bind_inv in Hu as [(e1 & Hm' & _)|(u4 & w4 & Hm' & [= _ <-])].
    { exfalso. revert Hm'. unfold io_ignore. by destruct (fs_remove_dir_all _ _). }
    apply Hignore in Hm'. by transitivity w1; [|transitivity w2; [|transitivity w3]].
Qed.
End unpack_correct.

(** ** The hash does not separate names from contents *)
Section collision.
Context `{DigestCrates} `{!DigestLaws}.

Definition flat_dir (files : list (string * string)) : FileSystem :=
  let lookup p := ok_or "No such file or directory" (snd <$> find (fun e => path_push "/p" e.1 == p) files) in
  {| fs_lstat p := _ ← lookup p; Ok {| st_type := TFile; st_len := 0; st_modified := Ok 0%Z |};
     fs_stat p := _ ← lookup p; Ok {| st_type := TFile; st_len := 0; st_modified := Ok 0%Z |};
     fs_bytes := lookup; fs_read_link _ := Err "not a link";
     fs_entries _ := Ok ((fun e => Ok (e.1, Ok TFile)) <$> files) |}.

(** Two files, and one whose content says what the other would be. *)
Lemma hash_dir_collides :
  hash_dir (flat_dir [("a", "x"); ("b", "y")]) 1 "/p" =
  hash_dir (flat_dir [("a", "xb" +:+ chr "000" +:+ "file" +:+ chr "000" +:+ "y")]) 1 "/p".
Proof.
  set (mark := chr "000" +:+ "file" +:+ chr "000").
  assert (hash_dir (flat_dir [("a", "x"); ("b", "y")]) 1 "/p" = Ok (hex_encode (hasher_finalize
    (hasher_update (hasher_update (hasher_update (hasher_update (hasher_update (hasher_update (hasher_new Sha512)
      "a") mark) "x") "b") mark) "y")))) as -> by vm_refl.
  assert (hash_dir (flat_dir [("a", "xb" +:+ chr "000" +:+ "file" +:+ chr "000" +:+ "y")]) 1 "/p" = Ok (hex_encode (hasher_finalize
    (hasher_update (hasher_update (hasher_update (hasher_new Sha512) "a") mark) ("xb" +:+ chr "000" +:+ "file" +:+ chr "000" +:+ "y"))))) as -> by vm_refl.
  by rewrite !hasher_update_app.
Qed.
End collision.
