(* ===== verification/Lifecycle.v ===== *)
(** * Running lifecycle scripts ([lifecycle/runner/{walk,execute,manifest}.rs], [script_env.rs])

    The walk of [node_modules], the jobs it finds, their order ([Scripts]), and the
    commands that run, with their environment.  The jobs of a chunk run in order,
    one after the other. *)
From S2P Require Import Prelude.
From S2P Require Import BTree.
From S2P Require Import Text.
From S2P Require Import Errors.
From S2P Require Import Types.
From S2P Require Import Paths.
From S2P Require Import Crates.
From S2P Require Import Semver.
From S2P Require Import Peers.
From S2P Require Import Config.
From S2P Require Import Store.
From S2P Require Import Scripts.
From S2P Require Import Linker.
From S2P Require Import Sharing.
From S2P Require Import Residency.
From S2P Require Import World.
From S2P Require Import LinkFs.
From S2P Require Import Node.
From S2P Require Import NodeInstall.
From S2P Require Import StoreFs.
From S2P Require Import StoreTree.
From S2P Require Import StoreSafe.
From S2P Require Import SideEffects.

(** A command of the shell: the script, the directory it runs in and the
    variables that are set. *)
Record Command := { cmd_script : string; cmd_dir : string; cmd_env : list (string * string) }.

Class LifecycleWorld (W : Type) := {
  lw_script :: ScriptWorld W;
  canonicalize_path : W -> string -> result string string;
  (** [sh -c script]: whether it succeeded, and its code *)
  run_command : Command -> W -> result string (bool * option Z) * W;
  (** [TempDir::with_prefix] *)
  temp_dir : string -> W -> result string string * W;
  current_exe : W -> option string;
  init_cwd : W -> option string;
  (** [SnpmConfig::from_env] *)
  env_config : W -> SnpmConfig;
  available_parallelism : W -> option N;
  thread_pool : N -> Eff W unit;
  (** how many directories there are: the walk visits each at most once *)
  directory_count : W -> nat;
}.

(** ** [script_env.rs] *)
Definition cargo_pkg_version : string := "0.1.0".

Section environment.
Context `{LifecycleWorld W}.

Definition script_env (w : W) (root : string) (name version : option string) (lifecycle_event : string) : list (string * string) :=
  [("npm_lifecycle_event", lifecycle_event); ("npm_package_json", path_push root "package.json")]
  ++ option_list ((fun name => ("npm_package_name", name)) <$> name)
  ++ option_list ((fun version => ("npm_package_version", version)) <$> version)
  ++ option_list ((fun exe => ("npm_execpath", exe)) <$> current_exe w)
  ++ [("npm_config_user_agent", "snpm/" +:+ cargo_pkg_version)]
  ++ option_list ((fun cwd => ("INIT_CWD", cwd)) <$> init_cwd w).
End environment.

(** ** [execute.rs] *)
Section execute.
Context `{SemverCrate} `{Target} `{JsonCrate} `{DigestCrates} `{TarBuilder} `{LifecycleWorld W}.

(** [env::join_paths] and [env::split_paths], as on Unix. *)
Definition join_paths (parts : list string) : result string string :=
  if existsb (contains_char ":") parts then Err "path segment contains separator `:`" else Ok (join ":" parts).

Definition build_path (w : W) (root : string) (self_bin_dir : option string) (script_name : string) : Result string :=
  map_err (ScriptRun script_name)
    (join_paths (script_path root self_bin_dir (node_bin_dir_for_subprocess (env_config w) w root)
                 ++ match node_env w "PATH" with Some existing => split_char ":" existing | None => [] end)).

Definition run_script_if_present (name : string) (version : option string) (root : string) (scripts : gmap string json)
    (key : string) (self_bin_dir : option string) : Eff W bool :=
  match scripts !! key with
  | Some (JString cmd) =>
      if is_empty cmd then mret false else
      let script_name := name +:+ ":" +:+ key in
      w ← world;
      path_value ← lift (build_path w root self_bin_dir script_name);
      status ← eff_of (run_command {| cmd_script := cmd; cmd_dir := root;
                 cmd_env := ("PATH", path_value) :: script_env w root (non_empty name) version key |});
      '(succeeded, code) ← lift (map_err (ScriptRun script_name) status);
      if succeeded : bool then mret true else lift (Err (ScriptFailed script_name (default 1%Z code)))
  | _ => mret false
  end.

Definition drop_temp_dir (dir : option string) : Eff W unit :=
  match dir with Some dir => io_ignore (fs_remove_dir_all dir) | None => mret tt end.

(** A directory that is not returned is removed. *)
Definition prepare_self_bin_dir (pkg_root pkg_name : string) (bin : BinField) : Eff W (option string) :=
  tmp ← eff_of (temp_dir "snpm-self-bin-");
  match tmp with
  | Err _ => mret None
  | Ok tmp =>
      linked ← attempt (link_known_bins pkg_root tmp pkg_name bin);
      w ← world;
      if is_ok linked && is_dir (view w) (path_push tmp ".bin") then mret (Some tmp)
      else _ ← drop_temp_dir (Some tmp); mret None
  end.

Definition run_present_scripts (name : string) (version : option string) (root : string) (scripts : gmap string json)
    (bin : option BinField) (script_names : list string) : Eff W nat :=
  self_bin ← (match bin with
              | Some bin =>
                  if existsb (fun key => bool_decide (is_Some (scripts !! key))) script_names
                  then prepare_self_bin_dir root name bin else mret None
              | None => mret None
              end);
  let self_bin_dir := (fun tmp => path_push tmp ".bin") <$> self_bin in
  ran ← attempt (eff_fold (fun ran key =>
    present ← run_script_if_present name version root scripts key self_bin_dir;
    mret (ran + (if present : bool then 1 else 0))) 0 script_names);
  _ ← drop_temp_dir self_bin;
  lift ran.

(** [manifest.rs::read_manifest] *)
Definition read_manifest (fs : FileSystem) (manifest_path : string) : Result json :=
  data ← map_err (ReadFile manifest_path) (read_to_string fs manifest_path);
  map_err (ParseJson manifest_path) (json_from_str data).

Definition run_project_scripts (project_root : string) : Eff W unit :=
  let manifest_path := path_push project_root "package.json" in
  w ← world;
  if negb (path_exists (view w) manifest_path) then mret tt else
  value ← lift (read_manifest (view w) manifest_path);
  match package_scripts value with
  | None => mret tt
  | Some scripts =>
      let display_name := default "root" (package_name value ≫= non_empty) in
      _ ← run_present_scripts display_name (package_version value) project_root scripts (package_bin value)
            PROJECT_LIFECYCLE_SCRIPT_NAMES;
      mret tt
  end.
End execute.

(** ** [walk.rs] *)
Record Walk := {
  wk_jobs : list DepScriptJob;
  wk_blocked : list string;
  wk_blocked_seen : gset string;
  wk_visited_dirs : gset (list (nat * string));
}.
Definition empty_walk : Walk := {| wk_jobs := []; wk_blocked := []; wk_blocked_seen := ∅; wk_visited_dirs := ∅ |}.
Definition push_job (job : DepScriptJob) (st : Walk) : Walk := {|
  wk_jobs := wk_jobs st ++ [job]; wk_blocked := wk_blocked st; wk_blocked_seen := wk_blocked_seen st;
  wk_visited_dirs := wk_visited_dirs st |}.
Definition push_blocked (name : string) (st : Walk) : Walk :=
  if decide (name ∈ wk_blocked_seen st) then st else {|
  wk_jobs := wk_jobs st; wk_blocked := wk_blocked st ++ [name]; wk_blocked_seen := {[name]} ∪ wk_blocked_seen st;
  wk_visited_dirs := wk_visited_dirs st |}.
Definition visit (dir : string) (st : Walk) : Walk := {|
  wk_jobs := wk_jobs st; wk_blocked := wk_blocked st; wk_blocked_seen := wk_blocked_seen st;
  wk_visited_dirs := {[path_key dir]} ∪ wk_visited_dirs st |}.
Definition visited (dir : string) (st : Walk) : bool := bool_decide (path_key dir ∈ wk_visited_dirs st).

Section walk.
Context `{SemverCrate} `{Target} `{JsonCrate} `{DigestCrates} `{TarBuilder} `{HashIter} `{LifecycleWorld W}
  (config : SnpmConfig) (workspace : option Workspace).

Definition canonical (w : W) (path : string) : string := default path (result_ok (canonicalize_path w path)).

(** A failure to restore is only reported, and the scripts run. *)
Definition inspect (pkg_root manifest_path : string) (st : Walk) : Eff W Walk :=
  w ← world;
  value ← lift (read_manifest (view w) manifest_path);
  match package_name value ≫= non_empty, package_scripts value with
  | Some name, Some scripts =>
      if negb (has_lifecycle_scripts scripts) then mret st
      else if negb (is_dep_script_allowed config workspace name) then mret (push_blocked name st)
      else
        let version := package_version value ≫= non_empty in
        cache_entry ← lift (match version with
                            | Some version => entry ← new_cache_entry w config name version pkg_root; Ok (Some entry)
                            | None => Ok None
                            end);
        restored ← attempt (match cache_entry with Some entry => restore_if_available entry pkg_root | None => mret Miss end);
        match restored with
        | Ok Restored | Ok AlreadyApplied => mret st
        | Ok Miss | Err _ =>
            mret (push_job {| job_name := name; job_version := version; job_pkg_root := pkg_root; job_scripts := scripts;
                              job_bin := package_bin value; job_cache_entry := cache_entry;
                              job_dep_names := package_runtime_dep_names value |} st)
        end
  | _, _ => mret st
  end.

(** One entry of a directory; [walk] goes on below. *)
Definition walk_entry (walk : string -> Walk -> Eff W Walk) (scan_dir : string) (st : Walk)
    (entry : result string (string * result string FileType)) : Eff W Walk :=
  '(name, _) ← lift (map_err (ReadFile scan_dir) entry);
  let path := path_push scan_dir name in
  w ← world;
  if negb (is_dir (view w) path) || (name == ".bin") then mret st else
  let visit_path := canonical w path in
  let manifest_path := path_push visit_path "package.json" in
  if is_file (view w) manifest_path then
    if visited visit_path st then mret st else
    st ← inspect visit_path manifest_path (visit visit_path st);
    let nested := path_push visit_path "node_modules" in
    w ← world;
    if is_dir (view w) nested then walk nested st else mret st
  else walk visit_path st.

Fixpoint walk_node_modules (fuel : nat) (dir : string) (st : Walk) : Eff W Walk :=
  match fuel with
  | O => lift (Err (too_deep dir))
  | S fuel =>
      w ← world;
      let scan_dir := canonical w dir in
      if visited scan_dir st then mret st else
      entries ← lift (map_err (ReadFile scan_dir) (fs_entries (view w) scan_dir));
      eff_fold (walk_entry (walk_node_modules fuel) scan_dir) (visit scan_dir st) entries
  end.

Definition run_single_job (job : DepScriptJob) : Eff W unit :=
  ran ← run_present_scripts (job_name job) (job_version job) (job_pkg_root job) (job_scripts job) (job_bin job)
          DEPENDENCY_LIFECYCLE_SCRIPT_NAMES;
  if decide (ran = 0) then mret tt else
  match job_cache_entry job with
  | Some entry => _ ← attempt (save entry (job_pkg_root job)); mret tt
  | None => mret tt
  end.

Definition run_jobs (jobs : list DepScriptJob) : Eff W unit :=
  match jobs with
  | [] => mret tt
  | _ =>
      w ← world;
      _ ← thread_pool (lifecycle_script_concurrency (available_parallelism w));
      eff_fold (fun (_ : unit) chunk => eff_fold (fun (_ : unit) job => run_single_job job) tt chunk) tt (topological_chunks jobs)
  end.

Definition run_install_scripts_for_projects (project_roots : list string) : Eff W (list string) :=
  st ← eff_fold (fun st project_root =>
    let node_modules := path_push project_root "node_modules" in
    w ← world;
    if is_dir (view w) node_modules then walk_node_modules (S (directory_count w)) node_modules st else mret st) empty_walk project_roots;
  _ ← run_jobs (wk_jobs st);
  mret (wk_blocked st).

Definition run_install_scripts (project_root : string) : Eff W (list string) :=
  run_install_scripts_for_projects [project_root].
End walk.
