(* ===== verification/Run.v ===== *)
(** * Scripts and commands ([operations/run/])

    [snpm run] and [snpm exec], in a project and in the members of a workspace.
    What the shell makes of a script that is given arguments is [sh_tokens], a
    reading of the words of the POSIX shell; the theorems about arguments are
    against it.  Messages are left out. *)
From S2P Require Import Prelude.
From S2P Require Import BTree.
From S2P Require Import Text.
From S2P Require Import Errors.
From S2P Require Import Types.
From S2P Require Import Paths.
From S2P Require Import Crates.
From S2P Require Import Semver.
From S2P Require Import Peers.
From S2P Require Import Config.
From S2P Require Import Filters.
From S2P Require Import Store.
From S2P Require Import Scripts.
From S2P Require Import Linker.
From S2P Require Import Residency.
From S2P Require Import World.
From S2P Require Import LinkFs.
From S2P Require Import Node.
From S2P Require Import NodeInstall.
From S2P Require Import StoreFs.
From S2P Require Import StoreTree.
From S2P Require Import StoreSafe.
From S2P Require Import SideEffects.
From S2P Require Import Lifecycle.
From S2P Require Import LifecycleSafe.

(** ** [process.rs] *)
Definition is_safe_char (c : ascii) : bool :=
  is_ascii_alphanumeric c || contains_char c "_-./:=@%,+".

(** [str::replace] of one character by a text *)
Fixpoint replace_by (c : ascii) (text s : string) : string :=
  match s with
  | ε => ε
  | String a s => (if Ascii.eqb c a then text else chr a) +:+ replace_by c text s
  end.

Definition quote_arg (arg : string) : string :=
  if negb (is_empty arg) && all_chars is_safe_char arg then arg
  else "'" +:+ replace_by "'" "'\''" arg +:+ "'".

Definition join_args (args : list string) : string := join " " (quote_arg <$> args).

(** The text that [run_single_script] makes of a script and its arguments. *)
Definition command_text (base : string) (args : list string) : string :=
  match args with
  | [] => base
  | _ => base +:+ (if is_empty base then ε else " ") +:+ join_args args
  end.

(** A command that is started without a shell. *)
Record DirectCommand := { pr_command : string; pr_args : list string; pr_dir : string; pr_env : list (string * string) }.

Class RunWorld (W : Type) := {
  rw_lifecycle :: LifecycleWorld W;
  run_process : DirectCommand -> W -> result string (bool * option Z) * W;
}.

Record ExecOptions := { eo_command : string; eo_args : list string; eo_shell_mode : bool }.

Section run.
Context `{SemverCrate} `{!VersionFields} `{Target} `{JsonCrate} `{DigestCrates} `{NodeIndexJson} `{NodeArchives}
  `{RunWorld W} `{!NodeUnpack W}.

(** [process.rs::build_path] *)
Definition run_path (w : W) (bin_dir script project_root : string) (node_bin_override : option string) : Result string :=
  let node_dir := match node_bin_override with
                  | Some node_dir => Some node_dir
                  | None => node_bin_dir_for_subprocess (env_config w) w project_root
                  end in
  map_err (ScriptRun script)
    (join_paths (option_list node_dir ++ [bin_dir]
                 ++ match node_env w "PATH" with Some existing => split_char ":" existing | None => [] end)).

Definition bin_dir_of (project : Project) : string := path_push (path_push (p_root project) "node_modules") ".bin".

Definition script_status (script : string) (status : result string (bool * option Z)) : Result unit :=
  '(succeeded, code) ← map_err (ScriptRun script) status;
  if succeeded : bool then Ok tt else Err (ScriptFailed script (default 1%Z code)).

(** ** [scripts.rs] *)
Definition run_single_script (project : Project) (script : string) (args : list string) (node_bin_dir : option string) : Eff W unit :=
  base ← lift (ok_or (ScriptMissing script) (m_scripts (p_manifest project) !! script));
  w ← world;
  path_value ← lift (run_path w (bin_dir_of project) script (p_root project) node_bin_dir);
  status ← eff_of (run_command {|
    cmd_script := command_text base args; cmd_dir := p_root project;
    cmd_env := ("PATH", path_value)
      :: script_env w (p_root project) (m_name (p_manifest project)) (m_version (p_manifest project)) script
      ++ option_list ((fun node_dir => ("SNPM_NODE_BIN_OVERRIDE", node_dir)) <$> node_bin_dir) |});
  lift (script_status script status).

Definition has_script (project : Project) (script : string) : bool :=
  bool_decide (is_Some (m_scripts (p_manifest project) !! script)).

Definition run_if_present (project : Project) (script : string) (node_bin_dir : option string) : Eff W unit :=
  if has_script project script then run_single_script project script [] node_bin_dir else mret tt.

Definition run_script_with_node (project : Project) (script : string) (args : list string) (node_bin_dir : option string) : Eff W unit :=
  if negb (has_script project script) then lift (Err (ScriptMissing script)) else
  _ ← run_if_present project ("pre" +:+ script) node_bin_dir;
  _ ← run_single_script project script args node_bin_dir;
  run_if_present project ("post" +:+ script) node_bin_dir.

Definition run_script (project : Project) (script : string) (args : list string) : Eff W unit :=
  run_script_with_node project script args None.

(** ** [exec.rs] *)
Definition exec_command (project : Project) (options : ExecOptions) : Eff W unit :=
  let command := eo_command options in
  w ← world;
  path_value ← lift (run_path w (bin_dir_of project) command (p_root project) None);
  let full_command := match eo_args options with [] => command | args => command +:+ " " +:+ join_args args end in
  let env := ("PATH", path_value) :: ("SNPM_PACKAGE_NAME", default ε (m_name (p_manifest project)))
    :: script_env w (p_root project) (m_name (p_manifest project)) (m_version (p_manifest project)) command in
  status ← eff_of (if eo_shell_mode options
    then run_command {| cmd_script := full_command; cmd_dir := p_root project; cmd_env := env |}
    else run_process {| pr_command := command; pr_args := eo_args options; pr_dir := p_root project; pr_env := env |});
  lift (script_status command status).
End run.

Section workspace.
Context `{SemverCrate} `{!VersionFields} `{Target} `{JsonCrate} `{DigestCrates} `{NodeIndexJson} `{NodeArchives}
  `{GlobCrate} `{GitProgram} `{RunWorld W} `{!NodeUnpack W}.

(** What both commands for a workspace do with its members; a search that runs out
    of bounds, which does not happen ([select_workspace_projects_sublist]), would
    be a panic. *)
Definition selected_projects (workspace : Workspace) (filters filter_prods : list string) : Result (list Project) :=
  match select_workspace_projects workspace filters filter_prods with
  | None => Err (Internal "index out of bounds")
  | Some (Err e) => Err e
  | Some (Ok []) => Err (NoWorkspaceSelection (format_filters filters filter_prods))
  | Some (Ok matched_projects) => Ok matched_projects
  end.

Definition run_in_member (config : SnpmConfig) (script : string) (args : list string) (any_ran : bool) (project : Project) : Eff W bool :=
  if negb (has_script project script) then mret any_ran else
  _ ← prepare_node_for_project config (p_root project);
  _ ← run_script project script args;
  mret true.

Definition run_workspace_scripts (config : SnpmConfig) (workspace : Workspace) (script : string)
    (filters filter_prods args : list string) : Eff W unit :=
  matched_projects ← lift (selected_projects workspace filters filter_prods);
  any_ran ← eff_fold (run_in_member config script args) false matched_projects;
  if any_ran : bool then mret tt else lift (Err (ScriptMissing script)).

Definition exec_workspace_command (config : SnpmConfig) (workspace : Workspace) (options : ExecOptions)
    (filters filter_prods : list string) : Eff W unit :=
  matched_projects ← lift (selected_projects workspace filters filter_prods);
  eff_fold (fun (_ : unit) project =>
    _ ← prepare_node_for_project config (p_root project);
    exec_command project options) tt matched_projects.
End workspace.

(** ** The words of the shell

    POSIX, 2.2 and 2.3, as far as a text can be read without running anything: a
    text with a parameter, a command substitution, a here-document, or with a
    quotation or a comment that is not closed has no tokens. *)

(** A word is its characters, each with whether it was quoted. *)
Definition word : Type := list (bool * ascii).
Definition literal (w : word) : string := foldr (fun c s => String c.2 s) ε w.
(** No pathname, tilde, brace or history expansion applies to it. *)
Definition inert (w : word) : bool := forallb (fun c => c.1 || negb (contains_char c.2 "*?[~{}!")) w.

Inductive Token := Word (w : word) | Operator (c : ascii).

Inductive ShState :=
| Between
| InWord (w : word)
| Single (w : word)
| Double (w : word)
| Escaped (w : word)
| DoubleEscaped (w : word)
| InComment.

Definition open_word (st : ShState) : word := match st with InWord w => w | _ => [] end.
Definition closed (st : ShState) : list Token := match st with InWord w => [Word w] | _ => [] end.

Definition backslash : ascii := "092".
Definition double_quote : ascii := "034".
Definition newline : ascii := "010".
Definition is_blank (c : ascii) : bool := Ascii.eqb c " " || Ascii.eqb c "009".
Definition is_operator (c : ascii) : bool := contains_char c "|&;>()" || Ascii.eqb c newline.
Definition substitutes (c : ascii) : bool := contains_char c "$`".

(** One character: the tokens it ends, and what comes next. *)
Definition sh_step (st : ShState) (c : ascii) : option (list Token * ShState) :=
  match st with
  | Single w => Some ([], if Ascii.eqb c "'" then InWord w else Single (w ++ [(true, c)]))
  | Double w =>
      if Ascii.eqb c double_quote then Some ([], InWord w)
      else if Ascii.eqb c backslash then Some ([], DoubleEscaped w)
      else if substitutes c then None else Some ([], Double (w ++ [(true, c)]))
  | DoubleEscaped w =>
      if Ascii.eqb c newline then None
      else if substitutes c || Ascii.eqb c double_quote || Ascii.eqb c backslash then Some ([], Double (w ++ [(true, c)]))
      else Some ([], Double (w ++ [(true, backslash); (true, c)]))
  | Escaped w => if Ascii.eqb c newline then None else Some ([], InWord (w ++ [(true, c)]))
  | InComment => Some (if Ascii.eqb c newline then ([Operator c], Between) else ([], InComment))
  | Between | InWord _ =>
      if Ascii.eqb c "'" then Some ([], Single (open_word st))
      else if Ascii.eqb c double_quote then Some ([], Double (open_word st))
      else if Ascii.eqb c backslash then Some ([], Escaped (open_word st))
      else if is_blank c then Some (closed st, Between)
      else if is_operator c then Some (closed st ++ [Operator c], Between)
      else if substitutes c || Ascii.eqb c "<" then None
      else match st with
           | Between => if Ascii.eqb c "#" then Some ([], InComment) else Some ([], InWord [(false, c)])
           | _ => Some ([], InWord (open_word st ++ [(false, c)]))
           end
  end.

Fixpoint sh_go (st : ShState) (s : string) : option (list Token) :=
  match s with
  | ε => match st with Between | InWord _ => Some (closed st) | _ => None end
  | String c s => '(tokens, st) ← sh_step st c; rest ← sh_go st s; Some (tokens ++ rest)
  end.

Definition sh_tokens : string -> option (list Token) := sh_go Between.

(** What [quote_arg] makes of an argument. *)
Fixpoint chars_as (quoted : bool) (s : string) : word :=
  match s with ε => [] | String c s => (quoted, c) :: chars_as quoted s end.
Definition is_bare (arg : string) : bool := negb (is_empty arg) && all_chars is_safe_char arg.
Definition quoted_word (arg : string) : word := chars_as (negb (is_bare arg)) arg.

Lemma literal_chars quoted s : literal (chars_as quoted s) = s.
Proof. induction s as [|c s IH]; [done|]. exact (f_equal (String c) IH). Qed.
Lemma inert_cons quoted c w : inert ((quoted, c) :: w) = (quoted || negb (contains_char c "*?[~{}!")) && inert w.
Proof. done. Qed.
Lemma inert_quoted s : inert (chars_as true s) = true.
Proof. by induction s. Qed.

(** The characters that are safe mean nothing to the shell. *)
Lemma is_safe_char_inert c : is_safe_char c = true ->
  contains_char c "*?[~{}!" = false /\
  forall w, sh_step (InWord w) c = Some ([], InWord (w ++ [(false, c)])) /\ sh_step Between c = Some ([], InWord [(false, c)]).
Proof. destruct c as [[] [] [] [] [] [] [] []]; vm_compute; intros Hc; by try discriminate Hc. Qed.

Lemma inert_safe s : all_chars is_safe_char s = true -> inert (chars_as false s) = true.
Proof.
  induction s as [|c s IH]; [done|]. cbn [all_chars chars_as]. intros [Hc Hs]%andb_true_iff.
  destruct (is_safe_char_inert c Hc) as [Hi _]. rewrite inert_cons, Hi. by apply IH.
Qed.

Lemma sh_go_safe s : forall w, all_chars is_safe_char s = true -> sh_go (InWord w) s = Some [Word (w ++ chars_as false s)].
Proof.
  induction s as [|c s IH]; intros w; cbn [all_chars chars_as sh_go]; [by rewrite app_nil_r|].
  intros [Hc Hs]%andb_true_iff. destruct (is_safe_char_inert c Hc) as [_ Hstep]. destruct (Hstep w) as [-> _].
  cbn. rewrite IH by done. by rewrite <-(assoc_L (++)).
Qed.

Lemma sh_go_cons st c s st' : sh_step st c = Some ([], st') -> sh_go st (String c s) = sh_go st' s.
Proof. intros Hstep. cbn [sh_go]. rewrite Hstep. cbn. by destruct (sh_go st' s). Qed.

Lemma sh_go_single s : forall w, sh_go (Single w) (replace_by "'" "'\''" s +:+ "'") = Some [Word (w ++ chars_as true s)].
Proof.
  induction s as [|c s IH]; intros w; [cbn; by rewrite app_nil_r|]. cbn [chars_as].
  rewrite (cons_middle (true, c) w), (assoc_L (++)), <-IH. cbn [replace_by].
  destruct (Ascii.eqb_spec "'" c) as [<-|Hc].
  - change (("'\''" +:+ replace_by "'" "'\''" s) +:+ "'")
      with (String "'" (String "092" (String "'" (String "'" (replace_by "'" "'\''" s +:+ "'"))))).
    by do 4 (erewrite sh_go_cons by done).
  - change ((chr c +:+ replace_by "'" "'\''" s) +:+ "'") with (String c (replace_by "'" "'\''" s +:+ "'")).
    apply sh_go_cons. cbn. by destruct (Ascii.eqb_spec c "'").
Qed.

Lemma quote_arg_token arg : sh_tokens (quote_arg arg) = Some [Word (quoted_word arg)].
Proof.
  unfold quote_arg, quoted_word, sh_tokens. fold (is_bare arg). destruct (is_bare arg) eqn:Hbare.
  - apply andb_true_iff in Hbare as [Hne Hs]. destruct arg as [|c arg]; [done|]. cbn in Hs. apply andb_true_iff in Hs as [Hc Hs].
    destruct (is_safe_char_inert c Hc) as [_ Hstep]. destruct (Hstep []) as [_ Hstep']. rewrite (sh_go_cons _ _ _ _ Hstep'). cbn.
    by rewrite sh_go_safe.
  - change ("'" +:+ replace_by "'" "'\''" arg +:+ "'") with (String "'" (replace_by "'" "'\''" arg +:+ "'")).
    erewrite sh_go_cons by done. apply (sh_go_single arg []).
Qed.

Lemma quoted_word_inert arg : inert (quoted_word arg) = true.
Proof.
  unfold quoted_word. destruct (is_bare arg) eqn:Hbare; [|apply inert_quoted].
  apply inert_safe. by apply andb_true_iff in Hbare as [_ ?].
Qed.

(** A blank closes what is before it. *)
Lemma sh_go_blank s : forall st toks t, sh_go st s = Some toks -> sh_go st (s +:+ " " +:+ t) = (fun rest => toks ++ rest) <$> sh_go Between t.
Proof.
  induction s as [|c s IH]; intros st toks t.
  - change (ε +:+ " " +:+ t) with (String " " t). assert (Hblank : forall st, st = Between \/ (exists w, st = InWord w) ->
      sh_step st " " = Some (closed st, Between)) by (intros st' [->|[w ->]]; done).
    destruct st; try done; intros [= <-]; cbn [sh_go];
      rewrite Hblank by eauto; cbn; by destruct (sh_go Between t).
  - change (String c s +:+ " " +:+ t) with (String c (s +:+ " " +:+ t)). cbn [sh_go]. destruct (sh_step st c) as [[tokens st']|]; [|done]. cbn. destruct (sh_go st' s) as [rest|] eqn:E; [|done].
    intros [= <-]. rewrite (IH _ _ t E). destruct (sh_go Between t); [|done]. cbn. by rewrite (assoc_L (++)).
Qed.

Lemma join_args_tokens args : args <> [] -> sh_tokens (join_args args) = Some (Word <$> (quoted_word <$> args)).
Proof.
  induction args as [|arg [|arg' args] IH]; intros Hne; [done|apply quote_arg_token|].
  change (join_args _) with (quote_arg arg +:+ " " +:+ join_args (arg' :: args)).
  unfold sh_tokens. erewrite sh_go_blank by apply quote_arg_token.
  change (sh_go Between) with sh_tokens. by rewrite IH.
Qed.


(** ** What a run starts *)
Section starts.
Context `{CommandLog W}.

(** Every command it starts satisfies [P]. *)
Definition starts (P : Command -> Prop) {A} (m : Eff W A) : Prop := forall w r w', m w = (r, w') ->
  exists cs, commands w' = commands w ++ cs /\ Forall P cs.

Lemma starts_silent P {A} (m : Eff W A) : keeps same_log m -> starts P m.
Proof. intros Hm w r w' Hr. exists []. rewrite app_nil_r. split; [by eapply Hm|done]. Qed.
Lemma starts_command (P : Command -> Prop) c : P c -> starts P (eff_of (run_command c)).
Proof.
  intros Hc w r w'. unfold eff_of. destruct (run_command c w) as [status w1] eqn:E. intros [= <- <-].
  exists [c]. split; [by rewrite <-log_run, E|by constructor].
Qed.
Lemma starts_bind P {A B} (m : Eff W A) (k : A -> Eff W B) : starts P m -> (forall a, starts P (k a)) -> starts P (m ≫= k).
Proof.
  intros Hm Hk w r w' [(e & Hr & ->)|(a & w0 & Hr & Hr')]%eff_bind_inv; [by apply Hm in Hr|].
  apply Hm in Hr as (cs & Hcs & HP). apply Hk in Hr' as (cs' & Hcs' & HP'). exists (cs ++ cs').
  rewrite Hcs', Hcs, (assoc_L (++)). split; [done|by apply Forall_app].
Qed.
Lemma starts_world P {B} (k : W -> Eff W B) : (forall w, starts P (k w)) -> starts P (world ≫= k).
Proof. intros Hk. by apply starts_bind; [apply starts_silent; keep|]. Qed.
Lemma starts_lift P {A B} (r : Result A) (k : A -> Eff W B) : (forall a, r = Ok a -> starts P (k a)) -> starts P (lift r ≫= k).
Proof. intros Hk w res w'. destruct r as [a|e]; cbn; [by apply Hk|]. intros [= <- <-]. exists []. by rewrite app_nil_r. Qed.
Lemma runs_lift l {A B} (r : Result A) (k : A -> Eff W B) : (forall a, r = Ok a -> runs l (k a)) -> runs l (lift r ≫= k).
Proof.
  intros Hk w res w'. destruct r as [a|e]; cbn; [by apply Hk|]. intros [= <- <-]. exists [].
  rewrite app_nil_r. split_and!; [done|apply prefix_nil|done].
Qed.
Lemma starts_fold P {A B} (f : B -> A -> Eff W B) l : (forall b a, a ∈ l -> starts P (f b a)) -> forall b, starts P (eff_fold f b l).
Proof.
  intros Hf. induction l as [|a l IH]; intros b; cbn [eff_fold]; [apply starts_silent; keep|].
  apply starts_bind; [by apply Hf; left|]. apply IH. intros b' a' Ha. by apply Hf; right.
Qed.

(** The commands that are started are the same, whichever way they are described. *)
Lemma runs_starts l P {A} (m : Eff W A) w r w' : runs l m -> starts P m -> m w = (r, w') ->
  exists cs, commands w' = commands w ++ cs /\ plain <$> cs `prefix_of` l /\ (is_ok r = true -> plain <$> cs = l) /\ Forall P cs.
Proof.
  intros Hr Hs Hm. destruct (Hr _ _ _ Hm) as (cs & Hcs & Hp & Hl). destruct (Hs _ _ _ Hm) as (cs' & Hcs' & HP).
  exists cs. rewrite Hcs in Hcs'. by apply (inj (app _)) in Hcs' as ->.
Qed.
End starts.

Section running.
Context `{SemverCrate} `{!VersionFields} `{Target} `{JsonCrate} `{DigestCrates} `{NodeIndexJson} `{NodeArchives}
  `{RunWorld W} `{!NodeUnpack W} `{!CommandLog W}.

(** The scripts of a project that running one of them means. *)
Definition one_script (project : Project) (script : string) (args : list string) : list (string * string) :=
  match m_scripts (p_manifest project) !! script with Some base => [(p_root project, command_text base args)] | None => [] end.
Definition run_plan (project : Project) (script : string) (args : list string) : list (string * string) :=
  one_script project ("pre" +:+ script) [] ++ one_script project script args ++ one_script project ("post" +:+ script) [].

(** It runs in the project, with a [PATH] of the chosen Node, the project's
    launchers and the [PATH] there was, and hands the choice to what it starts. *)
Definition in_project (project : Project) (node_bin_dir : option string) (c : Command) : Prop :=
  cmd_dir c = p_root project /\
  exists node rest, head (cmd_env c) = Some ("PATH", join ":" (option_list node ++ bin_dir_of project :: rest)) /\
  (forall dir, node_bin_dir = Some dir -> node = Some dir /\ ("SNPM_NODE_BIN_OVERRIDE", dir) ∈ cmd_env c).

Lemma run_path_Ok w bin_dir script root node_bin_dir path : run_path w bin_dir script root node_bin_dir = Ok path ->
  exists node rest, path = join ":" (option_list node ++ bin_dir :: rest) /\ forall dir, node_bin_dir = Some dir -> node = Some dir.
Proof.
  unfold run_path. set (node := match node_bin_dir with Some _ => _ | None => _ end). unfold join_paths.
  set (parts := option_list node ++ _). destruct (existsb _ parts); [done|]. intros [= <-]. exists node. eexists. split; [done|].
  by intros dir ->.
Qed.

Lemma single_starts project script args node_bin_dir : starts (in_project project node_bin_dir) (run_single_script project script args node_bin_dir).
Proof.
  unfold run_single_script. apply starts_lift; intros base _. apply starts_world; intros w. apply starts_lift; intros path Hpath.
  apply starts_bind; [|intros; apply starts_silent; keep]. apply starts_command.
  destruct (run_path_Ok _ _ _ _ _ _ Hpath) as (node & rest & -> & Hnode). split; [done|]. exists node, rest. split; [done|].
  intros dir Hdir. split; [by apply Hnode|]. subst node_bin_dir. cbn [cmd_env].
  apply elem_of_cons. right. apply elem_of_app. right. by apply list_elem_of_singleton.
Qed.
Lemma single_runs project script args node_bin_dir : runs (one_script project script args) (run_single_script project script args node_bin_dir).
Proof.
  unfold run_single_script, one_script. apply runs_lift; intros base Hbase.
  destruct (m_scripts _ !! script) as [base'|]; [|done]. injection Hbase as ->.
  apply runs_bind_silent; [keep|intros w]. apply runs_lift; intros path _.
  apply runs_then_silent; [apply (runs_command {| cmd_dir := p_root project |})|]. intros status. keep.
Qed.

Lemma present_runs project script node_bin_dir : runs (one_script project script []) (run_if_present project script node_bin_dir).
Proof.
  unfold run_if_present, has_script. destruct (decide (is_Some (m_scripts (p_manifest project) !! script))) as [Hs|Hs].
  - rewrite bool_decide_true by done. apply single_runs.
  - rewrite bool_decide_false by done. unfold one_script. rewrite (proj2 (eq_None_not_Some _) Hs). apply runs_silent. keep.
Qed.
Lemma present_starts project script node_bin_dir : starts (in_project project node_bin_dir) (run_if_present project script node_bin_dir).
Proof. unfold run_if_present. case_match; [apply single_starts|]. apply starts_silent. keep. Qed.

Lemma script_runs project script args node_bin_dir : has_script project script = true ->
  runs (run_plan project script args) (run_script_with_node project script args node_bin_dir).
Proof.
  intros Hs. unfold run_script_with_node, run_plan. rewrite Hs. cbn [negb].
  apply runs_bind; [apply present_runs|intros _]. apply runs_bind; [apply single_runs|intros _]. apply present_runs.
Qed.
Lemma script_starts project script args node_bin_dir :
  starts (in_project project node_bin_dir) (run_script_with_node project script args node_bin_dir).
Proof.
  unfold run_script_with_node. case_match; [apply starts_silent; keep|].
  apply starts_bind; [apply present_starts|intros _]. apply starts_bind; [apply single_starts|intros _]. apply present_starts.
Qed.

(** Running a script starts the script before it, the script with the arguments and
    the script after it, in the directory of the project; all of them if it
    succeeds, and the first ones if one fails.  An explicit Node comes first in the
    [PATH] of each and is handed on. *)
Theorem run_script_with_node_spec project script args node_bin_dir w r w' :
  run_script_with_node project script args node_bin_dir w = (r, w') ->
  (has_script project script = false /\ r = Err (ScriptMissing script) /\ w' = w) \/
  (has_script project script = true /\ exists started, commands w' = commands w ++ started /\
    plain <$> started `prefix_of` run_plan project script args /\
    (is_ok r = true -> plain <$> started = run_plan project script args) /\
    Forall (in_project project node_bin_dir) started).
Proof.
  intros Hrun. destruct (has_script project script) eqn:Hs.
  - right. split; [done|]. by eapply runs_starts; [apply script_runs|apply script_starts|].
  - left. unfold run_script_with_node in Hrun. rewrite Hs in Hrun. by injection Hrun as <- <-.
Qed.
End running.

(** ** Downloading a Node starts nothing *)
Class NodeLog (W : Type) `{RunWorld W} `{!NodeUnpack W} `{!CommandLog W} := {
  log_node_client w : commands (node_client w).2 = commands w;
  log_node_get url w : commands (node_get url w).2 = commands w;
  log_node_unpack entry p w : commands (node_unpack entry p w).2 = commands w;
}.

Section prepare.
Context `{SemverCrate} `{!VersionFields} `{Target} `{JsonCrate} `{DigestCrates} `{NodeIndexJson} `{NodeArchives}
  `{NodeLog W} (config : SnpmConfig).

Lemma silent_node_client : keeps same_log node_client.
Proof. apply silent_eff. intros w. apply log_node_client. Qed.
Lemma silent_node_request url : keeps same_log (node_request url).
Proof.
  pose proof silent_node_client. unfold node_request. apply keeps_bind; [apply _|done|intros _].
  apply keeps_bind; [apply _|apply silent_eff_of; intros w; apply log_node_get|intros response]. keep.
Qed.
Hint Resolve silent_node_request silent_ensure_parent : effects.
Lemma silent_download url : keeps same_log (node_download url).
Proof. unfold node_download. keep. Qed.
Hint Resolve silent_download : effects.
Lemma silent_releases net : keeps same_log (load_releases config net).
Proof. unfold load_releases, fetch_index. keep. Qed.
Hint Resolve silent_releases : effects.
Lemma silent_resolve spec net : keeps same_log (resolve_spec config spec net).
Proof.
  unfold resolve_spec. generalize (S max_alias_depth) as fuel. intros fuel. revert spec.
  induction fuel as [|fuel IH]; intros spec; cbn; keep.
Qed.
Hint Resolve silent_resolve : effects.

Lemma silent_unpack_node entry target : keeps same_log (io_error (Archive target) (node_unpack entry target)).
Proof. apply silent_io_error. intros w. apply log_node_unpack. Qed.
Hint Resolve silent_unpack_node : effects.
Lemma silent_extract_tarball bytes destination : keeps same_log (extract_tarball bytes destination).
Proof. unfold extract_tarball, extract_tar_entry, create_symlink. keep. Qed.
Lemma silent_extract_zip bytes destination : keeps same_log (extract_zip bytes destination).
Proof. unfold extract_zip, extract_zip_entry. keep. Qed.
Lemma silent_remove_dir dir : keeps same_log (remove_dir_if_there dir).
Proof. unfold remove_dir_if_there. keep. Qed.
Lemma silent_checksum dir shasums asset url bytes : keeps same_log (verify_checksum dir shasums asset url bytes).
Proof. unfold verify_checksum, fetch_expected_checksum, discard. keep. Qed.
Hint Resolve silent_extract_tarball silent_extract_zip silent_remove_dir silent_checksum : effects.
Lemma silent_install version : keeps same_log (install_version config version).
Proof. unfold install_version, stage_version, discard. cbv zeta. keep. Qed.
Hint Resolve silent_install : effects.
Lemma silent_prepare root : keeps same_log (prepare_node_for_project config root).
Proof. unfold prepare_node_for_project, ensure_active_for_project. cbv zeta. keep. Qed.
End prepare.

(** ** A run in the members of a workspace *)
Section members.
Context `{SemverCrate} `{!VersionFields} `{Target} `{JsonCrate} `{DigestCrates} `{NodeIndexJson} `{NodeArchives}
  `{GlobCrate} `{GitProgram} `{NodeLog W} (config : SnpmConfig).

Definition members_plan (script : string) (args : list string) (projects : list Project) : list (string * string) :=
  concat ((fun project => if has_script project script then run_plan project script args else []) <$> projects).

Lemma members_run script args projects any_ran : runs (members_plan script args projects)
  (eff_fold (run_in_member config script args) any_ran projects).
Proof.
  apply runs_fold. intros ran project. unfold run_in_member. destruct (has_script project script) eqn:Hs; cbn [negb].
  - apply runs_bind_silent; [apply silent_prepare|intros _]. apply runs_then_silent; [by apply script_runs|]. intros. keep.
  - apply runs_silent. keep.
Qed.

Lemma members_ran script args projects any_ran w ran w' :
  eff_fold (run_in_member config script args) any_ran projects w = (Ok ran, w') ->
  ran = any_ran || existsb (fun project => has_script project script) projects.
Proof.
  revert any_ran w. induction projects as [|project projects IH]; intros any_ran w; cbn [eff_fold existsb].
  { intros [= <- _]. by rewrite orb_false_r. }
  intros [(e & _ & Hr)|(ran0 & w0 & Hr & Hrest)]%eff_bind_inv; [done|]. apply IH in Hrest as ->.
  unfold run_in_member in Hr. destruct (has_script project script); cbn [negb] in Hr.
  - apply eff_bind_inv in Hr as [(e & _ & Hr)|(? & w1 & _ & Hr)]; [done|].
    apply eff_bind_inv in Hr as [(e & _ & Hr)|(? & w2 & _ & Hr)]; [done|]. injection Hr as <- _. by rewrite orb_true_r.
  - by injection Hr as <- _.
Qed.

(** Only scripts of the members that are selected run, a member after the other, and
    no member after the first failure; if no member has the script it is missing. *)
Theorem run_workspace_scripts_spec workspace script filters filter_prods args w r w' :
  run_workspace_scripts config workspace script filters filter_prods args w = (r, w') ->
  match selected_projects workspace filters filter_prods with
  | Err e => r = Err e /\ w' = w
  | Ok projects => exists started, commands w' = commands w ++ started /\
      plain <$> started `prefix_of` members_plan script args projects /\
      (is_ok r = true -> plain <$> started = members_plan script args projects /\
        exists project, project ∈ projects /\ has_script project script = true)
  end.
Proof.
  unfold run_workspace_scripts. destruct (selected_projects workspace filters filter_prods) as [projects|e].
  2: { cbn. by intros [= <- <-]. }
  intros Hrun. change ((x ← eff_fold (run_in_member config script args) false projects;
    (fun any_ran : bool => if any_ran then mret tt else lift (Err (ScriptMissing script))) x) w = (r, w')) in Hrun.
  assert (Hplan := Hrun). eapply (runs_then_silent _ _ _ (members_run script args projects false)) in Hplan
    as (started & Hlog & Hp & Hl); [|intros; keep].
  exists started. split_and!; [done|done|]. intros Hok. split; [by apply Hl|].
  apply eff_bind_inv in Hrun as [(e & _ & ->)|(ran & w0 & Hfold & Hrun)]; [done|]. apply members_ran in Hfold. subst ran.
  destruct (existsb _ projects) eqn:He; [|by injection Hrun as <- _].
  apply existsb_exists in He as (project & Hin%list_elem_of_In & Hs). by exists project.
Qed.
End members.

(** ** Scripts with arguments *)
Module RunDemo.
Import LifecycleDemo.
#[local] Existing Instance NodeDemo.linux.
#[local] Existing Instance NodeDemo.digests.
#[local] Existing Instance NodeDemo.fields.
#[local] Existing Instance NodeDemo.lines_index.
#[local] Existing Instance NodeDemo.one_binary.
#[local] Existing Instance LifecycleDemo.manifests.
#[local] Instance plain_glob : GlobCrate := {| glob_pattern := string; glob_new := Some; glob_matches := String.eqb |}.
#[local] Instance no_git : GitProgram := {| git_diff_name_only _ _ := Err "not found" |}.
#[local] Instance unpacks : NodeUnpack World := fun _ _ => nothing.
#[local] Instance running (failing : string) : RunWorld World := {|
  rw_lifecycle := lifecycle failing; run_process _ w := (Ok (true, Some 0%Z), w) |}.
#[local] Instance run_log failing : @CommandLog World (@rw_lifecycle World (running failing)).
Proof. exact (log failing). Defined.
#[local] Instance node_log failing : @NodeLog World (running failing) unpacks (run_log failing).
Proof. by split. Defined.

Example quoted : join_args ["--watch"; "src/my file.ts"; "it's"; ε; "$(whoami)"] = "--watch 'src/my file.ts' 'it'\''s' '' '$(whoami)'".
Proof. vm_refl. Qed.

(** The words of a script with an operator, and then those of the arguments. *)
Definition lint : string := "tsc -b && eslint 'src/*.ts'".
Example lint_tokens : (fun t => match t with Word w => literal w | Operator c => chr c end) <$> default [] (sh_tokens lint) =
  ["tsc"; "-b"; "&"; "&"; "eslint"; "src/*.ts"].
Proof. vm_refl. Qed.


(** What a comment hides: the arguments are part of it. *)
Example commented : sh_tokens "jest # all" = None /\ sh_tokens (command_text ("jest # all" +:+ chr newline) ["-t"]) =
  Some [Word (chars_as false "jest"); Operator newline; Word (chars_as false "-t")].
Proof. split; vm_refl. Qed.

Definition member (name : string) (scripts : list (string * string)) : Project := {|
  p_root := "/ws/" +:+ name; p_manifest_path := "/ws/" +:+ name +:+ "/package.json";
  p_manifest := {|
    m_name := Some name; m_version := Some "1.0.0"; m_package_manager := None; m_private := false;
    m_dependencies := ∅; m_dev_dependencies := ∅; m_optional_dependencies := ∅;
    m_scripts := list_to_map scripts; m_resolutions := ∅; m_overrides := ∅; m_files := None; m_bin := None;
    m_main := None; m_pnpm := None; m_snpm := None; m_workspaces := None; m_extra := ∅ |} |}.
Definition app : Project := member "app" [("test", "jest"); ("pretest", "tsc"); ("posttest", "rm -r out")].
Definition docs : Project := member "docs" [("build", "mkdocs")].
Definition core : Project := member "core" [("test", ε)].
Definition monorepo : Workspace :=
  {| w_root := "/ws"; w_projects := [app; docs; core]; w_config := w_config workspace |}.

Definition run_tests (failing : string) : Result unit * World :=
  run_workspace_scripts (H8 := running failing) config monorepo "test" [] [] ["-t"; "a b"] [].

Example tested : run_tests "none" = (Ok tt, (run_tests "none").2) /\
  plain <$> (run_tests "none").2 = [("/ws/app", "tsc"); ("/ws/app", "jest -t 'a b'"); ("/ws/app", "rm -r out"); ("/ws/core", "-t 'a b'")].
Proof. split; vm_refl. Qed.
Example test_failed : (run_tests "jest -t 'a b'").1 = Err (ScriptFailed "test" 2%Z) /\
  plain <$> (run_tests "jest -t 'a b'").2 = [("/ws/app", "tsc"); ("/ws/app", "jest -t 'a b'")].
Proof. split; vm_refl. Qed.

Lemma run_workspace_scripts_spec_witness :
  exists projects, selected_projects monorepo [] [] = Ok projects /\ length projects = 3 /\
  exists started, (run_tests "none").2 = started /\ plain <$> started = members_plan "test" ["-t"; "a b"] projects.
Proof.
  exists [app; docs; core]. split_and!; [vm_refl|done|].
  destruct (run_workspace_scripts_spec (H8 := running "none") (H9 := node_log "none") config monorepo "test" [] [] ["-t"; "a b"] []
    (run_tests "none").1 (run_tests "none").2 (surjective_pairing (run_tests "none"))) as (started & Hlog & _ & Hall).
  exists started. split; [exact Hlog|]. by apply Hall; vm_compute.
Defined.

Definition run_app (node : option string) : Result unit * World :=
  run_script_with_node (H6 := running "none") app "test" [] node [].
Lemma run_script_with_node_spec_witness :
  has_script app "test" = true /\ exists started, (run_app (Some "/n/bin")).2 = started /\
    Forall (in_project app (Some "/n/bin")) started /\ length started = 3.
Proof.
  split; [vm_refl|].
  destruct (run_script_with_node_spec (H6 := running "none") (CommandLog0 := run_log "none") app "test" [] (Some "/n/bin") []
    (run_app (Some "/n/bin")).1 (run_app (Some "/n/bin")).2 (surjective_pairing (run_app (Some "/n/bin"))))
    as [(Hs & _)|(_ & started & Hlog & _ & Hall & Hp)]; [vm_compute in Hs; discriminate Hs|].
  exists started. split_and!; [exact Hlog|exact Hp|].
  rewrite <-(length_fmap plain), Hall by (vm_compute; reflexivity). vm_refl.
Defined.
End RunDemo.
