(* ===== verification/Rebuild.v ===== *)
(** * Running the scripts of what is linked again ([operations/rebuild.rs])

    [snpm rebuild] goes through the virtual store of a project or of a workspace and
    runs the install scripts of the packages it allows.  Messages are left out. *)
From S2P Require Import Prelude.
From S2P Require Import BTree.
From S2P Require Import Text.
From S2P Require Import Errors.
From S2P Require Import Types.
From S2P Require Import Paths.
From S2P Require Import Crates.
From S2P Require Import Peers.
From S2P Require Import Config.
From S2P Require Import Store.
From S2P Require Import Scripts.
From S2P Require Import Linker.
From S2P Require Import Residency.
From S2P Require Import World.
From S2P Require Import LinkFs.
From S2P Require Import Node.
From S2P Require Import NodeInstall.
From S2P Require Import StoreFs.
From S2P Require Import StoreTree.
From S2P Require Import StoreSafe.
From S2P Require Import SideEffects.
From S2P Require Import Lifecycle.
From S2P Require Import LifecycleSafe.
From S2P Require Import Run.

Definition install_script_names : list string := ["preinstall"; "install"; "postinstall"].

(** Its own policy, which is not [is_dep_script_allowed]. *)
Definition is_rebuild_allowed (config : SnpmConfig) (workspace : option Workspace) (name : string) : bool :=
  let workspace_only_built := match workspace with Some ws => wc_only_built_dependencies (w_config ws) | None => [] end in
  bool_decide (name ∈ c_allow_scripts config) || bool_decide ("*" ∈ c_allow_scripts config) || one_of name workspace_only_built.

Definition has_install_script (scripts : gmap string json) : bool :=
  existsb (fun key => bool_decide (is_Some (scripts !! key))) install_script_names.

(** The entries of a directory that can be read, none if it cannot. *)
Definition names_in (tree : FileTree) (dir : string) : list string :=
  match read_dir tree dir with Ok entries => entries.*1 | Err _ => [] end.

(** The packages in the [node_modules] of an entry; scoped ones are a level deeper. *)
Definition package_paths (tree : FileTree) (node_modules_dir : string) : list string :=
  name ← names_in tree node_modules_dir;
  let package_path := path_push node_modules_dir name in
  if negb (is_dir tree package_path) then []
  else if starts_with "@" name
  then filter (fun path => is_dir tree path = true) (path_push package_path <$> names_in tree package_path)
  else [package_path].

Section rebuild.
Context `{JsonCrate} `{LifecycleWorld W}.

Definition rebuild_script (working_directory name command : string) : Eff W unit :=
  status ← eff_of (run_command {| cmd_script := command; cmd_dir := working_directory; cmd_env := [] |});
  '(succeeded, code) ← lift (map_err (ScriptRun name) status);
  if succeeded : bool then mret tt else lift (Err (ScriptFailed name (default (-1)%Z code))).

(** The manifest of a package whose scripts are to run; what cannot be read is
    passed over. *)
Definition rebuild_scripts (config : SnpmConfig) (workspace : option Workspace) (tree : FileTree) (package_path : string)
    : option (gmap string json) :=
  let manifest_path := path_push package_path "package.json" in
  if negb (is_file tree manifest_path) then None else
  content ← result_ok (read_to_string tree manifest_path);
  manifest ← result_ok (json_from_str content);
  scripts ← package_scripts manifest;
  if is_rebuild_allowed config workspace (default ε (package_name manifest)) && has_install_script scripts
  then Some scripts else None.

Definition rebuild_package (config : SnpmConfig) (workspace : option Workspace) (rebuilt : N) (package_path : string) : Eff W N :=
  w ← world;
  match rebuild_scripts config workspace (view w) package_path with
  | None => mret rebuilt
  | Some scripts =>
      _ ← eff_fold (fun (_ : unit) script_name =>
        match scripts !! script_name ≫= as_str with
        | Some command => rebuild_script package_path script_name command
        | None => mret tt
        end) tt install_script_names;
      mret (rebuilt + 1)%N
  end.

Definition rebuild_entry (config : SnpmConfig) (workspace : option Workspace) (virtual_store : string) (rebuilt : N)
    (name : string) : Eff W N :=
  let entry_path := path_push virtual_store name in
  let node_modules_dir := path_push entry_path "node_modules" in
  w ← world;
  if negb (is_dir (view w) entry_path) || negb (is_dir (view w) node_modules_dir) then mret rebuilt else
  eff_fold (rebuild_package config workspace) rebuilt (package_paths (view w) node_modules_dir).

Definition virtual_store_of (workspace : option Workspace) (root : string) : string :=
  path_push (match workspace with Some ws => w_root ws | None => root end) ".snpm".

Definition rebuild (config : SnpmConfig) (workspace : option Workspace) (root : string) : Eff W N :=
  let virtual_store := virtual_store_of workspace root in
  w ← world;
  if negb (is_dir (view w) virtual_store) then mret 0%N else
  entries ← lift (map_err (ReadFile virtual_store) (read_dir (view w) virtual_store));
  eff_fold (rebuild_entry config workspace virtual_store) 0%N entries.*1.
End rebuild.

(** ** The policy *)
Section policy.
Context (config : SnpmConfig).

(** Where there is no workspace and no [*], what is rebuilt is what an installation
    builds. *)
Lemma rebuild_policy_agrees name : "*" ∉ c_allow_scripts config ->
  is_rebuild_allowed config None name = is_dep_script_allowed config None name.
Proof.
  intros Hstar. unfold is_rebuild_allowed, is_dep_script_allowed. rewrite (bool_decide_false ("*" ∈ _)), !orb_false_r by done.
  destruct (bool_decide_reflect (c_allow_scripts config = ∅)) as [He|He]; [|done]. cbn.
  apply bool_decide_false. rewrite He. apply not_elem_of_empty.
Qed.

(** What an installation blocks, since the workspace names what it builds, a rebuild
    runs. *)
Lemma rebuild_policy_differs ws name :
  wc_only_built_dependencies (w_config ws) <> [] -> name ∉ wc_only_built_dependencies (w_config ws) ->
  name ∈ c_allow_scripts config ->
  is_dep_script_allowed config (Some ws) name = false /\ is_rebuild_allowed config (Some ws) name = true.
Proof.
  intros Hne Hnot Hin. unfold is_rebuild_allowed, is_dep_script_allowed. rewrite (bool_decide_true (name ∈ _)) by done.
  split; [|done]. rewrite (bool_decide_false (_ = [])) by done. cbn. apply not_true_iff_false. unfold one_of.
  rewrite existsb_true. by intros (x & Hx & <-%String.eqb_eq).
Qed.
End policy.

(** ** What a rebuild starts *)
Section started.
Context `{JsonCrate} `{CommandLog W} (config : SnpmConfig) (workspace : option Workspace) (root : string).

(** A directory of a package in the virtual store. *)
Definition in_virtual_store (dir : string) : Prop :=
  exists entry name, let packages := path_push (path_push (virtual_store_of workspace root) entry) "node_modules" in
    dir = path_push packages name \/ exists scope, starts_with "@" scope = true /\ dir = path_push (path_push packages scope) name.

(** An install script of a package the policy allows, as its manifest has it. *)
Definition rebuilding (c : Command) : Prop :=
  in_virtual_store (cmd_dir c) /\ exists tree manifest scripts key,
    (content ← read_to_string tree (path_push (cmd_dir c) "package.json"); json_from_str content) = Ok manifest /\
    is_rebuild_allowed config workspace (default ε (package_name manifest)) = true /\
    package_scripts manifest = Some scripts /\ key ∈ install_script_names /\ scripts !! key = Some (JString (cmd_script c)).

Lemma rebuild_scripts_Some tree path scripts : rebuild_scripts config workspace tree path = Some scripts ->
  exists manifest, (content ← read_to_string tree (path_push path "package.json"); json_from_str content) = Ok manifest /\
    is_rebuild_allowed config workspace (default ε (package_name manifest)) = true /\ package_scripts manifest = Some scripts.
Proof.
  unfold rebuild_scripts. destruct (negb (is_file _ _)); [done|].
  destruct (read_to_string _ _) as [content|]; cbn; [|done]. destruct (json_from_str content) as [manifest|] eqn:Hm; cbn; [|done].
  destruct (package_scripts manifest) as [scripts'|] eqn:Hs; [|done]. cbn -[has_install_script].
  destruct (_ && _) eqn:Hc; [|done]. apply andb_true_iff in Hc as [Ha _]. intros [= <-]. by exists manifest.
Qed.

Lemma package_starts rebuilt path : in_virtual_store path -> starts rebuilding (rebuild_package config workspace rebuilt path).
Proof.
  intros Hpath. apply starts_world; intros w. destruct (rebuild_scripts _ _ _ _) as [scripts|] eqn:Hs; [|apply starts_silent; keep].
  apply rebuild_scripts_Some in Hs as (manifest & Hm & Ha & Hs).
  apply starts_bind; [|intros; apply starts_silent; keep]. apply starts_fold. intros _ key Hkey.
  destruct (scripts !! key) as [[]|] eqn:Hc; cbn; try (apply starts_silent; by keep).
  apply starts_bind; [|intros; apply starts_silent; keep]. apply starts_command. split; [done|].
  by exists (view w), manifest, scripts, key.
Qed.

Lemma package_paths_in tree entry path :
  path ∈ package_paths tree (path_push (path_push (virtual_store_of workspace root) entry) "node_modules") -> in_virtual_store path.
Proof.
  unfold package_paths. intros (name & Hin & _)%list_elem_of_bind. revert Hin. destruct (negb _); [by intros ?%not_elem_of_nil|].
  destruct (starts_with "@" name) eqn:Hscope.
  - intros [_ (inner & -> & _)%list_elem_of_fmap]%list_elem_of_filter. exists entry, inner. right. by exists name.
  - intros ->%list_elem_of_singleton. exists entry, name. by left.
Qed.

Lemma rebuild_starts : starts rebuilding (rebuild config workspace root).
Proof.
  apply starts_world; intros w. destruct (negb _); [apply starts_silent; keep|]. apply starts_lift; intros entries _.
  apply starts_fold. intros rebuilt entry _. apply starts_world; intros w'. destruct (_ || _); [apply starts_silent; keep|].
  apply starts_fold. intros rebuilt' path Hp. by eapply package_starts, package_paths_in.
Qed.

(** The commands a rebuild starts, whether it fails or not, are install scripts of
    packages that its policy allows, in their directories in the virtual store. *)
Theorem rebuild_runs_allowed_scripts w r w' : rebuild config workspace root w = (r, w') ->
  exists started, commands w' = commands w ++ started /\ Forall rebuilding started.
Proof. apply rebuild_starts. Qed.
End started.

(** ** A package that two others depend on *)
Module RebuildDemo.
Import LifecycleDemo.
#[local] Existing Instance LifecycleDemo.manifests.

Definition store_tree : list (string * list string) :=
  [("/p/.snpm", ["esbuild@1"; "core@1"; "evil@1"; "@s+x@1"]); ("/p/.snpm/esbuild@1", []); ("/p/.snpm/core@1", []);
   ("/p/.snpm/evil@1", []); ("/p/.snpm/@s+x@1", []);
   ("/p/.snpm/esbuild@1/node_modules", ["esbuild"; "core"]); ("/p/.snpm/core@1/node_modules", ["core"]);
   ("/p/.snpm/evil@1/node_modules", ["evil"]); ("/p/.snpm/@s+x@1/node_modules", ["@s"]);
   ("/p/.snpm/@s+x@1/node_modules/@s", ["x"]); ("/p/.snpm/@s+x@1/node_modules/@s/x", []);
   ("/p/.snpm/esbuild@1/node_modules/esbuild", []); ("/p/.snpm/esbuild@1/node_modules/core", []);
   ("/p/.snpm/core@1/node_modules/core", []); ("/p/.snpm/evil@1/node_modules/evil", [])].
Definition store_files : list (string * string) :=
  [("/p/.snpm/esbuild@1/node_modules/esbuild/package.json", "esbuild"); ("/p/.snpm/esbuild@1/node_modules/core/package.json", "core");
   ("/p/.snpm/core@1/node_modules/core/package.json", "core"); ("/p/.snpm/evil@1/node_modules/evil/package.json", "evil");
   ("/p/.snpm/@s+x@1/node_modules/@s/x/package.json", "broken")].
Definition store_stat (p : string) : result string Stat :=
  match find_in store_files p with Ok _ => Ok (WorldDemo.stat TFile) | Err _ => _ ← find_in store_tree p; Ok (WorldDemo.stat TDir) end.
Definition store_view : FileSystem := {|
  fs_lstat := store_stat; fs_stat := store_stat; fs_bytes := find_in store_files; fs_read_link _ := Err "not a link";
  fs_entries p := match find_in store_tree p with Ok names => Ok (map (fun name => Ok (name, Ok TDir)) names) | Err e => Err e end |}.
#[local] Instance store_fs : FsWorld World := {|
  view _ := store_view; world_disk _ := disk_with ∅; put_disk _ w := w;
  fs_create_dir_all _ := nothing; fs_remove_file _ := nothing; fs_remove_dir _ := nothing; fs_remove_dir_all _ := nothing;
  fs_rename _ _ := nothing; fs_symlink _ _ := nothing; fs_hard_link _ _ := nothing; fs_reflink _ _ := nothing;
  fs_copy _ _ := nothing; fs_mode _ _ := Ok 493%N; fs_set_mode _ _ := nothing; fs_device _ _ := Ok 0%N;
  error_not_found _ := true; error_already_exists _ := false; fs_depth _ _ := 4; process_id _ := 7%N;
  link_memory _ := fresh_memory None; put_link_memory _ w := w |}.
#[local] Instance store_node : NodeWorld World := {|
  node_fs := store_fs; node_env _ _ := None; system_now _ := 0%Z;
  node_client := mret tt; node_get _ w := (Err "offline", w); system_node _ := None |}.
#[local] Instance store_scripting : ScriptWorld World := {|
  sw_node := store_node; remote_client := mret tt; remote_get _ _ w := (Err "offline", w);
  remote_put _ _ _ w := (Err "offline", w); archive_unpack _ _ := nothing |}.
#[local] Instance store_lifecycle (failing : string) : LifecycleWorld World := {|
  lw_script := store_scripting; canonicalize_path _ p := Ok p;
  run_command c w := (Ok (negb (cmd_script c == failing), None), w ++ [c]);
  temp_dir prefix w := (Ok (path_push "/tmp" prefix), w); current_exe _ := None; init_cwd _ := None; env_config _ := config;
  available_parallelism _ := None; thread_pool _ := mret tt; directory_count _ := 15 |}.
#[local] Instance store_log failing : @CommandLog World (store_lifecycle failing).
Proof. refine {| commands w := w |}; done. Defined.

Definition rebuild_p (failing : string) : Result N * World :=
  rebuild (H0 := store_lifecycle failing) config (Some workspace) "/p" [].

(** The scripts of [core] run for each entry it is linked in. *)
Example built_twice : (rebuild_p "none").1 = Ok 3%N /\
  plain <$> (rebuild_p "none").2 =
    [("/p/.snpm/esbuild@1/node_modules/esbuild", "node install.js"); ("/p/.snpm/esbuild@1/node_modules/core", "./configure");
     ("/p/.snpm/esbuild@1/node_modules/core", "make"); ("/p/.snpm/core@1/node_modules/core", "./configure");
     ("/p/.snpm/core@1/node_modules/core", "make")].
Proof. split; vm_refl. Qed.
Example build_killed : (rebuild_p "./configure").1 = Err (ScriptFailed "preinstall" (-1)%Z).
Proof. vm_refl. Qed.

Lemma rebuild_runs_allowed_scripts_witness :
  exists started, (rebuild_p "none").2 = started /\ Forall (rebuilding config (Some workspace) "/p") started.
Proof.
  exact (rebuild_runs_allowed_scripts (H1 := store_log "none") config (Some workspace) "/p" []
    (rebuild_p "none").1 (rebuild_p "none").2 (surjective_pairing (rebuild_p "none"))).
Defined.
End RebuildDemo.
