(* ===== verification/AuditRequest.v ===== *)
(** * What an audit asks about ([operations/audit/{request,types}.rs])

    The walk over the packages of a lockfile below the roots that are audited, and
    the two things that are collected from it: the request for the registry and the
    index of the paths to vulnerable packages. *)
From S2P Require Import Prelude.
From S2P Require Import BTree.
From S2P Require Import Text.
From S2P Require Import Errors.
From S2P Require Import Types.

(** ** [types/] *)
Inductive Severity := Info | Low | Moderate | High | Critical.
Definition severity_rank (s : Severity) : nat :=
  match s with Info => 0 | Low => 1 | Moderate => 2 | High => 3 | Critical => 4 end.
Definition severity_str (s : Severity) : string :=
  match s with Info => "info" | Low => "low" | Moderate => "moderate" | High => "high" | Critical => "critical" end.

(** Only ASCII has these words as its lower case. *)
Definition severity_from_str (value : string) : result string Severity :=
  let lower := to_ascii_lowercase value in
  if lower == "info" then Ok Info
  else if lower == "low" then Ok Low
  else if lower == "moderate" then Ok Moderate
  else if lower == "high" then Ok High
  else if lower == "critical" then Ok Critical
  else Err ("invalid severity '" +:+ value +:+ "' (expected: info, low, moderate, high, critical)").

Record AuditOptions := {
  ao_audit_level : option Severity;
  ao_production_only : bool;
  ao_dev_only : bool;
  ao_packages : list string;
  ao_ignore_cves : gset string;
  ao_ignore_ghsas : gset string;
  ao_ignore_unfixable : bool;
}.

(** ** [request.rs] *)
Definition MAX_PATHS_PER_FINDING : nat := 100.

(** What the walk says about a package it comes to. *)
Record Visit := {
  vi_name : string;
  vi_version : string;
  vi_path : string;
  vi_dev : bool;
  vi_optional : bool;
}.

Section walk.
Context {T : Type} (lockfile : Lockfile) (visit : T -> Visit -> T).

(** The recursion is never deeper than there are packages ([walk_package_fuel]). *)
Fixpoint walk_package (fuel : nat) (is_dev is_optional : bool) (trail : list string) (in_trail : gset string) (st : T)
    (child : string * string) : T :=
  let '(label, package_key) := child in
  match fuel with
  | O => st
  | S fuel =>
      match l_packages lockfile !! package_key with
      | None => st
      | Some package =>
          if decide (package_key ∈ in_trail) then st else
          let trail := trail ++ [label] in
          let st := visit st {| vi_name := lp_name package; vi_version := lp_version package; vi_path := join ">" trail;
                                vi_dev := is_dev; vi_optional := is_optional |} in
          foldl (walk_package fuel is_dev is_optional trail ({[package_key]} ∪ in_trail)) st (btree_iter (lp_dependencies package))
      end
  end.

Definition walk_fuel : nat := S (size (l_packages lockfile)).

Definition root_key (alias : string) (root_dep : LockRootDependency) (version : string) : string :=
  default alias (ld_package root_dep) +:+ "@" +:+ version.

Definition walk_root (dev_root_names : gset string) (options : AuditOptions) (st : T) (entry : string * LockRootDependency) : T :=
  let '(alias, root_dep) := entry in
  let is_dev_root := bool_decide (alias ∈ dev_root_names) in
  if ao_production_only options && is_dev_root then st
  else if ao_dev_only options && negb is_dev_root then st
  else match ld_version root_dep with
       | None => st
       | Some version =>
           walk_package walk_fuel is_dev_root (ld_optional root_dep) [] ∅ st (alias, root_key alias root_dep version)
       end.

Definition walk_audited_packages (dev_root_names : gset string) (options : AuditOptions) (st : T) : T :=
  foldl (walk_root dev_root_names options) st (btree_iter (l_root lockfile)).
End walk.

Record AuditRequestData := { ar_packages : gmap string (list string); ar_total_packages : nat }.
Record PathInfo := { pi_paths : list string; pi_dev : bool; pi_optional : bool }.
Notation AuditPathIndex := (gmap string (gmap string PathInfo)).

Section request.
Context (lockfile : Lockfile) (dev_root_names : gset string) (options : AuditOptions).

Definition note_version (versions_by_name : gmap string (gset string)) (v : Visit) : gmap string (gset string) :=
  if negb (bool_decide (ao_packages options = [])) && negb (one_of (vi_name v) (ao_packages options)) then versions_by_name
  else <[vi_name v := {[vi_version v]} ∪ default ∅ (versions_by_name !! vi_name v)]> versions_by_name.

Definition versions_by_name : gmap string (gset string) :=
  walk_audited_packages lockfile note_version dev_root_names options ∅.

Definition build_audit_request : AuditRequestData := {|
  ar_packages := bset_iter <$> versions_by_name;
  ar_total_packages := sum_list_with size (btree_values versions_by_name) |}.

Definition note_path (info : PathInfo) (v : Visit) : PathInfo := {|
  pi_paths := if (MAX_PATHS_PER_FINDING <=? length (pi_paths info))%nat || one_of (vi_path v) (pi_paths info)
              then pi_paths info else pi_paths info ++ [vi_path v];
  pi_dev := pi_dev info && vi_dev v;
  pi_optional := pi_optional info && vi_optional v |}.

Definition index_visit (vulnerable_names : gset string) (paths : AuditPathIndex) (v : Visit) : AuditPathIndex :=
  if decide (vi_name v ∉ vulnerable_names) then paths else
  let by_version := default ∅ (paths !! vi_name v) in
  let info := default {| pi_paths := []; pi_dev := vi_dev v; pi_optional := vi_optional v |} (by_version !! vi_version v) in
  <[vi_name v := <[vi_version v := note_path info v]> by_version]> paths.

Definition build_audit_path_index (vulnerable_names : gset string) : AuditPathIndex :=
  if decide (vulnerable_names = ∅) then ∅
  else walk_audited_packages lockfile (index_visit vulnerable_names) dev_root_names options ∅.
End request.

(** ** The walk visits what can be reached *)
Section reach.
Context (lockfile : Lockfile).

(** A dependency of a package of the lockfile, under its label. *)
Definition depends (key label child : string) : Prop :=
  exists package, l_packages lockfile !! key = Some package /\ lp_dependencies package !! label = Some child.

(** A chain of labels from one package to another, through packages of the lockfile
    that are not in [off]. *)
Inductive chain (off : gset string) : string -> list string -> string -> Prop :=
| chain_here key : key ∉ off -> is_Some (l_packages lockfile !! key) -> chain off key [] key
| chain_step key label child labels last :
    key ∉ off -> depends key label child -> chain off child labels last -> chain off key (label :: labels) last.

Lemma chain_off off key labels last : chain off key labels last -> key ∉ off /\ is_Some (l_packages lockfile !! key) /\ is_Some (l_packages lockfile !! last).
Proof.
  induction 1 as [|key label child labels last Hoff (package & Hp & Hl) _ (_ & _ & IH)]; [done|]. split_and!; [done|by eexists|done].
Qed.
Lemma chain_mono off off' key labels last : off' ⊆ off -> chain off key labels last -> chain off' key labels last.
Proof. intros Hsub. induction 1; econstructor; try done; set_solver. Qed.

(** From where a chain last leaves a package. *)
Lemma chain_leave off key x labels last : chain off x labels last -> key ∉ off ->
  (exists labels', chain ({[key]} ∪ off) x labels' last) \/ key = last \/
  exists label child labels', depends key label child /\ chain ({[key]} ∪ off) child labels' last.
Proof.
  intros Hc Hkey. induction Hc as [x Hoff Hx|x label child labels last Hoff Hd _ IH].
  - destruct (decide (key = x)) as [->|Hne]; [by right; left|]. left. exists []. constructor; [set_solver|done].
  - destruct IH as [(labels' & Hc')|[->|Hr]]; [|by right; left|by right; right].
    destruct (decide (key = x)) as [->|Hne]; [right; right; by exists label, child, labels'|].
    left. exists (label :: labels'). econstructor; [set_solver|done|done].
Qed.

(** What the walk says: the visits in their order. *)
Definition visit_of (dev opt : bool) (trail : list string) (package : LockPackage) : Visit :=
  {| vi_name := lp_name package; vi_version := lp_version package; vi_path := join ">" trail; vi_dev := dev; vi_optional := opt |}.
Fixpoint visits (fuel : nat) (dev opt : bool) (trail : list string) (off : gset string) (child : string * string) : list Visit :=
  match fuel with
  | O => []
  | S fuel =>
      match l_packages lockfile !! child.2 with
      | None => []
      | Some package =>
          if decide (child.2 ∈ off) then [] else
          visit_of dev opt (trail ++ [child.1]) package
            :: (btree_iter (lp_dependencies package) ≫= visits fuel dev opt (trail ++ [child.1]) ({[child.2]} ∪ off))
      end
  end.

Lemma foldl_bind {A B T} (f : T -> A -> T) (g : T -> B -> T) (h : A -> list B) l : forall acc,
  (forall acc a, f acc a = foldl g acc (h a)) -> foldl f acc l = foldl g acc (l ≫= h).
Proof.
  induction l as [|a l IH]; intros acc Hf; [done|]. cbn. by rewrite foldl_app, Hf, IH.
Qed.

Lemma walk_visits {T} (visit : T -> Visit -> T) dev opt fuel : forall trail off st child,
  walk_package lockfile visit fuel dev opt trail off st child = foldl visit st (visits fuel dev opt trail off child).
Proof.
  induction fuel as [|fuel IH]; intros trail off st [label key]; cbn; [done|].
  destruct (l_packages lockfile !! key) as [package|]; [|done]. case_decide; [done|]. cbn.
  apply foldl_bind. intros acc child. apply IH.
Qed.

Definition remaining (off : gset string) : nat := size (dom (l_packages lockfile) ∖ off).
Lemma remaining_less key off : is_Some (l_packages lockfile !! key) -> key ∉ off -> remaining ({[key]} ∪ off) < remaining off.
Proof.
  intros Hkey%elem_of_dom Hoff. unfold remaining. apply subset_size. set_solver.
Qed.

(** The fuel is enough: more of it changes nothing. *)
Lemma visits_fuel dev opt fuel : forall fuel' trail off child, remaining off < fuel -> remaining off < fuel' ->
  visits fuel dev opt trail off child = visits fuel' dev opt trail off child.
Proof.
  induction fuel as [|fuel IH]; intros [|fuel'] trail off [label key] Hf Hf'; [lia..|]. cbn.
  destruct (l_packages lockfile !! key) as [package|] eqn:Hp; [|done]. case_decide as Hoff; [done|]. f_equal.
  pose proof (remaining_less key off ltac:(by eexists) Hoff).
  induction (btree_iter (lp_dependencies package)) as [|child l IHl]; [done|]. cbn. f_equal; [apply IH; lia|done].
Qed.

Lemma visits_chain dev opt fuel : forall trail off label key v, v ∈ visits fuel dev opt trail off (label, key) ->
  exists labels last package, chain off key labels last /\ l_packages lockfile !! last = Some package /\
    v = visit_of dev opt (trail ++ label :: labels) package.
Proof.
  induction fuel as [|fuel IH]; intros trail off label key v; cbn; [by intros []%not_elem_of_nil|].
  destruct (l_packages lockfile !! key) as [package|] eqn:Hp; [|by intros []%not_elem_of_nil].
  case_decide as Hoff; [by intros []%not_elem_of_nil|]. intros [->|Hin]%elem_of_cons.
  - exists [], key, package. split_and!; [by constructor; [|eexists]|done|done].
  - apply list_elem_of_bind in Hin as ([label' child] & Hin & Hd%elem_of_btree_iter).
    apply IH in Hin as (labels & last & package' & Hc & Hl & ->). exists (label' :: labels), last, package'.
    rewrite <-(assoc_L (++)). split_and!; [|done|done]. eapply chain_step; [done|by exists package|].
    eapply chain_mono; [|done]. set_solver.
Qed.

Lemma chain_visited dev opt fuel : forall trail off label key labels last package, remaining off < fuel ->
  chain off key labels last -> l_packages lockfile !! last = Some package ->
  exists v, v ∈ visits fuel dev opt trail off (label, key) /\
    vi_name v = lp_name package /\ vi_version v = lp_version package /\ vi_dev v = dev /\ vi_optional v = opt.
Proof.
  induction fuel as [|fuel IH]; intros trail off label key labels last package Hfuel Hc Hlast; [lia|]. cbn.
  destruct (chain_off _ _ _ _ Hc) as (Hoff & [here Hhere] & _). rewrite Hhere. rewrite decide_False by done.
  pose proof (remaining_less key off ltac:(by eexists) Hoff).
  destruct (chain_leave off key key labels last Hc Hoff) as [(labels' & Hc')|[<-|(label' & child & labels' & (p & Hp & Hd) & Hc')]].
  - apply chain_off in Hc' as [[]%not_elem_of_union _]. set_solver.
  - rewrite Hhere in Hlast. injection Hlast as ->. eexists. split; [left|done].
  - rewrite Hhere in Hp. injection Hp as <-.
    destruct (IH (trail ++ [label]) ({[key]} ∪ off) label' child labels' last package ltac:(lia) Hc' Hlast) as (v & Hv & Hrest).
    exists v. split; [|done]. right. apply list_elem_of_bind. exists (label', child). split; [done|]. by apply elem_of_btree_iter.
Qed.
End reach.

(** ** What is asked for *)
Section audited.
Context (lockfile : Lockfile) (dev_root_names : gset string) (options : AuditOptions).

(** A root the options select, the package it stands for, and its flags. *)
Definition audited (alias key : string) (dev opt : bool) : Prop :=
  exists root_dep version, l_root lockfile !! alias = Some root_dep /\ ld_version root_dep = Some version /\
    key = root_key alias root_dep version /\ dev = bool_decide (alias ∈ dev_root_names) /\ opt = ld_optional root_dep /\
    (ao_production_only options = true -> dev = false) /\ (ao_dev_only options = true -> dev = true).

(** A package that a chain of dependencies leads to, from a root that is audited. *)
Definition reached (labels : list string) (package : LockPackage) (dev opt : bool) : Prop :=
  exists alias key below last, labels = alias :: below /\ audited alias key dev opt /\
    chain lockfile ∅ key below last /\ l_packages lockfile !! last = Some package.

Definition root_visits (entry : string * LockRootDependency) : list Visit :=
  let '(alias, root_dep) := entry in
  let is_dev_root := bool_decide (alias ∈ dev_root_names) in
  if ao_production_only options && is_dev_root then []
  else if ao_dev_only options && negb is_dev_root then []
  else match ld_version root_dep with
       | None => []
       | Some version => visits lockfile (walk_fuel lockfile) is_dev_root (ld_optional root_dep) [] ∅ (alias, root_key alias root_dep version)
       end.
Definition all_visits : list Visit := btree_iter (l_root lockfile) ≫= root_visits.

Lemma walk_all_visits {T} (visit : T -> Visit -> T) st :
  walk_audited_packages lockfile visit dev_root_names options st = foldl visit st all_visits.
Proof.
  apply foldl_bind. intros acc [alias root_dep]. unfold walk_root, root_visits.
  destruct (_ && _); [done|]. destruct (_ && _); [done|]. destruct (ld_version root_dep); [apply walk_visits|done].
Qed.

Lemma remaining_walk : remaining lockfile ∅ < walk_fuel lockfile.
Proof.
  unfold remaining, walk_fuel. apply Nat.lt_succ_r. rewrite <-size_dom. apply subseteq_size. set_solver.
Qed.

Lemma visit_reached v : v ∈ all_visits ->
  exists labels package, reached labels package (vi_dev v) (vi_optional v) /\ v = visit_of (vi_dev v) (vi_optional v) labels package.
Proof.
  intros ([alias root_dep] & Hv & Hroot%elem_of_btree_iter)%list_elem_of_bind. unfold root_visits in Hv.
  destruct (_ && _) eqn:Hprod; [by apply not_elem_of_nil in Hv|]. destruct (_ && negb _) eqn:Hdev; [by apply not_elem_of_nil in Hv|].
  destruct (ld_version root_dep) as [version|] eqn:Hversion; [|by apply not_elem_of_nil in Hv].
  apply visits_chain in Hv as (labels & last & package & Hc & Hl & ->). exists (alias :: labels), package. split; [|done].
  cbn [vi_dev vi_optional visit_of]. exists alias, (root_key alias root_dep version), labels, last. split_and!; [done| |done|done].
  exists root_dep, version. split_and!; try done.
  - intros Hp. by rewrite Hp in Hprod.
  - intros Hd. rewrite Hd in Hdev. by apply negb_false_iff.
Qed.

Lemma reached_visited labels package dev opt : reached labels package dev opt ->
  exists v, v ∈ all_visits /\ vi_name v = lp_name package /\ vi_version v = lp_version package /\ vi_dev v = dev /\ vi_optional v = opt.
Proof.
  intros (alias & key & below & last & -> & (root_dep & version & Hroot & Hversion & -> & -> & -> & Hprod & Hdev) & Hc & Hl).
  destruct (chain_visited lockfile (bool_decide (alias ∈ dev_root_names)) (ld_optional root_dep) (walk_fuel lockfile) [] ∅ alias _ _ _ _
    remaining_walk Hc Hl) as (v & Hv & Hrest).
  exists v. split; [|done]. apply list_elem_of_bind. exists (alias, root_dep). split; [|by apply elem_of_btree_iter].
  unfold root_visits. rewrite Hversion.
  assert (ao_production_only options && bool_decide (alias ∈ dev_root_names) = false) as ->
    by (destruct (ao_production_only options); [by rewrite Hprod|done]).
  assert (ao_dev_only options && negb (bool_decide (alias ∈ dev_root_names)) = false) as ->
    by (destruct (ao_dev_only options); [by rewrite Hdev|done]). done.
Qed.

(** *** The request *)
Definition asked_about (name : string) : Prop := ao_packages options = [] \/ name ∈ ao_packages options.

Lemma asked_about_spec name :
  negb (bool_decide (ao_packages options = [])) && negb (one_of name (ao_packages options)) = false <-> asked_about name.
Proof.
  unfold asked_about, one_of. rewrite andb_false_iff, !negb_false_iff, bool_decide_eq_true, existsb_true.
  setoid_rewrite String.eqb_eq. naive_solver.
Qed.

Lemma note_version_spec m v name version :
  version ∈ default ∅ (note_version options m v !! name) <->
  version ∈ default ∅ (m !! name) \/ asked_about name /\ vi_name v = name /\ vi_version v = version.
Proof.
  unfold note_version. destruct (negb _ && negb _) eqn:Hf.
  - split; [by left|]. intros [?|(Ha & <- & _)]; [done|]. apply asked_about_spec in Ha. congruence.
  - apply asked_about_spec in Hf. destruct (decide (vi_name v = name)) as [<-|Hne].
    + rewrite lookup_insert_eq. cbn. rewrite elem_of_union, elem_of_singleton. naive_solver.
    + rewrite lookup_insert_ne by done. naive_solver.
Qed.

Lemma note_versions_spec l : forall m name version,
  version ∈ default ∅ (foldl (note_version options) m l !! name) <->
  version ∈ default ∅ (m !! name) \/ asked_about name /\ exists v, v ∈ l /\ vi_name v = name /\ vi_version v = version.
Proof.
  induction l as [|v l IH]; intros m name version; cbn [foldl].
  { split; [by left|]. by intros [?|(_ & v & []%not_elem_of_nil & _)]. }
  rewrite IH, note_version_spec. setoid_rewrite elem_of_cons. naive_solver.
Qed.

Lemma asked_version name version :
  version ∈ default ∅ (versions_by_name lockfile dev_root_names options !! name) <->
  asked_about name /\ exists labels package dev opt, reached labels package dev opt /\ lp_name package = name /\ lp_version package = version.
Proof.
  unfold versions_by_name. rewrite walk_all_visits, note_versions_spec, lookup_empty. cbn. split.
  - intros [[]%not_elem_of_empty|(Ha & v & Hv & <- & <-)]. split; [done|].
    apply visit_reached in Hv as (labels & package & Hr & ->). by exists labels, package, (vi_dev v), (vi_optional v).
  - intros (Ha & labels & package & dev & opt & Hr & <- & <-). right. split; [done|].
    apply reached_visited in Hr as (v & Hv & ? & ? & _). by exists v.
Qed.

Lemma sum_of_sizes (m : gmap string (gset string)) :
  sum_list_with size (btree_values m) = sum_list_with length (btree_values (bset_iter <$> m)).
Proof.
  unfold btree_values. rewrite !btree_iter_perm, map_to_list_fmap.
  induction (map_to_list m) as [|[name versions] l IH]; [done|]. cbn. f_equal; [|done].
  by rewrite bset_iter_perm.
Qed.

(** The request for the registry.  A version of a package is asked about exactly if
    it is a package of the lockfile that a chain of dependencies leads to from a root
    that is audited, and its name was asked for; versions are listed once, in order,
    and the total is the number of what is listed. *)
Theorem audit_request_spec name :
  (forall version, (exists versions, ar_packages (build_audit_request lockfile dev_root_names options) !! name = Some versions /\ version ∈ versions) <->
     asked_about name /\ exists labels package dev opt, reached labels package dev opt /\ lp_name package = name /\ lp_version package = version) /\
  (forall versions, ar_packages (build_audit_request lockfile dev_root_names options) !! name = Some versions ->
     NoDup versions /\ StronglySorted ord_le versions) /\
  ar_total_packages (build_audit_request lockfile dev_root_names options) =
    sum_list_with length (btree_values (ar_packages (build_audit_request lockfile dev_root_names options))).
Proof.
  cbn [ar_packages ar_total_packages build_audit_request]. split_and!.
  - intros version. rewrite <-asked_version, lookup_fmap. destruct (versions_by_name _ _ _ !! name) as [set|]; cbn.
    + rewrite <-elem_of_bset_iter. naive_solver.
    + split; [by intros (? & ? & _)|by intros []%not_elem_of_empty].
  - intros versions. rewrite lookup_fmap. destruct (versions_by_name _ _ _ !! name) as [set|]; [|done]. intros [= <-].
    split; [apply NoDup_bset_iter|apply bset_iter_sorted].
  - apply sum_of_sizes.
Qed.
(** *** The index of paths *)
Definition info_at (paths : AuditPathIndex) (name version : string) : option PathInfo :=
  by_version ← paths !! name; by_version !! version.
Definition about (vulnerable_names : gset string) (name version : string) (v : Visit) : Prop :=
  vi_name v = name /\ vi_version v = version /\ name ∈ vulnerable_names.
#[global] Instance about_dec vulnerable_names name version v : Decision (about vulnerable_names name version v).
Proof. unfold about. apply _. Defined.

Definition first_info (v : Visit) : PathInfo := {| pi_paths := []; pi_dev := vi_dev v; pi_optional := vi_optional v |}.
Definition note_paths (info : option PathInfo) (l : list Visit) : option PathInfo :=
  match info, l with
  | Some info, _ => Some (foldl note_path info l)
  | None, [] => None
  | None, v :: _ => Some (foldl note_path (first_info v) l)
  end.

Lemma index_visit_at vulnerable_names m v name version :
  info_at (index_visit vulnerable_names m v) name version =
  if decide (about vulnerable_names name version v) then note_paths (info_at m name version) [v] else info_at m name version.
Proof.
  unfold index_visit, info_at, about. destruct (decide (vi_name v ∉ vulnerable_names)) as [Hnot|Hin%dec_stable].
  { rewrite decide_False; [done|]. by intros (<- & _ & ?). }
  destruct (decide (vi_name v = name)) as [<-|Hname].
  - rewrite lookup_insert_eq. cbn. destruct (decide (vi_version v = version)) as [<-|Hversion].
    + rewrite lookup_insert_eq, decide_True by done. destruct (m !! vi_name v) as [by_version|]; cbn; [|done].
      by destruct (by_version !! vi_version v).
    + rewrite lookup_insert_ne by done. rewrite decide_False by (intros (_ & ? & _); done). by destruct (m !! vi_name v).
  - rewrite lookup_insert_ne by done. rewrite decide_False by (intros (? & _); done). done.
Qed.

Lemma index_visits_at vulnerable_names name version l : forall m,
  info_at (foldl (index_visit vulnerable_names) m l) name version =
  note_paths (info_at m name version) (filter (about vulnerable_names name version) l).
Proof.
  induction l as [|v l IH]; intros m; cbn [foldl]; [by destruct (info_at m name version)|].
  rewrite IH, index_visit_at, filter_cons. case_decide; [|done]. by destruct (info_at m name version).
Qed.

(** What the notes add up to. *)
Lemma note_path_flags l : forall info,
  pi_dev (foldl note_path info l) = pi_dev info && forallb vi_dev l /\
  pi_optional (foldl note_path info l) = pi_optional info && forallb vi_optional l.
Proof.
  induction l as [|v l IH]; intros info; cbn [foldl forallb]; [by rewrite !andb_true_r|].
  destruct (IH (note_path info v)) as [-> ->]. cbn [note_path pi_dev pi_optional]. by rewrite !andb_assoc.
Qed.

Lemma note_path_paths l : forall info, NoDup (pi_paths info) -> length (pi_paths info) <= MAX_PATHS_PER_FINDING ->
  let paths := pi_paths (foldl note_path info l) in
  NoDup paths /\ length paths <= MAX_PATHS_PER_FINDING /\ length (pi_paths info) <= length paths /\
  (l <> [] -> paths <> []) /\ forall path, path ∈ paths -> path ∈ pi_paths info \/ exists v, v ∈ l /\ vi_path v = path.
Proof.
  induction l as [|v l IH]; intros info Hnd Hlen; cbn [foldl]; [by split_and!; [| | | |left]|].
  assert (Hv : NoDup (pi_paths (note_path info v)) /\ length (pi_paths (note_path info v)) <= MAX_PATHS_PER_FINDING /\
    length (pi_paths info) <= length (pi_paths (note_path info v)) /\ 0 < length (pi_paths (note_path info v)) /\
    forall path, path ∈ pi_paths (note_path info v) -> path ∈ pi_paths info \/ vi_path v = path).
  { cbn [note_path pi_paths]. destruct (Nat.leb_spec MAX_PATHS_PER_FINDING (length (pi_paths info))) as [Hfull|Hroom]; cbn [orb].
    - unfold MAX_PATHS_PER_FINDING in *. split_and!; [done|done|lia|lia|by left].
    - destruct (one_of (vi_path v) (pi_paths info)) eqn:Hin.
      + split_and!; [done|done|lia| |by left]. destruct (pi_paths info); [done|cbn; lia].
      + rewrite length_app. cbn [length]. split_and!; [|lia|lia|lia|].
        * apply NoDup_app. split_and!; [done| |apply NoDup_singleton]. intros x Hx ->%list_elem_of_singleton.
          apply not_true_iff_false in Hin. apply Hin. unfold one_of. apply existsb_true. exists (vi_path v). split; [done|]. by apply String.eqb_eq.
        * intros path [?| ->%list_elem_of_singleton]%elem_of_app; [by left|by right]. }
  destruct Hv as (Hnd' & Hlen' & Hgrow & Hpos & Hfrom). destruct (IH _ Hnd' Hlen') as (H1 & H2 & H3 & _ & H5).
  split_and!; [done|done|lia| |].
  - intros _ Hnil. rewrite Hnil in H3. cbn [length] in H3. lia.
  - intros path [[?|<-]%Hfrom|(v' & ? & ?)]%H5; [by left|right; exists v; split; [left|done]|right; exists v'; split; [by right|done]].
Qed.

Lemma forallb_false_exists {A} (f : A -> bool) l : forallb f l = false <-> exists a, a ∈ l /\ f a = false.
Proof.
  rewrite <-not_true_iff_false, forallb_true. split.
  - induction l as [|a l IH]; intros Hn; [destruct Hn; by intros b []%not_elem_of_nil|]. destruct (f a) eqn:Ha; [|exists a; by split; [left|]].
    destruct IH as (b & Hb & Hfb); [|exists b; by split; [right|]]. intros Hl. apply Hn. by intros b [->|?]%elem_of_cons; [|apply Hl].
  - intros (a & Ha & Hf) Hall. apply Hall in Ha. congruence.
Qed.
Lemma flag_absorbed (flag : Visit -> bool) v l : flag v && forallb flag (v :: l) = forallb flag (v :: l).
Proof. cbn. by destruct (flag v). Qed.

(** Reached under this name and version, with these flags. *)
Definition installed (name version : string) (dev opt : bool) : Prop :=
  exists labels package, reached labels package dev opt /\ lp_name package = name /\ lp_version package = version.

Lemma installed_visits name version dev opt : installed name version dev opt <->
  exists v, v ∈ all_visits /\ vi_name v = name /\ vi_version v = version /\ vi_dev v = dev /\ vi_optional v = opt.
Proof.
  split.
  - intros (labels & package & (v & Hv & ? & ? & ? & ?)%reached_visited & <- & <-). by exists v.
  - intros (v & (labels & package & Hr & ->)%visit_reached & <- & <- & <- & <-). by exists labels, package.
Qed.

Lemma audit_index_entry vulnerable_names name version :
  match info_at (build_audit_path_index lockfile dev_root_names options vulnerable_names) name version with
  | None => name ∉ vulnerable_names \/ forall dev opt, ~ installed name version dev opt
  | Some info => name ∈ vulnerable_names /\
      (pi_dev info = false <-> exists opt, installed name version false opt) /\
      (pi_optional info = false <-> exists dev, installed name version dev false) /\
      NoDup (pi_paths info) /\ 0 < length (pi_paths info) <= MAX_PATHS_PER_FINDING /\
      forall path, path ∈ pi_paths info -> exists labels package dev opt, reached labels package dev opt /\
        lp_name package = name /\ lp_version package = version /\ path = join ">" labels
  end.
Proof.
  unfold build_audit_path_index. case_decide as Hempty; [left; set_solver|].
  rewrite walk_all_visits, index_visits_at. change (info_at ∅ name version) with (@None PathInfo).
  set (found := filter _ all_visits).
  assert (Hfound : forall v, v ∈ found <-> about vulnerable_names name version v /\ v ∈ all_visits) by (intros v; apply list_elem_of_filter).
  clearbody found. destruct found as [|v0 found]; cbn [note_paths].
  { destruct (decide (name ∈ vulnerable_names)) as [Hin|]; [|by left]. right. intros dev opt (v & Hv & Hn & Hver & _)%installed_visits.
    destruct (not_elem_of_nil v). by apply Hfound. }
  destruct (proj1 (Hfound v0) ltac:(by left)) as [(Hn0 & Hver0 & Hin) _].
  destruct (note_path_flags (v0 :: found) (first_info v0)) as [Hdev Hopt].
  destruct (note_path_paths (v0 :: found) (first_info v0)) as (Hnd & Hlen & _ & Hne & Hfrom); [apply NoDup_nil_2|unfold MAX_PATHS_PER_FINDING; cbn; lia|].
  set (info := foldl note_path (first_info v0) (v0 :: found)) in *. clearbody info. split_and!.
  - done.
  - rewrite Hdev. cbn [first_info pi_dev]. rewrite (flag_absorbed vi_dev). rewrite forallb_false_exists. setoid_rewrite Hfound.
    setoid_rewrite installed_visits. unfold about. naive_solver.
  - rewrite Hopt. cbn [first_info pi_optional]. rewrite (flag_absorbed vi_optional). rewrite forallb_false_exists. setoid_rewrite Hfound.
    setoid_rewrite installed_visits. unfold about. naive_solver.
  - done.
  - specialize (Hne ltac:(done)). destruct (pi_paths info); [done|cbn; lia].
  - done.
  - intros path [[]%not_elem_of_nil|(v & Hv & <-)]%Hfrom. apply Hfound in Hv as [(<- & <- & _) (labels & package & Hr & ->)%visit_reached].
    by exists labels, package, (vi_dev v), (vi_optional v).
Qed.

(** The index of vulnerable packages has an entry exactly for the versions that are
    installed below an audited root.  A version is a development dependency only if
    no other root leads to it, and optional only if every way to it is; at most a
    hundred paths are named, none of them twice, and each is a chain of dependencies
    from an audited root to the package. *)
Theorem audit_index_spec vulnerable_names name version :
  match info_at (build_audit_path_index lockfile dev_root_names options vulnerable_names) name version with
  | None => name ∉ vulnerable_names \/ forall dev opt, ~ installed name version dev opt
  | Some info => name ∈ vulnerable_names /\
      (pi_dev info = false <-> exists opt, installed name version false opt) /\
      (pi_optional info = false <-> exists dev, installed name version dev false) /\
      NoDup (pi_paths info) /\ 0 < length (pi_paths info) <= MAX_PATHS_PER_FINDING /\
      forall path, path ∈ pi_paths info -> exists labels package dev opt, reached labels package dev opt /\
        lp_name package = name /\ lp_version package = version /\ path = join ">" labels
  end.
Proof. apply audit_index_entry. Qed.
End audited.

(** ** A lockfile with a cycle *)
Module AuditDemo.
Definition locked (name version : string) (deps : list (string * string)) : string * LockPackage :=
  (name +:+ "@" +:+ version,
   {| lp_name := name; lp_version := version; lp_tarball := ε; lp_integrity := None; lp_dependencies := list_to_map deps;
      lp_peer_dependencies := ∅; lp_bundled_dependencies := None; lp_has_bin := false; lp_bin := None |}).
Definition root_dep (version : string) (optional : bool) : LockRootDependency :=
  {| ld_requested := "*"; ld_package := None; ld_version := Some version; ld_optional := optional |}.
Definition lockfile : Lockfile := {|
  l_version := 1;
  l_root := {["app" := root_dep "1.0.0" false; "jest" := root_dep "2.0.0" true]};
  l_packages := list_to_map [locked "app" "1.0.0" [("ms", "ms@1.0.0")]; locked "jest" "2.0.0" [("helper", "helper@1.0.0")];
                             locked "helper" "1.0.0" [("jest", "jest@2.0.0"); ("ms", "ms@1.0.0"); ("none", "none@9.9.9")];
                             locked "ms" "1.0.0" []; locked "ms" "2.0.0" []] |}.
Definition everything : AuditOptions := {|
  ao_audit_level := None; ao_production_only := false; ao_dev_only := false; ao_packages := []; ao_ignore_cves := ∅;
  ao_ignore_ghsas := ∅; ao_ignore_unfixable := false |}.
Definition production : AuditOptions := {|
  ao_audit_level := None; ao_production_only := true; ao_dev_only := false; ao_packages := []; ao_ignore_cves := ∅;
  ao_ignore_ghsas := ∅; ao_ignore_unfixable := false |}.

Example asked :
  btree_iter (ar_packages (build_audit_request lockfile {["jest"]} everything)) =
    [("app", ["1.0.0"]); ("helper", ["1.0.0"]); ("jest", ["2.0.0"]); ("ms", ["1.0.0"])] /\
  btree_iter (ar_packages (build_audit_request lockfile {["jest"]} production)) = [("app", ["1.0.0"]); ("ms", ["1.0.0"])].
Proof. split; vm_refl. Qed.

(** [ms] is under a production root, too. *)
Example paths_to_ms :
  info_at (build_audit_path_index lockfile {["jest"]} everything {["ms"]}) "ms" "1.0.0" =
    Some {| pi_paths := ["app>ms"; "jest>helper>ms"]; pi_dev := false; pi_optional := false |} /\
  info_at (build_audit_path_index lockfile {["jest"]} everything {["ms"]}) "ms" "2.0.0" = None.
Proof. split; vm_refl. Qed.
End AuditDemo.
