(* ===== verification/AuditReport.v ===== *)
(** * What an audit reports ([operations/audit/{filter,service,sarif}])

    The advisories a registry answers with, matched with the versions that are
    installed, filtered and counted, and the report in the SARIF format.  The
    parser of the answer is the interface [BulkJson]. *)
From S2P Require Import Prelude.
From S2P Require Import BTree.
From S2P Require Import Text.
From S2P Require Import Errors.
From S2P Require Import Types.
From S2P Require Import Paths.
From S2P Require Import Crates.
From S2P Require Import Semver.
From S2P Require Import Lockfile.
From S2P Require Import Config.
From S2P Require Import Scripts.
From S2P Require Import Linker.
From S2P Require Import World.
From S2P Require Import AuditRequest.

(** ** The answer of the registry *)
Inductive BulkCwe := CweOne (value : string) | CweMany (values : list string).
Record BulkAdvisory := {
  ba_id : N;
  ba_url : option string;
  ba_title : string;
  ba_severity : string;
  ba_vulnerable_versions : string;
  ba_cwe : option BulkCwe;
}.
Class BulkJson := { bulk_from_str : string -> result string (gmap string (list BulkAdvisory)) }.

(** ** [types/{wire,counts,results}.rs] *)
Record AuditFinding := {
  af_version : string;
  af_paths : list string;
  af_dev : bool;
  af_optional : bool;
  af_bundled : bool;
}.
Record AuditAdvisory := {
  aa_id : N;
  aa_created : option string;
  aa_updated : option string;
  aa_title : string;
  aa_module_name : string;
  aa_cves : list string;
  aa_vulnerable_versions : string;
  aa_patched_versions : string;
  aa_overview : string;
  aa_recommendation : string;
  aa_severity : Severity;
  aa_cwe : option string;
  aa_github_advisory_id : option string;
  aa_url : option string;
  aa_findings : list AuditFinding;
}.
Record VulnerabilityCounts := { vc_info : N; vc_low : N; vc_moderate : N; vc_high : N; vc_critical : N }.
Definition no_counts : VulnerabilityCounts := {| vc_info := 0; vc_low := 0; vc_moderate := 0; vc_high := 0; vc_critical := 0 |}.
Definition counts_total (self : VulnerabilityCounts) : N :=
  (vc_info self + vc_low self + vc_moderate self + vc_high self + vc_critical self)%N.
Definition above_threshold (self : VulnerabilityCounts) (threshold : Severity) : N :=
  (match threshold with
   | Info => counts_total self
   | Low => vc_low self + vc_moderate self + vc_high self + vc_critical self
   | Moderate => vc_moderate self + vc_high self + vc_critical self
   | High => vc_high self + vc_critical self
   | Critical => vc_critical self
   end)%N.
Record AuditResult := {
  re_advisories : list AuditAdvisory;
  re_counts : VulnerabilityCounts;
  re_total_packages : nat;
  re_project_name : string;
  re_workspace_member : option string;
}.

(** ** [service/audit.rs]: one advisory *)
Definition next_patch_version (version : string) : option string :=
  match split_char "." version with
  | [major; minor; patch] =>
      major ← parse_u64 major;
      minor ← parse_u64 minor;
      patch ← parse_u64 patch;
      (* a release does not check for overflow *)
      Some (show_N major +:+ "." +:+ show_N minor +:+ "." +:+ show_N ((patch + 1) mod (u64_max + 1)))
  | _ => None
  end.

(** [str::rsplit_once]: what is behind the last of a character. *)
Definition after_last (c : ascii) (s : string) : option string :=
  i ← rfind_char c s; Some (sdrop (S i) s).

Definition infer_patched_versions (vulnerable_versions : string) : option string :=
  tail ← after_last "<" (trim vulnerable_versions);
  let comparator := trim tail in
  match strip_prefix "=" comparator with
  | Some version =>
      let version := trim version in
      Some (match next_patch_version version with Some next => ">=" +:+ next | None => ">" +:+ version end)
  | None => if is_empty comparator then None else Some (">=" +:+ comparator)
  end.

Definition derive_github_advisory_id (url : string) : option string :=
  '(_, segment) ← list_find (fun segment => starts_with "ghsa-" (to_ascii_lowercase segment) = true) (split_char "/" url);
  if (String.length segment <=? 5)%nat then None else Some ("GHSA-" +:+ to_ascii_lowercase (sdrop 5 segment)).

Definition cwe_as_string (self : BulkCwe) : option string :=
  match self with
  | CweOne value => if is_empty value then None else Some value
  | CweMany [] => None
  | CweMany values => Some (join ", " values)
  end.

Definition is_unfixable (patched_versions : string) : bool :=
  is_empty patched_versions || (patched_versions == "<0.0.0") || (patched_versions == "No fix available").

Section advisories.
Context `{SemverCrate}.

Definition finding_of (range : Range.RangeSet) (entry : string * PathInfo) : option AuditFinding :=
  let '(version, info) := entry in
  match parse_version version with
  | Err _ => None
  | Ok parsed_version =>
      if negb (Range.matches range parsed_version) then None
      else Some {| af_version := version; af_paths := pi_paths info; af_dev := pi_dev info; af_optional := pi_optional info;
                   af_bundled := false |}
  end.
Definition build_findings (by_version : gmap string PathInfo) (vulnerable_versions : string) : list AuditFinding :=
  match Range.parse_internal vulnerable_versions with
  | Err _ => []
  | Ok range => omap (finding_of range) (btree_iter by_version)
  end.

Definition audit_advisory (module_name : string) (advisory : BulkAdvisory) (severity : Severity) (findings : list AuditFinding)
    : AuditAdvisory := {|
  aa_id := ba_id advisory; aa_created := None; aa_updated := None; aa_title := ba_title advisory; aa_module_name := module_name;
  aa_cves := []; aa_vulnerable_versions := ba_vulnerable_versions advisory;
  aa_patched_versions := default ε (infer_patched_versions (ba_vulnerable_versions advisory));
  aa_overview := ε; aa_recommendation := ε; aa_severity := severity; aa_cwe := ba_cwe advisory ≫= cwe_as_string;
  aa_github_advisory_id := ba_url advisory ≫= derive_github_advisory_id; aa_url := ba_url advisory; aa_findings := findings |}.

(** What becomes of one entry of the answer; nothing if its severity is unknown or it
    is about no version that is installed. *)
Definition advisory_of (path_index : AuditPathIndex) (module_name : string) (advisory : BulkAdvisory) : option AuditAdvisory :=
  by_version ← path_index !! module_name;
  severity ← result_ok (severity_from_str (ba_severity advisory));
  match build_findings by_version (ba_vulnerable_versions advisory) with
  | [] => None
  | findings => Some (audit_advisory module_name advisory severity findings)
  end.

Context `{HashIter}.

Definition add_advisory (path_index : AuditPathIndex) (advisories : gmap string AuditAdvisory) (e : string * BulkAdvisory)
    : gmap string AuditAdvisory :=
  match advisory_of path_index e.1 e.2 with
  | None => advisories
  | Some advisory => <[show_N (ba_id e.2) := advisory]> advisories
  end.
Definition bulk_entries (bulk_response : gmap string (list BulkAdvisory)) : list (string * BulkAdvisory) :=
  '(module_name, entries) ← hash_iter bulk_response; pair module_name <$> entries.
Definition build_audit_advisories (bulk_response : gmap string (list BulkAdvisory)) (path_index : AuditPathIndex)
    : gmap string AuditAdvisory :=
  foldl (add_advisory path_index) ∅ (bulk_entries bulk_response).
End advisories.

(** ** [filter.rs] *)
Definition matches_options (options : AuditOptions) (advisory : AuditAdvisory) : bool :=
  match ao_audit_level options with
  | Some threshold => negb (severity_rank (aa_severity advisory) <? severity_rank threshold)%nat
  | None => true
  end
  && negb (existsb (fun cve => bool_decide (cve ∈ ao_ignore_cves options)) (aa_cves advisory))
  && match aa_github_advisory_id advisory with
     | Some ghsa => negb (existsb (fun ignored => eq_ignore_ascii_case ignored ghsa) (elements (ao_ignore_ghsas options)))
     | None => true
     end
  && negb (ao_ignore_unfixable options && is_unfixable (aa_patched_versions advisory))
  && (bool_decide (ao_packages options = []) || one_of (aa_module_name advisory) (ao_packages options)).

(** The more severe first, then by name. *)
Definition advisory_le (left right : AuditAdvisory) : Prop :=
  severity_rank (aa_severity right) < severity_rank (aa_severity left) \/
  (severity_rank (aa_severity left) = severity_rank (aa_severity right) /\ ord_le (aa_module_name left) (aa_module_name right)).
#[global] Instance advisory_le_dec : RelDecision advisory_le.
Proof. intros left right. unfold advisory_le. apply _. Defined.

(** Equal ones come in the order of the hash map, which is any. *)
Definition filter_advisories `{HashIter} (advisories : gmap string AuditAdvisory) (options : AuditOptions) : list AuditAdvisory :=
  merge_sort advisory_le (filter (fun advisory => matches_options options advisory = true) (hash_iter advisories).*2).

Definition count_advisory (counts : VulnerabilityCounts) (advisory : AuditAdvisory) : VulnerabilityCounts :=
  let '{| vc_info := i; vc_low := l; vc_moderate := m; vc_high := h; vc_critical := c |} := counts in
  match aa_severity advisory with
  | Info => {| vc_info := i + 1; vc_low := l; vc_moderate := m; vc_high := h; vc_critical := c |}
  | Low => {| vc_info := i; vc_low := l + 1; vc_moderate := m; vc_high := h; vc_critical := c |}
  | Moderate => {| vc_info := i; vc_low := l; vc_moderate := m + 1; vc_high := h; vc_critical := c |}
  | High => {| vc_info := i; vc_low := l; vc_moderate := m; vc_high := h + 1; vc_critical := c |}
  | Critical => {| vc_info := i; vc_low := l; vc_moderate := m; vc_high := h; vc_critical := c + 1 |}
  end%N.
Definition calculate_counts (advisories : list AuditAdvisory) : VulnerabilityCounts := foldl count_advisory no_counts advisories.

(** ** [service/audit.rs] *)
Record AuditResponse := { hr_status : N; hr_status_text : string; hr_text : result string string }.

Class AuditWorld (W : Type) := {
  au_fs :: FsWorld W;
  audit_client : Eff W unit;
  (** a request with a body and, if there are any, credentials *)
  audit_post : string -> gmap string (list string) -> option string -> W -> result string AuditResponse * W;
}.

Definition audit_url (config : SnpmConfig) : string :=
  trim_end_matches "/" (c_default_registry config) +:+ "/-/npm/v1/security/advisories/bulk".

Definition workspace_dev_root_names (workspace : Workspace) : gset string :=
  list_to_set (w_projects workspace ≫= fun project => btree_keys (m_dev_dependencies (p_manifest project))).

Section service.
Context `{SemverCrate} `{LockCrates} `{HashIter} `{BulkJson} `{AuditWorld W}.

(** What is made of the answer. *)
Definition audit_result (lockfile : Lockfile) (project_name : string) (workspace_member : option string)
    (dev_root_names : gset string) (options : AuditOptions) (bulk_response : gmap string (list BulkAdvisory)) : AuditResult :=
  let vulnerable_names := dom bulk_response in
  let path_index := build_audit_path_index lockfile dev_root_names options vulnerable_names in
  let advisories := filter_advisories (build_audit_advisories bulk_response path_index) options in
  {| re_advisories := advisories; re_counts := calculate_counts advisories;
     re_total_packages := ar_total_packages (build_audit_request lockfile dev_root_names options);
     re_project_name := project_name; re_workspace_member := workspace_member |}.

Definition audit_lockfile (config : SnpmConfig) (lockfile : Lockfile) (project_name : string) (workspace_member : option string)
    (dev_root_names : gset string) (options : AuditOptions) : Eff W AuditResult :=
  _ ← audit_client;
  let request := build_audit_request lockfile dev_root_names options in
  let url := audit_url config in
  response ← eff_of (audit_post url (ar_packages request) (authorization_header_for_url config url));
  response ← lift (map_err (Http url) response);
  if (hr_status response =? 404)%N then lift (Err (AuditEndpointNotAvailable (trim_end_matches "/" (c_default_registry config)))) else
  let body := default ε (result_ok (hr_text response)) in
  if negb ((200 <=? hr_status response) && (hr_status response <? 300))%N
  then lift (Err (AuditFailed ("Registry returned " +:+ hr_status_text response +:+ ": " +:+ body))) else
  bulk_response ← lift (map_err (fun error => AuditFailed ("Registry returned invalid bulk audit response: " +:+ error)) (bulk_from_str body));
  mret (audit_result lockfile project_name workspace_member dev_root_names options bulk_response).

Definition read_audit_lockfile (fs : FileSystem) (path : string) : Result Lockfile :=
  if negb (path_exists fs path) then Err AuditLockfileRequired else read_with (fs_bytes fs) path.

Definition audit (config : SnpmConfig) (project : Project) (options : AuditOptions) : Eff W AuditResult :=
  w ← world;
  lockfile ← lift (read_audit_lockfile (view w) (path_push (p_root project) "snpm-lock.yaml"));
  audit_lockfile config lockfile (default "unknown" (m_name (p_manifest project))) None
    (list_to_set (btree_keys (m_dev_dependencies (p_manifest project)))) options.

Definition audit_workspace (config : SnpmConfig) (workspace : Workspace) (options : AuditOptions) : Eff W (list AuditResult) :=
  w ← world;
  lockfile ← lift (read_audit_lockfile (view w) (path_push (w_root workspace) "snpm-lock.yaml"));
  let workspace_name := default "workspace" (head (w_projects workspace) ≫= fun project => m_name (p_manifest project)) in
  result ← audit_lockfile config lockfile workspace_name (Some ".") (workspace_dev_root_names workspace) options;
  mret [result].
End service.

(** ** [service/fix.rs] *)
Record FixableVulnerability := { fv_package : string; fv_from_version : string; fv_to_version : string; fv_advisory_id : N; fv_severity : Severity }.
Record UnfixableVulnerability := { uv_package : string; uv_version : string; uv_advisory_id : N; uv_severity : Severity; uv_reason : string }.
Record FixResult := { fixable : list FixableVulnerability; unfixable : list UnfixableVulnerability }.

Definition fix_advisory (result : FixResult) (advisory : AuditAdvisory) : FixResult :=
  if is_unfixable (aa_patched_versions advisory)
  then {| fixable := fixable result;
          unfixable := unfixable result ++ ((fun finding => {|
            uv_package := aa_module_name advisory; uv_version := af_version finding; uv_advisory_id := aa_id advisory;
            uv_severity := aa_severity advisory; uv_reason := "No patched version available" |}) <$> aa_findings advisory) |}
  else {| fixable := fixable result ++ ((fun finding => {|
            fv_package := aa_module_name advisory; fv_from_version := af_version finding; fv_to_version := aa_patched_versions advisory;
            fv_advisory_id := aa_id advisory; fv_severity := aa_severity advisory |}) <$> aa_findings advisory);
          unfixable := unfixable result |}.
Definition fixes (advisories : list AuditAdvisory) : FixResult := foldl fix_advisory {| fixable := []; unfixable := [] |} advisories.

Definition audit_fix `{SemverCrate} `{LockCrates} `{HashIter} `{BulkJson} `{AuditWorld W} (config : SnpmConfig) (project : Project)
    (options : AuditOptions) : Eff W FixResult :=
  audit_result ← audit config project options; mret (fixes (re_advisories audit_result)).

(** ** [sarif/]

    Records with one field are left out: a message is its text, a location its URI. *)
Record SarifRule := {
  sr_id : string; sr_name : string; sr_short_description : string; sr_full_description : string; sr_help_uri : option string;
  sr_level : string;
}.
Record SarifResult := { sf_rule_id : string; sf_level : string; sf_message : string; sf_locations : list string }.
Record SarifReport := {
  sa_schema : string; sa_version : string; sa_driver_name : string; sa_driver_version : string; sa_information_uri : string;
  sa_rules : list SarifRule; sa_results : list SarifResult;
}.

Definition sarif_level (severity : Severity) : string :=
  match severity with Critical | High => "error" | Moderate => "warning" | Low | Info => "note" end.
Definition fix_text (patched_versions : string) : string :=
  if is_unfixable patched_versions then "no fix available" else patched_versions.
Definition rule_id (advisory : AuditAdvisory) : string := "SNPM-" +:+ show_N (aa_id advisory).

Definition sarif_rule (advisory : AuditAdvisory) : SarifRule := {|
  sr_id := rule_id advisory; sr_name := aa_title advisory;
  sr_short_description := aa_title advisory +:+ " in " +:+ aa_module_name advisory +:+ " (" +:+ severity_str (aa_severity advisory) +:+ ")";
  sr_full_description := aa_overview advisory; sr_help_uri := aa_url advisory; sr_level := sarif_level (aa_severity advisory) |}.
Definition sarif_result (advisory : AuditAdvisory) (finding : AuditFinding) (path : string) : SarifResult := {|
  sf_rule_id := rule_id advisory; sf_level := sarif_level (aa_severity advisory);
  sf_message := aa_module_name advisory +:+ " " +:+ af_version finding +:+ " has " +:+ severity_str (aa_severity advisory)
    +:+ " vulnerability: " +:+ aa_title advisory +:+ ". Fix: upgrade to " +:+ fix_text (aa_patched_versions advisory);
  sf_locations := ["package.json#" +:+ replace_char ">" "/" path] |}.
Definition to_sarif (self : AuditResult) (cargo_pkg_version : string) : SarifReport := {|
  sa_schema := "https://raw.githubusercontent.com/oasis-tcs/sarif-spec/master/Schemata/sarif-schema-2.1.0.json";
  sa_version := "2.1.0"; sa_driver_name := "snpm-audit"; sa_driver_version := cargo_pkg_version;
  sa_information_uri := "https://github.com/nicolo-ribaudo/snpm";
  sa_rules := sarif_rule <$> re_advisories self;
  sa_results := advisory ← re_advisories self; finding ← aa_findings advisory; path ← af_paths finding; [sarif_result advisory finding path] |}.

(** ** What is reported *)
Section reported.
Context `{SemverCrate} `{HashIter}.

Lemma show_N_inj m n : (m <= u64_max)%N -> (n <= u64_max)%N -> show_N m = show_N n -> m = n.
Proof. intros Hm Hn Heq. apply (f_equal parse_u64) in Heq. rewrite !parse_show_u64 in Heq by done. by injection Heq. Qed.

Lemma elem_of_bulk_entries bulk module_name advisory :
  (module_name, advisory) ∈ bulk_entries bulk <-> exists entries, bulk !! module_name = Some entries /\ advisory ∈ entries.
Proof.
  unfold bulk_entries. rewrite list_elem_of_bind. setoid_rewrite hash_iter_perm. split.
  - intros ([name entries] & (a & [= -> ->] & Ha)%list_elem_of_fmap & Hin%elem_of_map_to_list). by exists entries.
  - intros (entries & Hb & Ha). exists (module_name, entries). split; [by apply list_elem_of_fmap_2|by apply elem_of_map_to_list].
Qed.

(** Identifiers of advisories are distinct numbers of 64 bits. *)
Definition distinct_ids (bulk : gmap string (list BulkAdvisory)) : Prop :=
  NoDup ((fun e => ba_id e.2) <$> bulk_entries bulk) /\ Forall (fun e => (ba_id e.2 <= u64_max)%N) (bulk_entries bulk).

Lemma add_advisories_lookup index l : forall m key a,
  NoDup ((fun e => ba_id e.2) <$> l) -> Forall (fun e => (ba_id e.2 <= u64_max)%N) l ->
  (forall e, e ∈ l -> m !! show_N (ba_id e.2) = None) ->
  foldl (add_advisory index) m l !! key = Some a <->
  m !! key = Some a \/ exists e, e ∈ l /\ show_N (ba_id e.2) = key /\ advisory_of index e.1 e.2 = Some a.
Proof.
  induction l as [|e l IH]; intros m key a Hnd Hle Hm; cbn [foldl].
  { split; [by left|]. by intros [?|(e & []%not_elem_of_nil & _)]. }
  apply NoDup_cons in Hnd as [Hnot Hnd]. apply Forall_cons in Hle as [Hle0 Hle].
  assert (Hother : forall e', e' ∈ l -> show_N (ba_id e'.2) <> show_N (ba_id e.2)).
  { intros e' He' Heq. rewrite Forall_forall in Hle. apply show_N_inj in Heq; [|by apply Hle|done].
    apply Hnot. apply list_elem_of_fmap. by exists e'. }
  assert (Hm0 := Hm e ltac:(by left)). rewrite IH; [|done|done|].
  - unfold add_advisory. setoid_rewrite elem_of_cons. destruct (advisory_of index e.1 e.2) as [a0|] eqn:Ha; [|naive_solver].
    destruct (decide (show_N (ba_id e.2) = key)) as [<-|Hne].
    + rewrite lookup_insert_eq, Hm0. naive_solver.
    + rewrite lookup_insert_ne by done. naive_solver.
  - intros e' He'. unfold add_advisory. destruct (advisory_of index e.1 e.2); [rewrite lookup_insert_ne by (symmetry; by apply Hother)|];
      apply Hm; by right.
Qed.

Lemma elem_of_advisories index options bulk a : distinct_ids bulk ->
  a ∈ filter_advisories (build_audit_advisories bulk index) options <->
  matches_options options a = true /\
  exists module_name entries advisory, bulk !! module_name = Some entries /\ advisory ∈ entries /\ advisory_of index module_name advisory = Some a.
Proof.
  intros [Hnd Hle]. unfold filter_advisories. rewrite merge_sort_Permutation, list_elem_of_filter, list_elem_of_fmap.
  setoid_rewrite hash_iter_perm. f_equiv. split.
  - intros ([key a'] & -> & Hin%elem_of_map_to_list). cbn. apply add_advisories_lookup in Hin as [Hin|([m e] & Hin & _ & Ha)]; [done| |done|done|done].
    apply elem_of_bulk_entries in Hin as (entries & ? & ?). by exists m, entries, e.
  - intros (m & entries & e & Hb & He & Ha). exists (show_N (ba_id e), a). split; [done|]. apply elem_of_map_to_list.
    apply add_advisories_lookup; [done|done|done|]. right. exists (m, e). split_and!; [|done|done]. apply elem_of_bulk_entries. by exists entries.
Qed.

(** A version that parses and that the range of an advisory has. *)
Definition in_range (vulnerable_versions version : string) : Prop :=
  exists range parsed, Range.parse_internal vulnerable_versions = Ok range /\ parse_version version = Ok parsed /\ Range.matches range parsed = true.

Lemma in_range_true vulnerable_versions version :
  match Range.parse_internal vulnerable_versions, parse_version version with Ok range, Ok parsed => Range.matches range parsed | _, _ => false end = true ->
  in_range vulnerable_versions version.
Proof.
  unfold in_range. destruct (Range.parse_internal _) as [range|]; [|done]. destruct (parse_version _) as [parsed|]; [|done]. by exists range, parsed.
Qed.

Lemma elem_of_findings by_version vulnerable_versions f : f ∈ build_findings by_version vulnerable_versions <->
  exists info, by_version !! af_version f = Some info /\ in_range vulnerable_versions (af_version f) /\
    f = {| af_version := af_version f; af_paths := pi_paths info; af_dev := pi_dev info; af_optional := pi_optional info; af_bundled := false |}.
Proof.
  unfold build_findings, in_range. destruct (Range.parse_internal vulnerable_versions) as [range|].
  2: { split; [by intros []%not_elem_of_nil|]. by intros (? & _ & (? & ? & ? & _) & _). }
  rewrite list_elem_of_omap. split.
  - intros ([version info] & Hin%elem_of_btree_iter & Hf). cbn in Hf. destruct (parse_version version) as [parsed|] eqn:Hp; [|done].
    destruct (Range.matches range parsed) eqn:Hm; [|done]. injection Hf as <-. exists info. split_and!; [done| |done]. by exists range, parsed.
  - intros (info & Hl & (r & parsed & [= <-] & Hp & Hm) & Hf). exists (af_version f, info). split; [by apply elem_of_btree_iter|].
    cbn. rewrite Hp, Hm. cbn. by rewrite Hf.
Qed.

(** The part of an advisory the options look at has no findings in it. *)
Definition accepted (options : AuditOptions) (module_name : string) (advisory : BulkAdvisory) (severity : Severity) : Prop :=
  matches_options options (audit_advisory module_name advisory severity []) = true.

Lemma advisory_of_Some index module_name advisory a : advisory_of index module_name advisory = Some a <->
  exists by_version severity, index !! module_name = Some by_version /\ severity_from_str (ba_severity advisory) = Ok severity /\
    build_findings by_version (ba_vulnerable_versions advisory) <> [] /\
    a = audit_advisory module_name advisory severity (build_findings by_version (ba_vulnerable_versions advisory)).
Proof.
  unfold advisory_of. destruct (index !! module_name) as [by_version|]; cbn; [|naive_solver].
  destruct (severity_from_str (ba_severity advisory)) as [severity|]; cbn; [|naive_solver].
  destruct (build_findings by_version (ba_vulnerable_versions advisory)) as [|f fs] eqn:Hf; split.
  - done.
  - by intros (? & ? & [= <-] & [= <-] & [] & _).
  - intros [= <-]. exists by_version, severity. by rewrite Hf.
  - intros (? & ? & [= <-] & [= <-] & _ & ->). by rewrite Hf.
Qed.

Section result.
Context (lockfile : Lockfile) (dev_root_names : gset string) (options : AuditOptions) (bulk : gmap string (list BulkAdvisory)).
Let result (project : string) (member : option string) := audit_result lockfile project member dev_root_names options bulk.

Let index : AuditPathIndex := build_audit_path_index lockfile dev_root_names options (dom bulk).

Lemma index_installed module_name version info : info_at index module_name version = Some info ->
  exists dev opt, installed lockfile dev_root_names options module_name version dev opt.
Proof.
  intros Hinfo. pose proof (audit_index_entry lockfile dev_root_names options (dom bulk) module_name version) as Hspec.
  fold index in Hspec. rewrite Hinfo in Hspec. destruct Hspec as (_ & _ & _ & _ & [Hne _] & Hpaths).
  destruct (pi_paths info) as [|path paths]; [cbn in Hne; lia|].
  destruct (Hpaths path ltac:(by left)) as (labels & package & dev & opt & Hr & Hn & Hv & _).
  exists dev, opt. by exists labels, package.
Qed.
Lemma installed_indexed module_name version dev opt : module_name ∈ dom bulk -> installed lockfile dev_root_names options module_name version dev opt ->
  exists by_version info, index !! module_name = Some by_version /\ by_version !! version = Some info.
Proof.
  intros Hname Hinst. pose proof (audit_index_entry lockfile dev_root_names options (dom bulk) module_name version) as Hspec.
  fold index in Hspec. destruct (info_at index module_name version) as [info|] eqn:Hinfo.
  - unfold info_at in Hinfo. apply bind_Some in Hinfo as (by_version & ? & ?). by exists by_version, info.
  - destruct Hspec as [?|Hno]; [done|]. by destruct (Hno dev opt).
Qed.

End result.

(** No advisory has the name of a vulnerability, so that ignoring vulnerabilities by
    their names ignores none. *)
Definition with_cves (cves : gset string) (options : AuditOptions) : AuditOptions := {|
  ao_audit_level := ao_audit_level options; ao_production_only := ao_production_only options; ao_dev_only := ao_dev_only options;
  ao_packages := ao_packages options; ao_ignore_cves := cves; ao_ignore_ghsas := ao_ignore_ghsas options;
  ao_ignore_unfixable := ao_ignore_unfixable options |}.

Lemma advisories_have_no_cves index l : forall m, map_Forall (fun _ a => aa_cves a = []) m ->
  map_Forall (fun _ a => aa_cves a = []) (foldl (add_advisory index) m l).
Proof.
  induction l as [|e l IH]; intros m Hm; cbn [foldl]; [done|]. apply IH. unfold add_advisory.
  destruct (advisory_of index e.1 e.2) as [a|] eqn:Ha; [|done]. apply map_Forall_insert_2; [|done].
  apply advisory_of_Some in Ha as (? & ? & _ & _ & _ & ->). done.
Qed.

Lemma list_filter_ext_in {A} (f g : A -> bool) (l : list A) : (forall a, a ∈ l -> f a = g a) ->
  filter (fun a => f a = true) l = filter (fun a => g a = true) l.
Proof.
  induction l as [|a l IH]; intros Hfg; [done|]. rewrite !filter_cons, (Hfg a) by left. rewrite IH; [done|]. intros b Hb. apply Hfg. by right.
Qed.

(** The option to ignore vulnerabilities by their CVE has no effect. *)
Theorem ignored_cves_are_reported cves lockfile project member dev_root_names options bulk :
  audit_result lockfile project member dev_root_names (with_cves cves options) bulk =
  audit_result lockfile project member dev_root_names options bulk.
Proof.
  unfold audit_result. change (build_audit_path_index lockfile dev_root_names (with_cves cves options) (dom bulk))
    with (build_audit_path_index lockfile dev_root_names options (dom bulk)).
  change (build_audit_request lockfile dev_root_names (with_cves cves options)) with (build_audit_request lockfile dev_root_names options).
  set (index := build_audit_path_index _ _ _ _). cbv zeta.
  enough (filter_advisories (build_audit_advisories bulk index) (with_cves cves options) =
          filter_advisories (build_audit_advisories bulk index) options) as -> by done.
  unfold filter_advisories. f_equal. apply list_filter_ext_in. intros a ([key a'] & -> & Hin)%list_elem_of_fmap.
  rewrite hash_iter_perm in Hin. apply elem_of_map_to_list in Hin.
  assert (Hc : aa_cves a' = []).
  { pose proof (advisories_have_no_cves index (bulk_entries bulk) ∅ ltac:(apply map_Forall_empty)) as Hall. by apply (Hall key). }
  cbn. unfold matches_options. by rewrite Hc.
Qed.
End reported.

(** ** Counting, ordering, fixing *)
#[global] Instance advisory_le_total : Total advisory_le.
Proof.
  intros a b. unfold advisory_le. destruct (Nat.lt_trichotomy (severity_rank (aa_severity a)) (severity_rank (aa_severity b))) as [?|[He|?]];
    [by right; left| |by left; left].
  destruct (total ord_le (aa_module_name a) (aa_module_name b)); [left|right]; right; by split.
Qed.
#[global] Instance advisory_le_trans : Transitive advisory_le.
Proof.
  intros a b c. unfold advisory_le. intros [?|[? ?]] [?|[? ?]]; [left; lia..|]. right. split; [congruence|by etrans].
Qed.

Definition at_least (threshold : Severity) (a : AuditAdvisory) : bool := (severity_rank threshold <=? severity_rank (aa_severity a))%nat.

Lemma count_one counts a threshold :
  above_threshold (count_advisory counts a) threshold = (above_threshold counts threshold + if at_least threshold a then 1 else 0)%N.
Proof.
  destruct counts as [i lo m h c]. unfold count_advisory, at_least, above_threshold, counts_total.
  destruct (aa_severity a), threshold; cbn [severity_rank Nat.leb vc_info vc_low vc_moderate vc_high vc_critical]; lia.
Qed.

Lemma count_more l : forall counts threshold,
  above_threshold (foldl count_advisory counts l) threshold =
  (above_threshold counts threshold + N.of_nat (length (filter (fun a => at_least threshold a = true) l)))%N.
Proof.
  induction l as [|a l IH]; intros counts threshold; cbn [foldl]; [cbn; lia|]. rewrite IH, count_one, filter_cons.
  destruct (at_least threshold a); cbn [decide]; [rewrite decide_True by done|rewrite decide_False by done]; cbn [length]; lia.
Qed.

(** What a report counts at a level and above is the number of its advisories there,
    and the report has them in the order of their severity and then of the names. *)
Theorem report_counts `{SemverCrate} `{HashIter} lockfile project member dev_root_names options bulk threshold :
  let result := audit_result lockfile project member dev_root_names options bulk in
  above_threshold (re_counts result) threshold =
    N.of_nat (length (filter (fun a => at_least threshold a = true) (re_advisories result))) /\
  counts_total (re_counts result) = N.of_nat (length (re_advisories result)) /\
  StronglySorted advisory_le (re_advisories result) /\
  (match ao_audit_level options with Some level => Forall (fun a => at_least level a = true) (re_advisories result) | None => True end).
Proof.
  cbv zeta. unfold audit_result. cbn [re_counts re_advisories]. unfold calculate_counts. split_and!.
  - rewrite count_more. by destruct threshold.
  - set (l := filter_advisories _ _). clearbody l. pose proof (count_more l no_counts Info) as Hcount.
    assert (filter (fun a => at_least Info a = true) l = l) as Hall
      by (clear; induction l as [|a l IH]; [done|]; rewrite filter_cons, decide_True by done; by rewrite IH).
    by rewrite Hall in Hcount.
  - apply (StronglySorted_merge_sort advisory_le).
  - destruct (ao_audit_level options) as [level|] eqn:Hlevel; [|done]. unfold filter_advisories. rewrite merge_sort_Permutation.
    apply Forall_forall. intros a [Hm _]%list_elem_of_filter. unfold matches_options in Hm. rewrite Hlevel in Hm.
    unfold at_least. destruct (Nat.ltb_spec (severity_rank (aa_severity a)) (severity_rank level)) as [|Hle]; [done|]. by apply Nat.leb_le.
Qed.

(** Every finding of a report is either to be fixed or not to be fixed, and nothing
    is both; a version to upgrade to is given for what is fixable. *)
Lemma fixes_spec l : forall result,
  length (fixable (foldl fix_advisory result l)) + length (unfixable (foldl fix_advisory result l)) =
    length (fixable result) + length (unfixable result) + sum_list_with (fun a => length (aa_findings a)) l /\
  (Forall (fun f => is_unfixable (fv_to_version f) = false) (fixable result) ->
   Forall (fun f => is_unfixable (fv_to_version f) = false) (fixable (foldl fix_advisory result l))).
Proof.
  induction l as [|a l IH]; intros result; cbn [foldl sum_list_with]; [split; [lia|done]|].
  destruct (IH (fix_advisory result a)) as [-> Hall]. unfold fix_advisory in *.
  destruct (is_unfixable (aa_patched_versions a)) eqn:Hu; cbn [fixable unfixable] in *; rewrite length_app, length_fmap; split; try lia.
  - done.
  - intros Hr. apply Hall, Forall_app. split; [done|]. by apply Forall_fmap, Forall_true.
Qed.

(** The report in the SARIF format has one result for each path of each finding, and
    each of them names a rule of the report. *)
Theorem sarif_results self version :
  length (sa_results (to_sarif self version)) =
    sum_list_with (fun a => sum_list_with (fun f => length (af_paths f)) (aa_findings a)) (re_advisories self) /\
  Forall (fun r => sf_rule_id r ∈ sr_id <$> sa_rules (to_sarif self version)) (sa_results (to_sarif self version)).
Proof.
  cbn [sa_results sa_rules to_sarif]. split.
  - induction (re_advisories self) as [|a l IH]; [done|]. cbn. rewrite length_app, IH. f_equal.
    induction (aa_findings a) as [|f fs IHf]; [done|]. cbn. rewrite length_app, IHf. f_equal.
    induction (af_paths f) as [|path paths IHp]; [done|]. cbn. by rewrite IHp.
  - apply Forall_forall. intros r (a & (f & (path & ->%list_elem_of_singleton & _)%list_elem_of_bind & _)%list_elem_of_bind & Ha)%list_elem_of_bind.
    rewrite <-list_fmap_compose. by apply (list_elem_of_fmap_2 (sr_id ∘ sarif_rule) _ a).
Qed.

(** ** Advisories for the lockfile of [AuditDemo] *)
Module AuditReportDemo.
Import AuditDemo.
#[local] Existing Instance ScriptsDemo.sorted_iter.

Definition advisory (id : N) (severity vulnerable_versions : string) : BulkAdvisory := {|
  ba_id := id; ba_url := Some "https://github.com/advisories/GHSA-AbCd-1234-efgh"; ba_title := "bug"; ba_severity := severity;
  ba_vulnerable_versions := vulnerable_versions; ba_cwe := Some (CweMany ["CWE-79"; "CWE-89"]) |}.
Definition bulk : gmap string (list BulkAdvisory) :=
  {["ms" := [advisory 42 "HIGH" "<1.5.0"; advisory 43 "low" ">=2.0.0"; advisory 44 "unheard of" "*"]; "jest" := [advisory 45 "critical" "<=2.0.0"]]}.
Definition report (options : AuditOptions) : AuditResult := audit_result lockfile "app" None {["jest"]} options bulk.

Example reported :
  (fun a => (aa_id a, aa_module_name a, aa_patched_versions a, aa_github_advisory_id a)) <$> re_advisories (report everything) =
    [(45%N, "jest", ">=2.0.1", Some "GHSA-abcd-1234-efgh"); (42%N, "ms", ">=1.5.0", Some "GHSA-abcd-1234-efgh")] /\
  re_counts (report everything) = {| vc_info := 0; vc_low := 0; vc_moderate := 0; vc_high := 1; vc_critical := 1 |} /\
  (fun a => aa_id a) <$> re_advisories (report production) = [42%N] /\
  fixes (re_advisories (report production)) =
    {| fixable := [{| fv_package := "ms"; fv_from_version := "1.0.0"; fv_to_version := ">=1.5.0"; fv_advisory_id := 42; fv_severity := High |}];
       unfixable := [] |} /\
  length (sa_results (to_sarif (report everything) "0.1.0")) = 3.
Proof. split_and!; vm_refl. Qed.

Lemma bulk_ids : distinct_ids bulk.
Proof.
  assert (Hids : (fun e => ba_id e.2) <$> bulk_entries bulk = [45; 42; 43; 44]%N) by vm_refl. unfold distinct_ids. split.
  - rewrite Hids. apply (bool_decide_unpack (NoDup [45; 42; 43; 44]%N)). vm_compute. exact I.
  - apply (Forall_fmap (fun e => ba_id e.2) (fun id => id <= u64_max)%N). rewrite Hids. by repeat constructor.
Qed.


(** Two advisories with one identifier: which of them is reported is left to the order
    of a hash map. *)
Definition clashing : gmap string (list BulkAdvisory) := {["ms" := [advisory 42 "high" "*"]; "jest" := [advisory 42 "low" "*"]]}.
Example one_of_two_is_lost :
  (fun a => aa_module_name a) <$> re_advisories (audit_result lockfile "app" None ∅ everything clashing) = ["ms"].
Proof. vm_refl. Qed.

(** What is given as patched is vulnerable where a range has several parts. *)
Example patched_is_vulnerable :
  infer_patched_versions "<=1.2.3" = Some ">=1.2.4" /\ infer_patched_versions ">=1.0.0 <2.0.0" = Some ">=2.0.0" /\
  infer_patched_versions "<1.0.0 || >=2.0.0" = Some ">=1.0.0 || >=2.0.0" /\
  infer_patched_versions "<=18446744073709551615.0.18446744073709551615" = Some ">=18446744073709551615.0.0".
Proof. split_and!; vm_refl. Qed.
Lemma patched_in_range : in_range "<1.0.0 || >=2.0.0" "2.5.0" /\ in_range ">=1.0.0 || >=2.0.0" "2.5.0".
Proof. split; apply in_range_true; vm_refl. Qed.

(** A production dependency of one member that is a development dependency of another
    is left out of an audit of production. *)
Definition member (name : string) (dependencies dev_dependencies : list string) : Project :=
  {| p_root := "/w/" +:+ name; p_manifest_path := "/w/" +:+ name +:+ "/package.json"; p_manifest := LinkerDemo.manifest dependencies dev_dependencies [] |}.
Definition two_members : Workspace :=
  {| w_root := "/w"; w_projects := [member "site" ["app"] []; member "tests" [] ["app"]];
     w_config := {| wc_packages := []; wc_catalog := ∅; wc_catalogs := ∅; wc_only_built_dependencies := []; wc_ignored_built_dependencies := [];
                    wc_disable_global_virtual_store_for_packages := None; wc_hoisting := None |} |}.
Example production_is_left_out :
  btree_keys (ar_packages (build_audit_request lockfile (workspace_dev_root_names two_members) production)) = ["helper"; "jest"; "ms"].
Proof. vm_refl. Qed.
End AuditReportDemo.
