(* ===== verification/LinkStore.v ===== *)
(** * The links of an installation ([linker/])

    The virtual stores, the root of [node_modules], hoisting and launchers, over
    the file system of [World]: which entries are made, where the links point, and
    what is left when an operation fails.  Tasks that run in parallel are run in
    order: they write below different directories.  Those that are all awaited
    ([collect]) all run, the others ([try_for_each]) stop at a failure. *)
From S2P Require Import Prelude.
From S2P Require Import BTree.
From S2P Require Import Text.
From S2P Require Import Errors.
From S2P Require Import Types.
From S2P Require Import Paths.
From S2P Require Import Crates.
From S2P Require Import Peers.
From S2P Require Import Config.
From S2P Require Import Store.
From S2P Require Import Linker.
From S2P Require Import Sharing.
From S2P Require Import Residency.
From S2P Require Import Resolver.
From S2P Require Import World.
From S2P Require Import LinkFs.

(** Errors for what is not there, and the indexing [m[key]], which panics. *)
Definition graph_missing (id : PackageId) : SnpmError := GraphMissing (id_name id) (id_version id).
Definition store_missing (id : PackageId) : SnpmError := StoreMissing (id_name id) (id_version id).
Definition no_entry : string := "no entry found for key".
Definition index_path (paths : gmap PackageId string) (id : PackageId) : Result string :=
  ok_or (Internal no_entry) (paths !! id).

Section link_store.
Context `{SemverCrate} `{DigestCrates} `{MetadataJson} `{BinManifestJson} `{Bincode VirtualDependencyState} `{Target}.
Context `{!FsWorld W}.

(** ** [linker/fs/symlinks.rs], [workspace/linking/local.rs] *)
Definition remove_symlink (path : string) : Eff W unit :=
  removed ← io_try (fs_remove_file path);
  if removed : bool then mret tt else io_ignore (fs_remove_dir path).

(** An entry of a known type makes room; failures show when the link is made. *)
Definition remove_as (metadata : Stat) (path : string) : Eff W unit :=
  io_ignore (if decide (st_type metadata = TDir) then fs_remove_dir_all path else fs_remove_file path).
Definition remove_if_found (metadata : option Stat) (path : string) : Eff W unit :=
  match metadata with Some metadata => remove_as metadata path | None => mret tt end.

(** [symlink_dir_entry(target, dest).or_else(|_| copy_dir(target, dest))] *)
Definition symlink_or_copy (target dest : string) : Eff W unit :=
  linked ← io_try (fs_symlink target dest);
  if linked : bool then mret tt else copy_dir target dest.

Definition remove_existing_destination (destination : string) : Eff W unit :=
  w ← world;
  match fs_lstat (view w) destination with
  | Err error => if error_not_found error then mret tt else lift (Err (WriteFile destination error))
  | Ok metadata =>
      io_write destination
        (if decide (st_type metadata = TDir) then fs_remove_dir_all destination else fs_remove_file destination)
  end.

Definition replace_with_symlink (destination source : string) : Eff W unit :=
  _ ← ensure_parent_dir destination;
  _ ← remove_existing_destination destination;
  io_write destination (fs_symlink source destination).

(** ** [linker/virtual_store.rs]: one entry *)
Definition materialize_one_package (config : SnpmConfig) (store_paths : gmap PackageId string) (id : PackageId)
    (package_location : string) : Eff W unit :=
  w ← world;
  if virtual_package_ready (view w) package_location then mret tt else
  store_path ← lift (ok_or (store_missing id) (store_paths !! id));
  _ ← remove_if_found (result_ok (fs_lstat (view w) package_location)) package_location;
  let staging := staging_location_for (process_id w) package_location in
  w ← world;
  _ ← (if path_exists (view w) staging then io_ignore (fs_remove_dir_all staging) else mret tt);
  linked ← attempt (link_dir config store_path staging);
  match linked with
  | Err error => _ ← io_ignore (fs_remove_dir_all staging); lift (Err error)
  | Ok _ =>
      renamed ← eff_of (fs_rename staging package_location);
      match renamed with
      | Ok _ => mret tt
      | Err source =>
          _ ← io_ignore (fs_remove_dir_all staging);
          w ← world;
          if virtual_package_ready (view w) package_location then mret tt
          else lift (Err (WriteFile package_location source))
      end
  end.

Definition remove_dependency_state (package_location package_name : string) : Eff W unit :=
  match dependency_state_path package_location package_name with
  | Some path => io_ignore (fs_remove_file path)
  | None => mret tt
  end.

(** The link of one dependency in the [node_modules] of an entry. *)
Definition wire_dep (dep_locations : gmap PackageId string) (node_modules : string) (_ : unit)
    (e : string * PackageId) : Eff W unit :=
  let '(dep_name, dep_id) := e in
  dep_target ← lift (ok_or (graph_missing dep_id) (dep_locations !! dep_id));
  let dep_link := path_push node_modules dep_name in
  w ← world;
  let dep_metadata := result_ok (fs_lstat (view w) dep_link) in
  if match dep_metadata with Some metadata => bool_decide (st_type metadata = TSymlink) | None => false end
     && symlink_is_correct (view w) dep_link dep_target then mret tt else
  _ ← remove_if_found dep_metadata dep_link;
  _ ← ensure_parent_dir dep_link;
  symlink_or_copy dep_target dep_link.

Definition wire_dep_symlinks_into (package_location : string) (id : PackageId) (package : ResolvedPackage)
    (peers : option (gmap string PackageId)) (dep_locations : gmap PackageId string) : Eff W unit :=
  let wired := wired_map package peers in
  if decide (wired = ∅) then remove_dependency_state package_location (id_name id) else
  dependency_hash ← lift (dependency_state_hash wired dep_locations);
  w ← world;
  if dependency_state_matches (view w) package_location (id_name id) dependency_hash then mret tt else
  node_modules ← lift (ok_or (graph_missing id) (package_node_modules package_location (id_name id)));
  _ ← eff_fold (wire_dep dep_locations node_modules) tt (btree_iter wired);
  w ← world;
  state ← lift (write_dependency_state (view w) package_location (id_name id) dependency_hash);
  write_output state.

(** Failures to link launchers are only reported. *)
Definition link_dep_bin (dep_locations : gmap PackageId string) (graph : ResolutionGraph) (node_modules : string)
    (_ : unit) (e : string * PackageId) : Eff W unit :=
  match dep_locations !! e.2 with
  | None => mret tt
  | Some dep_target =>
      _ ← attempt (link_package_bins dep_target node_modules e.1
                     (package ← (g_packages graph !! e.2 : option ResolvedPackage); r_bin package));
      mret tt
  end.

Definition link_dep_bins (dep_locations : gmap PackageId string) (graph : ResolutionGraph) (_ : unit) (id : PackageId)
  : Eff W unit :=
  match dep_locations !! id, g_packages graph !! id with
  | Some package_location, Some package =>
      if decide (r_dependencies package = ∅) then mret tt else
      match package_node_modules package_location (id_name id) with
      | Some node_modules =>
          eff_fold (link_dep_bin dep_locations graph node_modules) tt (btree_iter (r_dependencies package))
      | None => mret tt
      end
  | _, _ => mret tt
  end.
Definition link_dep_bins_for_packages (dep_locations : gmap PackageId string) (graph : ResolutionGraph)
    (package_ids : list PackageId) : Eff W unit :=
  eff_fold (link_dep_bins dep_locations graph) tt package_ids.

(** ** The shared store, and the store of a project *)
Definition share_package (config : SnpmConfig) (graph : ResolutionGraph) (store_paths paths : gmap PackageId string)
    (id : PackageId) : Eff W unit :=
  package_location ← lift (index_path paths id);
  _ ← materialize_one_package config store_paths id package_location;
  package ← lift (ok_or (graph_missing id) (g_packages graph !! id));
  wire_dep_symlinks_into package_location id package (resolve_unique_peers graph !! id) paths.

Definition populate_shared_virtual_store_for_packages (config : SnpmConfig) (graph : ResolutionGraph)
    (store_paths : gmap PackageId string) (shared_package_ids : gset PackageId) : Eff W (gmap PackageId string) :=
  let shared_virtual_store_dir := virtual_store_dir config in
  _ ← create_dir_all shared_virtual_store_dir;
  let paths := shared_paths shared_virtual_store_dir graph shared_package_ids in
  _ ← join_all (share_package config graph store_paths paths) (bset_iter shared_package_ids);
  _ ← link_dep_bins_for_packages paths graph (bset_iter shared_package_ids);
  mret paths.

Definition project_paths_of (virtual_store_dir : string) (graph : ResolutionGraph) : gmap PackageId string :=
  collect ((fun id => (id, virtual_package_location virtual_store_dir id)) <$> btree_keys (g_packages graph)).

(** The view of a package: its files, or a link to the shared entry. *)
Definition place_package (config : SnpmConfig) (store_paths shared : gmap PackageId string) (locally : bool)
    (id : PackageId) (package_location : string) : Eff W unit :=
  let link_store := store_path ← lift (ok_or (store_missing id) (store_paths !! id));
                    link_dir config store_path package_location in
  w ← world;
  let location_metadata := result_ok (fs_lstat (view w) package_location) in
  already_ready ← (if locally then mret (virtual_package_ready (view w) package_location)
    else shared_target ← lift (ok_or (store_missing id) (shared !! id));
         mret (match location_metadata with Some m => bool_decide (st_type m = TSymlink) | None => false end
               && symlink_is_correct (view w) package_location shared_target));
  if already_ready : bool then mret tt else
  _ ← remove_if_found location_metadata package_location;
  if locally then link_store
  else
    shared_target ← lift (ok_or (store_missing id) (shared !! id));
    _ ← ensure_parent_dir package_location;
    linked ← io_try (fs_symlink shared_target package_location);
    if linked : bool then mret tt else link_store.

Definition project_package (config : SnpmConfig) (graph : ResolutionGraph) (store_paths shared paths : gmap PackageId string)
    (locally_materialized_ids : gset PackageId) (id : PackageId) : Eff W unit :=
  package_location ← lift (index_path paths id);
  let locally := bool_decide (id ∈ locally_materialized_ids) in
  _ ← place_package config store_paths shared locally id package_location;
  if locally then
    package ← lift (ok_or (graph_missing id) (g_packages graph !! id));
    wire_dep_symlinks_into package_location id package None paths
  else mret tt.

Definition populate_virtual_store (virtual_store_dir : string) (graph : ResolutionGraph)
    (store_paths : gmap PackageId string) (config : SnpmConfig) (workspace : option Workspace) (project : Project)
  : Eff W (gmap PackageId string) :=
  w ← world;
  let locally_materialized_ids :=
    local_global_virtual_store_package_ids (view w) config workspace [project] graph in
  shared ← populate_shared_virtual_store_for_packages config graph store_paths
             (shared_package_ids graph locally_materialized_ids);
  let paths := project_paths_of virtual_store_dir graph in
  _ ← join_all (project_package config graph store_paths shared paths locally_materialized_ids)
        (btree_keys (g_packages graph));
  _ ← link_dep_bins_for_packages paths graph (bset_iter locally_materialized_ids);
  mret paths.

Definition link_selected_package (virtual_store_paths : gmap PackageId string) (graph : ResolutionGraph) (_ : unit)
    (e : PackageId * ResolvedPackage) : Eff W unit :=
  package_location ← lift (ok_or (graph_missing e.1) (virtual_store_paths !! e.1));
  wire_dep_symlinks_into package_location e.1 e.2 (resolve_unique_peers graph !! e.1) virtual_store_paths.

Definition link_selected_virtual_dependencies (virtual_store_paths : gmap PackageId string) (graph : ResolutionGraph)
    (package_ids : gset PackageId) : Eff W unit :=
  packages ← lift (try_fold (fun packages id =>
    package ← ok_or (graph_missing id) (g_packages graph !! id); Ok (packages ++ [(id, package)])) [] (bset_iter package_ids));
  _ ← eff_fold (link_selected_package virtual_store_paths graph) tt packages;
  link_dep_bins_for_packages virtual_store_paths graph (bset_iter package_ids).

Definition link_virtual_dependencies (virtual_store_paths : gmap PackageId string) (graph : ResolutionGraph) : Eff W unit :=
  link_selected_virtual_dependencies virtual_store_paths graph (dom (g_packages graph)).

(** ** [linker/root.rs], [linker/hoist.rs] *)
Definition link_root_entry (target dest name : string) : Eff W unit :=
  w ← world;
  if symlink_is_correct (view w) dest target then mret tt else
  _ ← io_ignore (fs_remove_file dest);
  _ ← io_ignore (fs_remove_dir_all dest);
  _ ← (if contains_char "/" name then ensure_parent_dir dest else mret tt);
  symlink_or_copy target dest.

Definition link_root_dependency (virtual_store_paths : gmap PackageId string) (root_node_modules : string) (_ : unit)
    (e : string * RootDependency) : Eff W unit :=
  let id := rd_resolved e.2 in
  target ← lift (ok_or (graph_missing id) (virtual_store_paths !! id));
  link_root_entry target (path_push root_node_modules e.1) e.1.
Definition link_root_dependencies (root_deps : list (string * RootDependency))
    (virtual_store_paths : gmap PackageId string) (root_node_modules : string) : Eff W unit :=
  eff_fold (link_root_dependency virtual_store_paths root_node_modules) tt root_deps.

Definition link_root_bin (root_node_modules : string) (graph : ResolutionGraph) (_ : unit) (e : string * RootDependency)
  : Eff W unit :=
  _ ← attempt (link_package_bins (path_push root_node_modules e.1) root_node_modules e.1
                 (package ← (g_packages graph !! rd_resolved e.2 : option ResolvedPackage); r_bin package));
  mret tt.
Definition link_root_bins (root_deps : list (string * RootDependency)) (root_node_modules : string)
    (graph : ResolutionGraph) : Eff W unit :=
  eff_fold (link_root_bin root_node_modules graph) tt root_deps.

(** One entry of [node_modules]: the links of a scope, and the scope once it is
    empty ([remove_dir] fails on the others), or the link itself. *)
Definition prune_root_entry (keep_names : gset string) (virtual_store_roots : list string) (root_node_modules : string)
    (_ : unit) (e : string * result string FileType) : Eff W unit :=
  w ← world;
  let path := path_push root_node_modules e.1 in
  _ ← eff_fold (fun (_ : unit) => remove_symlink) tt
        (stale_in (view w) keep_names virtual_store_roots root_node_modules e.1);
  if starts_with "@" e.1 && is_dir (view w) path && negb (is_symlink (view w) path)
  then io_ignore (fs_remove_dir path) else mret tt.

Definition prune_dangling_bin_launcher (bin_dir : string) (_ : unit) (e : string * result string FileType) : Eff W unit :=
  let path := path_push bin_dir e.1 in
  w ← world;
  if is_symlink (view w) path && negb (path_exists (view w) path) then remove_symlink path else mret tt.
Definition prune_dangling_bin_launchers (bin_dir : string) : Eff W unit :=
  w ← world;
  match read_dir (view w) bin_dir with
  | Ok entries => eff_fold (prune_dangling_bin_launcher bin_dir) tt entries
  | Err _ => mret tt
  end.

Definition prune_stale_root_entries (root_node_modules : string) (keep_names : gset string)
    (virtual_store_roots : list string) : Eff W unit :=
  w ← world;
  match read_dir (view w) root_node_modules with
  | Ok entries =>
      _ ← eff_fold (prune_root_entry keep_names virtual_store_roots root_node_modules) tt entries;
      prune_dangling_bin_launchers (path_push root_node_modules ".bin")
  | Err _ => mret tt
  end.

Definition link_hoisted_package (virtual_store_paths : gmap PackageId string) (root_node_modules : string) (_ : unit)
    (e : string * PackageId) : Eff W unit :=
  target ← lift (ok_or (store_missing e.2) (virtual_store_paths !! e.2));
  link_root_entry target (path_push root_node_modules e.1) e.1.
Definition hoist_packages (project : Project) (graph : ResolutionGraph) (virtual_store_paths : gmap PackageId string)
    (mode : HoistingMode) : Eff W unit :=
  eff_fold (link_hoisted_package virtual_store_paths (path_push (p_root project) "node_modules")) tt (hoisted graph mode).

(** ** [linker/mod.rs] *)
Definition link (config : SnpmConfig) (workspace : option Workspace) (project : Project) (graph : ResolutionGraph)
    (store_paths : gmap PackageId string) (include_dev : bool) : Eff W unit :=
  let root_node_modules := path_push (p_root project) "node_modules" in
  let project_store := path_push (p_root project) ".snpm" in
  _ ← create_dir_all root_node_modules;
  _ ← create_dir_all project_store;
  virtual_store_paths ← populate_virtual_store project_store graph store_paths config workspace project;
  let root_deps_to_link := filter_root_dependencies project graph include_dev in
  let virtual_store_roots :=
    [project_store; virtual_store_dir config] ++
    match workspace with Some workspace => [path_push (w_root workspace) ".snpm"] | None => [] end in
  _ ← prune_stale_root_entries root_node_modules (list_to_set root_deps_to_link.*1) virtual_store_roots;
  _ ← link_root_dependencies root_deps_to_link virtual_store_paths root_node_modules;
  _ ← link_root_bins root_deps_to_link root_node_modules graph;
  match effective_hoisting config workspace with
  | HoistNone => mret tt
  | mode => hoist_packages project graph virtual_store_paths mode
  end.

(** ** [linker/bins/bundled.rs] *)
Definition bundled_dependency_names (fs : FileSystem) (package : option ResolvedPackage) (package_root : string)
  : gset string :=
  let bundled := match package ≫= r_bundled_dependencies with
                 | Some bundled => Some bundled
                 | None => read_package_metadata_lossy fs package_root ≫= pm_bundled_dependencies
                 end in
  match bundled with
  | Some (BundledList list) => list_to_set list
  | Some (BundledAll true) => match package with Some package => dom (r_dependencies package) | None => ∅ end
  | _ => ∅
  end.

Definition link_bundled_bin (bundled_modules : string) (_ : unit) (name : string) : Eff W unit :=
  let package_path := path_push bundled_modules name in
  w ← world;
  match fs_lstat (view w) package_path with
  | Ok metadata =>
      if decide (st_type metadata = TDir)
      then link_bins_from_bundled_pkg package_path (path_push bundled_modules ".bin") name else mret tt
  | Err _ => mret tt
  end.
Definition link_bundled_bins (pkg_dest : string) (bundled : gset string) : Eff W unit :=
  let bundled_modules := path_push pkg_dest "node_modules" in
  w ← world;
  if negb (is_dir (view w) bundled_modules) then mret tt
  else eff_fold (link_bundled_bin bundled_modules) tt (bset_iter bundled).
Definition link_bundled_bins_recursive (graph : ResolutionGraph) (linked : gmap PackageId string) : Eff W unit :=
  eff_fold (fun (_ : unit) (e : PackageId * string) =>
    w ← world;
    let bundled := bundled_dependency_names (view w) (g_packages graph !! e.1) e.2 in
    if decide (bundled = ∅) then mret tt else link_bundled_bins e.2 bundled) tt (btree_iter linked).
End link_store.

(** ** Where an entry keeps its links *)
(** A name, or a scope and a name. *)
Definition package_name_ok (name : string) : Prop :=
  name_ok name = true \/ exists scope base, name = scope +:+ "/" +:+ base /\ name_ok scope = true /\ name_ok base = true.

Lemma split_push p n : name_ok n = true -> exists front, split_char "/" (path_push p n) = front ++ [n].
Proof.
  intros Hn. pose proof (name_ok_spec n Hn) as (Hslash & _). unfold path_push. rewrite (name_not_absolute n Hn).
  destruct (is_empty p) eqn:He; cbn [orb].
  { destruct p; [|done]. exists []. change n with (join (chr "/") [n]) at 1.
    apply split_char_join; [done|by repeat constructor]. }
  destruct (ends_with "/" p) eqn:Hp.
  - apply ends_with_spec in Hp as [q ->]. rewrite <-app_assoc_s. exists (split_char "/" q).
    by apply (split_char_snoc "/" q n).
  - exists (split_char "/" p). by apply (split_char_snoc "/" p n).
Qed.

Lemma name_ok_kept n : name_ok n = true -> one_of n [ε; "."] = false.
Proof. intros (_ & He & Hd & _)%name_ok_spec. unfold one_of; cbn. rewrite Hd. by destruct n. Qed.

Lemma parent_push p n : name_ok n = true -> is_Some (parent (path_push p n)).
Proof.
  intros Hn. destruct (split_push p n Hn) as [front Hs]. unfold parent. rewrite Hs.
  destruct front as [|first rest]; cbn [app].
  - cbn. apply name_ok_spec in Hn as (_ & -> & _). eauto.
  - rewrite trim_parts_snoc, reverse_snoc by by apply name_ok_kept. eauto.
Qed.

Lemma parent_push_push p s n : name_ok s = true -> name_ok n = true ->
  parent (path_push (path_push p s) n) = Some (path_push p s).
Proof.
  intros Hs Hn. destruct (path_push_not_slash p s Hs) as [He Hend].
  assert (path_push (path_push p s) n = path_push p s +:+ String "/" n) as ->.
  { unfold path_push at 1. by rewrite (name_not_absolute n Hn), He, Hend. }
  pose proof (name_ok_spec n Hn) as (Hslash & _). destruct (split_push p s Hs) as [front Hq].
  unfold parent. rewrite split_char_snoc, Hq by done.
  pose proof (join_split_char "/" (path_push p s)) as Hj. rewrite Hq in Hj.
  destruct front as [|first rest]; cbn [app] in Hj |- *.
  - change [n] with ([] ++ [n]). rewrite trim_parts_snoc by by apply name_ok_kept. cbn in Hj |- *. rewrite <-Hj.
    rewrite andb_false_intro1; [done|]. pose proof (name_not_absolute s Hs) as Ha. destruct s as [|a s]; [done|].
    unfold is_absolute in *. change "/" with (chr "/") in Ha |- *. rewrite app_cons_s. by rewrite starts_with_chr_cons in *.
  - rewrite trim_parts_snoc, reverse_snoc by by apply name_ok_kept.
    rewrite reverse_involutive, trim_parts_snoc by by apply name_ok_kept. f_equal.
    rewrite andb_false_intro2; [by rewrite <-Hj|]. apply name_ok_spec in Hs as (_ & Hse & _).
    destruct rest as [|r rest]; [by cbn|]. cbn [app]. rewrite join_cons_app by by destruct rest. by destruct r.
Qed.

(** The directory the links of an entry are made in. *)
Lemma entry_node_modules dir name : package_name_ok name ->
  package_node_modules (path_push (path_push dir "node_modules") name) name = Some (path_push dir "node_modules").
Proof.
  unfold package_node_modules. intros [Hn|(scope & base & -> & Hs & Hb)].
  - pose proof (name_ok_spec name Hn) as (-> & _). by apply parent_push_push.
  - rewrite contains_char_app. cbn. rewrite orb_true_r.
    rewrite <-path_push_push by (done || by apply name_not_absolute).
    rewrite parent_push_push by done. cbn. by apply parent_push_push.
Qed.

Lemma shared_node_modules dir id hashes : package_name_ok (id_name id) ->
  is_Some (package_node_modules (hashed_virtual_package_location dir id hashes) (id_name id)).
Proof. intros Hn. unfold hashed_virtual_package_location. by rewrite entry_node_modules. Qed.
Lemma view_node_modules dir id : package_name_ok (id_name id) ->
  is_Some (package_node_modules (virtual_package_location dir id) (id_name id)).
Proof. intros Hn. unfold virtual_package_location. by rewrite entry_node_modules. Qed.

(** ** Nothing is missing

    The failures of linking that are left when the graph is closed and its
    packages are stored: those of the file system and of encoding. *)
Definition found (e : SnpmError) : Prop :=
  match e with
  | GraphMissing _ _ | StoreMissing _ _ => False
  | Internal reason => reason <> no_entry
  | _ => True
  end.

Section found_fs.
Context `{MetadataJson} `{Target} `{!FsWorld W}.

Lemma found_record p from to ok : fails_with found (record (W := W) p from to ok).
Proof. by intros w e w'. Qed.
Lemma found_set_auto_backend backend : fails_with found (set_auto_backend (W := W) backend).
Proof. by intros w e w'. Qed.
Hint Resolve found_record found_set_auto_backend : blame.

Lemma found_ensure_parent_dir path : fails_with found (ensure_parent_dir (W := W) path).
Proof. unfold ensure_parent_dir. blame. Qed.
Hint Resolve found_ensure_parent_dir : blame.

Lemma found_try_primitive p from to : fails_with found (try_primitive (W := W) p from to).
Proof. unfold try_primitive. blame. Qed.
Hint Resolve found_try_primitive : blame.

Lemma found_link_file config from to : fails_with found (link_file (W := W) config from to).
Proof. unfold link_file, resolve_auto_backend, probe_primitive, copy_file. cbn zeta. blame. Qed.
Hint Resolve found_link_file : blame.

Lemma found_dir_entry source entry : errors found (dir_entry source entry).
Proof. unfold dir_entry. blame. Qed.
Lemma found_dir_entries fs source : errors found (dir_entries fs source).
Proof. unfold dir_entries. blame. Qed.
Hint Resolve found_dir_entry found_dir_entries : blame.

Lemma found_collect fuel fs : forall source dest ops, errors found (collect_link_ops fuel fs source dest ops).
Proof.
  induction fuel as [|fuel IH]; intros source dest ops; cbn [collect_link_ops]; [by blame|].
  blame; apply IH.
Qed.
Hint Resolve found_collect : blame.

Lemma found_link_dir config source dest : fails_with found (link_dir (W := W) config source dest).
Proof. unfold link_dir, try_clone_store_package_dir, link_ops. blame. Qed.

Definition step_found (step : CopyStep) : Prop := match step with Refuse e => found e | _ => True end.
Lemma found_copy_steps fuel fs : forall source dest step, step ∈ copy_steps fuel fs source dest -> step_found step.
Proof.
  induction fuel as [|fuel IH]; intros source dest step; cbn [copy_steps].
  { by intros ->%list_elem_of_singleton. }
  intros [->|Hin]%elem_of_cons; [done|]. destruct (read_package_filesystem_shape_lossy _ _) as [shape|].
  { revert Hin. unfold shape_steps. rewrite elem_of_app, list_elem_of_fmap, list_elem_of_join.
    intros [(d & -> & _)|(l & Hin & (f & -> & _)%list_elem_of_fmap)]; [done|]. cbn zeta in Hin.
    destruct (parent _); cbn in Hin; set_solver. }
  destruct (dir_entries fs source) as [entries|e] eqn:He.
  - apply list_elem_of_join in Hin as (l & Hin & (entry & -> & _)%list_elem_of_fmap).
    destruct (dir_entry source entry) as [[name file_type]|e] eqn:Hd.
    + destruct file_type; try (apply list_elem_of_singleton in Hin as ->; done). by eapply IH.
    + apply list_elem_of_singleton in Hin as ->. by eapply found_dir_entry.
  - apply list_elem_of_singleton in Hin as ->. by eapply found_dir_entries.
Qed.

Lemma found_copy_dir source dest : fails_with found (copy_dir (W := W) source dest).
Proof.
  unfold copy_dir. apply fails_bind; [blame|]. intros w. apply fails_fold_in. intros [] step Hin%found_copy_steps.
  unfold copy_step, clone_or_copy_file. destruct step; blame. exact Hin.
Qed.
End found_fs.
#[export] Hint Resolve found_link_dir found_copy_dir found_ensure_parent_dir : blame.

Section found_store.
Context `{SemverLaws} `{DigestCrates} `{MetadataJson} `{BinManifestJson} `{Bincode VirtualDependencyState} `{Target}.
Context `{!FsWorld W}.

Lemma found_symlink_or_copy target dest : fails_with found (symlink_or_copy (W := W) target dest).
Proof. unfold symlink_or_copy. blame. Qed.
Lemma found_remove_if_found metadata path : fails_with found (remove_if_found (W := W) metadata path).
Proof. unfold remove_if_found, remove_as. blame. Qed.
Lemma found_remove_symlink path : fails_with found (remove_symlink (W := W) path).
Proof. unfold remove_symlink. blame. Qed.
Hint Resolve found_symlink_or_copy found_remove_if_found found_remove_symlink : blame.

Lemma found_materialize config store_paths id location :
  is_Some (store_paths !! id) -> fails_with found (materialize_one_package (W := W) config store_paths id location).
Proof.
  intros [path Hp]. unfold materialize_one_package. rewrite Hp. cbn zeta. cbn [ok_or].
  apply fails_bind; [blame|intros w]. case_match; [by blame|]. do 4 (apply fails_bind; [blame|intros ?]).
  apply fails_attempt_bind; [blame|]. intros r Hr. blame. by apply Hr.
Qed.

Lemma found_write_dependency_state fs location name hash : errors found (write_dependency_state fs location name hash).
Proof. unfold write_dependency_state. blame. Qed.
Lemma found_remove_state location name : fails_with found (remove_dependency_state (W := W) location name).
Proof. unfold remove_dependency_state. blame. Qed.
Hint Resolve found_write_dependency_state found_remove_state : blame.

Lemma found_wire location id package peers locations :
  is_Some (package_node_modules location (id_name id)) ->
  (forall name d, wired_map package peers !! name = Some d -> is_Some (locations !! d)) ->
  fails_with found (wire_dep_symlinks_into (W := W) location id package peers locations).
Proof.
  intros [dir Hdir] Hdeps. unfold wire_dep_symlinks_into. rewrite Hdir. cbn zeta. cbn [ok_or].
  destruct (dependency_state_hash_ok _ _ Hdeps) as [hash ->]. case_decide; [by blame|].
  do 2 (apply fails_bind; [blame|intros ?]). case_match; [by blame|].
  apply fails_bind; [by blame|]. intros node_modules. apply fails_bind; [|intros ?; by blame].
  apply fails_fold_in. intros [] [name d] [path Hpath]%elem_of_btree_iter%Hdeps. unfold wire_dep. rewrite Hpath. cbn [ok_or]. blame.
Qed.

Lemma found_dep_bins locations graph ids : fails_with found (link_dep_bins_for_packages (W := W) locations graph ids).
Proof. unfold link_dep_bins_for_packages, link_dep_bins, link_dep_bin. blame. Qed.
Hint Resolve found_dep_bins : blame.

Lemma found_prune dir keep_names roots : fails_with found (prune_stale_root_entries (W := W) dir keep_names roots).
Proof.
  unfold prune_stale_root_entries, prune_root_entry, prune_dangling_bin_launchers, prune_dangling_bin_launcher.
  cbn zeta. blame.
Qed.
Lemma found_root_entry target dest name : fails_with found (link_root_entry (W := W) target dest name).
Proof. unfold link_root_entry. blame. Qed.
Hint Resolve found_prune found_root_entry : blame.

(** What an installation hands over: [Install.installed_packages_are_stored]. *)
Context (graph : ResolutionGraph) (store_paths : gmap PackageId string).
Context (closed : graph_closed graph)
  (stored : forall id, is_Some (g_packages graph !! id) -> is_Some (store_paths !! id))
  (named : forall id, is_Some (g_packages graph !! id) -> package_name_ok (id_name id)).

Lemma found_share config tree workspace projects :
  let shared := shared_package_ids graph (local_global_virtual_store_package_ids tree config workspace projects graph) in
  fails_with found (populate_shared_virtual_store_for_packages (W := W) config graph store_paths shared).
Proof.
  intros shared. unfold populate_shared_virtual_store_for_packages. cbn zeta. blame.
  apply fails_join_all. intros id Hid%elem_of_bset_iter. pose proof Hid as [[package Hp] _]%elem_of_shared_package_ids.
  unfold share_package, index_path. rewrite shared_paths_lookup, decide_True, Hp by done. cbn [ok_or].
  rewrite !lift_bind. apply fails_bind; [apply found_materialize; auto|]. intros _.
  apply found_wire; [apply shared_node_modules; auto|]. intros name d Hd. rewrite shared_paths_lookup, decide_True; [done|].
  by eapply (shared_stay_shared _ _ _ _ graph id package).
Qed.

Lemma view_lookup dir id : is_Some (g_packages graph !! id) ->
  project_paths_of dir graph !! id = Some (virtual_package_location dir id).
Proof.
  intros Hid. unfold project_paths_of. set (f := fun id => (id, _)). apply collect_lookup.
  { rewrite <-list_fmap_compose. change (fst ∘ f) with (fun i : PackageId => i). rewrite list_fmap_id.
    apply NoDup_btree_keys. }
  apply list_elem_of_fmap. exists id. split; [done|]. by apply elem_of_btree_keys.
Qed.

Lemma found_project_package config tree workspace projects dir id :
  let local := local_global_virtual_store_package_ids tree config workspace projects graph in
  is_Some (g_packages graph !! id) ->
  fails_with found (project_package (W := W) config graph store_paths
    (shared_paths (virtual_store_dir config) graph (shared_package_ids graph local)) (project_paths_of dir graph) local id).
Proof.
  intros local Hid. unfold project_package, index_path. rewrite view_lookup by done. cbn [ok_or]. rewrite lift_bind.
  cbn zeta. destruct (stored id Hid) as [path Hpath]. destruct Hid as [package Hp].
  assert (Hplace : forall shared locally location, (locally = false -> is_Some (shared !! id)) ->
    fails_with found (place_package (W := W) config store_paths shared locally id location)).
  { intros shared locally location Hshared. unfold place_package. rewrite Hpath. cbn [ok_or]. cbn zeta.
    destruct locally; [by blame|]. destruct (Hshared eq_refl) as [target ->]. cbn [ok_or]. blame. }
  apply fails_bind.
  { apply Hplace. intros Hnot%bool_decide_eq_false. rewrite shared_paths_lookup, decide_True; [done|].
    apply elem_of_shared_package_ids. by split; [exists package|]. }
  intros _. case_bool_decide; [|by blame]. rewrite Hp. cbn [ok_or]. rewrite lift_bind.
  apply found_wire; [apply view_node_modules; eauto|]. intros name d Hd. rewrite view_lookup; [done|].
  apply collect_lookup_Some in Hd. rewrite app_nil_r in Hd. apply elem_of_btree_iter in Hd. by eapply (proj1 closed).
Qed.

Lemma populate_returns config dir workspace project w paths w' :
  populate_virtual_store (W := W) dir graph store_paths config workspace project w = (Ok paths, w') ->
  paths = project_paths_of dir graph.
Proof. unfold populate_virtual_store. intros Hr. cbn zeta in Hr. repeat (eff_inv Hr). by injection Hr as <- _. Qed.

Lemma found_populate config dir workspace project :
  fails_with found (populate_virtual_store (W := W) dir graph store_paths config workspace project).
Proof.
  unfold populate_virtual_store. apply fails_bind; [blame|intros w]. cbn zeta.
  eapply fails_bind_returns; [apply found_share| |cbn beta].
  { intros w0 paths w1 Hr. unfold populate_shared_virtual_store_for_packages in Hr. cbn zeta in Hr.
    repeat (eff_inv Hr). by injection Hr as <- _. }
  apply fails_bind; [|intros ?; by blame]. apply fails_join_all. intros id Hid%elem_of_btree_keys.
  by apply found_project_package.
Qed.

(** C4: Linking finds what it links.  For a graph whose edges stay inside it and
    whose packages are all in the store, as they are after a resolution, the
    linking of a project can only fail in the file system or in encoding what it
    remembers: no package is missing from the graph, from the store or from the
    virtual store, whatever is shared, hoisted or kept in the project. *)
Theorem linking_finds_everything config workspace project include_dev w e w' :
  link (W := W) config workspace project graph store_paths include_dev w = (Err e, w') -> found e.
Proof.
  revert w e w'. change (fails_with found (link (W := W) config workspace project graph store_paths include_dev)).
  unfold link. cbn zeta. do 2 (apply fails_bind; [blame|intros ?]).
  eapply fails_bind_returns; [apply found_populate|apply populate_returns|].
  apply fails_bind; [blame|intros ?]. apply fails_bind.
  { apply fails_fold_in. intros [] [name d] Hd%list_elem_of_filter. unfold link_root_dependency.
    rewrite view_lookup; [cbn [ok_or]; blame|]. destruct Hd as [_ Hd%elem_of_btree_iter]. by eapply (proj2 closed). }
  intros _. apply fails_bind; [unfold link_root_bins, link_root_bin; blame|intros _].
  assert (Hhoist : forall mode, fails_with found (hoist_packages (W := W) project graph
    (project_paths_of (path_push (p_root project) ".snpm") graph) mode)).
  { intros mode. apply fails_fold_in. intros [] [name id] Hid. unfold link_hoisted_package.
    rewrite view_lookup; [cbn [ok_or]; blame|]. by eapply (proj1 (proj2 (hoisted_facts graph mode))). }
  destruct (effective_hoisting config workspace); [blame|apply Hhoist..].
Qed.
End found_store.

(** ** An entry of the shared store is complete or absent *)
Lemma staging_sibling pid p s n : name_ok s = true -> name_ok n = true ->
  staging_location_for pid (path_push (path_push p s) n) =
  path_push (path_push p s) ("." +:+ n +:+ ".linking." +:+ show_N pid).
Proof.
  intros Hs Hn. unfold staging_location_for, with_file_name, path_pop.
  assert (Paths.file_name (path_push (path_push p s) n) = Some n) as ->.
  { unfold Paths.file_name. by rewrite components_push, last_snoc. }
  by rewrite parent_push_push.
Qed.

Section materialize.
Context `{MetadataJson} `{Target} `{!FsWorld W}.

End materialize.

(** ** Concrete inputs: the graph of [LinkerDemo] *)
Module LinkStoreDemo.
Import LinkerDemo.
#[local] Existing Instance SharingDemo.checksum.
#[local] Existing Instance ResolverDemo.linux.
#[local] Instance no_metadata : MetadataJson := {|
  metadata_from_str _ := None; metadata_to_vec _ := Err "unsupported"; facts_from_str _ := None |}.
#[local] Instance no_bins : BinManifestJson := {| bin_from_str _ := Ok None |}.
#[local] Instance writes_links : Bincode VirtualDependencyState := {| bincode _ := Ok "links"; unbincode _ := Err "unsupported" |}.

Definition in_store (id : PackageId) : string := "/store/" +:+ id_name id.
Definition stored : gmap PackageId string := list_to_map ((fun id => (id, in_store id)) <$> btree_keys (g_packages graph)).

(** The store has only [react]: its entry is made, and then the linking fails. *)
#[local] Instance fs_react : FsWorld WorldDemo.DemoWorld := WorldDemo.demo_fs ["/store/react"] [].
Definition start : WorldDemo.DemoWorld := (disk_with ∅, []).
Definition linked := link config_for_tests None app graph stored true start.

Lemma linking_finds_everything_witness :
  linked.1 = Err (ReadFile "/store/old" "no such directory") /\ found (ReadFile "/store/old" "no such directory").
Proof.
  split; [vm_refl|].
  apply (linking_finds_everything graph stored SharingDemo.graph_is_closed) with (config := config_for_tests)
    (workspace := None) (project := app) (include_dev := true) (w := start) (w' := linked.2).
  - intros id Hid. apply elem_of_btree_keys in Hid. revert id Hid. apply Forall_forall, (bool_decide_unpack _). vm_compute. exact I.
  - intros id Hid. left. apply elem_of_btree_keys in Hid. revert id Hid. apply Forall_forall, (bool_decide_unpack _). vm_compute. exact I.
  - vm_refl.
Defined.

Definition entry : string := "/store/view/node_modules/react".
End LinkStoreDemo.
