(* ===== verification/Install.v ===== *)
(** * The installation of a project ([operations/install/project_install/])

    The plan, the scenario, the resolution, the store, the lockfile, the manifest,
    the links, the patches, the scripts and the saved state, in the order of the
    code, over the world of [World].  Output on the terminal is left out, but for
    the list of changes; so is the time the installation took. *)
From S2P Require Import Prelude.
From S2P Require Import BTree.
From S2P Require Import Text.
From S2P Require Import Errors.
From S2P Require Import Types.
From S2P Require Import Paths.
From S2P Require Import Specs.
From S2P Require Import Crates.
From S2P Require Import Peers.
From S2P Require Import Lockfile.
From S2P Require Import Resolver.
From S2P Require Import Roots.
From S2P Require Import Config.
From S2P Require Import Store.
From S2P Require Import Patches.
From S2P Require Import Scripts.
From S2P Require Import Linker.
From S2P Require Import Sharing.
From S2P Require Import Layout.
From S2P Require Import InstallState.
From S2P Require Import Residency.
From S2P Require Import Discovery.
From S2P Require Import Importers.
From S2P Require Import Scenario.
From S2P Require Import Plan.
From S2P Require Import World.
From S2P Require Import LinkFs.
From S2P Require Import LinkStore.

(** [state.rs] *)
Record ResolvedInstall := {
  ri_scenario : InstallScenario;
  ri_graph : ResolutionGraph;
  ri_store_paths : gmap PackageId string;
  ri_integrity_state : option IntegrityState;
  ri_wrote_lockfile : bool;
  ri_hot_install_state_current : bool;
}.

Definition require_graph (graph : option ResolutionGraph) (scenario : string) : Result ResolutionGraph :=
  ok_or (Internal (scenario +:+ " scenario requires a precomputed graph")) graph.
Definition require_cache {T} (cache_check : option T) (message : string) : Result T :=
  ok_or (Internal message) cache_check.

(** [filter_map(|project| Some((project.manifest.name.clone()?, project.root))).collect()] *)
Definition add_source (sources : gmap string string) (project : Project) : gmap string string :=
  match m_name (p_manifest project) with
  | Some name => <[name := p_root project]> sources
  | None => sources
  end.
Definition workspace_sources (workspace : Workspace) : gmap string string := foldl add_source ∅ (w_projects workspace).

(** The message of [print_install_changes]. *)
Definition added_packages (graph : ResolutionGraph) (names : list string) (is_dev : string -> bool)
  : list (string * string * bool) :=
  omap (fun name => dep ← (g_root graph !! name : option RootDependency);
                    Some (name, id_version (rd_resolved dep), is_dev name)) names.

Definition install_changes (graph : ResolutionGraph) (plan : ProjectInstallPlan) (options : InstallOptions)
  : list (string * string * bool) :=
  if decide (pl_additions plan <> ∅) then
    added_packages graph (btree_iter (pl_additions plan)).*1 (fun _ => io_dev options)
  else if pl_is_fresh_install plan then
    added_packages graph (btree_iter (g_root graph)).*1
      (fun name => bool_decide (name ∈ pl_local_dev_deps plan) && negb (bool_decide (name ∈ pl_local_deps plan)))
  else [].

Definition step_count_for_install (scenario : InstallScenario) (wrote_lockfile : bool) : nat :=
  match scenario with
  | Hot => 0
  | WarmLinkOnly => 1
  | WarmPartialCache | Cold => 2
  end + (if wrote_lockfile then 1 else 0).

Section install.
Context `{SemverCrate} `{DigestCrates} `{LockCrates} `{LayoutJson} `{MetadataJson}
  `{Bincode DiskInstallStateFile} `{Bincode GraphSnapshot} `{Bincode StoreResidencyIndex} `{BinManifestJson} `{Bincode VirtualDependencyState} `{ForeignFormats} `{GitBranch}
  `{TimeCrate} `{Registry} `{Target}
  (canonicalize : string -> result string string).
Context {W : Type} `{!InstallWorld W}.

(** ** The store ([utils/store/materialize.rs], the tasks of [cold.rs]) *)
Definition materialize_packages (config : SnpmConfig) (packages : list ResolvedPackage)
  : Eff W (gmap PackageId string) :=
  w ← world;
  eff_fold (fun paths package =>
    path ← ensure_package config package; mret (<[r_id package := path]> paths)) ∅ (completed w packages).

Definition materialize_missing_packages (config : SnpmConfig) (missing : list ResolvedPackage)
  : Eff W (gmap PackageId string) :=
  match missing with [] => mret ∅ | _ => materialize_packages config missing end.

Definition materialize_store (config : SnpmConfig) (graph : ResolutionGraph) : Eff W (gmap PackageId string) :=
  materialize_packages config (btree_values (g_packages graph)).

(** [if store_paths_map.is_empty() && !graph.packages.is_empty()] *)
Definition materialize_if_empty (config : SnpmConfig) (graph : ResolutionGraph) (store_paths : gmap PackageId string)
  : Eff W (gmap PackageId string) :=
  if decide (store_paths = ∅ /\ g_packages graph <> ∅) then materialize_store config graph else mret store_paths.

(** Every task runs to its end; joining them returns the first failure. *)
Definition join_task (config : SnpmConfig) (paths : Result (gmap PackageId string)) (package : ResolvedPackage)
  : Eff W (Result (gmap PackageId string)) :=
  path ← attempt (ensure_package config package);
  mret (paths ← paths; path ← path; Ok (<[r_id package := path]> paths)).
Definition join_tasks (config : SnpmConfig) (packages : list ResolvedPackage) : Eff W (gmap PackageId string) :=
  paths ← eff_fold (join_task config) (Ok ∅) packages; lift paths.

Definition resolver_context (config : SnpmConfig) (overrides : gmap string string)
    (sources : option (gmap string string)) (force : bool) (existing_graph : option ResolutionGraph) : ResolverContext := {|
  rc_strict_peers := c_strict_peers config;
  rc_min_age_days := c_min_package_age_days config;
  rc_force := force;
  rc_overrides := Some overrides;
  rc_workspace_sources := sources;
  rc_existing_graph := existing_graph |}.

(** The resolution with the store tasks it starts, common to [cold.rs] and
    [workspace/resolution/download.rs]. *)
Definition resolve_and_store (config : SnpmConfig) (ctx : ResolverContext) (root_dependencies : gmap string string)
    (root_protocols : gmap string RegistryProtocol) (optional_root_names : gset string)
  : Eff W (ResolutionGraph * gmap PackageId string) :=
  '(graph, announced) ← eff_of (resolve_packages ctx root_dependencies root_protocols optional_root_names);
  graph ← lift graph;
  store_paths ← join_tasks config announced;
  mret (graph, store_paths).

Definition resolve_cold_install (config : SnpmConfig) (plan : ProjectInstallPlan)
    (root_dependencies : gmap string string) (force : bool) (existing_graph : option ResolutionGraph)
  : Eff W (ResolutionGraph * gmap PackageId string) :=
  let ctx := resolver_context config (pl_overrides plan) (workspace_sources <$> pl_workspace plan) force existing_graph in
  '(graph, store_paths) ←
    resolve_and_store config ctx root_dependencies (pl_root_protocols plan) (pl_optional_root_names plan);
  store_paths ← materialize_if_empty config graph store_paths;
  mret (graph, store_paths).

(** ** [state.rs::resolve_install_state] *)
Definition validate_age (config : SnpmConfig) (force : bool) (graph : option ResolutionGraph) : Eff W unit :=
  match graph with
  | Some graph => w ← world; lift (validate_graph_min_package_age config graph force (clock w) (answered_order w))
  | None => mret tt
  end.

Definition resolve_scenario (config : SnpmConfig) (plan : ProjectInstallPlan) (options : InstallOptions)
    (planned_roots : gmap string string) (explicit_seed : option ResolutionGraph) (found : ScenarioResult)
  : Eff W (ResolutionGraph * gmap PackageId string * bool) :=
  match scenario found with
  | Hot => graph ← lift (require_graph (sr_graph found) "Hot"); mret (graph, ∅, false)
  | WarmLinkOnly =>
      graph ← lift (require_graph (sr_graph found) "WarmLinkOnly");
      cache ← lift (require_cache (cache_check found) "WarmLinkOnly scenario requires cache state");
      mret (graph, cached cache, false)
  | WarmPartialCache =>
      graph ← lift (require_graph (sr_graph found) "WarmPartialCache");
      cache ← lift (require_cache (cache_check found) "WarmPartialCache scenario requires cache state");
      downloaded ← materialize_missing_packages config (missing cache);
      mret (graph, downloaded ∪ cached cache, false)
  | Cold =>
      let seed_graph := match explicit_seed with Some seed => Some seed | None => sr_graph found end in
      '(graph, store_paths) ← resolve_cold_install config plan planned_roots (io_force options) seed_graph;
      if io_include_dev options then
        _ ← write_lockfile (pl_lockfile_path plan) graph (optional (pl_root_specs plan));
        mret (graph, store_paths, true)
      else mret (graph, store_paths, false)
  end.

(** The client, if one is needed, and the ages of what would be reused. *)
Definition check_ages (config : SnpmConfig) (options : InstallOptions) (explicit_seed : option ResolutionGraph)
    (found : ScenarioResult) : Eff W unit :=
  let checks_age := bool_decide (is_Some (c_min_package_age_days config)) in
  _ ← (if checks_age || negb (bool_decide (scenario found = Hot)) then create_client else mret tt);
  if checks_age then
    _ ← validate_age config (io_force options) explicit_seed;
    validate_age config (io_force options) (sr_graph found)
  else mret tt.

(** Writing the lockfile for an installation that reused a foreign one. *)
Definition convert_lockfile (include_dev : bool) (compatible : option CompatibleLockfile) (lockfile_path : string)
    (graph : ResolutionGraph) (optional_root : gmap string string) (wrote_lockfile : bool) : Eff W bool :=
  w ← world;
  if include_dev && negb wrote_lockfile && bool_decide (is_Some compatible) && negb (is_file (view w) lockfile_path)
  then _ ← write_lockfile lockfile_path graph optional_root; mret true
  else mret wrote_lockfile.

Definition resolve_install_state (config : SnpmConfig) (project : Project) (plan : ProjectInstallPlan)
    (options : InstallOptions) : Eff W ResolvedInstall :=
  start ← world;
  let fs := view start in
  let planned_roots := planned_root_dependencies canonicalize fs config options plan in
  let explicit_seed := explicit_lockfile_seed canonicalize fs config project plan options in
  let found := plan_scenario canonicalize fs config project plan options in
  _ ← check_ages config options explicit_seed found;
  '(graph, store_paths, wrote_lockfile) ← resolve_scenario config plan options planned_roots explicit_seed found;
  wrote_lockfile ← convert_lockfile (io_include_dev options) (pl_compatible_lockfile plan) (pl_lockfile_path plan)
                       graph (optional (pl_root_specs plan)) wrote_lockfile;
  mret {| ri_scenario := scenario found; ri_graph := graph; ri_store_paths := store_paths;
          ri_integrity_state := integrity_state found; ri_wrote_lockfile := wrote_lockfile;
          ri_hot_install_state_current := hot_install_state_current found |}.

(** ** [manifest/write.rs::write_manifest]: the project with the changed manifest *)
Definition set_sections (manifest : Manifest) (sections : Sections) : Manifest := {|
  m_name := m_name manifest; m_version := m_version manifest; m_package_manager := m_package_manager manifest;
  m_private := m_private manifest;
  m_dependencies := sections.1.1; m_dev_dependencies := sections.1.2; m_optional_dependencies := sections.2;
  m_scripts := m_scripts manifest; m_resolutions := m_resolutions manifest; m_overrides := m_overrides manifest;
  m_files := m_files manifest; m_bin := m_bin manifest; m_main := m_main manifest; m_pnpm := m_pnpm manifest;
  m_snpm := m_snpm manifest; m_workspaces := m_workspaces manifest; m_extra := m_extra manifest |}.

Definition project_write_manifest (project : Project) : Eff W unit :=
  data ← lift (format_manifest (p_manifest project) (p_manifest_path project));
  write_output (p_manifest_path project, data).

Definition write_manifest (project : Project) (graph : ResolutionGraph) (additions : gmap string string) (dev : bool)
    (workspace : option Workspace) (catalog : option CatalogConfig) (save_prefix : string) : Eff W Project :=
  if decide (additions = ∅) then mret project else
  let sections := written_sections (p_manifest project) graph additions dev workspace catalog save_prefix in
  let project := with_manifest project (set_sections (p_manifest project) sections) in
  _ ← project_write_manifest project;
  mret project.

(** ** [workspace/linking/local.rs] *)
Definition link_local_dep (project : Project) (workspace : Workspace) (local_deps local_dev_deps : gset string)
    (include_dev : bool) (_ : unit) (name : string) : Eff W unit :=
  let only_dev := bool_decide (name ∈ local_dev_deps) && negb (bool_decide (name ∈ local_deps)) in
  if negb include_dev && only_dev then mret tt else
  source_project ← lift (ok_or (WorkspaceConfig (w_root workspace)
                           ("workspace dependency " +:+ name +:+ " not found in workspace projects"))
                           (project_by_name workspace name));
  let destination := path_push (path_push (p_root project) "node_modules") name in
  w ← world;
  if symlink_is_correct (view w) destination (p_root source_project) then mret tt
  else replace_with_symlink destination (p_root source_project).

Definition link_local_workspace_deps (project : Project) (workspace : option Workspace)
    (local_deps local_dev_deps local_optional_deps : gset string) (include_dev : bool) : Eff W unit :=
  if decide (local_deps = ∅ /\ local_dev_deps = ∅ /\ local_optional_deps = ∅) then mret tt else
  workspace ← lift (ok_or (WorkspaceConfig (p_root project)
                      "workspace: protocol used but no workspace configuration found") workspace);
  eff_fold (link_local_dep project workspace local_deps local_dev_deps include_dev) tt
    (bset_iter local_deps ++ bset_iter local_dev_deps ++ bset_iter local_optional_deps).

(** ** [patches.rs]: the number of patches applied *)
Definition patched_package_dir (root name version : string) : string :=
  path_push (path_push (path_push (path_push root ".snpm") (replace_char "/" "+" name +:+ "@" +:+ version)) "node_modules") name.

Definition apply_one_patch (package_dir store_path patch_path : string) (applied : nat) : Eff W nat :=
  _ ← materialize_patch_target package_dir store_path;
  outcome ← attempt (apply_patch package_dir patch_path);
  mret (match outcome with Ok _ => S applied | Err _ => applied end).

Definition apply_project_patch (project : Project) (store_paths : gmap PackageId string) (applied : nat)
    (patch : string * string * string) : Eff W nat :=
  let '(name, version, patch_path) := patch in
  match store_paths !! {| id_name := name; id_version := version |} with
  | None => mret applied
  | Some store_path =>
      let package_dir := patched_package_dir (p_root project) name version in
      w ← world;
      if negb (path_exists (view w) package_dir) then mret applied
      else apply_one_patch package_dir store_path patch_path applied
  end.

Definition apply_patches (project : Project) (store_paths : gmap PackageId string) : Eff W nat :=
  w ← world;
  patches ← lift (collect_patches_to_apply (view w) project);
  eff_fold (apply_project_patch project store_paths) 0 patches.

(** ** [finalize.rs] *)
Definition save_integrity (project : Project) (graph : ResolutionGraph) (precomputed : option IntegrityState)
  : Eff W unit :=
  w ← world;
  state ← lift (match precomputed with
                | Some state => Ok state
                | None => build_project_integrity_state (view w) project graph
                end);
  write_outputs (write_integrity_file (view w) project state).

Definition finalize_install (config : SnpmConfig) (project : Project) (plan : ProjectInstallPlan)
    (graph : ResolutionGraph) (store_paths : gmap PackageId string) (include_dev : bool)
    (precomputed_integrity : option IntegrityState) : Eff W unit :=
  _ ← link config (pl_workspace plan) project graph store_paths include_dev;
  _ ← link_local_workspace_deps project (pl_workspace plan) (pl_local_deps plan) (pl_local_dev_deps plan)
        (pl_local_optional_deps plan) include_dev;
  _ ← apply_patches project store_paths;
  save_integrity project graph precomputed_integrity.

Definition run_project_install_scripts (config : SnpmConfig) (workspace : option Workspace) (project_root : string)
    (early_exit : bool) : Eff W (list string) :=
  if early_exit then _ ← run_project_scripts config workspace project_root; mret []
  else
    blocked ← (if can_any_scripts_run config workspace then run_install_scripts config workspace project_root
               else mret []);
    _ ← run_project_scripts config workspace project_root;
    mret blocked.

(** ** [mod.rs] *)
Definition project_root_specs (manifest : Manifest) (include_dev : bool) : RootSpecSet :=
  build_project_root_specs (m_dependencies manifest) (m_dev_dependencies manifest)
    (m_optional_dependencies manifest) include_dev.

(** A failure to save the index of the store is only reported. *)
Definition persist_residency (config : SnpmConfig) (store_paths : gmap PackageId string) : Eff W unit :=
  _ ← attempt (w ← world;
               outputs ← lift (persist_store_residency_index (view w) config store_paths);
               write_outputs outputs);
  mret tt.

Definition save_install_state (config : SnpmConfig) (project : Project) (plan : ProjectInstallPlan)
    (options : InstallOptions) (resolved : ResolvedInstall) : Eff W unit :=
  let specs := project_root_specs (p_manifest project) (io_include_dev options) in
  let skip := bool_decide (ri_scenario resolved = Hot) && ri_hot_install_state_current resolved in
  w ← world;
  let source_path := plan_source_path (view w) (pl_lockfile_path plan) (pl_compatible_lockfile plan) in
  if negb skip && is_file (view w) source_path then
    output ← lift (write_project_install_state (view w) config project (pl_workspace plan) source_path
                     (required specs) (optional specs) (ri_graph resolved) (io_include_dev options));
    write_output output
  else mret tt.

Record InstallReport := {
  package_count : nat;
  steps_cleared : nat;
  changes : list (string * string * bool);
  blocked_scripts : list string;
}.

(** The project comes back with its manifest, which [add] has changed. *)
Definition install (config : SnpmConfig) (project : Project) (options : InstallOptions)
  : Eff W (Project * InstallReport) :=
  start ← world;
  plan ← lift (prepare_install_plan canonicalize (view start) project options);
  _ ← lift (validate_frozen_lockfile canonicalize (view start) config options plan);
  resolved ← resolve_install_state config project plan options;
  _ ← persist_residency config (ri_store_paths resolved);
  project ← write_manifest project (ri_graph resolved) (pl_additions plan) (io_dev options) (pl_workspace plan)
              (pl_catalog plan) (effective_save_prefix config);
  let early_exit := bool_decide (ri_scenario resolved = Hot) in
  _ ← (if early_exit then mret tt
       else finalize_install config project plan (ri_graph resolved) (ri_store_paths resolved)
              (io_include_dev options) (ri_integrity_state resolved));
  blocked ← run_project_install_scripts config (pl_workspace plan) (p_root project) early_exit;
  _ ← save_install_state config project plan options resolved;
  mret (project, {| package_count := size (g_packages (ri_graph resolved));
                    steps_cleared := step_count_for_install (ri_scenario resolved) (ri_wrote_lockfile resolved);
                    changes := install_changes (ri_graph resolved) plan options;
                    blocked_scripts := blocked |}).
End install.

(** ** What a resolution that fails leaves *)
Section install_correct.
Context `{SemverCrate} `{DigestCrates} `{LockCrates} `{LayoutJson} `{MetadataJson}
  `{Bincode DiskInstallStateFile} `{Bincode GraphSnapshot} `{Bincode StoreResidencyIndex} `{BinManifestJson} `{Bincode VirtualDependencyState} `{ForeignFormats} `{GitBranch}
  `{TimeCrate} `{Registry} `{Target}.
Context {W : Type} `{!InstallWorld W} `{!InstallWorldLaws W}.
Context (config : SnpmConfig).

Lemma materialize_packages_store packages : keeps (store_only config) (materialize_packages config packages).
Proof. unfold materialize_packages. keep. Qed.
Hint Resolve materialize_packages_store : effects.
Lemma materialize_missing_store missing : keeps (store_only config) (materialize_missing_packages config missing).
Proof. unfold materialize_missing_packages. keep. Qed.
Lemma materialize_if_empty_store graph store_paths :
  keeps (store_only config) (materialize_if_empty config graph store_paths).
Proof. unfold materialize_if_empty, materialize_store. keep. Qed.
Lemma join_tasks_store packages : keeps (store_only config) (join_tasks config packages).
Proof. unfold join_tasks, join_task. keep. Qed.
Hint Resolve materialize_missing_store materialize_if_empty_store join_tasks_store : effects.

Lemma resolve_and_store_keeps ctx root_dependencies root_protocols optional_root_names :
  keeps (store_only config) (resolve_and_store config ctx root_dependencies root_protocols optional_root_names).
Proof. unfold resolve_and_store. keep. Qed.
Hint Resolve resolve_and_store_keeps : effects.

Lemma resolve_cold_keeps plan root_dependencies force existing_graph :
  keeps (store_only config) (resolve_cold_install config plan root_dependencies force existing_graph).
Proof. unfold resolve_cold_install. keep. Qed.
Hint Resolve resolve_cold_keeps : effects.

Lemma validate_age_keeps force graph : keeps (store_only config) (validate_age config force graph).
Proof. unfold validate_age. keep. Qed.
Hint Resolve validate_age_keeps : effects.

(** The lockfile of a graph is written as the last change, or nothing is. *)
Definition saves (lockfile_path : string) (optional_root : gmap string string) (graph : ResolutionGraph)
    (wrote : bool) (w w' : W) : Prop :=
  if wrote then exists w1, store_only config w w1 /\
    write (world_disk w1) lockfile_path graph optional_root = (Ok tt, world_disk w')
  else store_only config w w'.

Lemma saves_trans lockfile_path optional_root graph wrote w w1 w' :
  store_only config w w1 -> saves lockfile_path optional_root graph wrote w1 w' ->
  saves lockfile_path optional_root graph wrote w w'.
Proof.
  intros Hw. destruct wrote; cbn; [|intros Hw'; by transitivity w1].
  intros (w2 & Hw2 & Hwrite). exists w2. split; [by transitivity w1|done].
Qed.

Lemma write_lockfile_saves lockfile_path optional_root graph w r w' :
  write_lockfile lockfile_path graph optional_root w = (r, w') ->
  match r with Ok _ => saves lockfile_path optional_root graph true w w' | Err _ => w' = w end.
Proof.
  destruct r as [u|e]; [intros Hw%write_lockfile_Ok; by exists w|apply write_lockfile_failed].
Qed.

Lemma resolve_scenario_outcome plan options planned_roots explicit_seed found w r w' :
  resolve_scenario config plan options planned_roots explicit_seed found w = (r, w') ->
  match r with
  | Ok (graph, _, wrote) => wrote = io_include_dev options && bool_decide (scenario found = Cold) /\
      saves (pl_lockfile_path plan) (optional (pl_root_specs plan)) graph wrote w w'
  | Err _ => store_only config w w'
  end.
Proof.
  unfold resolve_scenario. destruct (scenario found) eqn:Hs.
  4: {
    intros [(e & Hcold & ->)|([graph paths] & w1 & Hcold & Hr)]%eff_bind_inv; [by apply resolve_cold_keeps in Hcold|].
    apply resolve_cold_keeps in Hcold. destruct (io_include_dev options).
    - apply eff_bind_inv in Hr as [(e & Hw & ->)|(u & w2 & Hw & [= <- <-])];
        apply write_lockfile_saves in Hw; [by subst|]. split; [done|by eapply saves_trans].
    - injection Hr as <- <-. done. }
  all: intros Hr; assert (Hk : store_only config w w') by (apply (keeps_elim _ _ _ _ _ Hr); keep);
    destruct r as [[[graph paths] wrote]|]; [|done]; rewrite andb_false_r;
    repeat (eff_inv Hr); injection Hr as _ _ <- _; by split.
Qed.

Definition converts (compatible : option CompatibleLockfile) (lockfile_path : string) (w : W) : bool :=
  bool_decide (is_Some compatible) && negb (is_file (view w) lockfile_path).

Lemma check_ages_keeps options explicit_seed found :
  keeps (store_only config) (check_ages config options explicit_seed found).
Proof. unfold check_ages. cbn zeta. keep. Qed.

(** Nothing is written twice. *)
Lemma convert_lockfile_outcome include_dev compatible lockfile_path optional_root graph wrote w w1 r w' :
  of_store config lockfile_path = false -> saves lockfile_path optional_root graph wrote w w1 ->
  convert_lockfile include_dev compatible lockfile_path graph optional_root wrote w1 = (r, w') ->
  match r with
  | Ok wrote' => wrote' = wrote || (include_dev && converts compatible lockfile_path w) /\
      saves lockfile_path optional_root graph wrote' w w'
  | Err _ => store_only config w w'
  end.
Proof.
  intros Hout Hsave. unfold convert_lockfile.
  intros [(e & [=] & _)|(? & ? & [= <- <-] & Hr)]%eff_bind_inv.
  assert (Hfile : wrote = false -> is_file (view w1) lockfile_path = is_file (view w) lockfile_path).
  { intros ->. by apply store_only_is_file with (1 := Hsave). }
  unfold converts. destruct wrote; cbn [negb orb andb] in Hr |- *.
  { rewrite andb_false_r in Hr. by injection Hr as <- <-. }
  rewrite Hfile, andb_true_r, <-andb_assoc in Hr by done. destruct (include_dev && _) eqn:Hc.
  - apply eff_bind_inv in Hr as [(e & Hw & ->)|(u & w2 & Hw & [= <- <-])];
      apply write_lockfile_saves in Hw; [by subst|]. split; [done|by eapply saves_trans].
  - by injection Hr as <- <-.
Qed.

(** ** What is linked is in the store *)
(** A loop that records the place of each package. *)
Lemma record_loop (f : gmap PackageId string -> ResolvedPackage -> Eff W (gmap PackageId string)) packages :
  (forall acc package w acc' w', f acc package w = (Ok acc', w') ->
     exists path, acc' = <[r_id package := path]> acc) ->
  forall acc w paths w', eff_fold f acc packages w = (Ok paths, w') ->
  forall id, is_Some (acc !! id) \/ id ∈ r_id <$> packages -> is_Some (paths !! id).
Proof.
  intros Hf. induction packages as [|package packages IH]; intros acc w paths w' Hr id Hid; cbn in Hr.
  { injection Hr as <- _. by destruct Hid as [?|[]%not_elem_of_nil]. }
  eff_inv Hr. apply Hf in Hm as [path ->]. apply (IH _ _ _ _ Hr).
  rewrite fmap_cons, elem_of_cons in Hid. rewrite lookup_insert_is_Some'. naive_solver.
Qed.

Lemma materialize_packages_cover packages w paths w' :
  materialize_packages config packages w = (Ok paths, w') ->
  forall package, package ∈ packages -> is_Some (paths !! r_id package).
Proof.
  intros Hr package Hin. unfold materialize_packages in Hr.
  eff_inv Hr. injection Hm as <- <-. eapply record_loop; [|exact Hr|].
  - intros acc p v acc' v' Hf. eff_inv Hf. injection Hf as <- _. eauto.
  - right. apply list_elem_of_fmap. exists package. split; [done|]. by rewrite completed_perm.
Qed.

Lemma join_tasks_cover packages w paths w' :
  join_tasks config packages w = (Ok paths, w') ->
  forall package, package ∈ packages -> is_Some (paths !! r_id package).
Proof.
  unfold join_tasks. intros Hr. eff_inv Hr. injection Hr as -> ->.
  assert (Hgen : forall acc v paths v', eff_fold (join_task config) acc packages v = (Ok (Ok paths), v') ->
    exists start, acc = Ok start /\
    forall id, is_Some (start !! id) \/ id ∈ r_id <$> packages -> is_Some (paths !! id)).
  { clear. induction packages as [|package packages IH]; intros acc v paths v' Hr; cbn in Hr.
    { injection Hr as -> _. eexists. split; [done|]. by intros id [?|[]%not_elem_of_nil]. }
    eff_inv Hr. apply IH in Hr as (start & -> & Hall). unfold join_task in Hm. eff_inv Hm.
    injection Hm as Hacc _. destruct acc as [acc|]; [|done]. destruct a as [path|]; [|done].
    injection Hacc as <-. exists acc. split; [done|]. intros id. rewrite fmap_cons, elem_of_cons. intros Hid.
    apply Hall. rewrite lookup_insert_is_Some'. naive_solver. }
  apply Hgen in Hm as (start & _ & Hall). intros package Hin. apply Hall. right.
  apply list_elem_of_fmap. eauto.
Qed.

(** Every package of a graph that is keyed by its ids is found in the cache or missing. *)
Definition keyed (graph : ResolutionGraph) : Prop :=
  forall id package, g_packages graph !! id = Some package -> r_id package = id.

Lemma store_cache_cover fs graph package :
  package ∈ btree_values (g_packages graph) ->
  is_Some (cached (check_store_cache fs config graph) !! r_id package) \/
  package ∈ missing (check_store_cache fs config graph).
Proof.
  unfold check_store_cache. set (index := load_store_residency_index_lossy _ _).
  generalize {| cached := ∅; missing := [] |}. induction (btree_values (g_packages graph)) as [|p l IH] using rev_ind.
  { by intros acc []%not_elem_of_nil. }
  intros acc. rewrite fmap_app, foldl_app. cbn [fmap list_fmap foldl]. set (prev := foldl _ _ _).
  rewrite elem_of_app, list_elem_of_singleton. intros Hin.
  assert (Hp : forall id path, (cache_lookup fs (packages_dir config) index p).1 = Some (id, path) -> id = r_id p).
  { intros id path. unfold cache_lookup. cbn zeta. repeat case_match; naive_solver. }
  assert (Hcase : is_Some (cache_lookup fs (packages_dir config) index p).1 \/
                  (cache_lookup fs (packages_dir config) index p).2 = Some p).
  { unfold cache_lookup. cbn zeta. repeat case_match; cbn; eauto. }
  unfold add_lookup. cbn [cached missing]. rewrite elem_of_app.
  destruct (cache_lookup fs (packages_dir config) index p) as [[[id path]|] o] eqn:Hl; cbn [fst snd] in Hp, Hcase |- *.
  - rewrite (Hp _ _ eq_refl). rewrite lookup_insert_is_Some'. destruct Hin as [Hin|<-]; [|by auto].
    destruct (IH acc Hin); tauto.
  - destruct Hcase as [[]| ->]; [done|]. destruct Hin as [Hin| ->]; [|right; right; by left].
    destruct (IH acc Hin); tauto.
Qed.

Lemma materialize_store_cover graph w paths w' :
  keyed graph -> materialize_store config graph w = (Ok paths, w') ->
  forall id, is_Some (g_packages graph !! id) -> is_Some (paths !! id).
Proof.
  intros Hkeyed Hr id [package Hp]. rewrite <-(Hkeyed _ _ Hp).
  eapply materialize_packages_cover; [exact Hr|]. apply elem_of_btree_values. by exists id.
Qed.

Lemma materialize_if_empty_cover graph store_paths w paths w' :
  keyed graph -> (forall id, is_Some (g_packages graph !! id) -> is_Some (store_paths !! id)) ->
  materialize_if_empty config graph store_paths w = (Ok paths, w') ->
  forall id, is_Some (g_packages graph !! id) -> is_Some (paths !! id).
Proof.
  intros Hkeyed Hcover. unfold materialize_if_empty. case_decide; [by apply materialize_store_cover|].
  by intros [= <- _].
Qed.

(** What the resolver announced covers the graph it returned. *)
Lemma resolve_and_store_cover ctx root_dependencies root_protocols optional_root_names w graph paths w' :
  (forall seed, rc_existing_graph ctx = Some seed -> keyed seed) ->
  resolve_and_store config ctx root_dependencies root_protocols optional_root_names w = (Ok (graph, paths), w') ->
  keyed graph /\ forall id, is_Some (g_packages graph !! id) -> is_Some (paths !! id).
Proof.
  intros Hseed Hr. unfold resolve_and_store in Hr. eff_inv Hr. destruct a as [r announced]. eff_inv Hr.
  injection Hm0 as -> <-. eff_inv Hr. injection Hr as <- <- _. unfold eff_of in Hm.
  destruct (resolve_packages _ _ _ _ w) as [a1 w2] eqn:Hres. injection Hm as -> ->.
  destruct (resolve_runs _ _ _ _ _ _ _ _ Hres) as (now & schedule & st & Hrun & Hall & Hfin & <-).
  apply finish_graph in Hfin as (Hpk & _). rewrite Hpk.
  pose proof (finished_packages now ctx Hseed _ _ _ _ Hrun Hall) as Hfinished. split.
  - intros id package. rewrite Hpk. intros [[(seed & Hs & Hp)|(q & meta & deps & Hq & -> & _)] _]%Hfinished; [|done].
    by eapply Hseed.
  - intros id [package Hp]. apply Hfinished in Hp as (_ & p & Hin & <-).
    by eapply join_tasks_cover.
Qed.

Lemma resolve_cold_cover plan root_dependencies force existing_graph w graph paths w' :
  (forall seed, existing_graph = Some seed -> keyed seed) ->
  resolve_cold_install config plan root_dependencies force existing_graph w = (Ok (graph, paths), w') ->
  forall id, is_Some (g_packages graph !! id) -> is_Some (paths !! id).
Proof.
  intros Hseed Hr. unfold resolve_cold_install in Hr. eff_inv Hr. destruct a as [g ps].
  apply resolve_and_store_cover in Hm as [Hkeyed Hcover]; [|done].
  eff_inv Hr. injection Hr as <- <- _. by eapply materialize_if_empty_cover.
Qed.

(** The cache of a warm scenario is that of its graph, now. *)
Definition cache_of_graph (fs : FileSystem) (found : ScenarioResult) : Prop :=
  match scenario found with
  | WarmLinkOnly | WarmPartialCache => exists graph, sr_graph found = Some graph /\
      cache_check found = Some (check_store_cache fs config graph) /\
      (scenario found = WarmLinkOnly -> missing (check_store_cache fs config graph) = [])
  | _ => True
  end.

Lemma detect_from_graph_cache fs project workspace graph force valid :
  cache_of_graph fs (detect_from_graph fs config project workspace graph force valid).
Proof.
  pose proof (detect_from_graph_spec fs config project workspace graph force valid) as Hspec.
  unfold cache_of_graph. destruct (scenario _) eqn:Hs; try done; cbn zeta in Hspec; rewrite Hs in Hspec.
  - destruct Hspec as (? & ? & ?). eauto.
  - destruct Hspec as (? & ? & _). exists graph. by split_and!.
Qed.

Context (canonicalize : string -> result string string).

(** The outcome of [resolve_install_state]. *)
Lemma resolve_install_outcome project plan options w r w' :
  of_store config (pl_lockfile_path plan) = false ->
  resolve_install_state canonicalize config project plan options w = (r, w') ->
  match r with
  | Ok resolved =>
      ri_scenario resolved = scenario (plan_scenario canonicalize (view w) config project plan options) /\
      ri_wrote_lockfile resolved =
        io_include_dev options && (bool_decide (ri_scenario resolved = Cold) || converts (pl_compatible_lockfile plan) (pl_lockfile_path plan) w) /\
      saves (pl_lockfile_path plan) (optional (pl_root_specs plan)) (ri_graph resolved) (ri_wrote_lockfile resolved) w w'
  | Err _ => store_only config w w'
  end.
Proof.
  intros Hout. unfold resolve_install_state.
  intros [(e & [=] & _)|(start & w0 & [= <- <-] & Hr)]%eff_bind_inv.
  set (found := plan_scenario _ _ _ _ _ _) in Hr |- *.
  apply eff_bind_inv in Hr as [(e & Hc & ->)|([] & w1 & Hc & Hr)]; apply check_ages_keeps in Hc; [done|].
  apply eff_bind_inv in Hr as [(e & Hs & ->)|([[graph paths] wrote] & w2 & Hs & Hr)];
    apply resolve_scenario_outcome in Hs; [by transitivity w1|]. destruct Hs as [Hwrote Hsave].
  apply saves_trans with (1 := Hc) in Hsave.
  apply eff_bind_inv in Hr as [(e & Hw & ->)|(wrote' & w3 & Hw & [= <- <-])];
    apply (convert_lockfile_outcome _ _ _ _ _ _ _ _ _ _ Hout Hsave) in Hw; [done|]. destruct Hw as [-> Hw].
  cbn. split_and!; [done| |done]. rewrite Hwrote. by destruct (io_include_dev options).
Qed.

Lemma plan_scenario_cache fs project plan options :
  cache_of_graph fs (plan_scenario canonicalize fs config project plan options).
Proof.
  unfold plan_scenario. destruct (_ && _); [|done]. unfold detect_install_scenario.
  repeat case_match; try done; apply detect_from_graph_cache.
Qed.

Lemma resolve_scenario_cover plan options planned_roots explicit_seed fs found w graph paths wrote w' :
  cache_of_graph fs found ->
  (forall seed, explicit_seed = Some seed \/ sr_graph found = Some seed -> keyed seed) ->
  resolve_scenario config plan options planned_roots explicit_seed found w = (Ok (graph, paths, wrote), w') ->
  scenario found <> Hot -> forall id, is_Some (g_packages graph !! id) -> is_Some (paths !! id).
Proof.
  intros Hcache Hkeyed Hr Hne id [package Hp]. unfold resolve_scenario, cache_of_graph in *.
  destruct (scenario found); [done| | |].
  - destruct Hcache as (g & Hg & Hc & Hm). rewrite Hg, Hc in Hr. repeat (eff_inv Hr).
    injection Hr as <- <- _ _. injection Hm1 as <- _. injection Hm0 as <- _.
    rewrite <-(Hkeyed g (or_intror Hg) _ _ Hp).
    destruct (store_cache_cover fs g package) as [?|Hin]; [apply elem_of_btree_values; by exists id|done|].
    rewrite (Hm eq_refl) in Hin. by apply not_elem_of_nil in Hin.
  - destruct Hcache as (g & Hg & Hc & _). rewrite Hg, Hc in Hr. repeat (eff_inv Hr).
    injection Hr as <- <- _ _. injection Hm0 as <- _. injection Hm as <- _.
    rewrite lookup_union_is_Some, <-(Hkeyed g (or_intror Hg) _ _ Hp).
    destruct (store_cache_cover fs g package) as [?|Hin]; [apply elem_of_btree_values; by exists id|by right|left].
    unfold materialize_missing_packages in Hm1. destruct (missing _); [by apply not_elem_of_nil in Hin|].
    by eapply materialize_packages_cover.
  - eff_inv Hr. destruct a as [g ps].
    assert (g = graph /\ ps = paths) as [-> ->].
    { destruct (io_include_dev options); [eff_inv Hr|]; by injection Hr as <- <- _ _. }
    eapply resolve_cold_cover; [|exact Hm|by exists package].
    intros seed Hs. apply Hkeyed. destruct explicit_seed; auto.
Qed.

(** C3: Whatever is linked has been stored.  When the resolution of an installation
    succeeds, by whichever way (reuse of the cache, download of what is missing, a
    full resolution under any schedule of its concurrent calls), every package of
    the graph has a place in the store; only an installation that is complete
    already needs none. *)
Theorem installed_packages_are_stored project plan options w resolved w' :
  resolve_install_state canonicalize config project plan options w = (Ok resolved, w') ->
  (forall seed, explicit_lockfile_seed canonicalize (view w) config project plan options = Some seed \/
     sr_graph (plan_scenario canonicalize (view w) config project plan options) = Some seed -> keyed seed) ->
  ri_scenario resolved <> Hot ->
  forall id, is_Some (g_packages (ri_graph resolved) !! id) -> is_Some (ri_store_paths resolved !! id).
Proof.
  unfold resolve_install_state. intros Hr Hkeyed. eff_inv Hr. injection Hm as <- <-.
  eff_inv Hr. eff_inv Hr. destruct a0 as [[graph paths] wrote]. eff_inv Hr. injection Hr as <- _. cbn.
  eapply resolve_scenario_cover; [apply plan_scenario_cache|exact Hkeyed|exact Hm0].
Qed.

End install_correct.

(** ** What the lockfile says afterwards *)
Section lockfile_correct.
Context `{SemverCrate} `{DigestCrates} `{LockCrates} `{!LockCratesLaws} `{LayoutJson} `{MetadataJson}
  `{Bincode DiskInstallStateFile} `{Bincode GraphSnapshot} `{Bincode StoreResidencyIndex} `{BinManifestJson} `{Bincode VirtualDependencyState} `{ForeignFormats} `{GitBranch}
  `{TimeCrate} `{Registry} `{Target}
  (canonicalize : string -> result string string).
Context {W : Type} `{!InstallWorld W} `{!InstallWorldLaws W}.

End lockfile_correct.

(** ** Concrete inputs: a project that asks for [app] and [lib] of [ResolverDemo] *)
Module InstallDemo.
#[local] Existing Instance SharingDemo.checksum.
#[local] Existing Instance PlanDemo.formats.
#[local] Existing Instance PlanDemo.no_git.
#[local] Existing Instance PlanDemo.no_layout_json.
#[local] Existing Instance PlanDemo.no_metadata.
#[local] Existing Instance PlanDemo.no_bincode.
#[local] Instance writes_links : Bincode VirtualDependencyState := {| bincode _ := Ok "links"; unbincode _ := Err "unsupported" |}.
#[local] Instance no_bins : BinManifestJson := {| bin_from_str _ := Ok None |}.
#[local] Instance writes_state : Bincode DiskInstallStateFile := {| bincode _ := Ok "state"; unbincode _ := Err "unsupported" |}.
#[local] Existing Instance ResolverDemo.linux.
#[local] Existing Instance ResolverDemo.registry.
#[local] Instance lockfile_crates : LockCrates :=
  LockfileDemo.serializer_of (Write.lockfile_of ResolverDemo.graph ∅).
#[local] Instance lockfile_laws : LockCratesLaws := LockfileDemo.serializer_laws _.
(** The layout that linking leaves. *)
Definition entry (name version : string) : string := "/p/.snpm/" +:+ name +:+ "@" +:+ version +:+ "/node_modules".
Definition shared_entry (name version hash : string) : string :=
  "/tmp/data/virtual-store/" +:+ name +:+ "@" +:+ version +:+ "-" +:+ hash +:+ "/node_modules".
Definition directories : list string :=
  ["/tmp/data/app"; "/tmp/data/lib"; "/tmp/data/tool"; shared_entry "app" "1.0.0" "3938687602716660";
   shared_entry "lib" "2.1.0" "8387179551945401"; shared_entry "tool" "1.0.0" "5494823047771359"] ++
  ["/p"; "/p/node_modules"; "/p/node_modules/.bin"; "/p/.snpm"; entry "app" "1.0.0"; entry "lib" "2.1.0"; entry "tool" "1.0.0"].
Definition links : list string :=
  ["/p/node_modules/app"; "/p/node_modules/lib"; "/p/node_modules/tool";
   entry "app" "1.0.0" +:+ "/app"; entry "lib" "2.1.0" +:+ "/lib"; entry "tool" "1.0.0" +:+ "/tool"].
#[local] Instance demo_world : InstallWorld WorldDemo.DemoWorld :=
  WorldDemo.demo_world ResolverDemo.now ResolverDemo.schedule directories links.
#[local] Instance demo_laws : InstallWorldLaws WorldDemo.DemoWorld :=
  WorldDemo.demo_laws ResolverDemo.now ResolverDemo.schedule directories links.

Definition project : Project := {|
  p_root := "/p"; p_manifest_path := "/p/package.json";
  p_manifest := {| m_name := Some "demo"; m_version := None; m_package_manager := None; m_private := false;
    m_dependencies := ResolverDemo.roots; m_dev_dependencies := ∅;
    m_optional_dependencies := ∅; m_scripts := ∅; m_resolutions := ∅; m_overrides := ∅; m_files := None;
    m_bin := None; m_main := None; m_pnpm := None; m_snpm := None; m_workspaces := None; m_extra := ∅ |} |}.

Definition options : InstallOptions := {|
  io_requested := []; io_dev := false; io_include_dev := true; io_frozen_lockfile := ModePrefer;
  io_strict_no_lockfile := false; io_force := false; io_silent_summary := false |}.

Definition start : WorldDemo.DemoWorld := (disk_with {["/p/package.json" := "{}"]}, []).
Definition offline : WorldDemo.DemoWorld := (disk_with {["/p/package.json" := "{}"; "/offline" := ε]}, []).

Definition plan : ProjectInstallPlan :=
  default PlanDemo.no_plan (result_ok (prepare_install_plan Ok (view start) project options)).

(** The whole installation: what was done, but for directories and removals, what
    changed, and the files at the end.  [lib] and [app] depend on each other. *)
Definition noted (message : string) : bool := negb (starts_with "create" message) && negb (starts_with "remove" message).
Definition app_entry : string := shared_entry "app" "1.0.0" "3938687602716660".
Definition lib_entry : string := shared_entry "lib" "2.1.0" "8387179551945401".
Definition tool_entry : string := shared_entry "tool" "1.0.0" "5494823047771359".
Definition renamed (dir name : string) : string :=
  "rename " +:+ dir +:+ "/." +:+ name +:+ ".linking.7 " +:+ dir +:+ "/" +:+ name.
Example installed :
  let result := install Ok config_for_tests project options start in
  filter (fun message => noted message = true) result.2.2 =
  ["client"; "resolve"; "store app"; "store lib"; "store tool";
   renamed app_entry "app"; "symlink " +:+ app_entry +:+ "/lib"; "symlink " +:+ app_entry +:+ "/tool";
   renamed lib_entry "lib"; "symlink " +:+ lib_entry +:+ "/app"; renamed tool_entry "tool";
   "symlink /p/.snpm/app@1.0.0/node_modules/app"; "symlink /p/.snpm/lib@2.1.0/node_modules/lib";
   "symlink /p/.snpm/tool@1.0.0/node_modules/tool"; "symlink /p/node_modules/app"; "symlink /p/node_modules/lib";
   "symlink /p/node_modules/app"; "symlink /p/node_modules/lib"; "symlink /p/node_modules/tool"; "project scripts /p"] /\
  (fun r => (package_count r.2, changes r.2)) <$> result_ok result.1 =
  Some (3, [("app", "1.0.0", false); ("lib", "2.1.0", false)]) /\
  filter (fun path => starts_with "/p/" path = true) (btree_iter (files result.2.1)).*1 =
  ["/p/.snpm-install-state"; "/p/node_modules/.snpm-integrity"; "/p/package.json"; "/p/snpm-lock.bin"; "/p/snpm-lock.yaml"].
Proof. cbn zeta. split_and!; vm_refl. Qed.

(** What the resolution of [start] gave. *)
Definition outcome : Result ResolvedInstall * WorldDemo.DemoWorld :=
  resolve_install_state Ok config_for_tests project plan options start.
Definition nothing : ResolvedInstall := {|
  ri_scenario := Cold; ri_graph := {| g_root := ∅; g_packages := ∅ |}; ri_store_paths := ∅; ri_integrity_state := None;
  ri_wrote_lockfile := false; ri_hot_install_state_current := false |}.
Definition resolved : ResolvedInstall := default nothing (result_ok outcome.1).

Lemma ran : resolve_install_state Ok config_for_tests project plan options start = (Ok resolved, outcome.2).
Proof. vm_refl. Qed.

Lemma installed_packages_are_stored_witness :
  size (g_packages (ri_graph resolved)) = 3 /\
  is_Some (ri_store_paths resolved !! ResolverDemo.id "lib" "2.1.0").
Proof.
  split; [vm_refl|].
  apply (installed_packages_are_stored config_for_tests Ok project plan options start resolved outcome.2 ran);
    [|vm_compute; done|vm_compute; eauto].
  intros seed Hseed. exfalso. revert Hseed.
  assert (explicit_lockfile_seed Ok (view start) config_for_tests project plan options = None) as -> by vm_refl.
  assert (sr_graph (plan_scenario Ok (view start) config_for_tests project plan options) = None) as -> by vm_refl.
  by intros [].
Defined.


End InstallDemo.
