(* ===== verification/Staleness.v ===== *)
(** * Whether an installation is due ([operations/lazy/])

    Before a script runs, snpm looks whether what is installed still answers the
    manifest, and installs if it does not.  The check asks the same files as
    [Scenario], but only the shortcut of the state file.  Messages are left out. *)
From S2P Require Import Prelude.
From S2P Require Import BTree.
From S2P Require Import Text.
From S2P Require Import Errors.
From S2P Require Import Types.
From S2P Require Import Paths.
From S2P Require Import Specs.
From S2P Require Import Crates.
From S2P Require Import Peers.
From S2P Require Import Lockfile.
From S2P Require Import Resolver.
From S2P Require Import Roots.
From S2P Require Import Config.
From S2P Require Import Store.
From S2P Require Import Patches.
From S2P Require Import Scripts.
From S2P Require Import Linker.
From S2P Require Import Sharing.
From S2P Require Import Layout.
From S2P Require Import InstallState.
From S2P Require Import Residency.
From S2P Require Import Discovery.
From S2P Require Import Importers.
From S2P Require Import Scenario.
From S2P Require Import Plan.
From S2P Require Import World.
From S2P Require Import LinkFs.
From S2P Require Import LinkStore.
From S2P Require Import Install.

(** ** [staleness.rs] *)
Inductive StalenessReason :=
| NoLockfile | NoNodeModules | NoIntegrityFile | IntegrityMismatch | LayoutMismatch | ManifestChanged.

Record StalenessCheck := { is_stale : bool; reason : option StalenessReason }.
Definition stale (why : StalenessReason) : StalenessCheck := {| is_stale := true; reason := Some why |}.
Definition fresh : StalenessCheck := {| is_stale := false; reason := None |}.

Section staleness.
Context `{SemverCrate} `{DigestCrates} `{LockCrates} `{LayoutJson} `{Bincode DiskInstallStateFile} `{ForeignFormats}
  (canonicalize : string -> result string string) (fs : FileSystem).

(** [manifest.rs::build_manifest_root]; the sets of local dependencies are not used,
    and the sections are looked at even if the roots come from the workspace. *)
Definition build_manifest_root (project : Project) (workspace : option Workspace) : Result RootSpecSet :=
  catalog ← load_catalog fs project workspace;
  let section specs := applied ← apply_specs specs workspace catalog ∅ None; Ok (ap_result applied) in
  dependencies ← section (m_dependencies (p_manifest project));
  development_dependencies ← section (m_dev_dependencies (p_manifest project));
  optional_dependencies ← section (m_optional_dependencies (p_manifest project));
  match workspace with
  | Some workspace => collect_workspace_root_specs canonicalize workspace true
  | None => Ok (build_project_root_specs dependencies development_dependencies optional_dependencies true)
  end.

Definition load_state_fast (config : SnpmConfig) (project : Project) (workspace : option Workspace) (lockfile_path : string)
    (manifest_specs : RootSpecSet) : option CachedInstallState :=
  match workspace with
  | Some workspace =>
      load_workspace_install_state_fast fs config workspace lockfile_path (required manifest_specs) (optional manifest_specs) true
  | None =>
      load_project_install_state_fast fs config project None lockfile_path (required manifest_specs) (optional manifest_specs) true
  end.

(** What both ways do with the graph they found. *)
Definition check_graph (project : Project) (graph : ResolutionGraph) (layout_matches : bool) : StalenessCheck :=
  match build_project_integrity_state fs project graph with
  | Err _ => stale IntegrityMismatch
  | Ok integrity_state =>
      if negb (check_integrity_file fs project integrity_state) then stale IntegrityMismatch
      else if negb layout_matches then stale LayoutMismatch
      else fresh
  end.

Definition check_cached_install_state (config : SnpmConfig) (project : Project) (workspace : option Workspace)
    (lockfile_path : string) (manifest_specs : RootSpecSet) : option StalenessCheck :=
  cached ← load_state_fast config project workspace lockfile_path manifest_specs;
  Some (if negb (ci_root_specs_matches cached) then stale ManifestChanged
        else check_graph project (ci_graph cached) (ci_layout_valid cached)).

Definition root_of (project : Project) (workspace : option Workspace) : string :=
  match workspace with Some workspace => w_root workspace | None => p_root project end.
Definition lockfile_path_of (project : Project) (workspace : option Workspace) : string :=
  path_push (root_of project workspace) "snpm-lock.yaml".
Definition node_modules_of (project : Project) : string := path_push (p_root project) "node_modules".

Definition layout_state (config : SnpmConfig) (project : Project) (workspace : option Workspace) (graph : ResolutionGraph) : bool :=
  match workspace with
  | Some workspace => check_workspace_layout_state fs config workspace graph true
  | None => check_project_layout_state fs config project None graph true
  end.

Definition check_staleness (config : SnpmConfig) (project : Project) (workspace : option Workspace) : StalenessCheck :=
  let lockfile_path := lockfile_path_of project workspace in
  if negb (is_file fs lockfile_path) then stale NoLockfile else
  if negb (is_dir fs (node_modules_of project)) then stale NoNodeModules else
  if negb (is_file fs (path_push (node_modules_of project) ".snpm-integrity")) then stale NoIntegrityFile else
  match build_manifest_root project workspace with
  | Err _ => stale ManifestChanged
  | Ok manifest_specs =>
      match check_cached_install_state config project workspace lockfile_path manifest_specs with
      | Some check => check
      | None =>
          match read_with (fs_bytes fs) lockfile_path with
          | Err _ => stale NoLockfile
          | Ok existing_lockfile =>
              if negb (root_specs_match existing_lockfile (required manifest_specs) (optional manifest_specs))
              then stale ManifestChanged
              else
                let graph := Lockfile.Graph.to_graph existing_lockfile in
                check_graph project graph (layout_state config project workspace graph)
          end
      end
  end.
End staleness.

(** ** [mod.rs] *)
Section lazy.
Context `{SemverCrate} `{DigestCrates} `{LockCrates} `{LayoutJson} `{MetadataJson}
  `{Bincode DiskInstallStateFile} `{Bincode GraphSnapshot} `{Bincode StoreResidencyIndex} `{BinManifestJson} `{Bincode VirtualDependencyState} `{ForeignFormats} `{GitBranch}
  `{TimeCrate} `{Registry} `{Target}
  (canonicalize : string -> result string string).
Context {W : Type} `{!InstallWorld W}.

Definition is_stale_with_config (w : W) (config : SnpmConfig) (project : Project) : bool :=
  let workspace := match discover_workspace (view w) (p_root project) with Ok workspace => workspace | Err _ => None end in
  is_stale (check_staleness canonicalize (view w) config project workspace).

Definition lazy_options (frozen_lockfile : FrozenLockfileMode) (strict_no_lockfile : bool) : InstallOptions := {|
  io_requested := []; io_dev := false; io_include_dev := true; io_frozen_lockfile := frozen_lockfile;
  io_strict_no_lockfile := strict_no_lockfile; io_force := false; io_silent_summary := true |}.

Definition lazy_install_with_mode (config : SnpmConfig) (project : Project) (frozen_lockfile : FrozenLockfileMode)
    (strict_no_lockfile : bool) : Eff W Project :=
  w ← world;
  workspace ← lift (discover_workspace (view w) (p_root project));
  if negb (is_stale (check_staleness canonicalize (view w) config project workspace)) then mret project else
  '(project, _) ← install canonicalize config project (lazy_options frozen_lockfile strict_no_lockfile);
  mret project.

(** [ci]: whether the environment has [CI]. *)
Definition lazy_install (ci : bool) (config : SnpmConfig) (project : Project) : Eff W Project :=
  lazy_install_with_mode config project (from_config_default ci (c_frozen_lockfile_default config)) false.
End lazy.

(** ** What being fresh means *)
Section staleness_correct.
Context `{SemverCrate} `{DigestCrates} `{LockCrates} `{LayoutJson} `{Bincode DiskInstallStateFile} `{ForeignFormats}
  (canonicalize : string -> result string string) (fs : FileSystem).

(** The state file, which was written for this lockfile and these roots. *)
Definition state_answers (project : Project) (workspace : option Workspace) (specs : RootSpecSet) (graph : ResolutionGraph) : Prop :=
  exists file, read_valid_install_state fs (install_state_path (root_of project workspace)) (lockfile_path_of project workspace) = Some file /\
    gs_graph (is_graph_snapshot file) = graph /\ gs_root_specs_hash (is_graph_snapshot file) = root_specs_hash (required specs) (optional specs).

(** The lockfile, which lists these requests. *)
Definition lockfile_answers (project : Project) (workspace : option Workspace) (specs : RootSpecSet) (graph : ResolutionGraph) : Prop :=
  exists existing, read_with (fs_bytes fs) (lockfile_path_of project workspace) = Ok existing /\
    root_specs_match existing (required specs) (optional specs) = true /\ graph = Lockfile.Graph.to_graph existing.

Lemma check_graph_fresh project graph layout : check_graph fs project graph layout = fresh <->
  layout = true /\ exists state, build_project_integrity_state fs project graph = Ok state /\ check_integrity_file fs project state = true.
Proof.
  unfold check_graph. destruct (build_project_integrity_state _ _ _) as [state|e]; [|split; [done|by intros (_ & ? & ? & _)]].
  split.
  - destruct (check_integrity_file _ _ state) eqn:Hi; [|done]. destruct layout; [|done]. intros _. split; [done|]. by exists state.
  - by intros (-> & ? & [= <-] & ->).
Qed.

Lemma load_state_fast_Some config project workspace specs cached :
  load_state_fast fs config project workspace (lockfile_path_of project workspace) specs = Some cached -> ci_root_specs_matches cached = true ->
  state_answers project workspace specs (ci_graph cached).
Proof.
  unfold load_state_fast, load_workspace_install_state_fast, load_project_install_state_fast, state_answers, root_of.
  destruct workspace as [ws|]; intros (file & Hread & [= <-])%bind_Some Hm%String.eqb_eq; by exists file.
Qed.

(** No installation is skipped that is due.  Where the check finds nothing stale
    the lockfile is there, the manifest can be read, and the state file was written
    for this lockfile and these roots or the lockfile lists them; for that graph the
    integrity file of the project names the graph and the patches, and the layout is
    as expected, by the state file or by the checks. *)
Theorem fresh_is_installed config project workspace :
  check_staleness canonicalize fs config project workspace = fresh ->
  is_file fs (lockfile_path_of project workspace) = true /\ is_dir fs (node_modules_of project) = true /\
  exists specs graph state, build_manifest_root canonicalize fs project workspace = Ok specs /\
    build_project_integrity_state fs project graph = Ok state /\ check_integrity_file fs project state = true /\
    ((state_answers project workspace specs graph /\
      exists cached, load_state_fast fs config project workspace (lockfile_path_of project workspace) specs = Some cached /\
        ci_graph cached = graph /\ ci_layout_valid cached = true) \/
     (lockfile_answers project workspace specs graph /\ layout_state fs config project workspace graph = true)).
Proof.
  unfold check_staleness. destruct (is_file fs (lockfile_path_of _ _)) eqn:Hlock; [|done].
  destruct (is_dir fs (node_modules_of project)) eqn:Hnm; [|done]. destruct (is_file fs (path_push _ _)) eqn:Hint; [|done].
  cbn [negb]. destruct (build_manifest_root _ _ _ _) as [specs|]; [|done]. unfold check_cached_install_state.
  destruct (load_state_fast _ _ _ _ _ _) as [cached|] eqn:Hload; cbn [mbind option_bind].
  - destruct (ci_root_specs_matches cached) eqn:Hm; [|done]. cbn [negb].
    intros (Hlayout & state & Hstate & Hcheck)%check_graph_fresh. split_and!; [done..|].
    exists specs, (ci_graph cached), state. split_and!; [done..|]. left.
    split; [by eapply load_state_fast_Some|]. by exists cached.
  - destruct (read_with _ _) as [existing|] eqn:Hread; [|done].
    destruct (root_specs_match _ _ _) eqn:Hm; [|done]. cbn [negb]. cbv zeta.
    intros (Hlayout & state & Hstate & Hcheck)%check_graph_fresh. split_and!; [done..|].
    exists specs, (Lockfile.Graph.to_graph existing), state. split_and!; [done..|]. right. split; [|done]. by exists existing.
Qed.
End staleness_correct.

(** ** What was installed is not installed again *)
Section after_install.
Context `{SemverCrate} `{DigestCrates} `{LockCrates} `{LayoutJson} `{MetadataJson}
  `{Bincode GraphSnapshot} `{Bincode StoreResidencyIndex} `{BinManifestJson} `{Bincode VirtualDependencyState} `{ForeignFormats} `{GitBranch}
  `{TimeCrate} `{Registry} `{Target} `{BincodeLaws DiskInstallStateFile}
  (canonicalize : string -> result string string).

(** What an installation of a project leaves: its state and integrity files as they
    were written, a layout that passes its checks, and the lockfile and the roots as
    they were. *)
Definition left_as_installed (fs0 fs : FileSystem) (config : SnpmConfig) (project : Project) (graph : ResolutionGraph) : Prop :=
  let lockfile_path := lockfile_path_of project None in
  exists specs path data state,
    build_manifest_root canonicalize fs project None = Ok specs /\
    write_project_install_state fs0 config project None lockfile_path (required specs) (optional specs) graph true = Ok (path, data) /\
    fs_bytes fs path = Ok data /\
    is_file fs lockfile_path = true /\ source_capture fs lockfile_path = source_capture fs0 lockfile_path /\
    build_project_layout_hash fs config project None graph true = build_project_layout_hash fs0 config project None graph true /\
    (forall checks, capture_project_checks fs0 config project None graph true = Ok checks -> forallb (check_layout fs) checks = true) /\
    build_project_integrity_state fs project graph = Ok state /\
    is_file fs (path_push (node_modules_of project) ".snpm-integrity") = true /\
    read_to_string fs (path_push (node_modules_of project) ".snpm-integrity") = Ok (integrity_content state) /\
    is_dir fs (node_modules_of project) = true /\ is_dir fs (path_push (p_root project) ".snpm") = true.

Lemma installed_is_fresh fs0 fs config project graph : left_as_installed fs0 fs config project graph ->
  check_staleness canonicalize fs config project None = fresh.
Proof.
  intros (specs & path & data & state & Hroots & Hw & Hd & Hfile & Hsrc & Hhash & Hchecks & Hstate & Hif & Hint & Hnm & Hvs).
  unfold check_staleness. rewrite Hfile, Hnm, Hif, Hroots. cbn [negb]. unfold check_cached_install_state, load_state_fast.
  destruct (written_state_loads fs0 fs config project None _ _ _ graph true path data config (required specs) (optional specs) true
    Hw Hd Hsrc) as (layout_hash & checks & Hh & Hc & Hload).
  rewrite Hhash, Hh, !String.eqb_refl, (Hchecks checks Hc) in Hload. cbn [andb] in Hload.
  rewrite (fast_state_of_full fs0 fs config project None _ _ _ graph true path data _ Hw Hd Hload eq_refl Hnm Hvs).
  cbn [mbind option_bind ci_root_specs_matches negb ci_graph ci_layout_valid]. f_equal.
  apply check_graph_fresh. split; [done|]. exists state. split; [done|].
  unfold check_integrity_file, check_integrity_path. fold (node_modules_of project). by rewrite Hint, String.eqb_refl.
Qed.

End after_install.

(** ** The project of [InstallDemo], installed *)
Module StalenessDemo.
Import InstallDemo.
#[local] Existing Instance SharingDemo.checksum.
#[local] Existing Instance PlanDemo.formats.
#[local] Existing Instance PlanDemo.no_git.
#[local] Existing Instance PlanDemo.no_layout_json.
#[local] Existing Instance PlanDemo.no_metadata.
#[local] Existing Instance PlanDemo.no_bincode.
#[local] Existing Instance InstallDemo.writes_links.
#[local] Existing Instance InstallDemo.no_bins.
#[local] Existing Instance ResolverDemo.linux.
#[local] Existing Instance ResolverDemo.registry.
#[local] Existing Instance InstallDemo.lockfile_crates.
(** The entries of the store are there, too. *)
#[local] Instance stored_world : InstallWorld WorldDemo.DemoWorld :=
  WorldDemo.demo_world ResolverDemo.now ResolverDemo.schedule ("/store/entry" :: directories) links.

Definition graph : ResolutionGraph := ResolverDemo.graph.
Definition hashes : IntegrityState := {| lockfile_hash := compute_lockfile_hash graph; patch_hash := NO_PATCH_HASH |}.

(** The files an installation leaves, as [InstallDemo.installed] has them. *)
Definition left_files (integrity : string) : gmap string string :=
  {["/p/.snpm-install-state" := "state"; "/p/node_modules/.snpm-integrity" := integrity; "/p/package.json" := "{}";
    "/p/snpm-lock.bin" := "SNPB   yaml0000000000000000000000000000bin"; "/p/snpm-lock.yaml" := "yaml"; path_push "/store/entry" PACKAGE_METADATA_FILE := "{}"]}.
Definition after_install : WorldDemo.DemoWorld := (disk_with (left_files (integrity_content hashes)), []).
Definition fs : FileSystem := view after_install.

Definition saved_state : DiskInstallStateFile := from_memory {|
  is_version := INSTALL_STATE_VERSION;
  is_graph_snapshot := {|
    gs_source := ScenarioDemo.get {| ss_path := ε; ss_length := 0; ss_modified_seconds := 0; ss_modified_nanoseconds := 0 |}
                   (source_capture fs "/p/snpm-lock.yaml");
    gs_root_specs_hash := root_specs_hash ResolverDemo.roots ∅;
    gs_graph := graph |};
  is_layout := {|
    ls_layout_hash := ScenarioDemo.get ε (build_project_layout_hash fs config_for_tests project None graph true);
    ls_checks := stored_check <$> ScenarioDemo.get [] (capture_project_checks fs config_for_tests project None graph true) |} |}.

#[local] Instance one_state : Bincode DiskInstallStateFile := {|
  bincode s := if decide (s = saved_state) then Ok "state" else Err "unsupported";
  unbincode b := if b == "state" then Ok saved_state else Err "unsupported" |}.
#[local] Instance one_state_laws : BincodeLaws DiskInstallStateFile.
Proof.
  split. intros a data. unfold bincode, unbincode, one_state. case_decide as Ha; [|done]. intros [= <-]. by rewrite Ha.
Qed.

Lemma left : left_as_installed Ok fs fs config_for_tests project graph.
Proof.
  exists {| required := ResolverDemo.roots; optional := ∅ |}, "/p/.snpm-install-state", "state", hashes.
  split_and!; [vm_refl|vm_refl|vm_refl|vm_refl|done|done| |vm_refl|vm_refl|vm_refl|vm_refl|vm_refl].
  intros checks Hc. apply (f_equal (ScenarioDemo.get [])) in Hc. cbn [ScenarioDemo.get] in Hc. rewrite <-Hc. vm_refl.
Qed.


(** Where the manifest asks for something else, or the integrity file names another
    graph, an installation is due. *)
Definition changed : Project := {|
  p_root := "/p"; p_manifest_path := "/p/package.json"; p_manifest := LinkerDemo.manifest ["app"] [] [] |}.
Example stale_project :
  check_staleness Ok fs config_for_tests changed None = stale ManifestChanged /\
  check_staleness Ok (view (disk_with (left_files "lockfile: 0"), [])) config_for_tests project None = stale IntegrityMismatch /\
  check_staleness Ok (view start) config_for_tests project None = stale NoLockfile.
Proof. split_and!; vm_refl. Qed.

Lemma fresh_is_installed_witness :
  is_file fs (lockfile_path_of project None) = true /\
  exists specs graph, build_manifest_root Ok fs project None = Ok specs /\
    (state_answers fs project None specs graph \/ lockfile_answers fs project None specs graph).
Proof.
  destruct (fresh_is_installed Ok fs config_for_tests project None) as (Hf & _ & specs & graph & state & Hs & _ & _ & Ha); [vm_refl|].
  split; [exact Hf|]. exists specs, graph. split; [exact Hs|]. destruct Ha as [[Ha _]|[Ha _]]; [by left|by right].
Defined.

(** An override decides what the roots of a workspace are for an installation; the
    check leaves it out, and so never finds the workspace fresh. *)
Definition member (name range : string) : Project := {|
  p_root := "/w/" +:+ name; p_manifest_path := "/w/" +:+ name +:+ "/package.json";
  p_manifest := set_sections (LinkerDemo.manifest [] [] []) ({["lib" := range]}, ∅, ∅) |}.
Definition overridden : Workspace :=
  {| w_root := "/w"; w_projects := [member "a" "^1.0.0"]; w_config := empty_workspace_config |}.
Example overrides_are_ignored :
  collect_workspace_root_specs_with_overrides Ok overridden true {["lib" := "^2.0.0"]} =
    Ok {| required := {["lib" := "^2.0.0"]}; optional := ∅ |} /\
  build_manifest_root Ok fs (member "a" "^1.0.0") (Some overridden) =
    Ok {| required := {["lib" := "^1.0.0"]}; optional := ∅ |}.
Proof. split; vm_refl. Qed.
End StalenessDemo.
