(* ===== verification/Maintenance.v ===== *)
(** * Maintenance of a project ([operations/install/maintenance/])

    [remove], [upgrade] and [outdated]: what they make of the manifest, when they
    write it, and the installation that follows.  Messages on the terminal are
    left out. *)
From S2P Require Import Prelude.
From S2P Require Import BTree.
From S2P Require Import Text.
From S2P Require Import Errors.
From S2P Require Import Types.
From S2P Require Import Paths.
From S2P Require Import Specs.
From S2P Require Import Crates.
From S2P Require Import Semver.
From S2P Require Import Select.
From S2P Require Import Peers.
From S2P Require Import Lockfile.
From S2P Require Import Resolver.
From S2P Require Import Roots.
From S2P Require Import Config.
From S2P Require Import Store.
From S2P Require Import Patches.
From S2P Require Import Linker.
From S2P Require Import Sharing.
From S2P Require Import Layout.
From S2P Require Import InstallState.
From S2P Require Import Residency.
From S2P Require Import Discovery.
From S2P Require Import Importers.
From S2P Require Import Scenario.
From S2P Require Import Plan.
From S2P Require Import World.
From S2P Require Import LinkFs.
From S2P Require Import LinkStore.
From S2P Require Import Install.

(** ** Specifiers ([mutations.rs]) *)
Definition is_plain_version (spec : string) : bool :=
  let bare := default spec (strip_prefix "v" spec) in
  match bare with
  | ε => false
  | String first _ =>
      is_ascii_digit first
      && all_chars (fun c => is_ascii_alphanumeric c || Ascii.eqb c "." || Ascii.eqb c "-" || Ascii.eqb c "+") bare
      && (count_chars (Ascii.eqb ".") (default ε (head (split_by (fun c => Ascii.eqb c "-" || Ascii.eqb c "+") bare))) =? 2)%nat
  end.

Definition rewrite_spec_preserving_operator (current wanted : string) : string :=
  let current := trim current in
  match strip_prefix "~" current with
  | Some (String _ _) => "~" +:+ wanted
  | _ => if is_plain_version current then wanted else "^" +:+ wanted
  end.

Definition is_registry_unresolvable_spec (spec : string) : bool :=
  Manifests.is_special_protocol_spec spec || starts_with "file:" spec.

(** ** The manifest *)
Definition sections_of (manifest : Manifest) : Sections :=
  (m_dependencies manifest, m_dev_dependencies manifest, m_optional_dependencies manifest).

(** [get_mut(name)] and its condition. *)
Definition upgradable (section : gmap string string) (name : string) : option string :=
  match section !! name with
  | Some current => if Manifests.is_special_protocol_spec current then None else Some current
  | None => None
  end.

(** The manifest after it, and whether it was changed. *)
Definition update_manifest_entry (manifest : Manifest) (name wanted : string) (production : bool) : Manifest * bool :=
  let '(dependencies, dev_dependencies, optional_dependencies) := sections_of manifest in
  let rewritten current := rewrite_spec_preserving_operator current wanted in
  match upgradable dependencies name with
  | Some current => (set_sections manifest (<[name := rewritten current]> dependencies, dev_dependencies, optional_dependencies), true)
  | None =>
  match if production then None else upgradable dev_dependencies name with
  | Some current => (set_sections manifest (dependencies, <[name := rewritten current]> dev_dependencies, optional_dependencies), true)
  | None =>
  match upgradable optional_dependencies name with
  | Some current => (set_sections manifest (dependencies, dev_dependencies, <[name := rewritten current]> optional_dependencies), true)
  | None => (manifest, false)
  end end end.

Definition remove_entry (manifest : Manifest) (spec : string) : Manifest :=
  let name := (Manifests.parse_spec spec).1 in
  set_sections manifest
    (delete name (m_dependencies manifest), delete name (m_dev_dependencies manifest),
     delete name (m_optional_dependencies manifest)).

Definition collect_upgradable_names (manifest : Manifest) (include_dev : bool) : list string :=
  bset_iter (list_to_set (btree_keys (m_dependencies manifest) ++ btree_keys (m_optional_dependencies manifest)
                          ++ if include_dev then btree_keys (m_dev_dependencies manifest) else [])).

Definition current_spec (manifest : Manifest) (name : string) : option string :=
  match m_dependencies manifest !! name with
  | Some spec => Some spec
  | None => match m_dev_dependencies manifest !! name with
            | Some spec => Some spec
            | None => m_optional_dependencies manifest !! name
            end
  end.

(** ** [utils/types.rs], [outdated/] *)
Record OutdatedEntry := {
  oe_name : string;
  oe_current : option string;
  oe_wanted : string;
  oe_latest : option string;
}.

Definition wanted_versions (entries : list OutdatedEntry) : gmap string string :=
  foldl (fun wanted_by_name entry => <[oe_name entry := oe_wanted entry]> wanted_by_name) ∅ entries.

Definition collect_manifest_names (include_dev : bool) (dependencies development_dependencies : gmap string string)
  : gset string :=
  dom dependencies ∪ if include_dev then dom development_dependencies else ∅.

Definition build_outdated_entries (include_dev : bool) (dependencies development_dependencies current_versions : gmap string string)
    (resolved_roots : gmap string RootDependency) : list OutdatedEntry :=
  omap (fun name =>
    root_dep ← (resolved_roots !! name : option RootDependency);
    Some {| oe_name := name; oe_current := current_versions !! name; oe_wanted := id_version (rd_resolved root_dep);
            oe_latest := None |})
    (bset_iter (collect_manifest_names include_dev dependencies development_dependencies)).

Record ResolvedManifestDependencies := {
  rd_dependencies : gmap string string;
  rd_development_dependencies : gmap string string;
  rd_protocols : gmap string RegistryProtocol;
}.

Definition outdated_root_protocols (root_dependencies : gmap string string) (manifest_protocols : gmap string RegistryProtocol)
  : gmap string RegistryProtocol :=
  foldl (fun root_protocols name => <[name := default npm (manifest_protocols !! name)]> root_protocols) ∅
    (btree_keys root_dependencies).

Section maintenance.
Context `{SemverCrate} `{DigestCrates} `{LockCrates} `{LayoutJson} `{MetadataJson}
  `{Bincode DiskInstallStateFile} `{Bincode GraphSnapshot} `{Bincode StoreResidencyIndex} `{BinManifestJson} `{Bincode VirtualDependencyState} `{ForeignFormats} `{GitBranch}
  `{TimeCrate} `{Registry} `{Target}
  (canonicalize : string -> result string string).
Context {W : Type} `{!InstallWorld W}.

Definition version_is_newer (candidate baseline : string) : bool :=
  match parse_version candidate, parse_version baseline with
  | Ok candidate, Ok baseline => negb (bool_decide (version_le candidate baseline))
  | _, _ => false
  end.

(** [config.rs::load_overrides] *)
Definition outdated_overrides (fs : FileSystem) (project : Project) (workspace : option Workspace) : Result (gmap string string) :=
  let root := match workspace with Some workspace => w_root workspace | None => p_root project end in
  overrides ← load_overrides_config fs root;
  let manifest_owner :=
    default project (workspace ← workspace; found ← list_find (fun member => path_eq (p_root member) (w_root workspace) = true)
                                                        (w_projects workspace); Some found.2) in
  merge_manifest_overrides manifest_owner (default ∅ overrides).

Definition resolve_manifest_dependencies (project : Project) (workspace : option Workspace) (catalog : option CatalogConfig)
  : Result ResolvedManifestDependencies :=
  dependencies ← apply_specs (m_dependencies (p_manifest project)) workspace catalog ∅ (Some ∅);
  development ← apply_specs (m_dev_dependencies (p_manifest project)) workspace catalog ∅ (ap_protocols dependencies);
  Ok {| rd_dependencies := ap_result dependencies;
        rd_development_dependencies := ap_result development;
        rd_protocols := default ∅ (ap_protocols development) |}.

Definition build_root_dependencies (project : Project) (workspace : option Workspace)
    (dependencies development_dependencies : gmap string string) (include_dev : bool) : Result (gmap string string) :=
  match workspace with
  | Some workspace => collect_workspace_root_deps canonicalize workspace include_dev
  | None => Ok (build_project_manifest_root dependencies development_dependencies
                  (m_optional_dependencies (p_manifest project)) include_dev)
  end.

Definition read_current_versions (fs : FileSystem) (project : Project) (workspace : option Workspace)
  : Result (gmap string string) :=
  let root := match workspace with Some workspace => w_root workspace | None => p_root project end in
  let lockfile_path := path_push root "snpm-lock.yaml" in
  if is_file fs lockfile_path then
    existing ← Lockfile.read_with (fs_bytes fs) lockfile_path;
    Ok (omap ld_version (l_root existing))
  else Ok ∅.

(** [enrich_with_latest]: one entry; failures are only counted. *)
Definition enrich_entry (root_protocols : gmap string RegistryProtocol) (dependencies development_dependencies : gmap string string)
    (entry : OutdatedEntry) : OutdatedEntry :=
  let protocol := default npm (root_protocols !! oe_name entry) in
  if negb (protocol_name protocol == "npm") then entry else
  let spec := match dependencies !! oe_name entry with
              | Some spec => Some spec
              | None => development_dependencies !! oe_name entry
              end in
  if match spec with Some spec => is_registry_unresolvable_spec spec | None => false end then entry else
  match fetch_registry_package (oe_name entry) protocol with
  | Ok package => {| oe_name := oe_name entry; oe_current := oe_current entry; oe_wanted := oe_wanted entry;
                     oe_latest := rp_dist_tags package !! "latest" |}
  | Err _ => entry
  end.

Definition reported (entry : OutdatedEntry) : bool :=
  negb (bool_decide (oe_current entry = Some (oe_wanted entry)))
  || match oe_latest entry with Some latest => version_is_newer latest (oe_wanted entry) | None => false end.

Definition outdated (config : SnpmConfig) (project : Project) (include_dev force : bool) : Eff W (list OutdatedEntry) :=
  start ← world;
  let fs := view start in
  workspace ← lift (discover_workspace fs (p_root project));
  _ ← create_client;
  overrides ← lift (outdated_overrides fs project workspace);
  catalog ← lift (load_catalog fs project workspace);
  resolved_manifest ← lift (resolve_manifest_dependencies project workspace catalog);
  root_dependencies ← lift (build_root_dependencies project workspace (rd_dependencies resolved_manifest)
                              (rd_development_dependencies resolved_manifest) include_dev);
  let root_protocols := outdated_root_protocols root_dependencies (rd_protocols resolved_manifest) in
  '(graph, _) ← eff_of (resolve_packages (resolver_context config overrides None force None) root_dependencies root_protocols ∅);
  graph ← lift graph;
  now ← world;
  current_versions ← lift (read_current_versions (view now) project workspace);
  let entries := build_outdated_entries include_dev (rd_dependencies resolved_manifest)
                   (rd_development_dependencies resolved_manifest) current_versions (g_root graph) in
  mret (filter (fun entry => reported entry = true)
    (enrich_entry root_protocols (rd_dependencies resolved_manifest) (rd_development_dependencies resolved_manifest) <$> entries)).

(** ** [mutations.rs] *)
Definition reinstall (config : SnpmConfig) (project : Project) (include_dev : bool) (frozen_lockfile : FrozenLockfileMode)
    (strict_no_lockfile force : bool) : Eff W Project :=
  '(project, _) ← install canonicalize config project
    {| io_requested := []; io_dev := false; io_include_dev := include_dev; io_frozen_lockfile := frozen_lockfile;
       io_strict_no_lockfile := strict_no_lockfile; io_force := force; io_silent_summary := false |};
  mret project.

Definition save_manifest (project : Project) (manifest : Manifest) : Eff W Project :=
  let project := with_manifest project manifest in
  _ ← project_write_manifest project; mret project.

Definition remove (config : SnpmConfig) (project : Project) (specs : list string) (frozen_lockfile : FrozenLockfileMode)
    (strict_no_lockfile : bool) : Eff W Project :=
  if decide (specs = []) then mret project else
  if decide (frozen_lockfile = ModeFrozen) then lift (Err (Internal "cannot remove packages when using frozen-lockfile")) else
  project ← save_manifest project (foldl remove_entry (p_manifest project) specs);
  reinstall config project true frozen_lockfile strict_no_lockfile false.

(** One package of [upgrade]. *)
Definition upgrade_entry (wanted_by_name : gmap string string) (production : bool) (acc : Manifest * bool) (spec : string)
  : Manifest * bool :=
  let name := (Manifests.parse_spec spec).1 in
  match wanted_by_name !! name with
  | None => acc
  | Some wanted => let '(manifest, updated) := update_manifest_entry acc.1 name wanted production in (manifest, acc.2 || updated)
  end.

(** One package of [upgrade_to_latest]; what cannot be fetched or chosen is only
    reported. *)
Definition upgrade_latest_entry (config : SnpmConfig) (production force : bool) (now : OffsetDateTime)
    (acc : Manifest * bool) (name : string) : Manifest * bool :=
  if match current_spec acc.1 name with None => true | Some spec => is_registry_unresolvable_spec spec end then acc else
  match package ← fetch_registry_package name npm;
        select_version name "latest" package (c_min_package_age_days config) force now with
  | Ok meta => let '(manifest, updated) := update_manifest_entry acc.1 name (v_version meta) production in (manifest, acc.2 || updated)
  | Err _ => acc
  end.

Definition upgrade_to_latest (config : SnpmConfig) (project : Project) (packages : list string)
    (frozen_lockfile : FrozenLockfileMode) (strict_no_lockfile production force : bool) : Eff W Project :=
  if decide (frozen_lockfile = ModeFrozen) then lift (Err (Internal "cannot upgrade packages when using frozen-lockfile")) else
  let target_names := match packages with
                      | [] => collect_upgradable_names (p_manifest project) (negb production)
                      | _ => (fun spec => (Manifests.parse_spec spec).1) <$> packages
                      end in
  _ ← create_client;
  w ← world;
  let '(manifest, changed) :=
    foldl (fun acc name => upgrade_latest_entry config production force (clock w (name, protocol_name npm)) acc name)
      (p_manifest project, false) target_names in
  project ← (if (changed : bool) then save_manifest project manifest else mret project);
  reinstall config project (negb production) frozen_lockfile strict_no_lockfile force.

Definition upgrade (config : SnpmConfig) (project : Project) (packages : list string) (frozen_lockfile : FrozenLockfileMode)
    (strict_no_lockfile production force latest : bool) : Eff W Project :=
  let include_dev := negb production in
  if latest then upgrade_to_latest config project packages frozen_lockfile strict_no_lockfile production force else
  if decide (packages = []) then reinstall config project include_dev frozen_lockfile strict_no_lockfile force else
  if decide (frozen_lockfile = ModeFrozen) then lift (Err (Internal "cannot upgrade packages when using frozen-lockfile")) else
  entries ← outdated config project include_dev force;
  let entries := filter (fun entry => oe_current entry <> Some (oe_wanted entry)) entries in
  if decide (entries = []) then mret project else
  let '(manifest, changed) := foldl (upgrade_entry (wanted_versions entries) production) (p_manifest project, false) packages in
  if negb changed then mret project else
  project ← save_manifest project manifest;
  reinstall config project include_dev frozen_lockfile strict_no_lockfile force.
End maintenance.

(** ** What is changed in a manifest *)

(** A section after rewriting entries: each is as it was, or was a range of the
    registry and is now made from a version that was chosen for its name. *)
Definition rewrites (chosen : string -> string -> Prop) (section section' : gmap string string) : Prop :=
  forall name, section' !! name = section !! name \/
    exists current previous wanted, section !! name = Some current /\ Manifests.is_special_protocol_spec current = false /\
      chosen name wanted /\ section' !! name = Some (rewrite_spec_preserving_operator previous wanted).

Global Instance rewrites_refl chosen : Reflexive (rewrites chosen).
Proof. intros section name. by left. Qed.
Global Instance rewrites_trans chosen : Transitive (rewrites chosen).
Proof.
  intros s1 s2 s3 H12 H23 name. destruct (H23 name) as [->|(cur & prev & wanted & Hs2 & Hsp & Hch & Hs3)]; [apply H12|].
  right. destruct (H12 name) as [Heq|(cur' & prev' & wanted' & Hs1 & Hsp' & Hch' & _)].
  - exists cur, prev, wanted. by rewrite <-Heq.
  - by exists cur', prev, wanted.
Qed.
Lemma rewrites_insert (chosen : string -> string -> Prop) section name current wanted :
  upgradable section name = Some current -> chosen name wanted ->
  rewrites chosen section (<[name := rewrite_spec_preserving_operator current wanted]> section).
Proof.
  unfold upgradable. destruct (section !! name) as [cur|] eqn:Hcur; [|done]. destruct (Manifests.is_special_protocol_spec cur) eqn:Hsp; [done|].
  intros [= ->] Hch other. destruct (decide (name = other)) as [<-|Hne]; [right|left; by apply lookup_insert_ne].
  exists current, current, wanted. by rewrite lookup_insert_eq.
Qed.

(** A manifest after rewriting entries: nothing else is different, and with
    [--production] the development dependencies are not. *)
Record manifest_rewrites (production : bool) (chosen : string -> string -> Prop) (manifest manifest' : Manifest) : Prop := {
  mr_rest : manifest' = set_sections manifest (sections_of manifest');
  mr_dependencies : rewrites chosen (m_dependencies manifest) (m_dependencies manifest');
  mr_development : rewrites chosen (m_dev_dependencies manifest) (m_dev_dependencies manifest');
  mr_optional : rewrites chosen (m_optional_dependencies manifest) (m_optional_dependencies manifest');
  mr_production : production = true -> m_dev_dependencies manifest' = m_dev_dependencies manifest;
}.

Lemma set_sections_of manifest : set_sections manifest (sections_of manifest) = manifest.
Proof. by destruct manifest. Qed.

Global Instance manifest_rewrites_refl production chosen : Reflexive (manifest_rewrites production chosen).
Proof. intros manifest. split; try reflexivity. by rewrite set_sections_of. Qed.
Global Instance manifest_rewrites_trans production chosen : Transitive (manifest_rewrites production chosen).
Proof.
  intros m1 m2 m3 [R1 D1 V1 O1 P1] [R2 D2 V2 O2 P2]. split; [by rewrite R2, R1| | | |].
  - by transitivity (m_dependencies m2).
  - by transitivity (m_dev_dependencies m2).
  - by transitivity (m_optional_dependencies m2).
  - intros Hp. by rewrite P2, P1.
Qed.

Lemma update_manifest_entry_rewrites (chosen : string -> string -> Prop) production manifest name wanted :
  chosen name wanted -> manifest_rewrites production chosen manifest (update_manifest_entry manifest name wanted production).1.
Proof.
  intros Hch. unfold update_manifest_entry. cbn [sections_of].
  destruct (upgradable (m_dependencies manifest) name) as [cur|] eqn:Hd; cbn [fst].
  { split; cbn; try reflexivity. by apply rewrites_insert. }
  destruct (if production then None else upgradable (m_dev_dependencies manifest) name) as [cur|] eqn:Hv; cbn [fst].
  { destruct production; [done|]. split; cbn; try reflexivity; [|done]. by apply rewrites_insert. }
  destruct (upgradable (m_optional_dependencies manifest) name) as [cur|] eqn:Ho; cbn [fst]; [|reflexivity].
  split; cbn; try reflexivity. by apply rewrites_insert.
Qed.

Lemma fold_rewrites (chosen : string -> string -> Prop) production (f : Manifest * bool -> string -> Manifest * bool) l :
  (forall acc a, a ∈ l -> manifest_rewrites production chosen acc.1 (f acc a).1) ->
  forall acc, manifest_rewrites production chosen acc.1 (foldl f acc l).1.
Proof.
  induction l as [|a l IH]; intros Hf acc; cbn [foldl]; [reflexivity|].
  transitivity (f acc a).1; [apply Hf; by left|]. apply IH. intros acc' b Hb. apply Hf. by right.
Qed.

(** An entry that names something else than a range of the registry stays. *)
Lemma rewrites_special chosen section section' name spec :
  rewrites chosen section section' -> section !! name = Some spec -> Manifests.is_special_protocol_spec spec = true ->
  section' !! name = Some spec.
Proof. intros Hr Hs Hsp. destruct (Hr name) as [->|(cur & ? & ? & ? & ? & _)]; [done|]. congruence. Qed.
Lemma rewrites_dom chosen section section' : rewrites chosen section section' -> dom section' = dom section.
Proof.
  intros Hr. apply set_eq. intros name. rewrite !elem_of_dom.
  destruct (Hr name) as [->|(cur & ? & ? & -> & _ & _ & ->)]; [done|]. split; eauto.
Qed.

(** ** Specifiers *)

(** Rewriting keeps the operator, and rewriting again changes nothing. *)
Lemma rewrite_operator current wanted :
  (exists operand, trim current = "~" +:+ operand /\ operand <> ε /\ rewrite_spec_preserving_operator current wanted = "~" +:+ wanted) \/
  is_plain_version (trim current) = true /\ rewrite_spec_preserving_operator current wanted = wanted \/
  rewrite_spec_preserving_operator current wanted = "^" +:+ wanted.
Proof.
  unfold rewrite_spec_preserving_operator. destruct (strip_prefix "~" (trim current)) as [[|c operand]|] eqn:Hs.
  - destruct (is_plain_version (trim current)); auto.
  - left. exists (String c operand). split; [|done]. by apply strip_prefix_Some in Hs.
  - destruct (is_plain_version (trim current)); auto.
Qed.

(** ** The operations *)
Section maintenance_correct.
Context `{SemverCrate} `{DigestCrates} `{LockCrates} `{LayoutJson} `{MetadataJson}
  `{Bincode DiskInstallStateFile} `{Bincode GraphSnapshot} `{Bincode StoreResidencyIndex} `{BinManifestJson} `{Bincode VirtualDependencyState} `{ForeignFormats} `{GitBranch}
  `{TimeCrate} `{Registry} `{Target}.
Context {W : Type} `{!InstallWorld W}.
Context (canonicalize : string -> result string string) (config : SnpmConfig).

(** Without additions an installation leaves the manifest alone. *)
Lemma no_additions fs project options plan :
  io_requested options = [] -> prepare_install_plan canonicalize fs project options = Ok plan -> pl_additions plan = ∅.
Proof.
  unfold prepare_install_plan. intros -> Hp. change (collect_additions []) with (∅ : gmap string string, ∅ : gmap string RegistryProtocol) in Hp.
  cbn beta iota zeta in Hp. repeat apply result_bind_Ok in Hp as (? & _ & Hp). by injection Hp as <-.
Qed.
Lemma install_same_project project options w project' report w' :
  io_requested options = [] -> install canonicalize config project options w = (Ok (project', report), w') -> project' = project.
Proof.
  unfold install. intros Hreq Hi. apply eff_bind_Ok in Hi as (start & w0 & [= <- <-] & Hi).
  apply eff_bind_Ok in Hi as (plan & w1 & Hplan & Hi). unfold lift in Hplan. injection Hplan as Hplan <-.
  apply no_additions in Hplan as Hnone; [|done].
  eff_inv Hi. eff_inv Hi. eff_inv Hi. apply eff_bind_Ok in Hi as (project1 & wb & Hwrite & Hi).
  unfold write_manifest in Hwrite. rewrite decide_True in Hwrite by done. injection Hwrite as <- <-.
  eff_inv Hi. eff_inv Hi. eff_inv Hi. by injection Hi as <- _ _.
Qed.
Lemma reinstall_same_project project include_dev frozen strict force w project' w' :
  reinstall canonicalize config project include_dev frozen strict force w = (Ok project', w') -> project' = project.
Proof.
  unfold reinstall. intros Hr. apply eff_bind_Ok in Hr as ([project1 report] & w1 & Hi & Hr). injection Hr as -> _.
  by apply install_same_project in Hi.
Qed.
Lemma save_manifest_project project manifest w project' w' :
  save_manifest project manifest w = (Ok project', w') -> project' = with_manifest project manifest.
Proof. unfold save_manifest. intros Hs. eff_inv Hs. by injection Hs as <- _. Qed.

(** The names the specifiers of a command line name. *)
Definition named (specs : list string) : list string := (fun spec => (Manifests.parse_spec spec).1) <$> specs.

Lemma remove_entries specs manifest :
  foldl remove_entry manifest specs =
  set_sections manifest (filter (fun e => e.1 ∉ named specs) (m_dependencies manifest),
    filter (fun e => e.1 ∉ named specs) (m_dev_dependencies manifest),
    filter (fun e => e.1 ∉ named specs) (m_optional_dependencies manifest)).
Proof.
  revert manifest. induction specs as [|spec specs IH]; intros manifest.
  - cbn [foldl named fmap list_fmap]. rewrite !map_filter_id by (intros; apply not_elem_of_nil). by destruct manifest.
  - cbn [foldl]. rewrite IH. unfold remove_entry, named. cbn [set_sections m_name m_version m_package_manager m_private m_dependencies
      m_dev_dependencies m_optional_dependencies fst snd fmap list_fmap]. unfold set_sections. cbn.
    assert (Hf : forall m : gmap string string,
      filter (fun e => e.1 ∉ ((fun spec => (Manifests.parse_spec spec).1) <$> specs)) (delete (Manifests.parse_spec spec).1 m) =
      filter (fun e => e.1 ∉ (Manifests.parse_spec spec).1 :: ((fun spec => (Manifests.parse_spec spec).1) <$> specs)) m).
    { intros m. apply map_eq. intros name. apply option_eq. intros value. rewrite !map_lookup_filter_Some, lookup_delete_Some, not_elem_of_cons.
      cbn. naive_solver. }
    by rewrite !Hf.
Qed.

(** Removing: the named entries disappear from every section, and nothing else of
    the project changes; with a frozen lockfile nothing is removed. *)
Theorem remove_spec project specs frozen strict w project' w' :
  remove canonicalize config project specs frozen strict w = (Ok project', w') ->
  project' = with_manifest project (set_sections (p_manifest project)
    (filter (fun e => e.1 ∉ named specs) (m_dependencies (p_manifest project)),
     filter (fun e => e.1 ∉ named specs) (m_dev_dependencies (p_manifest project)),
     filter (fun e => e.1 ∉ named specs) (m_optional_dependencies (p_manifest project)))) /\
  (specs <> [] -> frozen <> ModeFrozen).
Proof.
  rewrite <-remove_entries. unfold remove. case_decide as Hnil.
  { intros [= <- _]. subst specs. split; [by destruct project|done]. }
  case_decide as Hfrozen; [done|]. intros Hr. apply eff_bind_Ok in Hr as (project1 & w1 & Hs & Hr).
  apply save_manifest_project in Hs as ->. by apply reinstall_same_project in Hr as ->.
Qed.

(** ** Which versions an upgrade writes *)
Definition upgrade_choice (project : Project) (packages : list string) (production force latest : bool) (w : W)
    (name wanted : string) : Prop :=
  if latest then
    (packages = [] \/ name ∈ named packages) /\
    exists package meta w1, create_client w = (Ok tt, w1) /\ fetch_registry_package name npm = Ok package /\
      select_version name "latest" package (c_min_package_age_days config) force (clock w1 (name, "npm")) = Ok meta /\
      wanted = v_version meta
  else
    name ∈ named packages /\
    exists entries w1 entry, outdated canonicalize config project (negb production) force w = (Ok entries, w1) /\
      entry ∈ entries /\ oe_name entry = name /\ oe_wanted entry = wanted /\ oe_current entry <> Some wanted.

Lemma wanted_versions_entry entries name wanted :
  wanted_versions entries !! name = Some wanted -> exists entry, entry ∈ entries /\ oe_name entry = name /\ oe_wanted entry = wanted.
Proof.
  unfold wanted_versions. induction entries as [|entry entries IH] using rev_ind; [done|].
  rewrite foldl_app. cbn [foldl]. intros [[<- <-]|[_ Hin]]%lookup_insert_Some.
  - exists entry. split; [|done]. apply elem_of_app. right. by left.
  - apply IH in Hin as (entry' & Hin & ?). exists entry'. split; [|done]. apply elem_of_app. by left.
Qed.

Lemma upgrade_plain_rewrites project packages production force entries w w1 :
  outdated canonicalize config project (negb production) force w = (Ok entries, w1) ->
  let current_entries := filter (fun entry => oe_current entry <> Some (oe_wanted entry)) entries in
  manifest_rewrites production (upgrade_choice project packages production force false w) (p_manifest project)
    (foldl (upgrade_entry (wanted_versions current_entries) production) (p_manifest project, false) packages).1.
Proof.
  intros Hout current_entries. refine (fold_rewrites _ _ _ _ _ (p_manifest project, false)). intros acc spec Hspec.
  unfold upgrade_entry. destruct (wanted_versions _ !! _) as [wanted|] eqn:Hw; [|reflexivity].
  apply wanted_versions_entry in Hw as (entry & [Hne Hin]%list_elem_of_filter & Hname & Hwanted).
  destruct (update_manifest_entry _ _ _ _) as [m b] eqn:Hu. change m with (m, b).1. rewrite <-Hu.
  apply update_manifest_entry_rewrites. split; [apply list_elem_of_fmap; by exists spec|].
  exists entries, w1, entry. by rewrite <-Hwanted.
Qed.

Lemma upgrade_latest_rewrites project packages production force w w1 :
  create_client w = (Ok tt, w1) ->
  let target_names := match packages with
                      | [] => collect_upgradable_names (p_manifest project) (negb production)
                      | _ => named packages
                      end in
  manifest_rewrites production (upgrade_choice project packages production force true w) (p_manifest project)
    (foldl (fun acc name => upgrade_latest_entry config production force (clock w1 (name, protocol_name npm)) acc name)
      (p_manifest project, false) target_names).1.
Proof.
  intros Hc target_names. refine (fold_rewrites _ _ _ _ _ (p_manifest project, false)). intros acc name Hname.
  unfold upgrade_latest_entry. destruct (match current_spec _ _ with None => _ | _ => _ end); [reflexivity|].
  destruct (fetch_registry_package name npm) as [package|] eqn:Hf; [|reflexivity]. cbn [mbind result_bind].
  destruct (select_version _ _ _ _ _ _) as [meta|] eqn:Hs; [|reflexivity].
  destruct (update_manifest_entry _ _ _ _) as [m b] eqn:Hu. change m with (m, b).1. rewrite <-Hu.
  apply update_manifest_entry_rewrites. split; [destruct packages; auto|]. by exists package, meta, w1.
Qed.


(** ** What is reported *)
Lemma apply_specs_dom specs workspace catalog protocols acc :
  apply_specs specs workspace catalog ∅ protocols = Ok acc -> dom (ap_result acc) ⊆ dom specs.
Proof.
  intros Ha name. rewrite !elem_of_dom. apply (apply_specs_outcome workspace catalog _ _ _ _ name) in Ha.
  destruct (specs !! name); [by eauto|]. destruct Ha as [-> _]. by intros [].
Qed.

(** Only the names of the dependencies and the development dependencies are
    reported, and not those of the optional dependencies. *)
Lemma outdated_names project include_dev force w entries w' entry :
  outdated canonicalize config project include_dev force w = (Ok entries, w') -> entry ∈ entries ->
  oe_name entry ∈ dom (m_dependencies (p_manifest project)) ∪ dom (m_dev_dependencies (p_manifest project)).
Proof.
  unfold outdated. intros Ho Hin. eff_inv Ho. eff_inv Ho. eff_inv Ho. eff_inv Ho. eff_inv Ho.
  apply eff_bind_Ok in Ho as (resolved & wr & Hr & Ho). injection Hr as Hr _.
  eff_inv Ho. apply eff_bind_Ok in Ho as ([graph announced] & wg & _ & Ho). do 3 eff_inv Ho. injection Ho as <- _.
  apply list_elem_of_filter in Hin as [_ Hin]. apply list_elem_of_fmap in Hin as (raw & -> & Hin).
  assert (Hname : forall protocols deps dev, oe_name (enrich_entry protocols deps dev raw) = oe_name raw).
  { intros protocols deps dev. unfold enrich_entry. by repeat case_match. }
  rewrite Hname. clear Hname. apply list_elem_of_omap in Hin as (name & Hin & Hraw).
  destruct (g_root _ !! name) as [root|]; [|done]. injection Hraw as <-. cbn [oe_name].
  unfold resolve_manifest_dependencies in Hr. apply result_bind_Ok in Hr as (deps & Hdeps & Hr).
  apply result_bind_Ok in Hr as (dev & Hdev & Hr). injection Hr as <-. cbn [rd_dependencies rd_development_dependencies] in Hin.
  apply elem_of_bset_iter in Hin. unfold collect_manifest_names in Hin.
  apply apply_specs_dom in Hdeps, Hdev. destruct include_dev; set_solver.
Qed.

(** So naming an optional dependency changes nothing. *)
Lemma optional_is_never_upgraded project name frozen strict production force w project' w' :
  name ∉ dom (m_dependencies (p_manifest project)) -> name ∉ dom (m_dev_dependencies (p_manifest project)) ->
  (Manifests.parse_spec name).1 = name ->
  upgrade canonicalize config project [name] frozen strict production force false w = (Ok project', w') -> project' = project.
Proof.
  intros Hdeps Hdev Hname Hu. unfold upgrade in Hu. rewrite decide_False in Hu by done. case_decide; [done|].
  apply eff_bind_Ok in Hu as (entries & w1 & Ho & Hu). case_decide; [by injection Hu as <- _|].
  cbn [foldl] in Hu. unfold upgrade_entry in Hu. rewrite Hname in Hu. cbn [fst snd] in Hu.
  destruct (wanted_versions _ !! name) as [wanted|] eqn:Hw; [|by injection Hu as <- _].
  apply wanted_versions_entry in Hw as (entry & [_ Hin]%list_elem_of_filter & He & _).
  apply (outdated_names _ _ _ _ _ _ _ Ho) in Hin. rewrite He in Hin. set_solver.
Qed.

(** ** Failures *)
Context `{!InstallWorldLaws W}.

Lemma outdated_keeps project include_dev force :
  keeps (store_only config) (outdated canonicalize config project include_dev force).
Proof. unfold outdated. keep. Qed.

Lemma save_manifest_failed project manifest w e w' : save_manifest project manifest w = (Err e, w') -> w' = w.
Proof.
  unfold save_manifest, project_write_manifest, write_output. intros [(e' & Hw & _)|(? & ? & _ & [=])]%eff_bind_inv.
  apply eff_bind_inv in Hw as [(? & [= _ ->] & _)|(data & w0 & Hl & Hw)]; [done|]. injection Hl as _ <-.
  destruct (fs_write _ _ _) as [[[]|] d] eqn:Hd; [done|]. injection Hw as _ <-. apply fs_write_failed in Hd as ->. apply put_same.
Qed.

(** What a failure leaves: nothing outside the store has changed, or the manifest
    was saved, or needed no change, and the installation failed. *)
Definition reinstall_failed (project : Project) (w : W) (e : SnpmError) (w' : W) : Prop :=
  exists wa project1 w1 include_dev frozen strict force,
    store_only config w wa /\
    (project1 = project /\ w1 = wa \/ exists manifest, save_manifest project manifest wa = (Ok project1, w1)) /\
    reinstall canonicalize config project1 include_dev frozen strict force w1 = (Err e, w').

Lemma saved_reinstall_failed project manifest include_dev frozen strict force w wa e w' :
  store_only config w wa ->
  (project1 ← save_manifest project manifest; reinstall canonicalize config project1 include_dev frozen strict force) wa = (Err e, w') ->
  store_only config w w' \/ reinstall_failed project w e w'.
Proof.
  intros Hs [(e' & Hm & [= <-])|(project1 & w1 & Hm & Hr)]%eff_bind_inv.
  - left. by apply save_manifest_failed in Hm as ->.
  - right. exists wa, project1, w1, include_dev, frozen, strict, force. split; [done|]. split; [right; by exists manifest|done].
Qed.

(** Failures of [upgrade] and [remove].  When one fails, nothing outside the
    store has changed, or what failed is the installation after the manifest was
    saved; with a frozen lockfile they fail before anything is done. *)
Theorem failed_maintenance project specs frozen strict production force latest w e w' :
  (upgrade canonicalize config project specs frozen strict production force latest w = (Err e, w') \/
   remove canonicalize config project specs frozen strict w = (Err e, w')) ->
  (store_only config w w' \/ reinstall_failed project w e w') /\
  (frozen = ModeFrozen -> specs <> [] -> w' = w).
Proof.
  intros [Hu|Hr].
  2:{ unfold remove in Hr. case_decide; [done|]. case_decide; [injection Hr as _ <-; by split; [left|]|].
      split; [|done]. by eapply saved_reinstall_failed. }
  unfold upgrade in Hu. destruct latest.
  - unfold upgrade_to_latest in Hu. case_decide; [injection Hu as _ <-; by split; [left|]|]. split; [|done].
    apply eff_bind_inv in Hu as [(e1 & Hc & _)|([] & w1 & Hc & Hu)].
    { left. by apply (create_client_store config) in Hc. }
    apply (create_client_store config) in Hc. apply eff_bind_inv in Hu as [(? & [=] & _)|(wa & wb & [= <- <-] & Hu)].
    destruct (foldl _ _ _) as [manifest []]; [by eapply saved_reinstall_failed|].
    right. exists w1, project, w1, (negb production), frozen, strict, force. auto.
  - case_decide as Hnil.
    { split; [|by intros _ []]. right. exists w, project, w, (negb production), frozen, strict, force. split; [reflexivity|auto]. }
    case_decide; [injection Hu as _ <-; by split; [left|]|]. split; [|done].
    apply eff_bind_inv in Hu as [(e1 & Ho & _)|(entries & w1 & Ho & Hu)]; apply outdated_keeps in Ho; [by left|].
    case_decide; [done|]. destruct (foldl _ _ _) as [manifest changed]. destruct changed; cbn [negb] in Hu; [|done].
    by eapply saved_reinstall_failed.
Qed.
End maintenance_correct.

(** ** Examples and witnesses *)
Module MaintenanceDemo.
#[local] Existing Instance SharingDemo.checksum.
#[local] Existing Instance PlanDemo.formats.
#[local] Existing Instance PlanDemo.no_git.
#[local] Existing Instance PlanDemo.no_layout_json.
#[local] Existing Instance PlanDemo.no_metadata.
#[local] Existing Instance PlanDemo.no_bincode.
#[local] Existing Instance InstallDemo.writes_links.
#[local] Existing Instance InstallDemo.no_bins.
#[local] Existing Instance InstallDemo.writes_state.
#[local] Existing Instance ResolverDemo.linux.
#[local] Existing Instance ResolverDemo.registry.
(** The lockfile after the upgrade. *)
Definition graph : ResolutionGraph := {|
  g_root := <["lib" := {| rd_requested := "^2.1.0"; rd_resolved := ResolverDemo.id "lib" "2.1.0" |}]> (g_root ResolverDemo.graph);
  g_packages := g_packages ResolverDemo.graph |}.
#[local] Instance lockfile_crates : LockCrates := LockfileDemo.serializer_of (Write.lockfile_of graph ∅).
#[local] Existing Instance InstallDemo.demo_world.
#[local] Existing Instance InstallDemo.demo_laws.

Definition upgraded : Result Project * WorldDemo.DemoWorld :=
  upgrade Ok config_for_tests InstallDemo.project ["lib"] ModePrefer false false false false InstallDemo.start.
Definition sections (project : Project) : list (string * string) * list (string * string) :=
  (btree_iter (m_dependencies (p_manifest project)), btree_iter (m_dev_dependencies (p_manifest project))).
Example upgraded_manifest : sections <$> result_ok upgraded.1 = Some ([("app", "^1.0.0"); ("lib", "^2.1.0")], []).
Proof. vm_refl. Qed.


(** Without a network nothing is upgraded. *)
Lemma failed_maintenance_witness :
  let failed := upgrade Ok config_for_tests InstallDemo.project ["lib"] ModePrefer false false false false InstallDemo.offline in
  exists e, failed.1 = Err e /\
  ((store_only config_for_tests InstallDemo.offline failed.2 \/
    reinstall_failed Ok config_for_tests InstallDemo.project InstallDemo.offline e failed.2) /\
   (ModePrefer = ModeFrozen -> ["lib"] <> [] -> failed.2 = InstallDemo.offline)).
Proof.
  cbn zeta. exists (Internal "cannot download app"). split; [vm_refl|].
  apply (failed_maintenance Ok config_for_tests InstallDemo.project ["lib"] ModePrefer false false false false InstallDemo.offline).
  left. vm_refl.
Defined.

(** The entry of an optional dependency is left alone, although it is written for
    (see [optional_is_never_upgraded]); a path is replaced by a range of the
    registry, which [is_special_protocol_spec] does not prevent. *)
Definition manifest_of (dependencies optional : gmap string string) : Manifest :=
  set_sections (p_manifest InstallDemo.project) (dependencies, ∅, optional).
Example optional_is_written_for :
  m_optional_dependencies (update_manifest_entry (manifest_of ∅ {["lib" := "^1.0.0"]}) "lib" "2.1.0" false).1 !! "lib" = Some "^2.1.0".
Proof. vm_refl. Qed.
Example path_becomes_range :
  m_dependencies (update_manifest_entry (manifest_of {["local" := "file:../../local"]} ∅) "local" "2.0.0" false).1 !! "local" = Some "^2.0.0".
Proof. vm_refl. Qed.

(** A wildcard counts as a version, so that the range becomes one version. *)
Example operators : rewrite_spec_preserving_operator "~1.2.0" "1.9.1" = "~1.9.1" /\
  rewrite_spec_preserving_operator " 1.2.0-rc.1 " "1.9.1" = "1.9.1" /\ rewrite_spec_preserving_operator "v1.2.0" "1.9.1" = "1.9.1" /\
  rewrite_spec_preserving_operator ">=1.2.0" "1.9.1" = "^1.9.1" /\ rewrite_spec_preserving_operator "*" "1.9.1" = "^1.9.1" /\
  rewrite_spec_preserving_operator "1.2.x" "1.9.1" = "1.9.1".
Proof. split_and!; vm_refl. Qed.

(** The tag [latest] of a package whose newest versions are only tagged [next]. *)
#[local] Instance tags_latest : Registry := {|
  fetch_registry_package source _ :=
    Ok {| rp_versions := {["1.9.0" := ResolverDemo.release "1.9.0" [] []; "2.1.0" := ResolverDemo.release "2.1.0" [] []]};
          rp_time := ∅; rp_dist_tags := {["latest" := "1.9.0"]} |} |}.
Example latest_downgrades :
  m_dependencies (upgrade_latest_entry config_for_tests false false ResolverDemo.now (manifest_of {["lib" := "^2.0.0"]} ∅, false) "lib").1
    !! "lib" = Some "^1.9.0".
Proof. vm_refl. Qed.
End MaintenanceDemo.
