(* ===== verification/WorkspaceInstall.v ===== *)
(** * The installation of a workspace ([operations/install/workspace/])

    Loading the graph, filling the virtual store of the workspace, linking each
    member, patches, scripts and the saved state.  The members are linked in
    parallel by the code and one after the other here: they change different
    directories. *)
From S2P Require Import Prelude.
From S2P Require Import BTree.
From S2P Require Import Text.
From S2P Require Import Errors.
From S2P Require Import Types.
From S2P Require Import Paths.
From S2P Require Import Specs.
From S2P Require Import Crates.
From S2P Require Import Peers.
From S2P Require Import Lockfile.
From S2P Require Import Resolver.
From S2P Require Import Roots.
From S2P Require Import Config.
From S2P Require Import Store.
From S2P Require Import Patches.
From S2P Require Import Scripts.
From S2P Require Import Linker.
From S2P Require Import Sharing.
From S2P Require Import Layout.
From S2P Require Import InstallState.
From S2P Require Import Residency.
From S2P Require Import Discovery.
From S2P Require Import Importers.
From S2P Require Import Scenario.
From S2P Require Import Plan.
From S2P Require Import WorkspacePlan.
From S2P Require Import World.
From S2P Require Import LinkFs.
From S2P Require Import LinkStore.
From S2P Require Import Install.

(** [graph.rs] *)
Record WorkspaceGraphLoad := {
  gl_graph : ResolutionGraph;
  gl_store_paths_map : gmap PackageId string;
  gl_wrote_lockfile : bool;
}.

Definition scenario_graph (plan : WorkspaceInstallPlan) (scenario : string) : Result ResolutionGraph :=
  ok_or (LockfileError (su_lockfile_path (wp_setup plan)) (scenario +:+ " scenario requires existing graph state"))
    (wp_scenario_graph plan).

Definition step_count_for_workspace (scenario : InstallScenario) (wrote_lockfile : bool) : nat :=
  match scenario with Hot | WarmLinkOnly => 1 | WarmPartialCache | Cold => 2 end + 1 + (if wrote_lockfile then 1 else 0).

(** [linking/virtual_store/paths.rs] *)
Definition rebuild_virtual_store_paths (virtual_store_dir : string) (graph : ResolutionGraph)
  : gmap PackageId string :=
  foldl (fun paths id => <[id := virtual_package_location virtual_store_dir id]> paths) ∅ (btree_keys (g_packages graph)).

Definition local_package_ready (fs : FileSystem) (package_location : string) : bool :=
  match fs_lstat fs package_location with Ok metadata => bool_decide (st_type metadata = TDir) | Err _ => false end
  && (is_file fs (path_push package_location PACKAGE_METADATA_FILE)
      || match fs_entries fs package_location with Ok (_ :: _) => true | _ => false end).

(** [linking/projects/workspace.rs] *)
Definition add_local_dep (workspace : Workspace) (local : gset string) (e : string * string) : Result (gset string) :=
  is_local ← is_local_workspace_dependency workspace e.1 e.2;
  Ok (if is_local : bool then {[e.1]} ∪ local else local).
Definition collect_local_deps (deps : gmap string string) (workspace : Workspace) : Result (gset string) :=
  try_fold (add_local_dep workspace) ∅ (btree_iter deps).
Definition collect_workspace_protocol_deps (project : Project) (workspace : Workspace)
  : Result (gset string * gset string * gset string) :=
  deps ← collect_local_deps (m_dependencies (p_manifest project)) workspace;
  dev_deps ← collect_local_deps (m_dev_dependencies (p_manifest project)) workspace;
  optional_deps ← collect_local_deps (m_optional_dependencies (p_manifest project)) workspace;
  Ok (deps, dev_deps, optional_deps).

(** [patches.rs]: the patches of all members, by package *)
Definition PatchPlan : Type := gmap (string * string) (string * string).

Definition plan_patch (fs : FileSystem) (workspace : Workspace) (planned : PatchPlan) (patch : string * string * string)
  : Result PatchPlan :=
  let '(name, version, patch_path) := patch in
  let package_dir := patched_package_dir (w_root workspace) name version in
  if negb (path_exists fs package_dir) then Ok planned else
  match planned !! (name, version) with
  | Some (existing_patch, _) =>
      if negb (path_eq existing_patch patch_path)
      then Err (WorkspaceConfig (w_root workspace)
             ("conflicting patches configured for " +:+ name +:+ "@" +:+ version +:+ " across workspace projects"))
      else Ok planned
  | None => Ok (<[(name, version) := (patch_path, package_dir)]> planned)
  end.

Definition plan_project_patches (fs : FileSystem) (workspace : Workspace) (planned : PatchPlan) (project : Project)
  : Result PatchPlan :=
  patches ← collect_patches_to_apply fs project;
  try_fold (plan_patch fs workspace) planned patches.

Definition plan_patches (fs : FileSystem) (workspace : Workspace) : Result PatchPlan :=
  try_fold (plan_project_patches fs workspace) ∅ (w_projects workspace).

Section workspace_install.
Context `{SemverCrate} `{DigestCrates} `{LockCrates} `{LayoutJson} `{MetadataJson}
  `{Bincode DiskInstallStateFile} `{Bincode GraphSnapshot} `{Bincode StoreResidencyIndex} `{BinManifestJson} `{Bincode VirtualDependencyState} `{ForeignFormats} `{GitBranch}
  `{TimeCrate} `{Registry} `{Target}
  (canonicalize : string -> result string string).
Context {W : Type} `{!InstallWorld W}.

(** ** [graph.rs] *)
(** [plan.scenario_cache_check.clone().unwrap_or_else(|| check_store_cache(config, &graph))] *)
Definition plan_cache (config : SnpmConfig) (plan : WorkspaceInstallPlan) (graph : ResolutionGraph)
  : Eff W CacheCheckResult :=
  w ← world; mret (default (check_store_cache (view w) config graph) (wp_scenario_cache_check plan)).

Definition load_hot_graph (plan : WorkspaceInstallPlan) : Eff W WorkspaceGraphLoad :=
  graph ← lift (scenario_graph plan "Hot");
  mret {| gl_graph := graph; gl_store_paths_map := ∅; gl_wrote_lockfile := false |}.

Definition load_warm_link_graph (config : SnpmConfig) (plan : WorkspaceInstallPlan) : Eff W WorkspaceGraphLoad :=
  graph ← lift (scenario_graph plan "WarmLinkOnly");
  cache ← plan_cache config plan graph;
  mret {| gl_graph := graph; gl_store_paths_map := cached cache; gl_wrote_lockfile := false |}.

Definition load_warm_partial_graph (config : SnpmConfig) (plan : WorkspaceInstallPlan) : Eff W WorkspaceGraphLoad :=
  graph ← lift (scenario_graph plan "WarmPartialCache");
  cache ← plan_cache config plan graph;
  downloaded ← materialize_missing_packages config (missing cache);
  mret {| gl_graph := graph; gl_store_paths_map := downloaded ∪ cached cache; gl_wrote_lockfile := false |}.

Definition load_cold_graph (config : SnpmConfig) (workspace : Workspace) (plan : WorkspaceInstallPlan)
    (include_dev force : bool) : Eff W WorkspaceGraphLoad :=
  let setup := wp_setup plan in
  let ctx := resolver_context config (su_overrides setup) (Some (workspace_sources workspace)) force
               (wp_scenario_graph plan) in
  '(graph, store_paths) ← resolve_and_store config ctx (su_root_dependencies setup) (su_root_protocols setup)
                            (su_optional_root_names setup);
  store_paths ← materialize_if_empty config graph store_paths;
  _ ← (if include_dev then write_lockfile (su_lockfile_path setup) graph (optional (su_root_specs setup)) else mret tt);
  mret {| gl_graph := graph; gl_store_paths_map := store_paths; gl_wrote_lockfile := include_dev |}.

Definition load_workspace_graph (config : SnpmConfig) (workspace : Workspace) (plan : WorkspaceInstallPlan)
    (include_dev force : bool) : Eff W WorkspaceGraphLoad :=
  let setup := wp_setup plan in
  _ ← validate_age config force (wp_scenario_graph plan);
  load ← match wp_scenario plan with
         | Hot => load_hot_graph plan
         | WarmLinkOnly => load_warm_link_graph config plan
         | WarmPartialCache => load_warm_partial_graph config plan
         | Cold => load_cold_graph config workspace plan include_dev force
         end;
  wrote_lockfile ← convert_lockfile include_dev (su_compatible_lockfile setup) (su_lockfile_path setup)
                     (gl_graph load) (optional (su_root_specs setup)) (gl_wrote_lockfile load);
  mret {| gl_graph := gl_graph load; gl_store_paths_map := gl_store_paths_map load; gl_wrote_lockfile := wrote_lockfile |}.

(** ** [linking/virtual_store/populate.rs] *)
Definition populate_package (config : SnpmConfig) (virtual_store_dir : string) (store_paths : gmap PackageId string)
    (locally_materialized_ids : gset PackageId) (shared_paths : gmap PackageId string)
    (paths : gmap PackageId string) (id : PackageId) : Eff W (gmap PackageId string) :=
  let id_dir := virtual_id_dir virtual_store_dir id in
  let package_location := virtual_package_location virtual_store_dir id in
  let marker_file := path_push id_dir ".snpm_linked" in
  let missing_from_store := StoreMissing (id_name id) (id_version id) in
  let locally := bool_decide (id ∈ locally_materialized_ids) in
  let copy := fun store_path =>
    _ ← link_dir config store_path package_location; write_output (marker_file, EmptyString) in
  w ← world;
  done ← (if locally then mret (is_file (view w) marker_file && local_package_ready (view w) package_location)
          else shared_target ← lift (ok_or missing_from_store (shared_paths !! id));
               mret (symlink_is_correct (view w) package_location shared_target));
  _ ← (if done : bool then mret tt else
       _ ← (if is_file (view w) marker_file then io_ignore (fs_remove_file marker_file) else mret tt);
       store_path ← lift (ok_or missing_from_store (store_paths !! id));
       _ ← io_ignore (fs_remove_file package_location);
       _ ← io_ignore (fs_remove_dir_all package_location);
       _ ← ensure_parent_dir package_location;
       if locally then copy store_path
       else
         shared_target ← lift (ok_or missing_from_store (shared_paths !! id));
         linked ← io_try (fs_symlink shared_target package_location);
         if linked : bool then mret tt else copy store_path);
  mret (<[id := package_location]> paths).

Definition populate_virtual_store (virtual_store_dir : string) (graph : ResolutionGraph)
    (store_paths : gmap PackageId string) (config : SnpmConfig) (workspace : Workspace)
  : Eff W (gmap PackageId string) :=
  w ← world;
  let locally_materialized_ids :=
    local_global_virtual_store_package_ids (view w) config (Some workspace) (w_projects workspace) graph in
  shared_paths ← populate_shared_virtual_store_for_packages config graph store_paths
                   (shared_package_ids graph locally_materialized_ids);
  eff_fold (populate_package config virtual_store_dir store_paths locally_materialized_ids shared_paths) ∅
    (btree_keys (g_packages graph)).

(** ** [linking/projects/external.rs] *)
Definition create_symlink (target destination : string) : Eff W unit :=
  _ ← match parent destination with Some dir => io_ignore (fs_create_dir_all dir) | None => mret tt end;
  w ← world;
  if symlink_is_correct (view w) destination target then mret tt else
  _ ← (if path_exists (view w) destination || is_ok (fs_lstat (view w) destination)
       then io_ignore (if is_dir (view w) destination then fs_remove_dir_all destination else fs_remove_file destination)
       else mret tt);
  io_write destination (fs_symlink target destination).

Definition link_external_dep (workspace_deps : gset string) (graph : ResolutionGraph)
    (virtual_store_paths : gmap PackageId string) (node_modules : string) (_ : unit) (e : string * string) : Eff W unit :=
  let '(name, value) := e in
  if starts_with "workspace:" value || bool_decide (name ∈ workspace_deps) then mret tt else
  match g_root graph !! name with
  | None => mret tt
  | Some root_dep =>
      let id := rd_resolved root_dep in
      target ← lift (ok_or (GraphMissing (id_name id) (id_version id)) (virtual_store_paths !! id));
      let destination := path_push node_modules name in
      _ ← create_symlink target destination;
      match g_packages graph !! id with
      | Some package => if negb (r_has_bin package) then mret tt
                        else _ ← attempt (link_package_bins destination node_modules name (r_bin package)); mret tt
      | None => _ ← attempt (link_package_bins destination node_modules name None); mret tt
      end
  end.

Definition link_external_deps (manifest_deps : gmap string string) (workspace_deps : gset string)
    (graph : ResolutionGraph) (virtual_store_paths : gmap PackageId string) (node_modules : string) : Eff W unit :=
  eff_fold (link_external_dep workspace_deps graph virtual_store_paths node_modules) tt (btree_iter manifest_deps).

(** [linking/projects/mod.rs] *)
Definition link_project_dependencies (workspace : Workspace) (graph : ResolutionGraph)
    (virtual_store_paths : gmap PackageId string) (include_dev : bool) (_ : unit) (project : Project) : Eff W unit :=
  let node_modules := path_push (p_root project) "node_modules" in
  let manifest := p_manifest project in
  _ ← create_dir_all node_modules;
  '(deps, dev_deps, optional_deps) ← lift (collect_workspace_protocol_deps project workspace);
  _ ← link_external_deps (m_dependencies manifest) deps graph virtual_store_paths node_modules;
  _ ← (if include_dev
       then link_external_deps (m_dev_dependencies manifest) dev_deps graph virtual_store_paths node_modules
       else mret tt);
  _ ← link_external_deps (m_optional_dependencies manifest) optional_deps graph virtual_store_paths node_modules;
  link_local_workspace_deps project (Some workspace) deps dev_deps optional_deps include_dev.

(** ** [patches.rs] *)
Definition apply_workspace_patch (store_paths : gmap PackageId string) (applied : nat)
    (e : (string * string) * (string * string)) : Eff W nat :=
  let '((name, version), (patch_path, package_dir)) := e in
  match store_paths !! {| id_name := name; id_version := version |} with
  | None => mret applied
  | Some store_path => apply_one_patch package_dir store_path patch_path applied
  end.

Definition apply_workspace_patches (workspace : Workspace) (store_paths : gmap PackageId string) : Eff W nat :=
  w ← world;
  planned ← lift (plan_patches (view w) workspace);
  eff_fold (apply_workspace_patch store_paths) 0 (btree_iter planned).

(** ** [finalize.rs] *)
Definition run_workspace_scripts (config : SnpmConfig) (workspace : Workspace) : Eff W (list string) :=
  blocked ← (if can_any_scripts_run config (Some workspace)
             then run_install_scripts_for_projects config (Some workspace) (p_root <$> w_projects workspace)
             else mret []);
  _ ← eff_fold (fun (_ : unit) project => run_project_scripts config (Some workspace) (p_root project)) tt
        (w_projects workspace);
  mret blocked.

Definition write_project_integrity (workspace_integrity : IntegrityState) (_ : unit) (project : Project) : Eff W unit :=
  w ← world;
  patch_hash ← lift (compute_project_patch_hash (view w) project);
  write_outputs (write_integrity_path (view w) (path_push (p_root project) "node_modules")
    {| lockfile_hash := lockfile_hash workspace_integrity; patch_hash := patch_hash |}).

Definition finalize_workspace_install (config : SnpmConfig) (workspace : Workspace) (graph : ResolutionGraph)
    (store_paths : gmap PackageId string) (include_dev : bool) (scenario : InstallScenario) : Eff W (list string) :=
  let shared_virtual_store := path_push (w_root workspace) ".snpm" in
  _ ← create_dir_all shared_virtual_store;
  virtual_store_paths ← (if decide (scenario = Hot) then mret (rebuild_virtual_store_paths shared_virtual_store graph)
                         else populate_virtual_store shared_virtual_store graph store_paths config workspace);
  _ ← link_virtual_dependencies virtual_store_paths graph;
  _ ← eff_fold (link_project_dependencies workspace graph virtual_store_paths include_dev) tt (w_projects workspace);
  _ ← apply_workspace_patches workspace store_paths;
  blocked ← run_workspace_scripts config workspace;
  w ← world;
  integrity ← lift (build_workspace_integrity_state (view w) workspace graph);
  _ ← write_outputs (write_integrity_path (view w) (path_push (w_root workspace) "node_modules") integrity);
  _ ← eff_fold (write_project_integrity integrity) tt (w_projects workspace);
  mret blocked.

(** ** [mod.rs] *)
Definition empty_report : InstallReport :=
  {| package_count := 0; steps_cleared := 0; changes := []; blocked_scripts := [] |}.

Definition save_workspace_install_state (config : SnpmConfig) (workspace : Workspace) (setup : WorkspaceInstallSetup)
    (graph : ResolutionGraph) (include_dev : bool) : Eff W unit :=
  w ← world;
  let source_path := plan_source_path (view w) (su_lockfile_path setup) (su_compatible_lockfile setup) in
  if is_file (view w) source_path then
    output ← lift (write_workspace_install_state (view w) config workspace source_path
                     (required (su_root_specs setup)) (optional (su_root_specs setup)) graph include_dev);
    write_output output
  else mret tt.

Definition install_workspace (config : SnpmConfig) (workspace : Workspace) (include_dev : bool)
    (frozen_lockfile : FrozenLockfileMode) (strict_no_lockfile force : bool) : Eff W InstallReport :=
  if decide (w_projects workspace = []) then mret empty_report else
  _ ← create_client;
  w ← world;
  plan ← lift (plan_workspace_install canonicalize (view w) config workspace include_dev frozen_lockfile
                 strict_no_lockfile force);
  if decide (su_root_dependencies (wp_setup plan) = ∅) then mret empty_report else
  load ← load_workspace_graph config workspace plan include_dev force;
  _ ← persist_residency config (gl_store_paths_map load);
  blocked ← finalize_workspace_install config workspace (gl_graph load) (gl_store_paths_map load) include_dev
              (wp_scenario plan);
  _ ← save_workspace_install_state config workspace (wp_setup plan) (gl_graph load) include_dev;
  mret {| package_count := size (g_packages (gl_graph load));
          steps_cleared := step_count_for_workspace (wp_scenario plan) (gl_wrote_lockfile load);
          changes := []; blocked_scripts := blocked |}.
End workspace_install.

(** ** Launchers of packages whose lockfile does not know them

    The importers of yarn lockfiles say that no package has launchers;
    [LinkStore.link_root_bin] looks into the package all the same, the link of a
    member does not: its [.bin] stays empty. *)
Lemma unknown_bins_are_not_linked `{MetadataJson} `{BinManifestJson} `{TimeCrate} `{!InstallWorld W} workspace_deps graph paths node_modules
    name value root_dep package target :
  starts_with "workspace:" value || bool_decide (name ∈ workspace_deps) = false ->
  g_root graph !! name = Some root_dep -> g_packages graph !! rd_resolved root_dep = Some package ->
  r_has_bin package = false -> paths !! rd_resolved root_dep = Some target ->
  link_external_dep (W := W) workspace_deps graph paths node_modules tt (name, value) =
  (_ ← create_symlink target (path_push node_modules name); mret tt).
Proof.
  intros Hlocal Hroot Hp Hbin Hpath. unfold link_external_dep. by rewrite Hlocal, Hroot, Hpath, Hp, Hbin.
Qed.

(** ** What loading the graph does *)
Section workspace_load.
Context `{SemverCrate} `{DigestCrates} `{LockCrates} `{LayoutJson} `{MetadataJson}
  `{Bincode DiskInstallStateFile} `{Bincode GraphSnapshot} `{Bincode StoreResidencyIndex} `{BinManifestJson} `{Bincode VirtualDependencyState} `{ForeignFormats} `{GitBranch}
  `{TimeCrate} `{Registry} `{Target}
  (canonicalize : string -> result string string).
Context {W : Type} `{!InstallWorld W} `{!InstallWorldLaws W}.
Context (config : SnpmConfig).

(** The cache of a plan is that of its graph. *)
Definition plan_cache_ok (fs : FileSystem) (plan : WorkspaceInstallPlan) : Prop :=
  forall graph, wp_scenario_graph plan = Some graph -> wp_scenario plan <> Hot ->
  match wp_scenario_cache_check plan with
  | Some cache => cache = check_store_cache fs config graph /\
      (wp_scenario plan = WarmLinkOnly -> missing cache = [])
  | None => wp_scenario plan = Cold
  end.

Lemma load_cold_outcome workspace plan include_dev force w r w' :
  (forall seed, wp_scenario_graph plan = Some seed -> keyed seed) ->
  load_cold_graph config workspace plan include_dev force w = (r, w') ->
  match r with
  | Ok load => gl_wrote_lockfile load = include_dev /\
      saves config (su_lockfile_path (wp_setup plan)) (optional (su_root_specs (wp_setup plan)))
        (gl_graph load) include_dev w w' /\
      forall id, is_Some (g_packages (gl_graph load) !! id) -> is_Some (gl_store_paths_map load !! id)
  | Err _ => store_only config w w'
  end.
Proof.
  intros Hkeyed. unfold load_cold_graph. cbn zeta.
  intros [(e & Hres & ->)|([graph paths] & w1 & Hres & Hr)]%eff_bind_inv;
    pose proof Hres as Hs; apply resolve_and_store_keeps in Hs; [done|].
  apply resolve_and_store_cover in Hres as [Hk Hcover]; [|exact Hkeyed].
  apply eff_bind_inv in Hr as [(e & Hm & ->)|(paths' & w2 & Hm & Hr)];
    pose proof Hm as Hs'; apply materialize_if_empty_store in Hs'; [by transitivity w1|].
  assert (H2s : store_only config w w2) by by transitivity w1. clear Hs Hs'.
  pose proof (materialize_if_empty_cover config _ _ _ _ _ Hk Hcover Hm) as Hcover2.
  destruct include_dev.
  - apply eff_bind_inv in Hr as [(e & Hw & ->)|(u & w3 & Hw & [= <- <-])];
      apply (write_lockfile_saves config) in Hw; [by subst|].
    cbn. split_and!; [done| |done]. exact (saves_trans config _ _ _ true _ _ _ H2s Hw).
  - by injection Hr as <- <-.
Qed.

Lemma load_warm_outcome plan w r w' :
  plan_cache_ok (view w) plan -> (forall seed, wp_scenario_graph plan = Some seed -> keyed seed) ->
  match wp_scenario plan with
  | WarmLinkOnly => load_warm_link_graph config plan w = (r, w')
  | WarmPartialCache => load_warm_partial_graph config plan w = (r, w')
  | _ => False
  end ->
  store_only config w w' /\
  forall load, r = Ok load -> gl_wrote_lockfile load = false /\
    forall id, is_Some (g_packages (gl_graph load) !! id) -> is_Some (gl_store_paths_map load !! id).
Proof.
  intros Hcache Hkeyed Hr. split.
  { destruct (wp_scenario plan); try done; apply (keeps_elim _ _ _ _ _ Hr).
    - unfold load_warm_link_graph, plan_cache. keep.
    - unfold load_warm_partial_graph, plan_cache. keep. apply materialize_missing_store. }
  intros load ->. unfold plan_cache_ok in Hcache.
  destruct (wp_scenario plan) eqn:Hs; try done; unfold load_warm_link_graph, load_warm_partial_graph, plan_cache in Hr;
    eff_inv Hr; injection Hm as Hg <-; unfold scenario_graph in Hg;
    (destruct (wp_scenario_graph plan) as [graph|] eqn:Hgraph; [|done]); injection Hg as <-;
    specialize (Hcache graph eq_refl); (destruct (wp_scenario_cache_check plan) as [cache|]; [|by specialize (Hcache ltac:(done))]);
    destruct Hcache as [-> Hmiss]; [done| |done|];
    eff_inv Hr; eff_inv Hm; injection Hm as <- <-; injection Hm0 as <- <-.
  - injection Hr as <- _. cbn. split; [done|]. intros id [package Hp]. rewrite <-(Hkeyed _ eq_refl _ _ Hp).
    destruct (store_cache_cover config (view w) graph package) as [?|Hin]; [apply elem_of_btree_values; by exists id|done|].
    rewrite Hmiss in Hin by done. by apply not_elem_of_nil in Hin.
  - eff_inv Hr. injection Hr as <- _. cbn. split; [done|]. intros id [package Hp]. rewrite <-(Hkeyed _ eq_refl _ _ Hp).
    rewrite lookup_union_is_Some.
    destruct (store_cache_cover config (view w) graph package) as [?|Hin];
      [apply elem_of_btree_values; by exists id|by right|left].
    unfold materialize_missing_packages in Hm. destruct (missing _); [by apply not_elem_of_nil in Hin|].
    by eapply materialize_packages_cover.
Qed.

(** A planned cache is that of the planned graph. *)
Definition artifacts_ok (fs : FileSystem) (artifacts : WorkspaceScenarioArtifacts) : Prop :=
  forall graph, wa_graph artifacts = Some graph ->
  match wa_cache_check artifacts with
  | Some cache => cache = check_store_cache fs config graph /\
      (wa_scenario artifacts = WarmLinkOnly -> missing cache = [])
  | None => wa_scenario artifacts = Cold \/ wa_scenario artifacts = Hot
  end.

Lemma workspace_from_graph_cache fs workspace graph force existing checked valid :
  artifacts_ok fs (workspace_from_graph fs workspace config graph force existing checked valid).
Proof.
  intros graph'. unfold workspace_from_graph.
  destruct (build_workspace_integrity_state fs workspace graph) as [state|]; [|by cbn; auto].
  destruct (negb force && _ && _); [by cbn; auto|]. destruct (existsb _ _); [by cbn; auto|].
  destruct (missing (check_store_cache fs config graph)) eqn:Hm; cbn; by intros [= <-].
Qed.

Lemma early_artifacts_ok fs workspace lockfile_path compatible mode force required_root optional_root :
  artifacts_ok fs (detect_workspace_scenario_early canonicalize fs workspace lockfile_path compatible config mode force
                     required_root optional_root).
Proof.
  unfold detect_workspace_scenario_early.
  repeat case_match; try apply workspace_from_graph_cache; by intros g Hg; left.
Qed.

Lemma planned_cache fs workspace include_dev frozen_lockfile strict force plan :
  plan_workspace_install canonicalize fs config workspace include_dev frozen_lockfile strict force = Ok plan ->
  plan_cache_ok fs plan.
Proof.
  unfold plan_workspace_install. intros (setup & _ & ([sc existing] & Hv & [= <-])%result_bind_Ok)%result_bind_Ok.
  set (artifacts := if decide (frozen_lockfile = ModeFix) then _ else _) in Hv |- *.
  assert (Hart : artifacts_ok fs artifacts).
  { subst artifacts. case_decide; [by intros g Hg; left|apply early_artifacts_ok]. }
  assert (Hsc : sc = wa_scenario artifacts \/ sc = Cold).
  { revert Hv. unfold validate_lockfile_matches_manifest. repeat case_match; intros [= <- _]; auto. }
  intros graph. cbn. intros Hg Hne. specialize (Hart _ Hg).
  destruct (wa_cache_check artifacts) as [cache|]; [|destruct Hsc, Hart; congruence].
  destruct Hart as [-> Hm]. split; [done|]. intros ->. destruct Hsc; [auto|done].
Qed.

(** The graph of the scenario, before a foreign lockfile is converted. *)
Definition load_scenario (workspace : Workspace) (plan : WorkspaceInstallPlan) (include_dev force : bool)
  : Eff W WorkspaceGraphLoad :=
  match wp_scenario plan with
  | Hot => load_hot_graph plan
  | WarmLinkOnly => load_warm_link_graph config plan
  | WarmPartialCache => load_warm_partial_graph config plan
  | Cold => load_cold_graph config workspace plan include_dev force
  end.

Lemma load_scenario_outcome workspace plan include_dev force w r w' :
  plan_cache_ok (view w) plan -> (forall seed, wp_scenario_graph plan = Some seed -> keyed seed) ->
  load_scenario workspace plan include_dev force w = (r, w') ->
  match r with
  | Ok load => gl_wrote_lockfile load = include_dev && bool_decide (wp_scenario plan = Cold) /\
      saves config (su_lockfile_path (wp_setup plan)) (optional (su_root_specs (wp_setup plan)))
        (gl_graph load) (gl_wrote_lockfile load) w w' /\
      (wp_scenario plan <> Hot -> forall id, is_Some (g_packages (gl_graph load) !! id) ->
       is_Some (gl_store_paths_map load !! id))
  | Err _ => store_only config w w'
  end.
Proof.
  intros Hcache Hkeyed. unfold load_scenario. destruct (wp_scenario plan) eqn:Hs; intros Hr.
  - assert (Hk : store_only config w w') by (apply (keeps_elim _ _ _ _ _ Hr); unfold load_hot_graph; keep).
    destruct r as [load|]; [|done]. unfold load_hot_graph in Hr. eff_inv Hr. injection Hr as <- _. cbn.
    rewrite andb_false_r. by split_and!.
  - destruct (load_warm_outcome plan w r w') as [Hk Hload]; [done..|by rewrite Hs|].
    destruct r as [load|]; [|done]. destruct (Hload _ eq_refl) as [-> Hcover]. rewrite andb_false_r. by split_and!.
  - destruct (load_warm_outcome plan w r w') as [Hk Hload]; [done..|by rewrite Hs|].
    destruct r as [load|]; [|done]. destruct (Hload _ eq_refl) as [-> Hcover]. rewrite andb_false_r. by split_and!.
  - apply load_cold_outcome in Hr; [|done]. destruct r as [load|]; [|done].
    destruct Hr as (-> & Hsave & Hcover). rewrite andb_true_r. by split_and!.
Qed.

End workspace_load.

(** ** Concrete inputs: the project of [InstallDemo] as the member of a workspace *)
Module WorkspaceInstallDemo.
Import InstallDemo.
#[local] Existing Instance SharingDemo.checksum.
#[local] Existing Instance PlanDemo.formats.
#[local] Existing Instance PlanDemo.no_git.
#[local] Existing Instance PlanDemo.no_layout_json.
#[local] Existing Instance PlanDemo.no_metadata.
#[local] Existing Instance PlanDemo.no_bincode.
#[local] Existing Instance InstallDemo.writes_state.
#[local] Existing Instance InstallDemo.writes_links.
#[local] Existing Instance InstallDemo.no_bins.
#[local] Existing Instance ResolverDemo.linux.
#[local] Existing Instance ResolverDemo.registry.
#[local] Existing Instance InstallDemo.lockfile_crates.
#[local] Existing Instance InstallDemo.lockfile_laws.
Definition workspace_entry (name version : string) : string := "/w/.snpm/" +:+ name +:+ "@" +:+ version +:+ "/node_modules".
Definition directories : list string :=
  ["/w"; "/w/.snpm"; "/w/node_modules"; workspace_entry "app" "1.0.0"; workspace_entry "lib" "2.1.0"; workspace_entry "tool" "1.0.0"] ++
  InstallDemo.directories.
Definition links : list string :=
  [workspace_entry "app" "1.0.0" +:+ "/app"; workspace_entry "lib" "2.1.0" +:+ "/lib"; workspace_entry "tool" "1.0.0" +:+ "/tool"] ++
  InstallDemo.links.
#[local] Instance world : InstallWorld WorldDemo.DemoWorld :=
  WorldDemo.demo_world ResolverDemo.now ResolverDemo.schedule directories links.
#[local] Instance laws : InstallWorldLaws WorldDemo.DemoWorld :=
  WorldDemo.demo_laws ResolverDemo.now ResolverDemo.schedule directories links.

Definition workspace_of (project : Project) : Workspace := {|
  w_root := "/w"; w_projects := [project];
  w_config := {| wc_packages := []; wc_catalog := ∅; wc_catalogs := ∅; wc_only_built_dependencies := [];
                 wc_ignored_built_dependencies := []; wc_disable_global_virtual_store_for_packages := None;
                 wc_hoisting := None |} |}.
Definition workspace : Workspace := workspace_of project.

Definition start : WorldDemo.DemoWorld := (disk_with {["/p/package.json" := "{}"]}, []).
Definition no_plan : WorkspaceInstallPlan := {|
  wp_setup := WorkspaceDemo.no_setup; wp_scenario := Cold; wp_scenario_graph := None; wp_scenario_cache_check := None |}.
Definition planned : Result WorkspaceInstallPlan :=
  plan_workspace_install Ok (view start) config_for_tests workspace true ModePrefer false false.
Definition plan : WorkspaceInstallPlan := default no_plan (result_ok planned).

Definition loaded : Result WorkspaceGraphLoad * WorldDemo.DemoWorld :=
  load_workspace_graph config_for_tests workspace plan true false start.

Definition no_load : WorkspaceGraphLoad :=
  {| gl_graph := {| g_root := ∅; g_packages := ∅ |}; gl_store_paths_map := ∅; gl_wrote_lockfile := false |}.
Definition load : WorkspaceGraphLoad := default no_load (result_ok loaded.1).
Lemma workspace_loaded : load_workspace_graph config_for_tests workspace plan true false start = (Ok load, loaded.2).
Proof. vm_refl. Qed.


(** The whole installation, but for directories and removals.  The view of the
    workspace is wired too, and a member's launchers and links come last. *)
Definition wired_view (entry_of : string -> string -> string) : list string :=
  [entry_of "app" "1.0.0" +:+ "/lib"; entry_of "app" "1.0.0" +:+ "/tool"; entry_of "lib" "2.1.0" +:+ "/app"].
Definition viewed : list string :=
  [workspace_entry "app" "1.0.0" +:+ "/app"; workspace_entry "lib" "2.1.0" +:+ "/lib"; workspace_entry "tool" "1.0.0" +:+ "/tool"].
Example workspace_installed :
  let result := install_workspace Ok config_for_tests workspace true ModePrefer false false start in
  filter (fun message => noted message = true) result.2.2 =
  ["client"; "resolve"; "store app"; "store lib"; "store tool";
   renamed app_entry "app"; "symlink " +:+ app_entry +:+ "/lib"; "symlink " +:+ app_entry +:+ "/tool";
   renamed lib_entry "lib"; "symlink " +:+ lib_entry +:+ "/app"; renamed tool_entry "tool"] ++
  (String.append "symlink " <$> viewed ++ wired_view workspace_entry) ++
  ["symlink /p/node_modules/app"; "symlink /p/node_modules/lib"; "project scripts /p"] /\
  is_ok result.1 = true /\
  filter (fun path => starts_with "/w/" path = true) (btree_iter (files result.2.1)).*1 =
  ["/w/.snpm-install-state"; "/w/.snpm/app@1.0.0/.snpm-dependencies.bin"; "/w/.snpm/lib@2.1.0/.snpm-dependencies.bin";
   "/w/node_modules/.snpm-integrity"; "/w/snpm-lock.bin"; "/w/snpm-lock.yaml"].
Proof. cbn zeta. split_and!; vm_refl. Qed.
End WorkspaceInstallDemo.
